(* ===== verification/_CoqProject ===== *)
-Q . S2P
Prelude.v
Program.v
Float64.v
Provider.v
UsageBudget.v
BudgetFacts.v
BudgetTheorems.v
Retry.v
RetirementQueue.v
WorkerState.v
GoStrings.v
GoText.v
Scaler.v
ScalerSpecs.v
ScalerOps.v
ScalerRuns.v
ScalerFleet.v
ScalerTheorems.v
GoPatterns.v
GoNumbers.v
MergeChecks.v
MergeMarker.v
MergePlan.v
MergePlanTheorems.v
MergeSnapshot.v
MergeApply.v
MergeTickFacts.v
MergeTickSpecs.v
MergeTickTheorems.v
MergeGitHub.v
MergeComments.v
MergeRestTheorems.v
PoolState.v
PoolSections.v
PoolMaintain.v
Pool.v
PoolSystem.v
PoolFacts.v
PoolSpecs.v
PoolLaunch.v
PoolAccounts.v
PoolTheorems.v
Placement.v
PlacementTheorems.v
HostAgent.v
HostAgentFacts.v
HostAgentTheorems.v
HostBoot.v
HostBootTheorems.v
SshServer.v
SshAgent.v
SshAgentTheorems.v
CloudHTTP.v
CloudFacts.v
Fly.v
FlyTheorems.v
FlyHosts.v
FlyHostsTheorems.v
Hetzner.v
HetznerHosts.v
HetznerTheorems.v
StaticHosts.v
Status.v
StatusTheorems.v
Registry.v
RegistryTheorems.v
Supervisor.v
SupervisorTheorems.v
Controller.v
ControllerTheorems.v
Settings.v
GitHubApp.v
GitHubAppTheorems.v
AppSinks.v
AppSinksTheorems.v
Fleet.v
FleetTheorems.v
Route.v
