(* ===== verification/Prelude.v ===== *)
(** * RunnerYard: a verification development

    RunnerYard keeps a fleet of one-job GitHub Actions runners on rented
    compute.  Its controller listens to a GitHub runner scale set, starts a
    worker for every assigned job through a compute provider, and retires it
    when the job is done; a durable ledger bounds what it may spend, and a
    durable journal remembers every runner whose cleanup is due.  A worker is a
    machine of its own or a slot on a host that a pool keeps; a placement tries
    such tiers in order.  On every host of a pool an agent turns slots into
    docker containers, one command at a time, over SSH.  Beside the controller
    runs a merge queue: one tick at a time it stacks labeled pull requests, tests
    the top of the stack, and fast-forwards the target branch.
    This library models these from the Go sources under src/ and proves what
    makes them safe.

    ** Files, and the sources they model

    - [Prelude] (this file): integers at Go's width ([wrap64]), durations and
      instants, list lemmas, and the tactics [case_bool], [breflect], [blia].
    - [Program]: the monad [prog] of programs as trees of atomic actions on a
      shared state, in which every component with effects is written; run to
      completion by [runP], or action by action under a scheduler; with Hoare
      rules ([hoare]), rely-guarantee specifications ([spec]) and counting of a
      measure ([bounded]).
    - [Float64]: IEEE binary64, as far as durations and rates are computed with
      it; rounding is written out, and it keeps order.
    - [Provider]: src/provider/provider.go, with Go's error trees, [errors.As],
      [errors.Is] and the error classes (transient, capacity, partial launch).
    - [UsageBudget], [BudgetFacts], [BudgetTheorems]:
      src/controller/usage_budget.go.  The state is a [usageBudget]: settings,
      entries in memory, the ledger file and its temporary sibling.  Every
      system call of a write may fail ([persistIO]).
    - [Retry]: src/provider/retry/retry.go, with [Do] over any limiter,
      operation, sleep and random source.
    - [RetirementQueue]: src/controller/retirement_queue.go, the journal as a
      [gmap] with its file; every system call may fail ([journalIO]).
    - [WorkerState]: src/controller/state.go, the local worker map and the
      departures it remembers.
    - [GoStrings], [GoText], [GoNumbers], [GoPatterns]: what the sources use of
      [strings], [strconv], [filepath], [time.Format], [time.ParseDuration],
      [encoding/hex], [encoding/base64], [encoding/json], [net/url] and
      [regexp].
    - [Scaler]: src/controller/scaler.go and the routing of
      src/controller/scale_sets.go: launch, cleanup, retirement,
      reconciliation, recovery, the launch gate and the message handlers, as
      programs over the record [scaler].  The outside world (clock, UUIDs,
      compute provider, GitHub's scale-set service, disk, goroutine schedule)
      is the class [Env]: any functions.  [launchWorkers] interleaves its
      goroutines action by action in the order the schedule gives.
    - [ScalerSpecs], [ScalerOps], [ScalerRuns], [ScalerFleet]: the invariant of
      the scaler, the specification of every operation under interference, runs
      of any number of messages in a concrete world, and the fleet bound;
      [ScalerTheorems] the results.
    - [Supervisor] and [SupervisorTheorems]: the goroutines of
      src/controller/controller.go around the scaler, one session per scale set
      (scale_sets.go, wake.go, paced_client.go), as a step relation over the
      same scaler; the listener library, GitHub and timers are the class
      [SessionEnv].
    - [Controller] and [ControllerTheorems]: [New] and [Run] of
      src/controller/controller.go up to those goroutines: the ledger, the
      journal, the reporter and the scale sets put together in one scaler.
    - [Status], [StatusTheorems]: src/controller/status.go, alert.go and
      conditions.go, the published status, its health and its file, what is
      alerted; [updateReporter], [flush] and the goroutine's turns are programs
      over [statusSys].
    - [PoolState], [PoolSections], [PoolMaintain]: the state of a host pool, its
      critical sections, and the figures and conditions it reports, from
      src/pool/compute.go, pool.go, usage.go and conditions.go.  A section under
      the pool's mutex is a pure function of the instants it reads and the
      record [Pool].
    - [Pool]: the pool's methods and goroutines as programs over those sections
      and the calls to the host source, the host agents, the registry and the
      clock, which are the class [PoolEnv]; every call that matters is in a
      trace.
    - [PoolSystem]: any number of threads of a pool interleaved, as a step
      relation, and a concrete world; [PoolFacts], [PoolSpecs], [PoolLaunch],
      [PoolAccounts], [PoolTheorems]: its invariants and results.
    - [StaticHosts]: src/pool/static.go and hostkey.go, hosts named by the
      operator, and the keys derived for hosts.
    - [Placement] and [PlacementTheorems]: src/pool/placement.go, over any tiers;
      the class [LaunchContract] is what a tier promises, which a pool keeps and
      a placement of such tiers keeps in turn.
    - [HostAgent]: src/hostagent/agent.go and workspace.go, every command as a
      program over the slots' containers; docker, the disk and the file system
      are the class [AgentEnv].  [HostAgentFacts] and [HostAgentTheorems]: a slot
      as an abstract machine, and what the agent keeps of it.
    - [HostBoot] and [HostBootTheorems]: how a machine becomes a host, installed
      under sshd (src/hostagent/install.go) or booted from the runner image
      (boot.go, rootfs.go), and the agent's command line (host.go of
      src/cmd/runneryard); processes, files and key formats are the class
      [MachineEnv], and every call is in a log.  [SshServer]:
      src/hostagent/sshserver.go, a state that reacts to whatever arrives.
    - [SshAgent] and [SshAgentTheorems]: src/pool/sshagent.go over the SSH
      library, the class [SshEnv]; [AgentLink] joins a call to the agent that
      answers it.
    - [CloudHTTP]: the calls of an adapter to its provider's API, one request,
      retried, with every exchange in a trace; the network is the class
      [CloudEnv], any function of the requests before.  [CloudFacts]: rules for
      such calls, and for what a trace of exchanges keeps while others send
      requests too ([justified]: every request was allowed when it was sent).
    - [Registry] and [RegistryTheorems]: src/registry/registry.go, the digest
      that an image tag names, over the class [RegistryEnv].
    - [Fly], [FlyHosts]: src/providers/fly/adapter.go, hostsource.go and
      prices.go, workers and pool hosts that are Fly Machines with volumes.
      [Fly] also states what the API is relied on for (the classes [FlyMachines]
      and [FlyCloud]); [FlyTheorems] and [FlyHostsTheorems]: the results, each
      with an API that keeps those laws.
    - [Hetzner], [HetznerHosts], [HetznerTheorems]:
      src/providers/hetzner/adapter.go, hostsource.go and prices.go, workers and
      pool hosts that are servers behind a firewall.
    - [MergeChecks]: src/mergequeue/config.go, checks.go, bisect.go.
    - [MergeMarker]: src/mergequeue/marker.go, the comments that carry the
      queue's state between ticks; the regular expressions are written out as
      matchers.
    - [MergePlan], [MergePlanTheorems]: src/mergequeue/plan.go, the pure planner.
    - [MergeSnapshot]: src/mergequeue/snapshot.go; the interfaces [GitHub] and
      [Git] of src/mergequeue/mergequeue.go are the class [MQEnv], whose answers
      may depend on everything called before.
    - [MergeApply]: src/mergequeue/apply.go, up to the whole [Tick].
    - [MergeTickFacts], [MergeTickSpecs], [MergeTickTheorems]: what every write
      of a tick is justified by.
    - [MergeGitHub]: src/mergequeue/github.go and git.go, which implement those
      interfaces by REST calls and git commands, over the class [QueueWorld];
      [MergeComments] and [MergeRestTheorems]: what they read and what they send.
    - [Settings]: the environment variables of src/cmd/runneryard/config.go and
      the pools file of pools.go, with their defaults and checks.  [Fleet]: the
      computes, pools, placement and controller that [serve] of main.go builds
      from them, and the trust check of pool_trust.go.  [FleetTheorems]: what
      accepted settings are worth.
    - [GitHubApp] and [GitHubAppTheorems]: src/githubapp/githubapp.go and
      trust.go, the setup of a GitHub App and the private-target check; GitHub,
      keys, the browser and randomness are the class [AppWorld].  [AppSinks] and
      [AppSinksTheorems]: src/githubapp/sinks.go, where the credentials go; every
      system call may fail ([FileWorld]).

    ** What the theorems show

    - The ledger: whatever fails, the file a crash leaves is a ledger the next
      start accepts ([ledger_survives_crash]); charges never exceed the budget
      but for adopted workers ([run_within_limit]); admission, settlement and
      the published status do what they say ([reserve_admits_iff],
      [settle_charges_lifetime], [snapshot_sound]).  Two starts that refuse an
      intact ledger are exhibited ([settle_before_start_rejected],
      [raised_lifetime_rejected]).
    - The journal: entries are durable, load back, and never change identity
      ([journal_survives_crash], [put_roundtrip]; also [identity_proof_immutable]
      of [RetirementQueue]).
    - The scaler, for any sequence of messages and any answers of the world:
      nothing is launched before reservation and journal entry are on disk
      ([launch_write_ahead]), no registration is lost ([registrations_tracked]),
      nothing is removed or destroyed without proof ([removal_authorised],
      [destroy_journaled]), a retirement is finished or still journaled
      ([retire_done_or_journaled]), the fleet respects its maximum
      ([fleet_within_maximum]), an absent worker is kept for the grace
      ([absent_worker_kept]), the gate backs off ([gate_backoff]), errors are
      sorted into those that stop the controller and those that do not
      ([launch_errors_sorted], [handlers_fail_closed]); a cleanup failure that
      is not fail-closed is exhibited ([cleanup_failure_masked]).
    - The sessions: however the goroutines interleave, the supervised scaler is
      one that handled the messages alone and in order, after one recovery
      ([supervised_scaler]), and it starts from state files that meet the
      invariants ([controller_starts_sound]); sessions open, back off and end by their rules
      ([sessions_follow_rules]), and a failure ends them all
      ([fleet_ends_together]).
    - The status: its file always holds a status that a reader accepts
      ([status_always_valid]), no update of it is lost ([status_not_lost]), and
      alerts are of a change or an hour apart ([alerts_spaced]).
    - A pool, with any number of launches, inventories, removals and
      maintenance passes interleaved: a host is given back only when nothing can
      run on it ([returns_idle_hosts]); a launch reports whatever it may have
      started ([launch_accounts_starts]); launches fill the best slot
      ([reserve_best]), growth stays within its bounds ([grow_within_bounds]),
      measured usage is time ([usage_measures_time]).
    - A host: an agent changes a slot only as its abstract machine allows
      ([agent_refines_slot]) and removes no container but the lease's
      ([agent_keeps_containers]); slots share neither cores nor volumes
      ([slot_cores_disjoint], [slot_volumes_distinct]); no argument, log or
      reply depends on the JIT configuration ([jit_config_secret]).  A machine is
      reachable only when it is prepared ([install_key_last]) or clean
      ([boot_serves_ready]), and its own SSH server runs commands for the
      controller only ([ssh_server_admits]).  Over SSH, a
      command reaches only the host whose key was pinned
      ([commands_reach_pinned_hosts]), and a start is taken for refused only when
      the slot did not change ([start_answer_faithful]).
    - A placement: tiers are tried in order ([placement_launch_order]), nothing
      is left running unreported ([placement_contract]), a worker is destroyed
      by its own tier, an inventory is never partial.
    - The providers, whatever their APIs answer and with any number of calls in
      progress: one Fly Machine per lease, although answers are lost
      ([fly_launch_single]), which is gone once destroyed ([fly_destroyed]) and
      is read back as what it was launched for ([fly_identity_roundtrip]); a
      Hetzner server runs only behind its firewall ([hetzner_behind_firewall])
      and what a launch created it reports ([hetzner_launch_accounts]); the
      sources of pool hosts touch only what is their pool's
      ([fly_hosts_touch_own], [hetzner_hosts_touch_own]).  A launch that blames
      a shortage although it may have created a Machine is exhibited
      ([lookup_shortage_is_capacity]).
    - An image tag resolves to the digest of what it names
      ([resolve_pins_tag]), and a registry's credentials go to that registry only
      ([credentials_stay_home]).
    - Settings that are accepted start a controller with those settings
      ([accepted_settings_start]) and a placement with every pool
      ([accepted_pools_placed]), whose slots fit their hosts ([fly_slots_fit]); a
      pool serves only targets that GitHub has called private
      ([pools_private_only]).  Three settings that should be refused are exhibited
      ([budget_named_as_journal], [rate_NaN_accepted], [fly_slots_overflow]).
    - The setup of an App stores only what GitHub has verified for it
      ([setup_stores_verified]), whole or not at all
      ([credentials_all_or_nothing]).
    - Retries: attempts, delays and outcomes ([do_first_settled],
      [backoff_bounded]); the limiter admits more than its rate
      ([limiter_overadmits]).
    - The merge queue: the target is fast-forwarded at most once per tick, and
      only to a commit whose required checks passed on exactly that commit
      ([tick_lands_tested], [tick_moves_target_once], [plan_lands_one]);
      branches are pushed only as recorded, leased chains of rebases
      ([tick_pushes_recorded_chain]), with leases in the command line too
      ([queue_pushes_tested]); lists that come in pages are read whole
      ([getList_complete]) and one status comment is kept
      ([upsert_roundtrip]); rejection needs a failure of the pull
      request alone ([tick_rejects_alone]); a dry run writes nothing
      ([dry_run_reads_only]); ticks complete ([tick_completes]); the queue is
      first in, first out ([fifo_order]); what is formed, retried, split and
      bisected is characterised ([plan_forms_next], [plan_forms_sound],
      [bisection_isolates]); checks
      are evaluated as documented ([checks_outcome]); and what a tick writes in
      a comment the next tick reads back ([stack_marker_roundtrip],
      [own_records_kept]).

    ** Fuel and bounds

    Recursion that is not structural takes fuel, and the fuel suffices: the
    matchers of [MergeMarker] take the length of the comment; [formFuel] takes
    one more than the number of pull requests, since a split is shorter;
    [settleLoop] takes one turn per five seconds of the settle wait and two
    more.  The last two set [mq_stuck] if they ran out, and [tick_completes]
    proves they do not.  [doFrom] takes the number of attempts.
    A pool's launch makes [maxStartAttempts] attempts, as the source does;
    [readLateLoop] takes one turn per poll of its wait and one more, and logs
    [CStuck] if it ran out.  The polls of a Fly or Hetzner wait, and of dockerd's start, outlast the
    timeout, since a timer never fires early.  A Hetzner list reads at most
    [pages] pages, any number; once it suffices a larger one reads the same
    ([eachServer_complete]).  The agent's wait for a purge polls as often as the
    environment says before its timer fires.  Durations are
    computed exactly up to 2^24 seconds and backoffs up to 2^49 nanoseconds,
    days beyond what the configuration accepts.

    ** Not modelled

    The commands other than serve, merge-queue, host and what auth shares with
    them (init, doctor, lint, budget estimate, route, status printing), which
    print and prompt; the delivery of alerts; the background purger and the file
    locks of a host.  The JSON of an answer is decoded by a parameter, and a
    request is kept as its method, address, query and body value.  A price or a
    number of CPUs of the pools file that YAML writes as NaN is not represented.
    Log lines, comments and metrics texts that no code reads
    back are left out; of error messages only the fixed text is kept.  Of a pool
    the wake-up channel and the times of its warnings are left out, loops over a
    map go in the order of its keys, and agents asked in parallel answer in the
    order of their hosts. *)

From stdpp Require Export prelude gmap strings sorting.
From Stdlib Require Export ZArith Lia Ascii.

#[global] Open Scope Z_scope.
#[export] Set Warnings "-clear-no-such-hyp,-register-all,-level-tolerance".

(** * Records

    [r |> f |> g] applies updates in the order they are written.  A field is
    replaced through the eta-expansion of its record: with
    [eta r = mk (a r) (b r) (c r)], the term [ltac:(replace_field eta b v r)] is
    [mk (a r) v (c r)]. *)

Notation "r |> f" := (f r) (at level 61, left associativity, only parsing).

Ltac replace_field eta field v r :=
  let expanded := eval cbv beta delta [eta] in (eta r) in
  match expanded with
  | context hole [field r] => let updated := context hole [v] in exact updated
  end.

(** * Machine integers, durations and instants

    Go's [int64] (and [int] on the 64-bit targets the controller ships for) is
    a [Z] with its wrap-around written out by [wrap64].  A [time.Duration] is
    an [int64] number of nanoseconds.  A [time.Time] is the number of
    nanoseconds since Go's zero instant (January 1, year 1, UTC), so that
    [IsZero] is a test against [0]; location and monotonic reading carry no
    information any modelled operation looks at. *)

Abbreviation duration := Z (only parsing).
Abbreviation time := Z (only parsing).

Definition max_int64 : Z := 2 ^ 63 - 1.
Definition min_int64 : Z := - 2 ^ 63.

Definition wrap64 (z : Z) : Z := (z + 2 ^ 63) mod 2 ^ 64 - 2 ^ 63.

Definition in_int64 (z : Z) : Prop := min_int64 <= z <= max_int64.

Definition Nanosecond : duration := 1.
Definition Millisecond : duration := 1000000.
Definition Second : duration := 1000000000.
Definition Minute : duration := 60000000000.
Definition Hour : duration := 3600000000000.

(** [time.Time{}] *)
Definition zeroTime : time := 0.
Definition IsZero (t : time) : bool := t =? 0.
Definition Before (t u : time) : bool := t <? u.
Definition After (t u : time) : bool := u <? t.

(** [t.Add d] *)
Definition Add (t : time) (d : duration) : time := t + d.

(** [t.Sub u]: saturates at the ends of the duration range. *)
Definition Sub (t u : time) : duration := Z.max min_int64 (Z.min max_int64 (t - u)).

(** [t.Truncate d] for a positive [d]. *)
Definition Truncate (t : time) (d : duration) : time := t - t mod d.

(** [t.Unix()] and [time.Unix(s, 0)]. *)
Definition unixEpochSeconds : Z := 62135596800.
Definition Unix (t : time) : Z := t / Second - unixEpochSeconds.
Definition UnixTime (s : Z) : time := (s + unixEpochSeconds) * Second.

Lemma wrap64_id z : in_int64 z → wrap64 z = z.
Proof.
  unfold in_int64, wrap64, min_int64, max_int64. intros H.
  rewrite Z.mod_small; lia.
Qed.

Lemma wrap64_range z : in_int64 (wrap64 z).
Proof.
  unfold in_int64, wrap64, min_int64, max_int64.
  pose proof (Z.mod_pos_bound (z + 2 ^ 63) (2 ^ 64) ltac:(lia)). lia.
Qed.

Lemma Sub_exact t u : in_int64 (t - u) → Sub t u = t - u.
Proof. unfold in_int64, Sub, min_int64, max_int64. lia. Qed.

Lemma Sub_range t u : in_int64 (Sub t u).
Proof. unfold in_int64, Sub, min_int64, max_int64. lia. Qed.

Lemma Sub_mono t u v : t <= u → Sub t v <= Sub u v.
Proof. unfold Sub. lia. Qed.

Lemma Truncate_le t d : 0 < d → Truncate t d <= t < Truncate t d + d.
Proof. intros Hd. unfold Truncate. pose proof (Z.mod_pos_bound t d Hd). lia. Qed.

Lemma Unix_UnixTime s : Unix (UnixTime s) = s.
Proof. unfold Unix, UnixTime, Second. rewrite Z.div_mul; lia. Qed.

Lemma UnixTime_Unix t : t mod Second = 0 → UnixTime (Unix t) = t.
Proof.
  unfold UnixTime, Unix, Second. intros H.
  pose proof (Z.div_mod t 1000000000 ltac:(lia)). lia.
Qed.

(** * Lists *)

(** Sum of an integer measure over a list. *)
Fixpoint sumZ {A} (f : A → Z) (l : list A) : Z :=
  match l with [] => 0 | x :: l => f x + sumZ f l end.

Lemma sumZ_app {A} (f : A → Z) l k : sumZ f (l ++ k) = sumZ f l + sumZ f k.
Proof. induction l; simpl; lia. Qed.

Lemma sumZ_nonneg {A} (f : A → Z) l : (∀ x, x ∈ l → 0 <= f x) → 0 <= sumZ f l.
Proof.
  induction l as [|x l IH]; simpl; intros H; [lia |].
  pose proof (H x ltac:(left)). assert (0 <= sumZ f l); [|lia].
  apply IH. intros y Hy. apply H. by right.
Qed.

Lemma sumZ_le {A} (f g : A → Z) l : (∀ x, x ∈ l → f x <= g x) → sumZ f l <= sumZ g l.
Proof.
  induction l as [|x l IH]; simpl; intros H; [lia |].
  pose proof (H x ltac:(left)). assert (sumZ f l <= sumZ g l); [|lia].
  apply IH. intros y Hy. apply H. by right.
Qed.

Lemma sumZ_bound {A} (f : A → Z) (b : Z) l :
  (∀ x, x ∈ l → f x <= b) → sumZ f l <= b * Z.of_nat (length l).
Proof.
  induction l as [|x l IH]; cbn [sumZ length]; intros H; [lia |].
  pose proof (H x ltac:(left)). assert (sumZ f l <= b * Z.of_nat (length l)); [|lia].
  apply IH. intros y Hy. apply H. by right.
Qed.

Lemma sumZ_map {A B} (f : B → Z) (g : A → B) l : sumZ f (map g l) = sumZ (λ x, f (g x)) l.
Proof. induction l; simpl; congruence. Qed.

(** Boolean filters, as the source's [slices.DeleteFunc] and guarded appends. *)
Definition keep {A} (p : A → bool) (l : list A) : list A := List.filter p l.

Lemma sumZ_keep_le {A} (f : A → Z) (p : A → bool) l :
  (∀ x, x ∈ l → 0 <= f x) → sumZ f (keep p l) <= sumZ f l.
Proof.
  induction l as [|x l IH]; simpl; intros H; [lia |].
  pose proof (H x ltac:(left)).
  assert (sumZ f (keep p l) <= sumZ f l) by (apply IH; intros y Hy; apply H; by right).
  destruct (p x); simpl; lia.
Qed.

Lemma elem_of_keep {A} (p : A → bool) (l : list A) x : x ∈ keep p l ↔ x ∈ l ∧ p x = true.
Proof. unfold keep. rewrite !list_elem_of_In. apply List.filter_In. Qed.

Lemma keep_app {A} (p : A → bool) (l k : list A) : keep p (l ++ k) = keep p l ++ keep p k.
Proof. apply List.filter_app. Qed.

Lemma keep_all {A} (p : A → bool) (l : list A) : (∀ x, x ∈ l → p x = true) → keep p l = l.
Proof.
  induction l as [|x l IH]; simpl; intros H; [done |].
  rewrite (H x ltac:(left)). f_equal. apply IH. intros y Hy. apply H. by right.
Qed.

Lemma keep_keep {A} (p q : A → bool) (l : list A) :
  keep p (keep q l) = keep (λ x, q x && p x) l.
Proof.
  induction l as [|x l IH]; simpl; [done |].
  destruct (q x); simpl; [destruct (p x); simpl; congruence | done].
Qed.

Lemma length_keep {A} (p : A → bool) (l : list A) : (length (keep p l) <= length l)%nat.
Proof. induction l as [|x l IH]; simpl; [lia |]. destruct (p x); simpl; lia. Qed.

Lemma keep_ext {A} (p q : A → bool) (l : list A) :
  (∀ x, x ∈ l → p x = q x) → keep p l = keep q l.
Proof.
  induction l as [|x l IH]; simpl; intros H; [done |].
  rewrite (H x ltac:(left)), IH; [done |]. intros y Hy. apply H. by right.
Qed.

Lemma NoDup_keep_map {A B} (f : A → B) (p : A → bool) (l : list A) :
  NoDup (map f l) → NoDup (map f (keep p l)).
Proof.
  induction l as [|x l IH]; simpl; intros H; [done |].
  apply NoDup_cons in H as [Hx Hl]. destruct (p x); simpl; [|by apply IH].
  apply NoDup_cons. split; [|by apply IH]. intros Hin. apply Hx.
  apply list_elem_of_fmap in Hin as (y & -> & Hy).
  apply list_elem_of_fmap. exists y. split; [done |]. by apply elem_of_keep in Hy as [? _].
Qed.

Lemma existsb_false {A} (p : A → bool) l : existsb p l = false ↔ ∀ x, x ∈ l → p x = false.
Proof.
  rewrite <- not_true_iff_false, existsb_exists. split.
  - intros H x Hx. destruct (p x) eqn:E; [|done]. exfalso. apply H. exists x.
    by rewrite <- list_elem_of_In.
  - intros H (x & Hx & E). rewrite <- list_elem_of_In in Hx. specialize (H x Hx). congruence.
Qed.

(** [slices.IndexFunc], as an option instead of [-1]. *)
Fixpoint indexFunc {A} (p : A → bool) (l : list A) : option nat :=
  match l with
  | [] => None
  | x :: l => if p x then Some 0%nat else S <$> indexFunc p l
  end.

Lemma indexFunc_Some {A} (p : A → bool) l i :
  indexFunc p l = Some i →
  ∃ l1 x l2, l = l1 ++ x :: l2 ∧ length l1 = i ∧ p x = true ∧ Forall (λ y, p y = false) l1.
Proof.
  revert i. induction l as [|x l IH]; intros i; simpl; [done |].
  destruct (p x) eqn:E.
  - intros [= <-]. exists [], x, l. auto.
  - destruct (indexFunc p l) as [j|] eqn:Ej; simpl; [|done]. intros [= <-].
    destruct (IH j eq_refl) as (l1 & y & l2 & -> & <- & Hy & Hl1).
    exists (x :: l1), y, l2. split_and!; auto.
Qed.

Lemma indexFunc_None {A} (p : A → bool) l :
  indexFunc p l = None ↔ ∀ x, x ∈ l → p x = false.
Proof.
  induction l as [|x l IH]; simpl.
  - split; [|done]. intros _ y Hy. by apply elem_of_nil in Hy.
  - destruct (p x) eqn:E.
    + split; [done |]. intros H. specialize (H x ltac:(left)). congruence.
    + rewrite fmap_None, IH. split.
      * intros H y Hy. apply elem_of_cons in Hy as [->|Hy]; auto.
      * intros H y Hy. apply H. by right.
Qed.

(** Replace the element at an index; out of range changes nothing. *)
Lemma insert_middle {A} (l1 : list A) x y l2 :
  <[length l1 := y]> (l1 ++ x :: l2) = l1 ++ y :: l2.
Proof. rewrite insert_app_r_alt by lia. by rewrite Nat.sub_diag. Qed.

(** * Strings, in Go's byte order *)

Definition str_le (a b : string) : Prop := String.leb a b = true.

#[global] Instance str_le_dec : RelDecision str_le.
Proof. intros a b. unfold str_le. apply _. Defined.

Lemma ascii_compare_N a b : Ascii.compare a b = N.compare (N_of_ascii a) (N_of_ascii b).
Proof. done. Qed.

Lemma string_leb_cons a s b t :
  String.leb (String a s) (String b t) = true ↔
  (N_of_ascii a < N_of_ascii b)%N ∨ a = b ∧ String.leb s t = true.
Proof.
  unfold String.leb. simpl. rewrite ascii_compare_N.
  destruct (N.compare_spec (N_of_ascii a) (N_of_ascii b)) as [E|E|E].
  - assert (a = b) as ->.
    { rewrite <- (ascii_N_embedding a), <- (ascii_N_embedding b). by rewrite E. }
    split; [auto |]. intros [?|[_ ?]]; [lia | done].
  - split; auto.
  - split; [done |]. intros [?|[-> _]]; lia.
Qed.

#[global] Instance str_le_trans : Transitive str_le.
Proof.
  intros a. unfold str_le. induction a as [|c a IH]; intros [|d b] [|e k]; try done.
  rewrite !string_leb_cons. intros [H1|[-> H1]] [H2|[-> H2]]; eauto; left; lia.
Qed.

#[global] Instance str_le_total : Total str_le.
Proof. intros a b. apply String.leb_total. Qed.

#[global] Instance str_le_antisym : AntiSymm (=) str_le.
Proof. intros a b. apply String.leb_antisym. Qed.

Definition byte_in (lo hi : ascii) (c : ascii) : bool :=
  (nat_of_ascii lo <=? nat_of_ascii c)%nat && (nat_of_ascii c <=? nat_of_ascii hi)%nat.

Definition lower_byte : ascii → bool := byte_in "a"%char "z"%char.
Definition digit_byte : ascii → bool := byte_in "0"%char "9"%char.
Definition hex_byte (c : ascii) : bool := byte_in "a"%char "f"%char c || digit_byte c.

Fixpoint string_forallb (p : ascii → bool) (s : string) : bool :=
  match s with "" => true | String c s => p c && string_forallb p s end%string.

(** * Tactics *)

(** Case analysis on the tests of the code, discriminating impossible branches. *)
Ltac case_bool :=
  repeat match goal with
  | H : context [if ?b then _ else _] |- _ => destruct b eqn:?; simplify_eq/=
  | |- context [if ?b then _ else _] => destruct b eqn:?; simplify_eq/=
  end.

(** Turn the boolean comparisons of the context into propositions for [lia]. *)
Ltac breflect :=
  unfold Before, After, IsZero in *;
  rewrite ?andb_true_iff, ?andb_false_iff, ?orb_true_iff, ?orb_false_iff,
    ?negb_true_iff, ?negb_false_iff in *;
  rewrite ?Z.leb_le, ?Z.leb_gt, ?Z.ltb_lt, ?Z.ltb_ge, ?Z.eqb_eq, ?Z.eqb_neq in *.

Ltac blia := breflect; lia.
