(* ===== verification/Program.v ===== *)
(** Sequential and concurrent programs over a shared state.

    A component whose code threads mutable state through many calls is written
    in the [prog] monad, with stdpp's [x ← m; k] notation.  A program is a tree
    of atomic actions on the state: one action per call that takes a lock or
    leaves the process.  [runP] runs a program on its own; a scheduler may also
    interleave the actions of several programs.  Go's [error] results stay
    values, so that the early returns of the source are visible in the model.

    [wp] is a rely-guarantee weakest precondition: between two actions of the
    program the state may change by [R], and every action preserves an
    invariant and changes the state by [G]. *)

From S2P Require Import Prelude.

(** * Programs *)

Inductive prog (Σ A : Type) : Type :=
  | Ret (a : A)
  | Act (X : Type) (op : Σ → X * Σ) (k : X → prog Σ A).
Arguments Ret {Σ A} a.
Arguments Act {Σ A X} op k.

Fixpoint bindP {Σ A B} (f : A → prog Σ B) (p : prog Σ A) : prog Σ B :=
  match p with
  | Ret a => f a
  | Act op k => Act op (λ x, bindP f (k x))
  end.

#[global] Instance prog_ret Σ : MRet (prog Σ) := λ A a, Ret a.
#[global] Instance prog_bind Σ : MBind (prog Σ) := λ A B f p, bindP f p.

(** A single atomic action. *)
Definition act {Σ A} (op : Σ → A * Σ) : prog Σ A := Act op Ret.

Definition get {Σ A} (f : Σ → A) : prog Σ A := act (λ s, (f s, s)).
Definition update {Σ} (f : Σ → Σ) : prog Σ () := act (λ s, ((), f s)).

(** [if err := m; err != nil { h } ; k] *)
Definition on_err {Σ E A} (m : prog Σ (option E)) (h : E → prog Σ A) (k : prog Σ A) : prog Σ A :=
  e ← m; match e with Some err => h err | None => k end.

(** [for _, x := range l { if r, done := f x; done { return r } } ; k] *)
Fixpoint for_each {Σ A B} (l : list A) (f : A → prog Σ (option B)) (k : prog Σ B) : prog Σ B :=
  match l with
  | [] => k
  | x :: l => r ← f x; match r with Some b => mret b | None => for_each l f k end
  end.

(** [for _, x := range l { acc, err = f x acc; if err != nil { return err } }] *)
Fixpoint fold_err {Σ A B E} (l : list A) (f : A → B → prog Σ (E + B)) (acc : B)
    : prog Σ (E + B) :=
  match l with
  | [] => mret (inr acc)
  | x :: l => r ← f x acc; match r with inl err => mret (inl err) | inr acc => fold_err l f acc end
  end.

(** Run a program without interference. *)
Fixpoint runP {Σ A} (p : prog Σ A) (s : Σ) : A * Σ :=
  match p with
  | Ret a => (a, s)
  | Act op k => let '(x, s) := op s in runP (k x) s
  end.

(** Run the next action of a program. *)
Definition stepP {Σ A} (p : prog Σ A) (s : Σ) : prog Σ A * Σ :=
  match p with
  | Ret a => (Ret a, s)
  | Act op k => let '(x, s) := op s in (k x, s)
  end.

Definition evalP {Σ A} (p : prog Σ A) (s : Σ) : A := (runP p s).1.
Definition execP {Σ A} (p : prog Σ A) (s : Σ) : Σ := (runP p s).2.

Lemma runP_bind {Σ A B} (p : prog Σ A) (f : A → prog Σ B) s :
  runP (p ≫= f) s = runP (f (evalP p s)) (execP p s).
Proof.
  unfold evalP, execP, mbind, prog_bind. revert s.
  induction p as [a|X op k IH]; intros s; simpl; [done |]. destruct (op s) as [x s']. apply IH.
Qed.

Lemma execP_bind {Σ A B} (p : prog Σ A) (f : A → prog Σ B) s :
  execP (p ≫= f) s = execP (f (evalP p s)) (execP p s).
Proof. unfold execP at 1. by rewrite runP_bind. Qed.

Lemma evalP_bind {Σ A B} (p : prog Σ A) (f : A → prog Σ B) s :
  evalP (p ≫= f) s = evalP (f (evalP p s)) (execP p s).
Proof. unfold evalP at 1. by rewrite runP_bind. Qed.

Lemma execP_ret {Σ A} (x : A) (s : Σ) : execP (mret x) s = s.
Proof. done. Qed.

Lemma evalP_ret {Σ A} (x : A) (s : Σ) : evalP (mret x) s = x.
Proof. done. Qed.

(** * Sequential reasoning *)

Definition hoare {Σ A} (P : Σ → Prop) (p : prog Σ A) (Q : A → Σ → Prop) : Prop :=
  ∀ s, P s → Q (evalP p s) (execP p s).

Section hoare.
Context {Σ : Type}.
Implicit Types P : Σ → Prop.

Lemma hoare_ret {A} P (a : A) Q : (∀ s, P s → Q a s) → hoare P (mret a) Q.
Proof. intros H s. apply H. Qed.

Lemma hoare_bind {A B} P (p : prog Σ A) (f : A → prog Σ B) T Q :
  hoare P p T → (∀ a, hoare (T a) (f a) Q) → hoare P (p ≫= f) Q.
Proof. intros Hp Hf s HP. rewrite evalP_bind, execP_bind. apply Hf, Hp, HP. Qed.

Lemma hoare_act {A} P (op : Σ → A * Σ) Q :
  (∀ s x s', P s → op s = (x, s') → Q x s') → hoare P (act op) Q.
Proof.
  intros H s HP. unfold evalP, execP, act. simpl. destruct (op s) as [x s'] eqn:E. eauto.
Qed.

Lemma hoare_conseq {A} P P' (p : prog Σ A) (Q Q' : A → Σ → Prop) :
  hoare P' p Q' → (∀ s, P s → P' s) → (∀ a s, Q' a s → Q a s) → hoare P p Q.
Proof. intros H HP HQ s Hs. apply HQ, H, HP, Hs. Qed.
End hoare.

(** * Rely-guarantee reasoning *)

Section wp.
Context {Σ : Type} (R G : Σ → Σ → Prop) (I : Σ → Prop).
Context `{!PreOrder R, !PreOrder G}.

Fixpoint wp {A} (p : prog Σ A) (Q : A → Σ → Prop) (s : Σ) : Prop :=
  match p with
  | Ret a => Q a s
  | Act op k => ∀ s1, R s s1 → I s1 → ∀ x s2, op s1 = (x, s2) → G s1 s2 ∧ I s2 ∧ wp (k x) Q s2
  end.

(** [P] before, [Q] after. *)
Definition spec {A} (P : Σ → Prop) (p : prog Σ A) (Q : A → Σ → Prop) : Prop :=
  ∀ s, P s → wp p Q s.

(** An assertion interference cannot break. *)
Definition stableR (P : Σ → Prop) : Prop := ∀ s s', R s s' → P s → P s'.

Lemma wp_conseq {A} (p : prog Σ A) (Q Q' : A → Σ → Prop) s :
  (∀ a s, Q a s → Q' a s) → wp p Q s → wp p Q' s.
Proof.
  intros HQ. revert s. induction p as [a|X op k IH]; simpl; intros s H; [auto |].
  intros s1 HR HI x s2 E. destruct (H s1 HR HI x s2 E) as (? & ? & ?). auto.
Qed.

Lemma wp_bind {A B} (p : prog Σ A) (f : A → prog Σ B) Q s :
  wp p (λ a, wp (f a) Q) s → wp (p ≫= f) Q s.
Proof.
  unfold mbind, prog_bind. revert s. induction p as [a|X op k IH]; simpl; intros s H; [done |].
  intros s1 HR HI x s2 E. destruct (H s1 HR HI x s2 E) as (? & ? & ?). auto.
Qed.

Lemma spec_ret {A} (P : Σ → Prop) (a : A) Q : (∀ s, P s → Q a s) → spec P (mret a) Q.
Proof. intros H s HP. simpl. auto. Qed.

Lemma spec_bind {A B} P (p : prog Σ A) (f : A → prog Σ B) T Q :
  spec P p T → (∀ a, spec (T a) (f a) Q) → spec P (p ≫= f) Q.
Proof.
  intros Hp Hf s HP. apply wp_bind. eapply wp_conseq; [|apply Hp, HP]. intros a s'. apply Hf.
Qed.

Lemma spec_conseq {A} (P P' : Σ → Prop) (p : prog Σ A) (Q Q' : A → Σ → Prop) :
  spec P' p Q' → (∀ s, P s → P' s) → (∀ a s, Q' a s → Q a s) → spec P p Q.
Proof. intros H HP HQ s Hs. eapply wp_conseq; [apply HQ | apply H, HP, Hs]. Qed.

Lemma spec_act {A} P (op : Σ → A * Σ) Q :
  stableR P →
  (∀ s x s', I s → P s → op s = (x, s') → G s s' ∧ I s' ∧ Q x s') → spec P (act op) Q.
Proof.
  intros Hst H s HP s1 HR HI x s2 E. destruct (H s1 x s2) as (? & ? & ?); eauto.
Qed.

Lemma spec_on_err {E A} P (m : prog Σ (option E)) (h : E → prog Σ A) k T Q :
  spec P m T → (∀ e, spec (T (Some e)) (h e) Q) → spec (T None) k Q → spec P (on_err m h k) Q.
Proof. intros Hm Hh Hk. eapply spec_bind; [exact Hm |]. intros [e|]; auto. Qed.

(** A loop whose body keeps an assertion on the elements still to come. *)
Lemma spec_for_each {A B} (J : list A → Σ → Prop) (l : list A) (f : A → prog Σ (option B)) k Q :
  (∀ x l, spec (J (x :: l)) (f x) (λ r s, match r with Some b => Q b s | None => J l s end)) →
  spec (J []) k Q → spec (J l) (for_each l f k) Q.
Proof.
  intros Hf Hk. induction l as [|x l IH]; simpl; [done |].
  eapply spec_bind; [apply Hf |]. intros [b|]; [by apply spec_ret | apply IH].
Qed.

Lemma spec_fold_err {A B E} (J : list A → B → Σ → Prop) (l : list A)
    (f : A → B → prog Σ (E + B)) acc (Q : E → Σ → Prop) :
  (∀ x l acc, spec (J (x :: l) acc) (f x acc)
     (λ r s, match r with inl e => Q e s | inr acc => J l acc s end)) →
  spec (J l acc) (fold_err l f acc) (λ r s, match r with inl e => Q e s | inr acc => J [] acc s end).
Proof.
  intros Hf. revert acc. induction l as [|x l IH]; intros acc; simpl; [by apply spec_ret |].
  eapply spec_bind; [apply Hf |]. intros [e|acc']; [by apply spec_ret | apply IH].
Qed.

(** What neither the environment nor the program changes stays true. *)
Lemma spec_frame {A} P F (p : prog Σ A) Q :
  stableR F → (∀ s s', G s s' → F s → F s') →
  spec P p Q → spec (λ s, P s ∧ F s) p (λ a s, Q a s ∧ F s).
Proof.
  intros HR HG Hp s [HP HF]. specialize (Hp s HP). clear HP. revert s HF Hp.
  induction p as [a|X op k IH]; simpl; intros s HF H; [done |].
  intros s1 Hs1 HI x s2 E. destruct (H s1 Hs1 HI x s2 E) as (HG' & HI' & Hk).
  split_and!; [done.. |]. apply IH; [|done]. eapply HG; [done |]. by eapply HR.
Qed.

(** The next action of a program. *)
Lemma wp_step {A} (p p' : prog Σ A) Q s s' :
  wp p Q s → I s → stepP p s = (p', s') → G s s' ∧ I s' ∧ wp p' Q s'.
Proof.
  destruct p as [a|X op k]; simpl; intros H HI E.
  - injection E as <- <-. split_and!; [reflexivity | done | done].
  - destruct (op s) as [x s1] eqn:Eop. injection E as <- <-. by apply (H s).
Qed.

(** Interference before a program is part of its rely. *)
Lemma wp_rely {A} (p : prog Σ A) Q s s' :
  (∀ a, stableR (Q a)) → R s s' → wp p Q s → wp p Q s'.
Proof.
  destruct p as [a|X op k]; simpl; intros HQ HR H; [by eapply HQ |].
  intros s1 HR1. apply H. by etrans.
Qed.

(** Run to completion: the invariant, the guarantee and the postcondition. *)
Lemma wp_run {A} (p : prog Σ A) Q s :
  wp p Q s → I s → G s (execP p s) ∧ I (execP p s) ∧ Q (evalP p s) (execP p s).
Proof.
  unfold execP, evalP. revert s. induction p as [a|X op k IH]; simpl; intros s H HI.
  { split_and!; [reflexivity | done | done]. }
  destruct (op s) as [x s'] eqn:E. destruct (H s ltac:(reflexivity) HI x s' E) as (HG & HI' & Hk).
  destruct (IH x s' Hk HI') as (? & ? & ?). split_and!; [by etrans | done | done].
Qed.
End wp.

(** A weaker guarantee and a stronger rely. *)
Lemma wp_weaken {Σ A} (R G R' G' : Σ → Σ → Prop) I (p : prog Σ A) Q s :
  (∀ s s', R' s s' → R s s') → (∀ s s', G s s' → G' s s') →
  wp R G I p Q s → wp R' G' I p Q s.
Proof.
  intros HR HG. revert s. induction p as [a|X op k IH]; simpl; intros s H; [done |].
  intros s1 HR1 HI x s2 E. destruct (H s1 (HR _ _ HR1) HI x s2 E) as (? & ? & ?). auto.
Qed.

Lemma spec_weaken {Σ A} (R G R' G' : Σ → Σ → Prop) I P (p : prog Σ A) Q :
  (∀ s s', R' s s' → R s s') → (∀ s s', G s s' → G' s s') →
  spec R G I P p Q → spec R' G' I P p Q.
Proof. intros HR HG H s HP. eapply wp_weaken; [exact HR | exact HG | by apply H]. Qed.

(** What the precondition says that is not about the state. *)
Lemma spec_because {Σ A} R G (I : Σ → Prop) (φ : Prop) (Pr Pr' : Σ → Prop) (p : prog Σ A) Q :
  (∀ s, Pr s → φ ∧ Pr' s) → (φ → spec R G I Pr' p Q) → spec R G I Pr p Q.
Proof. intros H Hp s HP. destruct (H s HP) as [Hφ HP']. exact (Hp Hφ s HP'). Qed.

Lemma spec_exists {Σ A X} R G (I : Σ → Prop) (Pr : X → Σ → Prop) (p : prog Σ A) Q :
  (∀ x, spec R G I (Pr x) p Q) → spec R G I (λ s, ∃ x, Pr x s) p Q.
Proof. intros H s [x HP]. exact (H x s HP). Qed.

(** * Runs under interference

    [interleaved R p s a s']: [p] runs from [s] to its result [a] in [s'], and
    before each of its actions, and after the last, others change the state by
    [R]. *)

Inductive interleaved {Σ A} (R : Σ → Σ → Prop) : prog Σ A → Σ → A → Σ → Prop :=
  | interleaved_ret a s s' : R s s' → interleaved R (Ret a) s a s'
  | interleaved_act X (op : Σ → X * Σ) k s s1 x s2 a s' :
      R s s1 → op s1 = (x, s2) → interleaved R (k x) s2 a s' →
      interleaved R (Act op k) s a s'.

(** What a specification says holds of every such run. *)
Lemma interleaved_spec {Σ A} (R G : Σ → Σ → Prop) P (p : prog Σ A) Q s a s' :
  spec R G (λ _, True) P p Q → (∀ a, stableR R (Q a)) → P s → interleaved R p s a s' → Q a s'.
Proof.
  intros Hp HQ HP Hr. specialize (Hp s HP). clear HP.
  induction Hr as [a s s' HR|X op k s s1 x s2 a s' HR Eop _ IH]; [by eapply HQ |].
  apply IH; try done. by apply (Hp s1 HR Logic.I x s2 Eop).
Qed.

Lemma interleaved_alone {Σ A} (R : Σ → Σ → Prop) `{!Reflexive R} (p : prog Σ A) s :
  interleaved R p s (evalP p s) (execP p s).
Proof.
  unfold evalP, execP. revert s. induction p as [a|X op k IH]; intros s; simpl; [by constructor |].
  destruct (op s) as [x s2] eqn:Eop. by econstructor; [reflexivity | exact Eop |].
Qed.

(** * Budgets of a measure

    [bounded f n p]: whatever the state and the interference, the actions of
    [p] raise the measure [f] at most [n] times, by at most one. *)

Fixpoint bounded {Σ A} (f : Σ → Z) (n : nat) (p : prog Σ A) : Prop :=
  match p with
  | Ret _ => True
  | Act op k =>
      (∀ s x s', op s = (x, s') → f s' <= f s) ∧ (∀ x, bounded f n (k x))
      ∨ ∃ m, n = S m ∧ (∀ s x s', op s = (x, s') → f s' <= f s + 1) ∧ ∀ x, bounded f m (k x)
  end.

Section bounded.
Context {Σ : Type} (f : Σ → Z).

Lemma bounded_mono {A} n n' (p : prog Σ A) : (n <= n')%nat → bounded f n p → bounded f n' p.
Proof.
  revert n n'. induction p as [a|X op k IH]; intros n n' Hle; simpl; [done |].
  intros [[? ?]|(m & -> & ? & ?)]; [left; naive_solver |].
  right. exists (pred n'). split_and!; [lia | done |]. intros x. apply (IH x m); auto; lia.
Qed.

Lemma bounded_bind {A B} n m (p : prog Σ A) (g : A → prog Σ B) :
  bounded f n p → (∀ a, bounded f m (g a)) → bounded f (n + m) (p ≫= g).
Proof.
  unfold mbind, prog_bind. revert n. induction p as [a|X op k IH]; intros n; simpl.
  { intros _ H. apply (bounded_mono m); [lia | apply H]. }
  intros [[? ?]|(j & -> & ? & ?)] Hg; [left; naive_solver |].
  right. exists (j + m)%nat. split_and!; [lia | done |]. naive_solver.
Qed.

(** A program that never raises the measure, and one composed from such. *)
Lemma bounded_bind0 {A B} n (p : prog Σ A) (g : A → prog Σ B) :
  bounded f 0 p → (∀ a, bounded f n (g a)) → bounded f n (p ≫= g).
Proof. intros Hp Hg. by apply (bounded_bind 0 n). Qed.

Lemma bounded_ret {A} n (a : A) : bounded f n (mret a : prog Σ A).
Proof. done. Qed.

Lemma bounded_act {A} (op : Σ → A * Σ) :
  (∀ s, f (op s).2 <= f s) → bounded f 0 (act op).
Proof. intros H. left. split; [|done]. intros s x s' E. specialize (H s). by rewrite E in H. Qed.

Lemma bounded_act1 {A} (op : Σ → A * Σ) :
  (∀ s, f (op s).2 <= f s + 1) → bounded f 1 (act op).
Proof.
  intros H. right. exists 0%nat. split_and!; [done | |done]. intros s x s' E.
  specialize (H s). by rewrite E in H.
Qed.

Lemma bounded_on_err {E A} n (m : prog Σ (option E)) (h : E → prog Σ A) k :
  bounded f 0 m → (∀ e, bounded f n (h e)) → bounded f n k → bounded f n (on_err m h k).
Proof. intros Hm Hh Hk. apply bounded_bind0; [done |]. intros [e|]; auto. Qed.

Lemma bounded_for_each {A B} (l : list A) (g : A → prog Σ (option B)) k :
  (∀ a, bounded f 0 (g a)) → bounded f 0 k → bounded f 0 (for_each l g k).
Proof.
  intros Hg Hk. induction l as [|x l IH]; simpl; [done |].
  apply bounded_bind0; [done |]. intros [b|]; [apply bounded_ret | done].
Qed.

Lemma bounded_fold_err {A B E} (l : list A) (g : A → B → prog Σ (E + B)) acc :
  (∀ a b, bounded f 0 (g a b)) → bounded f 0 (fold_err l g acc).
Proof.
  intros Hg. revert acc. induction l as [|x l IH]; intros acc; simpl; [done |].
  apply bounded_bind0; [done |]. intros [e|b]; [apply bounded_ret | apply IH].
Qed.

Lemma bounded_run {A} n (p : prog Σ A) s : bounded f n p → f (execP p s) <= f s + Z.of_nat n.
Proof.
  unfold execP. revert n s. induction p as [a|X op k IH]; intros n s; simpl; [lia |].
  destruct (op s) as [x s'] eqn:E. intros [[H1 H2]|(m & -> & H1 & H2)];
    specialize (H1 _ _ _ E); specialize (IH x _ s' (H2 x)); lia.
Qed.
End bounded.

(** A measure that is not raised stays under a bound. *)
Lemma hoare_bounded {Σ A} (f : Σ → Z) (c : Z) (p : prog Σ A) :
  bounded f 0 p → hoare (λ s, f s <= c) p (λ _ s, f s <= c).
Proof. intros H s Hs. pose proof (bounded_run f 0 p s H). lia. Qed.

Create HintDb bounded.
#[export] Hint Resolve bounded_ret bounded_act bounded_on_err bounded_for_each
  bounded_fold_err : bounded.
