(* ===== verification/Float64.v ===== *)
(** IEEE 754 binary64 as far as the program uses it: [Duration.Seconds],
    [math.Ceil] and the daily burn rate compute with float64, so their results
    are rounded.  A float is a dyadic number [m * 2^e]; every operation rounds
    its exact result to 53 bits, to nearest, ties to even.  The values that
    occur lie between one nanosecond and a few thousand years expressed in
    seconds or nanoseconds, far from the subnormal and overflow ranges, which
    are not represented.

    Rounding keeps order: a float no smaller than a ratio is no smaller than the ratio
    rounded.  So a running mean of numbers that are not negative is not negative either. *)

From S2P Require Import Prelude.

Record f64 := mkF64 { mantissa : Z; exponent : Z }.

(** Integer quotient rounded to nearest, ties to even ([d > 0]). *)
Definition round_div (n d : Z) : Z :=
  let q := n / d in
  let r := n mod d in
  if 2 * r <? d then q
  else if d <? 2 * r then q + 1
  else if Z.even q then q else q + 1.

(** The exponent that leaves a 53-bit mantissa for [n / d] ([n, d > 0]). *)
Definition ratio_exponent (n d : Z) : Z :=
  let k := Z.log2 n - Z.log2 d in
  if d * 2 ^ Z.max k 0 <=? n * 2 ^ Z.max (- k) 0 then k - 52 else k - 53.

(** [n / d] scaled by [2^-e], rounded. *)
Definition scale_round (n d e : Z) : Z :=
  if 0 <=? e then round_div n (d * 2 ^ e) else round_div (n * 2 ^ (- e)) d.

(** The float nearest to [n / d]. *)
Definition of_ratio (n d : Z) : f64 :=
  if n =? 0 then mkF64 0 0
  else let e := ratio_exponent (Z.abs n) d in
       mkF64 (Z.sgn n * scale_round (Z.abs n) d e) e.

Definition of_dyadic (m e : Z) : f64 :=
  if 0 <=? e then of_ratio (m * 2 ^ e) 1 else of_ratio m (2 ^ (- e)).

(** [float64(z)] *)
Definition f64_of_int (z : Z) : f64 := of_ratio z 1.

Definition f64_add (x y : f64) : f64 :=
  let e := Z.min (exponent x) (exponent y) in
  of_dyadic (mantissa x * 2 ^ (exponent x - e) + mantissa y * 2 ^ (exponent y - e)) e.

Definition f64_mul (x y : f64) : f64 :=
  of_dyadic (mantissa x * mantissa y) (exponent x + exponent y).

(** Division by a positive float. *)
Definition f64_div (x y : f64) : f64 :=
  let e := exponent x - exponent y in
  if 0 <=? e then of_ratio (mantissa x * 2 ^ e) (mantissa y)
  else of_ratio (mantissa x) (mantissa y * 2 ^ (- e)).

Definition f64_opp (x : f64) : f64 := mkF64 (- mantissa x) (exponent x).
Definition f64_sub (x y : f64) : f64 := f64_add x (f64_opp y).

(** [x <= y] and [min(x, y)] *)
Definition f64_le (x y : f64) : bool :=
  let e := Z.min (exponent x) (exponent y) in
  mantissa x * 2 ^ (exponent x - e) <=? mantissa y * 2 ^ (exponent y - e).
Definition f64_min (x y : f64) : f64 := if f64_le x y then x else y.

(** [int64(math.Ceil(x))] and [int64(x)]. *)
Definition f64_ceil (x : f64) : Z :=
  if 0 <=? exponent x then mantissa x * 2 ^ exponent x
  else - ((- mantissa x) / 2 ^ (- exponent x)).
Definition f64_trunc (x : f64) : Z :=
  if 0 <=? exponent x then mantissa x * 2 ^ exponent x
  else Z.quot (mantissa x) (2 ^ (- exponent x)).

(** [d.Seconds()]: whole seconds plus the fraction, each as a float. *)
Definition Seconds_f64 (d : duration) : f64 :=
  f64_add (f64_of_int (Z.quot d Second))
          (f64_div (f64_of_int (Z.rem d Second)) (f64_of_int Second)).

(** [d.Hours()]: whole hours plus the fraction. *)
Definition Hours_f64 (d : duration) : f64 :=
  f64_add (f64_of_int (Z.quot d Hour))
          (f64_div (f64_of_int (Z.rem d Hour)) (f64_of_int Hour)).

Definition f64_zero : f64 := mkF64 0 0.
Definition f64_max (x y : f64) : f64 := if f64_le x y then y else x.

(** [math.Round]: to the nearest integer, halves away from zero. *)
Definition f64_round (x : f64) : f64 :=
  if 0 <=? exponent x then x
  else let half := 2 ^ (- exponent x - 1) in
       f64_of_int (Z.sgn (mantissa x) * ((Z.abs (mantissa x) + half) / 2 ^ (- exponent x))).

(** * Rounding error *)

Lemma round_div_error n d : 0 < d → - d <= 2 * (round_div n d * d - n) <= d.
Proof.
  intros Hd. unfold round_div.
  pose proof (Z.div_mod n d ltac:(lia)). pose proof (Z.mod_pos_bound n d Hd).
  destruct (2 * (n mod d) <? d) eqn:E1; breflect; [nia |].
  destruct (d <? 2 * (n mod d)) eqn:E2; breflect; [nia |].
  destruct (Z.even _); nia.
Qed.

Lemma round_div_exact q d : 0 < d → round_div (q * d) d = q.
Proof. intros Hd. pose proof (round_div_error (q * d) d Hd). nia. Qed.

Lemma round_div_le n d q : 0 < d → n <= q * d → round_div n d <= q.
Proof.
  intros Hd Hn. unfold round_div.
  pose proof (Z.div_mod n d ltac:(lia)). pose proof (Z.mod_pos_bound n d Hd).
  destruct (2 * (n mod d) <? d) eqn:E1; breflect; [nia |].
  destruct (d <? 2 * (n mod d)) eqn:E2; breflect; [nia |].
  destruct (Z.even _); nia.
Qed.

(** A value below [2^j] has exponent at most [j - 53]. *)
Lemma ratio_exponent_bound n d j :
  0 < n → 0 < d → 0 <= j → n < d * 2 ^ j → ratio_exponent n d <= j - 53.
Proof.
  intros Hn Hd Hj Hlt. unfold ratio_exponent. set (k := Z.log2 n - Z.log2 d).
  pose proof (Z.log2_spec n Hn) as [Ln Un]. pose proof (Z.log2_spec d Hd) as [Ld Ud].
  pose proof (Z.log2_nonneg n). pose proof (Z.log2_nonneg d).
  destruct (_ <=? _) eqn:E; breflect.
  - destruct (Z.le_gt_cases j k) as [Hk|Hk]; [|lia]. exfalso.
    rewrite (Z.max_l k 0), (Z.max_r (- k) 0), Z.pow_0_r in E by lia.
    pose proof (Z.pow_le_mono_r 2 j k ltac:(lia) Hk). nia.
  - destruct (Z.le_gt_cases k j) as [Hk|Hk]; [lia |]. exfalso.
    assert (Hln : Z.log2 n >= Z.log2 d + 1 + j) by lia.
    pose proof (Z.pow_le_mono_r 2 (Z.succ (Z.log2 d) + j) (Z.log2 n) ltac:(lia) ltac:(lia)) as Hp.
    rewrite Z.pow_add_r in Hp by lia.
    assert (0 < 2 ^ j) by (apply Z.pow_pos_nonneg; lia). nia.
Qed.

(** Rounding [n / d] at a negative exponent: [m] approximates [n * 2^-e / d]. *)
Lemma of_ratio_pos n d j :
  0 < n → 0 < d → 0 <= j < 53 → n < d * 2 ^ j →
  ∃ D m, 2 ^ (53 - j) <= D ∧ of_ratio n d = mkF64 m (- Z.log2 D) ∧ D = 2 ^ Z.log2 D ∧
         0 < Z.log2 D ∧ m = round_div (n * D) d.
Proof.
  intros Hn Hd Hj Hlt. unfold of_ratio.
  destruct (n =? 0) eqn:E0; [blia |].
  rewrite Z.abs_eq, Z.sgn_pos by lia.
  pose proof (ratio_exponent_bound n d j Hn Hd ltac:(lia) Hlt) as He.
  set (e := ratio_exponent n d) in *.
  exists (2 ^ (- e)), (scale_round n d e).
  rewrite Z.log2_pow2, Z.opp_involutive by lia.
  split_and!; [apply Z.pow_le_mono_r; lia | f_equal; lia | done | lia |].
  unfold scale_round. destruct (0 <=? e) eqn:E; [blia | done].
Qed.

Lemma f64_of_int_small z :
  0 < z < 2 ^ 52 → ∃ F, 0 < F ∧ f64_of_int z = mkF64 (z * 2 ^ F) (- F).
Proof.
  intros Hz. unfold f64_of_int.
  destruct (of_ratio_pos z 1 52 ltac:(lia) ltac:(lia) ltac:(lia) ltac:(lia))
    as (D & m & HD & -> & HD2 & Hpos & ->).
  exists (Z.log2 D). rewrite <- HD2. split; [done |]. f_equal.
  rewrite <- (Z.mul_1_r (z * D)) at 1. apply round_div_exact. lia.
Qed.

Lemma pow2_pos F : 0 < F → 0 < 2 ^ F.
Proof. intros. apply Z.pow_pos_nonneg; lia. Qed.

Lemma pow2_split a b : 0 <= b <= a → 2 ^ a = 2 ^ b * 2 ^ (a - b).
Proof. intros. rewrite <- Z.pow_add_r by lia. f_equal. lia. Qed.

Lemma f64_ceil_between m L q :
  0 < L → q * 2 ^ L < m <= (q + 1) * 2 ^ L → f64_ceil (mkF64 m (- L)) = q + 1.
Proof.
  intros HL Hm. unfold f64_ceil. simpl. destruct (0 <=? - L) eqn:E; [blia |].
  rewrite Z.opp_involutive. assert (0 < 2 ^ L) by (apply Z.pow_pos_nonneg; lia).
  pose proof (Z.div_mod (- m) (2 ^ L) ltac:(lia)).
  pose proof (Z.mod_pos_bound (- m) (2 ^ L) ltac:(lia)). nia.
Qed.

(** A fraction [p / q] below one, computed from any equal ratio [n / d]. *)
Lemma of_ratio_fraction n d p q :
  0 < n → 0 < d → 0 < p < q → n * q = p * d →
  ∃ L m, 53 <= L ∧ of_ratio n d = mkF64 m (- L) ∧ - q <= 2 * (m * q - p * 2 ^ L) <= q.
Proof.
  intros Hn Hd Hp Heq.
  destruct (of_ratio_pos n d 0 Hn Hd ltac:(lia)) as (D & m & HD & HR & HD2 & HL & Hm); [nia |].
  exists (Z.log2 D), m. split_and!; [| done | |].
  { apply Z.log2_le_mono in HD. rewrite Z.log2_pow2 in HD by lia. lia. }
  all: rewrite <- HD2; pose proof (round_div_error (n * D) d Hd) as He; rewrite <- Hm in He;
    apply (Z.mul_le_mono_pos_l _ _ d Hd); nia.
Qed.

Lemma f64_div_int p q :
  0 < p < 2 ^ 52 → 0 < q < 2 ^ 52 → p < q →
  ∃ L m, 53 <= L ∧ f64_div (f64_of_int p) (f64_of_int q) = mkF64 m (- L) ∧
         - q <= 2 * (m * q - p * 2 ^ L) <= q.
Proof.
  intros Hp Hq Hpq. unfold f64_div.
  destruct (f64_of_int_small p Hp) as (F1 & HF1 & ->).
  destruct (f64_of_int_small q Hq) as (F2 & HF2 & ->). simpl.
  pose proof (pow2_pos F1 HF1). pose proof (pow2_pos F2 HF2).
  destruct (0 <=? _) eqn:E; breflect; apply of_ratio_fraction; try nia;
    try (apply Z.mul_pos_pos; [nia | apply Z.pow_pos_nonneg; lia]).
  - rewrite (pow2_split F2 F1) by lia. replace (- F1 - - F2) with (F2 - F1) by lia. ring.
  - rewrite (pow2_split F1 F2) by lia. replace (- (- F1 - - F2)) with (F1 - F2) by lia. ring.
Qed.

(** Adding a fraction to an integer: the exact sum over a common denominator. *)
Lemma f64_add_int z m L :
  0 <= z < 2 ^ 52 → 0 < L →
  ∃ E, L <= E ∧ f64_add (f64_of_int z) (mkF64 m (- L)) =
                of_ratio (z * 2 ^ E + m * 2 ^ (E - L)) (2 ^ E).
Proof.
  intros Hz HL. unfold f64_add. simpl.
  assert (∃ F k, f64_of_int z = mkF64 (z * 2 ^ F) k ∧ (z = 0 ∧ k = 0 ∧ F = 0 ∨ k = - F ∧ 0 < F))
    as (F & k & -> & HF).
  { destruct (decide (z = 0)) as [->|].
    - exists 0, 0. auto.
    - destruct (f64_of_int_small z ltac:(lia)) as (F & HF & ->). exists F, (- F). auto. }
  simpl. exists (Z.max F L). split; [lia |].
  replace (Z.min k (- L)) with (- Z.max F L) by lia. unfold of_dyadic.
  destruct (0 <=? _) eqn:E; [blia |]. rewrite Z.opp_involutive. f_equal.
  replace (- L - - Z.max F L) with (Z.max F L - L) by lia. f_equal.
  destruct HF as [(-> & -> & ->)|[-> ?]]; [lia |].
  rewrite <- Z.mul_assoc, <- Z.pow_add_r by lia. do 2 f_equal. lia.
Qed.

(** The rounded sum of an integer and a fraction of at least a nanosecond stays
    strictly above the integer and at most one above it. *)
Lemma ceil_add_fraction z m L p :
  0 <= z < 2 ^ 24 → 53 <= L → 0 < p < Second →
  - Second <= 2 * (m * Second - p * 2 ^ L) <= Second →
  f64_ceil (f64_add (f64_of_int z) (mkF64 m (- L))) = z + 1.
Proof.
  intros Hz HL Hp Hm. destruct (f64_add_int z m L ltac:(lia) ltac:(lia)) as (E & HE & ->).
  set (c := 2 ^ (E - L)). assert (Hc : 0 < c) by (apply Z.pow_pos_nonneg; lia).
  assert (HcE : 2 ^ E = 2 ^ L * c) by (unfold c; rewrite <- Z.pow_add_r by lia; f_equal; lia).
  assert (HL53 : 2 ^ 53 <= 2 ^ L) by (apply Z.pow_le_mono_r; lia).
  unfold Second in *. set (Q := 2 ^ L) in *.
  assert (HpQ : Q <= p * Q <= 999999999 * Q) by nia.
  assert (Hm1 : 0 < m < Q) by lia.
  destruct (of_ratio_pos (z * 2 ^ E + m * c) (2 ^ E) 24) as (D & r & HD & -> & HD2 & HLD & Hr).
  { rewrite HcE. nia. } { rewrite HcE. nia. } { lia. } { rewrite HcE. nia. }
  apply f64_ceil_between; [lia |]. rewrite <- HD2. split.
  - pose proof (round_div_error ((z * 2 ^ E + m * c) * D) (2 ^ E) ltac:(nia)) as Herr.
    rewrite <- Hr in Herr. rewrite HcE in *.
    assert (2 ^ 29 <= D) by exact HD.
    assert (HmQ : 536870912 * m * 2 > Q) by lia.
    assert (HmD : D * m * 2 > Q) by nia.
    assert (0 < (r - z * D) * Q * c * 2) by nia. nia.
  - rewrite Hr. apply round_div_le; rewrite HcE; nia.
Qed.

(** Adding the zero fraction changes nothing. *)
Lemma ceil_add_zero z : 0 <= z < 2 ^ 52 → f64_ceil (f64_add (f64_of_int z) (mkF64 0 0)) = z.
Proof.
  intros Hz. destruct (decide (z = 0)) as [->|]; [reflexivity |].
  destruct (f64_of_int_small z ltac:(lia)) as (F & HF & ->). unfold f64_add. simpl.
  replace (Z.min (- F) 0) with (- F) by lia. rewrite Z.sub_diag, Z.mul_1_r, Z.add_0_r.
  unfold of_dyadic. destruct (0 <=? - F) eqn:E; [blia |]. rewrite Z.opp_involutive.
  pose proof (pow2_pos F HF).
  destruct (of_ratio_pos (z * 2 ^ F) (2 ^ F) 52) as (D & r & HD & -> & HD2 & HLD & ->); [nia..|].
  replace (z * 2 ^ F * D) with (z * D * 2 ^ F) by ring. rewrite round_div_exact by lia.
  pose proof (pow2_pos _ HLD).
  replace z with (z - 1 + 1) at 2 by lia. apply f64_ceil_between; [lia |]. nia.
Qed.

(** Up to 194 days, [math.Ceil(d.Seconds())] is the exact ceiling: one
    nanosecond is then more than half a unit in the last place. *)
Lemma Seconds_ceil (d : duration) :
  0 <= d < 2 ^ 24 * Second → f64_ceil (Seconds_f64 d) = - ((- d) / Second).
Proof.
  intros Hd. unfold Seconds_f64.
  rewrite Z.quot_div_nonneg, Z.rem_mod_nonneg by (unfold Second; lia).
  pose proof (Z.div_mod d Second ltac:(unfold Second; lia)) as Hdm.
  pose proof (Z.mod_pos_bound d Second ltac:(unfold Second; lia)) as Hr.
  pose proof (Z.div_mod (- d) Second ltac:(unfold Second; lia)) as Hdm'.
  pose proof (Z.mod_pos_bound (- d) Second ltac:(unfold Second; lia)) as Hr'.
  set (z := d / Second) in *. set (p := d mod Second) in *.
  assert (Hz : 0 <= z < 2 ^ 24) by (unfold Second in *; lia).
  destruct (decide (p = 0)) as [->|Hp].
  - assert (f64_div (f64_of_int 0) (f64_of_int Second) = mkF64 0 0) as -> by reflexivity.
    rewrite ceil_add_zero by lia. unfold Second in *. lia.
  - destruct (f64_div_int p Second) as (L & m & HL & -> & Hm); [unfold Second in *; lia..|].
    rewrite (ceil_add_fraction z m L p) by (unfold Second in *; lia).
    unfold Second in *. lia.
Qed.

(** * Rounding keeps the bounds of a coarser grid *)

Lemma round_div_ge n d q : 0 < d → q * d <= n → q <= round_div n d.
Proof.
  intros Hd Hn. unfold round_div.
  pose proof (Z.div_mod n d ltac:(lia)). pose proof (Z.mod_pos_bound n d Hd).
  destruct (2 * (n mod d) <? d) eqn:E1; breflect; [nia |].
  destruct (d <? 2 * (n mod d)) eqn:E2; breflect; [nia |].
  destruct (Z.even _); nia.
Qed.

(** A ratio between [p / 2^k] and [q / 2^k], small enough for its float to keep
    [k] binary places, is rounded to a float between them. *)
Lemma of_ratio_bounds n d j k p q :
  0 < n → 0 < d → 0 <= j → 0 <= k → j + k < 53 → n < d * 2 ^ j → p * d <= n * 2 ^ k <= q * d →
  ∃ L m, k <= L ∧ of_ratio n d = mkF64 m (- L) ∧ p * 2 ^ (L - k) <= m <= q * 2 ^ (L - k).
Proof.
  intros Hn Hd Hj Hk Hjk Hlt Hpq.
  destruct (of_ratio_pos n d j Hn Hd ltac:(lia) Hlt) as (D & m & HD & HR & HD2 & HL & Hm).
  assert (HkL : k <= Z.log2 D).
  { apply Z.log2_le_mono in HD. rewrite Z.log2_pow2 in HD by lia. lia. }
  set (c := 2 ^ (Z.log2 D - k)). assert (Hc : 0 < c) by (apply Z.pow_pos_nonneg; lia).
  assert (HDc : D = 2 ^ k * c).
  { rewrite HD2. rewrite (pow2_split (Z.log2 D) k) at 1 by lia. done. }
  exists (Z.log2 D), m. fold c. split_and!; [done | done | |]; rewrite Hm.
  - apply round_div_ge; [done |]. rewrite HDc. nia.
  - apply round_div_le; [done |]. rewrite HDc. nia.
Qed.

Lemma f64_trunc_between m L lo hi :
  0 <= L → 0 <= lo → lo * 2 ^ L <= m < (hi + 1) * 2 ^ L → lo <= f64_trunc (mkF64 m (- L)) <= hi.
Proof.
  intros HL Hlo Hm. unfold f64_trunc. simpl. assert (0 < 2 ^ L) by (apply Z.pow_pos_nonneg; lia).
  destruct (0 <=? - L) eqn:E; breflect.
  - assert (L = 0) as -> by lia. simpl in *. lia.
  - rewrite Z.opp_involutive, Z.quot_div_nonneg by nia.
    split; [apply Z.div_le_lower_bound; lia | apply Z.lt_succ_r, Z.div_lt_upper_bound; lia].
Qed.

(** A dyadic number of at most 53 bits is its own float. *)
Lemma of_ratio_dyadic n a :
  0 < n < 2 ^ 53 → 0 <= a →
  ∃ L, a <= L ∧ of_ratio n (2 ^ a) = mkF64 (n * 2 ^ (L - a)) (- L).
Proof.
  intros Hn Ha. unfold of_ratio. destruct (Z.eqb_spec n 0); [lia |].
  rewrite Z.abs_eq, Z.sgn_pos by lia. set (e := ratio_exponent n (2 ^ a)).
  assert (He : e <= - a).
  { unfold e, ratio_exponent. rewrite Z.log2_pow2 by lia.
    assert (Z.log2 n <= 52) by (apply Z.lt_succ_r, Z.log2_lt_pow2; simpl; lia). destruct (_ <=? _); lia. }
  exists (- e). split; [lia |]. rewrite Z.opp_involutive, Z.mul_1_l. f_equal. unfold scale_round.
  assert (Hpow : 2 ^ (- e) = 2 ^ (- e - a) * 2 ^ a) by (rewrite <- Z.pow_add_r by lia; f_equal; lia).
  assert (0 < 2 ^ a) by (apply Z.pow_pos_nonneg; lia).
  destruct (Z.leb_spec 0 e).
  - assert (e = 0) as -> by lia. assert (a = 0) as -> by lia. simpl.
    rewrite <- (Z.mul_1_r n) at 1. rewrite round_div_exact; lia.
  - rewrite Hpow, Z.mul_assoc. by apply round_div_exact.
Qed.

(** * Rounding keeps order *)

#[local] Open Scope Z_scope.

Lemma pow2_add a b : 0 <= a → 0 <= b → 2 ^ (a + b) = 2 ^ a * 2 ^ b.
Proof. intros. by rewrite Z.pow_add_r. Qed.

Lemma pow2_ge0 a : 0 <= 2 ^ a.
Proof. by apply Z.pow_nonneg. Qed.

(** The exponent leaves a mantissa of 53 bits: [2^52 <= n / d / 2^e < 2^53], all times
    [2^s]. *)
Lemma ratio_exponent_spec n d s :
  0 < n → 0 < d → 0 <= s → 0 <= ratio_exponent n d + s →
  d * 2 ^ 52 * 2 ^ (ratio_exponent n d + s) <= n * 2 ^ s < d * 2 ^ 53 * 2 ^ (ratio_exponent n d + s).
Proof.
  intros Hn Hd Hs. unfold ratio_exponent. set (k := Z.log2 n - Z.log2 d).
  pose proof (Z.log2_spec n Hn) as [Ln Un]. pose proof (Z.log2_spec d Hd) as [Ld Ud].
  pose proof (Z.log2_nonneg n). pose proof (Z.log2_nonneg d). rewrite !Z.pow_succ_r in Un, Ud by done.
  assert (Hk : 2 ^ Z.max k 0 * 2 ^ Z.log2 d = 2 ^ Z.max (- k) 0 * 2 ^ Z.log2 n).
  { rewrite <- !Z.pow_add_r by lia. f_equal. lia. }
  pose proof (Z.pow_pos_nonneg 2 (Z.max k 0) ltac:(lia) ltac:(lia)) as P1.
  pose proof (Z.pow_pos_nonneg 2 (Z.max (- k) 0) ltac:(lia) ltac:(lia)) as P2.
  (* between half of 2^k and twice of it *)
  assert (B1 : d * 2 ^ Z.max k 0 < 2 * (n * 2 ^ Z.max (- k) 0)) by nia.
  assert (B2 : n * 2 ^ Z.max (- k) 0 < 2 * (d * 2 ^ Z.max k 0)) by nia.
  assert (Hscale : ∀ c, 0 <= c → 0 <= k + s → (2 ^ Z.max k 0) * (2 ^ s * c) = 2 ^ Z.max (- k) 0 * (2 ^ (k + s) * c)).
  { intros c Hc Hks. rewrite !Z.mul_assoc, <- !Z.pow_add_r by lia. do 2 f_equal. lia. }
  destruct (Z.leb_spec (d * 2 ^ Z.max k 0) (n * 2 ^ Z.max (- k) 0)) as [HB|HB]; intros He.
  - replace (k - 52 + s) with (k + s - 52) in * by lia.
    assert (E1 : d * 2 ^ 52 * 2 ^ (k + s - 52) = d * 2 ^ (k + s)).
    { rewrite <- Z.mul_assoc, <- Z.pow_add_r by lia. do 2 f_equal. lia. }
    assert (E2 : d * 2 ^ 53 * 2 ^ (k + s - 52) = 2 * (d * 2 ^ (k + s))) by (rewrite <- E1; lia).
    rewrite E1, E2. pose proof (Hscale 1 ltac:(lia) ltac:(lia)) as Hs1. rewrite !Z.mul_1_r in Hs1.
    pose proof (pow2_ge0 s). pose proof (Z.pow_pos_nonneg 2 s ltac:(lia) Hs). split.
    + apply (Zmult_le_reg_r _ _ (2 ^ Z.max (- k) 0)); [lia |]. nia.
    + apply (Zmult_lt_reg_r _ _ (2 ^ Z.max (- k) 0)); [lia |]. nia.
  - replace (k - 53 + s) with (k + s - 53) in * by lia.
    assert (E1 : d * 2 ^ 53 * 2 ^ (k + s - 53) = d * 2 ^ (k + s)).
    { rewrite <- Z.mul_assoc, <- Z.pow_add_r by lia. do 2 f_equal. lia. }
    assert (E2 : 2 * (d * 2 ^ 52 * 2 ^ (k + s - 53)) = d * 2 ^ (k + s)) by (rewrite <- E1; lia).
    rewrite E1. pose proof (Hscale 1 ltac:(lia) ltac:(lia)) as Hs1. rewrite !Z.mul_1_r in Hs1.
    pose proof (Z.pow_pos_nonneg 2 s ltac:(lia) Hs). split.
    + apply (Zmult_le_reg_r _ _ (2 * 2 ^ Z.max (- k) 0)); [lia |]. nia.
    + apply (Zmult_lt_reg_r _ _ (2 ^ Z.max (- k) 0)); [lia |]. nia.
Qed.

(** The exact value scaled by [2^s] bounds the rounded one scaled, when the bound is
    an integer at the exponent. *)
Lemma scale_round_le n d e s q :
  0 < d → 0 <= s → 0 <= e + s → n * 2 ^ s <= d * (q * 2 ^ (e + s)) → scale_round n d e <= q.
Proof.
  intros Hd Hs Hes H. unfold scale_round. destruct (Z.leb_spec 0 e).
  - apply round_div_le; [by apply Z.mul_pos_pos; [|apply Z.pow_pos_nonneg] |].
    rewrite Z.pow_add_r in H by lia. pose proof (Z.pow_pos_nonneg 2 s ltac:(lia) Hs).
    apply (Zmult_le_reg_r _ _ (2 ^ s)); [lia | nia].
  - apply round_div_le; [done |]. replace s with (- e + (e + s)) in H at 1 by lia.
    rewrite Z.pow_add_r in H by lia. pose proof (Z.pow_pos_nonneg 2 (e + s) ltac:(lia) Hes).
    apply (Zmult_le_reg_r _ _ (2 ^ (e + s))); [lia | nia].
Qed.

Lemma scale_round_nonneg n d e : 0 <= n → 0 < d → 0 <= scale_round n d e.
Proof.
  intros Hn Hd. unfold scale_round. pose proof (pow2_ge0 (- e)).
  destruct (Z.leb_spec 0 e); apply round_div_ge; try lia; try nia.
Qed.

(** ** Order *)

(** A float with a mantissa of 53 bits that is not negative. *)
Definition proper (x : f64) : Prop := 0 <= mantissa x <= 2 ^ 53.

(** The value of a float, scaled. *)
Definition scaled (s : Z) (x : f64) : Z := mantissa x * 2 ^ (exponent x + s).

Lemma of_ratio_proper n d : 0 <= n → 0 < d → proper (of_ratio n d).
Proof.
  intros Hn Hd. unfold proper, of_ratio. destruct (Z.eqb_spec n 0) as [|Hne]; [simpl; lia |].
  rewrite Z.abs_eq, Z.sgn_pos, Z.mul_1_l by lia. cbn [mantissa]. set (e := ratio_exponent n d).
  split; [by apply scale_round_nonneg |].
  set (s := Z.max 0 (- e)). pose proof (ratio_exponent_spec n d s ltac:(lia) Hd ltac:(lia) ltac:(lia)) as [_ H].
  apply (scale_round_le n d e s); [done | lia | lia |]. fold e in H. lia.
Qed.

(** Rounding keeps below a float. *)
Lemma of_ratio_le n d y s :
  0 <= n → 0 < d → proper y → 0 <= s → 0 <= exponent y + s → 0 <= exponent (of_ratio n d) + s →
  n * 2 ^ s <= d * scaled s y → scaled s (of_ratio n d) <= scaled s y.
Proof.
  intros Hn Hd [Hy0 Hy] Hs Hey. unfold of_ratio, scaled. destruct (Z.eqb_spec n 0) as [|Hne].
  { intros _ _. simpl. apply Z.mul_nonneg_nonneg; [done | apply pow2_ge0]. }
  rewrite Z.abs_eq, Z.sgn_pos, Z.mul_1_l by lia. cbn [mantissa exponent]. set (e := ratio_exponent n d).
  intros He H. pose proof (ratio_exponent_spec n d s ltac:(lia) Hd Hs He) as [HL _]. fold e in HL.
  pose proof (pow2_ge0 (e + s)).
  destruct (Z.le_gt_cases e (exponent y)) as [Hle|Hgt].
  - replace (exponent y + s) with ((exponent y - e) + (e + s)) in * by lia.
    rewrite (Z.pow_add_r 2 (exponent y - e) (e + s)) in * by lia. rewrite Z.mul_assoc. apply Z.mul_le_mono_nonneg_r; [done |].
    apply (scale_round_le n d e s); [done | done | done |]. lia.
  - assert (Hlow : mantissa y * 2 ^ (exponent y + s) <= 2 ^ 52 * 2 ^ (e + s)).
    { rewrite <- Z.pow_add_r by lia. transitivity (2 ^ 53 * 2 ^ (exponent y + s)).
      - apply Z.mul_le_mono_nonneg_r; [apply pow2_ge0 | done].
      - rewrite <- Z.pow_add_r by lia. apply Z.pow_le_mono_r; lia. }
    transitivity (2 ^ 52 * 2 ^ (e + s)).
    + apply Z.mul_le_mono_nonneg_r; [done |]. apply (scale_round_le n d e s); [done | done | done |]. nia.
    + apply (Zmult_le_reg_r _ _ d); [lia |]. lia.
Qed.

(** ** The mean *)

Lemma of_ratio_neg n d : of_ratio (- n) d = f64_opp (of_ratio n d).
Proof.
  unfold of_ratio, f64_opp. destruct (Z.eqb_spec n 0) as [->|Hne]; [done |].
  destruct (Z.eqb_spec (- n) 0); [lia |]. rewrite Z.abs_opp, Z.sgn_opp. cbn [mantissa exponent]. f_equal. lia.
Qed.

Lemma of_dyadic_neg m e : of_dyadic (- m) e = f64_opp (of_dyadic m e).
Proof. unfold of_dyadic. destruct (Z.leb_spec 0 e); [rewrite Z.mul_opp_l |]; apply of_ratio_neg. Qed.

Lemma of_dyadic_proper m e : 0 <= m → proper (of_dyadic m e).
Proof.
  intros Hm. unfold of_dyadic. pose proof (pow2_ge0 e). destruct (Z.leb_spec 0 e); apply of_ratio_proper;
    try lia; try nia; apply Z.pow_pos_nonneg; lia.
Qed.

(** A dyadic number below a float rounds to one below it. *)
Lemma of_dyadic_le m e y s :
  0 <= m → proper y → 0 <= s → 0 <= exponent y + s → 0 <= e + s → 0 <= exponent (of_dyadic m e) + s →
  m * 2 ^ (e + s) <= scaled s y → scaled s (of_dyadic m e) <= scaled s y.
Proof.
  intros Hm Hy Hs Hys Hes. unfold of_dyadic. pose proof (pow2_ge0 e). destruct (Z.leb_spec 0 e); intros Hds H1.
  - apply of_ratio_le; try done; [nia |]. rewrite Z.pow_add_r in H1 by lia. nia.
  - pose proof (Z.pow_pos_nonneg 2 (- e) ltac:(lia) ltac:(lia)). apply of_ratio_le; try done.
    replace s with (- e + (e + s)) at 1 by lia. rewrite Z.pow_add_r by lia. nia.
Qed.

(** The float of a positive integer is at least one. *)
Lemma f64_of_int_pos z s :
  0 < z → 0 <= s → 0 <= exponent (f64_of_int z) + s →
  0 < mantissa (f64_of_int z) ∧ 2 ^ s <= scaled s (f64_of_int z).
Proof.
  intros Hz Hs. unfold f64_of_int, of_ratio, scaled. destruct (Z.eqb_spec z 0); [lia |].
  rewrite Z.abs_eq, Z.sgn_pos, Z.mul_1_l by lia. cbn [mantissa exponent]. set (e := ratio_exponent z 1).
  intros He. pose proof (ratio_exponent_spec z 1 s Hz ltac:(lia) Hs He) as [HL HU]. fold e in HL, HU.
  pose proof (Z.pow_pos_nonneg 2 s ltac:(lia) Hs). pose proof (Z.pow_pos_nonneg 2 (e + s) ltac:(lia) He).
  destruct (Z.le_gt_cases 0 e) as [He0|He0].
  - assert (2 ^ 52 <= scale_round z 1 e).
    { unfold scale_round. destruct (Z.leb_spec 0 e); [|lia]. apply round_div_ge; [|].
      - rewrite Z.mul_1_l. by apply Z.pow_pos_nonneg.
      - rewrite Z.pow_add_r in HL by lia. apply (Zmult_le_reg_r _ _ (2 ^ s)); lia. }
    split; [lia |]. rewrite (Z.pow_add_r 2 e s) by lia. pose proof (Z.pow_pos_nonneg 2 e ltac:(lia) He0).
    assert (1 * 1 <= scale_round z 1 e * 2 ^ e) by (apply Z.mul_le_mono_nonneg; lia). nia.
  - assert (scale_round z 1 e = z * 2 ^ (- e)) as ->.
    { unfold scale_round. destruct (Z.leb_spec 0 e); [lia |].
      rewrite <- (round_div_exact (z * 2 ^ (- e)) 1) at 2 by lia. f_equal. lia. }
    split; [apply Z.mul_pos_pos; [done | apply Z.pow_pos_nonneg; lia] |].
    rewrite <- Z.mul_assoc, <- Z.pow_add_r by lia. replace (- e + (e + s)) with s by lia. nia.
Qed.

(** The step of a running mean: [mean + (z - mean) / count]. *)
Definition meanStep (mean : f64) (z count : Z) : f64 :=
  f64_add mean (f64_div (f64_sub (f64_of_int z) mean) (f64_of_int count)).

(** Adding a float no larger in the other direction. *)
Lemma f64_add_opp_proper x y s :
  proper x → 0 <= s → 0 <= exponent x + s → 0 <= exponent y + s → scaled s y <= scaled s x →
  proper (f64_add x (f64_opp y)).
Proof.
  intros Hx Hs Hxs Hys Hle. unfold f64_add, f64_opp. cbn [mantissa exponent].
  set (e := Z.min (exponent x) (exponent y)). apply of_dyadic_proper. unfold scaled in Hle.
  replace (exponent x + s) with ((exponent x - e) + (e + s)) in Hle by lia.
  replace (exponent y + s) with ((exponent y - e) + (e + s)) in Hle by lia.
  rewrite (Z.pow_add_r 2 (exponent x - e)), (Z.pow_add_r 2 (exponent y - e)) in Hle by lia.
  pose proof (Z.pow_pos_nonneg 2 (e + s) ltac:(lia) ltac:(lia)).
  assert (mantissa y * 2 ^ (exponent y - e) <= mantissa x * 2 ^ (exponent x - e)); [|lia].
  apply (Zmult_le_reg_r _ _ (2 ^ (e + s))); lia.
Qed.

Lemma f64_add_proper x y : proper x → proper y → proper (f64_add x y).
Proof.
  intros [Hx _] [Hy _]. unfold f64_add. apply of_dyadic_proper.
  pose proof (pow2_ge0 (exponent x - Z.min (exponent x) (exponent y))).
  pose proof (pow2_ge0 (exponent y - Z.min (exponent x) (exponent y))). nia.
Qed.

Lemma f64_div_proper x y : proper x → 0 < mantissa y → proper (f64_div x y).
Proof.
  intros [Hx _] Hy. unfold f64_div. set (e := exponent x - exponent y).
  pose proof (pow2_ge0 e). destruct (Z.leb_spec 0 e); apply of_ratio_proper; try done; [nia |].
  apply Z.mul_pos_pos; [done | apply Z.pow_pos_nonneg; lia].
Qed.

Lemma f64_div_opp x y : f64_div (f64_opp x) y = f64_opp (f64_div x y).
Proof.
  unfold f64_div, f64_opp. cbn [mantissa exponent]. destruct (0 <=? _); [rewrite Z.mul_opp_l |]; apply of_ratio_neg.
Qed.

(** Dividing by a float of at least one. *)
Lemma f64_div_le x y s :
  proper x → 0 < mantissa y → 0 <= s → 0 <= exponent x + s → 0 <= exponent y + s →
  0 <= exponent (f64_div x y) + s → 2 ^ s <= scaled s y → scaled s (f64_div x y) <= scaled s x.
Proof.
  intros Hx Hy Hs Hxs Hys. unfold f64_div. set (e := exponent x - exponent y). pose proof Hx as [Hx0 _].
  pose proof (Z.pow_pos_nonneg 2 s ltac:(lia) Hs). unfold scaled at 1.
  destruct (Z.leb_spec 0 e) as [He|He]; intros Hds H1.
  - pose proof (pow2_ge0 e). apply of_ratio_le; try done; [nia |]. unfold scaled.
    replace (exponent x + s) with (e + (exponent y + s)) by lia. rewrite Z.pow_add_r by lia. nia.
  - pose proof (Z.pow_pos_nonneg 2 (- e) ltac:(lia) ltac:(lia)).
    pose proof (Z.pow_pos_nonneg 2 (exponent x + s) ltac:(lia) Hxs).
    apply of_ratio_le; try done; [nia |]. unfold scaled.
    replace (exponent y + s) with (- e + (exponent x + s)) in H1 by lia. rewrite Z.pow_add_r in H1 by lia. nia.
Qed.

Lemma of_int_proper z : 0 <= z → proper (f64_of_int z).
Proof. intros. by apply of_ratio_proper. Qed.

(** Signs of a difference. *)
Lemma f64_sub_cases x y s :
  proper x → proper y → 0 <= s → 0 <= exponent x + s → 0 <= exponent y + s →
  0 <= exponent (f64_sub x y) + s →
  proper (f64_sub x y) ∨ ∃ d, f64_sub x y = f64_opp d ∧ proper d ∧ scaled s d <= scaled s y.
Proof.
  intros [Hx _] Hy Hs Hxs Hys. unfold f64_sub, f64_add, f64_opp. cbn [mantissa exponent].
  set (e := Z.min (exponent x) (exponent y)).
  set (m := mantissa x * 2 ^ (exponent x - e) + - mantissa y * 2 ^ (exponent y - e)). intros Hds.
  destruct (Z.le_gt_cases 0 m) as [Hm|Hm]; [left; by apply of_dyadic_proper |]. right.
  exists (of_dyadic (- m) e). replace m with (- - m) in Hds |- * at 1 by lia. rewrite of_dyadic_neg in *.
  split_and!; [done | apply of_dyadic_proper; lia |].
  apply of_dyadic_le; try done; [lia | lia |]. unfold scaled.
  replace (exponent y + s) with ((exponent y - e) + (e + s)) by lia. rewrite (Z.pow_add_r 2 (exponent y - e)) by lia.
  pose proof (Z.pow_pos_nonneg 2 (e + s) ltac:(lia) ltac:(lia)). 
  assert (0 <= mantissa x * 2 ^ (exponent x - e)) by (apply Z.mul_nonneg_nonneg; [done | apply pow2_ge0]).
  rewrite Z.mul_assoc. apply Z.mul_le_mono_nonneg_r; lia.
Qed.

(** A mean of numbers that are not negative is not negative. *)
Lemma meanStep_proper mean z count : proper mean → 0 <= z → 0 < count → proper (meanStep mean z count).
Proof.
  intros Hm Hz Hc. unfold meanStep. set (x := f64_of_int z). set (n := f64_of_int count).
  set (d := f64_sub x mean). set (q := f64_div d n).
  set (s := Z.max 0 (Z.max (Z.max (- exponent x) (- exponent mean)) (Z.max (Z.max (- exponent n) (- exponent d)) (- exponent q)))).
  destruct (f64_of_int_pos count s Hc ltac:(lia) ltac:(unfold n in *; lia)) as [Hn1 Hn2].
  destruct (f64_sub_cases x mean s) as [Hd|(d' & Hd & Hp & Hle)]; [by apply of_int_proper | done | lia | unfold x in *; lia | lia | unfold d in *; lia | |].
  - apply f64_add_proper; [done | by apply f64_div_proper].
  - assert (Eq : q = f64_opp (f64_div d' n)) by (unfold q, d; by rewrite Hd, f64_div_opp).
    assert (Ed : exponent d' = exponent d) by (unfold d; by rewrite Hd).
    assert (Eqe : exponent (f64_div d' n) = exponent q) by (by rewrite Eq).
    rewrite Eq. apply (f64_add_opp_proper _ _ s); [done | lia | lia | lia |]. etrans; [|exact Hle].
    apply f64_div_le; try done; lia.
Qed.

(** ** Seconds *)

(** Rounding up keeps below an integer. *)
Lemma f64_ceil_le x z s :
  0 <= s → 0 <= exponent x + s → scaled s x <= z * 2 ^ s → f64_ceil x <= z.
Proof.
  intros Hs Hxs. unfold scaled, f64_ceil. destruct (Z.leb_spec 0 (exponent x)) as [He|He]; intros H.
  - rewrite Z.pow_add_r in H by lia. pose proof (Z.pow_pos_nonneg 2 s ltac:(lia) Hs).
    apply (Zmult_le_reg_r _ _ (2 ^ s)); [lia | nia].
  - pose proof (Z.pow_pos_nonneg 2 (- exponent x) ltac:(lia) ltac:(lia)) as Hp.
    pose proof (Z.pow_pos_nonneg 2 (exponent x + s) ltac:(lia) Hxs).
    assert (Hle : mantissa x <= z * 2 ^ (- exponent x)).
    { apply (Zmult_le_reg_r _ _ (2 ^ (exponent x + s))); [lia |]. rewrite <- Z.mul_assoc, <- Z.pow_add_r by lia.
      replace (- exponent x + (exponent x + s)) with s by lia. done. }
    pose proof (Z.div_le_lower_bound (- mantissa x) (2 ^ (- exponent x)) (- z) Hp). lia.
Qed.

Lemma f64_ceil_nonneg x : proper x → 0 <= f64_ceil x.
Proof.
  intros [Hx _]. unfold f64_ceil. pose proof (pow2_ge0 (exponent x)). destruct (Z.leb_spec 0 (exponent x)) as [He|He]; [nia |].
  pose proof (Z.pow_pos_nonneg 2 (- exponent x) ltac:(lia) ltac:(lia)) as Hp.
  pose proof (Z.div_le_upper_bound (- mantissa x) (2 ^ (- exponent x)) 0 Hp). lia.
Qed.

Lemma of_ratio_ceil n d z : 0 <= n → 0 < d → 0 <= z <= 2 ^ 53 → n <= d * z → 0 <= f64_ceil (of_ratio n d) <= z.
Proof.
  intros Hn Hd Hz Hle. split; [by apply f64_ceil_nonneg, of_ratio_proper |].
  set (s := Z.max 0 (- exponent (of_ratio n d))). apply (f64_ceil_le _ _ s); [lia | lia |].
  change (z * 2 ^ s) with (scaled s (mkF64 z 0)). pose proof (pow2_ge0 s).
  apply of_ratio_le; [done | done | split; simpl; lia | lia | cbn [exponent]; lia | lia |]. unfold scaled. cbn [mantissa exponent]. rewrite Z.add_0_l. nia.
Qed.

(** However long a duration, its seconds, rounded up, are few enough for 64 bits. *)
Lemma Seconds_ceil_le d : 0 <= d < 2 ^ 52 * Second → 0 <= f64_ceil (Seconds_f64 d) <= d / Second + 1.
Proof.
  intros Hd. unfold Seconds_f64. rewrite Z.quot_div_nonneg, Z.rem_mod_nonneg by (unfold Second; lia).
  pose proof (Z.div_mod d Second ltac:(unfold Second; lia)) as Hdm.
  pose proof (Z.mod_pos_bound d Second ltac:(unfold Second; lia)) as Hr.
  set (z := d / Second) in *. set (p := d mod Second) in *.
  assert (Hz : 0 <= z < 2 ^ 52) by (unfold Second in *; lia).
  destruct (decide (p = 0)) as [->|Hp].
  - assert (f64_div (f64_of_int 0) (f64_of_int Second) = mkF64 0 0) as -> by reflexivity.
    rewrite ceil_add_zero by lia. lia.
  - destruct (f64_div_int p Second) as (L & m & HL & -> & Hm); [unfold Second in *; lia..|].
    destruct (f64_add_int z m L ltac:(lia) ltac:(lia)) as (E & HE & ->).
    pose proof (Z.pow_pos_nonneg 2 (E - L) ltac:(lia) ltac:(lia)) as Hc.
    pose proof (Z.pow_pos_nonneg 2 L ltac:(lia) ltac:(lia)) as HpL.
    assert (HE2 : 2 ^ E = 2 ^ L * 2 ^ (E - L)) by (rewrite <- Z.pow_add_r by lia; f_equal; lia).
    assert (HL53 : 2 ^ 53 <= 2 ^ L) by (apply Z.pow_le_mono_r; lia).
    assert (Hm1 : 0 <= m <= 2 ^ L) by (unfold Second in *; nia).
    rewrite HE2. apply of_ratio_ceil; [nia | nia | lia | nia].
Qed.
