(* ===== verification/Provider.v ===== *)
(** The compute seam (src/provider/provider.go): leases, workers and the error
    classes the controller core tells apart, with Go's error chains.

    A Go [error] is modelled as a tree: [fmt.Errorf("...%w")] and the typed
    errors of the repository wrap one error, [errors.Join] wraps several.  Only
    the fixed text of a message is kept.  [errors.As] and [errors.Is] walk the
    tree in pre-order, as the standard library does. *)

From S2P Require Import Prelude.

(** * Data *)

(** [provider.Worker] *)
Record Worker := mkWorker {
  ID : string;
  LeaseID : string;
  RunnerName : string;
  RunnerID : Z;
  RunnerScaleSetID : Z;
  State : string;
  CreatedAt : time
}.

(** [provider.Worker{}] *)
Definition emptyWorker : Worker := mkWorker "" "" "" 0 0 "" zeroTime.

(** [provider.Lease] *)
Record Lease := mkLease {
  lease_ID : string;
  lease_RunnerName : string;
  lease_RunnerID : Z;
  lease_RunnerScaleSetID : Z;
  JITConfig : string;
  Deadline : time;
  IdleTimeout : duration
}.

#[global] Instance Worker_eq_dec : EqDecision Worker.
Proof. solve_decision. Defined.

(** Package-level sentinel errors, compared by identity. *)
Inductive sentinel :=
  | ErrNotExist | ErrExist
  | Canceled | DeadlineExceeded
  | EOF | ErrUnexpectedEOF | ECONNRESET | ECONNREFUSED
  | errRetirementDeferred | JobStillRunningError
  | ErrFull | ErrUnreachable
  | ErrRebaseConflict | ErrLeaseRejected | ErrNotFastForward
  | errMachineGone
  | ErrPublicTarget.

#[global] Instance sentinel_eq_dec : EqDecision sentinel.
Proof. solve_decision. Defined.

Inductive error :=
  | ErrorString (msg : string)
  | Sentinel (s : sentinel)
  | WrapError (msg : string) (inner : error)
  | JoinError (errs : list error)
  | TransientError (inner : error)
  | CapacityError (reason : string) (retryAfter : duration) (inner : error)
  | PartialLaunchError (worker : Worker) (inner : error)
  | StatusError (provider : string) (status : Z) (msg : string)
  | launchRejectedError (reason : string) (inner : error)
  | handlerFailure (inner : error)
  | UrlError (inner : error)
  | NetError (msg : string)
  | AgentError (code : string) (msg : string).

(** [errors.Unwrap], in both of its forms. *)
Definition unwrap (e : error) : list error :=
  match e with
  | ErrorString _ | Sentinel _ | StatusError _ _ _ | NetError _ | AgentError _ _ => []
  | JoinError es => es
  | WrapError _ i | TransientError i | CapacityError _ _ i | PartialLaunchError _ i
  | launchRejectedError _ i | handlerFailure i | UrlError i => [i]
  end.

(** [errors.As]: the first error of the tree, in pre-order, that [p] accepts. *)
Fixpoint errors_as {A} (p : error → option A) (e : error) : option A :=
  match p e with
  | Some a => Some a
  | None =>
    match e with
    | ErrorString _ | Sentinel _ | StatusError _ _ _ | NetError _ | AgentError _ _ => None
    | JoinError es =>
        (fix go es := match es with
                      | [] => None
                      | x :: es => match errors_as p x with Some a => Some a | None => go es end
                      end) es
    | WrapError _ i | TransientError i | CapacityError _ _ i | PartialLaunchError _ i
    | launchRejectedError _ i | handlerFailure i | UrlError i => errors_as p i
    end
  end.

(** [errors.Is] against a sentinel. *)
Definition errors_is (s : sentinel) (e : error) : bool :=
  bool_decide (is_Some (errors_as
    (λ e, match e with Sentinel t => if decide (t = s) then Some () else None | _ => None end) e)).

(** [errors.Join]: drops nil errors; nil when nothing is left. *)
Definition errors_Join (es : list (option error)) : option error :=
  match omap id es with [] => None | es => Some (JoinError es) end.

Definition as_transient (e : error) : option () :=
  match e with TransientError _ => Some () | _ => None end.
Definition as_capacity (e : error) : option (string * duration) :=
  match e with CapacityError r d _ => Some (r, d) | _ => None end.
Definition as_partial (e : error) : option Worker :=
  match e with PartialLaunchError w _ => Some w | _ => None end.
Definition as_status (e : error) : option (string * Z) :=
  match e with StatusError p s _ => Some (p, s) | _ => None end.
Definition as_rejected (e : error) : option string :=
  match e with launchRejectedError r _ => Some r | _ => None end.
Definition as_handlerFailure (e : error) : option () :=
  match e with handlerFailure _ => Some () | _ => None end.

(** [provider.IsTransient], [provider.IsCapacity] on a non-nil error. *)
Definition IsTransient (e : error) : bool := bool_decide (is_Some (errors_as as_transient e)).
Definition IsCapacity (e : error) : bool := bool_decide (is_Some (errors_as as_capacity e)).

(** The same on an [error] result, which may be nil. *)
Definition is_err (p : error → bool) (e : option error) : bool :=
  match e with Some e => p e | None => false end.

(** [provider.CapacityRetryAfter] *)
Definition CapacityRetryAfter (e : error) : duration :=
  match errors_as as_capacity e with
  | Some (_, d) => if 0 <? d then d else 0
  | None => 0
  end.

(** [validCapacityReason] *)
Definition validCapacityReason (reason : string) : bool :=
  match reason with
  | "" => false
  | String c rest =>
      (String.length reason <=? 64)%nat && lower_byte c
      && string_forallb (λ c, lower_byte c || digit_byte c || Ascii.eqb c "_"%char) rest
  end%string.

(** [provider.CapacityReason] *)
Definition CapacityReason (e : error) : string :=
  match errors_as as_capacity e with
  | Some (r, _) => if validCapacityReason r then r else "provider_capacity_limit"
  | None => "provider_capacity_limit"
  end.

(** * Error chains *)

Section error_ind.
Context (P : error → Prop)
  (Hchildren : ∀ e, Forall P (unwrap e) → P e).

(** Induction on the tree: a property that follows from the wrapped errors. *)
Fixpoint error_tree_ind (e : error) : P e.
Proof.
  apply Hchildren. destruct e; simpl; repeat constructor; try apply error_tree_ind.
  induction errs as [|x errs IH]; constructor; [apply error_tree_ind | exact IH].
Defined.
End error_ind.

(** [In_chain p e]: an error of the tree satisfies [p]. *)
Inductive In_chain {A} (p : error → option A) : error → Prop :=
  | in_chain_here e : is_Some (p e) → In_chain p e
  | in_chain_below e x : x ∈ unwrap e → In_chain p x → In_chain p e.

Lemma errors_as_join {A} (p : error → option A) es :
  p (JoinError es) = None →
  (is_Some (errors_as p (JoinError es)) ↔ Exists (λ x, is_Some (errors_as p x)) es).
Proof.
  intros Hp. simpl. rewrite Hp. clear Hp. induction es as [|x es IH].
  - split; [by intros [? ?] | by inversion 1].
  - destruct (errors_as p x) eqn:E.
    + split; [by left; rewrite E; eauto | by eauto].
    + rewrite IH. split; [by right |]. inversion 1; subst; [|done].
      rewrite E in H1. by destruct H1.
Qed.

(** [errors.As] finds an error exactly when the tree holds one. *)
Lemma errors_as_In_chain {A} (p : error → option A) e :
  is_Some (errors_as p e) ↔ In_chain p e.
Proof.
  split.
  - induction e as [e IH] using error_tree_ind. intros H.
    destruct (p e) eqn:Ep; [by apply in_chain_here; rewrite Ep; eauto |].
    destruct e; simpl in H, IH; rewrite Ep in H; try (by destruct H);
      try (inversion IH; subst; eapply in_chain_below; [by left | auto]).
    assert (HE : Exists (λ x, is_Some (errors_as p x)) errs).
    { apply errors_as_join; [done |]. simpl. by rewrite Ep. }
    apply Exists_exists in HE as (x & Hx & Hs).
    rewrite Forall_forall in IH. apply (in_chain_below p (JoinError errs) x Hx). by apply IH.
  - induction 1 as [e [a Ha] | e x Hx _ IH].
    + destruct e; simpl; rewrite Ha; eauto.
    + destruct e; simpl in Hx; try (by apply elem_of_nil in Hx);
        try (apply list_elem_of_singleton in Hx as ->; simpl; destruct (p _); by eauto).
      destruct (p (JoinError errs)) eqn:Ep; [by simpl; rewrite Ep; eauto |].
      apply errors_as_join; [done |]. apply Exists_exists. eauto.
Qed.

Lemma IsTransient_chain e : IsTransient e = true ↔ In_chain as_transient e.
Proof. unfold IsTransient. rewrite bool_decide_eq_true. apply errors_as_In_chain. Qed.

Lemma IsCapacity_chain e : IsCapacity e = true ↔ In_chain as_capacity e.
Proof. unfold IsCapacity. rewrite bool_decide_eq_true. apply errors_as_In_chain. Qed.

(** Wrapping an error with context never changes its class. *)
Lemma errors_as_wrap {A} (p : error → option A) msg e :
  p (WrapError msg e) = None → errors_as p (WrapError msg e) = errors_as p e.
Proof. intros H. simpl. by rewrite H. Qed.

Lemma IsTransient_wrap msg e : IsTransient (WrapError msg e) = IsTransient e.
Proof. done. Qed.

Lemma IsCapacity_wrap msg e : IsCapacity (WrapError msg e) = IsCapacity e.
Proof. done. Qed.

Lemma errors_Join_some e es : ∃ e', errors_Join (Some e :: es) = Some e'.
Proof. unfold errors_Join. simpl. eauto. Qed.
