(* ===== verification/UsageBudget.v ===== *)
(** The runner usage budget (src/controller/usage_budget.go): a durable ledger
    of runner-seconds over a rolling window.  A launch reserves one maximum
    lifetime before it starts; retirement settles the reservation to the
    worker's actual lifetime, forfeits it, or releases it.

    The ledger file is modelled by its committed and its staged content; each
    operation that writes takes the outcome of every system call of [persist]
    as an argument ([persistIO]), so that all failure points are covered. *)

From S2P Require Import Prelude Float64 Provider.

(** * Data *)

Record usageEntry := mkUsageEntry {
  ue_LeaseID : string;
  ue_ChargedAt : time;
  ue_StartedAt : time;
  ue_Seconds : Z;
  ue_Active : bool;
  ue_Confirmed : bool
}.

Record usageLedger := mkUsageLedger { ul_Version : Z; ul_Entries : list usageEntry }.

(** What a file holds: nothing, a write that did not finish, or a ledger. *)
Inductive content := Absent | Incomplete | Complete (l : usageLedger).

(** The ledger file and its [.tmp] sibling. *)
Record ledgerFile := mkLedgerFile { committed : content; staged : content }.

Record usageBudget := mkUsageBudget {
  limit : duration;
  window : duration;
  reservation : duration;
  entries : list usageEntry;
  file : ledgerFile
}.

(** Which system calls of one [persist] succeed. *)
Record persistIO := mkPersistIO {
  io_mkdir : bool; io_marshal : bool; io_open : bool; io_write : bool; io_sync : bool;
  io_close : bool; io_rename : bool; io_openDir : bool; io_syncDir : bool
}.

Definition ioOK : persistIO := mkPersistIO true true true true true true true true true.

Definition longestReservation : duration := 24 * Hour.

(** [durationSeconds]: [int64(math.Ceil(value.Seconds()))] *)
Definition durationSeconds (value : duration) : Z := f64_ceil (Seconds_f64 value).

Definition set_entries (b : usageBudget) (es : list usageEntry) : usageBudget :=
  mkUsageBudget (limit b) (window b) (reservation b) es (file b).
Definition set_file (b : usageBudget) (f : ledgerFile) : usageBudget :=
  mkUsageBudget (limit b) (window b) (reservation b) (entries b) f.

(** * Operations *)

(** [persist]: write the [.tmp] file, sync it, rename it over the ledger, sync
    the directory.  The rename is the commit point. *)
Definition persist (io : persistIO) (b : usageBudget) : option error * usageBudget :=
  let ledger := mkUsageLedger 1 (entries b) in
  let old := committed (file b) in
  if negb (io_mkdir io) then (Some (ErrorString "create runner usage budget directory"), b)
  else if negb (io_marshal io) then (Some (ErrorString "encode runner usage budget"), b)
  else if negb (io_open io) then (Some (ErrorString "open runner usage budget"), b)
  else
    let truncated := set_file b (mkLedgerFile old Incomplete) in
    if negb (io_write io) then (Some (ErrorString "write runner usage budget"), truncated)
    else
      let written := set_file b (mkLedgerFile old (Complete ledger)) in
      if negb (io_sync io) then (Some (ErrorString "sync runner usage budget"), written)
      else if negb (io_close io) then (Some (ErrorString "close runner usage budget"), written)
      else if negb (io_rename io) then (Some (ErrorString "commit runner usage budget"), written)
      else
        let renamed := set_file b (mkLedgerFile (Complete ledger) Absent) in
        if negb (io_openDir io) then (Some (ErrorString "open runner usage budget directory"), renamed)
        else if negb (io_syncDir io) then (Some (ErrorString "sync runner usage budget directory"), renamed)
        else (None, renamed).

(** Persist [b] with the entries [es], and put the previous entries back in
    memory when that fails: the shape every operation but one path of [adopt]
    ends with. *)
Definition commit (io : persistIO) (es : list usageEntry) (b : usageBudget)
    : option error * usageBudget :=
  match persist io (set_entries b es) with
  | (Some err, b') => (Some err, set_entries b' (entries b))
  | (None, b') => (None, b')
  end.

(** [InitializeUsageBudget]: create an empty ledger, never over an existing
    file: creation is exclusive. *)
Definition InitializeUsageBudget (io : persistIO) (stateFile : string) (f : ledgerFile)
    : option error * ledgerFile :=
  if String.eqb stateFile "" then
    (Some (ErrorString "runner usage budget state file is required"), f)
  else if negb (io_mkdir io) then (Some (ErrorString "create runner usage budget directory"), f)
  else if negb (io_marshal io) then (Some (ErrorString "encode runner usage budget"), f)
  else
  match committed f with
  | Incomplete | Complete _ =>
      (Some (ErrorString "refusing to reset existing runner usage budget"), f)
  | Absent =>
    if negb (io_open io) then (Some (ErrorString "create runner usage budget"), f)
    else if negb (io_write io) then
      (Some (ErrorString "write initial runner usage budget"), mkLedgerFile Incomplete (staged f))
    else
      let created := mkLedgerFile (Complete (mkUsageLedger 1 [])) (staged f) in
      if negb (io_sync io) then (Some (ErrorString "sync initial runner usage budget"), created)
      else if negb (io_close io) then (Some (ErrorString "close initial runner usage budget"), created)
      else if negb (io_openDir io) then
        (Some (ErrorString "open runner usage budget directory"), created)
      else if negb (io_syncDir io) then
        (Some (ErrorString "sync runner usage budget directory"), created)
      else (None, created)
  end.

(** [time.Duration(entry.Seconds) * time.Second] *)
Definition reservedFor (e : usageEntry) : duration := wrap64 (ue_Seconds e * Second).

Definition expired (now : time) (e : usageEntry) : bool :=
  ue_Active e && negb (Before now (Add (ue_StartedAt e) (reservedFor e))).

(** First loop of [prune]: an active reservation past its end is charged there. *)
Definition expire (now : time) (e : usageEntry) : usageEntry :=
  if expired now e then
    mkUsageEntry (ue_LeaseID e) (Add (ue_StartedAt e) (reservedFor e)) (ue_StartedAt e)
      (ue_Seconds e) false (ue_Confirmed e)
  else e.

(** The entries [prune] keeps: active ones, and charges inside the window. *)
Definition inWindow (cutoff : time) (e : usageEntry) : bool :=
  negb (negb (ue_Active e) && Before (ue_ChargedAt e) cutoff).

Definition prune (now : time) (b : usageBudget) : bool * usageBudget :=
  let changed := existsb (expired now) (entries b) in
  let expiredEntries := map (expire now) (entries b) in
  let cutoff := Add now (- window b) in
  let kept := keep (inWindow cutoff) expiredEntries in
  (changed || negb (length kept =? length expiredEntries)%nat, set_entries b kept).

Definition usedSeconds (b : usageBudget) : Z :=
  fold_left (λ total e, wrap64 (total + ue_Seconds e)) (entries b) 0.

#[global] Instance charged_before_dec :
  RelDecision (λ a c : usageEntry, ue_ChargedAt a <= ue_ChargedAt c).
Proof. intros a c. apply _. Defined.

Definition nextAvailable (now : time) (b : usageBudget) : time :=
  let completed := keep (λ e, negb (ue_Active e)) (entries b) in
  match merge_sort (λ a c, ue_ChargedAt a <= ue_ChargedAt c) completed with
  | [] => Add now (window b)
  | e :: _ => Add (ue_ChargedAt e) (window b)
  end.

Record reserveResult := mkReserveResult {
  rr_allowed : bool; rr_next : time; rr_err : option error
}.

Definition reserve (io : persistIO) (leaseID : string) (now : time) (maximum : duration)
    (b : usageBudget) : reserveResult * usageBudget :=
  let b := (prune now b).2 in
  if existsb (λ e, String.eqb (ue_LeaseID e) leaseID) (entries b) then
    (mkReserveResult false zeroTime
       (Some (ErrorString "runner usage budget already contains lease")), b)
  else
  let requested := durationSeconds maximum in
  if negb (requested =? durationSeconds (reservation b)) then
    (mkReserveResult false zeroTime
       (Some (ErrorString "runner reservation must equal configured maximum lifetime")), b)
  else
  let used := usedSeconds b in
  let lim := durationSeconds (limit b) in
  if (lim <? used) || (wrap64 (lim - used) <? requested) then
    (mkReserveResult false (nextAvailable now b) None, b)
  else
  match commit io (entries b ++ [mkUsageEntry leaseID now now requested true false]) b with
  | (Some err, b) => (mkReserveResult false zeroTime (Some err), b)
  | (None, b) => (mkReserveResult true zeroTime None, b)
  end.

Definition isActiveLease (leaseID : string) (e : usageEntry) : bool :=
  String.eqb (ue_LeaseID e) leaseID && ue_Active e.

(** The entry [settleAt] leaves for a worker that ran from its start to
    [stoppedAt]. *)
Definition settleEntry (stoppedAt now : time) (previous : usageEntry) : usageEntry :=
  let stopped :=
    if IsZero stoppedAt || Before stoppedAt (ue_StartedAt previous) || After stoppedAt now
    then now else stoppedAt in
  mkUsageEntry (ue_LeaseID previous) now (ue_StartedAt previous)
    (Z.min (ue_Seconds previous) (Z.max 1 (durationSeconds (Sub stopped (ue_StartedAt previous)))))
    false (ue_Confirmed previous).

Definition settleAt (io : persistIO) (leaseID : string) (stoppedAt now : time)
    (b : usageBudget) : option error * usageBudget :=
  match indexFunc (isActiveLease leaseID) (entries b) with
  | None => (None, b)
  | Some index =>
    match entries b !! index with
    | None => (None, b)
    | Some previous =>
      let b1 := set_entries b (<[index := settleEntry stoppedAt now previous]> (entries b)) in
      commit io (entries (prune now b1).2) b
    end
  end.

(** [settle] *)
Definition settle (io : persistIO) (leaseID : string) (now : time) (b : usageBudget) :=
  settleAt io leaseID now now b.

Definition forfeitEntry (now : time) (previous : usageEntry) : usageEntry :=
  mkUsageEntry (ue_LeaseID previous) now (ue_StartedAt previous) (ue_Seconds previous) false
    (ue_Confirmed previous).

Definition forfeit (io : persistIO) (leaseID : string) (now : time) (b : usageBudget)
    : option error * usageBudget :=
  match indexFunc (isActiveLease leaseID) (entries b) with
  | None => (None, b)
  | Some index =>
    match entries b !! index with
    | None => (None, b)
    | Some previous =>
      commit io (<[index := forfeitEntry now previous]> (entries b)) b
    end
  end.

Definition release (io : persistIO) (leaseID : string) (b : usageBudget)
    : option error * usageBudget :=
  match indexFunc (isActiveLease leaseID) (entries b) with
  | None => (None, b)
  | Some index => commit io (delete index (entries b)) b
  end.

(** The entry [adopt] leaves for a lease the ledger already holds. *)
Definition adoptEntry (b : usageBudget) (startedAt : time) (entry : usageEntry) : usageEntry :=
  if ue_Active entry then
    mkUsageEntry (ue_LeaseID entry) (ue_ChargedAt entry) (ue_StartedAt entry)
      (Z.max (ue_Seconds entry) (durationSeconds (reservation b))) true true
  else
    mkUsageEntry (ue_LeaseID entry) startedAt startedAt (durationSeconds (reservation b)) true true.

(** [adopt]; [clock] is the [time.Now()] read for a worker without a creation
    time. *)
Definition adopt (io : persistIO) (leaseID : string) (startedAt clock : time) (b : usageBudget)
    : option error * usageBudget :=
  if String.eqb leaseID "" then
    (Some (ErrorString "cannot adopt a worker without a lease ID"), b)
  else
  let startedAt := if IsZero startedAt then clock else startedAt in
  match indexFunc (λ e, String.eqb (ue_LeaseID e) leaseID) (entries b) with
  | Some index =>
    match entries b !! index with
    | None => (None, b)
    | Some entry =>
      if ue_Active entry && ue_Confirmed entry then (None, b)
      else commit io (<[index := adoptEntry b startedAt entry]> (entries b)) b
    end
  | None =>
    (* No rollback on this path: the entry stays in memory when the write fails. *)
    persist io (set_entries b (entries b ++
      [mkUsageEntry leaseID startedAt startedAt (durationSeconds (reservation b)) true true]))
  end.

(** An active entry [reconcile] closes: its lease is not among the active ones. *)
Definition orphaned (activeLeases : gset string) (e : usageEntry) : bool :=
  ue_Active e && negb (bool_decide (ue_LeaseID e ∈ activeLeases)).

Definition closeOrphan (activeLeases : gset string) (now : time) (e : usageEntry) : usageEntry :=
  if orphaned activeLeases e then
    mkUsageEntry (ue_LeaseID e) now (ue_StartedAt e)
      (if ue_Confirmed e
       then Z.min (ue_Seconds e) (Z.max 1 (durationSeconds (Sub now (ue_StartedAt e))))
       else ue_Seconds e)
      false (ue_Confirmed e)
  else e.

(** [usageBudget.reconcile] *)
Definition reconcileBudget (io : persistIO) (activeLeases : gset string) (now : time)
    (b : usageBudget) : option error * usageBudget :=
  let closed := existsb (orphaned activeLeases) (entries b) in
  let b1 := set_entries b (map (closeOrphan activeLeases now) (entries b)) in
  let '(pruned, b2) := prune now b1 in
  if closed || pruned then commit io (entries b2) b else (None, b2).

(** [validate]: the checks of one entry, then of the running total. *)
Definition validEntry (b : usageBudget) (e : usageEntry) : bool :=
  negb (String.eqb (ue_LeaseID e) "" || IsZero (ue_StartedAt e) || IsZero (ue_ChargedAt e))
  && (1 <=? ue_Seconds e) && (ue_Seconds e <=? durationSeconds longestReservation)
  && negb (ue_Active e && (ue_Seconds e <? durationSeconds (reservation b)))
  && negb (negb (ue_Active e) && Before (ue_ChargedAt e) (ue_StartedAt e)).

Fixpoint validateFrom (b : usageBudget) (seen : gset string) (total : Z) (es : list usageEntry)
    : option error :=
  match es with
  | [] => None
  | e :: es =>
    if String.eqb (ue_LeaseID e) "" || IsZero (ue_StartedAt e) || IsZero (ue_ChargedAt e) then
      Some (ErrorString "invalid runner usage budget entry: identity and timestamps are required")
    else if bool_decide (ue_LeaseID e ∈ seen) then
      Some (ErrorString "invalid runner usage budget: duplicate lease")
    else if (ue_Seconds e <? 1) || (durationSeconds longestReservation <? ue_Seconds e) then
      Some (ErrorString "invalid runner usage budget entry: seconds out of range")
    else if ue_Active e && (ue_Seconds e <? durationSeconds (reservation b)) then
      Some (ErrorString "invalid runner usage budget entry: active reservation is undercharged")
    else if negb (ue_Active e) && Before (ue_ChargedAt e) (ue_StartedAt e) then
      Some (ErrorString "invalid runner usage budget entry: charge precedes start")
    else if max_int64 - ue_Seconds e <? total then
      Some (ErrorString "invalid runner usage budget: usage overflow")
    else validateFrom b ({[ue_LeaseID e]} ∪ seen) (total + ue_Seconds e) es
  end.

Definition validate (b : usageBudget) : option error := validateFrom b ∅ 0 (entries b).

(** What reading the ledger file at start-up finds. *)
Inductive ledgerRead :=
  | ReadMissing | ReadFailed | ReadUnparsable | ReadLedger (l : usageLedger).

(** [newUsageBudget]; [now] is the clock read for the first prune. *)
Definition newUsageBudget (io : persistIO) (lim win : duration) (stateFile : string)
    (res : duration) (data : ledgerRead) (now : time) : error + usageBudget :=
  if (lim <=? 0) || (win <=? 0) || String.eqb stateFile "" || (res <=? 0) || (lim <? res) then
    inl (ErrorString "runner usage budget, window, and state file are required")
  else
  match data with
  | ReadMissing => inl (ErrorString "runner usage budget is not initialized")
  | ReadFailed => inl (ErrorString "read runner usage budget")
  | ReadUnparsable => inl (ErrorString "parse runner usage budget")
  | ReadLedger ledger =>
    if negb (ul_Version ledger =? 1) then
      inl (ErrorString "unsupported runner usage budget version")
    else
    let b := mkUsageBudget lim win res (ul_Entries ledger) (mkLedgerFile (Complete ledger) Absent) in
    match validate b with
    | Some err => inl err
    | None =>
      let '(changed, b) := prune now b in
      if changed then
        match persist io b with
        | (Some err, _) => inl err
        | (None, b) => inr b
        end
      else inr b
    end
  end.

(** [BudgetStatus] *)
Record BudgetStatus := mkBudgetStatus {
  LimitSeconds : Z; UsedSeconds : Z; ReservedSeconds : Z; RemainingSeconds : Z;
  WindowSeconds : Z; BurnSecondsPerDay : Z; HorizonSeconds : Z;
  RefusalReason : string; NextAvailableAt : time
}.

Definition burnPerDay (now : time) (b : usageBudget) : Z :=
  let cutoff := Add now (- (24 * Hour)) in
  let recentEntries := keep (λ e, negb (ue_Active e || Before (ue_ChargedAt e) cutoff)) (entries b) in
  let recent := fold_left (λ total e, wrap64 (total + ue_Seconds e)) recentEntries 0 in
  let oldest := fold_left (λ o e, if Before (ue_ChargedAt e) o then ue_ChargedAt e else o)
                  recentEntries now in
  if recent =? 0 then 0
  else
    let span := Z.max (Sub now oldest) Hour in
    f64_trunc (f64_div (f64_mul (f64_of_int recent) (f64_of_int (24 * Hour))) (f64_of_int span)).

Definition snapshot (now : time) (b : usageBudget) : BudgetStatus :=
  let cutoff := Add now (- window b) in
  let counted := keep (inWindow cutoff) (entries b) in
  let sum es := fold_left (λ total e, wrap64 (total + ue_Seconds e)) es 0 in
  let used := sum (keep (λ e, negb (ue_Active e)) counted) in
  let reserved := sum (keep ue_Active counted) in
  let lim := durationSeconds (limit b) in
  let remaining := Z.max 0 (wrap64 (lim - used - reserved)) in
  let burn := burnPerDay now b in
  let horizon := if 0 <? burn then Z.quot (wrap64 (remaining * 86400)) burn else 0 in
  let refused := remaining <? durationSeconds (reservation b) in
  mkBudgetStatus lim used reserved remaining (durationSeconds (window b)) burn horizon
    (if refused then "usage_budget_exhausted" else "")
    (if refused then nextAvailable now b else zeroTime).
