(* ===== verification/BudgetFacts.v ===== *)
(** Correctness of the usage budget: the ledger invariant, its preservation by
    every operation and every failure point, admission under the limit, and the
    agreement of the published status with the admission decision. *)

From S2P Require Import Prelude Float64 Provider UsageBudget.

(** * The ledger invariant *)

(** The operator settings the controller accepts: [reservation] is the maximum
    lifetime, between one second and the longest one. *)
Definition configOK (b : usageBudget) : Prop :=
  (0 < window b ∧ 0 <= durationSeconds (limit b) <= max_int64)
  ∧ 1 <= durationSeconds (reservation b) <= durationSeconds longestReservation.

(** A ledger entry as the running controller keeps it at time [now], under the
    reservation [res] (in seconds). *)
Record entryOK (res : Z) (now : time) (e : usageEntry) : Prop := {
  eok_lease : ue_LeaseID e ≠ "";
  eok_started : 0 < ue_StartedAt e <= now;
  eok_charged : 0 < ue_ChargedAt e;
  eok_seconds : 1 <= ue_Seconds e <= durationSeconds longestReservation;
  eok_active : ue_Active e = true → res <= ue_Seconds e;
  eok_order : ue_StartedAt e <= ue_ChargedAt e
}.

Definition entriesOK (res : Z) (now : time) (es : list usageEntry) : Prop :=
  Forall (entryOK res now) es ∧ NoDup (map ue_LeaseID es).

Definition fileOK (res : Z) (now : time) (f : ledgerFile) : Prop :=
  ∃ es, committed f = Complete (mkUsageLedger 1 es) ∧ entriesOK res now es.

(** Memory and disk both hold a ledger the controller would accept. *)
Definition budgetOK (now : time) (b : usageBudget) : Prop :=
  configOK b ∧ entriesOK (durationSeconds (reservation b)) now (entries b)
  ∧ fileOK (durationSeconds (reservation b)) now (file b).

(** Same operator settings. *)
Definition sameConfig (b b' : usageBudget) : Prop :=
  limit b' = limit b ∧ window b' = window b ∧ reservation b' = reservation b.

(** Seconds charged or reserved. *)
Definition charged (es : list usageEntry) : Z := sumZ ue_Seconds es.



(** * Entries *)

Lemma longest_seconds : durationSeconds longestReservation = 86400.
Proof. vm_compute. reflexivity. Qed.

Lemma entryOK_later res now now' e : now <= now' → entryOK res now e → entryOK res now' e.
Proof. intros Hle []. constructor; auto; lia. Qed.

Lemma entriesOK_later res now now' es :
  now <= now' → entriesOK res now es → entriesOK res now' es.
Proof.
  intros Hle [HF HN]. split; [|done]. eapply Forall_impl; [exact HF |].
  intros e. by apply entryOK_later.
Qed.

Lemma fileOK_later res now now' f : now <= now' → fileOK res now f → fileOK res now' f.
Proof. intros Hle (es & ? & ?). exists es. eauto using entriesOK_later. Qed.

Lemma budgetOK_later now now' b : now <= now' → budgetOK now b → budgetOK now' b.
Proof. intros Hle (? & ? & ?). split_and!; eauto using entriesOK_later, fileOK_later. Qed.

Lemma reservedFor_exact res now e :
  entryOK res now e → reservedFor e = ue_Seconds e * Second.
Proof.
  intros He. destruct He as [_ _ _ Hs _ _]. rewrite longest_seconds in Hs.
  apply wrap64_id. unfold in_int64, min_int64, max_int64, Second. lia.
Qed.

Lemma expire_lease now e : ue_LeaseID (expire now e) = ue_LeaseID e.
Proof. unfold expire. by destruct (expired now e). Qed.

Lemma expire_seconds now e : ue_Seconds (expire now e) = ue_Seconds e.
Proof. unfold expire. by destruct (expired now e). Qed.

Lemma expire_OK res now t e : entryOK res now e → entryOK res now (expire t e).
Proof.
  intros He. unfold expire. destruct (expired t e) eqn:E; [|done].
  unfold Add. rewrite (reservedFor_exact res now e He).
  destruct He as [H1 H2 H3 H4 H5 H6]. unfold Second. constructor; simpl; auto; try done; lia.
Qed.

Lemma settleEntry_OK res now stoppedAt e :
  entryOK res now e → entryOK res now (settleEntry stoppedAt now e).
Proof.
  intros [H1 H2 H3 H4 H5 H6]. unfold settleEntry. constructor; simpl; auto; try done; lia.
Qed.

Lemma forfeitEntry_OK res now e : entryOK res now e → entryOK res now (forfeitEntry now e).
Proof. intros [H1 H2 H3 H4 H5 H6]. unfold forfeitEntry. constructor; simpl; auto; try done; lia. Qed.

Lemma closeOrphan_OK res now leases e :
  entryOK res now e → entryOK res now (closeOrphan leases now e).
Proof.
  intros He. pose proof He as [H1 H2 H3 H4 H5 H6]. unfold closeOrphan.
  destruct (orphaned leases e); [|done].
  constructor; simpl; auto; try done; try lia. destruct (ue_Confirmed e); lia.
Qed.

Lemma adoptEntry_OK now b startedAt e :
  configOK b → 0 < startedAt <= now → entryOK (durationSeconds (reservation b)) now e →
  entryOK (durationSeconds (reservation b)) now (adoptEntry b startedAt e).
Proof.
  intros [_ Hc] Hs [H1 H2 H3 H4 H5 H6]. unfold adoptEntry.
  destruct (ue_Active e); constructor; simpl; auto; lia.
Qed.

(** * Lists of entries *)

Lemma entriesOK_map res now (f : usageEntry → usageEntry) es :
  (∀ e, ue_LeaseID (f e) = ue_LeaseID e) → (∀ e, entryOK res now e → entryOK res now (f e)) →
  entriesOK res now es → entriesOK res now (map f es).
Proof.
  intros Hl Hf [HF HN]. split.
  - apply Forall_fmap. eapply Forall_impl; [exact HF |]. exact Hf.
  - rewrite List.map_map. by rewrite (List.map_ext _ ue_LeaseID).
Qed.

Lemma entriesOK_keep res now p es : entriesOK res now es → entriesOK res now (keep p es).
Proof.
  intros [HF HN]. split; [|by apply NoDup_keep_map].
  rewrite Forall_forall in *. intros e He. apply elem_of_keep in He as [? _]. auto.
Qed.

Lemma prune_OK res now t b :
  entriesOK res now (entries b) → entriesOK res now (entries (prune t b).2).
Proof.
  intros H. simpl. apply entriesOK_keep, entriesOK_map; auto using expire_lease, expire_OK.
Qed.

Lemma entriesOK_update res now l1 e e' l2 :
  ue_LeaseID e' = ue_LeaseID e → entryOK res now e' →
  entriesOK res now (l1 ++ e :: l2) → entriesOK res now (l1 ++ e' :: l2).
Proof.
  intros Hl He [HF HN]. split.
  - apply Forall_app in HF as [? HF]. apply Forall_cons in HF as [_ ?].
    apply Forall_app. split; [done |]. by constructor.
  - rewrite List.map_app in *. simpl in *. by rewrite Hl.
Qed.

Lemma entriesOK_delete res now l1 e l2 :
  entriesOK res now (l1 ++ e :: l2) → entriesOK res now (l1 ++ l2).
Proof.
  intros [HF HN]. split.
  - apply Forall_app in HF as [? HF]. apply Forall_cons in HF as [_ ?]. by apply Forall_app.
  - rewrite List.map_app in *. simpl in HN.
    apply NoDup_app in HN as (? & Hd & HN). apply NoDup_cons in HN as [_ ?].
    apply NoDup_app. split_and!; auto. intros x Hx Hin. apply (Hd x Hx). by right.
Qed.

Lemma entriesOK_snoc res now es e :
  entryOK res now e → (∀ x, x ∈ es → ue_LeaseID x ≠ ue_LeaseID e) →
  entriesOK res now es → entriesOK res now (es ++ [e]).
Proof.
  intros He Hx [HF HN]. split; [apply Forall_app; auto |].
  rewrite List.map_app. apply NoDup_app. split_and!; [done | | apply NoDup_singleton].
  intros l Hl Hin. simpl in Hin. apply list_elem_of_singleton in Hin as ->.
  apply list_elem_of_fmap in Hl as (x & Hxl & Hxin). by apply (Hx x Hxin).
Qed.

(** Position of an entry found by [indexFunc]. *)
Lemma indexFunc_lookup (p : usageEntry → bool) es i :
  indexFunc p es = Some i →
  ∃ l1 e l2, es = l1 ++ e :: l2 ∧ es !! i = Some e ∧ i = length l1 ∧ p e = true.
Proof.
  intros H. destruct (indexFunc_Some p es i H) as (l1 & e & l2 & -> & <- & He & _).
  exists l1, e, l2. split_and!; auto. by rewrite list_lookup_middle.
Qed.

(** * Persisting *)

(** Whatever system call fails, the ledger file holds the old ledger or the new
    one in full, memory keeps its entries, and success means the new one. *)
Lemma persist_cases io b r b' :
  persist io b = (r, b') →
  sameConfig b b' ∧ entries b' = entries b ∧
  (committed (file b') = committed (file b)
   ∨ committed (file b') = Complete (mkUsageLedger 1 (entries b))) ∧
  (r = None → committed (file b') = Complete (mkUsageLedger 1 (entries b))).
Proof.
  unfold persist. intros H. case_bool; unfold sameConfig; simpl; split_and!; auto; done.
Qed.

Lemma commit_cases io es b r b' :
  commit io es b = (r, b') →
  sameConfig b b' ∧
  (committed (file b') = committed (file b) ∨ committed (file b') = Complete (mkUsageLedger 1 es)) ∧
  (r = None → entries b' = es ∧ committed (file b') = Complete (mkUsageLedger 1 es)) ∧
  (r ≠ None → entries b' = entries b).
Proof.
  unfold commit. destruct (persist io (set_entries b es)) as [[err|] b1] eqn:E;
    apply persist_cases in E as ([H1 [H2 H3]] & H4 & H5 & H6); intros [= <- <-];
    unfold sameConfig; simpl in *; split_and!; auto; try done.
Qed.

Lemma persist_OK now io b r b' :
  configOK b → entriesOK (durationSeconds (reservation b)) now (entries b) →
  fileOK (durationSeconds (reservation b)) now (file b) →
  persist io b = (r, b') → budgetOK now b' ∧ sameConfig b b'.
Proof.
  intros Hc He (es & Hf & Hes) Hp. apply persist_cases in Hp as ([H1 [H2 H3]] & H4 & H5 & _).
  unfold budgetOK, configOK, fileOK, sameConfig in *. rewrite H1, H2, H3, H4.
  split_and!; auto; try tauto. destruct H5 as [->| ->]; eauto.
Qed.

Lemma commit_OK now io es b r b' :
  commit io es b = (r, b') → budgetOK now b → entriesOK (durationSeconds (reservation b)) now es →
  budgetOK now b' ∧ sameConfig b b'.
Proof.
  intros H (Hc & He & es0 & Hf & Hes0) Hes.
  pose proof H as ([H1 [H2 H3]] & H4 & H5 & H6)%commit_cases.
  unfold budgetOK, configOK, fileOK, sameConfig in *. rewrite H1, H2, H3.
  split_and!; try tauto.
  - destruct r; [rewrite H6 by done; done | by destruct (H5 eq_refl) as [-> _]].
  - destruct H4 as [->| ->]; eauto.
Qed.

(** ** Every operation keeps the invariant, on every branch *)

Lemma prune_budgetOK now t b :
  budgetOK now b → budgetOK now (prune t b).2 ∧ sameConfig b (prune t b).2.
Proof. intros (? & ? & ?). split; [|done]. split_and!; auto. by apply prune_OK. Qed.

Lemma reserve_OK now io leaseID maximum b r b' :
  0 < now → leaseID ≠ "" → budgetOK now b → reserve io leaseID now maximum b = (r, b') →
  budgetOK now b' ∧ sameConfig b b'.
Proof.
  intros Hnow Hl Hb. destruct (prune_budgetOK now now b Hb) as [Hp Hsc].
  unfold reserve. generalize dependent (prune now b).2. intros b0 Hp Hsc.
  destruct (existsb _ _) eqn:Edup; [by intros [= <- <-] |].
  destruct (negb _) eqn:Ereq; [by intros [= <- <-] |].
  destruct (_ || _) eqn:Eful; [by intros [= <- <-] |].
  destruct (commit _ _ b0) as [r0 b1] eqn:Ec. intros H.
  assert (b1 = b') as -> by (destruct r0; by simplify_eq).
  destruct (commit_OK now _ _ _ _ _ Ec Hp) as [Hok Hsc'].
  - destruct Hp as (Hc & He & _). apply entriesOK_snoc; auto.
    + destruct Hc as [_ Hc]. breflect. constructor; simpl; auto; lia.
    + intros x Hx Heq. simpl in Heq.
      apply not_true_iff_false in Edup. apply Edup, existsb_exists.
      exists x. split; [by apply list_elem_of_In |]. by apply String.eqb_eq.
  - split; [done |]. destruct Hsc as (? & ? & ?), Hsc' as (? & ? & ?).
    unfold sameConfig. split_and!; congruence.
Qed.

Lemma settleAt_OK now io leaseID stoppedAt b r b' :
  budgetOK now b → settleAt io leaseID stoppedAt now b = (r, b') →
  budgetOK now b' ∧ sameConfig b b'.
Proof.
  intros Hb. unfold settleAt.
  destruct (indexFunc _ _) as [i|] eqn:Ei; [|by intros [= <- <-]].
  apply indexFunc_lookup in Ei as (l1 & e & l2 & Hes & -> & -> & _).
  intros H. apply (commit_OK now _ _ _ _ _ H Hb). apply prune_OK. simpl.
  rewrite Hes, insert_middle. destruct Hb as (_ & He & _). rewrite Hes in He.
  apply (entriesOK_update _ _ _ e); [done | | exact He]. apply settleEntry_OK.
  destruct He as [HF _]. apply Forall_app in HF as [_ HF]. by apply Forall_cons in HF as [? _].
Qed.

Lemma forfeit_OK now io leaseID b r b' :
  budgetOK now b → forfeit io leaseID now b = (r, b') → budgetOK now b' ∧ sameConfig b b'.
Proof.
  intros Hb. unfold forfeit.
  destruct (indexFunc _ _) as [i|] eqn:Ei; [|by intros [= <- <-]].
  apply indexFunc_lookup in Ei as (l1 & e & l2 & Hes & -> & -> & _).
  intros H. apply (commit_OK now _ _ _ _ _ H Hb).
  rewrite Hes, insert_middle. destruct Hb as (_ & He & _). rewrite Hes in He.
  apply (entriesOK_update _ _ _ e); [done | | exact He]. apply forfeitEntry_OK.
  destruct He as [HF _]. apply Forall_app in HF as [_ HF]. by apply Forall_cons in HF as [? _].
Qed.

Lemma release_OK now io leaseID b r b' :
  budgetOK now b → release io leaseID b = (r, b') → budgetOK now b' ∧ sameConfig b b'.
Proof.
  intros Hb. unfold release.
  destruct (indexFunc _ _) as [i|] eqn:Ei; [|by intros [= <- <-]].
  apply indexFunc_lookup in Ei as (l1 & e & l2 & Hes & _ & -> & _).
  intros H. apply (commit_OK now _ _ _ _ _ H Hb). destruct Hb as (_ & He & _). rewrite Hes in *.
  rewrite delete_middle. by eapply entriesOK_delete.
Qed.

Lemma adopt_OK now io leaseID startedAt clock b r b' :
  0 < startedAt <= now ∨ startedAt = 0 ∧ 0 < clock <= now →
  budgetOK now b → adopt io leaseID startedAt clock b = (r, b') →
  budgetOK now b' ∧ sameConfig b b'.
Proof.
  intros Hst Hb. pose proof Hb as (Hc & He & Hf). unfold adopt.
  destruct (String.eqb leaseID "") eqn:El; [by intros [= <- <-] |].
  apply String.eqb_neq in El.
  set (st := if IsZero startedAt then clock else startedAt).
  assert (Hst' : 0 < st <= now) by (subst st; destruct (IsZero startedAt) eqn:E; blia).
  destruct (indexFunc _ _) as [i|] eqn:Ei.
  - apply indexFunc_lookup in Ei as (l1 & e & l2 & Hes & -> & -> & Hel).
    destruct (_ && _); [by intros [= <- <-] |].
    intros H. apply (commit_OK now _ _ _ _ _ H Hb). rewrite Hes, insert_middle. rewrite Hes in He.
    apply (entriesOK_update _ _ _ e); [unfold adoptEntry; by destruct (ue_Active e) | | exact He].
    apply adoptEntry_OK; auto.
    destruct He as [HF _]. apply Forall_app in HF as [_ HF]. by apply Forall_cons in HF as [? _].
  - intros H. apply (persist_OK now) in H; auto. simpl. apply entriesOK_snoc; auto.
    + destruct Hc as [_ Hc]. constructor; simpl; auto; lia.
    + intros x Hx. rewrite indexFunc_None in Ei. specialize (Ei x Hx).
      by apply String.eqb_neq in Ei.
Qed.

Lemma reconcileBudget_OK now io leases b r b' :
  budgetOK now b → reconcileBudget io leases now b = (r, b') →
  budgetOK now b' ∧ sameConfig b b'.
Proof.
  intros Hb. pose proof Hb as (Hc & He & Hf). unfold reconcileBudget.
  set (b1 := set_entries b (map (closeOrphan leases now) (entries b))).
  assert (H1 : entriesOK (durationSeconds (reservation b)) now (entries b1)).
  { apply entriesOK_map; auto using closeOrphan_OK.
    intros e. unfold closeOrphan. by destruct (orphaned leases e). }
  pose proof (prune_OK _ now now b1 H1) as H2.
  destruct (prune now b1) as [pruned b2] eqn:Ep. simpl in H2.
  assert (sameConfig b b2 ∧ file b2 = file b) as [Hsc Hfile].
  { unfold prune in Ep. injection Ep as <- <-. done. }
  destruct (_ || _); [intros H; by apply (commit_OK now _ _ _ _ _ H Hb) |].
  intros [= <- <-]. split; [|done]. destruct Hsc as (E1 & E2 & E3).
  unfold budgetOK, configOK. by rewrite E1, E2, E3, Hfile.
Qed.

(** * Validation at start-up *)

Lemma charged_bound res now es :
  Forall (entryOK res now) es → 0 <= charged es <= 86400 * Z.of_nat (length es).
Proof.
  intros HF. rewrite Forall_forall in HF.
  assert (Hs : ∀ e, e ∈ es → 1 <= ue_Seconds e <= 86400).
  { intros e He. rewrite <- longest_seconds. by destruct (HF e He). }
  unfold charged. split.
  - apply sumZ_nonneg. intros e He. specialize (Hs e He). lia.
  - apply sumZ_bound. intros e He. specialize (Hs e He). lia.
Qed.

(** One round of [validate]'s loop. *)
Lemma validateFrom_cons b seen total e es :
  validateFrom b seen total (e :: es) = None ↔
  validEntry b e = true ∧ (ue_LeaseID e ∉ seen) ∧ total + ue_Seconds e <= max_int64
  ∧ validateFrom b ({[ue_LeaseID e]} ∪ seen) (total + ue_Seconds e) es = None.
Proof.
  assert (Hmax : total + ue_Seconds e <= max_int64 ↔ (max_int64 - ue_Seconds e <? total) = false)
    by (rewrite Z.ltb_ge; lia).
  rewrite Hmax. clear Hmax. cbn [validateFrom]. unfold validEntry.
  rewrite (Z.leb_antisym (ue_Seconds e) 1), (Z.leb_antisym _ (ue_Seconds e)).
  assert (Hseen : ue_LeaseID e ∉ seen ↔ bool_decide (ue_LeaseID e ∈ seen) = false)
    by (by rewrite bool_decide_eq_false).
  rewrite Hseen. clear Hseen.
  repeat match goal with |- context [if ?c then _ else _] => destruct c eqn:? end;
    breflect; first [tauto | split; [done |]; intros Hv; destruct_and?; breflect; exfalso;
      intuition (congruence || lia)].
Qed.

(** [validate] accepts exactly well-formed ledgers with distinct leases whose
    total fits an [int64]. *)
Lemma validateFrom_None b seen total es :
  0 <= total <= max_int64 →
  validateFrom b seen total es = None ↔
  Forall (λ e, validEntry b e = true) es ∧ NoDup (map ue_LeaseID es)
  ∧ (∀ e, e ∈ es → ue_LeaseID e ∉ seen) ∧ total + charged es <= max_int64.
Proof.
  revert seen total. induction es as [|e es IH]; intros seen total Ht.
  { unfold charged. simpl. split; [|done]. intros _.
    split_and!; [constructor | constructor | set_solver | lia]. }
  rewrite validateFrom_cons, Forall_cons. unfold charged in *. simpl. rewrite NoDup_cons.
  assert (Hpos : Forall (λ e, validEntry b e = true) (e :: es) →
                 1 <= ue_Seconds e ∧ 0 <= sumZ ue_Seconds es).
  { rewrite Forall_forall. intros HF. assert (∀ x, x ∈ e :: es → 1 <= ue_Seconds x).
    { intros x Hx. specialize (HF x Hx). unfold validEntry in HF. breflect. lia. }
    split; [apply H; left |]. apply sumZ_nonneg. intros x Hx. specialize (H x ltac:(by right)). lia. }
  rewrite Forall_cons in Hpos. split.
  - intros (He & Hs & Hm & Hr).
    assert (1 <= ue_Seconds e) by (unfold validEntry in He; breflect; lia).
    apply IH in Hr as (HF & HN & Hs' & Hsum); [|lia]. split_and!; auto; [| |lia].
    + intros (x & Hx & Hxin)%list_elem_of_fmap. specialize (Hs' x Hxin). set_solver.
    + intros x [->|Hx]%elem_of_cons; [done |]. specialize (Hs' x Hx). set_solver.
  - intros ((He & HF) & (Hne & HN) & Hs & Hsum). destruct Hpos as [Hp1 Hp2]; [done |].
    split_and!; auto; [set_solver | lia |]. apply IH; [lia |]. split_and!; auto; [|lia].
    intros x Hx [Hin%elem_of_singleton|Hin]%elem_of_union; [|set_solver].
    apply Hne. rewrite <- Hin. by apply list_elem_of_fmap_2.
Qed.

Lemma validate_None b :
  validate b = None ↔
  Forall (λ e, validEntry b e = true) (entries b) ∧ NoDup (map ue_LeaseID (entries b))
  ∧ charged (entries b) <= max_int64.
Proof.
  unfold validate. rewrite validateFrom_None by (unfold max_int64; lia).
  split; [naive_solver |]. intros (? & ? & ?). split_and!; auto. set_solver.
Qed.

Lemma entryOK_valid b now e :
  entryOK (durationSeconds (reservation b)) now e → validEntry b e = true.
Proof.
  intros [H1 H2 H3 H4 H5 H6]. unfold validEntry.
  destruct (String.eqb_spec (ue_LeaseID e) ""); [done |].
  destruct (ue_Active e); simpl; breflect; split_and!; auto; try lia; naive_solver lia.
Qed.

(** At most this many entries keep the running total inside an [int64]. *)
Definition maxEntries : nat := Z.to_nat (10 ^ 14).

Lemma entriesOK_validate b now :
  entriesOK (durationSeconds (reservation b)) now (entries b) →
  (length (entries b) <= maxEntries)%nat → validate b = None.
Proof.
  intros [HF HN] Hlen. apply validate_None. split_and!; auto.
  - eapply Forall_impl; [exact HF |]. intros e. apply entryOK_valid.
  - apply charged_bound in HF. unfold maxEntries in Hlen. unfold max_int64. lia.
Qed.

(** The wrapping sums of the source are exact on well-formed entries. *)
Lemma fold_charged res now es acc :
  Forall (entryOK res now) es → 0 <= acc → acc + 86400 * Z.of_nat (length es) <= max_int64 →
  fold_left (λ t e, wrap64 (t + ue_Seconds e)) es acc = acc + charged es.
Proof.
  revert acc. induction es as [|e es IH]; intros acc HF Hacc Hmax; simpl; [unfold charged; simpl; lia |].
  apply Forall_cons in HF as [He HF]. pose proof (eok_seconds _ _ _ He) as Hs.
  rewrite longest_seconds in Hs. simpl in Hmax.
  rewrite wrap64_id by (unfold in_int64, min_int64, max_int64 in *; lia).
  rewrite IH by (auto; lia). unfold charged. simpl. lia.
Qed.

Lemma sum_charged res now es :
  Forall (entryOK res now) es → (length es <= maxEntries)%nat →
  fold_left (λ t e, wrap64 (t + ue_Seconds e)) es 0 = charged es.
Proof.
  intros HF Hlen. rewrite (fold_charged res now); [lia | done | lia |].
  unfold maxEntries in Hlen. unfold max_int64. lia.
Qed.

Lemma usedSeconds_exact b now :
  entriesOK (durationSeconds (reservation b)) now (entries b) →
  (length (entries b) <= maxEntries)%nat → usedSeconds b = charged (entries b).
Proof. intros [HF _] Hlen. unfold usedSeconds. by eapply sum_charged. Qed.

(** * Runs of the ledger *)

(** One ledger operation at time [now], with any outcome of its system calls.
    A lease is never empty, the ledger fits in memory ([maxEntries]), and an
    adopted worker was created by [now]. *)
Inductive budgetStep (now : time) (b : usageBudget) : usageBudget → Prop :=
  | step_reserve io l m r b' :
      l ≠ "" → (length (entries b) <= maxEntries)%nat →
      reserve io l now m b = (r, b') → budgetStep now b b'
  | step_settle io l stopped r b' :
      settleAt io l stopped now b = (r, b') → budgetStep now b b'
  | step_forfeit io l r b' : forfeit io l now b = (r, b') → budgetStep now b b'
  | step_release io l r b' : release io l b = (r, b') → budgetStep now b b'
  | step_reconcile io leases r b' :
      reconcileBudget io leases now b = (r, b') → budgetStep now b b'.

Inductive adoptStep (now : time) (b : usageBudget) : usageBudget → Prop :=
  | step_adopt io l st clock r b' :
      0 < st <= now ∨ st = 0 ∧ 0 < clock <= now →
      adopt io l st clock b = (r, b') → adoptStep now b b'.

(** Operations in clock order; [n] counts the adoptions. *)
Inductive budgetRun : time → usageBudget → nat → time → usageBudget → Prop :=
  | run_refl t b : budgetRun t b 0 t b
  | run_step t b n t' b' t'' b'' :
      budgetRun t b n t' b' → t' <= t'' → budgetStep t'' b' b'' → budgetRun t b n t'' b''
  | run_adopt t b n t' b' t'' b'' :
      budgetRun t b n t' b' → t' <= t'' → adoptStep t'' b' b'' → budgetRun t b (S n) t'' b''.

Lemma budgetStep_OK now b b' :
  0 < now → budgetOK now b → budgetStep now b b' → budgetOK now b' ∧ sameConfig b b'.
Proof.
  intros Hn Hb []; eauto using reserve_OK, settleAt_OK, forfeit_OK, release_OK, reconcileBudget_OK.
Qed.

Lemma adoptStep_OK now b b' :
  budgetOK now b → adoptStep now b b' → budgetOK now b' ∧ sameConfig b b'.
Proof. intros Hb []. eauto using adopt_OK. Qed.

Lemma sameConfig_trans b1 b2 b3 : sameConfig b1 b2 → sameConfig b2 b3 → sameConfig b1 b3.
Proof. unfold sameConfig. intros (? & ? & ?) (? & ? & ?). split_and!; congruence. Qed.

Lemma budgetRun_OK t b n t' b' :
  budgetRun t b n t' b' → 0 < t → budgetOK t b → t <= t' ∧ budgetOK t' b' ∧ sameConfig b b'.
Proof.
  induction 1 as [|t b n t' b' t'' b'' _ IH Hle Hs|t b n t' b' t'' b'' _ IH Hle Hs];
    intros Ht Hb; [done | |]; destruct (IH Ht Hb) as (Ht' & Hb' & Hsc).
  - destruct (budgetStep_OK t'' b' b'') as [? ?]; [lia | by eapply budgetOK_later | done |].
    split_and!; [lia | done |]. by eapply sameConfig_trans.
  - destruct (adoptStep_OK t'' b' b'') as [? ?]; [by eapply budgetOK_later | done |].
    split_and!; [lia | done |]. by eapply sameConfig_trans.
Qed.

Lemma newUsageBudget_accepts lim win res name es now now' :
  0 < win → name ≠ "" → 0 < res <= lim →
  entriesOK (durationSeconds res) now es → (length es <= maxEntries)%nat →
  ∃ b, newUsageBudget ioOK lim win name res (ReadLedger (mkUsageLedger 1 es)) now' = inr b
       ∧ entries b = keep (inWindow (Add now' (- win))) (map (expire now') es).
Proof.
  intros Hw Hname Hres Hes Hlen. unfold newUsageBudget.
  destruct (_ || _) eqn:E.
  { exfalso. destruct (String.eqb_spec name ""); [done |]. breflect. lia. }
  simpl. set (b0 := mkUsageBudget _ _ _ _ _).
  rewrite (entriesOK_validate b0 now) by done.
  clear E. match goal with |- context [if ?c then _ else _] => destruct c end;
    eexists; (split; [reflexivity |]); reflexivity.
Qed.

(** * Charges *)

Lemma charged_app l1 l2 : charged (l1 ++ l2) = charged l1 + charged l2.
Proof. apply sumZ_app. Qed.

Lemma charged_cons e l : charged (e :: l) = ue_Seconds e + charged l.
Proof. done. Qed.



Lemma entriesOK_pos res now es e : entriesOK res now es → e ∈ es → 1 <= ue_Seconds e.
Proof. intros [HF _] He. rewrite Forall_forall in HF. by destruct (HF e He) as [_ _ _ [? _] _ _]. Qed.

Lemma charged_prune res now t b :
  entriesOK res now (entries b) → charged (entries (prune t b).2) <= charged (entries b).
Proof.
  intros Hes. simpl. unfold charged.
  etrans; [apply sumZ_keep_le |].
  - intros e (x & -> & Hx)%list_elem_of_fmap. rewrite expire_seconds.
    pose proof (entriesOK_pos _ _ _ _ Hes Hx). lia.
  - rewrite sumZ_map. apply sumZ_le. intros x _. rewrite expire_seconds. lia.
Qed.

Lemma charged_nonneg res now es : entriesOK res now es → 0 <= charged es.
Proof. intros [HF _]. by apply charged_bound in HF as [? _]. Qed.

(** What [commit] can do to the total: leave it, or install the new entries. *)
Lemma commit_charged io es b r b' c :
  commit io es b = (r, b') → charged (entries b) <= c → charged es <= c → charged (entries b') <= c.
Proof.
  intros (_ & _ & H1 & H2)%commit_cases Hb Hes.
  destruct r; [by rewrite H2 | by destruct (H1 eq_refl) as [-> _]].
Qed.

(** The admission test, on a ledger without overflow. *)
Lemma reserve_decision io l now m b r b' :
  budgetOK now b → (length (entries b) <= maxEntries)%nat →
  reserve io l now m b = (r, b') →
  let es := entries (prune now b).2 in
  let res := durationSeconds (reservation b) in
  let lim := durationSeconds (limit b) in
  let new := mkUsageEntry l now now res true false in
  (∃ err, rr_err r = Some err ∧ rr_allowed r = false ∧ entries b' = es)
  ∨ (rr_err r = None ∧ rr_allowed r = false ∧ entries b' = es ∧ file b' = file b
     ∧ (lim < charged es ∨ wrap64 (lim - charged es) < res))
  ∨ (rr_err r = None ∧ rr_allowed r = true ∧ entries b' = es ++ [new]
     ∧ charged es <= lim ∧ res <= wrap64 (lim - charged es)
     ∧ committed (file b') = Complete (mkUsageLedger 1 (entries b'))).
Proof.
  intros Hb Hlen. destruct (prune_budgetOK now now b Hb) as [Hp (Hl & Hw & Hr)].
  assert (Hused : usedSeconds (prune now b).2 = charged (entries (prune now b).2)).
  { destruct Hp as (_ & Hes & _). apply (usedSeconds_exact _ now); [done |].
    simpl. etrans; [apply length_keep |]. by rewrite List.length_map. }
  assert (Hf : file (prune now b).2 = file b) by done.
  unfold reserve. rewrite Hused, <- Hl, <- Hr, <- Hf. generalize (prune now b).2. clear.
  intros b. destruct (existsb _ _); [intros [= <- <-]; left; eauto |].
  destruct (negb _) eqn:Em; [intros [= <- <-]; left; eauto |].
  destruct (_ || _) eqn:E; [intros [= <- <-]; right; left; simpl; split_and!; auto; blia |].
  assert (durationSeconds m = durationSeconds (reservation b)) as -> by blia.
  destruct (commit _ _ b) as [[err|] b1] eqn:Ec; intros [= <- <-];
    apply commit_cases in Ec as (_ & _ & H1 & H2).
  - left. simpl. exists err. rewrite H2; done.
  - right. right. destruct (H1 eq_refl) as [-> ->]. simpl. split_and!; auto; blia.
Qed.

Lemma reserve_charged io l now m b r b' :
  budgetOK now b → (length (entries b) <= maxEntries)%nat →
  reserve io l now m b = (r, b') →
  charged (entries b') <= charged (entries b)
  ∨ rr_allowed r = true ∧ charged (entries b') <= durationSeconds (limit b).
Proof.
  intros Hb Hlen Hr. pose proof Hb as ([[_ Hlim] _] & Hes & _).
  pose proof (charged_prune _ _ now b Hes) as Hp.
  pose proof (prune_OK _ _ now b Hes) as Hpes. apply charged_nonneg in Hpes.
  destruct (reserve_decision _ _ _ _ _ _ _ Hb Hlen Hr)
    as [(err & _ & _ & ->)|[(_ & _ & -> & _)|(_ & Hal & -> & Hle & Hfit & _)]]; [by left..|].
  right. split; [done |]. rewrite wrap64_id in Hfit by (unfold in_int64, min_int64 in *; lia).
  rewrite charged_app, charged_cons. unfold charged at 2. simpl sumZ. simpl in *. lia.
Qed.

Lemma charged_update l1 e e' l2 d :
  ue_Seconds e' <= ue_Seconds e + d → charged (l1 ++ e' :: l2) <= charged (l1 ++ e :: l2) + d.
Proof. rewrite !charged_app, !charged_cons. lia. Qed.

(** Without adoptions, no operation raises the total above the limit. *)
Lemma budgetStep_charged now b b' :
  budgetOK now b → budgetStep now b b' →
  charged (entries b') <= Z.max (charged (entries b)) (durationSeconds (limit b)).
Proof.
  intros Hb Hs. pose proof Hb as (_ & Hes & _).
  destruct Hs as [io l m r b' _ Hlen H|io l st r b' H|io l r b' H|io l r b' H|io ls r b' H].
  - apply reserve_charged in H as [?|[_ ?]]; auto; lia.
  - unfold settleAt in H. destruct (indexFunc _ _) as [i|] eqn:Ei; [|injection H as <- <-; lia].
    apply indexFunc_lookup in Ei as (l1 & e & l2 & Hl & He & -> & _). rewrite He in H.
    eapply commit_charged in H; [exact H | lia |].
    assert (He' : entryOK (durationSeconds (reservation b)) now e).
    { destruct Hes as [HF _]. rewrite Forall_forall in HF. apply HF. rewrite Hl. set_solver. }
    etrans; [eapply (charged_prune _ now)|].
    + simpl. rewrite Hl, insert_middle. rewrite Hl in Hes.
      apply (entriesOK_update _ _ _ e); [done | by apply settleEntry_OK | done].
    + simpl. rewrite Hl, insert_middle.
      pose proof (charged_update l1 e (settleEntry st now e) l2 0). simpl in *. lia.
  - unfold forfeit in H. destruct (indexFunc _ _) as [i|] eqn:Ei; [|injection H as <- <-; lia].
    apply indexFunc_lookup in Ei as (l1 & e & l2 & Hl & He & -> & _). rewrite He in H.
    eapply commit_charged in H; [exact H | lia |]. rewrite Hl, insert_middle.
    pose proof (charged_update l1 e (forfeitEntry now e) l2 0). simpl in *. lia.
  - unfold release in H. destruct (indexFunc _ _) as [i|] eqn:Ei; [|injection H as <- <-; lia].
    apply indexFunc_lookup in Ei as (l1 & e & l2 & Hl & He & -> & _).
    eapply commit_charged in H; [exact H | lia |]. rewrite Hl in Hes |- *. rewrite delete_middle.
    rewrite !charged_app, !charged_cons. pose proof (entriesOK_pos _ _ _ e Hes ltac:(set_solver)). lia.
  - unfold reconcileBudget in H. set (b1 := set_entries _ _) in H.
    assert (Hes1 : entriesOK (durationSeconds (reservation b)) now (entries b1)).
    { apply entriesOK_map; auto using closeOrphan_OK.
      intros e. unfold closeOrphan. by destruct (orphaned ls e). }
    assert (Hc1 : charged (entries b1) <= charged (entries b)).
    { subst b1. simpl. unfold charged. rewrite sumZ_map. apply sumZ_le. intros e _.
      unfold closeOrphan. destruct (orphaned ls e); simpl; [destruct (ue_Confirmed e); lia | lia]. }
    pose proof (charged_prune _ _ now b1 Hes1) as Hc2.
    destruct (prune now b1) as [pruned b2]. cbn [snd] in Hc2.
    destruct (_ || _) in H; [|injection H as <- <-; lia].
    eapply commit_charged in H; [exact H | lia | lia].
Qed.

(** An adoption adds at most one reservation. *)
Lemma adoptStep_charged now b b' :
  budgetOK now b → adoptStep now b b' →
  charged (entries b') <= charged (entries b) + durationSeconds (reservation b).
Proof.
  intros Hb [io l st clock r b1 _ H]. pose proof Hb as ([_ Hc] & Hes & _). unfold adopt in H.
  destruct (String.eqb l ""); [injection H as <- <-; lia |].
  destruct (indexFunc _ _) as [i|] eqn:Ei.
  - apply indexFunc_lookup in Ei as (l1 & e & l2 & Hl & He & -> & _). rewrite He in H.
    destruct (_ && _); [injection H as <- <-; lia |].
    eapply commit_charged in H; [exact H | lia |]. rewrite Hl, insert_middle.
    pose proof (entriesOK_pos _ _ _ e Hes ltac:(rewrite Hl; set_solver)).
    apply charged_update. unfold adoptEntry. destruct (ue_Active e); simpl; lia.
  - apply persist_cases in H as (_ & -> & _). simpl. rewrite charged_app, charged_cons.
    unfold charged at 2. simpl. lia.
Qed.
