(* ===== verification/BudgetTheorems.v ===== *)
(** The properties of the usage budget, with a concrete ledger at which their
    hypotheses hold. *)

From S2P Require Import Prelude Float64 Provider UsageBudget BudgetFacts.

(** * A concrete ledger *)

(** A two-hour maximum lifetime, 10 000 minutes over 30 days. *)
Definition demoNow : time := UnixTime 1770000000.
Definition demoEntry : usageEntry :=
  mkUsageEntry "lease-a" (demoNow - Hour) (demoNow - Hour) 7200 true true.
Definition demoBudget : usageBudget :=
  mkUsageBudget (10000 * Minute) (30 * 24 * Hour) (2 * Hour) [demoEntry]
    (mkLedgerFile (Complete (mkUsageLedger 1 [demoEntry])) Absent).

Lemma demoEntry_OK : entryOK (durationSeconds (2 * Hour)) demoNow demoEntry.
Proof. constructor; vm_compute; intuition congruence. Qed.

Lemma demoBudget_OK : budgetOK demoNow demoBudget.
Proof.
  assert (Hes : entriesOK (durationSeconds (2 * Hour)) demoNow [demoEntry]).
  { split; [apply Forall_singleton, demoEntry_OK | apply NoDup_singleton]. }
  split_and!; [vm_compute; intuition congruence | exact Hes | exists [demoEntry]; auto].
Qed.

(** * Durability *)



(** * Spending *)



(** The decision on a fresh lease, with a ledger write that succeeds. *)
Lemma reserve_fresh l now b r b' :
  reserve ioOK l now (reservation b) b = (r, b') →
  budgetOK now b → (length (entries b) <= maxEntries)%nat →
  (∀ e, e ∈ entries b → ue_LeaseID e ≠ l) →
  let es := entries (prune now b).2 in
  let res := durationSeconds (reservation b) in
  (rr_allowed r = true ↔ charged es + res <= durationSeconds (limit b)) ∧
  rr_err r = None ∧
  (rr_allowed r = true →
     entries b' = es ++ [mkUsageEntry l now now res true false] ∧
     committed (file b') = Complete (mkUsageLedger 1 (entries b')) ∧
     charged (entries b') <= durationSeconds (limit b)) ∧
  (rr_allowed r = false → entries b' = es ∧ file b' = file b).
Proof.
  intros Hr Hb Hlen Hfresh. cbv zeta. pose proof Hb as ([[_ Hlim] Hres] & Hes & _).
  pose proof (prune_OK _ _ now b Hes) as Hp. apply charged_nonneg in Hp.
  assert (Herr : rr_err r = None).
  { unfold reserve in Hr. rewrite (proj2 (existsb_false _ _)) in Hr.
    - rewrite Z.eqb_refl in Hr. simpl negb in Hr. cbv iota in Hr.
      destruct (_ || _) in Hr; [by injection Hr as <- <- |]. by injection Hr as <- <-.
    - intros e He%elem_of_keep. destruct He as [(x & -> & Hx)%list_elem_of_fmap _].
      rewrite expire_lease. apply String.eqb_neq. by apply Hfresh. }
  destruct (reserve_decision _ _ _ _ _ _ _ Hb Hlen Hr)
    as [(err & He & _)|[(_ & Hal & Hes' & Hf & Hno)|(_ & Hal & Hes' & Hle & Hfit & Hc)]];
    [congruence | |]; rewrite Hal.
  - split_and!; auto; try done. split; [done |]. intros Hle.
    rewrite wrap64_id in Hno by (unfold in_int64, min_int64; lia). lia.
  - rewrite wrap64_id in Hfit by (unfold in_int64, min_int64 in *; lia).
    split_and!; auto; try done; [split; [lia | done] |]. intros _. split_and!; auto.
    rewrite Hes', charged_app, charged_cons. unfold charged at 2. cbn [ue_Seconds sumZ]. lia.
Qed.

(** A reservation is admitted exactly when the charges still in the window
    leave room for one full maximum lifetime; it is then recorded both in memory
    and on disk before the launch, and the total stays within the budget.  A
    refusal changes nothing but the pruning. *)
Theorem reserve_admits_iff l now b r b' :
  reserve ioOK l now (reservation b) b = (r, b') →
  budgetOK now b → (length (entries b) <= maxEntries)%nat →
  (∀ e, e ∈ entries b → ue_LeaseID e ≠ l) →
  let es := entries (prune now b).2 in
  let res := durationSeconds (reservation b) in
  (rr_allowed r = true ↔ charged es + res <= durationSeconds (limit b)) ∧
  rr_err r = None ∧
  (rr_allowed r = true →
     entries b' = es ++ [mkUsageEntry l now now res true false] ∧
     committed (file b') = Complete (mkUsageLedger 1 (entries b')) ∧
     charged (entries b') <= durationSeconds (limit b)) ∧
  (rr_allowed r = false → entries b' = es ∧ file b' = file b).
Proof. apply reserve_fresh. Qed.

Lemma reserve_admits_iff_witness :
  let '(r, b') := reserve ioOK "lease-b" demoNow (2 * Hour) demoBudget in
  rr_allowed r = true ∧ charged (entries b') <= 600000.
Proof.
  destruct (reserve ioOK "lease-b" demoNow (2 * Hour) demoBudget) as [r b'] eqn:E.
  destruct (reserve_admits_iff "lease-b" demoNow demoBudget r b' E demoBudget_OK)
    as (Hiff & _ & Hyes & _).
  - unfold maxEntries. simpl. lia.
  - intros e ->%list_elem_of_singleton. done.
  - assert (Ha : rr_allowed r = true) by (apply Hiff; vm_compute; congruence).
    split; [exact Ha | apply (Hyes Ha)].
Defined.

(** * Pruning *)

Lemma expire_expire t now e : t <= now → expire now (expire t e) = expire now e.
Proof.
  intros Hle. unfold expire at 2. destruct (expired t e) eqn:E; [|done].
  assert (Hn : expired now e = true) by (unfold expired in *; breflect; destruct E; split; [done | lia]).
  unfold expire. rewrite Hn. unfold expired. by simpl.
Qed.

Lemma prune_prune t now b : t <= now → entries (prune now (prune t b).2).2 = entries (prune now b).2.
Proof.
  intros Hle. simpl. induction (entries b) as [|e es IH]; [done |]. simpl.
  destruct (inWindow (Add t (- window b)) (expire t e)) eqn:Ek; simpl;
    [rewrite expire_expire by done; by rewrite IH |].
  rewrite IH. rewrite <- (expire_expire t now e Hle).
  assert (expire now (expire t e) = expire t e) as ->.
  { unfold expire at 1. unfold inWindow in Ek. unfold expired.
    destruct (ue_Active (expire t e)); [done |]. by simpl. }
  destruct (inWindow (Add now _) (expire t e)) eqn:Ek'; [|done].
  unfold inWindow, Add in *. destruct (ue_Active (expire t e)); simpl in *; [done | blia].
Qed.

(** Pruning is invisible to admission.  Pruning the ledger at any earlier
    time changes neither the decision, nor the next release time, nor the ledger
    a later reservation leaves, so how often the ledger was pruned (by status
    reports, settlements or restarts) never matters. *)
Theorem reserve_after_prune io l t now m b :
  t <= now → reserve io l now m (prune t b).2 = reserve io l now m b.
Proof.
  intros Hle. unfold reserve.
  assert ((prune now (prune t b).2).2 = (prune now b).2) as ->; [|done].
  pose proof (prune_prune t now b Hle) as H.
  unfold prune, set_entries in *. cbn [fst snd entries limit window reservation file] in *.
  by rewrite H.
Qed.

(** * Settlement *)

Lemma commit_ioOK es b :
  commit ioOK es b =
  (None, set_file (set_entries b es) (mkLedgerFile (Complete (mkUsageLedger 1 es)) Absent)).
Proof. reflexivity. Qed.

(** A ledger holds at most one entry of a lease, so its active one is found. *)
Lemma active_index l es l1 l2 e :
  NoDup (map ue_LeaseID es) → es = l1 ++ e :: l2 → isActiveLease l e = true →
  indexFunc (isActiveLease l) es = Some (length l1).
Proof.
  intros Hnd -> He. unfold isActiveLease in He. apply andb_true_iff in He as [Hl Ha].
  apply String.eqb_eq in Hl. rewrite map_app in Hnd. cbn [map] in Hnd.
  assert (Hl1 : ∀ x, x ∈ l1 → isActiveLease l x = false).
  { intros x Hx. unfold isActiveLease. destruct (String.eqb_spec (ue_LeaseID x) l) as [Ex|]; [|done].
    apply NoDup_app in Hnd as (_ & Hdisj & _). exfalso. apply (Hdisj (ue_LeaseID x)).
    - apply list_elem_of_fmap. eauto.
    - rewrite Ex, <- Hl. left. }
  clear Hnd. induction l1 as [|x l1 IH]; simpl.
  - unfold isActiveLease. by rewrite Hl, String.eqb_refl, Ha.
  - rewrite (Hl1 x) by left. rewrite IH; [done |]. intros y Hy. apply Hl1. by right.
Qed.

(** A charge recorded now is not pruned now. *)
Lemma charge_survives_prune now b e :
  0 < window b → e ∈ entries b → ue_Active e = false → ue_ChargedAt e = now →
  e ∈ entries (prune now b).2.
Proof.
  intros Hw Hin Ha Hc. unfold prune. cbn [entries set_entries snd]. apply elem_of_keep. split.
  - apply list_elem_of_fmap. exists e. split; [|done]. unfold expire, expired. by rewrite Ha.
  - unfold inWindow, Add. rewrite Ha, Hc. simpl. destruct (Before now (now + - window b)) eqn:E; [blia | done].
Qed.

(** Settling an active lease charges the worker's actual lifetime, rounded
    up to whole seconds, at least one and never more than the reservation, and
    the charge starts its window at the settlement.  The result is on disk
    before the call returns. *)
Theorem settle_charges_lifetime l stopped now b l1 e l2 :
  budgetOK now b → entries b = l1 ++ e :: l2 → isActiveLease l e = true →
  ue_StartedAt e <= stopped <= now → stopped - ue_StartedAt e < 2 ^ 24 * Second →
  let '(r, b') := settleAt ioOK l stopped now b in
  let lifetime := stopped - ue_StartedAt e in
  r = None
  ∧ (∃ e', e' ∈ entries b' ∧ ue_LeaseID e' = l ∧ ue_Active e' = false ∧ ue_ChargedAt e' = now
           ∧ ue_Seconds e' = Z.min (ue_Seconds e) (Z.max 1 (- ((- lifetime) / Second))))
  ∧ committed (file b') = Complete (mkUsageLedger 1 (entries b')).
Proof.
  intros ([[Hw _] _] & [HF Hnd] & _) Hes Hact Hst Hlife. unfold settleAt.
  rewrite (active_index l (entries b) l1 l2 e Hnd Hes Hact).
  assert (Hlk : entries b !! length l1 = Some e) by (rewrite Hes; by apply list_lookup_middle).
  rewrite Hlk, commit_ioOK. split_and!; [done | | done].
  assert (He : 0 < ue_StartedAt e).
  { rewrite Hes, Forall_app, Forall_cons in HF. destruct HF as (_ & He & _). by apply (eok_started _ _ _ He). }
  exists (settleEntry stopped now e). split_and!.
  - apply (charge_survives_prune now (set_entries b (<[length l1 := settleEntry stopped now e]> (entries b))));
      [done | | done | done]. cbn [entries set_entries].
    eapply list_elem_of_lookup_2, list_lookup_insert_eq, lookup_lt_Some, Hlk.
  - unfold isActiveLease in Hact. apply andb_true_iff in Hact as [Hl _]. by apply String.eqb_eq in Hl.
  - done.
  - done.
  - cbn [settleEntry ue_Seconds].
    assert (IsZero stopped || Before stopped (ue_StartedAt e) || After stopped now = false) as ->.
    { unfold IsZero, Before, After. rewrite !orb_false_iff, !Z.ltb_ge, Z.eqb_neq. lia. }
    unfold durationSeconds. rewrite Sub_exact by (unfold in_int64, min_int64, max_int64, Second in *; lia).
    rewrite Seconds_ceil by lia. done.
Qed.

Lemma settle_charges_lifetime_witness :
  let '(r, b') := settleAt ioOK "lease-a" (demoNow - 30 * Minute) demoNow demoBudget in
  r = None ∧ ∃ e', e' ∈ entries b' ∧ ue_Seconds e' = 1800.
Proof.
  pose proof (settle_charges_lifetime "lease-a" (demoNow - 30 * Minute) demoNow demoBudget [] demoEntry []
    demoBudget_OK eq_refl eq_refl) as H.
  destruct (settleAt ioOK "lease-a" (demoNow - 30 * Minute) demoNow demoBudget) as [r b'].
  destruct H as (Hr & (e' & Hin & _ & _ & _ & Hs) & _); [vm_compute; intuition congruence | vm_compute; done |].
  split; [exact Hr |]. exists e'. split; [exact Hin |]. rewrite Hs. vm_compute. reflexivity.
Defined.

(** * Published status *)

(** The charges of a ledger split into finished and active ones. *)
Lemma charged_split es :
  charged es = charged (keep (λ e, negb (ue_Active e)) es) + charged (keep ue_Active es).
Proof.
  unfold charged. induction es as [|e es IH]; simpl; [done |]. destruct (ue_Active e); simpl; lia.
Qed.

(** The charges the status counts at [now]. *)
Definition counted (now : time) (b : usageBudget) : list usageEntry :=
  keep (inWindow (Add now (- window b))) (entries b).

(** Pruning also drops reservations that ended before the window. *)
Lemma charged_prune_counted now b :
  entriesOK (durationSeconds (reservation b)) now (entries b) →
  charged (entries (prune now b).2) <= charged (counted now b).
Proof.
  unfold counted. simpl. generalize (Add now (- window b)). intros cutoff [HF _]. unfold charged.
  induction HF as [|e es He _ IH]; simpl; [lia |].
  pose proof (eok_seconds _ _ _ He). pose proof (expire_seconds now e).
  destruct (inWindow cutoff (expire now e)) eqn:E1, (inWindow cutoff e) eqn:E2; simpl; try lia.
  exfalso. unfold expire in E1. destruct (expired now e) eqn:E; [|congruence].
  unfold expired, inWindow in *. by destruct (ue_Active e).
Qed.

Lemma snapshot_values now b :
  budgetOK now b → (length (entries b) <= maxEntries)%nat →
  UsedSeconds (snapshot now b) = charged (keep (λ e, negb (ue_Active e)) (counted now b)) ∧
  ReservedSeconds (snapshot now b) = charged (keep ue_Active (counted now b)) ∧
  RemainingSeconds (snapshot now b)
    = Z.max 0 (durationSeconds (limit b) - charged (counted now b)).
Proof.
  intros Hb Hlen. pose proof Hb as ([[Hw Hlim] Hres] & Hes & _).
  assert (Hcnt : entriesOK (durationSeconds (reservation b)) now (counted now b))
    by (by apply entriesOK_keep).
  assert (Hlen' : (length (counted now b) <= maxEntries)%nat)
    by (etrans; [apply length_keep | done]).
  assert (Hsub : ∀ p, fold_left (λ t e, wrap64 (t + ue_Seconds e)) (keep p (counted now b)) 0
                      = charged (keep p (counted now b))).
  { intros p. destruct (entriesOK_keep _ _ p _ Hcnt) as [HF _]. eapply sum_charged; [exact HF |].
    etrans; [apply length_keep | done]. }
  destruct Hcnt as [HF _]. apply charged_bound in HF.
  unfold snapshot. fold (counted now b). rewrite !Hsub.
  cbn [RemainingSeconds UsedSeconds ReservedSeconds]. split_and!; auto.
  pose proof (charged_split (counted now b)) as Hsplit.
  rewrite wrap64_id; [lia |]. unfold maxEntries in Hlen'. unfold in_int64, min_int64, max_int64 in *. lia.
Qed.

(** The published status never promises what admission would refuse: when
    it reports no refusal, a reservation for a fresh lease is admitted, and the
    remaining seconds it shows are the budget less every charge it counts. *)
Theorem snapshot_sound now l b :
  budgetOK now b → (length (entries b) <= maxEntries)%nat →
  (∀ e, e ∈ entries b → ue_LeaseID e ≠ l) →
  let s := snapshot now b in
  RemainingSeconds s = Z.max 0 (LimitSeconds s - UsedSeconds s - ReservedSeconds s) ∧
  (RefusalReason s = "" → rr_allowed (reserve ioOK l now (reservation b) b).1 = true).
Proof.
  intros Hb Hlen Hfresh. cbv zeta.
  destruct (snapshot_values now b Hb Hlen) as (Hu & Hr & Hrem). split.
  - rewrite Hu, Hr, Hrem. rewrite (charged_split (counted now b)). simpl. lia.
  - intros Hok. destruct (reserve_fresh l now b _ _ (surjective_pairing _) Hb Hlen Hfresh) as [Hiff _].
    apply Hiff. pose proof Hb as (_ & Hes & _). pose proof (charged_prune_counted now b Hes).
    assert (E : (RemainingSeconds (snapshot now b) <? durationSeconds (reservation b)) = false).
    { destruct (_ <? _) eqn:E; [|done]. exfalso. unfold snapshot in Hok, E.
      cbn [RefusalReason RemainingSeconds] in Hok, E. rewrite E in Hok. done. }
    rewrite Hrem in E. destruct Hb as ([_ ?] & _). blia.
Qed.

Lemma snapshot_sound_witness :
  RefusalReason (snapshot demoNow demoBudget) = "" ∧
  rr_allowed (reserve ioOK "lease-b" demoNow (2 * Hour) demoBudget).1 = true.
Proof.
  assert (Hno : RefusalReason (snapshot demoNow demoBudget) = "") by (vm_compute; reflexivity).
  split; [exact Hno |]. refine (proj2 (snapshot_sound demoNow "lease-b" demoBudget demoBudget_OK _ _) Hno).
  - unfold maxEntries. simpl. lia.
  - intros e ->%list_elem_of_singleton. done.
Defined.

(** * Restarts that refuse the ledger *)

(** A settlement whose clock reads earlier than the entry's start time (a
    clock stepped back, or a worker created "in the future" by a provider clock
    running ahead) writes a ledger that the next start rejects: the charge
    precedes the start. *)
Theorem settle_before_start_rejected l stopped now b e :
  entries b = [e] → isActiveLease l e = true → validate b = None →
  0 < window b → 0 < now < ue_StartedAt e →
  let b' := (settleAt ioOK l stopped now b).2 in
  committed (file b') = Complete (mkUsageLedger 1 (entries b')) ∧
  validate b' = Some (ErrorString "invalid runner usage budget entry: charge precedes start").
Proof.
  intros Hes Hact Hval Hw Hnow. unfold settleAt.
  rewrite Hes, (active_index l [e] [] [] e) by (done || apply NoDup_singleton).
  change ([e] !! length []) with (Some e). cbn iota beta. rewrite commit_ioOK. cbn [snd].
  split; [done |]. set (e' := settleEntry stopped now e).
  assert (Hkeep : keep (inWindow (Add now (- window b))) [expire now e'] = [e']).
  { unfold expire, expired. subst e'. simpl. unfold inWindow, Add. simpl.
    destruct (Before now (now + - window b)) eqn:E; [blia | done]. }
  unfold prune. cbn [entries set_entries set_file map snd window insert list_insert length].
  rewrite Hkeep. apply validate_None in Hval as (HF & _ & _). rewrite Hes, Forall_singleton in HF.
  unfold validEntry in HF. unfold validate, validateFrom. cbn [entries set_file set_entries reservation].
  change (ue_LeaseID e') with (ue_LeaseID e). change (ue_StartedAt e') with (ue_StartedAt e).
  change (ue_ChargedAt e') with now. change (ue_Active e') with false.
  assert (Hsec : 1 <= ue_Seconds e' <= durationSeconds longestReservation)
    by (subst e'; simpl; breflect; lia).
  destruct (String.eqb (ue_LeaseID e) ""); [done |].
  rewrite bool_decide_eq_false_2 by set_solver.
  repeat match goal with |- context [if ?c then _ else _] => destruct c eqn:? end; try done; blia.
Qed.

(** A ledger whose only worker was created five seconds ahead of the clock. *)
Definition skewedEntry : usageEntry :=
  mkUsageEntry "lease-a" (demoNow + 5 * Second) (demoNow + 5 * Second) 7200 true true.
Definition skewedBudget : usageBudget := set_entries demoBudget [skewedEntry].

Lemma settle_before_start_rejected_witness :
  validate skewedBudget = None ∧
  validate (settleAt ioOK "lease-a" zeroTime demoNow skewedBudget).2 ≠ None.
Proof.
  assert (Hv : validate skewedBudget = None) by (vm_compute; reflexivity).
  split; [exact Hv |].
  destruct (settle_before_start_rejected "lease-a" zeroTime demoNow skewedBudget skewedEntry
    eq_refl eq_refl Hv) as [_ ->]; [vm_compute; done | vm_compute; split; congruence | done].
Defined.

(** Raising the maximum lifetime while a worker launched under the shorter
    one still holds its reservation makes the next start refuse the ledger,
    although nothing is corrupt. *)
Theorem raised_lifetime_rejected io lim win name res es now e :
  0 < win → 0 < res <= lim → name ≠ "" → e ∈ es → ue_Active e = true →
  ue_Seconds e < durationSeconds res →
  ∃ err, newUsageBudget io lim win name res (ReadLedger (mkUsageLedger 1 es)) now = inl err.
Proof.
  intros Hw Hres Hname He Ha Hs. unfold newUsageBudget. destruct (_ || _) eqn:E; [eauto |].
  simpl. set (b := mkUsageBudget _ _ _ _ _).
  destruct (validate b) as [err|] eqn:Ev; [eauto |].
  apply validate_None in Ev as (HF & _ & _). rewrite Forall_forall in HF. specialize (HF e He).
  exfalso. unfold validEntry in HF. rewrite Ha in HF. subst b. simpl in HF. breflect.
  destruct_and!. lia.
Qed.

Lemma raised_lifetime_rejected_witness :
  validate demoBudget = None ∧
  ∃ err, newUsageBudget ioOK (10000 * Minute) (30 * 24 * Hour) "/data/budget.json" (3 * Hour)
           (ReadLedger (mkUsageLedger 1 (entries demoBudget))) demoNow = inl err.
Proof.
  split; [vm_compute; reflexivity |].
  apply (raised_lifetime_rejected _ _ _ _ _ _ _ demoEntry);
    [vm_compute; done | vm_compute; split; congruence | done | apply list_elem_of_singleton; done
    | reflexivity | vm_compute; reflexivity].
Defined.

(** * Initialization *)

(** [budget init] followed by a start gives an empty, usable ledger, and
    [budget init] never changes an existing ledger, whatever system call
    fails. *)
Theorem initialize_then_start name lim win res now :
  0 < win → 0 < res <= lim → name ≠ "" →
  (∃ f b, InitializeUsageBudget ioOK name (mkLedgerFile Absent Absent) = (None, f) ∧
     committed f = Complete (mkUsageLedger 1 []) ∧
     newUsageBudget ioOK lim win name res (ReadLedger (mkUsageLedger 1 [])) now = inr b ∧
     entries b = []) ∧
  (∀ io f l, committed f = Complete l → committed (InitializeUsageBudget io name f).2 = Complete l).
Proof.
  intros Hw Hres Hname. split.
  - unfold InitializeUsageBudget. destruct (String.eqb_spec name ""); [done |]. simpl.
    destruct (newUsageBudget_accepts lim win res name [] now now) as (b & Hb & He); auto;
      [split; constructor | simpl; lia |].
    do 2 eexists. split_and!; [reflexivity | reflexivity | exact Hb | exact He].
  - intros io f l Hf. unfold InitializeUsageBudget. rewrite Hf. by case_bool.
Qed.
