(* ===== verification/Retry.v ===== *)
(** Retries, backoff, pacing and error classification shared by the compute
    adapters (src/provider/retry/retry.go). *)

From S2P Require Import Prelude Float64 Program Provider.

(** * Policy *)

Definition DefaultAttempts : Z := 5.
Definition DefaultInitialBackoff : duration := 500 * Millisecond.
Definition DefaultMaxBackoff : duration := 8 * Second.
Definition DefaultRate : f64 := f64_of_int 5.
Definition DefaultBurst : Z := 10.

Record Policy := mkPolicy {
  Attempts : Z; InitialBackoff : duration; MaxBackoff : duration; Rate : f64; Burst : Z
}.

Definition withDefaults (p : Policy) : Policy :=
  let initial := if InitialBackoff p <=? 0 then DefaultInitialBackoff else InitialBackoff p in
  mkPolicy (if Attempts p <? 1 then DefaultAttempts else Attempts p) initial
    (if MaxBackoff p <? initial then Z.max DefaultMaxBackoff initial else MaxBackoff p)
    (if mantissa (Rate p) <? 0 then mkF64 0 0 else Rate p)
    (if Burst p <? 1 then DefaultBurst else Burst p).

(** * Backoff *)

(** The loop of [Backoff], from the [i]-th turn on; [turns] bounds them. *)
Fixpoint doubled (turns : nat) (max_ delay : duration) : duration :=
  match turns with
  | O => delay
  | S turns => if delay <? max_ then doubled turns max_ (wrap64 (delay * 2)) else delay
  end.

(** The delay before jitter after failed attempt [attempt], from 1. *)
Definition nominal (p : Policy) (attempt : Z) : duration :=
  Z.min (doubled (Z.to_nat (attempt - 1)) (MaxBackoff p) (InitialBackoff p)) (MaxBackoff p).

(** [0.75 + random()*0.5] *)
Definition jitter (random : f64) : f64 := f64_add (mkF64 3 (-2)) (f64_mul random (mkF64 1 (-1))).

(** [Backoff]; [random] is the number drawn. *)
Definition Backoff (p : Policy) (random : f64) (attempt : Z) : duration :=
  f64_trunc (f64_mul (f64_of_int (nominal p attempt)) (jitter random)).

(** [rand.Float64]: a multiple of [2^-53] below one. *)
Definition Float64 (k : Z) : f64 := mkF64 k (-53).

(** * Retrying *)

Section do.
Context {Σ A : Type}.
(** The limiter, the operation, the clock's sleep and the random source of a
    [Retryer].  The operation is a closure: beside its error it gives the value of
    the variable it assigns, which the caller reads after [Do]. *)
Context (wait : prog Σ (option error)) (operation : prog Σ (A * option error))
        (sleep : duration → prog Σ (option error)) (random : prog Σ f64).

(** The loop of [Do] from attempt [attempt] on; [fuel] attempts are left. *)
Fixpoint doFrom (fuel : nat) (p : Policy) (attempt : Z) (last : A * option error)
    : prog Σ (A * option error) :=
  match fuel with
  | O => mret last
  | S fuel =>
    on_err wait (λ err, mret (last.1, Some err))
      (last ← operation;
       match last.2 with
       | None => mret last
       | Some err =>
         if negb (IsTransient err) then mret last
         else if attempt =? Attempts p then mret last
         else
           x ← random;
           on_err (sleep (Backoff p x attempt)) (λ e, mret (last.1, errors_Join [Some err; Some e]))
             (doFrom fuel p (attempt + 1) last)
       end)
  end.

(** [initial]: what the variable holds before. *)
Definition Do (p : Policy) (initial : A) : prog Σ (A * option error) :=
  doFrom (Z.to_nat (Attempts p)) p 1 (initial, None).
End do.

(** * Pacing *)

Record Limiter := mkLimiter { lm_rate : f64; lm_burst : f64; lm_tokens : f64; lm_last : time }.

Definition NewLimiter (rate : f64) (burst : Z) : Limiter :=
  let burst := f64_of_int (if burst <? 1 then 1 else burst) in
  mkLimiter rate burst burst zeroTime.

(** The critical section of [Limiter.Wait] at the instant [now]: [None] admits
    the caller at once, [Some d] lets it sleep [d] first. *)
Definition LimiterWait (now : time) (l : Limiter) : option duration * Limiter :=
  if mantissa (lm_rate l) <=? 0 then (None, l)
  else
    let tokens :=
      if negb (IsZero (lm_last l)) then
        f64_min (lm_burst l)
          (f64_add (lm_tokens l) (f64_mul (Seconds_f64 (Sub now (lm_last l))) (lm_rate l)))
      else lm_tokens l in
    if f64_le (f64_of_int 1) tokens then
      (None, mkLimiter (lm_rate l) (lm_burst l) (f64_sub tokens (f64_of_int 1)) now)
    else
      (Some (f64_trunc (f64_mul (f64_div (f64_sub (f64_of_int 1) tokens) (lm_rate l)) (f64_of_int Second))),
       mkLimiter (lm_rate l) (lm_burst l) (mkF64 0 0) now).

(** * Classification *)

Definition Transient (err : option error) : option error :=
  match err with
  | None => None
  | Some e => if IsTransient e then Some e else Some (TransientError e)
  end.

Definition RetryableStatus (status : Z) : bool :=
  existsb (Z.eqb status) [429; 500; 502; 503; 504].

Definition as_url (e : error) : option error := match e with UrlError inner => Some inner | _ => None end.

(** An error with the methods of [net.Error]. *)
Definition as_net (e : error) : option () :=
  match e with
  | NetError _ | UrlError _ | Sentinel DeadlineExceeded | Sentinel ECONNRESET | Sentinel ECONNREFUSED => Some ()
  | _ => None
  end.

Definition ClassifyRequestError (err : option error) : option error :=
  match err with
  | None => None
  | Some e =>
    if errors_is Canceled e || errors_is DeadlineExceeded e then Some e
    else
    match errors_as as_url e with
    | Some inner => if errors_is Canceled inner then Some e else Transient (Some e)
    | None =>
      if bool_decide (is_Some (errors_as as_net e)) || errors_is EOF e || errors_is ErrUnexpectedEOF e
         || errors_is ECONNRESET e || errors_is ECONNREFUSED e
      then Transient (Some e) else Some e
    end
  end.

Definition ClassifyStatus (providerName : string) (status : Z) (message : string) : option error :=
  let err := Some (StatusError providerName status message) in
  if RetryableStatus status then Transient err else err.

(** * Facts *)

Lemma withDefaults_sane p :
  let q := withDefaults p in
  1 <= Attempts q ∧ 0 < InitialBackoff q <= MaxBackoff q ∧ 1 <= Burst q ∧ 0 <= mantissa (Rate q).
Proof.
  cbn. unfold DefaultAttempts, DefaultInitialBackoff, DefaultMaxBackoff, DefaultBurst, Millisecond, Second.
  repeat match goal with |- context [?a <? ?b] => destruct (Z.ltb_spec a b) end;
  repeat match goal with |- context [?a <=? ?b] => destruct (Z.leb_spec a b) end; simpl; lia.
Qed.

(** ** Backoff *)

Lemma doubled_spec turns max_ delay :
  0 < delay → 0 <= max_ < 2 ^ 61 → delay <= max_ →
  Z.min (doubled turns max_ delay) max_ = Z.min (delay * 2 ^ Z.of_nat turns) max_.
Proof.
  revert delay. induction turns as [|turns IH]; intros delay Hd Hm Hle; cbn [doubled].
  { by rewrite Z.mul_1_r. }
  rewrite Nat2Z.inj_succ, Z.pow_succ_r by lia.
  assert (0 < 2 ^ Z.of_nat turns) by (apply Z.pow_pos_nonneg; lia).
  destruct (Z.ltb_spec delay max_) as [Hlt|Hge].
  - rewrite wrap64_id by (unfold in_int64, min_int64, max_int64; lia).
    destruct (Z.le_gt_cases (delay * 2) max_) as [H2|H2].
    + rewrite IH by lia. f_equal. ring.
    + assert (Hdone : doubled turns max_ (delay * 2) = delay * 2).
      { destruct turns; cbn [doubled]; [done |]. by destruct (Z.ltb_spec (delay * 2) max_); [lia |]. }
      rewrite Hdone. rewrite !Z.min_r by nia. done.
  - rewrite !Z.min_r by nia. done.
Qed.

Lemma jitter_bounds k :
  0 <= k < 2 ^ 53 →
  ∃ L m, 2 <= L ∧ jitter (Float64 k) = mkF64 m (- L) ∧ 3 * 2 ^ (L - 2) <= m <= 5 * 2 ^ (L - 2).
Proof.
  intros Hk. unfold jitter, Float64. destruct (decide (k = 0)) as [->|Hk0].
  { exists 53, 6755399441055744. split_and!; [lia | reflexivity | simpl; lia | simpl; lia]. }
  unfold f64_mul, of_dyadic at 1. cbn [mantissa exponent]. rewrite Z.mul_1_r.
  destruct (Z.leb_spec 0 (-53 + -1)); [lia |]. replace (- (-53 + -1)) with 54 by lia.
  destruct (of_ratio_dyadic k 54 ltac:(lia) ltac:(lia)) as (L & HL & ->).
  unfold f64_add, of_dyadic. cbn [mantissa exponent].
  rewrite Z.min_r by lia. rewrite Z.sub_diag, Z.pow_0_r, Z.mul_1_r.
  destruct (Z.leb_spec 0 (- L)); [lia |]. rewrite Z.opp_involutive.
  replace (-2 - - L) with (L - 2) by lia.
  assert (Hc : 0 < 2 ^ (L - 54)) by (apply Z.pow_pos_nonneg; lia).
  assert (H2 : 2 ^ (L - 2) = 2 ^ 52 * 2 ^ (L - 54)) by (rewrite <- Z.pow_add_r by lia; f_equal; lia).
  assert (HL2 : 2 ^ L = 2 ^ 54 * 2 ^ (L - 54)) by (rewrite <- Z.pow_add_r by lia; f_equal; lia).
  rewrite H2, HL2. set (c := 2 ^ (L - 54)) in *. assert (Hkc : 0 < k * c < 2 ^ 53 * c) by nia.
  destruct (of_ratio_bounds (3 * (2 ^ 52 * c) + k * c) (2 ^ 54 * c) 1 2 3 5) as (L' & m & HL' & HE & Hm);
    [lia | lia | lia | lia | lia | lia | lia |].
  exists L', m. split_and!; [lia | done | lia | lia].
Qed.

Lemma Backoff_bounds p k attempt :
  0 <= k < 2 ^ 53 → 0 < nominal p attempt < 2 ^ 49 →
  3 * nominal p attempt / 4 <= Backoff p (Float64 k) attempt <= 5 * nominal p attempt / 4.
Proof.
  intros Hk Hd. unfold Backoff. set (d := nominal p attempt) in *.
  destruct (jitter_bounds k Hk) as (L & m & HL & -> & Hm).
  destruct (f64_of_int_small d ltac:(lia)) as (F & HF & ->).
  unfold f64_mul, of_dyadic. cbn [mantissa exponent].
  destruct (Z.leb_spec 0 (- F + - L)); [lia |]. replace (- (- F + - L)) with (F + L) by lia.
  assert (HF2 : 0 < 2 ^ F) by (apply Z.pow_pos_nonneg; lia).
  assert (Hc : 0 < 2 ^ (L - 2)) by (apply Z.pow_pos_nonneg; lia).
  assert (HLc : 2 ^ (F + L) = 2 ^ F * (4 * 2 ^ (L - 2))).
  { rewrite Z.pow_add_r by lia. f_equal. change 4 with (2 ^ 2). rewrite <- Z.pow_add_r by lia. f_equal. lia. }
  rewrite HLc. set (c := 2 ^ (L - 2)) in *. set (f := 2 ^ F) in *.
  assert (Hlo : 3 * d * (f * c) <= d * f * m) by nia.
  assert (Hhi : d * f * m <= 5 * d * (f * c)) by nia.
  assert (Hfc : 0 < f * c) by nia.
  destruct (of_ratio_bounds (d * f * m) (f * (4 * c)) 50 2 (3 * d) (5 * d)) as (L' & m' & HL' & -> & Hm').
  1: nia. 1: nia. 1: lia. 1: lia. 1: lia. 1: nia. 1: nia.
  assert (Hc' : 0 < 2 ^ (L' - 2)) by (apply Z.pow_pos_nonneg; lia).
  assert (HL4 : 2 ^ L' = 4 * 2 ^ (L' - 2)).
  { change 4 with (2 ^ 2). rewrite <- Z.pow_add_r by lia. f_equal. lia. }
  apply f64_trunc_between; [lia | apply Z.div_pos; lia |]. rewrite HL4.
  pose proof (Z.div_mod (3 * d) 4 ltac:(lia)). pose proof (Z.mod_pos_bound (3 * d) 4 ltac:(lia)).
  pose proof (Z.div_mod (5 * d) 4 ltac:(lia)). pose proof (Z.mod_pos_bound (5 * d) 4 ltac:(lia)).
  nia.
Qed.

(** The delay before a retry doubles from the initial backoff with every
    failed attempt up to the maximum, and the jitter keeps it between 75% and
    125% of that, down to the nanosecond, whatever number is drawn. *)
Theorem backoff_bounded p k attempt :
  1 <= attempt → 0 < InitialBackoff p <= MaxBackoff p → MaxBackoff p < 2 ^ 49 → 0 <= k < 2 ^ 53 →
  nominal p attempt = Z.min (InitialBackoff p * 2 ^ (attempt - 1)) (MaxBackoff p)
  ∧ 3 * nominal p attempt / 4 <= Backoff p (Float64 k) attempt <= 5 * nominal p attempt / 4.
Proof.
  intros Ha Hi Hm Hk.
  assert (Hn : nominal p attempt = Z.min (InitialBackoff p * 2 ^ (attempt - 1)) (MaxBackoff p)).
  { unfold nominal. rewrite doubled_spec by lia. by rewrite Z2Nat.id by lia. }
  split; [done |]. apply Backoff_bounds; [done |]. rewrite Hn.
  assert (0 < 2 ^ (attempt - 1)) by (apply Z.pow_pos_nonneg; lia). nia.
Qed.

Lemma backoff_bounded_witness :
  let p := withDefaults (mkPolicy 0 0 0 DefaultRate 0) in
  nominal p 4 = Z.min (InitialBackoff p * 2 ^ (4 - 1)) (MaxBackoff p)
  ∧ 3 * nominal p 4 / 4 <= Backoff p (Float64 (2 ^ 52)) 4 <= 5 * nominal p 4 / 4.
Proof. apply backoff_bounded; vm_compute; intuition congruence. Defined.

(** ** Retrying *)

(** A provider that gives the outcomes of a script, and counts the calls. *)
Record script := mkScript { outcomes : list (option error); calls : nat }.

Definition scripted : prog script (() * option error) := act (λ s,
  match outcomes s with
  | [] => (((), None), mkScript [] (S (calls s)))
  | o :: os => (((), o), mkScript os (S (calls s)))
  end).

Definition undisturbed : prog script (option error) := mret None.

(** What ends the retries: success, or an error that is not transient. *)
Definition settled (o : option error) : bool := negb (is_err IsTransient o).

Lemma doFrom_script fuel p attempt last os n random :
  (0 < fuel)%nat → attempt + Z.of_nat fuel = Attempts p + 1 → (fuel <= length os)%nat →
  ∃ j o, (j < fuel)%nat ∧ os !! j = Some o
    ∧ (∀ i, (i < j)%nat → ∃ e, os !! i = Some (Some e) ∧ IsTransient e = true)
    ∧ (settled o = true ∨ S j = fuel)
    ∧ runP (doFrom undisturbed scripted (λ _, undisturbed) (mret random) fuel p attempt ((), last)) (mkScript os n)
      = (((), o), mkScript (drop (S j) os) (n + S j)).
Proof.
  revert attempt last os n. induction fuel as [|fuel IH]; intros attempt last os n Hf Ha Hlen; [lia |].
  destruct os as [|o os]; simpl in Hlen; [lia |].
  destruct o as [e|]; [destruct (IsTransient e) eqn:ET; [destruct fuel as [|fuel] |] |].
  - exists 0%nat, (Some e). split_and!; [lia | done | lia | by right |].
    cbn. rewrite ET. cbn. assert (attempt =? Attempts p = true) as -> by lia. cbn. by rewrite Nat.add_1_r.
  - destruct (IH (attempt + 1) (Some e) os (S n)) as (j & o & Hj & Ho & Hbefore & Hend & Hrun); [lia.. |].
    exists (S j), o. split_and!; [lia | done | | destruct Hend; [by left | right; lia] |].
    + intros [|i] Hi; [by exists e | apply Hbefore; lia].
    + cbn [doFrom]. unfold on_err, undisturbed in *. cbn. rewrite ET. cbn.
      assert (attempt =? Attempts p = false) as -> by lia. cbn in Hrun |- *. rewrite Hrun. f_equal. f_equal. lia.
  - exists 0%nat, (Some e). split_and!; [lia | done | lia | left; unfold settled; simpl; by rewrite ET |].
    cbn. rewrite ET. cbn. by rewrite Nat.add_1_r.
  - exists 0%nat, None. split_and!; [lia | done | lia | by left |]. cbn. by rewrite Nat.add_1_r.
Qed.

(** [Do] calls the operation until it succeeds or fails for good, at most
    as often as the policy allows, and returns that last outcome unchanged:
    every earlier outcome was transient, and a transient outcome is returned
    only when the attempts are exhausted. *)
Theorem do_first_settled p os random :
  1 <= Attempts p → Attempts p <= Z.of_nat (length os) →
  ∃ j o, Z.of_nat j < Attempts p ∧ os !! j = Some o
    ∧ (∀ i, (i < j)%nat → ∃ e, os !! i = Some (Some e) ∧ IsTransient e = true)
    ∧ (settled o = true ∨ Z.of_nat (S j) = Attempts p)
    ∧ runP (Do undisturbed scripted (λ _, undisturbed) (mret random) p ()) (mkScript os 0)
      = (((), o), mkScript (drop (S j) os) (S j)).
Proof.
  intros Ha Hlen.
  destruct (doFrom_script (Z.to_nat (Attempts p)) p 1 None os 0 random) as (j & o & Hj & Ho & Hb & He & Hrun); [lia.. |].
  exists j, o. split_and!; [lia | done | done | destruct He; [by left | right; lia] | exact Hrun].
Qed.

Lemma do_first_settled_witness :
  let p := withDefaults (mkPolicy 3 0 0 DefaultRate 0) in
  let down := Some (TransientError (ErrorString "down")) in
  let os := [down; None; down] in
  ∃ j o, Z.of_nat j < Attempts p ∧ os !! j = Some o
    ∧ (∀ i, (i < j)%nat → ∃ e, os !! i = Some (Some e) ∧ IsTransient e = true)
    ∧ (settled o = true ∨ Z.of_nat (S j) = Attempts p)
    ∧ runP (Do undisturbed scripted (λ _, undisturbed) (mret (Float64 0)) p ()) (mkScript os 0)
      = (((), o), mkScript (drop (S j) os) (S j)).
Proof. apply do_first_settled; vm_compute; congruence. Defined.

(** ** Pacing *)

(** The answers to [n] callers at the same instant. *)
Fixpoint burstWaits (n : nat) (now : time) (l : Limiter) : list (option duration) :=
  match n with
  | O => []
  | S n => let '(w, l) := LimiterWait now l in w :: burstWaits n now l
  end.

(** When the last of [n] calls, one after the other, is admitted. *)
Fixpoint pacedUntil (n : nat) (now : time) (l : Limiter) : time :=
  match n with
  | O => now
  | S n => let '(w, l) := LimiterWait now l in pacedUntil n (now + default 0 w) l
  end.

(** The default limiter with [k] tokens left, last used at [t]. *)
Definition defaultLimiter (k : Z) (t : time) : Limiter :=
  mkLimiter DefaultRate (f64_of_int DefaultBurst) (f64_of_int k) t.

Lemma defaultWait_empty t :
  t ≠ zeroTime → LimiterWait t (defaultLimiter 0 t) = (Some (200 * Millisecond), defaultLimiter 0 t).
Proof.
  intros Ht. unfold LimiterWait, defaultLimiter. cbn [lm_last lm_rate lm_burst lm_tokens].
  unfold IsZero, zeroTime in *. destruct (Z.eqb_spec t 0); [done |].
  assert (Sub t t = 0) as -> by (unfold Sub, max_int64, min_int64; lia). vm_compute. reflexivity.
Qed.

Lemma defaultWait_refilled t :
  t ≠ zeroTime →
  LimiterWait (t + 200 * Millisecond) (defaultLimiter 0 t) = (None, defaultLimiter 0 (t + 200 * Millisecond)).
Proof.
  intros Ht. unfold LimiterWait, defaultLimiter. cbn [lm_last lm_rate lm_burst lm_tokens].
  unfold IsZero, zeroTime in *. destruct (Z.eqb_spec t 0); [done |].
  assert (Sub (t + 200 * Millisecond) t = 200 * Millisecond) as ->.
  { unfold Sub, Millisecond, max_int64, min_int64. lia. }
  set (u := t + 200 * Millisecond). clearbody u. vm_compute. reflexivity.
Qed.

(** The first ten callers take the burst. *)
Lemma defaultWait_burst t :
  t ≠ zeroTime → ∀ n, burstWaits (10 + n) t (NewLimiter DefaultRate DefaultBurst)
    = replicate 10 None ++ burstWaits n t (defaultLimiter 0 t)
  ∧ pacedUntil (10 + n) t (NewLimiter DefaultRate DefaultBurst) = pacedUntil n t (defaultLimiter 0 t).
Proof.
  intros Ht n.
  assert (H0 : LimiterWait t (NewLimiter DefaultRate DefaultBurst) = (None, defaultLimiter 9 t)) by (vm_compute; reflexivity).
  assert (Hk : ∀ k, k ∈ seqZ 1 9 → LimiterWait t (defaultLimiter k t) = (None, defaultLimiter (k - 1) t)).
  { intros k Hin. unfold LimiterWait, defaultLimiter. cbn [lm_last lm_rate lm_burst lm_tokens].
    unfold IsZero, zeroTime in *. destruct (Z.eqb_spec t 0); [done |].
    assert (Sub t t = 0) as -> by (unfold Sub, max_int64, min_int64; lia).
    apply elem_of_seqZ in Hin. assert (Hc : k = 1 ∨ k = 2 ∨ k = 3 ∨ k = 4 ∨ k = 5 ∨ k = 6 ∨ k = 7 ∨ k = 8 ∨ k = 9) by lia.
    destruct_or! Hc; subst k; vm_compute; reflexivity. }
  assert (Hrest : ∀ k : nat, (k <= 9)%nat →
    burstWaits (k + n) t (defaultLimiter (Z.of_nat k) t) = replicate k None ++ burstWaits n t (defaultLimiter 0 t)
    ∧ pacedUntil (k + n) t (defaultLimiter (Z.of_nat k) t) = pacedUntil n t (defaultLimiter 0 t)).
  { induction k as [|k IH]; intros Hle; [done |]. cbn [Nat.add burstWaits pacedUntil].
    rewrite Hk by (apply elem_of_seqZ; lia). replace (Z.of_nat (S k) - 1) with (Z.of_nat k) by lia.
    destruct (IH ltac:(lia)) as [-> IHp]. cbn [default]. rewrite Z.add_0_r, IHp. done. }
  change (10 + n)%nat with (S (9 + n)). cbn [burstWaits pacedUntil]. rewrite H0. cbn [default]. rewrite Z.add_0_r.
  destruct (Hrest 9%nat ltac:(lia)) as [E1 E2]. change (Z.of_nat 9) with 9 in E1, E2. by rewrite E1, E2.
Qed.

(** The limiter lets through more than its rate.  A caller that finds the
    bucket empty leaves it empty, and the time it sleeps refills the bucket
    again.  So, past the burst, any number of callers at one instant are all
    let through a fifth of a second later, and callers one after the other get
    through at twice the rate of five per second. *)
Theorem limiter_overadmits t n :
  t ≠ zeroTime →
  burstWaits (10 + n) t (NewLimiter DefaultRate DefaultBurst)
    = replicate 10 None ++ replicate n (Some (200 * Millisecond))
  ∧ (0 <= t → pacedUntil (10 + 2 * n) t (NewLimiter DefaultRate DefaultBurst) = t + Z.of_nat n * (200 * Millisecond)).
Proof.
  intros Ht. split.
  - destruct (defaultWait_burst t Ht n) as [-> _]. f_equal.
    induction n as [|n IH]; [done |]. cbn [burstWaits replicate]. rewrite defaultWait_empty by done. by rewrite IH.
  - intros Hpos. destruct (defaultWait_burst t Ht (2 * n)) as [_ ->].
    revert t Ht Hpos. induction n as [|n IH]; intros t Ht Hpos; [simpl; lia |].
    replace (2 * S n)%nat with (S (S (2 * n))) by lia. cbn [pacedUntil].
    rewrite defaultWait_empty by done. cbn [default].
    change (from_option (λ x, x) 0 (Some (200 * Millisecond))) with (200 * Millisecond).
    rewrite defaultWait_refilled by done. cbn [default].
    change (from_option (λ x, x) 0 None) with 0. rewrite Z.add_0_r.
    rewrite IH; unfold zeroTime, Millisecond in *; lia.
Qed.

Lemma limiter_overadmits_witness :
  burstWaits (10 + 1000) Hour (NewLimiter DefaultRate DefaultBurst)
    = replicate 10 None ++ replicate 1000 (Some (200 * Millisecond))
  ∧ (0 <= Hour → pacedUntil (10 + 2 * 1000) Hour (NewLimiter DefaultRate DefaultBurst)
                 = Hour + Z.of_nat 1000 * (200 * Millisecond)).
Proof. apply limiter_overadmits. discriminate. Defined.
