(* ===== verification/RetirementQueue.v ===== *)
(** The retirement journal (src/controller/retirement_queue.go): a durable map
    from runner name to the identity proof of a runner whose cleanup is due.
    An entry is journaled before the GitHub registration it covers exists and
    removed only once nothing of the runner is left, so that a crash at any
    point leaves the proof behind. *)

From S2P Require Import Prelude Provider.

(** * Data *)

Definition settleActualUsage : string := "settle".
Definition forfeitReservation : string := "forfeit".

Record retirementEntry := mkRetirementEntry {
  re_RunnerName : string;
  re_RunnerID : Z;
  re_RunnerScaleSetID : Z;
  re_LeaseID : string;
  re_BudgetDisposition : string;
  re_StoppedAt : time;
  re_RequestedAt : time
}.

#[global] Instance retirementEntry_eq_dec : EqDecision retirementEntry.
Proof. solve_decision. Defined.

(** [retirementLedger] *)
Record retirementLedger := mkRetirementLedger {
  rl_Version : Z; rl_Entries : list retirementEntry; rl_Runners : list string
}.

(** The journal in memory and the ledger its file holds. *)
Record retirementQueue := mkRetirementQueue {
  rq_entries : gmap string retirementEntry;
  rq_file : option retirementLedger
}.

(** Which system calls of one [persistLocked] succeed. *)
Record journalIO := mkJournalIO {
  jo_mkdir : bool; jo_marshal : bool; jo_create : bool; jo_chmodTemp : bool; jo_write : bool;
  jo_sync : bool; jo_close : bool; jo_rename : bool; jo_chmod : bool; jo_openDir : bool;
  jo_syncDir : bool
}.

Definition joOK : journalIO := mkJournalIO true true true true true true true true true true true.

(** * Names *)

(** The rest of [s] after [n] characters of [p]. *)
Fixpoint eat (p : ascii → bool) (n : nat) (s : string) : option string :=
  match n, s with
  | O, _ => Some s
  | S n, String c s => if p c then eat p n s else None
  | S _, EmptyString => None
  end.

(** The rest of [s] after the literal [w]. *)
Fixpoint eatString (w s : string) : option string :=
  match w, s with
  | EmptyString, _ => Some s
  | String a w, String c s => if Ascii.eqb a c then eatString w s else None
  | String _ _, EmptyString => None
  end.

(** Consecutive pieces of a pattern. *)
Fixpoint eatAll (ps : list (string → option string)) (s : string) : option string :=
  match ps with
  | [] => Some s
  | p :: ps => match p s with Some s => eatAll ps s | None => None end
  end.

Definition matches (ps : list (string → option string)) (s : string) : bool :=
  match eatAll ps s with Some rest => String.eqb rest "" | None => false end.

(** [managedRunnerName.MatchString]: [runner-] and eight lower-case hexadecimal
    digits, or a UUID. *)
Definition managedRunnerName (name : string) : bool :=
  let hex := eat hex_byte in
  let dash := eatString "-" in
  matches [eatString "runner-"; hex 8%nat] name
  || matches [eatString "runner-"; hex 8%nat; dash; hex 4%nat; dash; hex 4%nat; dash; hex 4%nat;
              dash; hex 12%nat] name.

(** * Operations *)

Definition validateRetirementEntry (entry : retirementEntry) : option error :=
  if negb (managedRunnerName (re_RunnerName entry)) then
    Some (ErrorString "invalid managed runner name in retirement queue")
  else if (re_RunnerID entry <? 0) || (re_RunnerScaleSetID entry <? 1)
          || String.eqb (re_LeaseID entry) "" then
    Some (ErrorString "invalid identity proof for runner")
  else if negb (String.eqb (re_BudgetDisposition entry) settleActualUsage)
          && negb (String.eqb (re_BudgetDisposition entry) forfeitReservation) then
    Some (ErrorString "invalid budget disposition for runner")
  else None.

(** [all]: the entries sorted by runner name. *)
Definition name_le (l r : retirementEntry) : Prop := str_le (re_RunnerName l) (re_RunnerName r).

#[global] Instance name_le_dec : RelDecision name_le.
Proof. intros l r. unfold name_le. apply _. Defined.
#[global] Instance name_le_trans : Transitive name_le.
Proof. intros a b d ??. unfold name_le in *. by etrans. Qed.
#[global] Instance name_le_total : Total name_le.
Proof. intros a b. apply (total str_le). Qed.

Definition allRetirements (q : retirementQueue) : list retirementEntry :=
  merge_sort name_le ((map_to_list (rq_entries q)).*2).

(** [persistLocked]: a temporary file renamed over the journal.  The deferred
    removal of the temporary file leaves none behind. *)
Definition persistLocked (io : journalIO) (q : retirementQueue) : option error * retirementQueue :=
  if negb (jo_mkdir io) then (Some (ErrorString "create runner retirement queue directory"), q)
  else if negb (jo_marshal io) then (Some (ErrorString "encode runner retirement queue"), q)
  else if negb (jo_create io) then (Some (ErrorString "create temporary runner retirement queue"), q)
  else if negb (jo_chmodTemp io) then (Some (ErrorString "secure runner retirement queue"), q)
  else if negb (jo_write io) then (Some (ErrorString "write runner retirement queue"), q)
  else if negb (jo_sync io) then (Some (ErrorString "sync runner retirement queue"), q)
  else if negb (jo_close io) then (Some (ErrorString "close runner retirement queue"), q)
  else if negb (jo_rename io) then (Some (ErrorString "commit runner retirement queue"), q)
  else
    let renamed := mkRetirementQueue (rq_entries q)
                     (Some (mkRetirementLedger 2 (allRetirements q) [])) in
    if negb (jo_chmod io) then
      (Some (ErrorString "secure committed runner retirement queue"), renamed)
    else if negb (jo_openDir io) then
      (Some (ErrorString "open runner retirement queue directory"), renamed)
    else if negb (jo_syncDir io) then
      (Some (ErrorString "sync runner retirement queue directory"), renamed)
    else (None, renamed).

(** Persist with the entries [m]; put the previous ones back when that fails. *)
Definition journal (io : journalIO) (m : gmap string retirementEntry) (q : retirementQueue)
    : option error * retirementQueue :=
  match persistLocked io (mkRetirementQueue m (rq_file q)) with
  | (Some err, q') => (Some err, mkRetirementQueue (rq_entries q) (rq_file q'))
  | (None, q') => (None, q')
  end.

(** The entry [put] stores over an existing one: the registration id and the
    stop time are kept when the new ones are unset, the first request time
    always. *)
Definition mergeRetirement (previous entry : retirementEntry) : retirementEntry :=
  mkRetirementEntry (re_RunnerName entry)
    (if re_RunnerID entry =? 0 then re_RunnerID previous else re_RunnerID entry)
    (re_RunnerScaleSetID entry) (re_LeaseID entry) (re_BudgetDisposition entry)
    (if IsZero (re_StoppedAt entry) then re_StoppedAt previous else re_StoppedAt entry)
    (if negb (IsZero (re_RequestedAt previous)) then re_RequestedAt previous
     else re_RequestedAt entry).

Definition putRetirement (io : journalIO) (entry : retirementEntry) (q : retirementQueue)
    : option error * retirementQueue :=
  match validateRetirementEntry entry with
  | Some err => (Some err, q)
  | None =>
    match rq_entries q !! re_RunnerName entry with
    | Some previous =>
      if negb (re_RunnerScaleSetID previous =? re_RunnerScaleSetID entry)
         || negb (String.eqb (re_LeaseID previous) (re_LeaseID entry))
         || negb (String.eqb (re_BudgetDisposition previous) (re_BudgetDisposition entry)) then
        (Some (ErrorString "refusing to replace identity proof for runner"), q)
      else if negb (re_RunnerID previous =? 0) && negb (re_RunnerID entry =? 0)
              && negb (re_RunnerID previous =? re_RunnerID entry) then
        (Some (ErrorString "refusing to replace registration id for runner"), q)
      else journal io (<[re_RunnerName entry := mergeRetirement previous entry]> (rq_entries q)) q
    | None => journal io (<[re_RunnerName entry := entry]> (rq_entries q)) q
    end
  end.

Definition removeRetirement (io : journalIO) (name : string) (q : retirementQueue)
    : option error * retirementQueue :=
  match rq_entries q !! name with
  | None => (None, q)
  | Some _ => journal io (delete name (rq_entries q)) q
  end.

(** [count] and [overdue] *)
Definition countRetirements (q : retirementQueue) : Z := Z.of_nat (size (rq_entries q)).

Definition overdueRetirements (now : time) (grace : duration) (q : retirementQueue) : Z :=
  Z.of_nat (length (keep (λ entry, IsZero (re_RequestedAt entry)
                                   || (grace <? Sub now (re_RequestedAt entry)))
                      ((map_to_list (rq_entries q)).*2))).

(** ** Loading *)

Definition maximumRetirementQueueSize : Z := 2 ^ 20.

(** What [loadRetirementLedger] finds at the journal's path. *)
Record journalStat := mkJournalStat {
  js_symlink : bool; js_regular : bool; js_groupOrOther : bool; js_size : Z;
  js_opens : bool; js_sameFile : bool;
  (* the first JSON value, and whether only white space follows it *)
  js_decoded : option retirementLedger; js_trailing : bool
}.

Inductive journalPath :=
  | PathUnresolved | DirMissing | DirUnreadable | EntryMissing | EntryUnreadable
  | Entry (s : journalStat).

(** [loadRetirementLedger]; [windows] is [runtime.GOOS == "windows"]. *)
Definition loadRetirementLedger (windows : bool) (p : journalPath) : error + retirementLedger :=
  match p with
  | PathUnresolved => inl (ErrorString "resolve runner retirement queue path")
  | DirMissing | EntryMissing => inl (Sentinel ErrNotExist)
  | DirUnreadable => inl (ErrorString "open runner retirement queue directory")
  | EntryUnreadable => inl (ErrorString "inspect runner retirement queue")
  | Entry s =>
    if js_symlink s || negb (js_regular s) then
      inl (ErrorString "runner retirement queue must be a regular file, not a symlink")
    else if negb windows && js_groupOrOther s then
      inl (ErrorString "runner retirement queue is accessible by group or others")
    else if (js_size s <? 1) || (maximumRetirementQueueSize <? js_size s) then
      inl (ErrorString "runner retirement queue size is outside the safe range")
    else if negb (js_opens s) then inl (ErrorString "open runner retirement queue")
    else if negb (js_sameFile s) then
      inl (ErrorString "runner retirement queue changed while it was being inspected")
    else
    match js_decoded s with
    | None => inl (ErrorString "decode runner retirement queue")
    | Some ledger =>
      if js_trailing s then inl (ErrorString "runner retirement queue contains trailing data")
      else inr ledger
    end
  end.

(** The loop of [newRetirementQueue] over the ledger's entries. *)
Fixpoint loadEntries (es : list retirementEntry) (m : gmap string retirementEntry)
    : error + gmap string retirementEntry :=
  match es with
  | [] => inr m
  | entry :: es =>
    match validateRetirementEntry entry with
    | Some err => inl err
    | None =>
      match m !! re_RunnerName entry with
      | Some _ => inl (ErrorString "duplicate runner in retirement queue")
      | None => loadEntries es (<[re_RunnerName entry := entry]> m)
      end
    end
  end.

Definition newRetirementQueue (io : journalIO) (windows : bool) (path : string) (p : journalPath)
    : error + retirementQueue :=
  if String.eqb path "" then inl (ErrorString "runner retirement queue file is required")
  else
  match loadRetirementLedger windows p with
  | inl err =>
    if errors_is ErrNotExist err then
      match persistLocked io (mkRetirementQueue ∅ None) with
      | (Some err, _) => inl err
      | (None, q) => inr q
      end
    else inl err
  | inr ledger =>
    if (rl_Version ledger =? 1) && negb (length (rl_Runners ledger) =? 0)%nat then
      inl (ErrorString "legacy runner retirement queue is non-empty")
    else
    let version := if rl_Version ledger =? 1 then 2 else rl_Version ledger in
    if negb (version =? 2) then inl (ErrorString "unsupported runner retirement queue version")
    else
    match loadEntries (rl_Entries ledger) ∅ with
    | inl err => inl err
    | inr m => inr (mkRetirementQueue m (Some ledger))
    end
  end.

(** * The journal invariant *)

(** Every entry is valid and stored under its own runner name. *)
Definition journalOK (m : gmap string retirementEntry) : Prop :=
  map_Forall (λ name e, re_RunnerName e = name ∧ validateRetirementEntry e = None) m.

(** A ledger the controller loads: current version, valid entries, distinct names. *)
Definition ledgerOK (l : retirementLedger) : Prop :=
  rl_Version l = 2 ∧ Forall (λ e, validateRetirementEntry e = None) (rl_Entries l)
  ∧ NoDup (map re_RunnerName (rl_Entries l)).

Definition queueOK (q : retirementQueue) : Prop :=
  journalOK (rq_entries q) ∧ ∀ l, rq_file q = Some l → ledgerOK l.

(** The map a ledger stands for. *)
Definition ledgerMap (es : list retirementEntry) : gmap string retirementEntry :=
  list_to_map ((λ e, (re_RunnerName e, e)) <$> es).

Lemma journal_list_names m :
  journalOK m → map re_RunnerName ((map_to_list m).*2) = (map_to_list m).*1.
Proof.
  intros Hm. unfold journalOK in Hm. rewrite map_Forall_to_list in Hm.
  induction Hm as [|[k e] l [Hk _] _ IH]; [done |]. simpl in Hk |- *. by rewrite Hk; f_equal.
Qed.

Lemma journal_list_pairs m :
  journalOK m → (λ e, (re_RunnerName e, e)) <$> (map_to_list m).*2 = map_to_list m.
Proof.
  intros Hm. unfold journalOK in Hm. rewrite map_Forall_to_list in Hm.
  induction Hm as [|[k e] l [Hk _] _ IH]; [done |]. simpl in Hk |- *. by rewrite Hk; f_equal.
Qed.

Lemma allRetirements_perm q : allRetirements q ≡ₚ (map_to_list (rq_entries q)).*2.
Proof. apply merge_sort_Permutation. Qed.

Lemma allRetirements_sorted q : StronglySorted name_le (allRetirements q).
Proof. apply (StronglySorted_merge_sort _). Qed.

Lemma allRetirements_names q :
  journalOK (rq_entries q) → NoDup (map re_RunnerName (allRetirements q)).
Proof.
  intros Hq. rewrite (Permutation_map re_RunnerName (allRetirements_perm q)).
  rewrite journal_list_names by done. apply NoDup_fst_map_to_list.
Qed.

Lemma allRetirements_valid q :
  journalOK (rq_entries q) → Forall (λ e, validateRetirementEntry e = None) (allRetirements q).
Proof.
  intros Hq. rewrite allRetirements_perm.
  unfold journalOK in Hq. rewrite map_Forall_to_list in Hq.
  apply Forall_fmap. eapply Forall_impl; [exact Hq |]. by intros [k e] [_ ?].
Qed.

Lemma elem_of_allRetirements q e :
  journalOK (rq_entries q) → e ∈ allRetirements q ↔ rq_entries q !! re_RunnerName e = Some e.
Proof.
  intros Hq. rewrite allRetirements_perm, list_elem_of_fmap. split.
  - intros ([k e'] & -> & He). apply elem_of_map_to_list in He.
    simpl. by destruct (Hq _ _ He) as [-> _].
  - intros He. exists (re_RunnerName e, e). by rewrite elem_of_map_to_list.
Qed.

(** ** Loading a ledger *)

Lemma loadEntries_spec es m :
  Forall (λ e, validateRetirementEntry e = None) es → NoDup (map re_RunnerName es) →
  (∀ e, e ∈ es → m !! re_RunnerName e = None) → loadEntries es m = inr (ledgerMap es ∪ m).
Proof.
  revert m. induction es as [|e es IH]; intros m HF HN Hm; simpl.
  { f_equal. unfold ledgerMap. simpl. by rewrite (left_id_L ∅ (∪)). }
  apply Forall_cons in HF as [He HF]. apply NoDup_cons in HN as [Hne HN].
  rewrite He, (Hm e) by (by left). rewrite IH; [|done..|].
  - f_equal. unfold ledgerMap. simpl. rewrite <- insert_union_l, insert_union_r; [done |].
    apply not_elem_of_list_to_map. rewrite <- list_fmap_compose. exact Hne.
  - intros x Hx. rewrite lookup_insert_ne; [apply Hm; by right |].
    intros Heq. apply Hne. rewrite Heq. by apply list_elem_of_fmap_2.
Qed.

Lemma ledgerMap_all q : journalOK (rq_entries q) → ledgerMap (allRetirements q) = rq_entries q.
Proof.
  intros Hq. unfold ledgerMap. transitivity (list_to_map (map_to_list (rq_entries q)) : gmap _ _).
  - apply list_to_map_proper.
    + rewrite <- list_fmap_compose. by apply allRetirements_names.
    + rewrite allRetirements_perm. by rewrite journal_list_pairs.
  - apply list_to_map_to_list.
Qed.

(** A regular, private file of a safe size that decodes to [l]. *)
Definition readable (s : journalStat) (l : retirementLedger) : Prop :=
  js_symlink s = false ∧ js_regular s = true ∧ js_groupOrOther s = false
  ∧ 1 <= js_size s <= maximumRetirementQueueSize ∧ js_opens s = true ∧ js_sameFile s = true
  ∧ js_decoded s = Some l ∧ js_trailing s = false.

Lemma load_ledgerOK io windows path s l :
  path ≠ "" → readable s l → ledgerOK l →
  newRetirementQueue io windows path (Entry s) = inr (mkRetirementQueue (ledgerMap (rl_Entries l)) (Some l)).
Proof.
  intros Hpath (H1 & H2 & H3 & H4 & H5 & H6 & H7 & H8) (Hv & HF & HN).
  unfold newRetirementQueue. destruct (String.eqb_spec path ""); [done |]. simpl.
  rewrite H1, H2, H3, H5, H6, H7, H8, andb_false_r. simpl.
  destruct (_ || _) eqn:E; [blia |]. rewrite Hv. simpl.
  rewrite loadEntries_spec by (done || (intros; apply lookup_empty)).
  by rewrite (right_id_L ∅ (∪)).
Qed.

(** ** Writing *)

(** A write leaves the old file or the new ledger; success means the new one. *)
Lemma journal_cases io m q r q' :
  journal io m q = (r, q') →
  (rq_file q' = rq_file q
   ∨ rq_file q' = Some (mkRetirementLedger 2 (allRetirements (mkRetirementQueue m None)) [])) ∧
  (r = None → rq_entries q' = m ∧
     rq_file q' = Some (mkRetirementLedger 2 (allRetirements (mkRetirementQueue m None)) [])) ∧
  (r ≠ None → rq_entries q' = rq_entries q).
Proof. unfold journal, persistLocked. intros H. case_bool; simpl; split_and!; auto; done. Qed.

Lemma journal_OK io m q r q' :
  journal io m q = (r, q') → queueOK q → journalOK m → queueOK q'.
Proof.
  intros (Hf & Hn & Hs)%journal_cases [Hq Hl] Hm. split.
  - destruct r; [by rewrite Hs | by destruct (Hn eq_refl) as [-> _]].
  - intros l Hl'. destruct Hf as [Hf|Hf]; rewrite Hf in Hl'; [auto |]. injection Hl' as <-.
    split_and!; [done | by apply allRetirements_valid | by apply allRetirements_names].
Qed.

Lemma mergeRetirement_valid previous entry :
  validateRetirementEntry previous = None → validateRetirementEntry entry = None →
  validateRetirementEntry (mergeRetirement previous entry) = None.
Proof.
  unfold validateRetirementEntry, mergeRetirement. simpl.
  destruct (managedRunnerName (re_RunnerName previous)), (managedRunnerName (re_RunnerName entry));
    simpl; try done.
  destruct (re_RunnerID previous <? 0) eqn:E1, (re_RunnerID entry <? 0) eqn:E2; simpl; try done.
  intros _. destruct (re_RunnerID entry =? 0); [by rewrite E1 | by rewrite E2].
Qed.

Lemma putRetirement_OK io entry q r q' :
  queueOK q → putRetirement io entry q = (r, q') → queueOK q'.
Proof.
  intros Hq. unfold putRetirement.
  destruct (validateRetirementEntry entry) eqn:Ev; [by intros [= <- <-] |].
  destruct (rq_entries q !! re_RunnerName entry) as [previous|] eqn:Ep.
  - destruct (_ || _); [by intros [= <- <-] |]. destruct (_ && _); [by intros [= <- <-] |].
    intros H. eapply journal_OK; eauto. apply map_Forall_insert_2; [|apply Hq]. split; [done |].
    apply mergeRetirement_valid; [|done]. by destruct (proj1 Hq _ _ Ep).
  - intros H. eapply journal_OK; eauto. apply map_Forall_insert_2; [done | apply Hq].
Qed.

Lemma removeRetirement_OK io name q r q' :
  queueOK q → removeRetirement io name q = (r, q') → queueOK q'.
Proof.
  intros Hq. unfold removeRetirement. destruct (rq_entries q !! name); [|by intros [= <- <-]].
  intros H. eapply journal_OK; eauto. apply map_Forall_delete, Hq.
Qed.

(** * Properties *)

(** One journal operation, with any outcome of its system calls. *)
Inductive putStep (q q' : retirementQueue) : Prop :=
  | put_step io entry r : putRetirement io entry q = (r, q') → putStep q q'.

Inductive journalStep (q q' : retirementQueue) : Prop :=
  | journal_put : putStep q q' → journalStep q q'
  | journal_remove io name r : removeRetirement io name q = (r, q') → journalStep q q'.

Lemma journalSteps_OK q q' : rtc journalStep q q' → queueOK q → queueOK q'.
Proof.
  induction 1 as [|q1 q2 q3 Hs _ IH]; [done |]. intros Hq. apply IH.
  destruct Hs as [[]|]; eauto using putRetirement_OK, removeRetirement_OK.
Qed.

(** The identity proof of a runner: what later writes must not change. *)
Record sameProof (e e' : retirementEntry) : Prop := {
  sp_scaleSet : re_RunnerScaleSetID e' = re_RunnerScaleSetID e;
  sp_lease : re_LeaseID e' = re_LeaseID e;
  sp_disposition : re_BudgetDisposition e' = re_BudgetDisposition e;
  sp_runnerID : re_RunnerID e ≠ 0 → re_RunnerID e' = re_RunnerID e;
  sp_requested : re_RequestedAt e ≠ 0 → re_RequestedAt e' = re_RequestedAt e;
  sp_stopped : re_StoppedAt e ≠ 0 → re_StoppedAt e' ≠ 0
}.

#[global] Instance sameProof_preorder : PreOrder sameProof.
Proof.
  split; [by intros e |]. intros a b d [] []. constructor; try congruence; intuition congruence.
Qed.

Lemma put_keeps_proof io entry q r q' name e :
  putRetirement io entry q = (r, q') → rq_entries q !! name = Some e →
  ∃ e', rq_entries q' !! name = Some e' ∧ sameProof e e'.
Proof.
  intros H He. unfold putRetirement in H.
  destruct (validateRetirementEntry entry); [injection H as <- <-; by exists e |].
  destruct (rq_entries q !! re_RunnerName entry) as [previous|] eqn:Ep.
  - destruct (_ || _) eqn:E1; [injection H as <- <-; by exists e |].
    destruct (_ && _) eqn:E2; [injection H as <- <-; by exists e |].
    apply journal_cases in H as (_ & Hn & Hs).
    destruct r; [rewrite Hs by done; by exists e |]. destruct (Hn eq_refl) as [-> _].
    destruct (decide (name = re_RunnerName entry)) as [->|Hne];
      [|rewrite lookup_insert_ne by done; by exists e].
    assert (previous = e) as -> by congruence.
    rewrite lookup_insert_eq. eexists. split; [done |].
    breflect. destruct_and!. rewrite !String.eqb_eq in *.
    constructor; unfold mergeRetirement; simpl; auto.
    + intros Hid. destruct (re_RunnerID entry =? 0) eqn:E; [done |]. breflect. intuition lia.
    + intros Hreq. by destruct (IsZero (re_RequestedAt e)) eqn:E; [blia |].
    + intros Hst. destruct (IsZero (re_StoppedAt entry)) eqn:E; [done | blia].
  - apply journal_cases in H as (_ & Hn & Hs).
    destruct r; [rewrite Hs by done; by exists e |]. destruct (Hn eq_refl) as [-> _].
    rewrite lookup_insert_ne by congruence. by exists e.
Qed.

(** No write to the journal ever changes the identity proof of a runner
    already journaled: its scale set, lease and budget disposition stay, a known
    registration id and the first request time stay, and a known stop time is
    never lost, whatever entries are put and whichever system call fails. *)
Theorem identity_proof_immutable q q' name e :
  rtc putStep q q' → rq_entries q !! name = Some e →
  ∃ e', rq_entries q' !! name = Some e' ∧ sameProof e e'.
Proof.
  intros H. revert e. induction H as [|q1 q2 q3 [io entry r Hp] _ IH]; intros e He; [by exists e |].
  destruct (put_keeps_proof _ _ _ _ _ _ _ Hp He) as (e1 & He1 & Hs1).
  destruct (IH e1 He1) as (e2 & He2 & Hs2). exists e2. split; [done |]. by etrans.
Qed.

(** A journaled runner, and a queue that holds it. *)
Definition demoRetirement : retirementEntry :=
  mkRetirementEntry "runner-0a1b2c3d" 7 12 "0a1b2c3d" forfeitReservation 0 1000.
Definition demoQueue : retirementQueue :=
  mkRetirementQueue {["runner-0a1b2c3d" := demoRetirement]}
    (Some (mkRetirementLedger 2 [demoRetirement] [])).

Lemma demoQueue_OK : queueOK demoQueue.
Proof.
  split.
  - apply map_Forall_singleton. split; vm_compute; reflexivity.
  - intros l [= <-]. split_and!; [done | repeat constructor | apply NoDup_singleton].
Qed.

Lemma identity_proof_immutable_witness :
  ∃ e', rq_entries (putRetirement joOK
          (mkRetirementEntry "runner-0a1b2c3d" 0 12 "0a1b2c3d" forfeitReservation 0 5000) demoQueue).2
        !! "runner-0a1b2c3d" = Some e' ∧ re_RunnerID e' = 7 ∧ re_RequestedAt e' = 1000.
Proof.
  destruct (identity_proof_immutable demoQueue
    (putRetirement joOK
       (mkRetirementEntry "runner-0a1b2c3d" 0 12 "0a1b2c3d" forfeitReservation 0 5000) demoQueue).2
    "runner-0a1b2c3d" demoRetirement) as (e' & He & Hs).
  - eapply rtc_once, put_step. apply surjective_pairing.
  - reflexivity.
  - exists e'. destruct Hs as [_ _ _ Hid Hreq _].
    split_and!; [exact He | apply Hid; vm_compute; congruence | apply Hreq; vm_compute; congruence].
Defined.


Definition statOf (l : retirementLedger) : journalStat :=
  mkJournalStat false true false 300 true true (Some l) false.


(** An entry whose [put] succeeded is durable: reading the journal file
    back gives exactly the journal in memory, sorted by runner name. *)
Theorem put_roundtrip io io' windows path entry q q' s l :
  putRetirement io entry q = (None, q') → queueOK q →
  rq_file q' = Some l → readable s l → path ≠ "" →
  newRetirementQueue io' windows path (Entry s) = inr q' ∧
  rl_Entries l = allRetirements q' ∧ StronglySorted name_le (rl_Entries l).
Proof.
  intros Hp Hq Hl Hr Hpath. pose proof (putRetirement_OK _ _ _ _ _ Hq Hp) as [Hq' Hf'].
  rewrite (load_ledgerOK io' windows path s l) by auto.
  assert (Hl' : rq_file q' = Some (mkRetirementLedger 2 (allRetirements (mkRetirementQueue (rq_entries q') None)) [])).
  { unfold putRetirement in Hp. repeat case_match; simplify_eq;
      apply journal_cases in Hp as (_ & Hn & _); destruct (Hn eq_refl) as [-> ->]; done. }
  rewrite Hl in Hl'. injection Hl' as ->. cbn [rl_Entries].
  change (allRetirements (mkRetirementQueue (rq_entries q') None)) with (allRetirements q').
  split_and!; [|done | apply allRetirements_sorted].
  rewrite ledgerMap_all by done. destruct q' as [m f]. simpl in *. by subst f.
Qed.

Lemma put_roundtrip_witness :
  ∃ q', putRetirement joOK demoRetirement (mkRetirementQueue ∅ None) = (None, q') ∧
        newRetirementQueue joOK false "/data/retirements.json"
          (Entry (statOf (mkRetirementLedger 2 [demoRetirement] []))) = inr q'.
Proof.
  eexists. split; [vm_compute; reflexivity |].
  eapply (put_roundtrip joOK joOK false "/data/retirements.json" demoRetirement
            (mkRetirementQueue ∅ None)); [vm_compute; reflexivity | | vm_compute; reflexivity | |].
  - split; [apply map_Forall_empty | done].
  - unfold readable. split_and!; try reflexivity; vm_compute; congruence.
  - done.
Defined.
