(* ===== verification/WorkerState.v ===== *)
(** The controller's view of its workers (src/controller/state.go): the workers
    it believes exist, by runner name, and the ones that left or stopped before
    GitHub reported their job finished.

    Go iterates maps in an unspecified order; where an operation returns a list
    of map entries, the model returns them in the order of [map_to_list], and no
    property depends on that order. *)

From S2P Require Import Prelude Provider.

(** * Data *)

Record workerRecord := mkWorkerRecord {
  wr_Worker : Worker;
  wr_Busy : bool;
  wr_Observed : bool;
  wr_MissingSince : time
}.

Record departure := mkDeparture {
  dep_Worker : Worker;
  dep_Busy : bool;
  dep_At : time;
  dep_Stopped : bool;
  dep_Awaiting : bool
}.

Record workerState := mkWorkerState {
  workers : gmap string workerRecord;
  departed : gmap string departure
}.

Definition newWorkerState : workerState := mkWorkerState ∅ ∅.

(** * Operations *)

Definition with_departed (s : workerState) (m : gmap string departure) : workerState :=
  mkWorkerState (workers s) m.
Definition with_workers (s : workerState) (m : gmap string workerRecord) : workerState :=
  mkWorkerState m (departed s).

(** Whether the worker is already remembered as stopped. *)
Definition rememberedStopped (name : string) (s : workerState) : bool :=
  match departed s !! name with Some known => dep_Stopped known | None => false end.

Definition markDeparted (record : workerRecord) (at_ : time) (s : workerState) : workerState :=
  let name := RunnerName (wr_Worker record) in
  if rememberedStopped name s then s
  else with_departed s
    (<[name := mkDeparture (wr_Worker record) (wr_Busy record) at_ false false]> (departed s)).

Definition markStopped (record : workerRecord) (at_ : time) (awaiting : bool) (s : workerState)
    : workerState :=
  let name := RunnerName (wr_Worker record) in
  if rememberedStopped name s then s
  else with_departed s
    (<[name := mkDeparture (wr_Worker record) (wr_Busy record) at_ true awaiting]> (departed s)).

Definition markDepartedBusy (name : string) (s : workerState) : option departure * workerState :=
  match departed s !! name with
  | None => (None, s)
  | Some d =>
      let d := mkDeparture (dep_Worker d) true (dep_At d) (dep_Stopped d) (dep_Awaiting d) in
      (Some d, with_departed s (<[name := d]> (departed s)))
  end.

Definition isOverdue (before : time) (d : departure) : bool :=
  dep_Awaiting d && Before (dep_At d) before.

Definition stopAwaiting (d : departure) : departure :=
  mkDeparture (dep_Worker d) (dep_Busy d) (dep_At d) (dep_Stopped d) false.

Definition takeOverdue (before : time) (s : workerState) : list departure * workerState :=
  (stopAwaiting <$> keep (isOverdue before) ((map_to_list (departed s)).*2),
   with_departed s ((λ d, if isOverdue before d then stopAwaiting d else d) <$> departed s)).

Definition takeDeparted (name : string) (s : workerState) : option departure * workerState :=
  (departed s !! name, with_departed s (delete name (departed s))).

Definition pruneDeparted (before : time) (s : workerState) : workerState :=
  with_departed s (filter (λ nd, Before (dep_At nd.2) before = false) (departed s)).

Definition addWorker (worker : Worker) (busy : bool) (s : workerState) : workerState :=
  with_workers s (<[RunnerName worker := mkWorkerRecord worker busy true zeroTime]> (workers s)).

Definition adoptWorker (worker : Worker) (s : workerState) : workerState :=
  with_workers s (<[RunnerName worker := mkWorkerRecord worker false false zeroTime]> (workers s)).

Definition countWorkers (s : workerState) : Z := Z.of_nat (size (workers s)).

(** How many records satisfy a test. *)
Definition countIf (p : workerRecord → bool) (s : workerState) : Z :=
  Z.of_nat (length (keep p ((map_to_list (workers s)).*2))).

Definition countScaleSet (id : Z) (s : workerState) : Z * Z :=
  (countIf (λ r, RunnerScaleSetID (wr_Worker r) =? id) s, countWorkers s).

(** [summary]: actual, busy, idle, unknown. *)
Definition summary (s : workerState) : Z * Z * Z * Z :=
  (countWorkers s,
   countIf (λ r, wr_Observed r && wr_Busy r) s,
   countIf (λ r, wr_Observed r && negb (wr_Busy r)) s,
   countIf (λ r, negb (wr_Observed r)) s).

(** [idleByStart]: busy, fast idle, slow idle among the included workers. *)
Definition idleByStart (include : Worker → bool) (fast : string → bool) (s : workerState)
    : Z * Z * Z :=
  let occupied r := wr_Busy r || negb (wr_Observed r) in
  (countIf (λ r, include (wr_Worker r) && occupied r) s,
   countIf (λ r, include (wr_Worker r) && negb (occupied r) && fast (ID (wr_Worker r))) s,
   countIf (λ r, include (wr_Worker r) && negb (occupied r) && negb (fast (ID (wr_Worker r)))) s).

Definition markBusy (name : string) (s : workerState) : bool * workerState :=
  match workers s !! name with
  | None => (false, s)
  | Some r => (true, with_workers s (<[name := mkWorkerRecord (wr_Worker r) true true zeroTime]> (workers s)))
  end.

Definition markMissing (name : string) (at_ : time) (s : workerState) : bool * workerState :=
  match workers s !! name with
  | None => (false, s)
  | Some r =>
      if IsZero (wr_MissingSince r) then
        (true, with_workers s
           (<[name := mkWorkerRecord (wr_Worker r) (wr_Busy r) (wr_Observed r) at_]> (workers s)))
      else (true, s)
  end.

Definition markPresent (name : string) (s : workerState) : workerState :=
  match workers s !! name with
  | None => s
  | Some r =>
      if IsZero (wr_MissingSince r) then s
      else with_workers s
             (<[name := mkWorkerRecord (wr_Worker r) (wr_Busy r) (wr_Observed r) zeroTime]> (workers s))
  end.

Definition getWorker (name : string) (s : workerState) : option workerRecord := workers s !! name.

Definition removeWorker (name : string) (s : workerState) : option workerRecord * workerState :=
  (workers s !! name, with_workers s (delete name (workers s))).

(** * Counting *)

Lemma countIf_split (p q : workerRecord → bool) s :
  countIf p s = countIf (λ r, p r && q r) s + countIf (λ r, p r && negb (q r)) s.
Proof.
  unfold countIf. induction ((map_to_list (workers s)).*2) as [|r l IH]; simpl; [done |].
  destruct (p r), (q r); simpl; lia.
Qed.

Lemma countIf_true s : countIf (λ _, true) s = countWorkers s.
Proof.
  unfold countIf, countWorkers. rewrite keep_all by done.
  by rewrite length_fmap, length_map_to_list.
Qed.

Lemma countIf_ext p q s : (∀ r, p r = q r) → countIf p s = countIf q s.
Proof. intros H. unfold countIf. f_equal. f_equal. by apply keep_ext. Qed.

Lemma countIf_nonneg p s : 0 <= countIf p s.
Proof. unfold countIf. lia. Qed.

Lemma countIf_le p s : countIf p s <= countWorkers s.
Proof.
  rewrite <- countIf_true, (countIf_split (λ _, true) p). simpl.
  pose proof (countIf_nonneg (λ r, negb (p r)) s). change (λ r, p r) with p. lia.
Qed.

(** The fleet splits into busy, idle and unknown workers. *)
Lemma summary_partition s :
  let '(actual, busy, idle, unknown) := summary s in actual = busy + idle + unknown.
Proof.
  unfold summary. pose proof (countIf_split (λ _, true) (λ r, wr_Observed r) s) as H1. simpl in H1.
  rewrite countIf_true in H1. pose proof (countIf_split (λ r, wr_Observed r) wr_Busy s) as H2.
  simpl in H2. lia.
Qed.

(** The included workers split into busy or unknown, fast idle, and slow idle. *)
Lemma idleByStart_partition include fast s :
  let '(busy, fastIdle, slowIdle) := idleByStart include fast s in
  busy + fastIdle + slowIdle = countIf (λ r, include (wr_Worker r)) s.
Proof.
  unfold idleByStart, countIf. induction ((map_to_list (workers s)).*2) as [|r l IH]; [done |].
  simpl. destruct (include (wr_Worker r)), (wr_Busy r), (wr_Observed r), (fast (ID (wr_Worker r)));
    simpl; lia.
Qed.

Lemma count_add worker busy s :
  countWorkers s <= countWorkers (addWorker worker busy s) <= countWorkers s + 1.
Proof.
  unfold countWorkers, addWorker. simpl. rewrite map_size_insert.
  destruct (workers s !! RunnerName worker); simpl; lia.
Qed.

Lemma count_adopt worker s :
  countWorkers s <= countWorkers (adoptWorker worker s) <= countWorkers s + 1.
Proof.
  unfold countWorkers, adoptWorker. simpl. rewrite map_size_insert.
  destruct (workers s !! RunnerName worker); simpl; lia.
Qed.

Lemma count_remove name s :
  countWorkers s - 1 <= countWorkers (removeWorker name s).2 <= countWorkers s.
Proof.
  unfold countWorkers, removeWorker. simpl. rewrite map_size_delete.
  destruct (workers s !! name) eqn:E; simpl; [|lia].
  assert (size (workers s) ≠ 0%nat); [|lia]. intros H%map_size_empty_inv. by rewrite H in E.
Qed.

(** * Departures *)

(** A completion is matched at most once: a departure is gone once taken. *)
Lemma takeDeparted_once name s : (takeDeparted name (takeDeparted name s).2).1 = None.
Proof. simpl. apply lookup_delete_eq. Qed.

(** A late stop is reported once: after [takeOverdue] nothing is overdue. *)
Lemma takeOverdue_once before s : (takeOverdue before (takeOverdue before s).2).1 = [].
Proof.
  simpl. assert (H : keep (isOverdue before)
    (map_to_list ((λ d, if isOverdue before d then stopAwaiting d else d) <$> departed s)).*2 = []).
  { unfold keep. rewrite map_to_list_fmap, <- list_fmap_compose.
    induction (map_to_list (departed s)) as [|[k d] l IH]; simpl; [done |].
    destruct (isOverdue before d) eqn:E; [exact IH | rewrite E; exact IH]. }
  by rewrite H.
Qed.

(** A worker remembered as stopped keeps its first stop time, so a retirement
    that is retried does not postpone the report of a lost completion. *)
Lemma markStopped_first record at_ awaiting s d :
  departed s !! RunnerName (wr_Worker record) = Some d → dep_Stopped d = true →
  markStopped record at_ awaiting s = s ∧ markDeparted record at_ s = s.
Proof. unfold markStopped, markDeparted, rememberedStopped. intros -> ->. done. Qed.
