(* ===== verification/GoStrings.v ===== *)
(** The parts of Go's [strings] package the source uses, on byte strings. *)

From Stdlib Require Import DecimalString DecimalN DecimalNat DecimalZ.
From S2P Require Import Prelude.

#[local] Open Scope string_scope.

(** [strings.ToLower], on the letters A to Z.  Letters of other scripts are left
    alone: no lower-case form of theirs occurs in the words the source compares
    the result with. *)
Definition lowerAscii (c : ascii) : ascii :=
  if byte_in "A"%char "Z"%char c then ascii_of_nat (nat_of_ascii c + 32) else c.

Fixpoint ToLower (s : string) : string :=
  match s with "" => "" | String c s => String (lowerAscii c) (ToLower s) end.

(** [unicode.IsSpace] in UTF-8: the ASCII spaces and the multi-byte ones. *)
Definition bytes (l : list nat) : string :=
  fold_right (λ n s, String (ascii_of_nat n) s) "" l.

Definition spaceRunes : list string :=
  map bytes
    (app [[9]; [10]; [11]; [12]; [13]; [32]; [194; 133]; [194; 160]; [225; 154; 128];
      [226; 128; 168]; [226; 128; 169]; [226; 128; 175]; [226; 129; 159]; [227; 128; 128]]
     (map (λ n, [226; 128; n]) (seq 128 11)))%nat.

Fixpoint revAppend (s acc : string) : string :=
  match s with "" => acc | String c s => revAppend s (String c acc) end.
Definition reverse (s : string) : string := revAppend s "".

(** [strings.CutPrefix]: the rest after the prefix. *)
Fixpoint CutPrefix (prefix s : string) : option string :=
  match prefix, s with
  | "", _ => Some s
  | String a p, String c s => if Ascii.eqb a c then CutPrefix p s else None
  | String _ _, "" => None
  end.

Definition HasPrefix (s prefix : string) : bool := bool_decide (is_Some (CutPrefix prefix s)).

Lemma CutPrefix_app (w s : string) : CutPrefix w (w +:+ s) = Some s.
Proof. induction w as [|c w IH]; simpl; [done |]. by rewrite Ascii.eqb_refl. Qed.

Lemma HasPrefix_app p x : HasPrefix (p +:+ x) p = true.
Proof. unfold HasPrefix. rewrite CutPrefix_app. reflexivity. Qed.

(** Drop one leading rune of the list, if there is one. *)
Fixpoint dropOne (runes : list string) (s : string) : option string :=
  match runes with
  | [] => None
  | r :: runes => match CutPrefix r s with Some rest => Some rest | None => dropOne runes s end
  end.

Fixpoint dropAll (fuel : nat) (runes : list string) (s : string) : string :=
  match fuel with
  | O => s
  | S fuel => match dropOne runes s with Some rest => dropAll fuel runes rest | None => s end
  end.

Definition trimLeft (runes : list string) (s : string) : string :=
  dropAll (String.length s) runes s.

(** [strings.TrimSpace] *)
Definition TrimSpace (s : string) : string :=
  reverse (trimLeft (map reverse spaceRunes) (reverse (trimLeft spaceRunes s))).

(** [strings.Join] *)
Definition Join (sep : string) (l : list string) : string := String.concat sep l.

(** [strings.CutSuffix] *)
Definition CutSuffix (suffix s : string) : option string :=
  reverse <$> CutPrefix (reverse suffix) (reverse s).

(** ** Decimal numbers *)

(** [strconv.Itoa], [%d] *)
Definition Itoa (z : Z) : string := NilZero.string_of_int (Z.to_int z).

(** [strconv.Atoi] and [strconv.ParseInt(s, 10, 64)] on a string of digits: the
    value, unless it does not fit. *)
Definition Atoi (digits : string) : option Z :=
  match NilEmpty.uint_of_string digits with
  | Some d => let z := Z.of_N (N.of_uint d) in
              if (String.eqb digits "") || (max_int64 <? z)%Z then None else Some z
  | None => None
  end.

Lemma Itoa_nonneg z : (0 <= z)%Z → Itoa z = NilZero.string_of_uint (N.to_uint (Z.to_N z)).
Proof. intros Hz. destruct z as [|p|p]; [reflexivity | reflexivity | lia]. Qed.

Lemma Itoa_uint z : (0 <= z)%Z → ∃ d, Itoa z = NilEmpty.string_of_uint d ∧ N.of_uint d = Z.to_N z ∧ d ≠ Decimal.Nil.
Proof.
  intros Hz. rewrite Itoa_nonneg by done.
  set (d := N.to_uint (Z.to_N z)). assert (Hd : d ≠ Decimal.Nil).
  { unfold d. destruct (Z.to_N z) as [|p]; [done |]. simpl. apply DecimalPos.Unsigned.to_uint_nonnil. }
  exists d. split_and!; [by destruct d | apply DecimalN.Unsigned.of_to | done].
Qed.

Lemma Atoi_Itoa z : (0 <= z <= max_int64)%Z → Atoi (Itoa z) = Some z.
Proof.
  intros Hz. destruct (Itoa_uint z) as (d & -> & Hd & Hne); [lia |].
  unfold Atoi. rewrite NilEmpty.usu, Hd, Z2N.id by lia.
  destruct (String.eqb_spec (NilEmpty.string_of_uint d) "") as [He|_]; [by destruct d |]. simpl.
  destruct (Z.ltb_spec max_int64 z); [lia | done].
Qed.

Lemma string_of_uint_digits d : string_forallb digit_byte (NilEmpty.string_of_uint d) = true.
Proof. induction d; simpl; auto. Qed.

Lemma Itoa_digits z : (0 <= z)%Z → string_forallb digit_byte (Itoa z) = true ∧ Itoa z ≠ "".
Proof.
  intros Hz. destruct (Itoa_uint z Hz) as (d & -> & _ & Hne).
  split; [apply string_of_uint_digits | by destruct d].
Qed.

Example TrimSpace_sample : TrimSpace (String "009"%char " Stopped  ") = "Stopped".
Proof. vm_compute. reflexivity. Qed.

(** * Concatenation *)

#[local] Arguments String.append !_ _ / : simpl nomatch.

Lemma append_assoc (a b c : string) : (a +:+ b) +:+ c = a +:+ (b +:+ c).
Proof. induction a as [|x a IH]; simpl; [done |]. by rewrite IH. Qed.

Lemma append_nil (a : string) : a +:+ "" = a.
Proof. induction a as [|x a IH]; simpl; [done |]. by rewrite IH. Qed.

Lemma forallb_app p (a b : string) :
  string_forallb p (a +:+ b) = string_forallb p a && string_forallb p b.
Proof. induction a as [|c a IH]; simpl; [done |]. by rewrite IH, andb_assoc. Qed.

Lemma forallb_impl (p q : ascii → bool) (s : string) :
  (∀ c, p c = true → q c = true) → string_forallb p s = true → string_forallb q s = true.
Proof.
  intros H. induction s as [|c s IH]; simpl; [done |]. rewrite !andb_true_iff. naive_solver.
Qed.

Lemma length_append a b : String.length (a +:+ b) = (String.length a + String.length b)%nat.
Proof. induction a; simpl; auto. Qed.
