(* ===== verification/GoText.v ===== *)
(** More of Go's [strings], [strconv], [filepath] and [time]: splitting and searching,
    signed numbers, floats, clean paths and RFC 3339 instants.  And what the sources use
    of [net], [net/url], [encoding/hex], [encoding/base64] and [encoding/json]: escaped
    path segments, addresses, and the text of JSON documents. *)

From Stdlib Require Import DecimalString.
From S2P Require Import Float64 Prelude GoStrings.

#[local] Open Scope string_scope.
#[local] Open Scope Z_scope.

(** * Splitting and searching *)

(** [strings.Split] on a one-byte separator. *)
Fixpoint splitOn (sep : ascii) (s : string) : list string :=
  match s with
  | "" => [""]
  | String c s =>
    if Ascii.eqb c sep then "" :: splitOn sep s
    else match splitOn sep s with
         | part :: parts => String c part :: parts
         | [] => [String c ""]
         end
  end.

Fixpoint containsByte (sep : ascii) (s : string) : bool :=
  match s with "" => false | String c s => Ascii.eqb c sep || containsByte sep s end.

(** [strings.Cut] on a one-byte separator. *)
Fixpoint Cut (sep : ascii) (s : string) : option (string * string) :=
  match s with
  | "" => None
  | String c s =>
    if Ascii.eqb c sep then Some ("", s)
    else match Cut sep s with Some (a, b) => Some (String c a, b) | None => None end
  end.

(** [strings.Contains] *)
Fixpoint Contains (s substr : string) : bool :=
  HasPrefix s substr || match s with "" => false | String _ s => Contains s substr end.

Definition TrimPrefix (s prefix : string) : string := default s (CutPrefix prefix s).

(** [strings.ReplaceAll] of one byte by another. *)
Fixpoint replaceByte (old new : ascii) (s : string) : string :=
  match s with
  | "" => ""
  | String c s => String (if Ascii.eqb c old then new else c) (replaceByte old new s)
  end.

(** [strings.Fields], with the bytes of the current field in reverse. *)
Definition flushField (field : string) : list string :=
  if String.eqb field "" then [] else [reverse field].

Fixpoint fieldsFrom (fuel : nat) (field s : string) : list string :=
  match fuel, s with
  | O, _ | _, "" => flushField field
  | S fuel, String c rest =>
    match dropOne spaceRunes s with
    | Some rest => app (flushField field) (fieldsFrom fuel "" rest)
    | None => fieldsFrom fuel (String c field) rest
    end
  end.

Definition Fields (s : string) : list string := fieldsFrom (S (String.length s)) "" s.

Example Fields_sample : Fields "  start 3  " = ["start"; "3"].
Proof. reflexivity. Qed.

Lemma splitOn_none sep s : containsByte sep s = false → splitOn sep s = [s].
Proof.
  induction s as [|c s IH]; simpl; [done |]. rewrite orb_false_iff. intros [-> H]. by rewrite IH.
Qed.

Lemma splitOn_app sep a b :
  containsByte sep a = false → splitOn sep (a +:+ String sep b) = a :: splitOn sep b.
Proof.
  induction a as [|c a IH]; simpl; [by rewrite Ascii.eqb_refl |].
  rewrite orb_false_iff. intros [-> H]. by rewrite IH.
Qed.

Lemma Cut_app sep a b : containsByte sep a = false → Cut sep (a +:+ String sep b) = Some (a, b).
Proof.
  induction a as [|c a IH]; simpl; [by rewrite Ascii.eqb_refl |].
  rewrite orb_false_iff. intros [-> H]. by rewrite IH.
Qed.

Lemma containsByte_forallb sep p s :
  p sep = false → string_forallb p s = true → containsByte sep s = false.
Proof.
  intros Hp. induction s as [|c s IH]; simpl; [done |]. rewrite andb_true_iff. intros [Hc Hs].
  rewrite IH by done. destruct (Ascii.eqb_spec c sep) as [->|]; [congruence | done].
Qed.

(** * Numbers *)

(** [strconv.ParseInt(s, 10, 64)] and [strconv.Atoi]: the value, clamped when it
    is out of range, and whether there was no error. *)
Definition ParseInt (s : string) : Z * bool :=
  let '(negative, digits) :=
    match s with
    | String "+" rest => (false, rest)
    | String "-" rest => (true, rest)
    | _ => (false, s)
    end in
  if String.eqb digits "" then (0, false)
  else match NilEmpty.uint_of_string digits with
  | None => (0, false)
  | Some d =>
    let z := Z.of_N (N.of_uint d) in
    if negative then if 2 ^ 63 <? z then (min_int64, false) else (- z, true)
    else if max_int64 <? z then (max_int64, false) else (z, true)
  end.

Example ParseInt_samples :
  map ParseInt ["12"; "+7"; "-3"; ""; "1x"; "-"; "9223372036854775808"]
  = [(12, true); (7, true); (-3, true); (0, false); (0, false); (0, false); (max_int64, false)].
Proof. reflexivity. Qed.

Lemma ParseInt_Itoa z : 0 <= z <= max_int64 → ParseInt (Itoa z) = (z, true).
Proof.
  intros Hz. destruct (Itoa_uint z) as (d & -> & Hd & Hne); [lia |]. unfold ParseInt.
  assert (Hs : ∀ A (f g : string → A) h, (match NilEmpty.string_of_uint d with
            | String "+" rest => f rest | String "-" rest => g rest | _ => h end) = h)
    by (intros; by destruct d).
  rewrite Hs. rewrite NilEmpty.usu, Hd, Z2N.id by lia.
  destruct (String.eqb_spec (NilEmpty.string_of_uint d) "") as [He|_]; [by destruct d |].
  destruct (Z.ltb_spec max_int64 z); [lia | done].
Qed.

(** Left-padded with zeros to [width] bytes. *)
Definition padLeft (width : nat) (s : string) : string :=
  String.concat "" (repeat "0" (width - String.length s)%nat) +:+ s.

(** [strconv.FormatFloat(x, 'f', -1, 64)] for [x >= 0]: the fewest decimals that
    read back as [x]. *)
Definition f64_eqb (x y : f64) : bool := f64_le x y && f64_le y x.

Fixpoint formatDecimals (fuel : nat) (decimals : nat) (x : f64) : string :=
  let ten := 10 ^ Z.of_nat decimals in
  let n := if 0 <=? exponent x then mantissa x * 2 ^ exponent x * ten
           else round_div (mantissa x * ten) (2 ^ (- exponent x)) in
  let text := if Nat.eqb decimals 0 then Itoa n
              else Itoa (n / ten) +:+ "." +:+ padLeft decimals (Itoa (n mod ten)) in
  match fuel with
  | O => text
  | S fuel => if f64_eqb (of_ratio n ten) x then text else formatDecimals fuel (S decimals) x
  end.

Definition FormatFloat (x : f64) : string := formatDecimals 1100 0 x.

Example FormatFloat_samples :
  map FormatFloat [f64_of_int 2; of_ratio 5 2; of_ratio 1 10; of_ratio 1 3]
  = ["2"; "2.5"; "0.1"; "0.3333333333333333"].
Proof. vm_compute. reflexivity. Qed.

(** * Paths *)

(** [filepath.Clean]: the elements kept so far, the last one first. *)
Definition cleanElement (rooted : bool) (kept : list string) (element : string) : list string :=
  if String.eqb element "" || String.eqb element "." then kept
  else if String.eqb element ".." then
    match kept with
    | [] => if rooted then [] else [".."]
    | last :: rest => if String.eqb last ".." then ".." :: kept else rest
    end
  else element :: kept.

Definition Clean (path : string) : string :=
  let rooted := HasPrefix path "/" in
  let kept := Join "/" (rev (fold_left (cleanElement rooted) (splitOn "/" path) [])) in
  if rooted then "/" +:+ kept else if String.eqb kept "" then "." else kept.

Example Clean_samples :
  map Clean ["/opt/a"; "/opt//a/"; "/opt/../a"; "/.."; "a/./b/.."; ""; "../x"]
  = ["/opt/a"; "/opt/a"; "/a"; "/"; "a"; "."; "../x"].
Proof. reflexivity. Qed.

(** * Instants *)

(** Year, month and day of a day counted from January 1, year 1: years of 365.2425
    days that begin in March, in eras of 400. *)
Definition civil (day : Z) : Z * Z * Z :=
  let z := day + 306 in
  let era := z / 146097 in
  let doe := z mod 146097 in
  let yoe := (doe - doe / 1460 + doe / 36524 - doe / 146096) / 365 in
  let doy := doe - (365 * yoe + yoe / 4 - yoe / 100) in
  let mp := (5 * doy + 2) / 153 in
  let month := if mp <? 10 then mp + 3 else mp - 9 in
  (yoe + era * 400 + (if month <=? 2 then 1 else 0), month, doy - (153 * mp + 2) / 5 + 1).

Definition padNumber (width : nat) (z : Z) : string :=
  if z <? 0 then "-" +:+ padLeft width (Itoa (- z)) else padLeft width (Itoa z).

(** [t.UTC().Format(time.RFC3339)] *)
Definition FormatRFC3339 (t : time) : string :=
  let s := t / Second in
  let '(year, month, day) := civil (s / 86400) in
  let clock := s mod 86400 in
  padNumber 4 year +:+ "-" +:+ padNumber 2 month +:+ "-" +:+ padNumber 2 day +:+ "T"
  +:+ padNumber 2 (clock / 3600) +:+ ":" +:+ padNumber 2 (clock / 60 mod 60) +:+ ":"
  +:+ padNumber 2 (clock mod 60) +:+ "Z".

Example FormatRFC3339_samples :
  map FormatRFC3339 [zeroTime; UnixTime 0; UnixTime 1709164800; UnixTime 1798761599 + 999]
  = ["0001-01-01T00:00:00Z"; "1970-01-01T00:00:00Z"; "2024-02-29T00:00:00Z"; "2026-12-31T23:59:59Z"].
Proof. vm_compute. reflexivity. Qed.

(** * Fields of plain text *)

(** A byte no space begins with. *)
Definition startsNoSpace (c : ascii) : bool :=
  forallb (λ r, match r with "" => false | String d _ => negb (Ascii.eqb d c) end) spaceRunes.

Lemma dropOne_none c s : startsNoSpace c = true → dropOne spaceRunes (String c s) = None.
Proof.
  unfold startsNoSpace. generalize spaceRunes. intros runes.
  induction runes as [|r runes IH]; simpl; [done |]. rewrite andb_true_iff. intros [Hr Hrs].
  destruct r as [|d r]; [done |]. simpl. apply negb_true_iff in Hr. rewrite Hr. auto.
Qed.

Lemma revAppend_app s t acc : revAppend (revAppend s t) acc = revAppend t (s +:+ acc).
Proof. revert t acc. induction s as [|c s IH]; intros t acc; [done |]. cbn [revAppend]. by rewrite IH. Qed.

Lemma fieldsFrom_last fuel field s :
  (String.length s < fuel)%nat → string_forallb startsNoSpace s = true →
  fieldsFrom fuel field s = flushField (revAppend s field).
Proof.
  revert fuel field. induction s as [|c s IH]; intros fuel field Hf; simpl.
  { destruct fuel; [lia | done]. }
  rewrite andb_true_iff. intros [Hc Hs]. destruct fuel as [|fuel]; [simpl in Hf; lia |].
  cbn [fieldsFrom]. rewrite dropOne_none by done. apply IH; [simpl in Hf; lia | done].
Qed.

Lemma digit_startsNoSpace s : string_forallb digit_byte s = true → string_forallb startsNoSpace s = true.
Proof.
  induction s as [|c s IH]; simpl; [done |]. rewrite !andb_true_iff. intros [Hc Hs]. split; [|auto].
  destruct c as [[] [] [] [] [] [] [] []]; by vm_compute in Hc |- *.
Qed.

Lemma append_nil_r s : s +:+ "" = s.
Proof. induction s as [|c s IH]; [done |]. exact (f_equal (String c) IH). Qed.

Lemma flushField_word s : s ≠ "" → flushField (revAppend s "") = [s].
Proof.
  intros Hs. unfold flushField, reverse.
  destruct (String.eqb_spec (revAppend s "") "") as [He|_]; [|by rewrite revAppend_app; cbn; rewrite append_nil_r].
  apply (f_equal (λ x, revAppend x "")) in He. rewrite revAppend_app in He. cbn in He.
  by rewrite append_nil_r in He.
Qed.

Lemma fieldsFrom_word verb rest field n :
  string_forallb startsNoSpace verb = true →
  fieldsFrom (S (String.length verb + n)) field (verb +:+ String " " rest)
  = app (flushField (revAppend verb field)) (fieldsFrom n "" rest).
Proof.
  revert field. induction verb as [|c verb IH]; intros field.
  { intros _. change ("" +:+ String " " rest) with (String " " rest). cbn [String.length Nat.add fieldsFrom].
    by replace (dropOne spaceRunes (String " " rest)) with (Some rest) by reflexivity. }
  cbn [String.length Nat.add].
  cbn [string_forallb]. rewrite andb_true_iff. intros [Hc Hv].
  change (String c verb +:+ String " " rest) with (String c (verb +:+ String " " rest)).
  cbn [fieldsFrom]. rewrite dropOne_none by done. cbn [revAppend]. rewrite <- IH by done. done.
Qed.

(** A word, a space, and a number. *)
Lemma Fields_number verb z :
  string_forallb startsNoSpace verb = true → verb ≠ "" → 0 <= z →
  Fields (verb +:+ String " " (Itoa z)) = [verb; Itoa z].
Proof.
  intros Hv Hne Hz. destruct (Itoa_digits z Hz) as [Hd Hnz]. apply digit_startsNoSpace in Hd. unfold Fields.
  replace (String.length (verb +:+ String " " (Itoa z)))
    with (String.length verb + S (String.length (Itoa z)))%nat.
  2:{ clear. induction verb as [|c verb IH]; simpl; [done |]. by rewrite IH. }
  rewrite fieldsFrom_word, flushField_word, fieldsFrom_last, flushField_word by (done || lia). done.
Qed.

(** ** [filepath.Dir], and [filepath.Join] with one file name *)

(** The path up to its last slash, and the rest. *)
Fixpoint splitLast (s : string) : string * string :=
  match s with
  | "" => ("", "")
  | String c rest =>
    let '(dir, base) := splitLast rest in
    if containsByte "/" rest then (String c dir, base)
    else if Ascii.eqb c "/" then ("/", rest) else ("", s)
  end.
Definition Dir (path : string) : string := Clean (splitLast path).1.
Definition JoinPath (dir name : string) : string := Clean (dir +:+ "/" +:+ name).

Example Dir_samples : map Dir ["/data/budget.json"; "budget.json"; "/x"; "a/b/"] = ["/data"; "."; "/"; "a/b"].
Proof. reflexivity. Qed.

(** * Addresses, bytes in text, JSON *)

#[local] Open Scope string_scope.
#[local] Open Scope Z_scope.

(** * Bytes in hexadecimal and base 64 *)

Definition nth_byte (table : string) (n : nat) : string :=
  match String.get n table with Some c => String c "" | None => "" end.

Definition lowerHex : string := "0123456789abcdef".
Definition upperHex : string := "0123456789ABCDEF".

Definition hexByte (table : string) (c : ascii) : string :=
  nth_byte table (nat_of_ascii c / 16) +:+ nth_byte table (nat_of_ascii c mod 16).

(** [hex.EncodeToString] *)
Fixpoint HexEncode (s : string) : string :=
  match s with "" => "" | String c s => hexByte lowerHex c +:+ HexEncode s end.

Definition base64Table : string := "ABCDEFGHIJKLMNOPQRSTUVWXYZabcdefghijklmnopqrstuvwxyz0123456789+/".

(** [base64.StdEncoding.EncodeToString] *)
Fixpoint Base64 (s : string) : string :=
  let digit (n : Z) := nth_byte base64Table (Z.to_nat (n mod 64)) in
  let code (c : ascii) := Z.of_nat (nat_of_ascii c) in
  match s with
  | "" => ""
  | String a "" => digit (code a / 4) +:+ digit (code a * 16) +:+ "=="
  | String a (String b "") =>
      digit (code a / 4) +:+ digit (code a * 16 + code b / 16) +:+ digit (code b * 4) +:+ "="
  | String a (String b (String c s)) =>
      digit (code a / 4) +:+ digit (code a * 16 + code b / 16)
      +:+ digit (code b * 4 + code c / 64) +:+ digit (code c) +:+ Base64 s
  end.

Example Base64_samples :
  map Base64 [""; "f"; "fo"; "foo"; "foob"; "fooba"; "foobar"]
  = [""; "Zg=="; "Zm8="; "Zm9v"; "Zm9vYg=="; "Zm9vYmE="; "Zm9vYmFy"].
Proof. reflexivity. Qed.

(** * URLs and addresses *)

Definition letter_byte (c : ascii) : bool := byte_in "A"%char "Z"%char c || lower_byte c.

(** Bytes a path segment holds as they are. *)
Definition segmentByte (c : ascii) : bool :=
  letter_byte c || digit_byte c || containsByte c "-_.~$&+=:@".

(** [url.PathEscape] *)
Fixpoint PathEscape (s : string) : string :=
  match s with
  | "" => ""
  | String c s => (if segmentByte c then String c "" else "%" +:+ hexByte upperHex c) +:+ PathEscape s
  end.

(** [strings.TrimRight(s, "/")] *)
Fixpoint TrimRightSlash (s : string) : string :=
  match s with
  | "" => ""
  | String c s =>
    let rest := TrimRightSlash s in
    if String.eqb rest "" && Ascii.eqb c "/" then "" else String c rest
  end.

(** [net.JoinHostPort] *)
Definition JoinHostPort (host port : string) : string :=
  if containsByte ":" host || containsByte "%" host then "[" +:+ host +:+ "]:" +:+ port
  else host +:+ ":" +:+ port.

Example net_samples :
  (PathEscape "a b/c", TrimRightSlash "https://x//", JoinHostPort "fdaa::1" "22")
  = ("a%20b%2Fc", "https://x", "[fdaa::1]:22").
Proof. reflexivity. Qed.

Lemma PathEscape_plain s : string_forallb segmentByte s = true → PathEscape s = s.
Proof.
  induction s as [|c s IH]; [done |]. cbn [string_forallb PathEscape]. rewrite andb_true_iff.
  intros [-> Hs]. rewrite IH by done. done.
Qed.

(** * JSON texts *)

Definition between (lo hi : nat) (c : ascii) : bool :=
  ((lo <=? nat_of_ascii c) && (nat_of_ascii c <=? hi))%nat.

(** The bytes of the valid UTF-8 sequence a text begins with: none when it begins
    with none. *)
Definition runeWidth (s : string) : nat :=
  let tail := between 128 191 in
  match s with
  | "" => 0%nat
  | String a s1 =>
    if between 0 127 a then 1%nat
    else match s1 with
    | "" => 0%nat
    | String b s2 =>
      if between 194 223 a then if tail b then 2%nat else 0%nat
      else
      let second := if between 224 224 a then between 160 191 b
                    else if between 237 237 a then between 128 159 b
                    else if between 240 240 a then between 144 191 b
                    else if between 244 244 a then between 128 143 b
                    else tail b in
      match s2 with
      | "" => 0%nat
      | String c s3 =>
        if between 224 239 a then if second && tail c then 3%nat else 0%nat
        else match s3 with
        | "" => 0%nat
        | String d _ => if between 240 244 a && second && tail c && tail d then 4%nat else 0%nat
        end
      end
    end
  end.

Definition quoteAscii (c : ascii) : string :=
  let n := nat_of_ascii c in
  if Nat.eqb n 34 then bytes [92; 34]%nat
  else if Nat.eqb n 92 then "\\"
  else if Nat.eqb n 8 then "\b" else if Nat.eqb n 12 then "\f" else if Nat.eqb n 10 then "\n"
  else if Nat.eqb n 13 then "\r" else if Nat.eqb n 9 then "\t"
  else if (n <? 32)%nat || containsByte c "<>&" then "\u00" +:+ hexByte lowerHex c
  else String c "".

(** A string as [json.Marshal] writes it, without its quotes. *)
Fixpoint quoteFrom (fuel : nat) (s : string) : string :=
  match fuel, s with
  | O, _ | _, "" => ""
  | S fuel, String c rest =>
    match runeWidth s with
    | O => "\ufffd" +:+ quoteFrom fuel rest
    | 1%nat => quoteAscii c +:+ quoteFrom fuel rest
    | n =>
      let rune := String.substring 0 n s in
      (if String.eqb rune (bytes [226; 128; 168]%nat) then "\u2028"
       else if String.eqb rune (bytes [226; 128; 169]%nat) then "\u2029" else rune)
      +:+ quoteFrom fuel (String.substring n (String.length s) s)
    end
  end.

Definition dquote : string := bytes [34]%nat.
Definition quoteJSON (s : string) : string := dquote +:+ quoteFrom (String.length s) s +:+ dquote.

Inductive json :=
  | JBool (b : bool)
  | JString (s : string)
  | JArray (items : list json)
  | JObject (fields : list (string * json)).

(** [json.Marshal], for a document whose objects list their fields in order. *)
Fixpoint Marshal (j : json) : string :=
  match j with
  | JBool b => if b then "true" else "false"
  | JString s => quoteJSON s
  | JArray items => "[" +:+ Join "," (map Marshal items) +:+ "]"
  | JObject fields =>
      "{" +:+ Join "," (map (λ f, quoteJSON f.1 +:+ ":" +:+ Marshal f.2) fields) +:+ "}"
  end.

Example Marshal_sample :
  Marshal (JObject [("a<", JString ("x" +:+ bytes [10; 34; 255; 195; 169]%nat)); ("b", JArray [JBool true])])
  = "{" +:+ dquote +:+ "a\u003c" +:+ dquote +:+ ":" +:+ dquote +:+ "x\n\" +:+ dquote +:+ "\ufffd"
    +:+ bytes [195; 169]%nat +:+ dquote +:+ "," +:+ dquote +:+ "b" +:+ dquote +:+ ":[true]}".
Proof. vm_compute. reflexivity. Qed.
