(* ===== verification/Scaler.v ===== *)
(** The scaler (src/controller/scaler.go, src/controller/scale_sets.go): one
    handler per GitHub message, which launches, reconciles and retires workers.

    The record [scaler] is the mutable state of the source's [scaler] struct:
    worker state, usage budget, retirement journal, launch gate, the calls the
    status reporter received ([reports]) and the world outside the process
    ([world]).  [trace] is the history of the calls that matter to somebody
    else's state; events that depend on the journal carry what it held at that
    moment.  Everything outside the repository (clock, UUIDs, compute provider,
    GitHub, file system outcomes, goroutine scheduling) is a field of [Env].
    Log lines carry no state and are left out; a map is iterated in the order
    of [map_to_list], and no property depends on that order. *)

From S2P Require Import Prelude Program GoStrings Provider UsageBudget RetirementQueue.
From S2P Require Import WorkerState.

(** * Outside the process *)

(** [scaleset.RunnerReference] *)
Record RunnerReference := mkRunnerReference {
  rr_ID : Z; rr_Name : string; rr_RunnerScaleSetID : Z
}.

(** [scaleset.RunnerScaleSetJitRunnerConfig] *)
Record JitRunnerConfig := mkJitRunnerConfig {
  jit_Runner : option RunnerReference; EncodedJITConfig : string
}.

(** The compute a launch goes through: the fleet's, the ephemeral tier alone, or
    [LaunchSpare] of a [provider.Speculator]. *)
Inductive launchTarget := FleetCompute | EphemeralCompute | SpareRoomCompute.

Class Env (W : Type) := mkEnv {
  (* time.Now *)
  env_now : W → time * W;
  (* the n-th uuid.NewString of the process *)
  env_uuid : nat → string;
  (* provider.Compute *)
  env_Inventory : W → (error + list Worker) * W;
  env_Destroy : string → W → option error * W;
  env_Launch : launchTarget → Lease → W → (error + Worker) * W;
  (* provider.Speculator, when the compute implements it *)
  env_speculates : bool;
  env_SpareRoom : W → Z * W;
  env_Fast : W → string → bool;
  (* runnerScaleSetClient *)
  env_GetRunnerByName : string → W → (error + option RunnerReference) * W;
  env_GenerateJit : string → Z → W → (error + option JitRunnerConfig) * W;
  env_RemoveRunner : Z → W → option error * W;
  (* outcomes of the system calls of the two state files *)
  env_persistIO : W → persistIO * W;
  env_journalIO : W → journalIO * W;
  (* which launch goroutine runs next, a finite prefix of the choices *)
  env_schedule : W → list nat * W
}.

(** * State *)

(** [scaleSetRoute] *)
Record scaleSetRoute := mkScaleSetRoute {
  route_name : string; route_id : Z; route_minWorkers : Z; route_launch : launchTarget
}.

(** The fields of [scaler] fixed at construction. *)
Record scalerConfig := mkScalerConfig {
  scaleSetName : string;
  scaleSetID : Z;
  minWorkers : Z;
  maxWorkers : Z;
  launchConcurrency : Z;
  maxLifetime : duration;
  idleTimeout : duration;
  danglingTimeout : duration;
  ephemeral : option scaleSetRoute
}.

(** [capacityKind], ..., [capacityBackoff], with the wake-up channel (nil, or a
    one-token buffer) and the armed timer. *)
Record launchGate := mkLaunchGate {
  capacityKind : string;
  capacityEffective : Z;
  capacityReason : string;
  capacityRetryAt : time;
  capacityBackoff : duration;
  probeWake : option bool;
  probeTimer : option duration
}.

Definition openGate (wake : option bool) : launchGate := mkLaunchGate "" 0 "" zeroTime 0 wake None.

(** The methods of the status reporter the scaler calls. *)
Inductive report :=
  | r_desired (name : string) (assigned target : Z)
  | r_degraded (reason : string)
  | r_recovered
  | r_orphans (n : Z)
  | r_workers (actual busy idle unknown : Z)
  | r_scaleSetWorkers (name : string) (n : Z)
  | r_retirements (pending overdue : Z)
  | r_budget (b : BudgetStatus)
  | r_starting (delta : Z)
  | r_latency (launch : bool) (d : duration) (failed : bool)
  | r_githubActivity (kind : string)
  | r_capacityRejected (effective : Z) (reason : string) (retryAt : time)
  | r_capacityRecovered
  | r_launchRejected (reason : string) (retryAt : time)
  | r_launchRecovered.

(** What the scaler did to state it shares with others, newest first. *)
Inductive event :=
  (* the ledger on disk once a reservation was admitted *)
  | Reserved (lease : string) (ledger : content)
  (* the entry the journal holds after a successful put *)
  | Journaled (e : retirementEntry)
  (* an answer of GetRunnerByName *)
  | Looked (name : string) (r : option RunnerReference)
  (* a call of GenerateJitRunnerConfig, with the journal at that moment *)
  | Registering (name : string) (scaleSet : Z) (q : retirementQueue)
  (* a call of Launch, with the journal at that moment *)
  | Launching (target : launchTarget) (l : Lease) (q : retirementQueue)
  (* a call of Destroy, with the journal at that moment *)
  | Destroying (w : Worker) (q : retirementQueue)
  (* a call of RemoveRunner for a runner name, and whether it succeeded *)
  | Removing (name : string) (id : Z) (ok : bool).

Record scaler (W : Type) := mkScaler {
  state : workerState;
  budget : usageBudget;
  retirements : retirementQueue;
  gate : launchGate;
  reports : list report;
  trace : list event;
  drawn : nat;
  world : W
}.
Arguments mkScaler {W} _ _ _ _ _ _ _ _.
Arguments state {W} _.
Arguments budget {W} _.
Arguments retirements {W} _.
Arguments gate {W} _.
Arguments reports {W} _.
Arguments trace {W} _.
Arguments drawn {W} _.
Arguments world {W} _.

Definition gateCapacity : string := "capacity".
Definition gateLaunch : string := "launch".
Definition workerTeardownGrace : duration := 15 * Second.
Definition capacityInitialBackoff : duration := Minute.
Definition capacityMinimumRetry : duration := 5 * Second.
Definition capacityMaximumBackoff : duration := 15 * Minute.
Definition retirementGrace : duration := 15 * Minute.
Definition departureMemory : duration := Hour.
Definition inventoryAbsenceGrace : duration := 30 * Second.
Definition stoppedCompletionGrace : duration := 5 * Minute.

(** * Pure parts *)

Definition classifyLaunchFailure (err : error) : error :=
  if IsTransient err || IsCapacity err then err
  else
  match errors_as as_status err with
  | Some (prov, status) =>
      if (status =? 401) || (status =? 403) then err
      else launchRejectedError (prov ++ "_status_" ++ Itoa status) err
  | None => launchRejectedError "provider_launch_rejected" err
  end.

Definition isHandlerFailure (err : error) : bool :=
  bool_decide (is_Some (errors_as as_handlerFailure err)).

Definition failClosed (err : option error) : option error :=
  match err with
  | None => None
  | Some err => if isHandlerFailure err then Some err else Some (handlerFailure err)
  end.

Definition workerStoppedAt (finished : time) : time :=
  if IsZero finished then zeroTime else Add finished workerTeardownGrace.

Definition launchRejectionReason (err : error) : string :=
  match errors_as as_rejected err with
  | Some reason => if String.eqb reason "" then "provider_launch_rejected" else reason
  | None => "provider_launch_rejected"
  end.

(** [d.Round(time.Second)]: half a second away from zero. *)
Definition RoundSecond (d : duration) : duration :=
  let r := Z.rem d Second in
  if d <? 0 then
    let r := - r in
    if r + r <? Second then d + r else Z.max min_int64 (d - Second + r)
  else if r + r <? Second then d - r
  else Z.min max_int64 (d + Second - r).

Definition workerStopped (st : string) : bool :=
  let st := ToLower (TrimSpace st) in
  existsb (String.eqb st) ["stopped"; "off"; "failed"; "destroyed"; "suspended"].

Definition orphanCandidateCount (workers : list Worker) (local : gmap string workerRecord)
    (maximumLifetime : duration) (now : time) : Z :=
  let known id := existsb (λ r, String.eqb (ID (wr_Worker r)) id) ((map_to_list local).*2) in
  let expired w := negb (IsZero (CreatedAt w)) && (maximumLifetime <? Sub now (CreatedAt w)) in
  let invalid w := String.eqb (ID w) "" || String.eqb (LeaseID w) ""
                   || String.eqb (RunnerName w) "" || IsZero (CreatedAt w) in
  Z.of_nat (length (keep (λ w, negb (known (ID w)) || expired w || invalid w) workers)).

Definition validateWorkerRetirementProof (worker : Worker) (retirement : retirementEntry)
    : option error :=
  if negb (String.eqb (RunnerName worker) (re_RunnerName retirement))
     || negb (String.eqb (LeaseID worker) (re_LeaseID retirement)) then
    Some (ErrorString "provider worker identity does not match retirement proof")
  else if negb (RunnerID worker =? 0) && negb (re_RunnerID retirement =? 0)
          && negb (RunnerID worker =? re_RunnerID retirement) then
    Some (ErrorString "provider worker registration id does not match retirement proof")
  else if negb (RunnerScaleSetID worker =? 0)
          && negb (RunnerScaleSetID worker =? re_RunnerScaleSetID retirement) then
    Some (ErrorString "provider worker scale set does not match retirement proof")
  else None.

(** ** The launch gate *)

Definition launchGateOpen (g : launchGate) : bool := String.eqb (capacityReason g) "".

(** [capacityAllowance]; [now] is the clock of the gate. *)
Definition capacityAllowance (current target : Z) (now : time) (g : launchGate) : Z * bool :=
  let requested := Z.max 0 (target - current) in
  if (requested =? 0) || String.eqb (capacityReason g) "" then (requested, false)
  else if current <? capacityEffective g then
    (Z.min requested (capacityEffective g - current), false)
  else if Before now (capacityRetryAt g) then (0, false)
  else (Z.min 1 requested, true).

(** [stopProbeLocked]: a pending token is dropped, a nil channel has none. *)
Definition stopProbeLocked (g : launchGate) : launchGate :=
  mkLaunchGate (capacityKind g) (capacityEffective g) (capacityReason g) (capacityRetryAt g)
    (capacityBackoff g) ((λ _, false) <$> probeWake g) None.

Definition scheduleProbeLocked (wait : duration) (g : launchGate) : launchGate :=
  match probeWake g with
  | None => g
  | Some _ =>
    let g := stopProbeLocked g in
    mkLaunchGate (capacityKind g) (capacityEffective g) (capacityReason g) (capacityRetryAt g)
      (capacityBackoff g) (probeWake g) (Some wait)
  end.

(** The timer's function: send a token unless one is waiting. *)
Definition fireProbe (g : launchGate) : launchGate :=
  match probeTimer g with
  | None => g
  | Some _ =>
    mkLaunchGate (capacityKind g) (capacityEffective g) (capacityReason g) (capacityRetryAt g)
      (capacityBackoff g) ((λ _, true) <$> probeWake g) None
  end.

(** The switch of [recordLaunchGate]: how long to wait, and the new backoff. *)
Definition gateWait (kind : string) (hint backoff : duration) : duration * duration :=
  if String.eqb kind gateCapacity && (0 <? hint) then
    (Z.min (Z.max hint capacityMinimumRetry) capacityMaximumBackoff, backoff)
  else if backoff =? 0 then (capacityInitialBackoff, capacityInitialBackoff)
  else let b := Z.min (wrap64 (backoff * 2)) capacityMaximumBackoff in (b, b).

(** The critical section of [recordLaunchGate]. *)
Definition closeGate (kind reason : string) (effective : Z) (hint : duration) (now : time)
    (g : launchGate) : launchGate :=
  let '(wait, backoff) := gateWait kind hint (capacityBackoff g) in
  scheduleProbeLocked wait
    (mkLaunchGate kind effective reason (Add now wait) backoff (probeWake g) (probeTimer g)).

(** The critical section of [clearLaunchGate]. *)
Definition resetGate (g : launchGate) : launchGate :=
  stopProbeLocked (mkLaunchGate "" 0 "" zeroTime 0 (probeWake g) (probeTimer g)).

(** * Handlers *)

Section scaler.
Context {W : Type} {E : Env W} (cfg : scalerConfig).
Abbreviation P := (prog (scaler W)).

Definition with_state (f : workerState → workerState) (s : scaler W) : scaler W :=
  mkScaler (f (state s)) (budget s) (retirements s) (gate s) (reports s) (trace s) (drawn s) (world s).
Definition with_budget (b : usageBudget) (s : scaler W) : scaler W :=
  mkScaler (state s) b (retirements s) (gate s) (reports s) (trace s) (drawn s) (world s).
Definition with_retirements (q : retirementQueue) (s : scaler W) : scaler W :=
  mkScaler (state s) (budget s) q (gate s) (reports s) (trace s) (drawn s) (world s).
Definition with_gate (f : launchGate → launchGate) (s : scaler W) : scaler W :=
  mkScaler (state s) (budget s) (retirements s) (f (gate s)) (reports s) (trace s) (drawn s) (world s).
Definition with_world (w : W) (s : scaler W) : scaler W :=
  mkScaler (state s) (budget s) (retirements s) (gate s) (reports s) (trace s) (drawn s) w.
Definition log (e : event) (s : scaler W) : scaler W :=
  mkScaler (state s) (budget s) (retirements s) (gate s) (reports s) (e :: trace s) (drawn s) (world s).

(** ** Single calls *)

Definition report_ (r : report) : P () := update (λ s,
  mkScaler (state s) (budget s) (retirements s) (gate s) (r :: reports s) (trace s) (drawn s) (world s)).

(** A call to the outside that is not part of the trace. *)
Definition ask {A} (f : W → A * W) : P A :=
  act (λ s, let '(a, w) := f (world s) in (a, with_world w s)).

Definition now : P time := ask env_now.
Definition Inventory : P (error + list Worker) := ask env_Inventory.

Definition newUUID : P string := act (λ s,
  (env_uuid (drawn s),
   mkScaler (state s) (budget s) (retirements s) (gate s) (reports s) (trace s) (S (drawn s)) (world s))).

Definition Destroy (worker : Worker) : P (option error) := act (λ s,
  let '(r, w) := env_Destroy (ID worker) (world s) in
  (r, with_world w (log (Destroying worker (retirements s)) s))).

Definition GetRunnerByName (name : string) : P (error + option RunnerReference) := act (λ s,
  let '(r, w) := env_GetRunnerByName name (world s) in
  (r, with_world w (match r with inl _ => s | inr ref => log (Looked name ref) s end))).

Definition GenerateJit (name : string) (id : Z) : P (error + option JitRunnerConfig) := act (λ s,
  let '(r, w) := env_GenerateJit name id (world s) in
  (r, with_world w (log (Registering name id (retirements s)) s))).

Definition Launch (target : launchTarget) (l : Lease) : P (error + Worker) := act (λ s,
  let '(r, w) := env_Launch target l (world s) in
  (r, with_world w (log (Launching target l (retirements s)) s))).

Definition RemoveRunner (name : string) (id : Z) : P (option error) := act (λ s,
  let '(r, w) := env_RemoveRunner id (world s) in
  (r, with_world w (log (Removing name id (match r with None => true | Some _ => false end)) s))).

(** A budget operation, under the budget's lock. *)
Definition budgetOp (f : persistIO → usageBudget → option error * usageBudget)
    : P (option error) := act (λ s,
  let '(io, w) := env_persistIO (world s) in
  let '(r, b) := f io (budget s) in (r, with_world w (with_budget b s))).

Definition budget_reserve (lease : string) (at_ : time) (maximum : duration)
    : P reserveResult := act (λ s,
  let '(io, w) := env_persistIO (world s) in
  let '(r, b) := reserve io lease at_ maximum (budget s) in
  let s := with_world w (with_budget b s) in
  (r, if rr_allowed r then log (Reserved lease (committed (file b))) s else s)).

(** [budget.adopt] reads the clock itself for a worker without creation time. *)
Definition budget_adopt (lease : string) (createdAt : time) : P (option error) := act (λ s,
  let '(clock, w) := if IsZero createdAt then env_now (world s) else (zeroTime, world s) in
  let '(io, w) := env_persistIO w in
  let '(r, b) := adopt io lease createdAt clock (budget s) in (r, with_world w (with_budget b s))).

Definition retirements_put (entry : retirementEntry) : P (option error) := act (λ s,
  let '(io, w) := env_journalIO (world s) in
  let '(r, q) := putRetirement io entry (retirements s) in
  let s := with_world w (with_retirements q s) in
  (r, match r, rq_entries q !! re_RunnerName entry with
      | None, Some e => log (Journaled e) s
      | _, _ => s
      end)).

Definition retirements_remove (name : string) : P (option error) := act (λ s,
  let '(io, w) := env_journalIO (world s) in
  let '(r, q) := removeRetirement io name (retirements s) in
  (r, with_world w (with_retirements q s))).

(** A worker-state operation, under its lock. *)
Definition stateOp {A} (f : workerState → A * workerState) : P A := act (λ s,
  let '(a, st) := f (state s) in (a, with_state (λ _, st) s)).

(** ** Routes *)

Definition mainRoute : scaleSetRoute :=
  mkScaleSetRoute (scaleSetName cfg) (scaleSetID cfg) (minWorkers cfg) FleetCompute.

Definition servesScaleSet (id : Z) : bool :=
  (id =? scaleSetID cfg)
  || match ephemeral cfg with Some e => id =? route_id e | None => false end.

Definition routeCounts (route : scaleSetRoute) (st : workerState) : Z * Z :=
  match ephemeral cfg with
  | None => (countWorkers st, countWorkers st)
  | Some eph =>
    let '(n, fleet) := countScaleSet (route_id eph) st in
    if route_id route =? route_id eph then (n, fleet) else (fleet - n, fleet)
  end.

Definition routeCount (route : scaleSetRoute) : P Z := get (λ s, (routeCounts route (state s)).1).

Definition routeWorker (route : scaleSetRoute) (worker : Worker) : bool :=
  match ephemeral cfg with
  | None => true
  | Some eph =>
    if route_id route =? route_id eph then RunnerScaleSetID worker =? route_id eph
    else negb (RunnerScaleSetID worker =? route_id eph)
  end.

(** ** Reports *)

Definition reportScaleSets : P () :=
  match ephemeral cfg with
  | None => mret ()
  | Some eph =>
    c ← get (λ s, countScaleSet (route_id eph) (state s));
    report_ (r_scaleSetWorkers (scaleSetName cfg) (c.2 - c.1));;
    report_ (r_scaleSetWorkers (route_name eph) c.1)
  end.

Definition reportState : P () :=
  c ← get (λ s, summary (state s));
  (let '(actual, busy, idle, unknown) := c in report_ (r_workers actual busy idle unknown));;
  reportScaleSets.

Definition reportRetirements : P () :=
  n ← get (λ s, countRetirements (retirements s));
  t ← now;
  late ← get (λ s, overdueRetirements t retirementGrace (retirements s));
  report_ (r_retirements n late).

Definition reportBudget : P () :=
  t ← now; b ← get (λ s, snapshot t (budget s)); report_ (r_budget b).

Definition degraded (reason : string) : P () := report_ (r_degraded reason).

(** Report the degraded reason and return the error. *)
Definition failed (reason : string) (err : error) : P (option error) :=
  degraded reason;; mret (Some err).

(** ** Retirement *)

Definition destroyWorker (worker : Worker) : P (option error) :=
  deleteErr ← Destroy worker;
  match deleteErr with
  | None => mret None
  | Some deleteErr =>
    inv ← Inventory;
    match inv with
    | inl inventoryErr =>
        mret (Some (JoinError [deleteErr; WrapError "confirm deletion of worker" inventoryErr]))
    | inr ws =>
        if existsb (λ p, String.eqb (ID p) (ID worker)) ws then mret (Some deleteErr) else mret None
    end
  end.

Definition with_RunnerID (id : Z) (e : retirementEntry) : retirementEntry :=
  mkRetirementEntry (re_RunnerName e) id (re_RunnerScaleSetID e) (re_LeaseID e)
    (re_BudgetDisposition e) (re_StoppedAt e) (re_RequestedAt e).

(** GitHub's record of a runner is not the one a retirement names. *)
Definition wrongRunner (runner : RunnerReference) (e : retirementEntry) : bool :=
  negb (String.eqb (rr_Name runner) (re_RunnerName e))
  || (negb (rr_RunnerScaleSetID runner =? 0)
      && negb (rr_RunnerScaleSetID runner =? re_RunnerScaleSetID e)).

Definition removeRunnerRegistration (retirement : retirementEntry) : P (option error) :=
  if negb (servesScaleSet (re_RunnerScaleSetID retirement)) then
    mret (Some (ErrorString "refusing to remove runner from unexpected scale set"))
  else
  r ← GetRunnerByName (re_RunnerName retirement);
  match r with
  | inl err => mret (Some (WrapError "find GitHub runner registration" err))
  | inr None => mret None
  | inr (Some runner) =>
    if wrongRunner runner retirement then
      mret (Some (ErrorString "refusing to remove runner from unexpected scale set"))
    else
    let bound := if re_RunnerID retirement =? 0 then with_RunnerID (rr_ID runner) retirement
                 else retirement in
    on_err (if re_RunnerID retirement =? 0 then retirements_put bound else mret None)
      (λ err, mret (Some (WrapError "bind GitHub runner registration before removal" err)))
    (if negb (rr_ID runner =? re_RunnerID bound) then
       mret (Some (ErrorString "refusing to remove runner with unexpected registration id"))
     else
     on_err (RemoveRunner (re_RunnerName retirement) (re_RunnerID bound))
       (λ err, mret (Some (WrapError "remove GitHub runner registration" err)))
     (mret None))
  end.

Definition settleRetirement (retirement : retirementEntry) : P (option error) :=
  t ← now;
  if String.eqb (re_BudgetDisposition retirement) forfeitReservation then
    budgetOp (λ io, forfeit io (re_LeaseID retirement) t)
  else budgetOp (λ io, settleAt io (re_LeaseID retirement) (re_StoppedAt retirement) t).

Definition finishRetirement (worker : Worker) (providerPresent : bool)
    (retirement : retirementEntry) : P (option error) :=
  match validateWorkerRetirementProof worker retirement with
  | Some err => mret (Some err)
  | None =>
    on_err (if providerPresent then destroyWorker worker else mret None)
      (failed "provider_delete_failed")
    (on_err (removeRunnerRegistration retirement)
      (λ err, degraded "github_runner_cleanup_failed";;
              if errors_is JobStillRunningError err
              then mret (Some (JoinError [Sentinel errRetirementDeferred; err]))
              else mret (Some err))
    (on_err (settleRetirement retirement) (failed "usage_budget_write_failed")
    (stateOp (removeWorker (re_RunnerName retirement));;
     on_err (retirements_remove (re_RunnerName retirement))
       (failed "runner_retirement_state_failed")
     (reportRetirements;; mret None))))
  end.

Definition retireWorker (worker : Worker) (providerPresent : bool) (disposition : string)
    (stoppedAt : time) : P (option error) :=
  t ← now;
  let retirement := mkRetirementEntry (RunnerName worker) (RunnerID worker)
    (if RunnerScaleSetID worker =? 0 then scaleSetID cfg else RunnerScaleSetID worker)
    (LeaseID worker) disposition stoppedAt t in
  on_err (retirements_put retirement) (failed "runner_retirement_state_failed")
  (reportRetirements;;
   err ← finishRetirement worker providerPresent retirement;
   if is_err (errors_is errRetirementDeferred) err then mret None
   else if is_err IsTransient err then mret None
   else mret err).

(** The worker a pending retirement is about: from inventory, else from local
    state, else what the journal knows. *)
Definition pendingWorker (byName : gmap string Worker) (st : workerState)
    (retirement : retirementEntry) : Worker * bool :=
  match byName !! re_RunnerName retirement with
  | Some worker => (worker, true)
  | None =>
    match getWorker (re_RunnerName retirement) st with
    | Some record => (wr_Worker record, false)
    | None => (mkWorker "" (re_LeaseID retirement) (re_RunnerName retirement)
                 (re_RunnerID retirement) (re_RunnerScaleSetID retirement) "" zeroTime, false)
    end
  end.

Fixpoint indexByName (ws : list Worker) (m : gmap string Worker) : option (gmap string Worker) :=
  match ws with
  | [] => Some m
  | w :: ws => match m !! RunnerName w with
               | Some _ => None
               | None => indexByName ws (<[RunnerName w := w]> m)
               end
  end.

Definition finishPending (byName : gmap string Worker) (retirement : retirementEntry)
    : P (option (option error)) :=
  wp_ ← get (λ s, pendingWorker byName (state s) retirement);
  match validateWorkerRetirementProof wp_.1 retirement with
  | Some err => mret (Some (Some err))
  | None =>
    err ← finishRetirement wp_.1 wp_.2 retirement;
    match err with
    | None => mret None
    | Some err =>
      if errors_is errRetirementDeferred err then mret None
      else if IsTransient err then mret None
      else mret (Some (Some (WrapError "finish pending retirement" err)))
    end
  end.

Definition finishPendingRetirements (workers : list Worker) : P (option error) :=
  match indexByName workers ∅ with
  | None => mret (Some (ErrorString "provider inventory contains duplicate runner name"))
  | Some byName =>
    all ← get (λ s, allRetirements (retirements s));
    for_each all (finishPending byName) (mret None)
  end.

(** ** Launching *)

Definition cleanupRejectedLaunch (retirement : retirementEntry) : P (option error) :=
  on_err (removeRunnerRegistration retirement) (failed "github_runner_cleanup_failed")
  (on_err (budgetOp (λ io, release io (re_LeaseID retirement))) (failed "usage_budget_write_failed")
  (on_err (retirements_remove (re_RunnerName retirement)) (failed "runner_retirement_state_failed")
  (reportRetirements;; mret None))).

(** The worker of a retirement known only by lease and name. *)
Definition bareWorker (e : retirementEntry) : Worker :=
  mkWorker "" (re_LeaseID e) (re_RunnerName e) 0 0 "" zeroTime.

Definition cleanupJITGenerationFailure (retirement : retirementEntry) (generationErr : error)
    : P error :=
  r ← GetRunnerByName (re_RunnerName retirement);
  match r with
  | inl err =>
      mret (JoinError [generationErr; WrapError "resolve ambiguous JIT generation" err])
  | inr None =>
      on_err (retirements_remove (re_RunnerName retirement))
        (λ err, mret (JoinError [generationErr; err]))
      (reportRetirements;;
       on_err (budgetOp (λ io, release io (re_LeaseID retirement)))
         (λ err, mret (JoinError [generationErr; err]))
       (mret generationErr))
  | inr (Some runner) =>
      if wrongRunner runner retirement then
        mret (JoinError [generationErr;
                         ErrorString "ambiguous JIT generation returned an unexpected runner identity"])
      else
      let bound := with_RunnerID (rr_ID runner) retirement in
      on_err (retirements_put bound) (λ err, mret (JoinError [generationErr; err]))
      (on_err (finishRetirement (bareWorker bound) false bound)
         (λ err, mret (JoinError [generationErr; err]))
       (mret generationErr))
  end.

(** The workers of the inventory a failed launch left behind, other than the
    one its error names. *)
Definition leftBehind (lease : string) (partial : option Worker) (w : Worker) : bool :=
  negb (negb (String.eqb (LeaseID w) lease)
        || match partial with Some p => String.eqb (ID w) (ID p) | None => false end).

Definition cleanupAmbiguousLaunch (retirement : retirementEntry) (launchErr : error)
    : P (option error) :=
  let partial := errors_as as_partial launchErr in
  on_err (match partial with
          | Some p => if negb (String.eqb (ID p) "")
                      then retireWorker p true forfeitReservation zeroTime else mret None
          | None => mret None
          end)
    (λ err, mret (Some (JoinError [launchErr; WrapError "clean up partial worker" err])))
  (inv ← Inventory;
   match inv with
   | inl err => mret (Some (JoinError [launchErr; WrapError "inventory after ambiguous launch" err]))
   | inr ws =>
     let left := keep (leftBehind (re_LeaseID retirement) partial) ws in
     for_each left
       (λ w, err ← retireWorker w true forfeitReservation zeroTime;
             mret match err with
                  | Some err => Some (Some (JoinError [launchErr; WrapError "clean up ambiguous worker" err]))
                  | None => None
                  end)
     (match left with
      | _ :: _ => mret None
      | [] =>
        on_err (finishRetirement (bareWorker retirement) false retirement)
          (λ err, mret (Some (JoinError
             [launchErr; WrapError "clean up ambiguous runner registration" err])))
        (mret None)
      end)
   end).

(** [errors.Join] of a failure with an error that may be nil. *)
Definition joined (err : error) (other : option error) : error :=
  match other with Some o => JoinError [err; o] | None => JoinError [err] end.

(** Release the reservation and report why the launch stopped. *)
Definition abandon (leaseID : string) (err : error) : P (bool * option error) :=
  budgetErr ← budgetOp (λ io, release io leaseID);
  mret (false, Some match budgetErr with Some b => JoinError [err; b] | None => err end).

(** The identity GitHub returned for a generated runner is unusable. *)
Definition invalidRegistration (name : string) (id : Z) (r : RunnerReference) : bool :=
  (rr_ID r <? 1) || negb (String.eqb (rr_Name r) name)
  || (negb (rr_RunnerScaleSetID r =? 0) && negb (rr_RunnerScaleSetID r =? id)).

(** The registration a JIT response names, looked up when it names none. *)
Definition resolveRegistration (name : string) (jit : JitRunnerConfig)
    : P (error + option RunnerReference) :=
  match jit_Runner jit with
  | Some r => if rr_ID r <? 1 then GetRunnerByName name else mret (inr (Some r))
  | None => GetRunnerByName name
  end.

(** [startWorker] after a launch error. *)
Definition launchFailed (retirement : retirementEntry) (err : error) : P (bool * option error) :=
  if IsCapacity err then
    on_err (cleanupRejectedLaunch retirement)
      (λ e, mret (false, Some (WrapError "clean up capacity-rejected launch" e)))
    (reportBudget;; mret (false, Some err))
  else
  let classified := classifyLaunchFailure err in
  (match errors_as as_rejected classified with
   | None => degraded "provider_launch_failed"
   | Some _ => mret ()
   end);;
  on_err (cleanupAmbiguousLaunch retirement err) (λ e, mret (false, Some e))
  (reportBudget;; mret (false, Some classified)).

(** The launched worker with the identity of its registration filled in. *)
Definition identified (worker : Worker) (retirement : retirementEntry) : Worker :=
  mkWorker (ID worker) (LeaseID worker) (RunnerName worker)
    (if RunnerID worker =? 0 then re_RunnerID retirement else RunnerID worker)
    (if RunnerScaleSetID worker =? 0 then re_RunnerScaleSetID retirement else RunnerScaleSetID worker)
    (State worker) (CreatedAt worker).

(** [startWorker] after a successful launch. *)
Definition launchSucceeded (retirement : retirementEntry) (worker : Worker)
    : P (bool * option error) :=
  let worker := identified worker retirement in
  err ← budget_adopt (re_LeaseID retirement) (CreatedAt worker);
  match err with
  | Some err =>
    degraded "usage_budget_write_failed";;
    cleanupErr ← retireWorker worker true forfeitReservation zeroTime;
    reportBudget;;
    mret (false, Some (joined
      (WrapError "confirm launched worker in runner usage budget" err) cleanupErr))
  | None =>
    stateOp (λ st, ((), addWorker worker false st));;
    err ← retirements_remove (re_RunnerName retirement);
    match err with
    | Some err =>
      degraded "runner_retirement_state_failed";;
      mret (false, Some (WrapError "commit launched runner state" err))
    | None =>
      reportRetirements;; reportState;; reportBudget;; report_ r_recovered;; mret (true, None)
    end
  end.

Definition runnerName (leaseID : string) : string := "runner-" ++ leaseID.

(** [startWorker] once the registration is bound in the journal. *)
Definition launchBound (target : launchTarget) (retirement : retirementEntry) (jitConfig : string)
    : P (bool * option error) :=
  report_ (r_starting 1);;
  launchStarted ← now;
  deadlineFrom ← now;
  r ← Launch target (mkLease (re_LeaseID retirement) (re_RunnerName retirement)
        (re_RunnerID retirement) (re_RunnerScaleSetID retirement) jitConfig
        (Add deadlineFrom (maxLifetime cfg - 30 * Second)) (idleTimeout cfg));
  report_ (r_starting (-1));;
  done_ ← now;
  report_ (r_latency true (Sub done_ launchStarted) match r with inl _ => true | inr _ => false end);;
  match r with
  | inl err => launchFailed retirement err
  | inr worker => launchSucceeded retirement worker
  end.

(** [startWorker] once GitHub returned a JIT configuration. *)
Definition bindRegistration (target : launchTarget) (retirement : retirementEntry)
    (jit : JitRunnerConfig) : P (bool * option error) :=
  registration ← resolveRegistration (re_RunnerName retirement) jit;
  match registration with
  | inl err => mret (false, Some (WrapError "resolve generated runner registration" err))
  | inr None =>
    mret (false, Some (ErrorString "GitHub returned invalid identity for generated runner"))
  | inr (Some registration) =>
    if invalidRegistration (re_RunnerName retirement) (re_RunnerScaleSetID retirement) registration then
      mret (false, Some (ErrorString "GitHub returned invalid identity for generated runner"))
    else
    let bound := with_RunnerID (rr_ID registration) retirement in
    err ← retirements_put bound;
    match err with
    | Some err =>
      degraded "runner_retirement_state_failed";;
      mret (false, Some (WrapError "bind generated runner registration" err))
    | None => launchBound target bound (EncodedJITConfig jit)
    end
  end.

(** [startWorker] once the registration intent is journaled. *)
Definition registerRunner (target : launchTarget) (retirement : retirementEntry)
    : P (bool * option error) :=
  reportRetirements;;
  jit ← GenerateJit (re_RunnerName retirement) (re_RunnerScaleSetID retirement);
  match jit with
  | inl err => e ← cleanupJITGenerationFailure retirement err; mret (false, Some e)
  | inr None =>
    e ← cleanupJITGenerationFailure retirement
          (ErrorString "GitHub returned an empty JIT runner response");
    mret (false, Some e)
  | inr (Some jit) => bindRegistration target retirement jit
  end.

(** [startWorker] once the lease is reserved and the name known to be free. *)
Definition journalAndRegister (route : scaleSetRoute) (target : launchTarget) (leaseID : string)
    : P (bool * option error) :=
  requestedAt ← now;
  let retirement := mkRetirementEntry (runnerName leaseID) 0 (route_id route) leaseID
                      forfeitReservation zeroTime requestedAt in
  err ← retirements_put retirement;
  match err with
  | Some err =>
    degraded "runner_retirement_state_failed";;
    t ← now;
    budgetErr ← budgetOp (λ io, forfeit io leaseID t);
    mret (false, Some (joined (WrapError "journal runner registration intent" err) budgetErr))
  | None => registerRunner target retirement
  end.

(** [startWorker] for a drawn lease id. *)
Definition startLease (route : scaleSetRoute) (spare : bool) (leaseID : string)
    : P (bool * option error) :=
  let target := if spare then SpareRoomCompute else route_launch route in
  t ← now;
  r ← budget_reserve leaseID t (maxLifetime cfg);
  match rr_err r with
  | Some err =>
    degraded "usage_budget_write_failed";;
    mret (false, Some (WrapError "reserve runner usage budget" err))
  | None =>
    reportBudget;;
    if negb (rr_allowed r) then mret (false, None)
    else
    existing ← GetRunnerByName (runnerName leaseID);
    match existing with
    | inl err => abandon leaseID (WrapError "preflight runner registration" err)
    | inr (Some _) => abandon leaseID (ErrorString "generated runner name already exists")
    | inr None => journalAndRegister route target leaseID
    end
  end.

Definition startWorker (route : scaleSetRoute) (spare : bool) : P (bool * option error) :=
  leaseID ← newUUID; startLease route spare leaseID.

(** ** The launch gate *)

Definition releaseGateStatus (kind : string) : P () :=
  if String.eqb kind gateLaunch then report_ r_launchRecovered else report_ r_capacityRecovered.

Definition recordLaunchGate (kind reason : string) (err : error) : P () :=
  t ← now;
  effective ← get (λ s, countWorkers (state s));
  let hint := CapacityRetryAfter err in
  prev ← act (λ s, let g := closeGate kind reason effective hint t (gate s) in
                   ((capacityKind (gate s), capacityRetryAt g), with_gate (λ _, g) s));
  (if negb (String.eqb prev.1 "") && negb (String.eqb prev.1 kind)
   then releaseGateStatus prev.1 else mret ());;
  if String.eqb kind gateLaunch then report_ (r_launchRejected reason prev.2)
  else report_ (r_capacityRejected effective reason prev.2).

Definition clearLaunchGate : P () :=
  g ← act (λ s, (gate s, with_gate resetGate s));
  if negb (String.eqb (capacityReason g) "") then releaseGateStatus (capacityKind g) else mret ().

(** ** Concurrent launches *)

(** [launchWorkers] in flight: launches still to start, the running
    goroutines, and the variables they share under [mu]. *)
Record pool := mkPool {
  todo : nat;
  running : list (P (bool * option error));
  stopped : bool;
  fatal : option error;
  capacityErr : option error;
  rejectedErr : option error
}.

Definition first (old : option error) (err : error) : option error :=
  match old with Some e => Some e | None => Some err end.

(** A goroutine's critical section after [startWorker] returned. *)
Definition settleLaunch (r : bool * option error) (p : pool) : pool :=
  match r.2 with
  | Some err =>
    if IsCapacity err then
      mkPool (todo p) (running p) true (fatal p) (first (capacityErr p) err) (rejectedErr p)
    else if IsTransient err then
      mkPool (todo p) (running p) true (fatal p) (capacityErr p) (rejectedErr p)
    else if bool_decide (is_Some (errors_as as_rejected err)) then
      mkPool (todo p) (running p) true (fatal p) (capacityErr p) (first (rejectedErr p) err)
    else mkPool (todo p) (running p) true (first (fatal p) err) (capacityErr p) (rejectedErr p)
  | None =>
    mkPool (todo p) (running p) (stopped p || negb r.1) (fatal p) (capacityErr p) (rejectedErr p)
  end.

Definition with_running (rs : list (P (bool * option error))) (p : pool) : pool :=
  mkPool (todo p) rs (stopped p) (fatal p) (capacityErr p) (rejectedErr p).
Definition with_todo (n : nat) (p : pool) : pool :=
  mkPool n (running p) (stopped p) (fatal p) (capacityErr p) (rejectedErr p).

(** One turn of the loop in [launchWorkers]: with a free slot, start a launch
    or stop starting any. *)
Definition spawn (limit_ : nat) (start : P (bool * option error)) (p : pool) : pool :=
  match todo p with
  | O => p
  | S n =>
    if (length (running p) <? limit_)%nat then
      if stopped p then with_todo 0 p
      else with_running (running p ++ [start]) (with_todo n p)
    else p
  end.

(** One action of one goroutine, or its end. *)
Definition stepRunning (i : nat) (p : pool) (s : scaler W) : pool * scaler W :=
  match running p !! i with
  | None => (p, s)
  | Some (Ret r) => (settleLaunch r (with_running (delete i (running p)) p), s)
  | Some r => let '(r, s) := stepP r s in (with_running (<[i := r]> (running p)) p, s)
  end.

Definition poolStep (limit_ : nat) (start : P (bool * option error)) (choice : nat)
    (ps : pool * scaler W) : pool * scaler W :=
  let '(p, s) := ps in
  let i := (choice mod S (length (running p)))%nat in
  if (i =? length (running p))%nat then (spawn limit_ start p, s) else stepRunning i p s.

(** Let every running goroutine finish, in order. *)
Fixpoint drain (rs : list (P (bool * option error))) (p : pool) (s : scaler W) : pool * scaler W :=
  match rs with
  | [] => (with_running [] p, s)
  | r :: rs => let '(a, s) := runP r s in drain rs (settleLaunch a p) s
  end.

(** Start the remaining launches one after the other. *)
Fixpoint launchRest (n : nat) (start : P (bool * option error)) (p : pool) (s : scaler W)
    : pool * scaler W :=
  match n with
  | O => (p, s)
  | S n =>
    if stopped p then (p, s)
    else let '(a, s) := runP start s in launchRest n start (settleLaunch a p) s
  end.

(** A whole interleaving: the scheduler's choices, then the goroutines one
    after the other.  Every finite execution is one for some choices. *)
Definition runPool (limit_ : nat) (start : P (bool * option error)) (choices : list nat)
    (needed : nat) (s : scaler W) : pool * scaler W :=
  let '(p, s) := fold_left (λ ps c, poolStep limit_ start c ps) choices
                   (mkPool needed [] false None None None, s) in
  let '(p, s) := drain (running p) p s in
  launchRest (todo p) start p s.

(** What the goroutines left once [wait.Wait] returned: the fatal, the
    capacity and the rejection error. *)
Definition launchAll (route : scaleSetRoute) (spare : bool) (choices : list nat) (needed : nat)
    (s : scaler W) : (option error * option error * option error) * scaler W :=
  let '(p, s) := runPool (Z.to_nat (Z.max 1 (launchConcurrency cfg))) (startWorker route spare)
                   choices needed s in
  ((fatal p, capacityErr p, rejectedErr p), s).

Definition launchWorkers (route : scaleSetRoute) (needed : Z) (spare : bool) : P (option error) :=
  choices ← ask env_schedule;
  errs ← act (launchAll route spare choices (Z.to_nat needed));
  let '(fatal_, capacity, rejected) := errs in
  (match capacity, rejected with
   | Some e, _ => if spare then mret () else recordLaunchGate gateCapacity (CapacityReason e) e
   | None, Some e => recordLaunchGate gateLaunch (launchRejectionReason e) e
   | None, None => mret ()
   end);;
  mret fatal_.

(** ** Reconciliation *)

(** [!t.IsZero() && time.Since(t) > d] *)
Definition olderThan (t : time) (d : duration) : P bool :=
  if IsZero t then mret false else n ← now; mret (d <? Sub n t).

(** [logStopped]: what it remembers of the stopped worker. *)
Definition logStopped (worker : Worker) (record : option workerRecord) (at_ : time) : P () :=
  let age := if IsZero (CreatedAt worker) then 0 else RoundSecond (Sub at_ (CreatedAt worker)) in
  let st := ToLower (TrimSpace (State worker)) in
  match record with
  | None => mret ()
  | Some record =>
    if negb (String.eqb st "stopped") && negb (String.eqb st "off") then mret ()
    else
    let awaiting := if negb (wr_Observed record) then false
                    else if negb (wr_Busy record) && (0 <? idleTimeout cfg) && (idleTimeout cfg <=? age)
                    then false else true in
    stateOp (λ st, ((), markStopped record at_ awaiting st))
  end.

(** Local worker names and inventory ids seen by one reconciliation. *)
Record seen := mkSeen { present : gset string; retired : gset string }.

Definition localName (local : gmap string workerRecord) (id : string) : option string :=
  fst <$> find (λ nr, String.eqb (ID (wr_Worker nr.2)) id) (map_to_list local).

(** The body of [reconcile]'s loop over the inventory. *)
Definition reconcilePresent (local : gmap string workerRecord) (worker : Worker) (acc : seen)
    : P (error + seen) :=
  let retire (what : string) (after : P ()) : P (error + seen) :=
    err ← retireWorker worker true settleActualUsage zeroTime;
    match err with
    | Some err => mret (inl (WrapError what err))
    | None => after;; mret (inr (mkSeen (present acc) ({[RunnerName worker]} ∪ retired acc)))
    end in
  expired ← olderThan (CreatedAt worker) (maxLifetime cfg);
  if expired : bool then retire "retire worker after maximum lifetime" (mret ())
  else if workerStopped (State worker) then
    retire "retire stopped worker"
      (t ← now;
       logStopped worker
         (match local !! RunnerName worker with
          | Some record => if String.eqb (ID (wr_Worker record)) (ID worker) then Some record else None
          | None => None
          end) t)
  else
  dangling ← (match local !! RunnerName worker with
              | Some record =>
                if (0 <? danglingTimeout cfg) && wr_Observed record && negb (wr_Busy record)
                then olderThan (CreatedAt worker) (danglingTimeout cfg) else mret false
              | None => mret false
              end);
  if dangling : bool then retire "retire dangling worker" (mret ())
  else
  let acc := mkSeen ({[ID worker]} ∪ present acc) (retired acc) in
  match localName local (ID worker) with
  | Some name => stateOp (λ st, ((), markPresent name st));; mret (inr acc)
  | None =>
    err ← budget_adopt (LeaseID worker) (CreatedAt worker);
    match err with
    | Some err =>
      degraded "usage_budget_write_failed";;
      mret (inl (WrapError "adopt runner usage budget" err))
    | None => stateOp (λ st, ((), adoptWorker worker st));; mret (inr acc)
    end
  end.

(** The body of [reconcile]'s loop over the local workers: [Some e] returns. *)
Definition reconcileAbsent (acc : seen) (at_ : time) (nr : string * workerRecord)
    : P (option (option error)) :=
  let '(name, record) := nr in
  if bool_decide (name ∈ retired acc) || bool_decide (ID (wr_Worker record) ∈ present acc)
  then mret None
  else
  let worker := wr_Worker record in
  let age := if IsZero (CreatedAt worker) then 0 else Sub at_ (CreatedAt worker) in
  let maxLifetimeExpired := (0 <? maxLifetime cfg) && (maxLifetime cfg <? age) in
  let danglingExpired := (0 <? danglingTimeout cfg) && wr_Observed record
                         && negb (wr_Busy record) && (danglingTimeout cfg <? age) in
  let waits := negb maxLifetimeExpired && negb danglingExpired in
  if waits && IsZero (wr_MissingSince record) then
    stateOp (markMissing name at_);; mret None
  else if waits && (Sub at_ (wr_MissingSince record) <? inventoryAbsenceGrace) then mret None
  else
  err ← retireWorker worker false settleActualUsage zeroTime;
  match err with
  | Some err => mret (Some (Some (WrapError "retire disappeared worker" err)))
  | None => stateOp (λ st, ((), markDeparted record at_ st));; mret None
  end.

(** [reconcile] from the inventory it acts on. *)
Definition reconcileInventory (ws : list Worker) : P (option error) :=
  local ← get (λ s, workers (state s));
  t ← now;
  report_ (r_orphans (orphanCandidateCount ws local (maxLifetime cfg) t));;
  r ← fold_err ws (reconcilePresent local) (mkSeen ∅ ∅);
  match r with
  | inl err => mret (Some err)
  | inr acc =>
    at_ ← now;
    stateOp (λ st, ((), pruneDeparted (Add at_ (- departureMemory)) st));;
    stateOp (takeOverdue (Add at_ (- stoppedCompletionGrace)));;
    for_each (map_to_list local) (reconcileAbsent acc at_)
      (report_ (r_orphans 0);; reportState;; reportBudget;; report_ r_recovered;; mret None)
  end.

Definition reconcile : P (option error) :=
  inv ← Inventory;
  match inv with
  | inl err =>
    degraded "provider_inventory_failed";; mret (Some (WrapError "inventory compute workers" err))
  | inr ws =>
    n ← get (λ s, countRetirements (retirements s));
    if 0 <? n then
      on_err (finishPendingRetirements ws) (failed "runner_retirement_failed")
      (inv ← Inventory;
       match inv with
       | inl err =>
         degraded "provider_inventory_failed";;
         mret (Some (WrapError "refresh inventory after runner retirement" err))
       | inr ws => reconcileInventory ws
       end)
    else reconcileInventory ws
  end.

Definition recover : P (option error) :=
  inv ← Inventory;
  match inv with
  | inl err => failed "provider_inventory_failed" err
  | inr ws =>
    on_err (finishPendingRetirements ws) (failed "runner_retirement_failed")
    (inv ← Inventory;
     match inv with
     | inl err =>
       degraded "provider_inventory_failed";;
       mret (Some (WrapError "refresh inventory after recovering runner retirements" err))
     | inr ws =>
       report_ (r_orphans (Z.of_nat (length ws)));;
       for_each ws
         (λ w, err ← budget_adopt (LeaseID w) (CreatedAt w);
               match err with
               | Some err => degraded "usage_budget_write_failed";; mret (Some (Some err))
               | None => stateOp (λ st, ((), adoptWorker w st));; mret None
               end)
       (t ← now;
        on_err (budgetOp (λ io, reconcileBudget io (list_to_set (LeaseID <$> ws)) t))
          (λ err, degraded "usage_budget_write_failed";;
                  mret (Some (WrapError "reconcile runner usage budget" err)))
        (report_ (r_orphans 0);; reportState;; reportBudget;; mret None))
     end)
  end.

(** ** Message handlers *)

Definition speculate (route : scaleSetRoute) (assignedJobs : Z) : P (option error) :=
  if negb (env_speculates) then mret None
  else
  open ← get (λ s, launchGateOpen (gate s));
  if negb open then mret None
  else
  room ← ask env_SpareRoom;
  if room <? 1 then mret None
  else
  c ← get (λ s, (idleByStart (routeWorker route) (env_Fast (world s)) (state s)));
  fleet ← get (λ s, countWorkers (state s));
  let '(busy, fastIdle, slowIdle) := c in
  let waiting := Z.max 0 (assignedJobs - busy) in
  let count := Z.min (waiting - fastIdle) (Z.min slowIdle (Z.min room (maxWorkers cfg - fleet))) in
  if count <? 1 then mret None
  else launchWorkers route count true.

(** [handleDesiredRunnerCount] after reconciliation. *)
Definition scaleUp (route : scaleSetRoute) (assignedJobs target : Z) : P (option error) :=
  counts ← get (λ s, routeCounts route (state s));
  let '(current, fleet) := counts in
  on_err
    (if current <? target then
       t ← now;
       allowance ← get (λ s, capacityAllowance fleet
                     (Z.min (maxWorkers cfg) (fleet + target - current)) t (gate s));
       let '(needed, probing) := allowance in
       if 0 <? needed then
         on_err (launchWorkers route needed false) (λ err, mret (Some err))
         (n ← get (λ s, countWorkers (state s));
          (if probing && (fleet <? n) then clearLaunchGate else mret ());; mret None)
       else mret None
     else mret None)
    (λ err, mret (Some err))
  (if route_id route =? scaleSetID cfg then speculate route assignedJobs else mret None).

Definition handleDesiredRunnerCount (route : scaleSetRoute) (assignedJobs : Z)
    : P (Z * option error) :=
  let target := Z.min (maxWorkers cfg) (route_minWorkers route + assignedJobs) in
  report_ (r_desired (route_name route) assignedJobs target);;
  err ← reconcile;
  err ← (match err with
         | Some err => mret (if IsTransient err then None else Some err)
         | None => scaleUp route assignedJobs target
         end);
  n ← routeCount route;
  mret (n, err).

Definition HandleDesiredRunnerCount (route : scaleSetRoute) (assignedJobs : Z)
    : P (Z * option error) :=
  r ← handleDesiredRunnerCount route assignedJobs; mret (r.1, failClosed r.2).

Definition handleJobStarted (runner : string) : P (option error) :=
  report_ (r_githubActivity "job_started");;
  known ← stateOp (markBusy runner);
  if negb known then stateOp (markDepartedBusy runner);; mret None
  else
  record ← get (λ s, getWorker runner (state s));
  (match record with
   | Some record =>
     if IsZero (CreatedAt (wr_Worker record)) then mret ()
     else t ← now; report_ (r_latency false (Sub t (CreatedAt (wr_Worker record))) false)
   | None => mret ()
   end);;
  reportState;; mret None.

Definition HandleJobStarted (runner : string) : P (option error) :=
  err ← handleJobStarted runner; mret (failClosed err).

Definition handleJobCompleted (runner : string) (finishTime : time) : P (option error) :=
  report_ (r_githubActivity "job_completed");;
  stateOp (takeDeparted runner);;
  record ← get (λ s, getWorker runner (state s));
  match record with
  | None => mret None
  | Some record =>
    err ← retireWorker (wr_Worker record) true settleActualUsage (workerStoppedAt finishTime);
    match err with
    | Some err => mret (Some (WrapError "retire completed worker" err))
    | None => reportState;; reportBudget;; report_ r_recovered;; mret None
    end
  end.

Definition HandleJobCompleted (runner : string) (finishTime : time) : P (option error) :=
  err ← handleJobCompleted runner finishTime; mret (failClosed err).
End scaler.
