(* ===== verification/ScalerSpecs.v ===== *)
(** The invariant of the scaler and what each of its operations does to it.

    Launches run concurrently, so every operation is specified in
    rely-guarantee style: an operation that works on a set of runner names
    [own] changes the journal and the worker state at those names only, and
    relies on everybody else leaving them alone ([frame]). *)

From S2P Require Import Prelude Program Provider UsageBudget BudgetFacts RetirementQueue WorkerState.
From S2P Require Import Scaler.

(** * Journal entries in memory and on disk *)

(** An entry held by the journal's file. *)
Definition durable (e : retirementEntry) (q : retirementQueue) : Prop :=
  ∃ l, rq_file q = Some l ∧ e ∈ rl_Entries l.

(** An entry held in memory and on disk. *)
Definition held (e : retirementEntry) (q : retirementQueue) : Prop :=
  rq_entries q !! re_RunnerName e = Some e ∧ durable e q.

(** [e'] is the journal's version of [e]: the same identity, with the
    registration id of [e] when [e] has one. *)
Record versionOf (e e' : retirementEntry) : Prop := {
  vo_name : re_RunnerName e' = re_RunnerName e;
  vo_scaleSet : re_RunnerScaleSetID e' = re_RunnerScaleSetID e;
  vo_lease : re_LeaseID e' = re_LeaseID e;
  vo_disposition : re_BudgetDisposition e' = re_BudgetDisposition e;
  vo_id : re_RunnerID e ≠ 0 → re_RunnerID e' = re_RunnerID e
}.

Lemma versionOf_merge previous entry : versionOf entry (mergeRetirement previous entry).
Proof.
  constructor; simpl; try done. intros H. by destruct (Z.eqb_spec (re_RunnerID entry) 0).
Qed.

Lemma elem_of_written m e :
  journalOK m → m !! re_RunnerName e = Some e → e ∈ allRetirements (mkRetirementQueue m None).
Proof. intros Hm He. by apply elem_of_allRetirements. Qed.

(** A journal write with the entries [m] keeps what [m] keeps. *)
Lemma journal_held io m q r q' e :
  journal io m q = (r, q') → journalOK m → m !! re_RunnerName e = Some e → held e q → held e q'.
Proof.
  intros (Hf & Hn & Hs)%journal_cases Hm He [Hq (l & Hl & Hin)]. split.
  - destruct r; [by rewrite Hs | by destruct (Hn eq_refl) as [-> _]].
  - destruct Hf as [Hf|Hf]; unfold durable; rewrite Hf; [by eauto |].
    eexists. split; [done |]. by apply elem_of_written.
Qed.

(** Putting or removing an entry leaves the other names alone. *)
Definition sameElsewhere (n : string) (q q' : retirementQueue) : Prop :=
  ∀ m, m ≠ n → rq_entries q' !! m = rq_entries q !! m
               ∧ ∀ e, re_RunnerName e = m → held e q → held e q'.

Lemma sameElsewhere_refl n q : sameElsewhere n q q.
Proof. done. Qed.

Lemma journal_elsewhere io m n q r q' :
  journal io m q = (r, q') → journalOK m →
  (∀ k, k ≠ n → m !! k = rq_entries q !! k) → sameElsewhere n q q'.
Proof.
  intros H Hm Hsame k Hk. split.
  - apply journal_cases in H as (_ & Hn & Hs).
    destruct r; [by rewrite Hs | destruct (Hn eq_refl) as [-> _]; auto].
  - intros e <- He. eapply journal_held; [done.. | | done]. rewrite Hsame by done. apply He.
Qed.

(** What a successful journal write leaves. *)
Lemma journal_success io m q q' e :
  journal io m q = (None, q') → journalOK m → m !! re_RunnerName e = Some e → held e q'.
Proof.
  intros (_ & Hn & _)%journal_cases Hm He. destruct (Hn eq_refl) as [H1 H2].
  split; [by rewrite H1 |]. eexists. split; [done |]. by apply elem_of_written.
Qed.

Lemma journalOK_insert m e :
  journalOK m → validateRetirementEntry e = None → journalOK (<[re_RunnerName e := e]> m).
Proof. intros. by apply map_Forall_insert_2. Qed.

Lemma put_spec io entry q r q' :
  queueOK q → putRetirement io entry q = (r, q') →
  queueOK q' ∧ sameElsewhere (re_RunnerName entry) q q' ∧
  match r with
  | None => ∃ e, held e q' ∧ versionOf entry e ∧ validateRetirementEntry e = None
  | Some _ => rq_entries q' = rq_entries q
  end.
Proof.
  intros Hq H. split; [by eapply putRetirement_OK |]. pose proof Hq as [Hj _].
  unfold putRetirement in H.
  destruct (validateRetirementEntry entry) eqn:Ev; [by injection H as <- <- |].
  assert (Hput : ∀ e, re_RunnerName e = re_RunnerName entry → versionOf entry e →
    validateRetirementEntry e = None →
    journal io (<[re_RunnerName entry := e]> (rq_entries q)) q = (r, q') →
    sameElsewhere (re_RunnerName entry) q q' ∧
    match r with
    | None => ∃ e, held e q' ∧ versionOf entry e ∧ validateRetirementEntry e = None
    | Some _ => rq_entries q' = rq_entries q
    end).
  { intros e He Hve Hval HJ. rewrite <- He in HJ.
    pose proof (journalOK_insert _ _ Hj Hval) as Hj'. split.
    - rewrite <- He. eapply journal_elsewhere; [done.. |]. intros k Hk. by rewrite lookup_insert_ne.
    - destruct r as [err|]; [apply journal_cases in HJ as (_ & _ & Hs); auto |].
      exists e. split_and!; [|done..]. eapply journal_success; [done.. |]. apply lookup_insert_eq. }
  destruct (rq_entries q !! re_RunnerName entry) as [previous|] eqn:Ep.
  - destruct (_ || _); [by injection H as <- <- |]. destruct (_ && _); [by injection H as <- <- |].
    apply (Hput (mergeRetirement previous entry)); [done | apply versionOf_merge | | done].
    apply mergeRetirement_valid; [|done]. by destruct (Hj _ _ Ep).
  - apply (Hput entry); done.
Qed.

(** A put never takes an entry away, nor changes the lease of one. *)
Lemma put_keeps_lease io entry q r q' n l :
  putRetirement io entry q = (r, q') →
  (∃ e, rq_entries q !! n = Some e ∧ re_LeaseID e = l) →
  ∃ e, rq_entries q' !! n = Some e ∧ re_LeaseID e = l.
Proof.
  intros H (e & He & <-). destruct (put_keeps_proof _ _ _ _ _ _ _ H He) as (e' & He' & Hp).
  exists e'. split; [done | apply Hp].
Qed.

Lemma remove_spec io n q r q' :
  queueOK q → removeRetirement io n q = (r, q') →
  queueOK q' ∧ sameElsewhere n q q' ∧
  match r with None => rq_entries q' = delete n (rq_entries q) | Some _ => rq_entries q' = rq_entries q end.
Proof.
  intros Hq H. split; [by eapply removeRetirement_OK |]. pose proof Hq as [Hj _].
  unfold removeRetirement in H. destruct (rq_entries q !! n) eqn:E.
  - assert (Hd : journalOK (delete n (rq_entries q))) by by apply map_Forall_delete.
    split.
    + eapply journal_elsewhere; [done.. |]. intros k Hk. by rewrite lookup_delete_ne.
    + apply journal_cases in H as (_ & Hn & Hs). destruct r; [auto | by destruct (Hn eq_refl)].
  - injection H as <- <-. split; [done |]. by rewrite delete_id.
Qed.

(** * Histories *)

(** The last word on a runner name is that GitHub has no registration for it. *)
Fixpoint deregistered (n : string) (tr : list event) : bool :=
  match tr with
  | [] => false
  | Looked m None :: tr => String.eqb m n || deregistered n tr
  | Removing m _ true :: tr => String.eqb m n || deregistered n tr
  | Registering m _ _ :: tr => negb (String.eqb m n) && deregistered n tr
  | _ :: tr => deregistered n tr
  end.

Definition registered (n : string) (tr : list event) : Prop :=
  ∃ ss q, Registering n ss q ∈ tr.

Section facts.
Context {W : Type} {E : Env W} (cfg : scalerConfig).
Implicit Types s : scaler W.

(** What has to be true of an event, given the events before it. *)
Definition evOK (tr : list event) (ev : event) : Prop :=
  match ev with
  | Reserved lease ledger =>
      ∃ es e, ledger = Complete (mkUsageLedger 1 es) ∧ e ∈ es ∧ ue_LeaseID e = lease
              ∧ ue_Active e = true ∧ ue_Seconds e = durationSeconds (maxLifetime cfg)
  | Journaled e => validateRetirementEntry e = None
  | Looked _ _ => True
  | Registering name ss q =>
      ∃ e, held e q ∧ re_RunnerName e = name ∧ re_RunnerScaleSetID e = ss
           ∧ re_BudgetDisposition e = forfeitReservation
           ∧ ∃ ledger, Reserved (re_LeaseID e) ledger ∈ tr
  | Launching _ l q =>
      ∃ e, held e q ∧ re_RunnerName e = lease_RunnerName l ∧ re_LeaseID e = lease_ID l
           ∧ re_RunnerID e = lease_RunnerID l ∧ re_RunnerScaleSetID e = lease_RunnerScaleSetID l
           ∧ (∃ ledger, Reserved (lease_ID l) ledger ∈ tr) ∧ registered (lease_RunnerName l) tr
  | Destroying w q =>
      ∃ e, rq_entries q !! RunnerName w = Some e ∧ re_LeaseID e = LeaseID w
  | Removing name id _ =>
      ∃ e r, Journaled e ∈ tr ∧ re_RunnerName e = name ∧ (id ≠ 0 → re_RunnerID e = id)
             ∧ servesScaleSet cfg (re_RunnerScaleSetID e) = true
             ∧ Looked name (Some r) ∈ tr ∧ rr_ID r = id ∧ rr_Name r = name
             ∧ (rr_RunnerScaleSetID r = 0 ∨ rr_RunnerScaleSetID r = re_RunnerScaleSetID e)
  end.

Fixpoint traceOK (tr : list event) : Prop :=
  match tr with [] => True | ev :: tr => evOK tr ev ∧ traceOK tr end.

(** Every registration the scaler asked for is journaled, belongs to a worker
    of the local state, or is known to be gone. *)
Definition tracked s : Prop :=
  ∀ n, registered n (trace s) →
    is_Some (rq_entries (retirements s) !! n) ∨ is_Some (workers (state s) !! n)
    ∨ deregistered n (trace s) = true.

Record Inv s : Prop := {
  inv_queue : queueOK (retirements s);
  inv_trace : traceOK (trace s);
  inv_journaled : ∀ n e, rq_entries (retirements s) !! n = Some e → Journaled e ∈ trace s;
  inv_tracked : tracked s
}.

(** The names in [N] are left alone; history and UUID counter only grow. *)
Record frame (N : string → Prop) s s' : Prop := {
  fr_entry : ∀ n, N n → rq_entries (retirements s') !! n = rq_entries (retirements s) !! n;
  fr_held : ∀ e, N (re_RunnerName e) → held e (retirements s) → held e (retirements s');
  fr_worker : ∀ n, N n → is_Some (workers (state s') !! n) ↔ is_Some (workers (state s) !! n);
  fr_gone : ∀ n, N n → deregistered n (trace s) = true → deregistered n (trace s') = true;
  fr_trace : ∀ ev, ev ∈ trace s → ev ∈ trace s';
  fr_drawn : (drawn s <= drawn s')%nat
}.

#[global] Instance frame_preorder N : PreOrder (frame N).
Proof.
  split; [by intros s; constructor |]. intros s1 s2 s3 [H1 H2 H3 H4 H5 H6] [K1 K2 K3 K4 K5 K6].
  constructor; [| | | | |lia]; intros x; auto.
  - intros Hx. by rewrite K1, H1.
  - intros Hx. by rewrite K3, H3.
Qed.

Lemma frame_weaken (N N' : string → Prop) s s' : (∀ n, N' n → N n) → frame N s s' → frame N' s s'.
Proof. intros H []. constructor; eauto. Qed.

(** An operation that owns the names in [N]. *)
Definition others (N : string → Prop) : string → Prop := λ n, ¬ N n.
Definition owns {A} (N : string → Prop) (P : scaler W → Prop) (p : prog (scaler W) A)
    (Q : A → scaler W → Prop) : Prop :=
  spec (frame N) (frame (others N)) Inv P p Q.

Lemma owns_weaken {A} (N N' : string → Prop) P (p : prog (scaler W) A) Q :
  (∀ n, N n → N' n) → owns N P p Q → owns N' P p Q.
Proof.
  intros H. apply spec_weaken; intros s s'; apply frame_weaken; [done |].
  intros n Hn Hn'. by apply Hn, H.
Qed.
End facts.

(** * Specifications of the operations *)

(** * Assertions *)

Section assertions.
Context {W : Type}.
Implicit Types (s : scaler W) (P Q : scaler W → Prop) (N : string → Prop).

Definition andS P Q : scaler W → Prop := λ s, P s ∧ Q s.
Definition anyS : scaler W → Prop := λ _, True.

(** With [b], the journal holds an entry of the lease [l] under [n]. *)
Definition Pending (b : bool) (n l : string) : scaler W → Prop :=
  λ s, b = true → ∃ e, rq_entries (retirements s) !! n = Some e ∧ re_LeaseID e = l.
Definition Held (e : retirementEntry) : scaler W → Prop := λ s, held e (retirements s).
Definition Working (n : string) : scaler W → Prop := λ s, is_Some (workers (state s) !! n).
Definition Idle (n : string) : scaler W → Prop := λ s, workers (state s) !! n = None.
Definition Unlisted (n : string) : scaler W → Prop :=
  λ s, rq_entries (retirements s) !! n = None.
Definition Gone (n : string) : scaler W → Prop := λ s, deregistered n (trace s) = true.
(** The journal held a version of [e] at some point. *)
Definition Proven (e : retirementEntry) : scaler W → Prop :=
  λ s, ∃ e', Journaled e' ∈ trace s ∧ versionOf e e'.
Definition ReservedL (l : string) : scaler W → Prop := λ s, ∃ c, Reserved l c ∈ trace s.
Definition RegisteredN (n : string) : scaler W → Prop := λ s, registered n (trace s).
Definition LookedAt (n : string) (r : RunnerReference) : scaler W → Prop :=
  λ s, Looked n (Some r) ∈ trace s.

(** Assertions about history alone. *)
Definition historic P : Prop := ∀ N s s', frame N s s' → P s → P s'.

Lemma historic_Proven e : historic (Proven e).
Proof. intros N s s' HF (e' & He & Hv). exists e'. split; [by apply HF | done]. Qed.
Lemma historic_ReservedL l : historic (ReservedL l).
Proof. intros N s s' HF (c & Hc). exists c. by apply HF. Qed.
Lemma historic_RegisteredN n : historic (RegisteredN n).
Proof. intros N s s' HF (ss & q & Hc). exists ss, q. by apply HF. Qed.
Lemma historic_LookedAt n r : historic (LookedAt n r).
Proof. intros N s s' HF Hc. by apply (fr_trace _ _ _ HF). Qed.
Lemma historic_and P Q : historic P → historic Q → historic (andS P Q).
Proof. intros HP HQ N s s' HF [? ?]. split; eauto. Qed.
Lemma historic_any : historic anyS.
Proof. done. Qed.

Lemma stable_historic N P : historic P → stableR (frame N) P.
Proof. intros H s s'. apply H. Qed.
Lemma stable_and N P Q : stableR (frame N) P → stableR (frame N) Q → stableR (frame N) (andS P Q).
Proof. intros HP HQ s s' HF [? ?]. split; eauto. Qed.
Lemma stable_Pending N b n l : N n → stableR (frame N) (Pending b n l).
Proof.
  intros Hn s s' HF H Hb. destruct (H Hb) as (e & He & Hl). exists e.
  by rewrite (fr_entry _ _ _ HF n Hn).
Qed.
Lemma stable_Held N e : N (re_RunnerName e) → stableR (frame N) (Held e).
Proof. intros Hn s s' HF H. by apply (fr_held _ _ _ HF). Qed.
Lemma stable_Working N n : N n → stableR (frame N) (Working n).
Proof. intros Hn s s' HF H. by apply (fr_worker _ _ _ HF). Qed.
Lemma stable_Idle N n : N n → stableR (frame N) (Idle n).
Proof.
  intros Hn s s' HF H. unfold Idle in *. apply eq_None_not_Some.
  rewrite (fr_worker _ _ _ HF n Hn), H. by intros [? ?].
Qed.
Lemma stable_Unlisted N n : N n → stableR (frame N) (Unlisted n).
Proof. intros Hn s s' HF H. unfold Unlisted. by rewrite (fr_entry _ _ _ HF n Hn). Qed.
Lemma stable_Gone N n : N n → stableR (frame N) (Gone n).
Proof. intros Hn s s' HF H. by apply (fr_gone _ _ _ HF). Qed.
End assertions.

Infix "⋏" := andS (at level 38, right associativity).

Create HintDb stab.
#[export] Hint Resolve historic_Proven historic_ReservedL historic_RegisteredN historic_LookedAt
  historic_and historic_any stable_historic stable_and stable_Pending stable_Held stable_Working
  stable_Idle stable_Unlisted stable_Gone : stab.

(** * Rules *)

Section rules.
Context {W : Type} {E : Env W} (cfg : scalerConfig).
Implicit Types (s : scaler W) (P F : scaler W → Prop) (N : string → Prop).
Abbreviation owns := (owns cfg).
Abbreviation Inv := (Inv cfg).

(** A step that leaves journal, history and the set of workers as they are. *)
Record quiet s s' : Prop := {
  qu_journal : retirements s' = retirements s;
  qu_trace : trace s' = trace s;
  qu_workers : ∀ n, is_Some (workers (state s') !! n) ↔ is_Some (workers (state s) !! n);
  qu_drawn : (drawn s <= drawn s')%nat
}.

Lemma quiet_frame N s s' : quiet s s' → frame N s s'.
Proof. intros [Hj Ht Hw Hd]. constructor; rewrite ?Hj, ?Ht; auto. Qed.

Lemma quiet_Inv s s' : quiet s s' → Inv s → Inv s'.
Proof.
  intros [Hj Ht Hw Hd] [H1 H2 H3 H4]. constructor; rewrite ?Hj, ?Ht; auto.
  intros n Hn. rewrite Hj, Hw, Ht in *. auto.
Qed.

Lemma owns_ret {A} N P (a : A) Q : (∀ s, P s → Q a s) → owns N P (mret a) Q.
Proof. apply spec_ret. Qed.

Lemma owns_bind {A B} N P (p : prog (scaler W) A) (f : A → prog (scaler W) B) T Q :
  owns N P p T → (∀ a, owns N (T a) (f a) Q) → owns N P (p ≫= f) Q.
Proof. apply spec_bind. Qed.

(** Sequencing after a step that keeps the precondition. *)
Lemma owns_seq {A B} N P (p : prog (scaler W) A) (f : A → prog (scaler W) B) Q :
  owns N P p (λ _, P) → (∀ a, owns N P (f a) Q) → owns N P (p ≫= f) Q.
Proof. apply spec_bind. Qed.

Lemma owns_on_err {X A} N P (m : prog (scaler W) (option X)) (h : X → prog (scaler W) A) k T Q :
  owns N P m T → (∀ e, owns N (T (Some e)) (h e) Q) → owns N (T None) k Q →
  owns N P (on_err m h k) Q.
Proof. apply spec_on_err. Qed.

Lemma owns_conseq {A} N P P' (p : prog (scaler W) A) Q Q' :
  owns N P' p Q' → (∀ s, P s → P' s) → (∀ a s, Q' a s → Q a s) → owns N P p Q.
Proof. apply spec_conseq. Qed.

Lemma owns_pre {A} N P P' (p : prog (scaler W) A) Q :
  owns N P' p Q → (∀ s, P s → P' s) → owns N P p Q.
Proof. intros H HP. by eapply owns_conseq. Qed.

(** Facts of history survive any operation. *)
Lemma owns_history {A} N P F (p : prog (scaler W) A) Q :
  historic F → owns N P p Q → owns N (P ⋏ F) p (λ a, Q a ⋏ F).
Proof.
  intros HF Hp. eapply owns_conseq; [apply (spec_frame _ _ _ P F); [| |exact Hp] | done | done].
  - intros s s'. apply HF.
  - intros s s'. apply HF.
Qed.

(** A pure precondition. *)
Lemma owns_pure {A} N (φ : Prop) P (p : prog (scaler W) A) Q :
  (φ → owns N P p Q) → owns N (λ s, φ ∧ P s) p Q.
Proof. intros H s [Hφ HP]. by apply H. Qed.

Lemma owns_quiet {A} N P (op : scaler W → A * scaler W) (Z : A → Prop) :
  stableR (frame N) P → (∀ s x s', op s = (x, s') → quiet s s' ∧ Z x) →
  owns N P (act op) (λ x s, Z x ∧ P s).
Proof.
  intros Hst H. apply spec_act; [done |]. intros s x s' HI HP Hop.
  destruct (H s x s' Hop) as [Hq HZ].
  split_and!; [by apply quiet_frame | by eapply quiet_Inv | done |].
  eapply Hst; [|done]. by apply quiet_frame.
Qed.

Lemma owns_keep {A} N P (op : scaler W → A * scaler W) :
  stableR (frame N) P → (∀ s x s', op s = (x, s') → quiet s s') → owns N P (act op) (λ _, P).
Proof.
  intros Hst H. eapply owns_conseq; [apply (owns_quiet N P op (λ _, True)) | done | by intros ?? [? ?]].
  - done.
  - naive_solver.
Qed.

Ltac quiet := intros s x s' Hop; simpl in Hop;
  repeat (case_match; simplify_eq/=); simplify_eq/=; by constructor.

Lemma keep_report N P r : stableR (frame N) P → owns N P (report_ r) (λ _, P).
Proof. intros H. apply owns_keep; [done |]. quiet. Qed.

Lemma keep_ask {A} N P (f : W → A * W) : stableR (frame N) P → owns N P (ask f) (λ _, P).
Proof. intros H. apply owns_keep; [done |]. quiet. Qed.

Lemma keep_now N P : stableR (frame N) P → owns N P now (λ _, P).
Proof. apply keep_ask. Qed.

Lemma keep_get {A} N P (f : scaler W → A) : stableR (frame N) P → owns N P (get f) (λ _, P).
Proof. intros H. apply owns_keep; [done |]. quiet. Qed.

Lemma keep_budgetOp N P f : stableR (frame N) P → owns N P (budgetOp f) (λ _, P).
Proof. intros H. apply owns_keep; [done |]. quiet. Qed.

Lemma keep_budget_adopt N P l t : stableR (frame N) P → owns N P (budget_adopt l t) (λ _, P).
Proof. intros H. apply owns_keep; [done |]. quiet. Qed.

Lemma keep_gate {A} N P (f : scaler W → A) (g : scaler W → launchGate) :
  stableR (frame N) P → owns N P (act (λ s, (f s, with_gate (λ _, g s) s))) (λ _, P).
Proof. intros H. apply owns_keep; [done |]. quiet. Qed.

Lemma keep_ret {A} N P (a : A) : owns N P (mret a) (λ _, P).
Proof. by apply owns_ret. Qed.

Lemma keep_Inventory N P : stableR (frame N) P → owns N P Inventory (λ _, P).
Proof. apply keep_ask. Qed.

(** An operation on the worker state that keeps the set of workers. *)
Lemma keep_stateOp {A} N P (f : workerState → A * workerState) :
  stableR (frame N) P →
  (∀ st n, is_Some (workers (f st).2 !! n) ↔ is_Some (workers st !! n)) →
  owns N P (stateOp f) (λ _, P).
Proof.
  intros H Hf. apply owns_keep; [done |]. intros s x s' Hop. specialize (Hf (state s)).
  destruct (f (state s)) as [a st] eqn:Ef. simplify_eq/=. by constructor.
Qed.
End rules.

Create HintDb keep.
#[export] Hint Resolve keep_report keep_ask keep_now keep_get keep_budgetOp keep_budget_adopt
  keep_gate keep_ret keep_Inventory : keep.

(** Walk over the steps of a program that keep the precondition. *)
Ltac keeps := first [ solve [eauto 8 with keep stab] ].
Ltac walk :=
  repeat first
    [ apply owns_seq; [keeps | intros ?]
    | apply owns_ret; by intros ]. 

(** * Single calls *)

Section calls.
Context {W : Type} {E : Env W} (cfg : scalerConfig).
Implicit Types (s : scaler W) (P F : scaler W → Prop) (N : string → Prop).
Abbreviation owns := (owns cfg).
Abbreviation Inv := (Inv cfg).

(** Appending an allowed event that does not register a name. *)
Lemma log_frame N ev s s' :
  retirements s' = retirements s → state s' = state s → drawn s' = drawn s →
  trace s' = ev :: trace s →
  (∀ n, N n → deregistered n (trace s) = true → deregistered n (ev :: trace s) = true) →
  frame N s s'.
Proof.
  intros Hj Hs Hd Ht Hr. constructor; rewrite ?Hj, ?Hs, ?Ht, ?Hd; auto. intros e. by right.
Qed.

Lemma log_Inv ev s s' :
  retirements s' = retirements s → state s' = state s → trace s' = ev :: trace s →
  evOK cfg (trace s) ev →
  (∀ n, registered n (ev :: trace s) → registered n (trace s) ∨ is_Some (rq_entries (retirements s) !! n)) →
  (∀ n, deregistered n (trace s) = true →
        deregistered n (ev :: trace s) = true ∨ is_Some (rq_entries (retirements s) !! n)) →
  Inv s → Inv s'.
Proof.
  intros Hj Hs Ht Hev Hr Hd [H1 H2 H3 H4]. constructor; rewrite ?Hj, ?Ht; auto.
  - done.
  - intros n e He. right. eauto.
  - intros n Hn. rewrite Hj, Hs, Ht in *. destruct (Hr n Hn) as [Hn'|?]; [|by left].
    destruct (H4 n Hn') as [?|[?|?]]; auto. destruct (Hd n); auto.
Qed.

Lemma registered_cons n ev tr :
  (∀ ss q, ev ≠ Registering n ss q) → registered n (ev :: tr) → registered n tr.
Proof.
  intros Hne (ss & q & [Heq|Hin]%elem_of_cons); [by destruct (Hne ss q) |]. by exists ss, q.
Qed.

Lemma dereg_cons n ev tr :
  (∀ m ss q, ev ≠ Registering m ss q) → deregistered n tr = true → deregistered n (ev :: tr) = true.
Proof.
  intros Hne H. destruct ev as [| |m [r|]|m ss q| | |m id []]; simpl; auto.
  - by rewrite H, orb_true_r.
  - by destruct (Hne m ss q).
  - by rewrite H, orb_true_r.
Qed.

(** A call whose only trace is one event that registers nothing. *)
Lemma owns_log {A} N P (op : scaler W → A * scaler W) Q :
  stableR (frame N) P →
  (∀ s x s', Inv s → P s → op s = (x, s') →
     retirements s' = retirements s ∧ state s' = state s ∧ drawn s' = drawn s ∧
     ∃ ev, trace s' = ev :: trace s ∧ evOK cfg (trace s) ev ∧
           (∀ m ss q, ev ≠ Registering m ss q) ∧ (P s' → Q x s')) →
  owns N P (act op) Q.
Proof.
  intros Hst H. apply spec_act; [done |]. intros s x s' HI HP Hop.
  destruct (H s x s' HI HP Hop) as (Hj & Hs & Hd & ev & Ht & Hev & Hne & HQ).
  assert (HF : ∀ N, frame N s s').
  { intros N'. eapply log_frame; eauto. intros n _. by apply dereg_cons. }
  split_and!; [done | | apply HQ; by apply (Hst s s')].
  eapply log_Inv; eauto.
  - intros n Hn. left. eapply registered_cons; [|exact Hn]. auto.
  - intros n Hn. left. by apply dereg_cons.
Qed.

Lemma owns_GetRunner N P name :
  stableR (frame N) P →
  owns N P (GetRunnerByName name)
    (λ r s, P s ∧ match r with
                  | inl _ => True
                  | inr None => Gone name s
                  | inr (Some ref) => LookedAt name ref s
                  end).
Proof.
  intros Hst s0 HP0. set (Q := λ (r : error + option RunnerReference) s, _).
  assert (Hspec : owns N P (GetRunnerByName name) Q); [|by apply Hspec].
  apply spec_act; [done |]. intros s x s' HI HP Hop. simpl in Hop.
  destruct (env_GetRunnerByName name (world s)) as [r w] eqn:Er. injection Hop as <- <-.
  destruct r as [err|ref].
  { assert (Hq : quiet s (with_world w s)) by by constructor.
    split_and!; [by apply quiet_frame | by eapply quiet_Inv |]. split; [|done].
    eapply Hst; [by apply quiet_frame | done]. }
  assert (HF : ∀ N, frame N s (with_world w (log (Looked name ref) s))).
  { intros N'. eapply log_frame; try done. intros n _. by apply dereg_cons. }
  split_and!; [done | |].
  - apply (log_Inv (Looked name ref) s); try done.
    + intros n Hn. left. eapply registered_cons; [|exact Hn]; done.
    + intros n Hn. left. by apply dereg_cons.
  - split; [by eapply Hst; [apply HF |] |]. destruct ref as [ref|]; unfold LookedAt, Gone; simpl; [left |].
    by rewrite String.eqb_refl.
Qed.

Lemma owns_Destroy N P w b l :
  stableR (frame N) P → (∀ s, P s → Pending b (RunnerName w) l s) → b = true → l = LeaseID w →
  owns N P (Destroy w) (λ _, P).
Proof.
  intros Hst Hp -> ->. apply owns_log; [done |]. intros s x s' HI HP Hop. simpl in Hop.
  destruct (env_Destroy (ID w) (world s)) as [r wd]. injection Hop as <- <-.
  split_and!; [done..|]. exists (Destroying w (retirements s)). split_and!; try done.
  by apply Hp.
Qed.

(** The call of GitHub that removes a registration. *)
Lemma owns_RemoveRunner N P e e' r name id :
  stableR (frame N) P →
  (∀ s, P s → Journaled e' ∈ trace s ∧ LookedAt name r s) →
  versionOf e e' → re_RunnerName e = name → re_RunnerID e = id → rr_ID r = id →
  servesScaleSet cfg (re_RunnerScaleSetID e) = true → wrongRunner r e = false →
  owns N P (RemoveRunner name id) (λ x s, P s ∧ (x = None → Gone name s)).
Proof.
  intros Hst Hp [V1 V2 V3 V4 V5] Hn Hid Hrid Hserve Hw. apply owns_log; [done |].
  intros s x s' HI HP Hop. simpl in Hop.
  destruct (env_RemoveRunner id (world s)) as [res wd]. injection Hop as <- <-.
  split_and!; [done..|]. eexists. split; [reflexivity |]. split_and!; try done.
  - destruct (Hp s HP) as [Hj Hl]. exists e', r. unfold wrongRunner in Hw.
    apply orb_false_iff in Hw as [Hw1 Hw2]. rewrite negb_false_iff, String.eqb_eq in Hw1.
    rewrite V2. split_and!; try done; try congruence.
    + intros H0. rewrite V5; congruence.
    + destruct (Z.eqb_spec (rr_RunnerScaleSetID r) 0); [by left |]. right. simpl in Hw2.
      destruct (Z.eqb_spec (rr_RunnerScaleSetID r) (re_RunnerScaleSetID e)); done.
  - intros HP'. split; [done |]. intros ->. unfold Gone. simpl. by rewrite String.eqb_refl.
Qed.

(** ** The journal *)

Lemma owns_put N entry b :
  N (re_RunnerName entry) →
  owns N (Pending b (re_RunnerName entry) (re_LeaseID entry)) (retirements_put entry)
    (λ r, Pending b (re_RunnerName entry) (re_LeaseID entry) ⋏
          λ s, r = None → ∃ e, Held e s ∧ Journaled e ∈ trace s ∧ versionOf entry e).
Proof.
  intros HN. apply spec_act; [by apply stable_Pending |]. intros s x s' HI HP Hop. simpl in Hop.
  destruct (env_journalIO (world s)) as [io w].
  destruct (putRetirement io entry (retirements s)) as [r q] eqn:Eput. injection Hop as <- <-.
  pose proof (put_spec _ _ _ _ _ (inv_queue _ _ HI) Eput) as (Hq & Helse & Hres).
  unfold sameElsewhere in Helse.
  set (s1 := with_world w (with_retirements q s)).
  set (s2 := match r, rq_entries q !! re_RunnerName entry with
             | None, Some e => log (Journaled e) s1 | _, _ => s1 end).
  assert (Hs2 : retirements s2 = q ∧ state s2 = state s ∧ drawn s2 = drawn s) by
    (unfold s2; repeat case_match; done).
  destruct Hs2 as (Hs2q & Hs2s & Hs2d).
  assert (Ht : trace s2 = trace s ∨ ∃ e, trace s2 = Journaled e :: trace s ∧
            rq_entries q !! re_RunnerName entry = Some e ∧ validateRetirementEntry e = None).
  { unfold s2. destruct r; [by left |].
    destruct (rq_entries q !! re_RunnerName entry) as [e|] eqn:Ee; [|by left].
    right. exists e. split_and!; [done..|]. destruct Hq as [Hj _]. by destruct (Hj _ _ Ee). }
  assert (Hin : ∀ ev, ev ∈ trace s → ev ∈ trace s2).
  { intros ev Hev. destruct Ht as [->|(e & -> & _)]; [done |]. by right. }
  assert (Hdereg : ∀ n, deregistered n (trace s2) = deregistered n (trace s)).
  { intros n. by destruct Ht as [->|(e & -> & _)]. }
  split_and!.
  - constructor; rewrite ?Hs2q, ?Hs2s, ?Hs2d; auto.
    + intros n Hn. apply Helse. intros ->. by apply Hn.
    + intros e Hn. apply (Helse (re_RunnerName e)); [|done]. intros Heq. apply Hn. by rewrite Heq.
    + intros n _. by rewrite Hdereg.
  - destruct HI as [H1 H2 H3 H4]. constructor.
    + by rewrite Hs2q.
    + destruct Ht as [->|(e & -> & _ & He)]; [done |]. by split.
    + rewrite Hs2q. intros n e He. destruct (decide (n = re_RunnerName entry)) as [->|Hne].
      * destruct r as [err|]; [rewrite Hres in He; eauto |].
        unfold s2. rewrite He. left.
      * destruct (Helse n Hne) as [Heq _]. rewrite Heq in He. eauto.
    + intros n Hn. rewrite Hs2q, Hs2s, Hdereg. destruct (H4 n) as [[e He]|[?|?]]; auto.
      * destruct Hn as (ss & q0 & Hn). exists ss, q0.
        destruct Ht as [Ht|(e & Ht & _)]; rewrite Ht in Hn; [done |].
        by apply elem_of_cons in Hn as [?|?].
      * left. destruct (put_keeps_proof _ _ _ _ _ _ _ Eput He) as (e' & He' & _). by exists e'.
  - split; [intros Hb; rewrite Hs2q; eapply put_keeps_lease; [exact Eput | by apply HP] |].
    intros ->. destruct Hres as (e & Hh & Hv & Hval). exists e. unfold Held. rewrite Hs2q.
    split_and!; [done | | done]. unfold s2. destruct Hh as [Hl _].
    rewrite (vo_name _ _ Hv) in Hl. rewrite Hl. left.
Qed.

(** Removing an entry: the registration is gone, or its worker is at work. *)
Lemma owns_remove N P n b l :
  N n → stableR (frame N) P → (∀ s w q, P s → P (with_world w (with_retirements q s))) →
  (∀ s, P s → Gone n s ∨ Working n s) →
  owns N (P ⋏ Pending b n l) (retirements_remove n)
    (λ r, P ⋏ match r with None => Unlisted n | Some _ => Pending b n l end).
Proof.
  intros HN Hst Hkeep Hgone.
  apply spec_act; [by apply stable_and; [|apply stable_Pending] |].
  intros s x s' HI [HP Hpen] Hop. simpl in Hop.
  destruct (env_journalIO (world s)) as [io w].
  destruct (removeRetirement io n (retirements s)) as [r q] eqn:Er. injection Hop as <- <-.
  pose proof (remove_spec _ _ _ _ _ (inv_queue _ _ HI) Er) as (Hq & Helse & Hres).
  unfold sameElsewhere in Helse.
  split_and!.
  - constructor; simpl; auto.
    + intros m Hm. apply Helse. intros ->. by apply Hm.
    + intros e Hm. apply (Helse (re_RunnerName e)); [|done]. intros Heq. apply Hm. by rewrite Heq.
  - destruct HI as [H1 H2 H3 H4]. constructor; simpl; auto.
    + intros m e He. destruct (decide (m = n)) as [->|Hne].
      * destruct r; rewrite Hres in He; [eauto |]. by rewrite lookup_delete_eq in He.
      * destruct (Helse m Hne) as [Heq _]. rewrite Heq in He. eauto.
    + intros m Hm. simpl in *. destruct (decide (m = n)) as [->|Hne].
      * destruct (Hgone s HP) as [?|?]; auto.
      * destruct (Helse m Hne) as [Heq _]. rewrite Heq. auto.
  - split; [by apply Hkeep |]. destruct r as [err|]; unfold Pending, Unlisted; simpl; rewrite Hres.
    + done.
    + apply lookup_delete_eq.
Qed.

(** ** Worker state *)

Lemma owns_removeWorker N n b l :
  N n →
  owns N (Gone n ⋏ Pending b n l) (stateOp (W := W) (removeWorker n)) (λ _, (Gone n ⋏ Idle n) ⋏ Pending b n l).
Proof.
  intros HN. apply spec_act; [by auto with stab |]. intros s x s' HI [HG HP] Hop. simpl in Hop.
  injection Hop as <- <-. split_and!.
  - constructor; simpl; auto. intros m Hm. rewrite lookup_delete_ne; [done |].
    intros ->. by apply Hm.
  - destruct HI as [H1 H2 H3 H4]. constructor; simpl; auto. intros m Hm. simpl in *.
    destruct (decide (m = n)) as [->|Hne]; [auto |]. rewrite lookup_delete_ne by done. auto.
  - split; [split; [done |] | done]. apply lookup_delete_eq.
Qed.

(** Adding a worker under a name the operation owns. *)
Lemma owns_insertWorker N P (f : workerState → workerState) n :
  N n → stableR (frame N) P →
  (∀ s, P s → P (with_state (λ _, f (state s)) s)) →
  (∀ st, ∃ r, workers (f st) = <[n := r]> (workers st)) →
  owns N P (stateOp (λ st, ((), f st))) (λ _, P ⋏ Working n).
Proof.
  intros HN Hst Hkeep Hf. apply spec_act; [done |]. intros s x s' HI HP Hop. simpl in Hop.
  injection Hop as <- <-. destruct (Hf (state s)) as [r Hr]. split_and!.
  - constructor; simpl; auto. intros m Hm. rewrite Hr, lookup_insert_ne; [done |].
    intros ->. by apply Hm.
  - destruct HI as [H1 H2 H3 H4]. constructor; simpl; auto. intros m Hm. simpl in *. rewrite Hr.
    destruct (decide (m = n)) as [->|Hne]; [right; left; rewrite lookup_insert_eq; eauto |].
    rewrite lookup_insert_ne by done. auto.
  - split; [by apply Hkeep |]. unfold Working. simpl. rewrite Hr, lookup_insert_eq. eauto.
Qed.

(** ** Registration and launch *)

Lemma owns_GenerateJit N e :
  N (re_RunnerName e) → re_BudgetDisposition e = forfeitReservation →
  owns N (Held e ⋏ ReservedL (re_LeaseID e))
    (GenerateJit (re_RunnerName e) (re_RunnerScaleSetID e))
    (λ _, Held e ⋏ ReservedL (re_LeaseID e) ⋏ RegisteredN (re_RunnerName e)).
Proof.
  intros HN Hdisp. apply spec_act; [by auto with stab |]. intros s x s' HI [HH HR] Hop.
  simpl in Hop. destruct (env_GenerateJit _ _ (world s)) as [r w]. injection Hop as <- <-.
  split_and!.
  - eapply log_frame; try done. intros n Hn Hd. simpl. rewrite Hd, andb_true_r, negb_true_iff.
    apply String.eqb_neq. intros <-. by apply Hn.
  - eapply (log_Inv _ s); try done.
    + exists e. by split_and!.
    + intros n (ss & q & [Heq|Hin]%elem_of_cons); [|left; by exists ss, q].
      right. injection Heq as -> _ _. destruct HH as [HH _]. by rewrite HH.
    + intros n Hd. simpl. rewrite Hd, andb_true_r.
      destruct (String.eqb_spec (re_RunnerName e) n) as [<-|]; [|by left].
      right. destruct HH as [HH _]. by rewrite HH.
  - split; [done | split].
    + destruct HR as [c Hc]. exists c. by right.
    + eexists _, _. left.
Qed.

Lemma owns_Launch N e target l :
  N (re_RunnerName e) → lease_RunnerName l = re_RunnerName e → lease_ID l = re_LeaseID e →
  lease_RunnerID l = re_RunnerID e → lease_RunnerScaleSetID l = re_RunnerScaleSetID e →
  owns N (Held e ⋏ ReservedL (re_LeaseID e) ⋏ RegisteredN (re_RunnerName e)) (Launch target l)
    (λ r s, (∃ w w', env_Launch target l w = (r, w')) ∧ Held e s).
Proof.
  intros HN H1 H2 H3 H4. apply owns_log; [by auto 6 with stab |].
  intros s x s' HI (HH & HR & HG) Hop. simpl in Hop.
  destruct (env_Launch target l (world s)) as [r w] eqn:El. injection Hop as <- <-.
  split_and!; [done..|]. eexists. split; [reflexivity |]. split_and!; try done.
  - exists e. rewrite H1, H2. by split_and!.
  - intros (HH' & _). split; [by eexists _, _ | done].
Qed.

Lemma reserve_allowed io l t m b r b' :
  reserve io l t m b = (r, b') → rr_allowed r = true →
  ∃ es e, committed (file b') = Complete (mkUsageLedger 1 es) ∧ e ∈ es ∧ ue_LeaseID e = l
          ∧ ue_Active e = true ∧ ue_Seconds e = durationSeconds m.
Proof.
  unfold reserve. destruct (existsb _ _); [by intros [= <- <-] |].
  destruct (negb _); [by intros [= <- <-] |]. destruct (_ || _); [by intros [= <- <-] |].
  destruct (commit _ _ _) as [[err|] b1] eqn:Ec; [by intros [= <- <-] |].
  intros [= <- <-] _. apply commit_cases in Ec as (_ & _ & Hn & _).
  destruct (Hn eq_refl) as [_ Hf]. eexists _, _. split; [exact Hf |].
  split; [apply elem_of_app; right; left | done].
Qed.

Lemma owns_reserve N P l t :
  stableR (frame N) P →
  owns N P (budget_reserve l t (maxLifetime cfg))
    (λ r s, P s ∧ (rr_allowed r = true → ReservedL l s)).
Proof.
  intros Hst. apply spec_act; [done |]. intros s x s' HI HP Hop. simpl in Hop.
  destruct (env_persistIO (world s)) as [io w].
  destruct (reserve io l t (maxLifetime cfg) (budget s)) as [r b] eqn:Er. injection Hop as <- <-.
  destruct (rr_allowed r) eqn:Ea.
  - set (s' := log _ _).
    assert (HF : ∀ N, frame N s s').
    { intros N'. eapply log_frame; try done. }
    split_and!; [done | | by apply (Hst s s') | intros _; eexists; left].
    eapply (log_Inv _ s); try done.
    + by apply (reserve_allowed _ _ _ _ _ _ _ Er).
    + intros n Hn. left. eapply registered_cons; [|exact Hn]. done.
    + intros n Hn. left. by apply dereg_cons.
  - assert (Hq : quiet s (with_world w (with_budget b s))) by by constructor.
    split_and!; [by apply quiet_frame | by eapply quiet_Inv | | done].
    eapply Hst; [by apply quiet_frame | done].
Qed.
End calls.
