(* ===== verification/ScalerOps.v ===== *)
(** The scaler's operations keep its invariant: retirement, launch, and the
    recovery of a failed launch. *)

From S2P Require Import Prelude Program Provider UsageBudget BudgetFacts RetirementQueue WorkerState.
From S2P Require Import Scaler ScalerSpecs.

(** What the outside promises: UUIDs do not repeat, and the provider returns
    workers under the runner name of their lease. *)
Class EnvLaws {W} (E : Env W) : Prop := {
  uuid_inj : Inj (=) (=) env_uuid;
  launch_named : ∀ target l w r w',
    env_Launch target l w = (inr r, w') → RunnerName r = lease_RunnerName l;
  partial_named : ∀ target l w err w' p,
    env_Launch target l w = (inl err, w') → errors_as as_partial err = Some p → ID p ≠ "" →
    RunnerName p = lease_RunnerName l;
  inventory_named : ∀ w ws w' x n,
    env_Inventory w = (inr ws, w') → x ∈ ws → LeaseID x = env_uuid n →
    RunnerName x = runnerName (env_uuid n)
}.

Section ops.
Context {W : Type} {E : Env W} (cfg : scalerConfig).
Implicit Types (s : scaler W) (P F : scaler W → Prop) (N : string → Prop).
Abbreviation owns := (owns cfg).

(** * Composite steps that keep the precondition *)

Lemma keep_bind {A B} N P (p : prog (scaler W) A) (f : A → prog (scaler W) B) :
  owns N P p (λ _, P) → (∀ a, owns N P (f a) (λ _, P)) → owns N P (p ≫= f) (λ _, P).
Proof. apply owns_seq. Qed.
Hint Resolve keep_bind : keep.

Lemma keep_reportRetirements N P : stableR (frame N) P → owns N P reportRetirements (λ _, P).
Proof. intros H. unfold reportRetirements. auto 10 with keep. Qed.

Lemma keep_reportBudget N P : stableR (frame N) P → owns N P reportBudget (λ _, P).
Proof. intros H. unfold reportBudget. auto 10 with keep. Qed.

Lemma keep_reportScaleSets N P :
  stableR (frame N) P → owns N P (reportScaleSets cfg) (λ _, P).
Proof. intros H. unfold reportScaleSets. destruct (ephemeral cfg); auto 10 with keep. Qed.
Hint Resolve keep_reportScaleSets : keep.

Lemma keep_reportState N P : stableR (frame N) P → owns N P (reportState cfg) (λ _, P).
Proof.
  intros H. unfold reportState. apply keep_bind; [auto with keep |].
  intros [[[a b] i] u]. auto with keep.
Qed.

Lemma keep_settleRetirement N P e : stableR (frame N) P → owns N P (settleRetirement e) (λ _, P).
Proof.
  intros H. unfold settleRetirement. apply keep_bind; [auto with keep |]. intros t.
  destruct (String.eqb _ _); auto with keep.
Qed.

Lemma keep_GetRunner N P n : stableR (frame N) P → owns N P (GetRunnerByName n) (λ _, P).
Proof.
  intros H. eapply owns_conseq; [by apply (owns_GetRunner cfg N P n) | done | by intros a s [? _]].
Qed.

(** Reporting a failure keeps the state. *)
Lemma owns_failed N P reason err Q :
  stableR (frame N) P → (∀ s, P s → Q (Some err) s) → owns N P (failed reason err) Q.
Proof.
  intros H HQ. unfold failed, degraded. apply owns_seq; [auto with keep |]. intros _. by apply owns_ret.
Qed.

(** * Retirement *)

Lemma owns_destroyWorker N P w b l :
  stableR (frame N) P → (∀ s, P s → Pending b (RunnerName w) l s) → b = true → l = LeaseID w →
  owns N P (destroyWorker w) (λ _, P).
Proof.
  intros Hst Hp Hb Hl. unfold destroyWorker. apply owns_seq; [by eapply owns_Destroy |].
  intros [err|]; [|auto with keep]. apply owns_seq; [auto with keep |].
  intros [e|ws]; [auto with keep |]. destruct (existsb _ _); auto with keep.
Qed.

Lemma owns_removeRunnerRegistration N ret b :
  N (re_RunnerName ret) →
  owns N (Pending b (re_RunnerName ret) (re_LeaseID ret) ⋏ Proven ret)
    (removeRunnerRegistration cfg ret)
    (λ r, Pending b (re_RunnerName ret) (re_LeaseID ret) ⋏
          λ s, r = None → Gone (re_RunnerName ret) s).
Proof.
  intros HN. unfold removeRunnerRegistration.
  destruct (servesScaleSet cfg (re_RunnerScaleSetID ret)) eqn:Hserve; cbn [negb];
    [|apply owns_ret; by intros s [? ?]].
  eapply owns_bind; [apply owns_GetRunner; auto with stab |].
  intros [err|[runner|]]; [apply owns_ret; by intros s [[? ?] ?] | |
                           apply owns_ret; by intros s [[? ?] ?]].
  destruct (wrongRunner runner ret) eqn:Hwrong; [apply owns_ret; by intros s [[? ?] ?] |].
  set (bound := if re_RunnerID ret =? 0 then with_RunnerID (rr_ID runner) ret else ret).
  assert (Hb : re_RunnerName bound = re_RunnerName ret ∧ re_LeaseID bound = re_LeaseID ret
               ∧ re_RunnerScaleSetID bound = re_RunnerScaleSetID ret) by
    (unfold bound; by destruct (_ =? _)).
  destruct Hb as (Hbn & Hbl & Hbs).
  assert (Hbw : wrongRunner runner bound = false) by
    (unfold wrongRunner in *; by rewrite Hbn, Hbs).
  (* the journal holds the identity about to be removed *)
  eapply owns_on_err with (T := λ r,
    (Pending b (re_RunnerName ret) (re_LeaseID ret) ⋏
     λ s, r = None → ∃ e, Journaled e ∈ trace s ∧ versionOf bound e) ⋏
    LookedAt (re_RunnerName ret) runner).
  - unfold bound. destruct (re_RunnerID ret =? 0) eqn:Hid.
    + eapply owns_conseq; [apply owns_history; [apply historic_LookedAt |];
        apply (owns_put cfg N (with_RunnerID (rr_ID runner) ret) b); done | |].
      * intros s [[? ?] ?]. done.
      * intros r s [[? Hr] ?]. split; [split; [done |] | done].
        intros Hnone. destruct (Hr Hnone) as (e & _ & He & Hv). eauto.
    + apply owns_ret. intros s [[? He] ?]. split; [split; [done |] | done]. by intros _.
  - intros err. apply owns_ret. by intros s [[? _] _].
  - destruct (rr_ID runner =? re_RunnerID bound) eqn:Hrid; cbn [negb];
      [|apply owns_ret; by intros s [[? _] _]].
    apply Z.eqb_eq in Hrid.
    intros s [[HP He] Hlk]. destruct (He eq_refl) as (e' & He' & Hv). revert s HP Hlk He' He.
    assert (Hspec : owns N (λ s, Pending b (re_RunnerName ret) (re_LeaseID ret) s
      ∧ Journaled e' ∈ trace s ∧ LookedAt (re_RunnerName ret) runner s)
      (RemoveRunner (re_RunnerName ret) (re_RunnerID bound))
      (λ x s, (Pending b (re_RunnerName ret) (re_LeaseID ret) s
        ∧ Journaled e' ∈ trace s ∧ LookedAt (re_RunnerName ret) runner s)
        ∧ (x = None → Gone (re_RunnerName ret) s))).
    { eapply (owns_RemoveRunner cfg N _ bound e' runner); try done.
      - intros s s' HF (H1 & H2 & H3). split_and!.
        + by apply (stable_Pending N b _ _ HN s s').
        + by apply HF.
        + by apply HF.
      - by intros s (_ & ? & ?).
      - by rewrite Hbs. }
    intros s HP Hlk He' _.
    refine (owns_on_err cfg N _ _ _ _ _ _ Hspec _ _ s _); [| |done].
    + intros err. apply owns_ret. intros s0 [[? _] _]. by split.
    + apply owns_ret. intros s0 [[? _] HG]. split; auto.
Qed.

(** A retirement either ends with nothing left of the runner, or keeps the
    journal entry it was called for. *)
Lemma owns_finishRetirement N w pp ret b :
  N (re_RunnerName ret) → (pp = true → b = true) →
  owns N (Pending b (re_RunnerName ret) (re_LeaseID ret) ⋏ Proven ret)
    (finishRetirement cfg w pp ret)
    (λ r, match r with
          | None => (Gone (re_RunnerName ret) ⋏ Idle (re_RunnerName ret)) ⋏ Unlisted (re_RunnerName ret)
          | Some _ => Pending b (re_RunnerName ret) (re_LeaseID ret)
          end).
Proof.
  intros HN Hpp. unfold finishRetirement.
  destruct (validateWorkerRetirementProof w ret) as [err|] eqn:Hval;
    [apply owns_ret; by intros s [? _] |].
  assert (Hid : RunnerName w = re_RunnerName ret ∧ LeaseID w = re_LeaseID ret).
  { unfold validateWorkerRetirementProof in Hval. destruct (_ || _) eqn:Ho; [done |].
    apply orb_false_iff in Ho as [H1 H2]. rewrite negb_false_iff, String.eqb_eq in H1, H2. done. }
  destruct Hid as [Hn Hl].
  eapply owns_on_err with (T := λ _, Pending b (re_RunnerName ret) (re_LeaseID ret) ⋏ Proven ret).
  { destruct pp; [|auto with keep]. eapply owns_destroyWorker with (l := re_LeaseID ret);
      [by auto with stab | | by apply Hpp | done]. rewrite Hn. by intros s [? _]. }
  { intros err. apply owns_failed; [by auto with stab | by intros s [? _]]. }
  eapply owns_on_err; [by apply owns_removeRunnerRegistration | |].
  { intros err. apply (owns_pre cfg N _ (Pending b (re_RunnerName ret) (re_LeaseID ret)));
      [|by intros s [? _]].
    apply owns_seq; [unfold degraded; by auto with keep stab |].
    intros _. destruct (errors_is _ err); by apply owns_ret. }
  apply (owns_pre cfg N _ (Gone (re_RunnerName ret) ⋏ Pending b (re_RunnerName ret) (re_LeaseID ret)));
    [|intros s [? HG]; split; auto].
  eapply owns_on_err; [apply keep_settleRetirement; by auto with stab | |].
  { intros err. apply owns_failed; [by auto with stab | by intros s [_ ?]]. }
  eapply owns_bind; [by apply owns_removeWorker |]. intros ?.
  eapply owns_on_err; [apply owns_remove with (P := Gone (re_RunnerName ret) ⋏ Idle (re_RunnerName ret)) | |].
  - done.
  - by auto with stab.
  - done.
  - intros s [? _]. by left.
  - intros err. apply owns_failed; [by auto with stab | by intros s [_ ?]].
  - apply owns_seq; [apply keep_reportRetirements; by auto with stab |]. intros _. by apply owns_ret.
Qed.

(** The same for a worker: its intent is journaled first. *)
Lemma owns_retireWorker N w pp d at_ :
  N (RunnerName w) →
  owns N anyS (retireWorker cfg w pp d at_)
    (λ r s, r = None →
       (∃ e, rq_entries (retirements s) !! RunnerName w = Some e)
       ∨ (Gone (RunnerName w) ⋏ Idle (RunnerName w)) s).
Proof.
  intros HN. unfold retireWorker. apply owns_seq; [auto with keep stab |]. intros t.
  set (ret := mkRetirementEntry _ _ _ _ _ _ _).
  eapply owns_on_err.
  { eapply owns_pre; [by apply (owns_put cfg N ret false) |]. by intros s _. }
  { intros err. apply owns_failed; [|done]. intros s s' HF [HP HE]. by split. }
  apply (owns_pre cfg N _ (Pending true (RunnerName w) (LeaseID w) ⋏ Proven ret)).
  2:{ intros s [_ He]. destruct (He eq_refl) as (e & [Hl _] & HJ & Hv). split.
      - intros _. exists e. rewrite (vo_name _ _ Hv) in Hl. split; [done | apply Hv].
      - by exists e. }
  apply owns_seq; [apply keep_reportRetirements; by auto with stab |]. intros _.
  eapply owns_bind; [by apply (owns_finishRetirement N w pp ret true) |].
  intros [err|]; cbn [is_err].
  - destruct (errors_is errRetirementDeferred err);
      [|destruct (IsTransient err)]; apply owns_ret; intros s HP Hr; try done;
      destruct (HP eq_refl) as (e & He & _); eauto.
  - apply owns_ret. intros s [? _] _. by right.
Qed.
End ops.

#[export] Hint Resolve keep_bind keep_reportRetirements keep_reportBudget keep_reportScaleSets
  keep_reportState keep_settleRetirement keep_GetRunner : keep.

(** * Launching *)

Section launch.
Context {W : Type} {E : Env W} (cfg : scalerConfig) `{!EnvLaws E}.
Implicit Types (s : scaler W) (P F : scaler W → Prop) (N : string → Prop).
Abbreviation owns := (owns cfg).

(** A program after which nothing particular is known. *)
Lemma owns_any {A} N P (p : prog (scaler W) A) Q : owns N P p Q → owns N P p (λ _, anyS).
Proof. intros H. by eapply owns_conseq. Qed.

(** A final value, or a report and a final value. *)
Lemma owns_done {A} N P (a : A) : owns N P (mret a) (λ _, anyS).
Proof. by apply owns_ret. Qed.

Lemma owns_failed_any N P reason err :
  stableR (frame N) P → owns N P (failed reason err) (λ _, anyS).
Proof. intros H. by apply owns_failed. Qed.

Lemma owns_then {A B} N P (p : prog (scaler W) A) (f : A → prog (scaler W) B) Q :
  owns N P p Q → (∀ a, owns N anyS (f a) (λ _, anyS)) → owns N P (p ≫= f) (λ _, anyS).
Proof. intros Hp Hf. eapply owns_bind; [by eapply owns_any |]. done. Qed.

(** The entry may go once its registration is known to be gone. *)
Lemma owns_remove_gone N n : N n → owns N (Gone n) (retirements_remove n) (λ _, anyS).
Proof.
  intros HN. eapply owns_conseq;
    [apply (owns_remove cfg N (Gone n) n false ""); auto with stab | by intros s | done].
Qed.

(** A put keeps the facts of history. *)
Lemma owns_put_history N F entry :
  N (re_RunnerName entry) → historic F →
  owns N F (retirements_put entry)
    (λ r, F ⋏ λ s, r = None → ∃ e, Held e s ∧ Journaled e ∈ trace s ∧ versionOf entry e).
Proof.
  intros HN HF.
  eapply owns_conseq; [apply (owns_history cfg N _ F _ _ HF (owns_put cfg N entry false HN)) | |].
  - intros s Hs. by split.
  - intros r s [[_ ?] ?]. by split.
Qed.

Lemma owns_cleanupRejectedLaunch N ret :
  N (re_RunnerName ret) → owns N (Proven ret) (cleanupRejectedLaunch cfg ret) (λ _, anyS).
Proof.
  intros HN. unfold cleanupRejectedLaunch.
  eapply owns_on_err; [eapply owns_pre; [by apply (owns_removeRunnerRegistration cfg N ret false) |];
    by intros s | |].
  { intros err. apply owns_failed_any. intros s s' HF [_ HE]. by split. }
  apply (owns_pre cfg N _ (Gone (re_RunnerName ret))); [|intros s [_ HG]; auto].
  eapply owns_on_err; [apply keep_budgetOp; auto with stab | |].
  { intros err. apply owns_failed_any. auto with stab. }
  eapply owns_on_err; [by apply owns_remove_gone | |].
  { intros err. apply owns_failed_any. auto with stab. }
  apply owns_seq; [auto with keep stab |]. intros _. apply owns_done.
Qed.

Lemma owns_cleanupJIT N ret err :
  N (re_RunnerName ret) →
  owns N (Proven ret) (cleanupJITGenerationFailure cfg ret err) (λ _, anyS).
Proof.
  intros HN. unfold cleanupJITGenerationFailure.
  eapply owns_bind; [apply owns_GetRunner; auto with stab |].
  intros [e|[runner|]]; [apply owns_done | |].
  - destruct (wrongRunner runner ret); [apply owns_done |].
    set (bound := with_RunnerID _ ret).
    apply (owns_pre cfg N _ anyS); [|done].
    eapply owns_on_err; [by apply (owns_put_history N anyS bound); [|auto with stab] | |].
    { intros e. apply owns_done. }
    apply (owns_pre cfg N _ (Pending false (re_RunnerName bound) (re_LeaseID bound) ⋏ Proven bound)).
    2:{ intros s [_ He]. destruct (He eq_refl) as (e & _ & HJ & Hv). split; [done |]. by exists e. }
    eapply owns_on_err; [by apply owns_finishRetirement | |]; intros; apply owns_done.
  - apply (owns_pre cfg N _ (Gone (re_RunnerName ret))); [|by intros s [_ ?]].
    eapply owns_on_err; [by apply owns_remove_gone | |].
    { intros e. apply owns_done. }
    apply owns_seq; [auto with keep stab |]. intros _.
    eapply owns_on_err; [apply keep_budgetOp; auto with stab | |]; intros; apply owns_done.
Qed.

(** Retiring workers one by one under names the launch owns. *)
Lemma owns_retireAll N P (ws : list Worker) (f : option error → option (option error)) k :
  (∀ w, w ∈ ws → N (RunnerName w)) → historic P → owns N P k (λ _, anyS) →
  owns N P (for_each ws (λ w, err ← retireWorker cfg w true forfeitReservation zeroTime;
                              mret (f err)) k) (λ _, anyS).
Proof.
  intros HN HP Hk. induction ws as [|w ws IH]; [done |]. cbn [for_each].
  apply owns_bind with (T := λ _, P).
  - apply owns_seq; [|intros; apply keep_ret].
    eapply owns_conseq; [apply owns_history; [exact HP |];
      apply (owns_retireWorker cfg N w); apply HN; left | |].
    + intros s Hs. split; [|exact Hs]. done.
    + by intros r s [_ ?].
  - intros [r|]; [apply owns_done |]. apply IH. intros x Hx. apply HN. by right.
Qed.

Lemma owns_cleanupAmbiguousLaunch k ret err (N := λ n, n = runnerName (env_uuid k)) :
  N (re_RunnerName ret) → re_LeaseID ret = env_uuid k →
  (∀ p, errors_as as_partial err = Some p → ID p ≠ "" → N (RunnerName p)) →
  owns N (Proven ret) (cleanupAmbiguousLaunch cfg ret err) (λ _, anyS).
Proof.
  intros HN Hl Hpart. unfold cleanupAmbiguousLaunch.
  eapply owns_on_err with (T := λ _, Proven ret).
  { destruct (errors_as as_partial err) as [p|]; [|apply keep_ret].
    destruct (String.eqb_spec (ID p) "") as [|Hne]; cbn [negb]; [apply keep_ret |].
    eapply owns_conseq; [apply owns_history; [apply historic_Proven |];
      apply (owns_retireWorker cfg N p); by apply Hpart | |].
    - intros s Hs. split; [|exact Hs]. done.
    - by intros r s [_ ?]. }
  { intros e. apply owns_done. }
  eapply owns_bind.
  { apply (owns_quiet cfg N (Proven ret) _ (λ r, ∃ w w', env_Inventory w = (r, w')));
      [auto with stab |].
    intros s x s' Hop. destruct (env_Inventory (world s)) as [r w] eqn:Ei. simplify_eq/=.
    split; [by constructor | eauto]. }
  intros r. apply owns_pure. intros (w & w' & Hinv). destruct r as [e|ws]; [apply owns_done |].
  assert (Hin : ∀ x, x ∈ keep (leftBehind (re_LeaseID ret) (errors_as as_partial err)) ws →
                     N (RunnerName x)).
  { intros x [Hx Hlb]%elem_of_keep. unfold leftBehind in Hlb.
    rewrite negb_true_iff, orb_false_iff, negb_false_iff, String.eqb_eq in Hlb.
    destruct Hlb as [Hlb _]. rewrite Hl in Hlb. by apply (inventory_named _ _ _ _ _ Hinv Hx). }
  apply (owns_retireAll N (Proven ret) _
    (λ err0, match err0 with Some err0 => Some (Some (JoinError [err; WrapError _ err0])) | None => None end));
    [done | apply historic_Proven |].
  destruct (keep _ ws); [|apply owns_done].
  eapply owns_on_err; [eapply owns_pre; [by apply (owns_finishRetirement cfg N _ false ret false) |];
    by intros s | |]; intros; apply owns_done.
Qed.

Lemma owns_launchFailed k ret err (N := λ n, n = runnerName (env_uuid k)) :
  N (re_RunnerName ret) → re_LeaseID ret = env_uuid k →
  (∀ p, errors_as as_partial err = Some p → ID p ≠ "" → N (RunnerName p)) →
  owns N (Proven ret) (launchFailed cfg ret err) (λ _, anyS).
Proof.
  intros HN Hl Hpart. unfold launchFailed. destruct (IsCapacity err).
  - eapply owns_on_err; [by apply owns_cleanupRejectedLaunch | |].
    + intros e. apply owns_done.
    + apply owns_seq; [auto with keep stab |]. intros _. apply owns_done.
  - apply owns_seq.
    { destruct (errors_as as_rejected _); unfold degraded; auto with keep stab. }
    intros _. eapply owns_on_err; [by apply owns_cleanupAmbiguousLaunch | |].
    + intros e. apply owns_done.
    + apply owns_seq; [auto with keep stab |]. intros _. apply owns_done.
Qed.

Lemma owns_launchSucceeded N ret w :
  N (re_RunnerName ret) → RunnerName w = re_RunnerName ret →
  owns N anyS (launchSucceeded cfg ret w) (λ _, anyS).
Proof.
  intros HN Hw. unfold launchSucceeded. apply owns_seq; [auto with keep stab |].
  intros [err|].
  - apply owns_seq; [unfold degraded; auto with keep stab |]. intros _.
    eapply owns_then; [apply (owns_retireWorker cfg N); simpl; by rewrite Hw |]. intros ce.
    apply owns_seq; [auto with keep stab |]. intros _. apply owns_done.
  - eapply owns_bind.
    { apply (owns_insertWorker cfg N anyS (addWorker (identified w ret) false) (re_RunnerName ret));
        [done | auto with stab | done |]. intros st. rewrite <- Hw. by eexists. }
    intros ?. eapply owns_bind.
    { eapply owns_pre; [apply (owns_remove cfg N (Working (re_RunnerName ret)) (re_RunnerName ret) false "");
        auto with stab |]. intros s [_ ?]. by split. }
    intros [err|].
    + apply (owns_pre cfg N _ anyS); [|done].
      apply owns_seq; [unfold degraded; auto with keep stab |]. intros _. apply owns_done.
    + apply (owns_pre cfg N _ anyS); [|done].
      do 4 (apply owns_seq; [auto with keep stab | intros _]). apply owns_done.
Qed.

Lemma owns_launchBound k target bound e jit (N := λ n, n = runnerName (env_uuid k)) :
  N (re_RunnerName bound) → re_LeaseID bound = env_uuid k → re_RunnerID bound ≠ 0 →
  versionOf bound e →
  owns N ((Held e ⋏ ReservedL (re_LeaseID e) ⋏ RegisteredN (re_RunnerName e)) ⋏ Proven bound)
    (launchBound cfg target bound jit) (λ _, anyS).
Proof.
  intros HN Hl Hid Hv. pose proof Hv as [V1 V2 V3 V4 V5]. specialize (V5 Hid). unfold launchBound.
  assert (HNe : N (re_RunnerName e)) by by rewrite V1.
  do 3 (apply owns_seq; [auto 8 with keep stab | intros ?]).
  eapply owns_bind.
  { apply owns_history; [apply historic_Proven |].
    apply (owns_Launch cfg N e); simpl; auto; congruence. }
  intros r. apply (owns_pre cfg N _ (λ s, (∃ w w', env_Launch target
    (mkLease (re_LeaseID bound) (re_RunnerName bound) (re_RunnerID bound)
       (re_RunnerScaleSetID bound) jit (Add a1 (maxLifetime cfg - 30 * Second)) (idleTimeout cfg)) w
       = (r, w')) ∧ Proven bound s)).
  2:{ intros s [[? ?] ?]. by split. }
  apply owns_pure. intros (w & w' & Hlaunch).
  do 3 (apply owns_seq; [auto 8 with keep stab | intros ?]).
  destruct r as [err|worker].
  - apply owns_launchFailed; [done | done |]. intros p Hp Hne.
    by rewrite (partial_named _ _ _ _ _ _ Hlaunch Hp Hne).
  - apply (owns_pre cfg N _ anyS); [|done]. apply owns_launchSucceeded; [done |].
    by rewrite (launch_named _ _ _ _ _ Hlaunch).
Qed.

(** Either way, the reservation and the registration are facts of history. *)
Lemma owns_bindRegistration k target ret jit (N := λ n, n = runnerName (env_uuid k)) :
  N (re_RunnerName ret) → re_LeaseID ret = env_uuid k →
  owns N (ReservedL (re_LeaseID ret) ⋏ RegisteredN (re_RunnerName ret))
    (bindRegistration cfg target ret jit) (λ _, anyS).
Proof.
  intros HN Hl. unfold bindRegistration.
  eapply owns_bind with (T := λ _, ReservedL (re_LeaseID ret) ⋏ RegisteredN (re_RunnerName ret)).
  { unfold resolveRegistration. destruct (jit_Runner jit) as [r|]; [destruct (rr_ID r <? 1)|];
      auto 6 with keep stab. }
  intros [err|[reg|]]; [apply owns_done | | apply owns_done].
  destruct (invalidRegistration _ _ reg) eqn:Hinv; [apply owns_done |].
  set (bound := with_RunnerID (rr_ID reg) ret).
  assert (Hid : re_RunnerID bound ≠ 0).
  { unfold invalidRegistration in Hinv. simpl. intros H0. rewrite H0 in Hinv. done. }
  eapply owns_bind.
  { apply (owns_put_history N (ReservedL (re_LeaseID ret) ⋏ RegisteredN (re_RunnerName ret)) bound);
      [done | by auto with stab]. }
  intros [err|].
  { apply (owns_pre cfg N _ anyS); [|done].
    apply owns_seq; [unfold degraded; auto with keep stab |]. intros _. apply owns_done. }
  intros s [[HR HG] He]. destruct (He eq_refl) as (e' & HH & HJ & Hv').
  eapply (owns_launchBound k target bound e'); [done.. |]. pose proof Hv' as [U1 U2 U3 U4 U5].
  split; [split; [done | split; [by rewrite U3 | by rewrite U1]] | by exists e'].
Qed.

Lemma owns_registerRunner k target ret e (N := λ n, n = runnerName (env_uuid k)) :
  N (re_RunnerName ret) → re_LeaseID ret = env_uuid k →
  re_BudgetDisposition ret = forfeitReservation → versionOf ret e →
  owns N ((Held e ⋏ ReservedL (re_LeaseID e)) ⋏ Proven ret)
    (registerRunner cfg target ret) (λ _, anyS).
Proof.
  intros HN Hl Hd [V1 V2 V3 V4 V5]. unfold registerRunner.
  assert (HNe : N (re_RunnerName e)) by by rewrite V1.
  apply owns_seq; [auto 8 with keep stab |]. intros _.
  eapply owns_bind with (T := λ _, (ReservedL (re_LeaseID ret) ⋏ RegisteredN (re_RunnerName ret)) ⋏ Proven ret).
  { rewrite <- V1, <- V2, <- V3. eapply owns_conseq;
      [apply owns_history; [apply historic_Proven | by apply (owns_GenerateJit cfg N e); [|congruence]] |
       done |]. by intros a s [[_ ?] ?]. }
  intros [err|[jit|]].
  - eapply owns_then; [eapply owns_pre; [by apply (owns_cleanupJIT N ret) | by intros s [_ ?]] |].
    intros. apply owns_done.
  - eapply owns_pre; [by apply owns_bindRegistration | by intros s [? _]].
  - eapply owns_then; [eapply owns_pre; [by apply (owns_cleanupJIT N ret) | by intros s [_ ?]] |].
    intros. apply owns_done.
Qed.

Lemma owns_journalAndRegister k route target (N := λ n, n = runnerName (env_uuid k)) :
  owns N (ReservedL (env_uuid k)) (journalAndRegister cfg route target (env_uuid k)) (λ _, anyS).
Proof.
  unfold journalAndRegister. apply owns_seq; [auto with keep stab |]. intros t.
  set (ret := mkRetirementEntry _ _ _ _ _ _ _).
  eapply owns_bind.
  { by apply (owns_put_history N (ReservedL (env_uuid k)) ret); [|auto with stab]. }
  intros [err|].
  { apply (owns_pre cfg N _ anyS); [|done].
    do 3 (apply owns_seq; [unfold degraded; auto with keep stab | intros ?]). apply owns_done. }
  intros s [HR He]. destruct (He eq_refl) as (e & HH & HJ & Hv).
  apply (owns_registerRunner k target ret e); [done.. |].
  split; [split; [done | by rewrite (vo_lease _ _ Hv)] | by exists e].
Qed.

(** A whole launch keeps the invariant, and touches only its own runner. *)
Lemma owns_startLease k route spare (N := λ n, n = runnerName (env_uuid k)) :
  owns N anyS (startLease cfg route spare (env_uuid k)) (λ _, anyS).
Proof.
  unfold startLease. apply owns_seq; [auto with keep stab |]. intros t.
  eapply owns_bind; [apply owns_reserve; auto with stab |]. intros r.
  destruct (rr_err r) as [err|].
  { apply (owns_pre cfg N _ anyS); [|done].
    apply owns_seq; [unfold degraded; auto with keep stab |]. intros _. apply owns_done. }
  destruct (rr_allowed r); cbn [negb].
  2:{ apply (owns_pre cfg N _ anyS); [|done].
      apply owns_seq; [auto with keep stab |]. intros _. apply owns_done. }
  apply (owns_pre cfg N _ (ReservedL (env_uuid k))); [|intros s [_ HR]; auto].
  apply owns_seq; [auto with keep stab |]. intros _.
  eapply owns_bind; [apply owns_GetRunner; auto with stab |].
  intros [err|[x|]]; cbn beta.
  - apply (owns_pre cfg N _ anyS); [|done]. unfold abandon.
    apply owns_seq; [auto with keep stab |]. intros b. apply owns_done.
  - apply (owns_pre cfg N _ anyS); [|done]. unfold abandon.
    apply owns_seq; [auto with keep stab |]. intros b. apply owns_done.
  - eapply owns_pre; [apply owns_journalAndRegister |]. by intros s [? _].
Qed.
End launch.
