(* ===== verification/ScalerRuns.v ===== *)
(** Concurrent launches and whole handlers keep the scaler's invariant.

    And a concrete outside for the scaler: a provider that keeps a list of workers and a
    GitHub that keeps a list of registrations.  It satisfies the laws of [EnvLaws], and
    the examples run whole handlers on it. *)

From stdpp Require Import pretty.
From S2P Require Import Prelude Program Provider UsageBudget RetirementQueue WorkerState Scaler.
From S2P Require Import ScalerSpecs ScalerOps.

(** Handlers own every name: nothing runs beside them but the launches they start. *)
Definition every : string → Prop := λ _, True.

Lemma runnerName_inj a b : runnerName a = runnerName b → a = b.
Proof. apply (inj (String.append "runner-")). Qed.

(** * Concurrent launches *)

Section pool.
Context {W : Type} {E : Env W} (cfg : scalerConfig) `{!EnvLaws E}.
Context (route : scaleSetRoute) (spare : bool).
Implicit Types s : scaler W.
Abbreviation thread := (prog (scaler W) (bool * option error)).
Abbreviation start := (startWorker cfg route spare).

(** The name of the [k]-th lease. *)
Definition ownName (k : nat) : string → Prop := λ n, n = runnerName (env_uuid k).

Lemma ownName_disjoint j k s s' :
  j ≠ k → frame (others (ownName j)) s s' → frame (ownName k) s s'.
Proof.
  intros Hne. apply frame_weaken. intros n -> Hj. apply Hne.
  symmetry. apply (uuid_inj (EnvLaws := EnvLaws0)). by apply runnerName_inj.
Qed.

(** A goroutine that has not drawn its lease, or owns the [k]-th. *)
Definition threadOK s (o : option nat) (p : thread) : Prop :=
  match o with
  | None => p = start
  | Some k => (k < drawn s)%nat ∧
      wp (frame (ownName k)) (frame (others (ownName k))) (Inv cfg) p (λ _ _, True) s
  end.

Definition threadsOK s (os : list (option nat)) (rs : list thread) : Prop :=
  Forall2 (threadOK s) os rs ∧ NoDup (omap id os).

Lemma threadOK_rely s s' o p :
  (∀ k, o = Some k → frame (ownName k) s s') → threadOK s o p → threadOK s' o p.
Proof.
  intros HF. destruct o as [k|]; [|done]. intros [Hk Hwp]. specialize (HF k eq_refl). split.
  - pose proof (fr_drawn _ _ _ HF). lia.
  - eapply wp_rely; [| |exact HF | exact Hwp]; [apply _ | done].
Qed.

(** A started goroutine runs to its end. *)
Lemma thread_start s :
  Inv cfg s →
  threadOK (execP newUUID s) (Some (drawn s)) (startLease cfg route spare (env_uuid (drawn s)))
  ∧ Inv cfg (execP newUUID s) ∧ ∀ N, frame N s (execP newUUID s).
Proof.
  intros HI. assert (Hq : quiet s (execP newUUID s)) by by (constructor; simpl; auto).
  split_and!; [|by eapply quiet_Inv | intros N; by apply quiet_frame].
  split; [simpl; lia |]. by apply (owns_startLease cfg (drawn s) route spare).
Qed.

(** One action of a goroutine, seen by itself and by the others. *)
Lemma thread_step s o p p' s' :
  Inv cfg s → threadOK s o p → stepP p s = (p', s') →
  ∃ j, (o = Some j ∨ o = None ∧ j = drawn s) ∧ threadOK s' (Some j) p' ∧ Inv cfg s' ∧
       frame (others (ownName j)) s s'.
Proof.
  intros HI Hth Hop. destruct o as [j|].
  - exists j. destruct Hth as [Hj Hwp].
    destruct (wp_step (frame (ownName j)) _ _ _ _ _ _ _ Hwp HI Hop) as (HG & HI' & Hk).
    split_and!; [by left | | done | done]. split; [|done]. pose proof (fr_drawn _ _ _ HG). lia.
  - exists (drawn s). simpl in Hth. subst p. destruct (thread_start s HI) as (Ht & HI' & HF).
    cbn in Hop. injection Hop as <- <-. split_and!; [by right | done | done | apply HF].
Qed.

(** A goroutine run to its end. *)
Lemma thread_run s o p :
  Inv cfg s → threadOK s o p →
  ∃ j, (o = Some j ∨ o = None ∧ j = drawn s) ∧ Inv cfg (execP p s) ∧
       frame (others (ownName j)) s (execP p s).
Proof.
  assert (Hrun : ∀ s j p, Inv cfg s → threadOK s (Some j) p →
            Inv cfg (execP p s) ∧ frame (others (ownName j)) s (execP p s)).
  { clear s o p. intros s j p HI [_ Hwp].
    destruct (wp_run (frame (ownName j)) _ _ _ _ _ Hwp HI) as (? & ? & _). done. }
  intros HI Hth. destruct o as [j|].
  - exists j. destruct (Hrun s j p HI Hth). auto.
  - exists (drawn s). simpl in Hth. subst p. destruct (thread_start s HI) as (Ht & HI' & HF).
    unfold startWorker. rewrite execP_bind. destruct (Hrun _ _ _ HI' Ht) as [? ?].
    split_and!; [by right | done |]. etrans; [apply HF | done].
Qed.

(** The others go on undisturbed. *)
Lemma threads_others s s' j os rs :
  Forall2 (threadOK s) os rs → (∀ k, k ∈ omap id os → k ≠ j) →
  frame (others (ownName j)) s s' → Forall2 (threadOK s') os rs.
Proof.
  intros HF Hne Hfr. induction HF as [|o p os rs Hth _ IH]; [constructor |]. constructor.
  - eapply threadOK_rely; [|exact Hth]. intros k ->. eapply ownName_disjoint; [|exact Hfr].
    intros ->. apply (Hne k); [|done]. simpl. by left.
  - apply IH. intros k Hk. apply Hne. destruct o; simpl; [by right | done].
Qed.

Lemma owned_drawn s os rs k : Forall2 (threadOK s) os rs → k ∈ omap id os → (k < drawn s)%nat.
Proof.
  induction 1 as [|o p os rs Hth _ IH]; simpl; [by intros ?%elem_of_nil |].
  destruct o as [j|]; simpl; [|done]. intros [->|Hk]%elem_of_cons; [by destruct Hth | auto].
Qed.

(** No other goroutine owns the lease of one at work. *)
Lemma owned_apart s os1 o os2 l1 p l2 j :
  threadsOK s (os1 ++ o :: os2) (l1 ++ p :: l2) → length os1 = length l1 →
  (o = Some j ∨ o = None ∧ j = drawn s) →
  Forall2 (threadOK s) os1 l1 ∧ threadOK s o p ∧ Forall2 (threadOK s) os2 l2 ∧
  (∀ k, k ∈ omap id os1 ∨ k ∈ omap id os2 → k ≠ j) ∧ NoDup (omap id os1 ++ omap id os2).
Proof.
  intros [HF HN] Hlen Ho. apply Forall2_app_inv in HF as [HF1 HF2]; [|done].
  apply Forall2_cons in HF2 as [Hp HF2]. split_and!; [done..| |].
  - intros k Hk ->. destruct Ho as [->|[-> Hj]].
    + rewrite omap_app in HN. simpl in HN. apply NoDup_app in HN as (_ & Hd & [Hj _]%NoDup_cons).
      destruct Hk as [Hk|Hk]; [|done]. apply (Hd j Hk). left.
    + assert (j < drawn s)%nat; [|lia]. destruct Hk; eauto using owned_drawn.
  - rewrite omap_app in HN. simpl in HN. destruct o as [i|]; simpl in HN; [|done].
    apply NoDup_app in HN as (? & Hd & [_ ?]%NoDup_cons). apply NoDup_app. split_and!; [done | | done].
    intros k Hk Hk'. apply (Hd k Hk). by right.
Qed.

(** The state of a pool: every goroutine keeps to its own runner. *)
Definition poolOK (ps : pool (W := W) * scaler W) : Prop :=
  Inv cfg ps.2 ∧ ∃ os, threadsOK ps.2 os (running ps.1).

Definition none : string → Prop := λ _, False.

Lemma running_settle r (p : pool (W := W)) : running (settleLaunch r p) = running p.
Proof. unfold settleLaunch. by repeat case_match. Qed.

Lemma step_poolOK i p s :
  poolOK (p, s) → poolOK (stepRunning i p s) ∧ frame none s (stepRunning i p s).2.
Proof.
  intros [HI [os Hth]]. simpl in HI, Hth. unfold stepRunning.
  destruct (running p !! i) as [r|] eqn:Hi; [|split; [by split; [|exists os] | reflexivity]].
  apply list_elem_of_split_length in Hi as (l1 & l2 & Hrun & ->).
  pose proof Hth as [HF _]. rewrite Hrun in HF, Hth.
  apply Forall2_app_inv_r in HF as (os1 & os2' & HF1 & HF2 & ->).
  apply Forall2_cons_inv_r in HF2 as (o & os2 & Ho & HF2 & ->).
  pose proof (Forall2_length _ _ _ HF1) as Hlen.
  assert (Hstep : ∀ r' s', stepP r s = (r', s') →
    poolOK (with_running (<[length l1 := r']> (running p)) p, s') ∧ frame none s s').
  { intros r' s' Hstep. destruct (thread_step s o r r' s' HI Ho Hstep) as (j & Hj & Hr' & HI' & HG).
    destruct (owned_apart _ _ _ _ _ _ _ _ Hth Hlen Hj) as (K1 & _ & K2 & Hap & HN).
    split; [|eapply frame_weaken; [|exact HG]; done].
    split; [done |]. simpl. exists (os1 ++ Some j :: os2). rewrite Hrun, insert_middle. split.
    - apply Forall2_app; [|constructor; [done |]]; eapply threads_others; eauto.
    - rewrite omap_app. simpl. apply NoDup_app in HN as (? & Hd & ?). apply NoDup_app.
      split_and!; [done | | apply NoDup_cons; split; [|done]; intros Hin; by apply (Hap j); auto].
      intros k Hk [->|Hk']%elem_of_cons; [by apply (Hap j); auto | by apply (Hd k)]. }
  destruct r as [a|X op k].
  - split; [|reflexivity]. split; [done |]. simpl. rewrite running_settle. simpl.
    exists (os1 ++ os2). rewrite Hrun, delete_middle. split; [by apply Forall2_app |].
    rewrite omap_app. destruct o as [j|].
    + by destruct (owned_apart _ _ _ _ _ _ _ j Hth Hlen) as (_ & _ & _ & _ & ?); [left |].
    + by destruct (owned_apart _ _ _ _ _ _ _ (drawn s) Hth Hlen) as (_ & _ & _ & _ & ?); [right |].
  - destruct (stepP (Act op k) s) as [r' s'] eqn:Est. by apply Hstep.
Qed.

Lemma spawn_poolOK limit_ p s : poolOK (p, s) → poolOK (spawn limit_ start p, s).
Proof.
  intros [HI [os [HF HN]]]. unfold spawn. split; [done |]. simpl in *.
  destruct (todo p); [by exists os |]. destruct (_ <? _)%nat; [|by exists os].
  destruct (stopped p); [by exists os |]. exists (os ++ [None]). simpl. split.
  - apply Forall2_app; [done |]. by repeat constructor.
  - by rewrite omap_app, app_nil_r.
Qed.

Lemma poolStep_OK limit_ c p s :
  poolOK (p, s) → poolOK (poolStep limit_ start c (p, s)) ∧ frame none s (poolStep limit_ start c (p, s)).2.
Proof.
  intros H. unfold poolStep. destruct (_ =? _)%nat; [|by apply step_poolOK].
  split; [by apply spawn_poolOK | simpl; reflexivity].
Qed.

Lemma choices_poolOK limit_ choices ps :
  poolOK ps →
  let ps' := fold_left (λ ps c, poolStep limit_ start c ps) choices ps in
  poolOK ps' ∧ frame none ps.2 ps'.2.
Proof.
  revert ps. induction choices as [|c cs IH]; intros [p s] H; simpl; [by split |].
  destruct (poolStep_OK limit_ c p s H) as [H1 H2]. destruct (IH _ H1) as [H3 H4].
  split; [done |]. by etrans.
Qed.

Lemma drain_OK rs os p s p' s' :
  Inv cfg s → threadsOK s os rs → drain rs p s = (p', s') → Inv cfg s' ∧ frame none s s'.
Proof.
  revert os p s. induction rs as [|r rs IH]; intros os p s HI Hth; simpl.
  { intros [= <- <-]. by split. }
  pose proof Hth as [HF _]. apply Forall2_cons_inv_r in HF as (o & os2 & Ho & HF2 & ->).
  destruct (runP r s) as [a s1] eqn:Er.
  destruct (thread_run s o r HI Ho) as (j & Hj & HI' & HG).
  assert (s1 = execP r s) as -> by (unfold execP; by rewrite Er).
  destruct (owned_apart s [] o os2 [] r rs j Hth eq_refl Hj) as (_ & _ & _ & Hap & HN).
  intros Hd. destruct (IH os2 (settleLaunch a p) (execP r s) HI') as [? Hfr]; [|done|].
  - split; [|done]. eapply threads_others; [done | | exact HG]. auto.
  - split; [done |]. etrans; [|exact Hfr]. eapply frame_weaken; [|exact HG]. done.
Qed.

Lemma launchRest_OK n p s p' s' :
  Inv cfg s → launchRest n start p s = (p', s') → Inv cfg s' ∧ frame none s s'.
Proof.
  revert p s. induction n as [|n IH]; intros p s HI; cbn [launchRest]; [by intros [= <- <-] |].
  destruct (stopped p); [by intros [= <- <-] |].
  destruct (runP start s) as [a s1] eqn:Er.
  destruct (thread_run s None start HI eq_refl) as (j & _ & HI' & HG).
  assert (s1 = execP start s) as -> by (unfold execP; by rewrite Er).
  intros Hl. destruct (IH _ _ HI' Hl) as [? Hfr]. split; [done |]. etrans; [|exact Hfr].
  eapply frame_weaken; [|exact HG]. done.
Qed.

Lemma launchAll_OK choices needed s r s' :
  Inv cfg s → launchAll cfg route spare choices needed s = (r, s') → Inv cfg s' ∧ frame none s s'.
Proof.
  intros HI. unfold launchAll, runPool. set (lim := Z.to_nat _).
  destruct (choices_poolOK lim choices (mkPool needed [] false None None None, s)) as [H1 H2].
  { split; [done |]. exists []. by split; constructor. }
  destruct (fold_left _ choices _) as [p s1]. destruct H1 as [HI1 [os Hth]]. simpl in *.
  destruct (drain (running p) p s1) as [p2 s2] eqn:Ed.
  destruct (drain_OK _ _ _ _ _ _ HI1 Hth Ed) as [HI2 H3].
  destruct (launchRest (todo p2) start p2 s2) as [p3 s3] eqn:El.
  destruct (launchRest_OK _ _ _ _ _ HI2 El) as [HI3 H4].
  intros [= <- <-]. split; [done |]. etrans; [exact H2 |]. by etrans.
Qed.
End pool.

(** * Handlers *)

Section handlers.
Context {W : Type} {E : Env W} (cfg : scalerConfig) `{!EnvLaws E}.
Implicit Types s : scaler W.
Abbreviation owns := (owns cfg).

(** A program that keeps the invariant when nothing else runs. *)
Definition safe {A} (p : prog (scaler W) A) : Prop := owns every anyS p (λ _, anyS).

Lemma safe_ret {A} (a : A) : safe (mret a).
Proof. apply keep_ret. Qed.

Lemma safe_bind {A B} (p : prog (scaler W) A) (f : A → prog (scaler W) B) :
  safe p → (∀ a, safe (f a)) → safe (p ≫= f).
Proof. apply keep_bind. Qed.

Lemma safe_on_err {X A} (m : prog (scaler W) (option X)) (h : X → prog (scaler W) A) k :
  safe m → (∀ e, safe (h e)) → safe k → safe (on_err m h k).
Proof. intros Hm Hh Hk. apply safe_bind; [done |]. intros [e|]; auto. Qed.

Lemma safe_for_each {A B} (l : list A) (f : A → prog (scaler W) (option B)) k :
  (∀ a, safe (f a)) → safe k → safe (for_each l f k).
Proof.
  intros Hf Hk. induction l as [|x l IH]; cbn [for_each]; [done |].
  apply safe_bind; [done |]. intros [b|]; [apply safe_ret | done].
Qed.

Lemma safe_fold_err {A B X} (l : list A) (f : A → B → prog (scaler W) (X + B)) acc :
  (∀ a b, safe (f a b)) → safe (fold_err l f acc).
Proof.
  intros Hf. revert acc. induction l as [|x l IH]; intros acc; cbn [fold_err]; [apply safe_ret |].
  apply safe_bind; [done |]. intros [e|b]; [apply safe_ret | apply IH].
Qed.

Lemma safe_keep {A} (p : prog (scaler W) A) :
  (∀ P, stableR (frame every) P → owns every P p (λ _, P)) → safe p.
Proof. intros H. apply H. auto with stab. Qed.

Lemma safe_report r : safe (report_ r).
Proof. apply safe_keep. auto with keep. Qed.
Lemma safe_degraded r : safe (degraded r).
Proof. apply safe_report. Qed.
Lemma safe_failed r e : safe (failed r e).
Proof. apply safe_bind; [apply safe_degraded | intros; apply safe_ret]. Qed.
Lemma safe_ask {A} (f : W → A * W) : safe (ask f).
Proof. apply safe_keep. auto with keep. Qed.
Lemma safe_now : safe now.
Proof. apply safe_ask. Qed.
Lemma safe_Inventory : safe Inventory.
Proof. apply safe_ask. Qed.
Lemma safe_get {A} (f : scaler W → A) : safe (get f).
Proof. apply safe_keep. auto with keep. Qed.
Lemma safe_budgetOp f : safe (budgetOp f).
Proof. apply safe_keep. auto with keep. Qed.
Lemma safe_budget_adopt l t : safe (budget_adopt l t).
Proof. apply safe_keep. auto with keep. Qed.
Lemma safe_reportState : safe (reportState cfg).
Proof. apply safe_keep. auto with keep. Qed.
Lemma safe_reportBudget : safe reportBudget.
Proof. apply safe_keep. auto with keep. Qed.
Lemma safe_retireWorker w pp d t : safe (retireWorker cfg w pp d t).
Proof. eapply owns_any. by apply owns_retireWorker. Qed.
Lemma safe_gate {A} (f : scaler W → A) (g : scaler W → launchGate) :
  safe (act (λ s, (f s, with_gate (λ _, g s) s))).
Proof. apply safe_keep. auto with keep. Qed.

(** Worker-state operations that take no worker away. *)
Lemma safe_stateOp {A} (f : workerState → A * workerState) :
  (∀ st n, is_Some (workers st !! n) → is_Some (workers (f st).2 !! n)) → safe (stateOp f).
Proof.
  intros Hf. apply spec_act; [auto with stab |]. intros s x s' HI _ Hop. specialize (Hf (state s)).
  simpl in Hop. destruct (f (state s)) as [a st] eqn:Ef. injection Hop as <- <-. split_and!; [| |done].
  - constructor; simpl; auto. intros n Hn. destruct (Hn I).
  - destruct HI as [H1 H2 H3 H4]. constructor; auto. intros n Hn. simpl in *.
    destruct (H4 n Hn) as [?|[?|?]]; auto.
Qed.

(** ** Pending retirements *)

(** The entries still to be finished are in the journal. *)
Definition stillListed (es : list retirementEntry) s : Prop :=
  NoDup (map re_RunnerName es) ∧
  ∀ e, e ∈ es → rq_entries (retirements s) !! re_RunnerName e = Some e.

Lemma stable_stillListed es : stableR (frame every) (stillListed es).
Proof.
  intros s s' HF [HN H]. split; [done |]. intros e He. by rewrite (fr_entry _ _ _ HF _ I), H.
Qed.

(** Finishing one retirement leaves the entries of the others alone. *)
Lemma owns_finishRetirement_listed w pp e es :
  re_RunnerName e ∉ map re_RunnerName es →
  owns every (λ s, (Pending true (re_RunnerName e) (re_LeaseID e) ⋏ Proven e) s ∧ stillListed es s)
    (finishRetirement cfg w pp e) (λ _, stillListed es).
Proof.
  intros Hne. set (N := λ n, n = re_RunnerName e).
  assert (Hown : owns N (Pending true (re_RunnerName e) (re_LeaseID e) ⋏ Proven e)
                   (finishRetirement cfg w pp e) (λ _ _, True)).
  { eapply owns_conseq; [by apply (owns_finishRetirement cfg N w pp e true) | done | done]. }
  eapply spec_weaken with (R := frame every) (G := frame (others N)); [done | |].
  { intros s s'. apply frame_weaken. intros n Hn. by destruct (Hn I). }
  eapply spec_conseq; [apply (spec_frame _ _ _
    (Pending true (re_RunnerName e) (re_LeaseID e) ⋏ Proven e) (stillListed es)
    (finishRetirement cfg w pp e) (λ _ _, True)) | done | by intros a s [_ ?]].
  - apply stable_stillListed.
  - intros s s' HG [HN H]. split; [done |]. intros x Hx.
    rewrite (fr_entry _ _ _ HG), H; [done.. |]. intros Heq. apply Hne. rewrite <- Heq.
    by apply (list_elem_of_fmap_2 re_RunnerName).
  - eapply spec_weaken; [| |exact Hown]; [|done]. intros s s'. by apply frame_weaken.
Qed.

Lemma owns_finishPending byName e es :
  owns every (stillListed (e :: es)) (finishPending cfg byName e)
    (λ r s, match r with Some _ => True | None => stillListed es s end).
Proof.
  unfold finishPending.
  eapply owns_bind with (T := λ _ s,
    re_RunnerName e ∉ map re_RunnerName es ∧
    (Pending true (re_RunnerName e) (re_LeaseID e) ⋏ Proven e) s ∧ stillListed es s).
  { apply spec_act; [apply stable_stillListed |]. intros s x s' HI [HN HL] [= <- <-].
    split_and!; [reflexivity | done |..]; simpl in HN; apply NoDup_cons in HN as [Hne HN].
    - done.
    - split; [intros _; exists e; split; [apply HL; left | done] |].
      exists e. split; [|by constructor]. eapply inv_journaled; [done |]. apply HL. left.
    - split; [done |]. intros x Hx. apply HL. by right. }
  intros [w pp]. apply owns_pure. intros Hne. cbn [fst snd].
  destruct (validateWorkerRetirementProof _ _); [by apply owns_ret |].
  eapply owns_bind; [by apply owns_finishRetirement_listed |]. intros [err|]; [|by apply owns_ret].
  destruct (errors_is _ err); [|destruct (IsTransient err)]; by apply owns_ret.
Qed.

Lemma safe_finishPendingRetirements ws : safe (finishPendingRetirements cfg ws).
Proof.
  unfold finishPendingRetirements. destruct (indexByName ws ∅) as [m|]; [|apply safe_ret].
  eapply owns_bind with (T := λ es, stillListed es).
  { apply spec_act; [auto with stab |]. intros s x s' HI _ [= <- <-].
    split_and!; [reflexivity | done |]. destruct (inv_queue _ _ HI) as [Hj _].
    split; [by apply allRetirements_names |]. intros e He. by apply elem_of_allRetirements. }
  intros es. eapply spec_for_each; [|by apply owns_ret]. intros e l.
  eapply owns_conseq; [apply owns_finishPending | done |]. by intros [r|] s.
Qed.
End handlers.

Create HintDb safe.
#[export] Hint Resolve safe_ret safe_bind safe_on_err safe_for_each safe_fold_err safe_report
  safe_degraded safe_failed safe_ask safe_now safe_Inventory safe_get safe_budgetOp safe_budget_adopt
  safe_reportState safe_reportBudget safe_retireWorker safe_gate safe_finishPendingRetirements : safe.

(** Case analysis along the branches of a handler. *)
Ltac safe_step :=
  match goal with
  | |- safe _ (match ?x with _ => _ end) => destruct x
  | |- safe _ (if ?x then _ else _) => destruct x
  | |- safe _ (_ ≫= _) => apply safe_bind; [|intros ?]
  | |- safe _ (on_err _ _ _) => apply safe_on_err; [|intros ?|]
  | |- safe _ (for_each _ _ _) => apply safe_for_each; [intros ?|]
  | |- safe _ (fold_err _ _ _) => apply safe_fold_err; intros ? ?
  | |- safe _ _ => solve [auto with safe]
  end.

Section handlers.
Context {W : Type} {E : Env W} (cfg : scalerConfig) `{!EnvLaws E}.
Implicit Types s : scaler W.
Abbreviation safe := (safe (W := W) cfg).

Lemma keeps_insert {A} (st : gmap string A) k (v : A) n :
  is_Some (st !! n) → is_Some (<[k := v]> st !! n).
Proof. intros H. rewrite lookup_insert. by case_decide. Qed.

Lemma safe_adopt w : safe (stateOp (λ st, ((), adoptWorker w st))).
Proof. apply safe_stateOp. intros st n. apply keeps_insert. Qed.
Lemma safe_markStopped r t b : safe (stateOp (λ st, ((), markStopped r t b st))).
Proof. apply safe_stateOp. intros st n. unfold markStopped. by destruct (rememberedStopped _ _). Qed.
Lemma safe_markDeparted r t : safe (stateOp (λ st, ((), markDeparted r t st))).
Proof. apply safe_stateOp. intros st n. unfold markDeparted. by destruct (rememberedStopped _ _). Qed.
Lemma safe_markPresent n : safe (stateOp (λ st, ((), markPresent n st))).
Proof.
  apply safe_stateOp. intros st m. unfold markPresent. destruct (workers st !! n); [|done].
  destruct (IsZero _); [done | apply keeps_insert].
Qed.
Lemma safe_markMissing n t : safe (stateOp (markMissing n t)).
Proof.
  apply safe_stateOp. intros st m. unfold markMissing. destruct (workers st !! n); [|done].
  destruct (IsZero _); [apply keeps_insert | done].
Qed.
Lemma safe_markBusy n : safe (stateOp (markBusy n)).
Proof.
  apply safe_stateOp. intros st m. unfold markBusy. destruct (workers st !! n); [|done].
  apply keeps_insert.
Qed.
Lemma safe_markDepartedBusy n : safe (stateOp (markDepartedBusy n)).
Proof. apply safe_stateOp. intros st m. unfold markDepartedBusy. by destruct (departed st !! n). Qed.
Lemma safe_pruneDeparted t : safe (stateOp (λ st, ((), pruneDeparted t st))).
Proof. by apply safe_stateOp. Qed.
Lemma safe_takeOverdue t : safe (stateOp (takeOverdue t)).
Proof. by apply safe_stateOp. Qed.
Lemma safe_takeDeparted n : safe (stateOp (takeDeparted n)).
Proof. by apply safe_stateOp. Qed.
Hint Resolve safe_adopt safe_markStopped safe_markDeparted safe_markPresent safe_markMissing
  safe_markBusy safe_markDepartedBusy safe_pruneDeparted safe_takeOverdue safe_takeDeparted : safe.

Lemma safe_launchAll route spare choices needed : safe (act (launchAll cfg route spare choices needed)).
Proof.
  apply spec_act; [auto with stab |]. intros s x s' HI _ Hop.
  destruct (launchAll_OK _ _ _ _ _ _ _ _ HI Hop) as [HI' HF]. split_and!; [|done..].
  eapply frame_weaken; [|exact HF]. intros n Hn. by destruct (Hn I).
Qed.
Hint Resolve safe_launchAll : safe.

Lemma safe_releaseGateStatus k : safe (releaseGateStatus k).
Proof. unfold releaseGateStatus. repeat safe_step. Qed.
Hint Resolve safe_releaseGateStatus : safe.

Lemma safe_recordLaunchGate k r e : safe (recordLaunchGate k r e).
Proof.
  unfold recordLaunchGate. do 2 (apply safe_bind; [auto with safe | intros ?]).
  apply safe_bind; [|intros; repeat safe_step].
  apply (safe_gate cfg (λ s, (capacityKind (gate s), capacityRetryAt (closeGate k r _ _ _ (gate s))))
    (λ s, closeGate k r _ _ _ (gate s))).
Qed.
Hint Resolve safe_recordLaunchGate : safe.

Lemma safe_clearLaunchGate : safe clearLaunchGate.
Proof.
  unfold clearLaunchGate. apply safe_bind; [|intros; repeat safe_step].
  apply (safe_gate cfg gate (λ s, resetGate (gate s))).
Qed.
Hint Resolve safe_clearLaunchGate : safe.

Lemma safe_launchWorkers route needed spare : safe (launchWorkers cfg route needed spare).
Proof. unfold launchWorkers. repeat safe_step. Qed.
Hint Resolve safe_launchWorkers : safe.

Lemma safe_olderThan t d : safe (olderThan t d).
Proof. unfold olderThan. repeat safe_step. Qed.
Lemma safe_logStopped w r t : safe (logStopped cfg w r t).
Proof. unfold logStopped. repeat safe_step. Qed.
Hint Resolve safe_olderThan safe_logStopped : safe.

Lemma safe_reconcilePresent local w acc : safe (reconcilePresent cfg local w acc).
Proof. unfold reconcilePresent. repeat safe_step. Qed.
Lemma safe_reconcileAbsent acc t nr : safe (reconcileAbsent cfg acc t nr).
Proof. unfold reconcileAbsent. repeat safe_step. Qed.
Hint Resolve safe_reconcilePresent safe_reconcileAbsent : safe.

Lemma safe_reconcileInventory ws : safe (reconcileInventory cfg ws).
Proof. unfold reconcileInventory. repeat safe_step. Qed.
Hint Resolve safe_reconcileInventory : safe.

Lemma safe_reconcile : safe (reconcile cfg).
Proof. unfold reconcile. repeat safe_step. Qed.
Lemma safe_recover : safe (recover cfg).
Proof. unfold recover. repeat safe_step. Qed.
Hint Resolve safe_reconcile : safe.

Lemma safe_speculate route n : safe (speculate cfg route n).
Proof. unfold speculate. repeat safe_step. Qed.
Hint Resolve safe_speculate : safe.

Lemma safe_scaleUp route n t : safe (scaleUp cfg route n t).
Proof. unfold scaleUp. repeat safe_step. Qed.
Hint Resolve safe_scaleUp : safe.

Lemma safe_HandleDesiredRunnerCount route n : safe (HandleDesiredRunnerCount cfg route n).
Proof. unfold HandleDesiredRunnerCount, handleDesiredRunnerCount, routeCount. repeat safe_step. Qed.
Lemma safe_HandleJobStarted r : safe (HandleJobStarted cfg r).
Proof. unfold HandleJobStarted, handleJobStarted. repeat safe_step. Qed.
Lemma safe_HandleJobCompleted r t : safe (HandleJobCompleted cfg r t).
Proof. unfold HandleJobCompleted, handleJobCompleted. repeat safe_step. Qed.

(** ** Runs *)

(** What the listener makes the scaler do, one message after the other; a
    probe timer may fire in between. *)
Inductive message :=
  | Recover | Desired (route : scaleSetRoute) (jobs : Z)
  | JobStarted (runner : string) | JobCompleted (runner : string) (finished : time) | ProbeFires.

Definition handle (m : message) (s : scaler W) : scaler W :=
  match m with
  | Recover => execP (recover cfg) s
  | Desired route jobs => execP (HandleDesiredRunnerCount cfg route jobs) s
  | JobStarted runner => execP (HandleJobStarted cfg runner) s
  | JobCompleted runner t => execP (HandleJobCompleted cfg runner t) s
  | ProbeFires => with_gate fireProbe s
  end.

Definition handleAll (ms : list message) (s : scaler W) : scaler W :=
  fold_left (λ s m, handle m s) ms s.

Lemma safe_exec {A} (p : prog (scaler W) A) s : safe p → Inv cfg s → Inv cfg (execP p s).
Proof.
  intros Hp HI. destruct (wp_run (frame every) (frame (others every)) (Inv cfg) p (λ _, anyS) s)
    as (_ & ? & _); auto. by apply Hp.
Qed.

Lemma handle_Inv m s : Inv cfg s → Inv cfg (handle m s).
Proof.
  intros HI. destruct m; simpl; try apply safe_exec; auto using safe_recover,
    safe_HandleDesiredRunnerCount, safe_HandleJobStarted, safe_HandleJobCompleted.
  eapply quiet_Inv; [|done]. by constructor.
Qed.

Lemma handleAll_Inv ms s : Inv cfg s → Inv cfg (handleAll ms s).
Proof. revert s. induction ms as [|m ms IH]; intros s HI; simpl; [done |]. by apply IH, handle_Inv. Qed.

(** A scaler at start-up: the journal as loaded, no worker known yet. *)
Definition startUp (b : usageBudget) (q : retirementQueue) (wake : option bool) (w : W) : scaler W :=
  mkScaler newWorkerState b q (openGate wake) [] (Journaled <$> allRetirements q) 0 w.

Lemma startUp_Inv b q wake w : queueOK q → Inv cfg (startUp b q wake w).
Proof.
  intros Hq. pose proof Hq as [Hj _]. constructor; simpl; [done | | |].
  - pose proof (allRetirements_valid q Hj) as HF.
    induction HF as [|e l He _ IH]; simpl; [done |]. by split.
  - intros n e He. apply (list_elem_of_fmap_2 Journaled). apply elem_of_allRetirements; [done |].
    by destruct (Hj _ _ He) as [-> _].
  - intros n (ss & q' & Hin). apply list_elem_of_fmap in Hin as (e & He & _). done.
Qed.

(** Every event of an allowed history was allowed when it happened. *)
Lemma traceOK_event tr ev :
  traceOK cfg tr → ev ∈ tr → ∃ later earlier, tr = later ++ ev :: earlier ∧ evOK cfg earlier ev.
Proof.
  intros H Hin. apply list_elem_of_split in Hin as (l1 & l2 & ->). exists l1, l2.
  split; [done |]. induction l1; simpl in H; [by destruct H | tauto].
Qed.
End handlers.

(** * A concrete outside *)

Record demoWorld := mkDemoWorld {
  dw_ticks : Z;
  dw_workers : list Worker;
  dw_runners : list RunnerReference;
  (* the answer of the next launches: an error, or a worker *)
  dw_refusal : option error;
  (* whether the next journal writes succeed *)
  dw_journal : journalIO
}.

Definition demoStart : time := 63900000000 * Second.

Definition demoUUID (n : nat) : string :=
  if (n <? 10)%nat then "0a1b2c3d-0000-4000-8000-00000000000" +:+ pretty n
  else "overflow-" +:+ pretty n.

Definition demoRunnerID (name : string) : Z := 7 + Z.of_nat (String.length name).

Definition with_ticks (w : demoWorld) (t : Z) : demoWorld :=
  mkDemoWorld t (dw_workers w) (dw_runners w) (dw_refusal w) (dw_journal w).

#[global] Instance demoEnv : Env demoWorld := {|
  env_now w := (demoStart + dw_ticks w * Second, with_ticks w (dw_ticks w + 1));
  env_uuid := demoUUID;
  env_Inventory w :=
    (inr (keep (λ x, String.eqb (RunnerName x) (runnerName (LeaseID x))) (dw_workers w)), w);
  env_Destroy id w :=
    (None, mkDemoWorld (dw_ticks w) (keep (λ x, negb (String.eqb (ID x) id)) (dw_workers w))
             (dw_runners w) (dw_refusal w) (dw_journal w));
  env_Launch _ l w :=
    match dw_refusal w with
    | Some err => (inl (match errors_as as_partial err with Some _ => ErrorString "refused" | None => err end), w)
    | None =>
      let worker := mkWorker ("vm-" +:+ lease_ID l) (lease_ID l) (lease_RunnerName l) (lease_RunnerID l)
                      (lease_RunnerScaleSetID l) "started" (demoStart + dw_ticks w * Second) in
      (inr worker, mkDemoWorld (dw_ticks w + 1) (worker :: dw_workers w) (dw_runners w) None (dw_journal w))
    end;
  env_speculates := false;
  env_SpareRoom w := (0, w);
  env_Fast _ _ := false;
  env_GetRunnerByName name w :=
    (inr (find (λ r, String.eqb (rr_Name r) name) (dw_runners w)), w);
  env_GenerateJit name id w :=
    let r := mkRunnerReference (demoRunnerID name) name id in
    (inr (Some (mkJitRunnerConfig (Some r) "jit")),
     mkDemoWorld (dw_ticks w) (dw_workers w) (r :: dw_runners w) (dw_refusal w) (dw_journal w));
  env_RemoveRunner id w :=
    (None, mkDemoWorld (dw_ticks w) (dw_workers w) (keep (λ r, negb (rr_ID r =? id)) (dw_runners w))
             (dw_refusal w) (dw_journal w));
  env_persistIO w := (ioOK, w);
  env_journalIO w := (dw_journal w, w);
  env_schedule w := ([0; 1; 1; 0; 2; 1; 0; 1; 0; 1; 0; 0; 1; 1; 1; 0; 1]%nat, w)
|}.

Lemma demoUUID_inj : Inj (=) (=) demoUUID.
Proof.
  intros i j. unfold demoUUID.
  destruct (i <? 10)%nat eqn:Ei, (j <? 10)%nat eqn:Ej; intros H; try done.
  - by apply (inj (String.append _)), (inj pretty) in H.
  - by apply (inj (String.append _)), (inj pretty) in H.
Qed.

#[global] Instance demoLaws : EnvLaws demoEnv.
Proof.
  split.
  - apply demoUUID_inj.
  - intros target l w r w'. simpl. destruct (dw_refusal w); [done |]. by intros [= <- _].
  - intros target l w err w' p. simpl. destruct (dw_refusal w) as [e|]; [|done].
    intros [= <- _]. by destruct (errors_as as_partial e) eqn:Ee; [|rewrite Ee].
  - intros w ws w' x n [= <- _] [_ Hx]%elem_of_keep Hl. simpl in *.
    apply String.eqb_eq in Hx. by rewrite Hx, Hl.
Qed.

Definition demoConfig : scalerConfig :=
  mkScalerConfig "ci" 12 0 3 2 Hour (5 * Minute) (10 * Minute) None.

Definition demoLedger : usageBudget :=
  mkUsageBudget (10 * Hour) (24 * Hour) Hour []
    (mkLedgerFile (Complete (mkUsageLedger 1 [])) Absent).

Definition demoWorld0 : demoWorld := mkDemoWorld 0 [] [] None joOK.

(** The scaler with an empty journal, and after a first batch of two jobs. *)
Definition demo0 : scaler demoWorld :=
  startUp demoLedger (mkRetirementQueue ∅ None) (Some false) demoWorld0.

Definition demoRun : scaler demoWorld :=
  handleAll demoConfig [Recover; Desired (mainRoute demoConfig) 2] demo0.

Lemma demoQueue0_OK : queueOK (mkRetirementQueue ∅ None).
Proof. split; [apply map_Forall_empty | done]. Qed.

(** Two jobs start two workers, and nothing stays in the journal. *)
Example demoRun_launches :
  countWorkers (state demoRun) = 2 ∧ countRetirements (retirements demoRun) = 0
  ∧ length (keep (λ ev, match ev with Launching _ _ _ => true | _ => false end) (trace demoRun)) = 2%nat.
Proof. vm_compute. done. Qed.
