(* ===== verification/ScalerFleet.v ===== *)
(** The size of the fleet: launches, in any interleaving, never take it past
    the configured maximum. *)

From S2P Require Import Prelude Program Provider UsageBudget RetirementQueue.
From S2P Require Import WorkerState Scaler.

Ltac bounded_step :=
  match goal with
  | |- bounded _ _ (match ?x with _ => _ end) => destruct x
  | |- bounded _ _ (if ?x then _ else _) => destruct x
  | |- bounded _ 0 (on_err _ _ _) => apply bounded_on_err; [|intros ?|]
  | |- bounded _ 0 (for_each _ _ _) => apply bounded_for_each; [intros ?|]
  | |- bounded _ _ (mret _) => apply bounded_ret
  | |- bounded _ _ _ => solve [auto with bounded]
  | |- bounded _ _ (_ ≫= _) => apply bounded_bind0; [|intros ?]
  end.

Section fleet.
Context {W : Type} {E : Env W} (cfg : scalerConfig).
Implicit Types s : scaler W.

Definition fleetSize (s : scaler W) : Z := countWorkers (state s).
Abbreviation within := (bounded fleetSize).

(** * Single calls *)

Lemma within_same {A} (op : scaler W → A * scaler W) :
  (∀ s, state (op s).2 = state s) → within 0 (act op).
Proof. intros H. apply bounded_act. intros s. unfold fleetSize. rewrite H. lia. Qed.

Ltac same := apply within_same; intros s; simpl; repeat case_match; simplify_eq/=; done.

Lemma within_report r : within 0 (report_ r).
Proof. same. Qed.
Lemma within_ask {A} (f : W → A * W) : within 0 (ask f).
Proof. same. Qed.
Lemma within_get {A} (f : scaler W → A) : within 0 (get f).
Proof. same. Qed.
Lemma within_newUUID : within 0 newUUID.
Proof. same. Qed.
Lemma within_Destroy w : within 0 (Destroy w).
Proof. same. Qed.
Lemma within_GetRunner n : within 0 (GetRunnerByName n).
Proof. same. Qed.
Lemma within_GenerateJit n i : within 0 (GenerateJit n i).
Proof. same. Qed.
Lemma within_Launch t l : within 0 (Launch t l).
Proof. same. Qed.
Lemma within_RemoveRunner n i : within 0 (RemoveRunner n i).
Proof. same. Qed.
Lemma within_budgetOp f : within 0 (budgetOp f).
Proof. same. Qed.
Lemma within_reserve l t m : within 0 (budget_reserve l t m).
Proof. same. Qed.
Lemma within_adopt l t : within 0 (budget_adopt l t).
Proof. same. Qed.
Lemma within_put e : within 0 (retirements_put e).
Proof. same. Qed.
Lemma within_remove n : within 0 (retirements_remove n).
Proof. same. Qed.
Lemma within_gate {A} (f : scaler W → A) (g : scaler W → launchGate → launchGate) :
  within 0 (act (λ s, (f s, with_gate (g s) s))).
Proof. same. Qed.

Lemma within_removeWorker n : within 0 (stateOp (removeWorker n)).
Proof.
  apply bounded_act. intros s. unfold fleetSize. simpl. apply (count_remove n (state s)).
Qed.

Lemma within_addWorker w b : within 1 (stateOp (λ st, ((), addWorker w b st))).
Proof. apply bounded_act1. intros s. unfold fleetSize. simpl. apply (count_add w b (state s)). Qed.

Hint Resolve within_report within_ask within_get within_newUUID within_Destroy within_GetRunner
  within_GenerateJit within_Launch within_RemoveRunner within_budgetOp within_reserve within_adopt
  within_put within_remove within_removeWorker : bounded.

(** * Retirement and launch *)

Lemma within_now : within 0 now.
Proof. apply within_ask. Qed.
Lemma within_Inventory : within 0 Inventory.
Proof. apply within_ask. Qed.
Lemma within_degraded r : within 0 (degraded r).
Proof. apply within_report. Qed.
Hint Resolve within_now within_Inventory within_degraded : bounded.

Lemma within_failed r e : within 0 (failed r e).
Proof. unfold failed. repeat bounded_step. Qed.
Lemma within_reportRetirements : within 0 reportRetirements.
Proof. unfold reportRetirements. repeat bounded_step. Qed.
Lemma within_reportBudget : within 0 reportBudget.
Proof. unfold reportBudget. repeat bounded_step. Qed.
Lemma within_reportScaleSets : within 0 (reportScaleSets cfg).
Proof. unfold reportScaleSets. repeat bounded_step. Qed.
Hint Resolve within_failed within_reportRetirements within_reportBudget within_reportScaleSets : bounded.
Lemma within_reportState : within 0 (reportState cfg).
Proof. unfold reportState. repeat bounded_step. Qed.
Lemma within_destroyWorker w : within 0 (destroyWorker w).
Proof. unfold destroyWorker. repeat bounded_step. Qed.
Lemma within_removeRegistration e : within 0 (removeRunnerRegistration cfg e).
Proof. unfold removeRunnerRegistration. repeat bounded_step. Qed.
Lemma within_settle e : within 0 (settleRetirement e).
Proof. unfold settleRetirement. repeat bounded_step. Qed.
Hint Resolve within_reportState within_destroyWorker within_removeRegistration within_settle : bounded.
Lemma within_finishRetirement w pp e : within 0 (finishRetirement cfg w pp e).
Proof. unfold finishRetirement. repeat bounded_step. Qed.
Hint Resolve within_finishRetirement : bounded.
Lemma within_retireWorker w pp d t : within 0 (retireWorker cfg w pp d t).
Proof. unfold retireWorker. repeat bounded_step. Qed.
Hint Resolve within_retireWorker : bounded.
Lemma within_cleanupRejected e : within 0 (cleanupRejectedLaunch cfg e).
Proof. unfold cleanupRejectedLaunch. repeat bounded_step. Qed.
Lemma within_cleanupJIT e err : within 0 (cleanupJITGenerationFailure cfg e err).
Proof. unfold cleanupJITGenerationFailure. repeat bounded_step. Qed.
Lemma within_cleanupAmbiguous e err : within 0 (cleanupAmbiguousLaunch cfg e err).
Proof. unfold cleanupAmbiguousLaunch. repeat bounded_step. Qed.
Hint Resolve within_cleanupRejected within_cleanupJIT within_cleanupAmbiguous : bounded.

Lemma within_weaken {A} (p : prog (scaler W) A) : within 0 p → within 1 p.
Proof. apply bounded_mono. lia. Qed.

Lemma within_launchFailed e err : within 0 (launchFailed cfg e err).
Proof. unfold launchFailed. repeat bounded_step. Qed.

Lemma within_launchSucceeded e w : within 1 (launchSucceeded cfg e w).
Proof.
  unfold launchSucceeded. bounded_step; [auto with bounded |]. bounded_step.
  - apply within_weaken. repeat bounded_step.
  - apply (bounded_bind _ 1 0); [apply within_addWorker | intros ?; repeat bounded_step].
Qed.

Lemma within_launchBound t e j : within 1 (launchBound cfg t e j).
Proof.
  unfold launchBound. do 7 (bounded_step; [auto with bounded |]).
  destruct (_ : error + Worker); [apply within_weaken, within_launchFailed | apply within_launchSucceeded].
Qed.

Lemma within_bindRegistration t e j : within 1 (bindRegistration cfg t e j).
Proof.
  unfold bindRegistration. bounded_step.
  { unfold resolveRegistration. repeat bounded_step. }
  destruct a as [err|[r|]]; [apply bounded_ret | | apply bounded_ret].
  bounded_step; [apply bounded_ret |]. bounded_step; [auto with bounded |].
  destruct (_ : option error); [apply within_weaken; repeat bounded_step | apply within_launchBound].
Qed.

Lemma within_registerRunner t e : within 1 (registerRunner cfg t e).
Proof.
  unfold registerRunner. do 2 (bounded_step; [auto with bounded |]).
  destruct (_ : error + option JitRunnerConfig) as [err|[j|]];
    [|apply within_bindRegistration|]; apply within_weaken; repeat bounded_step.
Qed.

Lemma within_journalAndRegister route t l : within 1 (journalAndRegister cfg route t l).
Proof.
  unfold journalAndRegister. do 2 (bounded_step; [auto with bounded |]).
  destruct (_ : option error); [apply within_weaken; repeat bounded_step | apply within_registerRunner].
Qed.

Lemma within_startWorker route spare : within 1 (startWorker cfg route spare).
Proof.
  unfold startWorker, startLease. do 3 (bounded_step; [auto with bounded |]).
  destruct (rr_err _); [apply within_weaken; repeat bounded_step |].
  bounded_step; [auto with bounded |]. bounded_step; [apply bounded_ret |].
  bounded_step; [auto with bounded |]. unfold abandon.
  destruct (_ : error + option RunnerReference) as [err|[r|]];
    [| |apply within_journalAndRegister]; apply within_weaken; repeat bounded_step.
Qed.

(** * Concurrent launches *)

Section pool.
Context (route : scaleSetRoute) (spare : bool).
Abbreviation start := (startWorker cfg route spare).

(** The fleet, what the running launches may still add, and the launches to
    come stay within [c]. *)
Definition fits (c : Z) (ns : list nat) (rs : list (prog (scaler W) (bool * option error)))
    (n : nat) s : Prop :=
  Forall2 (λ m r, within m r) ns rs ∧
  fleetSize s + Z.of_nat (sum_list ns) + Z.of_nat n <= c.

Definition poolFits (c : Z) (ps : pool (W := W) * scaler W) : Prop :=
  ∃ ns, fits c ns (running ps.1) (todo ps.1) ps.2.

Lemma settle_same r (p : pool (W := W)) :
  running (settleLaunch r p) = running p ∧ todo (settleLaunch r p) = todo p.
Proof. unfold settleLaunch. by repeat case_match. Qed.

Lemma within_stepP m (r r' : prog (scaler W) (bool * option error)) s s' :
  within m r → stepP r s = (r', s') →
  ∃ m', within m' r' ∧ fleetSize s' + Z.of_nat m' <= fleetSize s + Z.of_nat m.
Proof.
  destruct r as [a|X op k]; simpl; [by intros _ [= <- <-]; exists m |].
  destruct (op s) as [x s1] eqn:Eop. intros [[H1 H2]|(j & -> & H1 & H2)] [= <- <-].
  - exists m. split; [done |]. specialize (H1 _ _ _ Eop). lia.
  - exists j. split; [done |]. specialize (H1 _ _ _ Eop). lia.
Qed.

Lemma stepRunning_fits c i p s : poolFits c (p, s) → poolFits c (stepRunning i p s).
Proof.
  intros (ns & HF & Hle). simpl in *. unfold stepRunning.
  destruct (running p !! i) as [r|] eqn:Hi; [|by exists ns].
  apply list_elem_of_split_length in Hi as (l1 & l2 & Hrun & ->). rewrite Hrun in HF.
  apply Forall2_app_inv_r in HF as (n1 & n2' & HF1 & HF2 & ->).
  apply Forall2_cons_inv_r in HF2 as (m & n2 & Hm & HF2 & ->).
  rewrite sum_list_with_app in Hle. simpl in Hle.
  assert (Hstep : ∀ r' s', stepP r s = (r', s') →
    poolFits c (with_running (<[length l1 := r']> (running p)) p, s')).
  { intros r' s' Hs. destruct (within_stepP _ _ _ _ _ Hm Hs) as (m' & Hm' & Hm's).
    exists (n1 ++ m' :: n2). simpl. rewrite Hrun, insert_middle. split.
    - apply Forall2_app; [done |]. by constructor.
    - rewrite sum_list_with_app. simpl. lia. }
  destruct r as [a|X op k].
  - exists (n1 ++ n2). simpl. destruct (settle_same a (with_running (delete (length l1) (running p)) p))
      as [-> ->]. simpl. rewrite Hrun, delete_middle. split; [by apply Forall2_app |].
    rewrite sum_list_with_app. simpl. lia.
  - destruct (stepP (Act op k) s) as [r' s'] eqn:Est. by apply Hstep.
Qed.

Lemma spawn_fits c lim p s : poolFits c (p, s) → poolFits c (spawn lim start p, s).
Proof.
  intros (ns & HF & Hle). simpl in *. unfold spawn.
  destruct (todo p) as [|n] eqn:Et; [exists ns; by rewrite <- Et in Hle |].
  destruct (_ <? _)%nat; [|exists ns; by rewrite <- Et in Hle].
  destruct (stopped p); [exists ns; split; simpl; [done | lia] |].
  exists (ns ++ [1%nat]). split; simpl.
  - apply Forall2_app; [done |]. constructor; [apply within_startWorker | constructor].
  - rewrite sum_list_with_app. simpl. lia.
Qed.

Lemma choices_fits c lim choices ps :
  poolFits c ps → poolFits c (fold_left (λ ps c, poolStep lim start c ps) choices ps).
Proof.
  revert ps. induction choices as [|x xs IH]; intros [p s] H; simpl; [done |]. apply IH.
  unfold poolStep. destruct (_ =? _)%nat; [by apply spawn_fits | by apply stepRunning_fits].
Qed.

Lemma drain_fits c ns rs p s p' s' :
  fits c ns rs (todo p) s → drain rs p s = (p', s') → fits c [] [] (todo p') s'.
Proof.
  revert ns p s. induction rs as [|r rs IH]; intros ns p s [HF Hle]; simpl.
  { apply Forall2_nil_inv_r in HF as ->. by intros [= <- <-]. }
  apply Forall2_cons_inv_r in HF as (m & n2 & Hm & HF2 & ->).
  pose proof (bounded_run fleetSize m r s Hm) as Hrun. unfold execP in Hrun.
  destruct (runP r s) as [a s1]. simpl in Hle, Hrun.
  apply (IH n2). split; [done |]. destruct (settle_same a p) as [_ ->]. lia.
Qed.

Lemma launchRest_fits c n p s p' s' :
  fleetSize s + Z.of_nat n <= c → launchRest n start p s = (p', s') → fleetSize s' <= c.
Proof.
  revert p s. induction n as [|n IH]; intros p s Hle; cbn [launchRest];
    [intros [= <- <-]; lia |].
  destruct (stopped p); [intros [= <- <-]; lia |].
  pose proof (bounded_run fleetSize 1 start s (within_startWorker route spare)) as Hrun.
  unfold execP in Hrun. destruct (runP start s) as [a s1]. simpl in Hrun.
  apply IH. lia.
Qed.

(** [n] launches add at most [n] workers, however they interleave. *)
Lemma launchAll_fits choices n s r s' :
  launchAll cfg route spare choices n s = (r, s') → fleetSize s' <= fleetSize s + Z.of_nat n.
Proof.
  unfold launchAll, runPool. set (lim := Z.to_nat _).
  assert (H0 : poolFits (fleetSize s + Z.of_nat n) (mkPool n [] false None None None, s)).
  { exists []. split; [constructor |]. simpl. lia. }
  apply (choices_fits _ lim choices) in H0. destruct (fold_left _ choices _) as [p s1].
  destruct H0 as (ns & Hf). simpl in Hf.
  destruct (drain (running p) p s1) as [p2 s2] eqn:Ed.
  apply (drain_fits _ _ _ _ _ _ _ Hf) in Ed as [_ Hd]. simpl in Hd.
  destruct (launchRest (todo p2) start p2 s2) as [p3 s3] eqn:El.
  apply (launchRest_fits (fleetSize s + Z.of_nat n)) in El; [|lia]. by intros [= <- <-].
Qed.
End pool.

(** * Scaling up *)

Lemma within_releaseGateStatus k : within 0 (releaseGateStatus k).
Proof. unfold releaseGateStatus. repeat bounded_step. Qed.
Hint Resolve within_releaseGateStatus : bounded.

Lemma within_recordLaunchGate k r e : within 0 (recordLaunchGate k r e).
Proof.
  unfold recordLaunchGate. do 2 (bounded_step; [auto with bounded |]).
  apply bounded_bind0; [same | intros ?; repeat bounded_step].
Qed.

Lemma within_clearLaunchGate : within 0 clearLaunchGate.
Proof.
  unfold clearLaunchGate. apply bounded_bind0; [same | intros ?; repeat bounded_step].
Qed.
Hint Resolve within_recordLaunchGate within_clearLaunchGate : bounded.

Lemma launchWorkers_fits route needed spare c :
  0 <= needed →
  hoare (λ s, fleetSize s + needed <= c) (launchWorkers cfg route needed spare)
    (λ _ s, fleetSize s <= c).
Proof.
  intros Hn. unfold launchWorkers. eapply hoare_bind with (T := λ _ s, fleetSize s <= c - needed).
  { eapply hoare_conseq; [apply (hoare_bounded fleetSize (c - needed)), within_ask | simpl; lia | done]. }
  intros choices. eapply hoare_bind with (T := λ _ s, fleetSize s <= c).
  { apply hoare_act. intros s x s' Hs Hl%launchAll_fits. lia. }
  intros [[f cap] rej]. apply hoare_bounded. repeat bounded_step.
Qed.

(** Whatever the scale set, the fleet counted is the whole one. *)
Lemma routeCounts_fleet route st : (routeCounts cfg route st).2 = countWorkers st.
Proof. unfold routeCounts. destruct (ephemeral cfg); [|done]. simpl. by destruct (_ =? _). Qed.

Lemma speculate_fits route n c :
  maxWorkers cfg <= c → hoare (λ s, fleetSize s <= c) (speculate cfg route n) (λ _ s, fleetSize s <= c).
Proof.
  intros Hc. unfold speculate. destruct env_speculates; cbn [negb]; [|by apply hoare_ret].
  eapply hoare_bind; [apply hoare_bounded; auto with bounded |]. intros open.
  destruct open; cbn [negb]; [|by apply hoare_ret].
  eapply hoare_bind; [apply hoare_bounded; auto with bounded |]. intros room. cbv beta.
  destruct (room <? 1); [by apply hoare_ret |].
  eapply hoare_bind; [apply hoare_bounded; auto with bounded |]. intros cnt. cbv beta.
  eapply hoare_bind with (T := λ fleet s, fleetSize s <= c ∧ fleetSize s = fleet).
  { apply hoare_act. intros s x s' Hs [= <- <-]. done. }
  intros fleet. destruct cnt as [[busy fastIdle] slowIdle].
  set (count := Z.min _ _). destruct (count <? 1) eqn:Ec; [apply hoare_ret; naive_solver |].
  apply Z.ltb_ge in Ec.
  eapply hoare_conseq; [apply (launchWorkers_fits _ _ _ c); lia | | done].
  intros s [Hs Hf]. simpl. unfold count. lia.
Qed.

(** [capacityAllowance] admits no more than was asked for. *)
Lemma allowance_bound current target t g :
  0 <= (capacityAllowance current target t g).1 <= Z.max 0 (target - current).
Proof.
  unfold capacityAllowance. destruct (_ || _); simpl; [lia |].
  destruct (current <? capacityEffective g) eqn:Ec; simpl; [apply Z.ltb_lt in Ec; lia |].
  destruct (Before _ _); simpl; lia.
Qed.

Lemma scaleUp_fits route jobs target (F : Z) :
  hoare (λ s, fleetSize s = F) (scaleUp cfg route jobs target)
    (λ _ s, fleetSize s <= Z.max (maxWorkers cfg) F).
Proof.
  set (c := Z.max (maxWorkers cfg) F). unfold scaleUp.
  eapply hoare_bind with (T := λ counts s, counts.2 = F ∧ fleetSize s <= F).
  { apply hoare_act. intros s x s' Hs [= <- <-]. rewrite routeCounts_fleet. unfold fleetSize in *. lia. }
  intros [current fleet]. eapply hoare_bind with (T := λ _ s, fleetSize s <= c).
  { destruct (current <? target); [|apply hoare_ret; simpl; lia].
    eapply hoare_bind with (T := λ _ s, fleet = F ∧ fleetSize s <= F).
    { intros s [? Hs]. split; [done |]. by apply (hoare_bounded fleetSize F _ within_now). }
    intros t. eapply hoare_bind with (T := λ a s, fleet = F ∧ fleetSize s <= F ∧
      0 <= a.1 <= Z.max 0 (Z.min (maxWorkers cfg) (fleet + target - current) - fleet)).
    { apply hoare_act. intros s x s' [? Hs] [= <- <-]. split_and!; [done..| |];
        apply allowance_bound. }
    intros [needed probing]. destruct (0 <? needed) eqn:En; [|apply hoare_ret; simpl; lia].
    apply Z.ltb_lt in En.
    eapply hoare_bind with (T := λ _ s, fleetSize s <= c).
    { eapply hoare_conseq; [apply (launchWorkers_fits _ _ _ c); lia | simpl; lia | done]. }
    intros [err|]; [by apply hoare_ret |]. apply hoare_bounded. repeat bounded_step. }
  intros [err|]; [by apply hoare_ret |].
  destruct (_ =? _); [apply speculate_fits; lia | by apply hoare_ret].
Qed.
End fleet.
