(* ===== verification/ScalerTheorems.v ===== *)
(** What the scaler guarantees: launches only with the paperwork on disk,
    registrations never lost, nothing removed without proof, the fleet within
    its maximum, and a launch gate that backs off and probes. *)

From S2P Require Import Prelude Program GoStrings Provider UsageBudget RetirementQueue WorkerState Scaler.
From S2P Require Import ScalerSpecs ScalerOps ScalerFleet ScalerRuns.

(** * Histories *)

Section history.
Context {W : Type} {E : Env W} (cfg : scalerConfig) `{!EnvLaws E}.
Context (b : usageBudget) (q : retirementQueue) (wake : option bool) (w : W) (ms : list message).

(** The scaler after the messages [ms]. *)
Definition afterMessages : scaler W := handleAll cfg ms (startUp b q wake w).

Lemma after_Inv : queueOK q → Inv cfg afterMessages.
Proof. intros Hq. by apply handleAll_Inv, startUp_Inv. Qed.

Lemma after_event ev :
  queueOK q → ev ∈ trace afterMessages →
  ∃ later earlier, trace afterMessages = later ++ ev :: earlier ∧ evOK cfg earlier ev
    ∧ traceOK cfg earlier.
Proof.
  intros Hq Hin. pose proof (inv_trace _ _ (after_Inv Hq)) as HT.
  apply list_elem_of_split in Hin as (l1 & l2 & Heq). exists l1, l2. rewrite Heq in *.
  clear Heq. induction l1 as [|x l1 IH]; simpl in HT; [by destruct HT |].
  destruct (IH ltac:(tauto)) as (_ & ? & ?). auto.
Qed.

(** C1: Write-ahead.  Whatever messages arrive, however launches interleave
    and whatever the provider, GitHub and the disk answer, every call of
    Launch happens with the lease's retirement entry (name, lease,
    registration and scale set of the lease) in the journal, in memory and on
    disk, after the registration was requested, and after a ledger with an
    active reservation of one maximum lifetime for the lease was on disk. *)
Theorem launch_write_ahead target l j :
  queueOK q → Launching target l j ∈ trace afterMessages →
  (∃ e, held e j ∧ re_RunnerName e = lease_RunnerName l ∧ re_LeaseID e = lease_ID l
        ∧ re_RunnerID e = lease_RunnerID l ∧ re_RunnerScaleSetID e = lease_RunnerScaleSetID l)
  ∧ registered (lease_RunnerName l) (trace afterMessages)
  ∧ (∃ es u, Reserved (lease_ID l) (Complete (mkUsageLedger 1 es)) ∈ trace afterMessages
        ∧ u ∈ es ∧ ue_LeaseID u = lease_ID l ∧ ue_Active u = true
        ∧ ue_Seconds u = durationSeconds (maxLifetime cfg)).
Proof.
  intros Hq Hin. destruct (after_event _ Hq Hin) as (later & earlier & Heq & Hev & HT).
  rewrite Heq. destruct Hev as (e & Hh & H1 & H2 & H3 & H4 & (c & Hc) & (ss & q' & Hr)).
  split_and!.
  - exists e. by split_and!.
  - exists ss, q'. apply elem_of_app. right. by right.
  - destruct (traceOK_event _ _ _ HT Hc) as (l1 & l2 & _ & (es & u & -> & Hu & Hul & Hua & Hus)).
    exists es, u. split_and!; try done. apply elem_of_app. right. by right.
Qed.

(** C2: No registration is lost.  Every runner name the controller ever asked
    GitHub to register is, at any later point, in the journal, or a worker of
    the local state, or known to have no registration (GitHub said so, or
    removed it, after the last request). *)
Theorem registrations_tracked n :
  queueOK q → registered n (trace afterMessages) →
  is_Some (rq_entries (retirements afterMessages) !! n)
  ∨ is_Some (workers (state afterMessages) !! n)
  ∨ deregistered n (trace afterMessages) = true.
Proof. intros Hq. apply (inv_tracked _ _ (after_Inv Hq)). Qed.

(** C10: Nothing is removed without proof.  Every call of RemoveRunner names a
    registration of a scale set this controller serves, under the id that a
    valid journal entry recorded for that runner name and that GitHub itself
    reported for it. *)
Theorem removal_authorised n id ok :
  queueOK q → Removing n id ok ∈ trace afterMessages →
  ∃ e r, Journaled e ∈ trace afterMessages ∧ validateRetirementEntry e = None
    ∧ re_RunnerName e = n ∧ (id ≠ 0 → re_RunnerID e = id)
    ∧ servesScaleSet cfg (re_RunnerScaleSetID e) = true
    ∧ Looked n (Some r) ∈ trace afterMessages ∧ rr_ID r = id ∧ rr_Name r = n
    ∧ (rr_RunnerScaleSetID r = 0 ∨ servesScaleSet cfg (rr_RunnerScaleSetID r) = true).
Proof.
  intros Hq Hin. destruct (after_event _ Hq Hin) as (later & earlier & Heq & Hev & HT).
  rewrite Heq. destruct Hev as (e & r & HJ & H1 & H2 & H3 & H4 & H5 & H6 & H7). exists e, r.
  assert (Hsub : ∀ ev, ev ∈ earlier → ev ∈ later ++ Removing n id ok :: earlier).
  { intros ev Hev. apply elem_of_app. right. by right. }
  destruct (traceOK_event _ _ _ HT HJ) as (l1 & l2 & _ & Hv).
  split_and!; auto. destruct H7 as [?| ->]; auto.
Qed.

(** A worker is destroyed only while the journal holds the retirement of
    its runner name under its lease, so that a crash in the middle of a
    retirement resumes it. *)
Theorem destroy_journaled x j :
  queueOK q → Destroying x j ∈ trace afterMessages →
  ∃ e, rq_entries j !! RunnerName x = Some e ∧ re_LeaseID e = LeaseID x.
Proof. intros Hq Hin. by destruct (after_event _ Hq Hin) as (? & ? & _ & Hev & _). Qed.
End history.

(** ** A run with launches, a completed job and a removal *)

Definition isRemoval (ev : event) : bool := match ev with Removing _ _ _ => true | _ => false end.
Definition isDestroy (ev : event) : bool := match ev with Destroying _ _ => true | _ => false end.

Definition demoMessages : list message :=
  [Recover; Desired (mainRoute demoConfig) 2; JobStarted (runnerName (demoUUID 0));
   JobCompleted (runnerName (demoUUID 0)) 0].

Abbreviation demoAfter :=
  (afterMessages demoConfig demoLedger (mkRetirementQueue ∅ None) (Some false) demoWorld0 demoMessages).

Lemma pick_event (p : event → bool) tr : keep p tr ≠ [] → ∃ ev, ev ∈ tr ∧ p ev = true.
Proof.
  destruct (keep p tr) as [|ev l] eqn:E; [done |]. intros _. exists ev. apply elem_of_keep.
  rewrite E. left.
Qed.

Lemma launch_write_ahead_witness :
  ∃ l e j, Launching FleetCompute l j ∈ trace demoAfter ∧ held e j ∧ re_LeaseID e = lease_ID l
           ∧ registered (lease_RunnerName l) (trace demoAfter).
Proof.
  destruct (pick_event (λ ev, match ev with Launching FleetCompute _ _ => true | _ => false end)
    (trace demoAfter)) as (ev & Hin & Hev); [vm_compute; done |].
  destruct ev as [| | | |[] l j| |]; try done. 
  destruct (launch_write_ahead demoConfig demoLedger (mkRetirementQueue ∅ None) (Some false) demoWorld0
    demoMessages FleetCompute l j demoQueue0_OK Hin) as ((e & He & _ & Hl & _) & Hr & _).
  by exists l, e, j.
Defined.

Lemma registrations_tracked_witness :
  registered (runnerName (demoUUID 0)) (trace demoAfter) ∧
  (is_Some (rq_entries (retirements demoAfter) !! runnerName (demoUUID 0))
   ∨ is_Some (workers (state demoAfter) !! runnerName (demoUUID 0))
   ∨ deregistered (runnerName (demoUUID 0)) (trace demoAfter) = true).
Proof.
  assert (H : registered (runnerName (demoUUID 0)) (trace demoAfter)).
  { destruct (pick_event (λ ev, match ev with
      | Registering n _ _ => String.eqb n (runnerName (demoUUID 0)) | _ => false end)
      (trace demoAfter)) as (ev & Hin & Hev); [vm_compute; done |].
    destruct ev as [| | |n ss q| | |]; try done. apply String.eqb_eq in Hev. subst n. by exists ss, q. }
  split; [exact H |].
  exact (registrations_tracked demoConfig demoLedger (mkRetirementQueue ∅ None) (Some false) demoWorld0
    demoMessages (runnerName (demoUUID 0)) demoQueue0_OK H).
Defined.

Lemma removal_authorised_witness :
  ∃ n id ok e, Removing n id ok ∈ trace demoAfter ∧ Journaled e ∈ trace demoAfter ∧ re_RunnerName e = n.
Proof.
  destruct (pick_event isRemoval (trace demoAfter)) as (ev & Hin & Hev); [vm_compute; done |].
  destruct ev as [| | | | | |n id ok]; try done.
  destruct (removal_authorised demoConfig demoLedger (mkRetirementQueue ∅ None) (Some false) demoWorld0
    demoMessages n id ok demoQueue0_OK Hin) as (e & r & HJ & _ & Hn & _).
  by exists n, id, ok, e.
Defined.

Lemma destroy_journaled_witness :
  ∃ x j e, Destroying x j ∈ trace demoAfter ∧ rq_entries j !! RunnerName x = Some e.
Proof.
  destruct (pick_event isDestroy (trace demoAfter)) as (ev & Hin & Hev); [vm_compute; done |].
  destruct ev as [| | | | |x j|]; try done.
  destruct (destroy_journaled demoConfig demoLedger (mkRetirementQueue ∅ None) (Some false) demoWorld0
    demoMessages x j demoQueue0_OK Hin) as (e & He & _).
  by exists x, j, e.
Defined.

(** * Fleet size *)

(** The scaler once a desired-count message is reported and reconciled. *)
Definition afterReconcile {W} {E : Env W} (cfg : scalerConfig) (route : scaleSetRoute) (jobs : Z)
    (s : scaler W) : scaler W :=
  execP (reconcile cfg)
    (execP (report_ (r_desired (route_name route) jobs
              (Z.min (maxWorkers cfg) (route_minWorkers route + jobs)))) s).

(** C23: MAX_RUNNERS holds for the whole fleet.  Handling a desired-count message
    of either scale set, with launches and speculative launches in any
    interleaving, leaves no more workers than the configured maximum, or than
    reconciliation found if that is more. *)
Theorem fleet_within_maximum {W} {E : Env W} cfg route jobs (s : scaler W) :
  fleetSize (execP (HandleDesiredRunnerCount cfg route jobs) s)
  <= Z.max (maxWorkers cfg) (fleetSize (afterReconcile cfg route jobs s)).
Proof.
  unfold HandleDesiredRunnerCount, handleDesiredRunnerCount, afterReconcile.
  set (target := Z.min _ _). rewrite !execP_bind. cbn [mret prog_ret execP runP snd].
  set (s1 := execP (reconcile cfg) _). set (err := evalP (reconcile cfg) _).
  set (c := Z.max _ _). unfold execP at 1. cbn [mret prog_ret runP snd].
  assert (H : hoare (λ s, fleetSize s = fleetSize s1)
    (match err with
     | Some err => mret (if IsTransient err then None else Some err)
     | None => scaleUp cfg route jobs target
     end) (λ _ s, fleetSize s <= c)).
  { destruct err; [apply hoare_ret; intros s' ->; lia | apply scaleUp_fits]. }
  apply (H s1 eq_refl).
Qed.

(** * Retirement *)

(** Retirement is all or journaled.  When retiring a worker reports no
    error, then either nothing of the runner is left - GitHub has no
    registration under its name and the local state no worker - or its
    retirement is still in the journal, for reconciliation to finish. *)
Theorem retire_done_or_journaled {W} {E : Env W} cfg worker present_ disposition stoppedAt (s : scaler W) :
  Inv cfg s →
  evalP (retireWorker cfg worker present_ disposition stoppedAt) s = None →
  let s' := execP (retireWorker cfg worker present_ disposition stoppedAt) s in
  (∃ e, rq_entries (retirements s') !! RunnerName worker = Some e)
  ∨ deregistered (RunnerName worker) (trace s') = true ∧ workers (state s') !! RunnerName worker = None.
Proof.
  intros HI Hr s'.
  destruct (wp_run (frame every) (frame (others every)) (Inv cfg) _ _ s
    (owns_retireWorker cfg every worker present_ disposition stoppedAt I s I) HI) as (_ & _ & HQ).
  by apply HQ.
Qed.

(** A worker of the demonstration fleet. *)
Definition demoWorker : Worker :=
  mkWorker ("vm-" +:+ demoUUID 1) (demoUUID 1) (runnerName (demoUUID 1)) 50 12 "started" demoStart.

Lemma retire_done_or_journaled_witness :
  let s' := execP (retireWorker demoConfig demoWorker true settleActualUsage 0) demo0 in
  (∃ e, rq_entries (retirements s') !! runnerName (demoUUID 1) = Some e)
  ∨ deregistered (runnerName (demoUUID 1)) (trace s') = true
    ∧ workers (state s') !! runnerName (demoUUID 1) = None.
Proof.
  apply (retire_done_or_journaled demoConfig demoWorker true settleActualUsage 0 demo0).
  - apply startUp_Inv, demoQueue0_OK.
  - vm_compute. reflexivity.
Defined.

(** A gap in the provider's inventory is not a departure.  A worker missing
    from inventory, past neither its maximum lifetime nor its idle limit, keeps
    its record, and nothing is journaled, destroyed or removed, until it has
    been missing for thirty seconds. *)
Theorem absent_worker_kept {W} {E : Env W} cfg acc at_ name record (s : scaler W) :
  workers (state s) !! name = Some record →
  (CreatedAt (wr_Worker record) = 0 ∨
   Sub at_ (CreatedAt (wr_Worker record)) <= Z.min (maxLifetime cfg) (danglingTimeout cfg)) →
  0 <= maxLifetime cfg → 0 <= danglingTimeout cfg →
  (wr_MissingSince record = 0 ∨ Sub at_ (wr_MissingSince record) < inventoryAbsenceGrace) →
  let s' := execP (reconcileAbsent cfg acc at_ (name, record)) s in
  evalP (reconcileAbsent cfg acc at_ (name, record)) s = None ∧
  retirements s' = retirements s ∧ trace s' = trace s ∧
  ∃ r, workers (state s') !! name = Some r ∧ wr_Worker r = wr_Worker record
       ∧ (wr_MissingSince record = 0 → name ∉ retired acc → ID (wr_Worker record) ∉ present acc →
          wr_MissingSince r = at_).
Proof.
  intros Hw Hage Hml Hdt Hmiss s'. unfold s', evalP, execP, reconcileAbsent.
  destruct (bool_decide (name ∈ retired acc) || _) eqn:Hseen.
  { simpl. split_and!; [done..|]. exists record. split_and!; [done..|].
    intros _ Hn Hp. rewrite !bool_decide_eq_false_2 in Hseen by done. done. }
  set (age := if IsZero _ then 0 else _).
  assert (Ha : age <= Z.min (maxLifetime cfg) (danglingTimeout cfg)).
  { unfold age. destruct Hage as [->|Hage]; [simpl; lia |]. destruct (IsZero _); lia. }
  assert (H1 : (maxLifetime cfg <? age) = false) by (apply Z.ltb_ge; lia).
  assert (H2 : (danglingTimeout cfg <? age) = false) by (apply Z.ltb_ge; lia).
  rewrite H1, H2, !andb_false_r. cbn [negb andb].
  destruct (IsZero (wr_MissingSince record)) eqn:Hz.
  - cbn. unfold markMissing. rewrite Hw, Hz. cbn. split_and!; [done..|].
    eexists. rewrite lookup_insert_eq. by split_and!.
  - destruct Hmiss as [Hm|Hm]; [by rewrite Hm in Hz |]. apply Z.ltb_lt in Hm. rewrite Hm. simpl.
    split_and!; [done..|]. exists record. split_and!; [done..|]. intros H0. by rewrite H0 in Hz.
Qed.

Lemma absent_worker_kept_witness :
  let r := mkWorkerRecord demoWorker false true (demoStart + 60 * Second) in
  let s := with_state (λ _, mkWorkerState {[runnerName (demoUUID 1) := r]} ∅) demo0 in
  evalP (reconcileAbsent demoConfig (mkSeen ∅ ∅) (demoStart + 80 * Second)
           (runnerName (demoUUID 1), r)) s = None.
Proof.
  intros r s.
  apply (absent_worker_kept demoConfig (mkSeen ∅ ∅) (demoStart + 80 * Second)
    (runnerName (demoUUID 1)) r s); try (vm_compute; done).
  - right. vm_compute. done.
  - right. vm_compute. done.
Defined.

(** Handler errors fail closed: an error that leaves a listener handler is
    marked as a handler failure, which ends the controller instead of reopening
    the session. *)
Theorem handlers_fail_closed {W} {E : Env W} cfg (s : scaler W) err :
  (∃ route jobs, (evalP (HandleDesiredRunnerCount cfg route jobs) s).2 = Some err)
  ∨ (∃ r, evalP (HandleJobStarted cfg r) s = Some err)
  ∨ (∃ r t, evalP (HandleJobCompleted cfg r t) s = Some err) →
  isHandlerFailure err = true.
Proof.
  assert (Hfc : ∀ e, failClosed e = Some err → isHandlerFailure err = true).
  { intros [e|]; simpl; [|done]. destruct (isHandlerFailure e) eqn:He; [by intros [= <-] |].
    intros [= <-]. reflexivity. }
  intros [(route & jobs & H)|[(r & H)|(r & t & H)]].
  - unfold HandleDesiredRunnerCount in H. rewrite evalP_bind in H. by apply Hfc in H.
  - unfold HandleJobStarted in H. rewrite evalP_bind in H. by apply Hfc in H.
  - unfold HandleJobCompleted in H. rewrite evalP_bind in H. by apply Hfc in H.
Qed.

(** The demonstration fleet with one worker and a journal that cannot be
    written. *)
Definition brokenJournal : journalIO :=
  mkJournalIO false true true true true true true true true true true.
Definition demoBroken : scaler demoWorld :=
  mkScaler (mkWorkerState {[runnerName (demoUUID 1) := mkWorkerRecord demoWorker true true 0]} ∅)
    demoLedger (mkRetirementQueue ∅ None) (openGate None) [] [] 2
    (mkDemoWorld 0 [demoWorker] [] None brokenJournal).

Lemma handlers_fail_closed_witness :
  ∃ err, evalP (HandleJobCompleted demoConfig (runnerName (demoUUID 1)) 0) demoBroken = Some err
         ∧ isHandlerFailure err = true.
Proof.
  eexists. split; [vm_compute; reflexivity |].
  apply (handlers_fail_closed demoConfig demoBroken). right. right.
  exists (runnerName (demoUUID 1)), 0. vm_compute. reflexivity.
Defined.

(** * The launch gate *)

(** One refusal of a launch. *)
Record refusal := mkRefusal {
  rf_kind : string; rf_reason : string; rf_effective : Z; rf_hint : duration; rf_at : time
}.

Definition refuse (g : launchGate) (r : refusal) : launchGate :=
  closeGate (rf_kind r) (rf_reason r) (rf_effective r) (rf_hint r) (rf_at r) g.

(** A provider's promise of room, which only a capacity error carries. *)
Definition hinted (r : refusal) : bool := String.eqb (rf_kind r) gateCapacity && (0 <? rf_hint r).

(** The backoff after [n] refusals without such a promise. *)
Definition backoffAfter (n : nat) : duration :=
  match n with O => 0 | S n => Z.min (Minute * 2 ^ Z.of_nat n) capacityMaximumBackoff end.

Lemma close_fields k r e h t g :
  capacityBackoff (closeGate k r e h t g) = (gateWait k h (capacityBackoff g)).2 ∧
  capacityRetryAt (closeGate k r e h t g) = Add t (gateWait k h (capacityBackoff g)).1 ∧
  capacityEffective (closeGate k r e h t g) = e ∧ capacityReason (closeGate k r e h t g) = r ∧
  capacityKind (closeGate k r e h t g) = k.
Proof.
  unfold closeGate. destruct (gateWait k h (capacityBackoff g)) as [wait backoff]. simpl.
  unfold scheduleProbeLocked. simpl. by destruct (probeWake g).
Qed.

Lemma gateWait_step k h n :
  let w := gateWait k h (backoffAfter n) in
  if String.eqb k gateCapacity && (0 <? h)
  then w.2 = backoffAfter n ∧ w.1 = Z.min (Z.max h capacityMinimumRetry) capacityMaximumBackoff
  else w.2 = backoffAfter (S n) ∧ w.1 = backoffAfter (S n).
Proof.
  unfold gateWait. destruct (_ && _); [done |]. destruct n as [|n].
  { simpl. unfold capacityInitialBackoff, capacityMaximumBackoff, Minute. split; lia. }
  assert (Hpow : 1 <= 2 ^ Z.of_nat n) by (pose proof (Z.pow_pos_nonneg 2 (Z.of_nat n)); lia).
  assert (Hn : 2 ^ Z.of_nat (S n) = 2 * 2 ^ Z.of_nat n) by
    (rewrite Nat2Z.inj_succ, Z.pow_succ_r by lia; lia).
  unfold backoffAfter. rewrite Hn.
  unfold capacityMaximumBackoff, Minute, capacityInitialBackoff in *.
  destruct (_ =? 0) eqn:E0; [apply Z.eqb_eq in E0; lia |]. simpl.
  rewrite wrap64_id by (unfold in_int64, min_int64, max_int64; lia). split; lia.
Qed.

(** The gate's backoff.  After any sequence of refused launches from an open
    gate, the backoff is one minute doubled with each refusal that came without
    a promise of room, never more than fifteen minutes; the last refusal's
    retry time is that backoff after it, or, with a promise of room, the
    promised time, but at least five seconds and at most fifteen minutes. *)
Theorem gate_backoff wake rs r :
  let g := fold_left refuse (rs ++ [r]) (openGate wake) in
  let n := length (keep (λ r, negb (hinted r)) (rs ++ [r])) in
  capacityBackoff g = backoffAfter n ∧
  capacityRetryAt g = rf_at r + (if hinted r
    then Z.min (Z.max (rf_hint r) capacityMinimumRetry) capacityMaximumBackoff else backoffAfter n) ∧
  0 < capacityRetryAt g - rf_at r <= 15 * Minute ∧
  capacityReason g = rf_reason r ∧ capacityEffective g = rf_effective r.
Proof.
  assert (Hb : ∀ rs, capacityBackoff (fold_left refuse rs (openGate wake)) =
                     backoffAfter (length (keep (λ r, negb (hinted r)) rs))).
  { intros l. induction l as [|x l IH] using rev_ind; [done |].
    rewrite fold_left_app. simpl. unfold refuse at 1. 
    destruct (close_fields (rf_kind x) (rf_reason x) (rf_effective x) (rf_hint x) (rf_at x)
      (fold_left refuse l (openGate wake))) as (-> & _). rewrite IH, keep_app, length_app. simpl.
    pose proof (gateWait_step (rf_kind x) (rf_hint x) (length (keep (λ r, negb (hinted r)) l))) as H.
    unfold hinted at 3. simpl in H. destruct (_ && _); simpl; destruct H as [-> _];
      rewrite ?Nat.add_0_r, ?Nat.add_1_r; done. }
  intros g n. split; [apply Hb |]. unfold g. rewrite fold_left_app. simpl. specialize (Hb rs).
  set (before := fold_left refuse rs (openGate wake)) in *. unfold refuse.
  destruct (close_fields (rf_kind r) (rf_reason r) (rf_effective r) (rf_hint r) (rf_at r) before)
    as (_ & -> & -> & -> & _).
  rewrite Hb. unfold n. rewrite keep_app, length_app. simpl.
  pose proof (gateWait_step (rf_kind r) (rf_hint r) (length (keep (λ r, negb (hinted r)) rs))) as H.
  cbv zeta in H. change (String.eqb (rf_kind r) gateCapacity && (0 <? rf_hint r)) with (hinted r) in H.
  unfold Add. destruct (hinted r); simpl; destruct H as [_ ->].
  - unfold capacityMinimumRetry, capacityMaximumBackoff, Minute, Second. split_and!; try done; lia.
  - rewrite Nat.add_1_r. simpl. unfold capacityMaximumBackoff.
    assert (1 <= 2 ^ Z.of_nat (length (keep (λ r, negb (hinted r)) rs))).
    { pose proof (Z.pow_pos_nonneg 2 (Z.of_nat (length (keep (λ r, negb (hinted r)) rs)))). lia. }
    unfold Minute in *. split_and!; try done; lia.
Qed.

(** A closed gate admits replacements below the proven ceiling, nothing above
    it before the retry time, and exactly one probe after it; an open gate
    admits what was asked for. *)
Theorem gate_allowance current target t g :
  let '(needed, probing) := capacityAllowance current target t g in
  (launchGateOpen g = true → needed = Z.max 0 (target - current) ∧ probing = false) ∧
  (launchGateOpen g = false →
     (probing = true ↔ current < target ∧ capacityEffective g <= current ∧ capacityRetryAt g <= t) ∧
     (probing = true → needed = 1) ∧
     (probing = false → current + needed <= Z.max current (capacityEffective g)) ∧
     current + needed <= Z.max current target).
Proof.
  unfold capacityAllowance, launchGateOpen. destruct (String.eqb (capacityReason g) "");
    [rewrite orb_true_r; split; [done | done] |]. rewrite orb_false_r.
  destruct (Z.eqb_spec (Z.max 0 (target - current)) 0) as [H0|H0];
    [split; [done | intros _; split_and!; try done; lia] |].
  destruct (Z.ltb_spec current (capacityEffective g)); [split; [done |]; intros _; split_and!; [|done|..]; lia |].
  unfold Before. destruct (Z.ltb_spec t (capacityRetryAt g)); split; try done; intros _; split_and!; try done; try lia.
Qed.

(** * Launch errors *)

(** The classes of a launch error.  Transient and capacity errors pass
    through; an authorization failure (401, 403) passes through and stays fatal;
    every other error becomes a launch rejection that wraps it and is neither
    transient nor a capacity error. *)
Theorem launch_failure_classes err :
  let e := classifyLaunchFailure err in
  (IsTransient err || IsCapacity err = true → e = err) ∧
  (IsTransient err || IsCapacity err = false →
     match errors_as as_status err with
     | Some (_, 401) | Some (_, 403) => e = err
     | _ => ∃ reason, e = launchRejectedError reason err ∧ reason ≠ ""
              ∧ launchRejectionReason e = reason ∧ IsTransient e = false ∧ IsCapacity e = false
     end).
Proof.
  unfold classifyLaunchFailure. destruct (IsTransient err || IsCapacity err) eqn:Hc; [done |].
  split; [done |]. intros _. apply orb_false_iff in Hc as [Ht Hcap].
  assert (Hrej : ∀ reason, reason ≠ "" → ∃ reason0, launchRejectedError reason err = launchRejectedError reason0 err
    ∧ reason0 ≠ "" ∧ launchRejectionReason (launchRejectedError reason err) = reason0
    ∧ IsTransient (launchRejectedError reason err) = false ∧ IsCapacity (launchRejectedError reason err) = false).
  { intros reason Hne. exists reason. split_and!; [done | done | | exact Ht | exact Hcap].
    unfold launchRejectionReason. simpl. by destruct (String.eqb_spec reason ""). }
  destruct (errors_as as_status err) as [[prov status]|]; [|by apply Hrej].
  assert (Hne : prov +:+ "_status_" +:+ Itoa status ≠ "") by by destruct prov.
  destruct (Z.eqb_spec status 401) as [->|H1]; [done |].
  destruct (Z.eqb_spec status 403) as [->|H3]; [done |]. simpl.
  specialize (Hrej _ Hne). repeat case_match; done.
Qed.

(** The errors a batch of launches leaves are sorted into the right variables. *)
Definition sortedErrors {W} (p : pool (W := W)) : Prop :=
  (∀ e, fatal p = Some e → IsCapacity e = false ∧ IsTransient e = false ∧ errors_as as_rejected e = None)
  ∧ (∀ e, capacityErr p = Some e → IsCapacity e = true)
  ∧ (∀ e, rejectedErr p = Some e →
       is_Some (errors_as as_rejected e) ∧ IsCapacity e = false ∧ IsTransient e = false).

Section errors.
Context {W : Type} {E : Env W} (cfg : scalerConfig).
Implicit Types (p : pool (W := W)) (s : scaler W).

Lemma settle_sorted r p : sortedErrors p → sortedErrors (settleLaunch r p).
Proof.
  intros (H1 & H2 & H3). unfold settleLaunch. destruct (r.2) as [err|]; [|done].
  destruct (IsCapacity err) eqn:Ec; [|destruct (IsTransient err) eqn:Et; [done |]].
  - split_and!; simpl; [done | | done]. intros e. destruct (capacityErr p); simpl; [naive_solver |].
    by intros [= <-].
  - case_bool_decide as Hr; split_and!; simpl; try done; intros e.
    + destruct (rejectedErr p); simpl; [naive_solver |]. by intros [= <-].
    + destruct (fatal p); simpl; [naive_solver |]. intros [= <-].
      split_and!; [done..|]. by apply eq_None_not_Some.
Qed.

Lemma drain_sorted rs p s : sortedErrors p → sortedErrors (drain rs p s).1.
Proof.
  revert p s. induction rs as [|r rs IH]; intros p s H; simpl; [done |].
  destruct (runP r s) as [a s']. by apply IH, settle_sorted.
Qed.

Lemma launchRest_sorted n start p s : sortedErrors p → sortedErrors (launchRest n start p s).1.
Proof.
  revert p s. induction n as [|n IH]; intros p s H; cbn [launchRest]; [done |].
  destruct (stopped p); [done |]. destruct (runP start s) as [a s']. by apply IH, settle_sorted.
Qed.

Lemma poolStep_sorted lim start c (ps : pool (W := W) * scaler W) : sortedErrors ps.1 → sortedErrors (poolStep lim start c ps).1.
Proof.
  destruct ps as [p s]. intros H. unfold poolStep, spawn, stepRunning. simpl in H.
  destruct (_ =? _)%nat; [by repeat case_match |].
  destruct (running p !! _) as [[a|X op k]|]; [by apply settle_sorted | | done].
  by destruct (stepP _ s).
Qed.

(** What stops the controller.  The error a batch of launches returns is
    never a capacity ceiling, a transient failure or a launch rejection; those
    only stop further launches, and close the gate with an error of the kind
    it is closed for. *)
Theorem launch_errors_sorted route spare choices n s f c r s' :
  launchAll cfg route spare choices n s = ((f, c, r), s') →
  (∀ e, f = Some e → IsCapacity e = false ∧ IsTransient e = false ∧ errors_as as_rejected e = None)
  ∧ (∀ e, c = Some e → IsCapacity e = true)
  ∧ (∀ e, r = Some e → is_Some (errors_as as_rejected e) ∧ IsCapacity e = false ∧ IsTransient e = false).
Proof.
  unfold launchAll, runPool. set (lim := Z.to_nat _). set (start := startWorker cfg route spare).
  assert (H0 : ∀ cs ps, sortedErrors ps.1 →
    sortedErrors (fold_left (λ ps c, poolStep lim start c ps) cs ps).1).
  { induction cs as [|x cs IH]; intros ps H; simpl; [done |]. by apply IH, poolStep_sorted. }
  specialize (H0 choices (mkPool n [] false None None None, s)). simpl in H0.
  destruct (fold_left _ choices _) as [p s1]. 
  assert (H1 : sortedErrors p) by (apply H0; done). clear H0.
  apply (drain_sorted (running p) p s1) in H1. destruct (drain (running p) p s1) as [p2 s2].
  apply (launchRest_sorted (todo p2) start p2 s2) in H1.
  destruct (launchRest (todo p2) start p2 s2) as [p3 s3]. by intros [= <- <- <- <-].
Qed.

Lemma transient_join e es : IsTransient e = true → IsTransient (JoinError (e :: es)) = true.
Proof.
  unfold IsTransient. rewrite !bool_decide_eq_true. simpl. intros [x ->]. by exists x.
Qed.

Lemma for_each_result {A B} (l : list A) (g : A → prog (scaler W) (option B)) k s (P : B → Prop) :
  (∀ a s b, evalP (g a) s = Some b → P b) → (∀ s, P (evalP k s)) → P (evalP (for_each l g k) s).
Proof.
  intros Hg Hk. revert s. induction l as [|x l IH]; intros s; cbn [for_each]; [apply Hk |].
  rewrite evalP_bind. destruct (evalP (g x) s) as [b|] eqn:Eb; [exact (Hg x s b Eb) | apply IH].
Qed.

(** A failed cleanup is reported as transient when the launch error was.
    Whatever goes wrong while cleaning up after a transient launch error - a
    journal that cannot be written, a registration of a foreign scale set, a
    worker that cannot be destroyed - comes back joined to that error, is
    treated as transient, and does not stop the controller. *)
Theorem cleanup_failure_masked ret err s e p :
  IsTransient err = true → evalP (cleanupAmbiguousLaunch cfg ret err) s = Some e →
  IsTransient e = true ∧ fatal (settleLaunch (false, Some e) p) = fatal p.
Proof.
  intros Ht He. assert (HT : IsTransient e = true).
  { revert He. unfold cleanupAmbiguousLaunch, on_err. rewrite evalP_bind.
    destruct (evalP _ s) as [e1|]; [intros [= <-]; by apply transient_join |].
    rewrite evalP_bind. destruct (evalP Inventory _) as [e2|ws];
      [intros [= <-]; by apply transient_join |].
    match goal with |- evalP (for_each ?l ?g ?k) ?st = _ → _ =>
      pose proof (for_each_result l g k st (λ r, ∀ x, r = Some x → IsTransient x = true)) as Hf end.
    intros He. refine (Hf _ _ e He).
    - intros w st r. rewrite evalP_bind. destruct (evalP (retireWorker _ _ _ _ _) st); [|done].
      intros [= <-] x [= <-]. by apply transient_join.
    - intros st x. destruct (keep _ ws); [|done]. rewrite evalP_bind.
      destruct (evalP (finishRetirement _ _ _ _) st); [|done]. intros [= <-]. by apply transient_join. }
  split; [done |]. unfold settleLaunch. simpl. rewrite HT. by destruct (IsCapacity e).
Qed.
End errors.

(** A refused launch: the registration belongs to a scale set the controller
    does not serve, which a cleanup must not touch. *)
Definition foreignRetirement : retirementEntry :=
  mkRetirementEntry (runnerName (demoUUID 0)) 43 99 (demoUUID 0) forfeitReservation 0 demoStart.

Lemma launch_errors_sorted_witness :
  ∃ f c s', launchAll demoConfig (mainRoute demoConfig) false [] 1
              (with_world (mkDemoWorld 0 [] [] (Some (StatusError "fly" 422 "")) joOK) demo0)
            = ((f, c, Some (launchRejectedError "fly_status_422" (StatusError "fly" 422 ""))), s')
            ∧ IsTransient (launchRejectedError "fly_status_422" (StatusError "fly" 422 "")) = false.
Proof.
  destruct (launchAll demoConfig (mainRoute demoConfig) false [] 1
    (with_world (mkDemoWorld 0 [] [] (Some (StatusError "fly" 422 "")) joOK) demo0))
    as [[[f c] r] s'] eqn:E.
  assert (r = Some (launchRejectedError "fly_status_422" (StatusError "fly" 422 ""))) as ->.
  { change r with ((f, c, r, s').1.2). rewrite <- E. vm_compute. reflexivity. }
  exists f, c, s'. split; [reflexivity |].
  destruct (launch_errors_sorted demoConfig _ _ _ _ _ _ _ _ _ E) as (_ & _ & H).
  by destruct (H _ eq_refl) as (_ & _ & ?).
Defined.

Lemma cleanup_failure_masked_witness :
  ∃ e, evalP (cleanupAmbiguousLaunch demoConfig foreignRetirement (TransientError (ErrorString "timeout"))) demo0
         = Some e ∧ IsTransient e = true
       ∧ errors_as (λ x, match x with
                         | ErrorString "refusing to remove runner from unexpected scale set" => Some ()
                         | _ => None end) e = Some ().
Proof.
  eexists. split; [vm_compute; reflexivity |]. split; [|vm_compute; reflexivity].
  apply (cleanup_failure_masked demoConfig foreignRetirement (TransientError (ErrorString "timeout"))
    demo0 _ (mkPool 0 [] false None None None)); vm_compute; reflexivity.
Defined.
