(* ===== verification/GoPatterns.v ===== *)
(** Patterns.  Go's [path/filepath.Match] on a system whose separator is a slash, on byte
    strings: [*], [?], character classes and backslash escapes, where a malformed pattern
    matches nothing.  And Go's [regexp] package as far as the sources use it: patterns
    over bytes that match a whole string.  [MatchString] takes the derivative of the
    pattern by one byte after the other; [Matches] is the language of a pattern, and
    [MatchString_iff] says that they agree. *)

From S2P Require Import Prelude GoStrings.

#[local] Open Scope string_scope.

Definition byteN (c : ascii) : N := N_of_ascii c.

Definition RuneError : N := 65533.

(** A continuation byte within bounds, and its payload. *)
Definition cont (lo hi : N) (s : string) : option (N * string) :=
  match s with
  | String c s => if (lo <=? byteN c)%N && (byteN c <=? hi)%N then Some (byteN c - 128, s)%N else None
  | "" => None
  end.

(** [utf8.DecodeRuneInString]: the rune and the rest; an invalid byte decodes to
    [RuneError] by itself.  The flag tells a valid encoding. *)
Definition decodeRune (s : string) : N * string * bool :=
  match s with
  | "" => (RuneError, "", false)
  | String c rest =>
    let b := byteN c in
    let bad := (RuneError, rest, false) in
    let two lead := match cont 128 191 rest with
                    | Some (b1, r) => (lead * 64 + b1, r, true)%N | None => bad end in
    let three lead lo hi := match cont lo hi rest with
                            | Some (b1, r) => match cont 128 191 r with
                                | Some (b2, r) => ((lead * 64 + b1) * 64 + b2, r, true)%N
                                | None => bad end
                            | None => bad end in
    let four lead lo hi := match cont lo hi rest with
                           | Some (b1, r) => match cont 128 191 r with
                               | Some (b2, r) => match cont 128 191 r with
                                   | Some (b3, r) => (((lead * 64 + b1) * 64 + b2) * 64 + b3, r, true)%N
                                   | None => bad end
                               | None => bad end
                           | None => bad end in
    if (b <? 128)%N then (b, rest, true)
    else if (b <? 194)%N then bad
    else if (b <? 224)%N then two (b - 192)%N
    else if (b =? 224)%N then three 0%N 160%N 191%N
    else if (b =? 237)%N then three 13%N 128%N 159%N
    else if (b <? 240)%N then three (b - 224)%N 128%N 191%N
    else if (b =? 240)%N then four 0%N 144%N 191%N
    else if (b <? 244)%N then four (b - 240)%N 128%N 191%N
    else if (b =? 244)%N then four 4%N 128%N 143%N
    else bad
  end.

(** [getEsc]: one character of a class; [None] is [ErrBadPattern]. *)
Definition getEsc (chunk : string) : option (N * string) :=
  let unescaped :=
    match chunk with
    | "" => None
    | String c rest =>
        if Ascii.eqb c "-" || Ascii.eqb c "]" then None
        else if Ascii.eqb c "\" then match rest with "" => None | _ => Some rest end
        else Some chunk
    end in
  match unescaped with
  | None => None
  | Some chunk =>
    let '(r, rest, valid) := decodeRune chunk in
    if negb valid then None
    else match rest with "" => None | _ => Some (r, rest) end
  end.

(** The ranges of a class, up to its closing bracket: whether [r] is in one of
    them, and the rest of the pattern. *)
Fixpoint classRanges (fuel : nat) (first : bool) (r : N) (matched : bool) (chunk : string)
    : option (bool * string) :=
  match fuel with
  | O => None
  | S fuel =>
    let ranges :=
      match getEsc chunk with
      | None => None
      | Some (lo, chunk) =>
        match chunk with
        | String "-" rest =>
          match getEsc rest with
          | None => None
          | Some (hi, chunk) =>
              classRanges fuel false r (matched || ((lo <=? r)%N && (r <=? hi)%N)) chunk
          end
        | _ => classRanges fuel false r (matched || (lo =? r)%N) chunk
        end
      end in
    match chunk with
    | String "]" rest => if negb first then Some (matched, rest) else ranges
    | _ => ranges
    end
  end.

(** [matchChunk]: [inl] is a bad pattern; [inr None] no match; [inr (Some rest)]
    a match with the rest of the name.  [name = None] once the match failed. *)
Fixpoint matchChunk (fuel : nat) (chunk : string) (name : option string)
    : () + option string :=
  match fuel with
  | O => inl ()
  | S fuel =>
    match chunk with
    | "" => inr name
    | String c pat =>
      let name := match name with Some "" => None | _ => name end in
      let literal c pat :=
        matchChunk fuel pat
          match name with
          | Some (String n rest) => if Ascii.eqb c n then Some rest else None
          | _ => None
          end in
      if Ascii.eqb c "[" then
        let '(r, rest) := match name with
                          | Some s => let '(r, rest, _) := decodeRune s in (r, Some rest)
                          | None => (0%N, None)
                          end in
        let '(negated, pat) := match pat with String "^" pat => (true, pat) | _ => (false, pat) end in
        match classRanges (String.length pat + 1) true r false pat with
        | None => inl ()
        | Some (matched, pat) =>
            matchChunk fuel pat (if Bool.eqb matched negated then None else rest)
        end
      else if Ascii.eqb c "?" then
        matchChunk fuel pat
          match name with
          | Some (String n rest as s) =>
              if Ascii.eqb n "/" then None else Some (decodeRune s).1.2
          | _ => None
          end
      else if Ascii.eqb c "\" then
        match pat with "" => inl () | String c pat => literal c pat end
      else literal c pat
    end
  end.

Definition chunkMatch (chunk name : string) : () + option string :=
  matchChunk (String.length chunk + 1) chunk (Some name).

(** The rest of [scanChunk] after the stars: up to the next star outside a class. *)
Fixpoint scanRest (inrange : bool) (pat : string) : string * string :=
  match pat with
  | "" => ("", "")
  | String c rest =>
    if Ascii.eqb c "\" then
      match rest with
      | "" => (pat, "")
      | String d rest => let '(chunk, rest) := scanRest inrange rest in (String c (String d chunk), rest)
      end
    else if Ascii.eqb c "*" && negb inrange then ("", pat)
    else
      let inrange := if Ascii.eqb c "[" then true else if Ascii.eqb c "]" then false else inrange in
      let '(chunk, rest) := scanRest inrange rest in (String c chunk, rest)
  end.

Fixpoint dropStars (star : bool) (pat : string) : bool * string :=
  match pat with
  | String "*" pat => dropStars true pat
  | _ => (star, pat)
  end.

Definition scanChunk (pat : string) : bool * string * string :=
  let '(star, pat) := dropStars false pat in
  let '(chunk, rest) := scanRest false pat in (star, chunk, rest).

Fixpoint hasSlash (s : string) : bool :=
  match s with "" => false | String c s => Ascii.eqb c "/" || hasSlash s end.

(** The loop over the names a star may skip to.  [Some rest] continues with the
    next chunk; [None] finds no match, or a bad pattern. *)
Fixpoint skipTo (chunk : string) (last : bool) (name : string) : option string :=
  match name with
  | "" => None
  | String c name =>
    if Ascii.eqb c "/" then None
    else
    match chunkMatch chunk name with
    | inl _ => None
    | inr (Some rest) =>
        if last && negb (String.eqb rest "") then skipTo chunk last name else Some rest
    | inr None => skipTo chunk last name
    end
  end.

(** [Match], with the error dropped as the queue drops it. *)
Fixpoint matchPattern (fuel : nat) (pattern name : string) : bool :=
  match fuel with
  | O => false
  | S fuel =>
    match pattern with
    | "" => String.eqb name ""
    | _ =>
      let '(star, chunk, pattern) := scanChunk pattern in
      if star && String.eqb chunk "" then negb (hasSlash name)
      else
      let last := String.eqb pattern "" in
      match chunkMatch chunk name with
      | inl _ => false
      | inr found =>
        let direct := match found with
                      | Some rest => if String.eqb rest "" || negb last then Some rest else None
                      | None => None
                      end in
        match direct with
        | Some rest => matchPattern fuel pattern rest
        | None =>
          if star then
            match skipTo chunk last name with
            | Some rest => matchPattern fuel pattern rest
            | None => false
            end
          else false
        end
      end
    end
  end.

Definition Match (pattern name : string) : bool := matchPattern (String.length pattern + 1) pattern name.

Example Match_samples :
  Match "src/*.go" "src/main.go" = true ∧ Match "src/*.go" "src/a/main.go" = false
  ∧ Match "[a-c]?.txt" "b1.txt" = true ∧ Match "[^a]*" "abc" = false ∧ Match "a[" "a" = false
  ∧ Match "docs/*" "docs/" = true ∧ Match "*" "a/b" = false ∧ Match "\*x" "*x" = true.
Proof. vm_compute. done. Qed.

(** The runes of a string, as a loop over it sees them. *)
Fixpoint runesFrom (fuel : nat) (s : string) : list N :=
  match fuel, s with
  | O, _ | _, "" => []
  | S fuel, _ => let '(r, rest, _) := decodeRune s in r :: runesFrom fuel rest
  end.
Definition runes (s : string) : list N := runesFrom (String.length s) s.

(** [strings.EqualFold], given the orbits of Unicode's simple case folding: a
    representative of each rune's. *)
Definition equalFold (fold : N → N) (s t : string) : bool := bool_decide (map fold (runes s) = map fold (runes t)).

(** * Regular expressions *)

#[local] Open Scope string_scope.
#[local] Arguments String.append !_ _ / : simpl nomatch.

Inductive regexp : Type :=
  | RNone
  | REmpty
  | RClass (p : ascii → bool)
  | RCat (r1 r2 : regexp)
  | RAlt (r1 r2 : regexp)
  | RStar (r : regexp).

(** * The language of a pattern *)

Inductive Matches : regexp → string → Prop :=
  | MEmpty : Matches REmpty ""
  | MClass (p : ascii → bool) c : p c = true → Matches (RClass p) (String c "")
  | MCat r1 r2 s1 s2 : Matches r1 s1 → Matches r2 s2 → Matches (RCat r1 r2) (s1 +:+ s2)
  | MAltL r1 r2 s : Matches r1 s → Matches (RAlt r1 r2) s
  | MAltR r1 r2 s : Matches r2 s → Matches (RAlt r1 r2) s
  | MStarNil r : Matches (RStar r) ""
  | MStarCons r s1 s2 : Matches r s1 → Matches (RStar r) s2 → Matches (RStar r) (s1 +:+ s2).

(** * Matching *)

Fixpoint nullable (r : regexp) : bool :=
  match r with
  | RNone | RClass _ => false
  | REmpty | RStar _ => true
  | RCat r1 r2 => nullable r1 && nullable r2
  | RAlt r1 r2 => nullable r1 || nullable r2
  end.

(** Derivatives stay small when what cannot match is dropped. *)
Definition cat (r1 r2 : regexp) : regexp :=
  match r1 with RNone => RNone | REmpty => r2 | _ => RCat r1 r2 end.
Definition alt (r1 r2 : regexp) : regexp :=
  match r1, r2 with RNone, _ => r2 | _, RNone => r1 | _, _ => RAlt r1 r2 end.

Fixpoint derivative (c : ascii) (r : regexp) : regexp :=
  match r with
  | RNone | REmpty => RNone
  | RClass p => if p c then REmpty else RNone
  | RCat r1 r2 =>
    if nullable r1 then alt (cat (derivative c r1) r2) (derivative c r2) else cat (derivative c r1) r2
  | RAlt r1 r2 => alt (derivative c r1) (derivative c r2)
  | RStar r => cat (derivative c r) (RStar r)
  end.

(** [regexp.MatchString] of a pattern between [^] and [$]. *)
Fixpoint MatchString (r : regexp) (s : string) : bool :=
  match s with "" => nullable r | String c s => MatchString (derivative c r) s end.

Lemma append_empty (a b : string) : a +:+ b = "" ↔ a = "" ∧ b = "".
Proof. destruct a; simpl; naive_solver. Qed.

Lemma nullable_iff r : nullable r = true ↔ Matches r "".
Proof.
  split.
  - induction r; simpl; rewrite ?andb_true_iff, ?orb_true_iff; try done; try by constructor.
    + intros []. apply (MCat _ _ "" ""); auto.
    + intros []; [apply MAltL | apply MAltR]; auto.
  - remember "" as s. induction 1; simpl; simplify_eq; auto.
    + apply append_empty in Heqs as [-> ->]. by rewrite IHMatches1, IHMatches2.
    + by rewrite IHMatches.
    + rewrite IHMatches by done. apply orb_true_r.
Qed.

Lemma Matches_none s : ¬ Matches RNone s.
Proof. inversion 1. Qed.

Lemma Matches_empty s : Matches REmpty s ↔ s = "".
Proof. split; [by inversion 1 | intros ->; constructor]. Qed.

Lemma Matches_cat r1 r2 s : Matches (cat r1 r2) s ↔ Matches (RCat r1 r2) s.
Proof.
  destruct r1; simpl; try done.
  - split; [by intros ?%Matches_none | inversion 1 as [| |? ? s1 s2 H1 H2| | | |]; by apply Matches_none in H1].
  - split; [intros H; apply (MCat _ _ "" s); [constructor | done] |].
    inversion 1 as [| |? ? s1 s2 H1 H2| | | |]; subst. by apply Matches_empty in H1 as ->.
Qed.

Lemma Matches_alt r1 r2 s : Matches (alt r1 r2) s ↔ Matches r1 s ∨ Matches r2 s.
Proof.
  assert (HA : ∀ a b, Matches (RAlt a b) s ↔ Matches a s ∨ Matches b s).
  { intros a b. split; [inversion 1; auto | intros [?|?]; by constructor]. }
  pose proof (Matches_none s) as HN. destruct r1, r2; simpl; rewrite ?HA; tauto.
Qed.

Lemma Matches_String_cat r1 r2 c s :
  Matches (RCat r1 r2) (String c s)
  ↔ (∃ s1 s2, s = s1 +:+ s2 ∧ Matches r1 (String c s1) ∧ Matches r2 s2) ∨ (Matches r1 "" ∧ Matches r2 (String c s)).
Proof.
  split.
  - inversion 1 as [| |? ? s1 s2 H1 H2 Hs Heq| | | |]; subst. destruct s1 as [|d s1]; simpl in *; simplify_eq; eauto.
    left. by exists s1, s2.
  - intros [(s1 & s2 & -> & H1 & H2)|[H1 H2]]; [by apply (MCat _ _ (String c s1) s2) | by apply (MCat _ _ "" (String c s))].
Qed.

Lemma Matches_String_star r c s :
  Matches (RStar r) (String c s) ↔ ∃ s1 s2, s = s1 +:+ s2 ∧ Matches r (String c s1) ∧ Matches (RStar r) s2.
Proof.
  split.
  - intros H. remember (RStar r) as q. remember (String c s) as t. revert Heqt.
    induction H as [| | | | | |? s1 s2 H1 _ H2 IH2]; intros; simplify_eq.
    destruct s1 as [|d s1]; simpl in *; [by apply IH2 | simplify_eq; eauto].
  - intros (s1 & s2 & -> & H1 & H2). by apply (MStarCons _ (String c s1) s2).
Qed.

Lemma derivative_iff c r s : Matches (derivative c r) s ↔ Matches r (String c s).
Proof.
  revert s. induction r; intros s; cbn [derivative].
  - split; [by intros ?%Matches_none | by intros ?%Matches_none].
  - split; [by intros ?%Matches_none | by intros ?%Matches_empty].
  - destruct (p c) eqn:E; rewrite ?Matches_empty.
    + split; [intros ->; by constructor | by inversion 1].
    + split; [by intros ?%Matches_none | inversion 1; congruence].
  - rewrite Matches_String_cat, <- nullable_iff.
    assert (HC : Matches (cat (derivative c r1) r2) s
                 ↔ ∃ s1 s2, s = s1 +:+ s2 ∧ Matches r1 (String c s1) ∧ Matches r2 s2).
    { rewrite Matches_cat. split.
      - inversion 1 as [| |? ? s1 s2 H1 H2| | | |]; subst. exists s1, s2. by rewrite <- IHr1.
      - intros (s1 & s2 & -> & H1 & H2). apply MCat; [by apply IHr1 | done]. }
    destruct (nullable r1); [rewrite Matches_alt, HC, IHr2; naive_solver | rewrite HC; naive_solver].
  - rewrite Matches_alt, IHr1, IHr2. split; [intros [?|?]; by constructor | inversion 1; auto].
  - rewrite Matches_cat, Matches_String_star. split.
    + inversion 1 as [| |? ? s1 s2 H1 H2| | | |]; subst. exists s1, s2. by rewrite <- IHr.
    + intros (s1 & s2 & -> & H1 & H2). apply MCat; [by apply IHr | done].
Qed.

Lemma MatchString_iff r s : MatchString r s = true ↔ Matches r s.
Proof.
  revert r. induction s as [|c s IH]; intros r; simpl; [apply nullable_iff |]. by rewrite IH, derivative_iff.
Qed.

(** * Patterns *)

Fixpoint lit (s : string) : regexp :=
  match s with "" => REmpty | String c s => RCat (RClass (Ascii.eqb c)) (lit s) end.

Definition plus (r : regexp) : regexp := RCat r (RStar r).
Definition optional (r : regexp) : regexp := RAlt r REmpty.
Fixpoint times (n : nat) (r : regexp) : regexp :=
  match n with O => REmpty | S n => RCat r (times n r) end.
(** [r{0,n}] *)
Fixpoint upTo (n : nat) (r : regexp) : regexp :=
  match n with O => REmpty | S n => optional (RCat r (upTo n r)) end.
(** [r{lo,lo+n}] *)
Definition repeat_ (lo n : nat) (r : regexp) : regexp := RCat (times lo r) (upTo n r).

(** A class of bytes: the letters and digits of a range, or a list of bytes. *)
Definition upper_byte : ascii → bool := byte_in "A"%char "Z"%char.
Definition alnum (c : ascii) : bool := upper_byte c || lower_byte c || digit_byte c.
Definition lowerAlnum (c : ascii) : bool := lower_byte c || digit_byte c.
Fixpoint oneOf (set : string) (c : ascii) : bool :=
  match set with "" => false | String d set => Ascii.eqb c d || oneOf set c end.

(** The bytes a pattern can match. *)
Fixpoint within (p : ascii → bool) (r : regexp) : Prop :=
  match r with
  | RNone | REmpty => True
  | RClass q => ∀ c, q c = true → p c = true
  | RCat r1 r2 | RAlt r1 r2 => within p r1 ∧ within p r2
  | RStar r => within p r
  end.

Lemma Matches_within p r s : within p r → Matches r s → string_forallb p s = true.
Proof.
  intros Hp H. induction H; simpl in *; try done; rewrite ?forallb_app, ?andb_true_iff; try naive_solver.
Qed.

Lemma within_times p n r : within p r → within p (times n r).
Proof. intros H. by induction n; split. Qed.

Lemma within_upTo p n r : within p r → within p (upTo n r).
Proof. intros H. induction n; simpl; auto. Qed.

Lemma Matches_lit s t : Matches (lit s) t ↔ t = s.
Proof.
  revert t. induction s as [|c s IH]; intros t; simpl; [apply Matches_empty |]. split.
  - inversion 1 as [| |? ? s1 s2 H1 H2| | | |]; subst. inversion H1 as [|? d Hd| | | | |]; subst.
    apply Ascii.eqb_eq in Hd as ->. simpl. f_equal. by apply IH.
  - intros ->. apply (MCat _ _ (String c "") s); [constructor; apply Ascii.eqb_refl | by apply IH].
Qed.

(** A run of [n] bytes of a class. *)
Lemma Matches_times n p s :
  Matches (times n (RClass p)) s ↔ String.length s = n ∧ string_forallb p s = true.
Proof.
  revert s. induction n as [|n IH]; intros s; simpl.
  { rewrite Matches_empty. split; [by intros -> | by intros [? _]; destruct s]. }
  split.
  - inversion 1 as [| |? ? s1 s2 H1 H2| | | |]; subst. inversion H1; subst. apply IH in H2 as [<- H2].
    simpl. split; [done | by rewrite andb_true_iff].
  - destruct s as [|c s]; simpl; [by intros [] |]. intros [[= Hl] [Hc Hs]%andb_prop].
    apply (MCat _ _ (String c "") s); [by constructor | by apply IH].
Qed.
