(* ===== verification/GoNumbers.v ===== *)
(** Numbers in text: Go's [time.ParseDuration] with the binary64 arithmetic it uses for
    fractions, and [strconv.ParseFloat] for 64 bits with comparisons of what it gives:
    numbers, infinities and NaN. *)

From S2P Require Import Prelude Float64 GoStrings GoText.

#[local] Open Scope string_scope.

Definition digitVal (c : ascii) : Z := Z.of_nat (nat_of_ascii c) - 48.

(** [leadingInt]: [None] on overflow. *)
Fixpoint leadingInt (x : Z) (s : string) : option (Z * string) :=
  match s with
  | "" => Some (x, s)
  | String c rest =>
    if digit_byte c then
      if (2 ^ 63 / 10 <? x)%Z then None
      else let x := (x * 10 + digitVal c)%Z in
           if (2 ^ 63 <? x)%Z then None else leadingInt x rest
    else Some (x, s)
  end.

(** [leadingFraction]: digits that no longer fit are dropped. *)
Fixpoint leadingFraction (x : Z) (scale : f64) (overflow : bool) (s : string) : Z * f64 * string :=
  match s with
  | "" => (x, scale, s)
  | String c rest =>
    if digit_byte c then
      if overflow || ((2 ^ 63 - 1) / 10 <? x)%Z then leadingFraction x scale true rest
      else let y := (x * 10 + digitVal c)%Z in
           if (2 ^ 63 <? y)%Z then leadingFraction x scale true rest
           else leadingFraction y (f64_mul scale (f64_of_int 10)) false rest
    else (x, scale, s)
  end.

(** The unit: everything up to the next digit or point. *)
Fixpoint unitSpan (s : string) : string * string :=
  match s with
  | "" => ("", "")
  | String c rest =>
    if Ascii.eqb c "." || digit_byte c then ("", s)
    else let '(u, rest) := unitSpan rest in (String c u, rest)
  end.

Definition unitMap (u : string) : option Z :=
  if String.eqb u "ns" then Some Nanosecond
  else if String.eqb u "us" || String.eqb u (bytes [194; 181; 115]%nat)
          || String.eqb u (bytes [206; 188; 115]%nat) then Some 1000
  else if String.eqb u "ms" then Some Millisecond
  else if String.eqb u "s" then Some Second
  else if String.eqb u "m" then Some Minute
  else if String.eqb u "h" then Some Hour
  else None.

(** One number with its unit; the accumulated duration. *)
Definition durationPart (d : Z) (s : string) : option (Z * string) :=
  match s with
  | "" => None
  | String c _ =>
    if negb (Ascii.eqb c "." || digit_byte c) then None
    else
    '(v, s1) ← leadingInt 0 s;
    let pre := negb (String.length s =? String.length s1)%nat in
    let '(f, scale, s2, post) :=
      match s1 with
      | String "." rest =>
          let '(f, scale, s2) := leadingFraction 0 (f64_of_int 1) false rest in
          (f, scale, s2, negb (String.length rest =? String.length s2)%nat)
      | _ => (0%Z, f64_of_int 1, s1, false)
      end in
    if negb pre && negb post then None
    else
    let '(u, s3) := unitSpan s2 in
    if String.eqb u "" then None
    else
    unit_ ← unitMap u;
    if (2 ^ 63 / unit_ <? v)%Z then None
    else
    let v := (v * unit_)%Z in
    let v := if (0 <? f)%Z
             then (v + f64_trunc (f64_mul (f64_of_int f) (f64_div (f64_of_int unit_) scale)))%Z else v in
    if (2 ^ 63 <? v)%Z then None
    else let d := (d + v)%Z in if (2 ^ 63 <? d)%Z then None else Some (d, s3)
  end.

Fixpoint durationParts (fuel : nat) (d : Z) (s : string) : option Z :=
  match fuel with
  | O => None
  | S fuel => if String.eqb s "" then Some d
              else '(d, s) ← durationPart d s; durationParts fuel d s
  end.

Definition ParseDuration (s : string) : option duration :=
  let '(neg, s) := match s with
                   | String "-" r => (true, r) | String "+" r => (false, r) | _ => (false, s)
                   end in
  if String.eqb s "0" then Some 0%Z
  else if String.eqb s "" then None
  else
  d ← durationParts (String.length s + 1) 0 s;
  if neg : bool then Some (- d)%Z
  else if (2 ^ 63 - 1 <? d)%Z then None else Some d.

Example ParseDuration_samples :
  ParseDuration "45m" = Some (45 * Minute)%Z ∧ ParseDuration "1h30m" = Some (90 * Minute)%Z
  ∧ ParseDuration "1.5h" = Some (90 * Minute)%Z ∧ ParseDuration "-2s" = Some (- 2 * Second)%Z
  ∧ ParseDuration "10" = None ∧ ParseDuration "" = None ∧ ParseDuration ".s" = None.
Proof. vm_compute. done. Qed.

(** * Floats in text *)

#[local] Open Scope string_scope.
#[local] Open Scope Z_scope.

Inductive float := Finite (x : f64) | Infinite (negative : bool) | NaN.

(** [x < y] and [x <= y]; every comparison with NaN is false. *)
Definition float_le (x y : float) : bool :=
  match x, y with
  | NaN, _ | _, NaN => false
  | Infinite true, _ | _, Infinite false => true
  | Infinite false, _ | _, Infinite true => false
  | Finite x, Finite y => f64_le x y
  end.
Definition float_lt (x y : float) : bool :=
  match x, y with NaN, _ | _, NaN => false | _, _ => negb (float_le y x) end.

Definition float_of_int (z : Z) : float := Finite (f64_of_int z).

(** * Rounding *)

(** The nearest float of [n / d] with the least exponent of binary64; [None] beyond
    the largest float. *)
Definition nearest (negative : bool) (n d : Z) : option float :=
  if n =? 0 then Some (Finite f64_zero)
  else
    let e := Z.max (ratio_exponent n d) (-1074) in
    let m := scale_round n d e in
    if (2 ^ 53 * 2 ^ (Z.max 0 e) <=? m * 2 ^ (Z.max 0 e)) && (971 <=? e) || (971 <? e) then None
    else Some (Finite (mkF64 (if negative then - m else m) e)).

(** * Reading *)

Definition hexVal (c : ascii) : option Z :=
  if digit_byte c then Some (digitVal c)
  else let l := lowerAscii c in
       if byte_in "a"%char "f"%char l then Some (Z.of_nat (nat_of_ascii l) - 87) else None.

(** The digits of the mantissa: their value, how many come after the point, whether
    there was a digit, a point and an underscore, and the rest. *)
Record digits := mkDigits {
  dg_value : Z; dg_after : Z; dg_some : bool; dg_point : bool; dg_under : bool
}.

Fixpoint readDigits (hex : bool) (d : digits) (s : string) : digits * string :=
  match s with
  | "" => (d, "")
  | String c rest =>
    if Ascii.eqb c "_" then
      readDigits hex (mkDigits (dg_value d) (dg_after d) (dg_some d) (dg_point d) true) rest
    else if Ascii.eqb c "." then
      if dg_point d then (d, s)
      else readDigits hex (mkDigits (dg_value d) (dg_after d) (dg_some d) true (dg_under d)) rest
    else
    match (if hex then hexVal c else if digit_byte c then Some (digitVal c) else None) with
    | Some v =>
      readDigits hex (mkDigits ((if hex then 16 else 10) * dg_value d + v)
        (if dg_point d then dg_after d + 1 else dg_after d) true (dg_point d) (dg_under d)) rest
    | None => (d, s)
    end
  end.

(** The digits of the exponent; more than ten thousand are as good as any. *)
Fixpoint readExponent (e : Z) (under : bool) (s : string) : Z * bool * string :=
  match s with
  | "" => (e, under, "")
  | String c rest =>
    if Ascii.eqb c "_" then readExponent e true rest
    else if digit_byte c then readExponent (if e <? 10000 then e * 10 + digitVal c else e) under rest
    else (e, under, s)
  end.

(** [underscoreOK], after the sign: underscores stand between digits, or after the
    prefix of a base.  [last] is [0] after a digit or the prefix, [_] after an
    underscore, [!] after anything else. *)
Fixpoint underscoreFrom (hex : bool) (last : ascii) (s : string) : bool :=
  match s with
  | "" => negb (Ascii.eqb last "_")
  | String c rest =>
    if digit_byte c || hex && bool_decide (is_Some (hexVal c)) then underscoreFrom hex "0" rest
    else if Ascii.eqb c "_" then Ascii.eqb last "0" && underscoreFrom hex "_" rest
    else negb (Ascii.eqb last "_") && underscoreFrom hex "!" rest
  end.

Definition hasHexPrefix (s : string) : bool :=
  match s with
  | String "0" (String c (String _ _)) => Ascii.eqb (lowerAscii c) "x"
  | _ => false
  end.

Definition underscoreOK (s : string) : bool :=
  match s with
  | String "0" (String c rest) =>
    let l := lowerAscii c in
    if Ascii.eqb l "b" || Ascii.eqb l "o" || Ascii.eqb l "x" then underscoreFrom (Ascii.eqb l "x") "0" rest
    else underscoreFrom false "!" s
  | _ => underscoreFrom false "!" s
  end.

(** The exponent and what follows: [None] when it has no digits. *)
Definition exponentPart (hex : bool) (s : string) : option (Z * bool * string) :=
  match s with
  | String c rest =>
    if Ascii.eqb (lowerAscii c) (if hex then "p" else "e") then
      let '(negative, rest) := match rest with
                               | String "+" r => (false, r) | String "-" r => (true, r) | _ => (false, rest) end in
      match rest with
      | String c _ =>
        if negb (digit_byte c) then None
        else let '(e, under, rest) := readExponent 0 false rest in
             Some (if negative : bool then - e else e, under, rest)
      | "" => None
      end
    else if hex then None else Some (0, false, s)
  | "" => if hex then None else Some (0, false, s)
  end.

(** A number without its sign. *)
Definition readNumber (negative : bool) (s : string) : option float :=
  let hex := hasHexPrefix s in
  let '(d, rest) := readDigits hex (mkDigits 0 0 false false false) (if hex then String.substring 2 (String.length s) s else s) in
  if negb (dg_some d) then None
  else
  match exponentPart hex rest with
  | Some (e, under, "") =>
    if (dg_under d || under) && negb (underscoreOK s) then None
    else
      let '(base, scale) := if hex then (2, e - 4 * dg_after d) else (10, e - dg_after d) in
      if 0 <=? scale then nearest negative (dg_value d * base ^ scale) 1
      else nearest negative (dg_value d) (base ^ (- scale))
  | _ => None
  end.

(** [ParseFloat(s, 64)]; [None] for an error of syntax or of range. *)
Definition ParseFloat (s : string) : option float :=
  let '(signed, negative, body) :=
    match s with
    | String "+" rest => (true, false, rest) | String "-" rest => (true, true, rest) | _ => (false, false, s)
    end in
  let low := ToLower body in
  if String.eqb low "inf" || String.eqb low "infinity" then Some (Infinite negative)
  else if negb signed && String.eqb low "nan" then Some NaN
  else readNumber negative body.

Definition same_float (x y : float) : bool := float_le x y && float_le y x.

Example ParseFloat_samples :
  map (λ s, match ParseFloat s with
            | Some x => if same_float x (float_of_int 5) then "five"
                        else match x with NaN => "nan" | Infinite _ => "inf" | _ => "other" end
            | None => "error" end)
    ["5"; "5.0"; "+5"; "0.5e1"; "50e-1"; "0x14p-2"; "5_0e-1"; "_5"; "5 "; ""; "."; "NaN"; "-nan"; "-Inf"; "1e999"; "0x5"; "5e-400"]
  = ["five"; "five"; "five"; "five"; "five"; "five"; "five"; "error"; "error"; "error"; "error"; "nan"; "error";
     "inf"; "error"; "error"; "other"].
Proof. vm_compute. reflexivity. Qed.

Example ParseFloat_small :
  (ParseFloat "5e-400", ParseFloat "4.9e-324") = (Some (Finite (mkF64 0 (-1074))), Some (Finite (mkF64 1 (-1074)))).
Proof. vm_compute. reflexivity. Qed.
