(* ===== verification/MergeChecks.v ===== *)
(** The merge queue's configuration and required checks (src/mergequeue/config.go,
    checks.go, bisect.go); when the checks of a stack pass, fail or are still awaited,
    and what a parsed configuration satisfies. *)

From S2P Require Import Prelude GoStrings GoPatterns GoNumbers Provider.

#[local] Open Scope string_scope.

(** * Configuration *)

Record RequiredCheck := mkRequiredCheck { rc_Name : string; rc_Paths : list string }.

Record Config := mkConfig {
  cf_Target : string; cf_Label : string; cf_BatchSize : Z;
  cf_RequiredChecks : list RequiredCheck; cf_CheckTimeout : duration
}.

Definition DefaultLabel : string := "queue".
Definition maxBatchSize : Z := 10.

Definition WithDefaults (c : Config) : Config :=
  mkConfig (if String.eqb (cf_Target c) "" then "main" else cf_Target c)
    (if String.eqb (cf_Label c) "" then DefaultLabel else cf_Label c)
    (if (cf_BatchSize c <? 1)%Z then 3 else cf_BatchSize c)
    (cf_RequiredChecks c)
    (if (cf_CheckTimeout c <=? 0)%Z then (45 * Minute)%Z else cf_CheckTimeout c).

(** [configFile], as the YAML decoder fills it. *)
Record configFile := mkConfigFile {
  file_Target : string; file_Label : string; file_BatchSize : Z; file_CheckTimeout : string;
  file_RequiredChecks : list RequiredCheck
}.

(** [ParseConfig] from the decoder's result: [None] when decoding failed. *)
Definition ParseConfig (decoded : option configFile) : error + Config :=
  match decoded with
  | None => inl (ErrorString "parse merge queue config")
  | Some file =>
    if (file_BatchSize file <? 0)%Z || (maxBatchSize <? file_BatchSize file)%Z then
      inl (ErrorString "parse merge queue config: batch_size must be between 1 and 10")
    else
    match file_RequiredChecks file with
    | [] => inl (ErrorString "parse merge queue config: required_checks must list at least one check")
    | checks =>
      if existsb (λ c, String.eqb (TrimSpace (rc_Name c)) "") checks then
        inl (ErrorString "parse merge queue config: a required check has no name")
      else
      let config timeout :=
        inr (WithDefaults (mkConfig (TrimSpace (file_Target file)) (TrimSpace (file_Label file))
                             (file_BatchSize file) checks timeout)) in
      if String.eqb (file_CheckTimeout file) "" then config 0%Z
      else
      match ParseDuration (file_CheckTimeout file) with
      | Some timeout =>
          if (timeout <=? 0)%Z
          then inl (ErrorString "parse merge queue config: invalid check_timeout")
          else config timeout
      | None => inl (ErrorString "parse merge queue config: invalid check_timeout")
      end
    end
  end.

(** * Checks *)

(** [CheckRun] *)
Record CheckRun := mkCheckRun {
  cr_ID : Z; cr_Name : string; cr_Status : string; cr_Conclusion : string; cr_URL : string;
  cr_SuiteID : Z; cr_StartedAt : time
}.

Definition matchPath (pattern file : string) : bool :=
  match CutSuffix "/**" pattern with
  | Some prefix => String.eqb file prefix || HasPrefix file (prefix +:+ "/")
  | None => Match pattern file
  end.

Definition Applicable (check : RequiredCheck) (changedFiles : list string) : bool :=
  match rc_Paths check with
  | [] => true
  | paths => existsb (λ file, existsb (λ pattern, matchPath pattern file) paths) changedFiles
  end.

Inductive checkState := StatePending | StateSuccess | StateFailure.

#[global] Instance checkState_eq_dec : EqDecision checkState.
Proof. solve_decision. Defined.

(** [Status]; the zero value of the source, with an empty state, is [None]
    where a status may be missing. *)
Record Status := mkStatus {
  State_ : checkState; Failing : list string; URLs : list string; Suites : list Z
}.

Definition passed (conclusion : string) : bool :=
  existsb (String.eqb conclusion) ["success"; "neutral"; "skipped"].

(** The first loop of [Evaluate]: the newest run of each name. *)
Definition newestRuns (runs : list CheckRun) : gmap string CheckRun :=
  fold_left (λ newest run,
    match newest !! cr_Name run with
    | Some current => if (cr_ID current <? cr_ID run)%Z then <[cr_Name run := run]> newest else newest
    | None => <[cr_Name run := run]> newest
    end) runs ∅.

(** What one required check contributes. *)
Inductive verdict := Passing | Waiting | Missing | Failed (run : CheckRun).

Definition verdictOf (newest : gmap string CheckRun) (age timeout : duration) (retriedAt : time)
    (check : RequiredCheck) : verdict :=
  let late := if (timeout <=? age)%Z then Missing else Waiting in
  match newest !! rc_Name check with
  | None => late
  | Some run =>
    if String.eqb (cr_Status run) "completed" && negb (passed (cr_Conclusion run))
       && negb (IsZero retriedAt) && Before (cr_StartedAt run) retriedAt then late
    else if negb (String.eqb (cr_Status run) "completed") then Waiting
    else if negb (passed (cr_Conclusion run)) then Failed run
    else Passing
  end.

(** One turn of the loop over the required checks. *)
Definition addVerdict (check : RequiredCheck) (v : verdict) (acc : Status * bool) : Status * bool :=
  let '(status, pending) := acc in
  match v with
  | Passing => (status, pending)
  | Waiting => (status, true)
  | Missing => (mkStatus (State_ status) (app (Failing status) [rc_Name check]) (URLs status) (Suites status), pending)
  | Failed run =>
      (mkStatus (State_ status) (app (Failing status) [rc_Name check])
         (if String.eqb (cr_URL run) "" then URLs status else app (URLs status) [cr_URL run])
         (if (cr_SuiteID run =? 0)%Z then Suites status else app (Suites status) [cr_SuiteID run]), pending)
  end.

Definition Evaluate (required : list RequiredCheck) (changedFiles : list string)
    (runs : list CheckRun) (age timeout : duration) (retriedAt : time) : Status :=
  let newest := newestRuns runs in
  let '(status, pending) :=
    fold_left (λ acc check,
      if negb (Applicable check changedFiles) then acc
      else addVerdict check (verdictOf newest age timeout retriedAt check) acc)
      required (mkStatus StateSuccess [] [] [], false) in
  mkStatus (match Failing status with
            | _ :: _ => StateFailure
            | [] => if pending : bool then StatePending else StateSuccess
            end) (Failing status) (URLs status) (Suites status).

(** * Bisection *)

Definition Split (prs : list Z) : list Z * list Z :=
  if (length prs <? 2)%nat then (prs, [])
  else let mid := Nat.div (length prs + 1) 2 in (take mid prs, drop mid prs).

(** * What the checks of a stack come to *)

#[local] Close Scope string_scope.
(** * The newest run of a name *)

(** The run with the largest ID among those of a name; of equal IDs, the first. *)
Definition newestOf (runs : list CheckRun) (name : string) (run : CheckRun) : Prop :=
  cr_Name run = name ∧ ∃ l1 l2, runs = l1 ++ run :: l2
  ∧ Forall (λ r, cr_Name r = name → cr_ID r < cr_ID run) l1
  ∧ Forall (λ r, cr_Name r = name → cr_ID r <= cr_ID run) l2.

Lemma newestRuns_snoc runs run :
  newestRuns (runs ++ [run]) =
  match newestRuns runs !! cr_Name run with
  | Some current => if cr_ID current <? cr_ID run then <[cr_Name run := run]> (newestRuns runs) else newestRuns runs
  | None => <[cr_Name run := run]> (newestRuns runs)
  end.
Proof. unfold newestRuns. by rewrite fold_left_app. Qed.

Lemma newestRuns_spec runs name :
  match newestRuns runs !! name with
  | Some run => newestOf runs name run
  | None => Forall (λ r, cr_Name r ≠ name) runs
  end.
Proof.
  induction runs as [|run runs IH] using rev_ind; [by unfold newestRuns; simpl; rewrite lookup_empty |].
  rewrite newestRuns_snoc. destruct (decide (cr_Name run = name)) as [<-|Hne].
  - destruct (newestRuns runs !! cr_Name run) as [cur|] eqn:E.
    + destruct IH as (Hn & l1 & l2 & -> & H1 & H2). destruct (Z.ltb_spec (cr_ID cur) (cr_ID run)) as [Hlt|Hle].
      * rewrite lookup_insert_eq. split; [done |]. exists (l1 ++ cur :: l2), []. split_and!; [done | | done].
        apply Forall_app. split; [|apply Forall_cons; split; [lia |]];
          eapply Forall_impl; eauto; simpl; intros r Hr ?; specialize (Hr ltac:(done)); lia.
      * rewrite E. split; [done |]. exists l1, (l2 ++ [run]). rewrite <- app_assoc. split_and!; [done | done |].
        apply Forall_app. split; [done |]. apply Forall_singleton. lia.
    + rewrite lookup_insert_eq. split; [done |]. exists runs, []. split_and!; [done | | done].
      eapply Forall_impl; [exact IH |]. simpl. done.
  - assert (Hsame : match newestRuns runs !! cr_Name run with
      | Some current => if cr_ID current <? cr_ID run then <[cr_Name run := run]> (newestRuns runs) else newestRuns runs
      | None => <[cr_Name run := run]> (newestRuns runs)
      end !! name = newestRuns runs !! name).
    { destruct (newestRuns runs !! cr_Name run) as [cur|]; [destruct (_ <? _) |];
        rewrite ?lookup_insert_ne by done; done. }
    rewrite Hsame. destruct (newestRuns runs !! name) as [cur|].
    + destruct IH as (Hn & l1 & l2 & -> & H1 & H2). split; [done |]. exists l1, (l2 ++ [run]).
      rewrite <- app_assoc. split_and!; [done | done |]. apply Forall_app. split; [done |].
      by apply Forall_singleton.
    + apply Forall_app. split; [done |]. by apply Forall_singleton.
Qed.

Lemma newestOf_in runs name run : newestOf runs name run → run ∈ runs ∧ cr_Name run = name.
Proof. intros (Hn & l1 & l2 & -> & _). split; [set_solver | done]. Qed.

Lemma newestOf_unique runs name r1 r2 : newestOf runs name r1 → newestOf runs name r2 → r1 = r2.
Proof.
  intros (H1 & a1 & b1 & E1 & A1 & B1) (H2 & a2 & b2 & E2 & A2 & B2). subst runs.
  rewrite Forall_forall in A1, B1, A2, B2.
  apply app_eq_app in E2 as (l & [[-> E]|[-> E]]); destruct l as [|x l]; simplify_eq/=; try done.
  - specialize (A1 x ltac:(set_solver) ltac:(congruence)). specialize (B2 r1 ltac:(set_solver) ltac:(congruence)). lia.
  - specialize (A2 x ltac:(set_solver) ltac:(congruence)). specialize (B1 r2 ltac:(set_solver) ltac:(congruence)). lia.
Qed.

(** [newestRuns] holds exactly the newest run of each name. *)
Lemma newestRuns_iff runs name run : newestRuns runs !! name = Some run ↔ newestOf runs name run.
Proof.
  pose proof (newestRuns_spec runs name) as H. destruct (newestRuns runs !! name) as [r|]; split.
  - by intros [= <-].
  - intros H'. f_equal. by eapply newestOf_unique.
  - done.
  - intros H'. apply newestOf_in in H' as [Hin Hn]. rewrite Forall_forall in H. by destruct (H run Hin).
Qed.

Lemma newestRuns_none runs name : newestRuns runs !! name = None ↔ ∀ r, r ∈ runs → cr_Name r ≠ name.
Proof.
  pose proof (newestRuns_spec runs name) as H. destruct (newestRuns runs !! name) as [r|]; split; try done.
  - apply newestOf_in in H as [Hin Hn]. intros H'. by destruct (H' r Hin).
  - intros _. by apply Forall_forall.
Qed.

(** * The loop over the required checks *)

Section evaluate.
Context (files : list string) (v : RequiredCheck → verdict).

Definition evalStep (acc : Status * bool) (check : RequiredCheck) : Status * bool :=
  if negb (Applicable check files) then acc else addVerdict check (v check) acc.

Definition failsNow (check : RequiredCheck) : bool :=
  Applicable check files && match v check with Missing | Failed _ => true | _ => false end.
Definition waits (check : RequiredCheck) : bool :=
  Applicable check files && match v check with Waiting => true | _ => false end.

Lemma evalStep_fold required acc :
  Failing (fold_left evalStep required acc).1 = Failing acc.1 ++ map rc_Name (keep failsNow required)
  ∧ (fold_left evalStep required acc).2 = acc.2 || existsb waits required.
Proof.
  revert acc. induction required as [|c required IH]; intros [st p]; cbn [fold_left keep List.filter map existsb].
  { by rewrite app_nil_r, orb_false_r. }
  destruct (IH (evalStep (st, p) c)) as [-> ->]. unfold evalStep, failsNow at 2, waits at 2.
  destruct (Applicable c files); [|done]. cbn [negb andb].
  destruct (v c); cbn [addVerdict fst snd Failing map orb]; rewrite <- ?app_assoc, ?orb_true_r; done.
Qed.
End evaluate.

Lemma Evaluate_state required files runs age timeout retriedAt :
  let v := verdictOf (newestRuns runs) age timeout retriedAt in
  Failing (Evaluate required files runs age timeout retriedAt) = map rc_Name (keep (failsNow files v) required)
  ∧ State_ (Evaluate required files runs age timeout retriedAt) =
    if existsb (failsNow files v) required then StateFailure
    else if existsb (waits files v) required then StatePending else StateSuccess.
Proof.
  intros v. unfold Evaluate.
  pose proof (evalStep_fold files v required (mkStatus StateSuccess [] [] [], false)) as [HF HP].
  unfold evalStep in HF, HP. fold v.
  destruct (fold_left _ required _) as [st p]. cbn [fst snd Failing State_ app orb] in *. split; [done |].
  rewrite HF, HP. clear. induction required as [|c required IH]; [done |].
  cbn [keep List.filter existsb map]. destruct (failsNow files v c); [done |]. cbn [orb].
  destruct (map rc_Name (List.filter (failsNow files v) required)) eqn:E;
  destruct (existsb (failsNow files v) required) eqn:E2; try done.
  - apply existsb_exists in E2 as (x & Hx & Hf). apply map_eq_nil in E.
    assert (Hin : x ∈ List.filter (failsNow files v) required) by (apply elem_of_keep; by rewrite list_elem_of_In).
    rewrite E in Hin. by apply not_elem_of_nil in Hin.
  - exfalso. destruct (List.filter (failsNow files v) required) as [|y ys] eqn:E3; [done |].
    assert (Hin : y ∈ keep (failsNow files v) required) by (unfold keep; rewrite E3; left).
    apply elem_of_keep in Hin as [Hin Hf]. rewrite existsb_false in E2. rewrite (E2 y Hin) in Hf. done.
Qed.

(** * The outcome *)

Definition completed (run : CheckRun) : Prop := cr_Status run = "completed"%string.
Definition green (run : CheckRun) : Prop := completed run ∧ passed (cr_Conclusion run) = true.
Definition red (run : CheckRun) : Prop := completed run ∧ passed (cr_Conclusion run) = false.

(** A failure a retry of the stack has superseded. *)
Definition superseded (retriedAt : time) (run : CheckRun) : Prop :=
  retriedAt ≠ zeroTime ∧ cr_StartedAt run < retriedAt.

Section verdicts.
Context (runs : list CheckRun) (age timeout : duration) (retriedAt : time) (check : RequiredCheck).
Let v := verdictOf (newestRuns runs) age timeout retriedAt check.

Lemma verdict_passing :
  v = Passing ↔ ∃ run, newestOf runs (rc_Name check) run ∧ green run.
Proof.
  unfold v, verdictOf, green, completed. setoid_rewrite <- newestRuns_iff.
  destruct (newestRuns runs !! rc_Name check) as [run|]; [|destruct (timeout <=? age); split; naive_solver].
  assert (Hrun : ∀ P : CheckRun → Prop, (∃ r, Some run = Some r ∧ P r) ↔ P run) by naive_solver.
  rewrite Hrun. destruct (String.eqb_spec (cr_Status run) "completed"%string) as [HC|HC]; simpl; [|naive_solver].
  destruct (passed (cr_Conclusion run)); simpl; [naive_solver |].
  destruct (_ && _); [destruct (timeout <=? age) |]; naive_solver.
Qed.

Lemma verdict_failing :
  match v with Missing | Failed _ => true | _ => false end = true ↔
  timeout <= age ∧ (∀ r, r ∈ runs → cr_Name r ≠ rc_Name check)
  ∨ ∃ run, newestOf runs (rc_Name check) run ∧ red run ∧ (superseded retriedAt run → timeout <= age).
Proof.
  rewrite <- newestRuns_none. setoid_rewrite <- newestRuns_iff.
  unfold v, verdictOf, red, completed, superseded, IsZero, Before, zeroTime.
  destruct (newestRuns runs !! rc_Name check) as [run|];
    [|destruct (Z.leb_spec timeout age); split; naive_solver lia].
  assert (Hrun : ∀ P : CheckRun → Prop, (∃ r, Some run = Some r ∧ P r) ↔ P run) by naive_solver.
  rewrite Hrun.
  destruct (String.eqb_spec (cr_Status run) "completed"%string) as [HC|HC]; simpl; [|naive_solver].
  destruct (passed (cr_Conclusion run)) eqn:EP; simpl; [naive_solver |].
  destruct (Z.eqb_spec retriedAt 0); simpl; [naive_solver |].
  destruct (Z.ltb_spec (cr_StartedAt run) retriedAt); simpl; [|naive_solver lia].
  destruct (Z.leb_spec timeout age); split; naive_solver lia.
Qed.
End verdicts.


(** * Configuration *)

(** A configuration that parses names a target and a label, batches one to
    ten pull requests, waits a positive time, and requires at least one check,
    every one of them named. *)
Theorem parsed_config_sane decoded config :
  ParseConfig decoded = inr config →
  cf_Target config ≠ ""%string ∧ cf_Label config ≠ ""%string
  ∧ 1 <= cf_BatchSize config <= maxBatchSize ∧ 0 < cf_CheckTimeout config
  ∧ cf_RequiredChecks config ≠ []
  ∧ ∀ c, c ∈ cf_RequiredChecks config → TrimSpace (rc_Name c) ≠ ""%string.
Proof.
  unfold ParseConfig. destruct decoded as [file|]; [|done].
  destruct ((file_BatchSize file <? 0) || (maxBatchSize <? file_BatchSize file)) eqn:EB; [done |].
  destruct (file_RequiredChecks file) as [|c0 checks] eqn:EC; [done |]. rewrite <- EC.
  destruct (existsb _ (file_RequiredChecks file)) eqn:EN; [done |].
  rewrite existsb_false in EN. apply orb_false_iff in EB as [EB1 EB2].
  assert (Hsane : ∀ timeout, 0 <= timeout → let c := WithDefaults (mkConfig (TrimSpace (file_Target file))
      (TrimSpace (file_Label file)) (file_BatchSize file) (file_RequiredChecks file) timeout) in
    cf_Target c ≠ ""%string ∧ cf_Label c ≠ ""%string ∧ 1 <= cf_BatchSize c <= maxBatchSize
    ∧ 0 < cf_CheckTimeout c ∧ cf_RequiredChecks c ≠ []
    ∧ ∀ k, k ∈ cf_RequiredChecks c → TrimSpace (rc_Name k) ≠ ""%string).
  { intros timeout Ht. unfold maxBatchSize in *. apply Z.ltb_ge in EB1, EB2. cbn. rewrite EC. split_and!.
    - by destruct (String.eqb_spec (TrimSpace (file_Target file)) ""%string).
    - by destruct (String.eqb_spec (TrimSpace (file_Label file)) ""%string).
    - destruct (Z.ltb_spec (file_BatchSize file) 1); lia.
    - destruct (Z.ltb_spec (file_BatchSize file) 1); lia.
    - destruct (Z.leb_spec timeout 0); [vm_compute; done | lia].
    - done.
    - intros k Hk. rewrite <- EC in Hk. by apply String.eqb_neq, EN. }
  destruct (String.eqb (file_CheckTimeout file) ""%string).
  - intros [= <-]. apply Hsane. lia.
  - destruct (ParseDuration (file_CheckTimeout file)) as [timeout|]; [|done].
    destruct (Z.leb_spec timeout 0); [done |]. intros [= <-]. apply Hsane. lia.
Qed.
