(* ===== verification/MergeMarker.v ===== *)
(** The markers of the merge queue (src/mergequeue/marker.go): every comment it writes
    and the parsers that read it back; markers survive the round trip. *)

From S2P Require Import Prelude GoStrings.

#[local] Open Scope string_scope.

(** * Data *)

Definition markerPrefix : string := "<!-- runneryard-merge-queue:".
Definition StatusPrefix : string := markerPrefix +:+ "status -->".

Record Member := mkMember { m_Number : Z; m_SHA : string }.

(** [Stack]; [Top] needs a member, which [ParseStack] and the planner give. *)
Record Stack := mkStack {
  st_Base : string; st_Members : list Member; st_Retry : Z; st_At : time
}.

Record Own := mkOwn { own_Head : string; own_Upstream : string }.

#[global] Instance Member_eq_dec : EqDecision Member.
Proof. solve_decision. Defined.
#[global] Instance Stack_eq_dec : EqDecision Stack.
Proof. solve_decision. Defined.
#[global] Instance Own_eq_dec : EqDecision Own.
Proof. solve_decision. Defined.

(** [Stack.Top]; the empty stack has none, where the source panics. *)
Definition Top (s : Stack) : option Member := last (st_Members s).
Definition Numbers (s : Stack) : list Z := map m_Number (st_Members s).

(** The commit of the top member. *)
Definition topSHA (s : Stack) : string := match Top s with Some m => m_SHA m | None => "" end.

(** * Printing *)

Definition stackMarker (s : Stack) : string :=
  markerPrefix +:+ "stack base=" +:+ st_Base s +:+ " prs="
  +:+ Join "," (map (λ m, Itoa (m_Number m) +:+ "@" +:+ m_SHA m) (st_Members s))
  +:+ " retry=" +:+ Itoa (st_Retry s) +:+ " at=" +:+ Itoa (Unix (st_At s)) +:+ " -->".

Definition ownMarker (o : Own) : string :=
  markerPrefix +:+ "own head=" +:+ own_Head o +:+ " upstream=" +:+ own_Upstream o +:+ " -->".

Definition landedMarker (head : string) : string :=
  markerPrefix +:+ "landed head=" +:+ head +:+ " -->".

Definition shortSHA (sha : string) : string :=
  if (7 <? String.length sha)%nat then String.substring 0 7 sha else sha.

Definition refs (numbers : list Z) : string := Join ", " (map (λ n, "#" +:+ Itoa n) numbers).

Definition newline : string := String "010"%char "".

Definition statusBody (text : string) (markers : list string) : string :=
  Join newline (StatusPrefix :: ("Merge queue: " +:+ text) :: markers).

Definition maxOwns : nat := 2.

Definition ownMarkers (owns : list Own) : list string := map ownMarker (take maxOwns owns).

(** [stackOwn]; an index out of range, where the source panics, gives empty
    fields. *)
Definition memberSHA (s : Stack) (index : nat) : string :=
  match st_Members s !! index with Some m => m_SHA m | None => "" end.

Definition stackOwn (s : Stack) (index : nat) : Own :=
  mkOwn (memberSHA s index)
    (match index with O => st_Base s | S i => memberSHA s i end).

Definition waitingComment (position total : Z) (owns : list Own) : string :=
  statusBody ("position " +:+ Itoa position +:+ " of " +:+ Itoa total
              +:+ ", waiting for the stack ahead to resolve.") (ownMarkers owns).

Definition ineligibleComment (reason label : string) (owns : list Own) : string :=
  statusBody ("not queued: " +:+ reason +:+ ". Fix it and the queue picks this pull request up again while the `"
              +:+ label +:+ "` label stays on.") (ownMarkers owns).

Definition memberNumber (s : Stack) (index : nat) : Z :=
  match st_Members s !! index with Some m => m_Number m | None => 0 end.

(** The text of [stackComment] before its markers. *)
Definition stackText (s : Stack) (index : nat) : string :=
  let others := keep (λ n, negb (n =? memberNumber s index)%Z) (Numbers s) in
  let with_ := match others with [] => "" | _ => " with " +:+ refs others end in
  let sha := shortSHA (memberSHA s index) in
  if (S index =? length (st_Members s))%nat then
    if (0 <? st_Retry s)%Z then
      "re-running the failed jobs once on this stack" +:+ with_ +:+ " before giving up (" +:+ sha +:+ ")."
    else
      "testing this branch as the top of a stack" +:+ with_ +:+ ", rebased onto "
      +:+ shortSHA (st_Base s) +:+ " as " +:+ sha +:+ "."
  else "rebased into a stack" +:+ with_ +:+ " as " +:+ sha +:+ ". CI runs once, on the top pull request.".

Definition stackComment (s : Stack) (index : nat) (keep : list Own) : string :=
  let markers := ownMarkers (stackOwn s index :: keep) in
  statusBody (stackText s index)
    (if (S index =? length (st_Members s))%nat then app markers [stackMarker s] else markers).

Definition landedComment (s : Stack) (index : nat) : string :=
  let batchmates := map m_Number (app (take index (st_Members s)) (drop (S index) (st_Members s))) in
  let with_ := match batchmates with [] => "" | _ => " together with " +:+ refs batchmates end in
  statusBody ("landed on the target as " +:+ shortSHA (topSHA s) +:+ with_ +:+ ".")
    [landedMarker (memberSHA s index)].

Definition rejectedComment (reason label : string) (urls : list string) (owns : list Own) : string :=
  statusBody
    ("rejected (" +:+ reason +:+ "). Re-apply the `" +:+ label +:+ "` label once this is fixed."
     +:+ match urls with
         | [] => ""
         | _ => newline +:+ newline +:+ "- " +:+ Join (newline +:+ "- ") urls
         end)
    (ownMarkers owns).

Definition requeuedComment (reason : string) (owns : list Own) : string :=
  statusBody ("back in the queue (" +:+ reason +:+ ").") (ownMarkers owns).

(** * Matching *)

(** [[0-9a-f]{n}] *)
Fixpoint hexRun (n : nat) (s : string) : option (string * string) :=
  match n, s with
  | O, _ => Some ("", s)
  | S n, String c s =>
      if hex_byte c then '(h, rest) ← hexRun n s; Some (String c h, rest) else None
  | S _, "" => None
  end.

(** The longest run of digits. *)
Fixpoint digitSpan (s : string) : string * string :=
  match s with
  | "" => ("", "")
  | String c t => if digit_byte c then let '(d, rest) := digitSpan t in (String c d, rest) else ("", s)
  end.

(** [[0-9]+] *)
Definition digitRun (s : string) : option (string * string) :=
  let '(d, rest) := digitSpan s in if String.eqb d "" then None else Some (d, rest).

(** [[0-9]+@[0-9a-f]{40}] *)
Definition entryAt (s : string) : option ((string * string) * string) :=
  '(number, s) ← digitRun s;
  s ← CutPrefix "@" s;
  '(sha, s) ← hexRun 40 s;
  Some ((number, sha), s).

(** [(?:,entry)*] *)
Fixpoint entriesAt (fuel : nat) (s : string) : list (string * string) * string :=
  match fuel with
  | O => ([], s)
  | S fuel =>
    match (s' ← CutPrefix "," s; entryAt s') with
    | Some (e, rest) => let '(es, rest) := entriesAt fuel rest in (e :: es, rest)
    | None => ([], s)
    end
  end.

Record stackMatch := mkStackMatch {
  sm_base : string; sm_entries : list (string * string); sm_retry : ascii; sm_at : string
}.

(** [([01]) at=([0-9]+) -->] *)
Definition stackTail (base : string) (es : list (string * string)) (s : string) : option stackMatch :=
  match s with
  | "" => None
  | String c s =>
    if Ascii.eqb c "0"%char || Ascii.eqb c "1"%char then
      s ← CutPrefix " at=" s;
      '(at_, s) ← digitRun s;
      _ ← CutPrefix " -->" s;
      Some (mkStackMatch base es c at_)
    else None
  end.

(** [stackPattern] at the start of [s]. *)
Definition stackAt (s : string) : option stackMatch :=
  s ← CutPrefix "<!-- runneryard-merge-queue:stack base=" s;
  '(base, s) ← hexRun 40 s;
  s ← CutPrefix " prs=" s;
  '(e, s) ← entryAt s;
  let '(es, s) := entriesAt (String.length s) s in
  s ← CutPrefix " retry=" s;
  stackTail base (e :: es) s.

(** [ownPattern] at the start of [s], with the rest after the match. *)
Definition ownAt (s : string) : option (Own * string) :=
  s ← CutPrefix "<!-- runneryard-merge-queue:own head=" s;
  '(head, s) ← hexRun 40 s;
  s ← CutPrefix " upstream=" s;
  '(upstream, s) ← hexRun 40 s;
  s ← CutPrefix " -->" s;
  Some (mkOwn head upstream, s).

(** [landedPattern] at the start of [s]. *)
Definition landedAt (s : string) : option string :=
  s ← CutPrefix "<!-- runneryard-merge-queue:landed head=" s;
  '(head, s) ← hexRun 40 s;
  _ ← CutPrefix " -->" s;
  Some head.

(** [FindStringSubmatch]: the leftmost match. *)
Fixpoint findFirst {A} (p : string → option A) (s : string) : option A :=
  match p s with
  | Some a => Some a
  | None => match s with "" => None | String _ s => findFirst p s end
  end.

(** [FindAllStringSubmatch(body, n)]: successive matches that do not overlap. *)
Fixpoint findAll {A} (n : nat) (p : string → option (A * string)) (s : string) : list A :=
  match n with
  | O => []
  | S n => match findFirst p s with Some (a, rest) => a :: findAll n p rest | None => [] end
  end.

(** The loop of [ParseStack] over the members. *)
Fixpoint parseMembers (seen : gset Z) (es : list (string * string)) : option (list Member) :=
  match es with
  | [] => Some []
  | (number, sha) :: es =>
    match Atoi number with
    | None => None
    | Some n =>
      if (n <=? 0)%Z || bool_decide (n ∈ seen) then None
      else members ← parseMembers ({[n]} ∪ seen) es; Some (mkMember n sha :: members)
    end
  end.

Definition ParseStack (body : string) : option Stack :=
  m ← findFirst stackAt body;
  members ← parseMembers ∅ (sm_entries m);
  at_ ← Atoi (sm_at m);
  Some (mkStack (sm_base m) members (if Ascii.eqb (sm_retry m) "0"%char then 0 else 1) (UnixTime at_)).

Definition ParseOwns (body : string) : list Own := findAll maxOwns ownAt body.

Definition ParseLanded (body : string) : option string := findFirst landedAt body.

Example stack_sample :
  let s := mkStack (bytes (repeat 97%nat 40)) [mkMember 7 (bytes (repeat 98%nat 40)); mkMember 12 (bytes (repeat 99%nat 40))]
             1 (63900000000 * Second) in
  ParseStack (stackComment s 1 []) = Some s.
Proof. vm_compute. reflexivity. Qed.

(** * Round trips *)

#[local] Open Scope string_scope.
#[local] Arguments String.append !_ _ / : simpl nomatch.

(** * Strings *)

(** A commit id as git prints it. *)
Definition validSHA (s : string) : Prop := String.length s = 40%nat ∧ string_forallb hex_byte s = true.

Lemma hexRun_app (h s : string) :
  string_forallb hex_byte h = true → hexRun (String.length h) (h +:+ s) = Some (h, s).
Proof.
  induction h as [|c h IH]; simpl; [done |]. rewrite andb_true_iff. intros [Hc Hh].
  by rewrite Hc, IH.
Qed.

Lemma hexRun_sha (h s : string) : validSHA h → hexRun 40 (h +:+ s) = Some (h, s).
Proof. intros [Hl Hh]. rewrite <- Hl. by apply hexRun_app. Qed.

(** A string that starts with a given other character. *)
Definition startsNoDigit (s : string) : Prop :=
  match s with "" => True | String c _ => digit_byte c = false end.

Lemma digitRun_app (d s : string) :
  string_forallb digit_byte d = true → d ≠ "" → startsNoDigit s → digitRun (d +:+ s) = Some (d, s).
Proof.
  intros Hd Hne Hs. assert (H : digitSpan (d +:+ s) = (d, s)).
  { clear Hne. induction d as [|c d IH]; simpl in *.
    - destruct s as [|c s]; [done |]. simpl. by rewrite Hs.
    - apply andb_true_iff in Hd as [Hc Hd]. by rewrite Hc, IH. }
  unfold digitRun. rewrite H. by destruct (String.eqb_spec d "").
Qed.

Lemma digitRun_Itoa n s : 0 <= n → startsNoDigit s → digitRun (Itoa n +:+ s) = Some (Itoa n, s).
Proof. intros Hn Hs. destruct (Itoa_digits n Hn). by apply digitRun_app. Qed.

(** * Text without markers *)

Definition notLt (c : ascii) : bool := negb (Ascii.eqb c "<"%char).
Definition plain (s : string) : bool := string_forallb notLt s.

Lemma plain_app a b : plain (a +:+ b) = plain a && plain b.
Proof. apply forallb_app. Qed.

Lemma digit_notLt c : digit_byte c = true → notLt c = true.
Proof. unfold notLt. destruct (Ascii.eqb_spec c "<"%char) as [->|]; [by vm_compute | done]. Qed.

Lemma hex_notLt c : hex_byte c = true → notLt c = true.
Proof. unfold notLt. destruct (Ascii.eqb_spec c "<"%char) as [->|]; [by vm_compute | done]. Qed.

Lemma plain_sha h : validSHA h → plain h = true.
Proof. intros [_ H]. eapply forallb_impl; [apply hex_notLt | exact H]. Qed.

Lemma plain_Itoa n : 0 <= n → plain (Itoa n) = true.
Proof. intros H. destruct (Itoa_digits n H) as [Hd _]. eapply forallb_impl; [apply digit_notLt | exact Hd]. Qed.

Lemma plain_substring i n s : plain s = true → plain (String.substring i n s) = true.
Proof.
  revert i n. induction s as [|c s IH]; intros [|i] [|n]; simpl; try done;
    unfold plain in *; simpl; rewrite andb_true_iff; intros [Hc Hs]; rewrite ?Hc; simpl; auto.
Qed.

Lemma plain_shortSHA s : plain s = true → plain (shortSHA s) = true.
Proof. intros H. unfold shortSHA. destruct (_ <? _)%nat; [by apply plain_substring | done]. Qed.

Lemma plain_Join sep l : plain sep = true → Forall (λ s, plain s = true) l → plain (Join sep l) = true.
Proof.
  intros Hsep. induction 1 as [|s l Hs Hl IH]; [done |]. unfold Join in *.
  destruct l as [|t l]; [done |]. change (String.concat sep (s :: t :: l)) with (s +:+ sep +:+ String.concat sep (t :: l)).
  by rewrite !plain_app, Hs, Hsep, IH.
Qed.

Lemma plain_refs ns : Forall (λ n, 0 <= n) ns → plain (refs ns) = true.
Proof.
  intros H. apply plain_Join; [done |]. apply Forall_fmap. eapply Forall_impl; [exact H |].
  intros n Hn. exact (plain_Itoa n Hn).
Qed.

(** * Searching *)

(** A pattern that can only match at a [<]. *)
Definition anchored {A} (p : string → option A) : Prop :=
  p "" = None ∧ ∀ c s, notLt c = true → p (String c s) = None.

Lemma anchored_cut {A} w (k : string → option A) :
  anchored (λ s, t ← CutPrefix (String "<"%char w) s; k t).
Proof.
  split; [done |]. intros c s Hc. unfold notLt in Hc. cbn [CutPrefix mbind option_bind].
  rewrite Ascii.eqb_sym. by destruct (Ascii.eqb c "<"%char).
Qed.

Lemma find_skip {A} (p : string → option A) s t :
  anchored p → plain s = true → findFirst p (s +:+ t) = findFirst p t.
Proof.
  intros [Hn Hc]. unfold plain. induction s as [|c s IH]; simpl; [done |].
  rewrite andb_true_iff. intros [H1 H2]. by rewrite (Hc _ _ H1), IH.
Qed.

Lemma find_none {A} (p : string → option A) s : anchored p → plain s = true → findFirst p s = None.
Proof.
  intros Ha Hs. rewrite <- (append_nil s), find_skip by done. simpl. by destruct Ha as [-> _].
Qed.

(** A marker the pattern does not match. *)
Lemma find_marker {A} (p : string → option A) w t :
  anchored p → plain w = true → p (String "<"%char w +:+ t) = None →
  findFirst p (String "<"%char w +:+ t) = findFirst p t.
Proof.
  intros Ha Hw Hp. cbn [findFirst String.app]. 
  change (String "<"%char w +:+ t) with (String "<"%char (w +:+ t)) in *. cbn [findFirst].
  rewrite Hp. by apply find_skip.
Qed.

Lemma find_here {A} (p : string → option A) s a : p s = Some a → findFirst p s = Some a.
Proof. destruct s; simpl; by intros ->. Qed.

Lemma anchored_stackAt : anchored stackAt.
Proof. apply anchored_cut. Qed.
Lemma anchored_ownAt : anchored ownAt.
Proof. apply anchored_cut. Qed.
Lemma anchored_landedAt : anchored landedAt.
Proof. apply anchored_cut. Qed.

(** A comment's status line and text hold no marker. *)
Lemma find_statusBody {A} (p : string → option A) text m ms :
  anchored p → plain text = true → (∀ t, p (StatusPrefix +:+ t) = None) →
  findFirst p (statusBody text (m :: ms)) = findFirst p (Join newline (m :: ms)).
Proof.
  intros Ha Ht Hp. unfold statusBody, Join.
  change (String.concat newline (StatusPrefix :: ("Merge queue: " +:+ text) :: m :: ms))
    with (StatusPrefix +:+ newline +:+ ("Merge queue: " +:+ text) +:+ newline +:+ String.concat newline (m :: ms)).
  specialize (Hp (newline +:+ ("Merge queue: " +:+ text) +:+ newline +:+ String.concat newline (m :: ms))).
  change StatusPrefix with (String "<"%char "!-- runneryard-merge-queue:status -->") in *.
  rewrite find_marker; [|done|done|exact Hp].
  rewrite find_skip by done. rewrite find_skip; [|done|by rewrite plain_app].
  by apply find_skip.
Qed.

Lemma find_statusBody_none {A} (p : string → option A) text :
  anchored p → plain text = true → (∀ t, p (StatusPrefix +:+ t) = None) →
  findFirst p (statusBody text []) = None.
Proof.
  intros Ha Ht Hp. unfold statusBody, Join.
  change (String.concat newline [StatusPrefix; "Merge queue: " +:+ text])
    with (StatusPrefix +:+ newline +:+ ("Merge queue: " +:+ text)).
  specialize (Hp (newline +:+ ("Merge queue: " +:+ text))).
  change StatusPrefix with (String "<"%char "!-- runneryard-merge-queue:status -->") in *.
  rewrite find_marker; [|done|done|exact Hp].
  rewrite find_skip by done. apply find_none; [done |]. by rewrite plain_app.
Qed.

(** * Own-commits markers *)

Definition validOwn (o : Own) : Prop := validSHA (own_Head o) ∧ validSHA (own_Upstream o).

Lemma ownAt_marker o t : validOwn o → ownAt (ownMarker o +:+ t) = Some (o, t).
Proof.
  intros [H1 H2]. unfold ownAt, ownMarker, markerPrefix.
  rewrite !append_assoc.
  rewrite <- (append_assoc "<!-- runneryard-merge-queue:" "own head=").
  change ("<!-- runneryard-merge-queue:" +:+ "own head=") with "<!-- runneryard-merge-queue:own head=".
  rewrite CutPrefix_app. cbn [mbind option_bind]. rewrite hexRun_sha by done. cbn [mbind option_bind].
  rewrite CutPrefix_app. cbn [mbind option_bind]. rewrite hexRun_sha by done. cbn [mbind option_bind].
  rewrite CutPrefix_app. cbn [mbind option_bind]. by destruct o.
Qed.

(** A marker is one [<] and plain text. *)
Definition markerLike (m : string) : Prop := ∃ w, m = String "<"%char w ∧ plain w = true.

Lemma ownMarker_like o : validOwn o → markerLike (ownMarker o).
Proof.
  intros [H1 H2]. exists ("!-- runneryard-merge-queue:own head=" +:+ own_Head o +:+ " upstream="
    +:+ own_Upstream o +:+ " -->"). split; [reflexivity |].
  by rewrite !plain_app, (plain_sha _ H1), (plain_sha _ H2).
Qed.

Lemma stackAt_own o t : stackAt (ownMarker o +:+ t) = None.
Proof. unfold ownMarker, markerPrefix. by rewrite append_assoc. Qed.
Lemma landedAt_own o t : landedAt (ownMarker o +:+ t) = None.
Proof. unfold ownMarker, markerPrefix. by rewrite append_assoc. Qed.
Lemma landedAt_stack s t : landedAt (stackMarker s +:+ t) = None.
Proof. unfold stackMarker, markerPrefix. by rewrite append_assoc. Qed.
Lemma ownAt_stack s t : ownAt (stackMarker s +:+ t) = None.
Proof. unfold stackMarker, markerPrefix. by rewrite append_assoc. Qed.

(** Lines of markers. *)
Lemma Join_cons sep m n ms : Join sep (m :: n :: ms) = m +:+ sep +:+ Join sep (n :: ms).
Proof. done. Qed.

Lemma find_skip_marker {A} (p : string → option A) m ms :
  anchored p → markerLike m → (∀ t, p (m +:+ t) = None) →
  findFirst p (Join newline (m :: ms)) = findFirst p (Join newline ms).
Proof.
  intros Ha (w & -> & Hw) Hp. destruct ms as [|n ms].
  - change (Join newline [String "<"%char w]) with (String "<"%char w).
    rewrite <- (append_nil (String "<"%char w)). by rewrite find_marker.
  - rewrite Join_cons, find_marker by done. by apply find_skip.
Qed.

Lemma find_skip_owns {A} (p : string → option A) os ms :
  anchored p → Forall validOwn os → (∀ o t, p (ownMarker o +:+ t) = None) →
  findFirst p (Join newline (map ownMarker os ++ ms)) = findFirst p (Join newline ms).
Proof.
  intros Ha Hos Hp. induction Hos as [|o os Ho _ IH]; [done |]. cbn [map app].
  rewrite find_skip_marker; auto using ownMarker_like.
Qed.

(** The own-commits records a comment holds are read back, newest first. *)
Lemma findAll_owns n os ms :
  Forall validOwn os → (length os <= n)%nat → findFirst ownAt (Join newline ms) = None →
  findAll n ownAt (Join newline (map ownMarker os ++ ms)) = os.
Proof.
  intros Hos. revert n. induction Hos as [|o os Ho _ IH]; intros n Hn Hms; cbn [map app].
  - destruct n; [done |]. simpl. by rewrite Hms.
  - destruct n as [|n]; [simpl in Hn; lia |]. cbn [findAll].
    assert (Hf : ∃ rest, findFirst ownAt (Join newline (ownMarker o :: (map ownMarker os ++ ms)%list))
               = Some (o, rest)
               ∧ ∀ k, findAll k ownAt rest = findAll k ownAt (Join newline (map ownMarker os ++ ms)%list)).
    { destruct (map ownMarker os ++ ms)%list as [|x l].
      - exists "". split; [|done]. apply find_here.
        change (Join newline [ownMarker o]) with (ownMarker o).
        rewrite <- (append_nil (ownMarker o)). by apply ownAt_marker.
      - exists (newline +:+ Join newline (x :: l)). rewrite Join_cons. split.
        + apply find_here. by apply ownAt_marker.
        + intros [|k]; [done |]. cbn [findAll]. rewrite find_skip; [done | apply anchored_ownAt | done]. }
    destruct Hf as (rest & -> & ->). f_equal. apply IH; [simpl in Hn; lia | done].
Qed.

(** * The stack marker *)

Record validStack (s : Stack) : Prop := {
  vs_base : validSHA (st_Base s);
  vs_members : Forall (λ m, validSHA (m_SHA m) ∧ 0 < m_Number m <= max_int64) (st_Members s);
  vs_nonempty : st_Members s ≠ [];
  vs_distinct : NoDup (Numbers s);
  vs_retry : st_Retry s = 0 ∨ st_Retry s = 1;
  vs_at : 0 <= Unix (st_At s) <= max_int64
}.

Definition printMember (m : Member) : string := Itoa (m_Number m) +:+ "@" +:+ m_SHA m.
Definition memberEntry (m : Member) : string * string := (Itoa (m_Number m), m_SHA m).

Lemma entryAt_print m t :
  validSHA (m_SHA m) → 0 < m_Number m → entryAt (printMember m +:+ t) = Some (memberEntry m, t).
Proof.
  intros Hs Hn. unfold entryAt, printMember. rewrite !append_assoc.
  rewrite digitRun_Itoa by (done || lia). cbn [mbind option_bind].
  rewrite CutPrefix_app. cbn [mbind option_bind]. by rewrite hexRun_sha.
Qed.

(** The members after the first, each behind a comma. *)
Fixpoint commaMembers (ms : list Member) : string :=
  match ms with [] => "" | m :: ms => "," +:+ printMember m +:+ commaMembers ms end.

Lemma Join_members m ms :
  Join "," (map printMember (m :: ms)) = printMember m +:+ commaMembers ms.
Proof.
  revert m. induction ms as [|n ms IH]; intros m; [by rewrite append_nil |].
  cbn [map]. rewrite Join_cons. cbn [map] in IH. by rewrite IH.
Qed.

Lemma entriesAt_print fuel ms t :
  Forall (λ m, validSHA (m_SHA m) ∧ 0 < m_Number m <= max_int64) ms → (length ms <= fuel)%nat →
  CutPrefix "," t = None → entriesAt fuel (commaMembers ms +:+ t) = (map memberEntry ms, t).
Proof.
  intros Hms. revert fuel. induction Hms as [|m ms [Hs Hn] _ IH]; intros fuel Hf Ht.
  - change (commaMembers [] +:+ t) with t. destruct fuel; [done |]. cbn [entriesAt]. by rewrite Ht.
  - destruct fuel as [|fuel]; [simpl in Hf; lia |]. cbn [entriesAt commaMembers].
    rewrite !append_assoc, CutPrefix_app. cbn [mbind option_bind].
    rewrite entryAt_print by (done || lia). rewrite IH; [done | simpl in Hf; lia | done].
Qed.

Lemma length_commaMembers ms t : (length ms <= String.length (commaMembers ms +:+ t))%nat.
Proof.
  induction ms as [|m ms IH]; simpl; [lia |]. rewrite !length_append in *. lia.
Qed.

Lemma parseMembers_entries seen ms :
  Forall (λ m, validSHA (m_SHA m) ∧ 0 < m_Number m <= max_int64) ms → NoDup (map m_Number ms) →
  (∀ m, m ∈ ms → m_Number m ∉ seen) → parseMembers seen (map memberEntry ms) = Some ms.
Proof.
  intros Hms. revert seen. induction Hms as [|m ms [Hs Hn] _ IH]; intros seen HN Hseen; [done |].
  cbn [map parseMembers memberEntry]. apply NoDup_cons in HN as [Hne HN].
  rewrite Atoi_Itoa by lia. destruct (Z.leb_spec (m_Number m) 0); [lia |].
  rewrite bool_decide_eq_false_2 by (apply Hseen; left). cbn [orb].
  rewrite IH; [by destruct m | done |].
  intros x Hx [Heq%elem_of_singleton|Hin]%elem_of_union; [|by apply (Hseen x); [right |]].
  apply Hne. rewrite <- Heq. by apply (list_elem_of_fmap_2 m_Number).
Qed.

Lemma stackTail_print base es c n t :
  c = "0"%char ∨ c = "1"%char → 0 <= n →
  stackTail base es (String c (" at=" +:+ Itoa n +:+ " -->" +:+ t)) = Some (mkStackMatch base es c (Itoa n)).
Proof.
  intros Hc Hn. unfold stackTail. rewrite CutPrefix_app. cbn [mbind option_bind].
  rewrite digitRun_Itoa by done. cbn [mbind option_bind]. rewrite CutPrefix_app.
  by destruct Hc as [->| ->].
Qed.

Lemma stackAt_marker s t :
  validStack s →
  stackAt (stackMarker s +:+ t) =
  Some (mkStackMatch (st_Base s) (map memberEntry (st_Members s))
          (if (st_Retry s =? 0)%Z then "0"%char else "1"%char) (Itoa (Unix (st_At s)))).
Proof.
  intros [Hb Hm Hne HN Hr Hat]. destruct (st_Members s) as [|m ms] eqn:Ems; [done |].
  unfold stackAt, stackMarker, markerPrefix. rewrite Ems.
  change (map (λ m, Itoa (m_Number m) +:+ "@" +:+ m_SHA m) (m :: ms)) with (map printMember (m :: ms)).
  rewrite Join_members, !append_assoc.
  rewrite <- (append_assoc "<!-- runneryard-merge-queue:" "stack base=").
  change ("<!-- runneryard-merge-queue:" +:+ "stack base=") with "<!-- runneryard-merge-queue:stack base=".
  apply Forall_cons in Hm as [[Hms Hmn] Hm].
  rewrite CutPrefix_app. cbn [mbind option_bind]. rewrite hexRun_sha by done. cbn [mbind option_bind].
  rewrite CutPrefix_app. cbn [mbind option_bind]. rewrite entryAt_print by (done || lia).
  cbn [mbind option_bind]. rewrite entriesAt_print; [|done|apply length_commaMembers|done].
  rewrite CutPrefix_app. cbn [mbind option_bind].
  destruct Hr as [Hr|Hr]; rewrite Hr; [change (Itoa 0) with "0" | change (Itoa 1) with "1"];
    match goal with |- stackTail _ _ (String ?c "" +:+ ?u) = _ =>
      change (String c "" +:+ u) with (String c u) end;
    apply stackTail_print; (by auto || lia).
Qed.

(** * Comments *)

Lemma memberSHA_valid s i : validStack s → (i < length (st_Members s))%nat → validSHA (memberSHA s i).
Proof.
  intros Hs Hi. unfold memberSHA. destruct (lookup_lt_is_Some_2 _ _ Hi) as [m Hm]. rewrite Hm.
  pose proof (vs_members _ Hs) as HF. rewrite Forall_lookup in HF. by destruct (HF _ _ Hm).
Qed.

Lemma stackOwn_valid s i : validStack s → (i < length (st_Members s))%nat → validOwn (stackOwn s i).
Proof.
  intros Hs Hi. split; [by apply memberSHA_valid |]. destruct i; simpl; [apply Hs |].
  apply memberSHA_valid; [done | lia].
Qed.

Lemma plain_printMembers ms :
  Forall (λ m, validSHA (m_SHA m) ∧ 0 < m_Number m <= max_int64) ms →
  plain (Join "," (map printMember ms)) = true.
Proof.
  intros H. apply plain_Join; [done |]. apply Forall_fmap. eapply Forall_impl; [exact H |].
  intros m [Hs Hn]. unfold printMember. simpl.
  rewrite plain_app, plain_Itoa by lia. exact (plain_sha _ Hs).
Qed.

Lemma stackMarker_like s : validStack s → markerLike (stackMarker s).
Proof.
  intros Hs. exists ("!-- runneryard-merge-queue:stack base=" +:+ st_Base s +:+ " prs="
    +:+ Join "," (map printMember (st_Members s)) +:+ " retry=" +:+ Itoa (st_Retry s)
    +:+ " at=" +:+ Itoa (Unix (st_At s)) +:+ " -->"). split; [reflexivity |].
  pose proof (vs_retry _ Hs). pose proof (vs_at _ Hs).
  by rewrite !plain_app, (plain_sha _ (vs_base _ Hs)), (plain_printMembers _ (vs_members _ Hs)),
    !plain_Itoa by lia.
Qed.

Lemma Numbers_nonneg s : validStack s → Forall (λ n, 0 <= n) (Numbers s).
Proof.
  intros Hs. apply Forall_fmap. eapply Forall_impl; [apply (vs_members _ Hs) |]. intros m [_ ?].
  simpl. lia.
Qed.

Lemma plain_with prefix ns :
  plain prefix = true → Forall (λ n, 0 <= n) ns →
  plain (match ns with [] => "" | _ => prefix +:+ refs ns end) = true.
Proof. intros Hp Hn. destruct ns; [done |]. by rewrite plain_app, Hp, plain_refs. Qed.

Lemma plain_stackText s i :
  validStack s → (i < length (st_Members s))%nat → plain (stackText s i) = true.
Proof.
  intros Hs Hi. unfold stackText.
  assert (Hsha : plain (shortSHA (memberSHA s i)) = true) by by apply plain_shortSHA, plain_sha, memberSHA_valid.
  assert (Hbase : plain (shortSHA (st_Base s)) = true) by apply plain_shortSHA, plain_sha, Hs.
  set (others := keep _ _). assert (Ho : Forall (λ n, 0 <= n) others).
  { rewrite Forall_forall. intros n [Hn _]%elem_of_keep. pose proof (Numbers_nonneg s Hs) as HF.
    rewrite Forall_forall in HF. auto. }
  pose proof (plain_with " with " others eq_refl Ho) as Hw.
  destruct (_ =? _)%nat; [destruct (_ <? _)%Z|]; rewrite !plain_app, Hw, Hsha, ?Hbase; done.
Qed.

(** The own-commits records of a comment whose other text is plain. *)
Lemma ParseOwns_body text owns ms :
  plain text = true → Forall validOwn owns →
  findFirst ownAt (Join newline ms) = None → (ms = [] ∨ owns ≠ []) →
  ParseOwns (statusBody text (ownMarkers owns ++ ms)) = take maxOwns owns.
Proof.
  intros Ht Ho Hms Hne. unfold ParseOwns, ownMarkers. 
  assert (Hall : ∀ k l, findFirst ownAt (statusBody text l) = findFirst ownAt (Join newline l) →
     findAll k ownAt (statusBody text l) = findAll k ownAt (Join newline l)).
  { intros [|k] l Hl; [done |]. cbn [findAll]. by rewrite Hl. }
  rewrite Hall.
  - apply findAll_owns; [by apply Forall_take | rewrite length_take; lia | done].
  - destruct (map ownMarker (take maxOwns owns) ++ ms)%list as [|m l] eqn:El.
    + rewrite find_statusBody_none; auto using anchored_ownAt.
    + apply find_statusBody; auto using anchored_ownAt.
Qed.

(** C38: A tick reads back the stack it wrote.  The comment on the top pull
    request of a stack parses to that stack, its time in whole seconds; the
    comments on the other members hold no stack marker. *)
Theorem stack_marker_roundtrip s keep_ :
  validStack s → Forall validOwn keep_ →
  ParseStack (stackComment s (pred (length (st_Members s))) keep_)
    = Some (mkStack (st_Base s) (st_Members s) (st_Retry s) (UnixTime (Unix (st_At s))))
  ∧ ∀ i, (S i < length (st_Members s))%nat → ParseStack (stackComment s i keep_) = None.
Proof.
  intros Hs Hk. unfold ParseStack, stackComment.
  assert (Hlen : (0 < length (st_Members s))%nat).
  { pose proof (vs_nonempty _ Hs). destruct (st_Members s); [done | simpl; lia]. }
  assert (Hown : ∀ i, (i < length (st_Members s))%nat → Forall validOwn (take maxOwns (stackOwn s i :: keep_))).
  { intros i Hi. apply Forall_take. constructor; [by apply stackOwn_valid | done]. }
  split.
  - set (i := pred _). assert (Hi : (i < length (st_Members s))%nat) by (unfold i; lia).
    assert (S i =? length (st_Members s) = true)%nat as -> by (apply Nat.eqb_eq; unfold i; lia).
    unfold ownMarkers at 1. 
    destruct (map ownMarker (take maxOwns (stackOwn s i :: keep_)) ++ [stackMarker s])%list as [|m l] eqn:El;
      [by destruct (map _ _) in El |].
    rewrite find_statusBody by (auto using anchored_stackAt, plain_stackText). rewrite <- El.
    rewrite find_skip_owns; [|apply anchored_stackAt | by apply Hown | apply stackAt_own].
    rewrite (find_here stackAt (Join newline [stackMarker s])
      (mkStackMatch (st_Base s) (map memberEntry (st_Members s))
          (if (st_Retry s =? 0)%Z then "0"%char else "1"%char) (Itoa (Unix (st_At s))))).
    2:{ change (Join newline [stackMarker s]) with (stackMarker s).
        rewrite <- (append_nil (stackMarker s)). by apply stackAt_marker. }
    cbn [mbind option_bind sm_entries sm_at sm_base sm_retry].
    rewrite parseMembers_entries; [|apply Hs | apply Hs | set_solver]. cbn [mbind option_bind].
    rewrite Atoi_Itoa by apply Hs. cbn [mbind option_bind].
    by destruct (vs_retry _ Hs) as [->| ->].
  - intros i Hi. assert (S i =? length (st_Members s) = false)%nat as -> by (apply Nat.eqb_neq; lia).
    rewrite <- (app_nil_r (ownMarkers _)). unfold ownMarkers.
    destruct (map ownMarker (take maxOwns (stackOwn s i :: keep_)) ++ [])%list as [|m l] eqn:El; [done |].
    rewrite find_statusBody; [|apply anchored_stackAt | apply plain_stackText; [done | lia] | done].
    rewrite <- El. rewrite find_skip_owns; [done | apply anchored_stackAt | apply Hown; lia | apply stackAt_own].
Qed.

(** Rewriting a status comment never loses a pull request's own-commits
    records: whichever comment the queue writes, the records it was given, newest
    first and at most two, are read back by the next tick. *)
Theorem own_records_kept owns :
  Forall validOwn owns →
  (∀ p t, 0 <= p → 0 <= t → ParseOwns (waitingComment p t owns) = take maxOwns owns) ∧
  (∀ reason, plain reason = true → ParseOwns (requeuedComment reason owns) = take maxOwns owns) ∧
  (∀ reason label, plain reason = true → plain label = true →
     ParseOwns (ineligibleComment reason label owns) = take maxOwns owns) ∧
  (∀ reason label urls, plain reason = true → plain label = true → Forall (λ u, plain u = true) urls →
     ParseOwns (rejectedComment reason label urls owns) = take maxOwns owns) ∧
  (∀ s i, validStack s → (i < length (st_Members s))%nat →
     ParseOwns (stackComment s i owns) = take maxOwns (stackOwn s i :: owns)).
Proof.
  intros Ho.
  assert (Hplain : ∀ text, plain text = true → ParseOwns (statusBody text (ownMarkers owns)) = take maxOwns owns).
  { intros text Ht. rewrite <- (app_nil_r (ownMarkers owns)). apply ParseOwns_body; auto. }
  split_and!.
  - intros p t Hp Ht. apply Hplain. by rewrite !plain_app, !plain_Itoa.
  - intros reason Hr. apply Hplain. by rewrite !plain_app, Hr.
  - intros reason label Hr Hl. apply Hplain. by rewrite !plain_app, Hr, Hl.
  - intros reason label urls Hr Hl Hu. apply Hplain. rewrite !plain_app, Hr, Hl.
    destruct urls; [done |]. by rewrite !plain_app, (plain_Join (newline +:+ "- ")).
  - intros s i Hs Hi. unfold stackComment.
    assert (Hv : Forall validOwn (stackOwn s i :: owns)) by (constructor; [by apply stackOwn_valid | done]).
    destruct (_ =? _)%nat.
    + apply ParseOwns_body; auto using plain_stackText.
      rewrite find_skip_marker; auto using anchored_ownAt, stackMarker_like, ownAt_stack.
    + rewrite <- (app_nil_r (ownMarkers _)). apply ParseOwns_body; auto using plain_stackText.
Qed.

(** A landed pull request is recognised by its own head: the comment on each
    member of a landed stack parses to that member's commit, and no comment on a
    stack in flight claims to have landed. *)
Theorem landed_marker_roundtrip s i keep_ :
  validStack s → Forall validOwn keep_ → (i < length (st_Members s))%nat →
  ParseLanded (landedComment s i) = Some (memberSHA s i) ∧ ParseLanded (stackComment s i keep_) = None.
Proof.
  intros Hs Hk Hi. split.
  - unfold ParseLanded, landedComment. rewrite find_statusBody; [|apply anchored_landedAt| |done].
    + apply find_here. change (Join newline [landedMarker (memberSHA s i)]) with (landedMarker (memberSHA s i)).
      unfold landedMarker, markerPrefix, landedAt.
      rewrite <- (append_assoc "<!-- runneryard-merge-queue:" "landed head=").
      change ("<!-- runneryard-merge-queue:" +:+ "landed head=") with "<!-- runneryard-merge-queue:landed head=".
      rewrite CutPrefix_app. cbn [mbind option_bind].
      rewrite hexRun_sha by by apply memberSHA_valid. done.
    + set (mates := map m_Number _).
      assert (Hm : Forall (λ n, 0 <= n) mates).
      { pose proof (vs_members _ Hs) as HF. apply Forall_fmap, Forall_app. split;
          (eapply Forall_impl; [first [apply Forall_take, HF | apply Forall_drop, HF] |]);
          intros m [_ ?]; simpl; lia. }
      rewrite !plain_app, (plain_with " together with " mates eq_refl Hm).
      assert (Ht : plain (shortSHA (topSHA s)) = true).
      { apply plain_shortSHA. unfold topSHA, Top. destruct (last (st_Members s)) as [m|] eqn:El; [|done].
        apply last_Some in El as [l El]. pose proof (vs_members _ Hs) as HF. rewrite El in HF.
        apply Forall_app in HF as [_ [[? _] _]%Forall_cons]. by apply plain_sha. }
      by rewrite Ht.
  - unfold ParseLanded, stackComment.
    assert (Hv : Forall validOwn (take maxOwns (stackOwn s i :: keep_))).
    { apply Forall_take. constructor; [by apply stackOwn_valid | done]. }
    assert (Hbody : ∀ ms, findFirst landedAt (Join newline ms) = None →
      findFirst landedAt (statusBody (stackText s i) (ownMarkers (stackOwn s i :: keep_) ++ ms)) = None).
    { intros ms Hms. unfold ownMarkers. cbn [take map app maxOwns].
      rewrite find_statusBody; [|apply anchored_landedAt | by apply plain_stackText | done].
      change (ownMarker (stackOwn s i) :: (map ownMarker (take 1 keep_) ++ ms)%list)
        with (map ownMarker (take maxOwns (stackOwn s i :: keep_)) ++ ms)%list.
      rewrite find_skip_owns; [done | apply anchored_landedAt | done | apply landedAt_own]. }
    destruct (_ =? _)%nat; [|rewrite <- (app_nil_r (ownMarkers _)); by apply Hbody].
    apply Hbody. rewrite find_skip_marker; auto using anchored_landedAt, stackMarker_like, landedAt_stack.
Qed.

(** ** A stack of two pull requests *)

Definition demoSHA (c : ascii) : string := fold_right (λ _, String c) "" (seq 0 40).

Definition demoStack : Stack :=
  mkStack (demoSHA "a") [mkMember 7 (demoSHA "b"); mkMember 12 (demoSHA "c")] 0 (63900000000 * Second).

Lemma demoSHA_valid c : hex_byte c = true → validSHA (demoSHA c).
Proof. intros Hc. split; [done |]. unfold demoSHA. simpl. by rewrite Hc. Qed.

Lemma demoStack_valid : validStack demoStack.
Proof.
  split.
  - by apply demoSHA_valid.
  - constructor; [|constructor; [|constructor]]; (split; [by apply demoSHA_valid |]);
      simpl; unfold max_int64; lia.
  - done.
  - apply NoDup_cons. split; [|apply NoDup_singleton]. by intros ?%list_elem_of_singleton.
  - by left.
  - split; vm_compute; discriminate.
Qed.

Lemma stack_marker_roundtrip_witness :
  ParseStack (stackComment demoStack 1 []) = Some demoStack ∧ ParseStack (stackComment demoStack 0 []) = None.
Proof.
  destruct (stack_marker_roundtrip demoStack [] demoStack_valid ltac:(constructor)) as [H1 H2].
  split; [exact H1 | apply H2; simpl; lia].
Defined.

Lemma own_records_kept_witness :
  ParseOwns (requeuedComment "the target branch moved" [mkOwn (demoSHA "b") (demoSHA "a")])
  = [mkOwn (demoSHA "b") (demoSHA "a")].
Proof.
  assert (Ho : Forall validOwn [mkOwn (demoSHA "b") (demoSHA "a")]).
  { constructor; [split; by apply demoSHA_valid | constructor]. }
  destruct (own_records_kept _ Ho) as (_ & H & _). by apply H.
Defined.
