(* ===== verification/MergePlan.v ===== *)
(** The merge queue's planner (src/mergequeue/plan.go): from a snapshot of
    GitHub to the actions of one tick, without I/O. *)

From S2P Require Import Prelude GoStrings GoText MergeChecks MergeMarker.

#[local] Open Scope string_scope.

(** * Data *)

(** [PR] of src/mergequeue/mergequeue.go *)
Record PR := mkPR {
  Number : Z; HeadSHA : string; HeadRef : string; BaseRef : string;
  SameRepo : bool; Draft : bool; LabeledAt : time; LabeledBy : string
}.

(** [QueuedPR]; the embedded [PR] is a field with a coercion. *)
Record QueuedPR := mkQueuedPR {
  q_PR :> PR; LabelerCanWrite : bool; Owns : list Own; q_Landed : bool
}.

(** [InFlight]; a missing [if_Checks] is the zero [Status] of a stack whose
    checks were not evaluated. *)
Record InFlight := mkInFlight {
  if_Stack : Stack; if_Landed : bool; if_Checks : option Status;
  RerunIDs : list Z; BatchmateRuns : list Z
}.

Record Snapshot := mkSnapshot {
  sn_Now : time; TargetSHA : string; Queued : list QueuedPR; Stacks : list InFlight
}.

(** [Action]: one constructor per [ActionKind], with the fields that kind sets. *)
Inductive Action :=
  | ActionForm (prs : list Z) (base : string)
  | ActionAdvance (stack : Stack)
  | ActionLanded (stack : Stack)
  | ActionRetry (stack : Stack) (runIDs : list Z) (reason : string)
  | ActionReject (stack : Stack) (number : Z) (reason : string) (urls : list string)
  | ActionSplit (stack : Stack) (reason : string)
  | ActionAbandon (stack : Stack) (reason : string) (prs : list Z)
  | ActionCancel (stack : Stack) (runIDs : list Z)
  | ActionComment (number : Z) (body : string).

Record Plan := mkPlan { Actions : list Action; Idle : bool }.

(** [strings.SplitN(s, "\n", 3)[1]]; without a newline, where the source
    panics, there is none. *)
Fixpoint beforeNewline (s : string) : string :=
  match s with
  | "" => ""
  | String c s => if Ascii.eqb c "010" then "" else String c (beforeNewline s)
  end.

Fixpoint secondLine (s : string) : option string :=
  match s with
  | "" => None
  | String c s => if Ascii.eqb c "010" then Some (beforeNewline s) else secondLine s
  end.

(** [Action.String]; [None] is a panic. *)
Definition actionString (a : Action) : option string :=
  match a with
  | ActionForm prs base => Some ("form a stack of " +:+ refs prs +:+ " on " +:+ shortSHA base)
  | ActionAdvance stack =>
      top ← Top stack;
      Some ("fast-forward the target to " +:+ shortSHA (m_SHA top) +:+ ", landing " +:+ refs (Numbers stack))
  | ActionLanded stack => Some ("record " +:+ refs (Numbers stack) +:+ " as landed")
  | ActionRetry stack runIDs reason =>
      Some ("re-run " +:+ Itoa (Z.of_nat (length runIDs)) +:+ " failed workflow run(s) of the stack "
            +:+ refs (Numbers stack) +:+ " (" +:+ reason +:+ ")")
  | ActionReject _ number reason _ => Some ("reject #" +:+ Itoa number +:+ " (" +:+ reason +:+ ")")
  | ActionSplit stack reason => Some ("split the stack " +:+ refs (Numbers stack) +:+ " (" +:+ reason +:+ ")")
  | ActionAbandon stack reason _ =>
      Some ("abandon the stack " +:+ refs (Numbers stack) +:+ " (" +:+ reason +:+ ")")
  | ActionCancel stack runIDs =>
      Some ("cancel " +:+ Itoa (Z.of_nat (length runIDs)) +:+ " batchmate run(s) of the stack "
            +:+ refs (Numbers stack))
  | ActionComment number body =>
      line ← secondLine body;
      Some ("comment on #" +:+ Itoa number +:+ ": " +:+ TrimPrefix line "Merge queue: ")
  end.

(** * Helpers *)

(** [queued[pr.Number] = pr] over the queue: the last entry of a number wins. *)
Definition queuedMap (prs : list QueuedPR) : gmap Z QueuedPR :=
  fold_left (λ m (pr : QueuedPR), <[Number pr := pr]> m) prs ∅.

(** The loop of [staleReason] over the members. *)
Fixpoint staleMember (members : list Member) (queued : gmap Z QueuedPR) : string :=
  match members with
  | [] => ""
  | m :: members =>
    match queued !! m_Number m : option QueuedPR with
    | None => "#" +:+ Itoa (m_Number m) +:+ " left the queue"
    | Some pr =>
      if negb (String.eqb (HeadSHA pr) (m_SHA m)) then
        "#" +:+ Itoa (m_Number m) +:+ " was pushed to while the stack was tested"
      else staleMember members queued
    end
  end.

Definition staleReason (stack : Stack) (targetSHA : string) (queued : gmap Z QueuedPR) : string :=
  if negb (String.eqb (st_Base stack) targetSHA)
  then "the target branch moved while the stack was tested"
  else staleMember (st_Members stack) queued.

Definition ineligibleReason (pr : QueuedPR) (config : Config) : string :=
  if negb (SameRepo pr) then "the queue only lands branches of this repository, not forks"
  else if Draft pr then "it is a draft"
  else if negb (String.eqb (BaseRef pr) (cf_Target config)) then
    "it targets `" +:+ BaseRef pr +:+ "`, and the queue lands on `" +:+ cf_Target config +:+ "`"
  else if negb (LabelerCanWrite pr) then
    "the `" +:+ cf_Label config +:+ "` label must be added by someone with write access"
  else "".

(** [claimed[number]]: how often a number was counted. *)
Definition claims (claimed : gmap Z Z) (number : Z) : Z := default 0%Z (claimed !! number).

Definition unclaimedMembers (stack : Stack) (claimed : gmap Z Z) : list Z :=
  keep (λ n, claims claimed n =? 0)%Z (Numbers stack).

(** [retried := stack; retried.Retry = 1; retried.At = ...] *)
Definition retriedStack (stack : Stack) (now : time) : Stack :=
  mkStack (st_Base stack) (st_Members stack) 1 (Truncate now Second).

Definition failingNames (inFlight : InFlight) : list string :=
  match if_Checks inFlight with Some status => Failing status | None => [] end.
Definition failingURLs (inFlight : InFlight) : list string :=
  match if_Checks inFlight with Some status => URLs status | None => [] end.

Definition failureActions (snapshot : Snapshot) (inFlight : InFlight) : list Action :=
  let stack := if_Stack inFlight in
  let reason := "required checks failed: " +:+ Join ", " (failingNames inFlight) in
  if (st_Retry stack =? 0)%Z && negb (bool_decide (RerunIDs inFlight = [])) then
    [ActionRetry (retriedStack stack (sn_Now snapshot)) (RerunIDs inFlight) reason]
  else
  match st_Members stack with
  | [member] => [ActionReject stack (m_Number member) reason (failingURLs inFlight)]
  | _ =>
    let '(front, back) := Split (Numbers stack) in
    [ActionSplit stack reason; ActionForm front (st_Base stack); ActionForm back (st_Base stack)]
  end.

(** * The tick *)

Definition checksState (inFlight : InFlight) : option checkState := State_ <$> if_Checks inFlight.

(** [stale] after the first loop. *)
Definition ownStale (snapshot : Snapshot) (inFlight : InFlight) : string :=
  if if_Landed inFlight then ""
  else staleReason (if_Stack inFlight) (TargetSHA snapshot) (queuedMap (Queued snapshot)).

(** The test on which the first loop stops looking for a stack to land. *)
Definition canAdvance (entry : InFlight * string) : bool :=
  let '(inFlight, stale) := entry in
  negb (if_Landed inFlight) && String.eqb stale ""
  && bool_decide (checksState inFlight = Some StateSuccess).

(** [stale[i]] of every other live stack once stack [a] of numbers [first] lands. *)
Definition landsFirst (a : nat) (first : list Z) (i : nat) (entry : InFlight * string)
    : InFlight * string :=
  let '(inFlight, stale) := entry in
  if negb (i =? a)%nat && negb (if_Landed inFlight) && String.eqb stale ""
  then (inFlight, "the stack of " +:+ refs first +:+ " lands first")
  else (inFlight, stale).

(** The stacks with their final [stale] reasons: the first two loops. *)
Definition staleStacks (snapshot : Snapshot) : list (InFlight * string) :=
  let stale := map (λ f, (f, ownStale snapshot f)) (Stacks snapshot) in
  match indexFunc canAdvance stale with
  | Some a => imap (landsFirst a (match stale !! a with Some (f, _) => Numbers (if_Stack f) | None => [] end)) stale
  | None => stale
  end.

(** [claimed[number]++] over the members of every live stack. *)
Definition claimNumbers (claimed : gmap Z Z) (entry : InFlight * string) : gmap Z Z :=
  let '(inFlight, stale) := entry in
  if if_Landed inFlight || String.eqb stale "" then
    fold_left (λ m n, <[n := claims m n + 1]> m)%Z (Numbers (if_Stack inFlight)) claimed
  else claimed.

(** The variables of the loop that resolves the stacks. *)
Record planState := mkPlanState {
  ps_actions : list Action; ps_resolved : bool; ps_pending : list InFlight; ps_handled : gset Z
}.

Definition resolveWith (actions : list Action) (numbers : list Z) (s : planState) : planState :=
  mkPlanState (app (ps_actions s) actions) true (ps_pending s) (list_to_set numbers ∪ ps_handled s).

(** One turn of that loop. *)
Definition resolveStack (snapshot : Snapshot) (s : planState) (entry : InFlight * string) : planState :=
  let '(inFlight, stale) := entry in
  let stack := if_Stack inFlight in
  let numbers := Numbers stack in
  if if_Landed inFlight then resolveWith [ActionLanded stack] numbers s
  else if negb (String.eqb stale "") then resolveWith [ActionAbandon stack stale []] numbers s
  else
  match checksState inFlight with
  | Some StatePending =>
      mkPlanState
        (match BatchmateRuns inFlight with
         | [] => ps_actions s
         | runs => app (ps_actions s) [ActionCancel stack runs]
         end) (ps_resolved s) (app (ps_pending s) [inFlight]) (ps_handled s)
  | Some StateSuccess => resolveWith [ActionAdvance stack] numbers s
  | _ => resolveWith (failureActions snapshot inFlight) numbers s
  end.

(** [actions[i].PRs = unclaimedMembers(...)] for an abandoned stack. *)
Definition setUnclaimed (claimed : gmap Z Z) (a : Action) : Action :=
  match a with
  | ActionAbandon stack reason _ => ActionAbandon stack reason (unclaimedMembers stack claimed)
  | _ => a
  end.

(** One turn of the loop over the queue, with the actions and the candidates. *)
Definition addCandidate (config : Config) (active handled : gset Z)
    (acc : list Action * list QueuedPR) (pr : QueuedPR) : list Action * list QueuedPR :=
  let '(actions, candidates) := acc in
  if q_Landed pr || bool_decide (Number pr ∈ active) || bool_decide (Number pr ∈ handled) then acc
  else
  let reason := ineligibleReason pr config in
  if negb (String.eqb reason "") then
    (app actions [ActionComment (Number pr) (ineligibleComment reason (cf_Label config) (Owns pr))], candidates)
  else (actions, app candidates [pr]).

(** The loop that fills [next] from position [taken]; a negative batch size never stops it. *)
Fixpoint takeBatch (batchSize taken : Z) (candidates : list QueuedPR) : list Z :=
  match candidates with
  | [] => []
  | pr :: candidates =>
    if (taken =? batchSize)%Z then [] else Number pr :: takeBatch batchSize (taken + 1) candidates
  end.

Definition waitingActions (waiting : list QueuedPR) : list Action :=
  imap (λ i (pr : QueuedPR), ActionComment (Number pr)
    (waitingComment (Z.of_nat i + 1) (Z.of_nat (length waiting)) (Owns pr))) waiting.

Definition PlanTick (snapshot : Snapshot) (config : Config) : Plan :=
  let entries := staleStacks snapshot in
  let claimed := fold_left claimNumbers entries ∅ in
  let s := fold_left (resolveStack snapshot) entries (mkPlanState [] false [] ∅) in
  let actions := map (setUnclaimed claimed) (ps_actions s) in
  let active : gset Z := list_to_set (concat (map (λ f, Numbers (if_Stack f)) (ps_pending s))) in
  let '(actions, candidates) :=
    fold_left (addCandidate config active (ps_handled s)) (Queued snapshot) (actions, []) in
  let next := if negb (ps_resolved s) && bool_decide (ps_pending s = [])
              then takeBatch (cf_BatchSize config) 0 candidates else [] in
  let actions := app actions (waitingActions (drop (length next) candidates)) in
  let actions := match next with [] => actions | _ => app actions [ActionForm next (TargetSHA snapshot)] end in
  mkPlan actions (negb (ps_resolved s) && bool_decide (next = [])).
