(* ===== verification/MergePlanTheorems.v ===== *)
(** What the planner of the merge queue does: what each step of it leaves alone, and what
    a plan consists of. *)

From S2P Require Import Prelude GoStrings MergeChecks MergeMarker MergePlan.

(** * Stale reasons *)

(** A member the queue still holds at its commit. *)
Definition atHead (queued : gmap Z QueuedPR) (m : Member) : Prop :=
  ∃ pr : QueuedPR, queued !! m_Number m = Some pr ∧ HeadSHA pr = m_SHA m.

Lemma staleMember_fresh members queued :
  staleMember members queued = ""%string ↔ Forall (atHead queued) members.
Proof.
  induction members as [|m members IH]; simpl; [by split; auto |].
  rewrite Forall_cons, <- IH. unfold atHead. split.
  - destruct (queued !! m_Number m) as [pr|]; [|easy].
    destruct (String.eqb_spec (HeadSHA pr) (m_SHA m)); simpl; [by eauto | easy].
  - intros [(pr & -> & ->) H]. by rewrite String.eqb_refl.
Qed.

Lemma staleReason_fresh stack target queued :
  staleReason stack target queued = ""%string ↔
  st_Base stack = target ∧ Forall (atHead queued) (st_Members stack).
Proof.
  unfold staleReason. destruct (String.eqb_spec (st_Base stack) target); simpl.
  - rewrite staleMember_fresh. naive_solver.
  - split; [easy | naive_solver].
Qed.

Lemma queuedMap_in (prs : list QueuedPR) n (pr : QueuedPR) :
  queuedMap prs !! n = Some pr → pr ∈ prs ∧ Number pr = n.
Proof.
  unfold queuedMap. assert (Hg : ∀ m : gmap Z QueuedPR,
    fold_left (λ m (pr : QueuedPR), <[Number pr := pr]> m) prs m !! n = Some pr →
    pr ∈ prs ∧ Number pr = n ∨ m !! n = Some pr).
  { induction prs as [|p prs IH]; simpl; intros m H; [by right |].
    destruct (IH _ H) as [[Hin Hn]|Hm]; [left; split; [by right | done] |].
    destruct (decide (Number p = n)) as [<-|Hne].
    - rewrite lookup_insert_eq in Hm. injection Hm as ->. left. split; [left | done].
    - rewrite lookup_insert_ne in Hm by done. by right. }
  intros H. destruct (Hg ∅ H) as [?|He]; [done |]. by rewrite lookup_empty in He.
Qed.

Lemma queuedMap_nodup (prs : list QueuedPR) (pr : QueuedPR) :
  NoDup (map Number (map q_PR prs)) → pr ∈ prs → queuedMap prs !! Number pr = Some pr.
Proof.
  intros Hnd Hin. unfold queuedMap.
  assert (Hg : ∀ m : gmap Z QueuedPR,
    (pr ∈ prs ∨ pr ∉ prs ∧ Number pr ∉ map Number (map q_PR prs) ∧ m !! Number pr = Some pr) →
    fold_left (λ m (pr : QueuedPR), <[Number pr := pr]> m) prs m !! Number pr = Some pr).
  { clear Hin. induction prs as [|p prs IH]; simpl; intros m H; [set_solver |].
    cbn [map] in Hnd. apply NoDup_cons in Hnd as [Hp Hnd]. apply IH; [done |].
    destruct H as [Hin|(Hno & Hn & Hm)].
    - apply elem_of_cons in Hin as [->|Hin]; [|by left].
      right. split_and!; [|done | by rewrite lookup_insert_eq].
      intros Hin. apply Hp. apply list_elem_of_fmap. exists (q_PR p). split; [done |].
      apply list_elem_of_fmap. by exists p.
    - right. split_and!; [set_solver | set_solver |].
      rewrite lookup_insert_ne by set_solver. done. }
  apply Hg. by left.
Qed.

(** * The stacks with their stale reasons *)

Lemma ownStale_landed snapshot f : if_Landed f = true → ownStale snapshot f = ""%string.
Proof. unfold ownStale. by intros ->. Qed.

Definition live (e : InFlight * string) : Prop := if_Landed e.1 = false ∧ e.2 = ""%string.

(** A stack left alone in the plan is one GitHub still matches. *)
Definition fresh (snapshot : Snapshot) (f : InFlight) : Prop :=
  f ∈ Stacks snapshot ∧ if_Landed f = false
  ∧ st_Base (if_Stack f) = TargetSHA snapshot
  ∧ Forall (atHead (queuedMap (Queued snapshot))) (st_Members (if_Stack f)).

Lemma ownStale_fresh snapshot f :
  f ∈ Stacks snapshot → if_Landed f = false → ownStale snapshot f = ""%string → fresh snapshot f.
Proof.
  unfold ownStale, fresh. intros Hin HL. rewrite HL, staleReason_fresh. naive_solver.
Qed.

Lemma landsFirst_other a first i e : i ≠ a → ¬ live (landsFirst a first i e).
Proof.
  destruct e as [f st]. unfold live, landsFirst. intros Hne.
  destruct (Nat.eqb_spec i a) as [|_]; [done |]. simpl.
  destruct (if_Landed f) eqn:EL; simpl; [rewrite EL; naive_solver |].
  destruct (String.eqb_spec st ""%string) as [->|Hst]; simpl; naive_solver.
Qed.

Lemma landsFirst_fst a first i e : (landsFirst a first i e).1 = e.1.
Proof. destruct e as [f st]. unfold landsFirst. by case_match. Qed.

Lemma canAdvance_true f st :
  canAdvance (f, st) = true ↔ live (f, st) ∧ checksState f = Some StateSuccess.
Proof.
  unfold canAdvance, live. simpl. rewrite !andb_true_iff, negb_true_iff, String.eqb_eq, bool_decide_eq_true.
  done.
Qed.

Lemma elem_of_concat {A} (ls : list (list A)) x : x ∈ concat ls ↔ ∃ l, l ∈ ls ∧ x ∈ l.
Proof.
  rewrite list_elem_of_In, in_concat. split; intros (l & ? & ?); exists l;
    rewrite ?list_elem_of_In in *; by rewrite <- ?list_elem_of_In in *.
Qed.

Lemma Forall_imap {A B} (P : B → Prop) (g : nat → A → B) (l : list A) :
  (∀ i x, (i < length l)%nat → P (g i x)) → Forall P (imap g l).
Proof.
  intros H. apply Forall_lookup. intros i y. rewrite list_lookup_imap. intros Hy.
  destruct (l !! i) as [x|] eqn:E; simpl in Hy; [|done]. injection Hy as <-.
  apply H. by eapply lookup_lt_Some.
Qed.

(** Either one stack lands and no other is live, or none can land. *)
Lemma staleStacks_cases snapshot :
  (∃ e1 f e2, staleStacks snapshot = e1 ++ (f, ""%string) :: e2
     ∧ fresh snapshot f ∧ checksState f = Some StateSuccess
     ∧ Forall (λ e, ¬ live e) e1 ∧ Forall (λ e, ¬ live e) e2)
  ∨ (staleStacks snapshot = map (λ f, (f, ownStale snapshot f)) (Stacks snapshot)
     ∧ ∀ f, f ∈ Stacks snapshot → live (f, ownStale snapshot f) → checksState f ≠ Some StateSuccess).
Proof.
  unfold staleStacks. set (es := map (λ f, (f, ownStale snapshot f)) (Stacks snapshot)).
  destruct (indexFunc canAdvance es) as [a|] eqn:E; [left | right; split; [done |]].
  - apply indexFunc_Some in E as (s1 & [f st] & s2 & Hes & <- & Hx & _).
    apply canAdvance_true in Hx as [[HL Hst] HS]. simpl in HL, Hst. subst st.
    assert (Hin : (f, ""%string) ∈ es) by (rewrite Hes; set_solver).
    apply list_elem_of_fmap in Hin as (f' & [= <- Hown] & Hf).
    rewrite Hes. generalize (match (s1 ++ (f, ""%string) :: s2) !! length s1 with
      Some (f, _) => Numbers (if_Stack f) | None => [] end). intros first.
    rewrite imap_app. cbn [imap].
    exists (imap (landsFirst (length s1) first) s1), f,
           (imap (landsFirst (length s1) first ∘ (λ i, length s1 + i) ∘ S)%nat s2).
    split_and!; [| by apply ownStale_fresh | done | |].
    + f_equal. f_equal. rewrite Nat.add_0_r. unfold landsFirst at 1. by rewrite Nat.eqb_refl.
    + apply Forall_imap. intros i e Hi. apply landsFirst_other. lia.
    + apply Forall_imap. intros i e Hi. apply landsFirst_other. simpl. lia.
  - intros f Hf Hl HS. rewrite indexFunc_None in E.
    assert (canAdvance (f, ownStale snapshot f) = false) as Hc.
    { apply E. apply list_elem_of_fmap. eauto. }
    assert (canAdvance (f, ownStale snapshot f) = true) by (by apply canAdvance_true). congruence.
Qed.

Lemma staleStacks_fst snapshot : map fst (staleStacks snapshot) = Stacks snapshot.
Proof.
  unfold staleStacks. set (es := map (λ f, (f, ownStale snapshot f)) (Stacks snapshot)).
  assert (Hes : map fst es = Stacks snapshot).
  { unfold es. rewrite map_map. apply map_id. }
  rewrite <- Hes. destruct (indexFunc canAdvance es) as [a|]; [|done].
  generalize (match es !! a with Some (f, _) => Numbers (if_Stack f) | None => [] end). intros first.
  apply list_eq. intros i. rewrite !list_lookup_fmap, list_lookup_imap.
  destruct (es !! i); simpl; [|done]. by rewrite landsFirst_fst.
Qed.

Lemma staleStacks_live snapshot f st :
  (f, st) ∈ staleStacks snapshot → live (f, st) → fresh snapshot f.
Proof.
  intros Hin Hl. destruct (staleStacks_cases snapshot) as [(e1 & g & e2 & Hs & Hf & _ & H1 & H2)|[Hs _]].
  - rewrite Hs in Hin. rewrite Forall_forall in H1, H2.
    apply elem_of_app in Hin as [Hin|Hin]; [by destruct (H1 _ Hin) |].
    apply elem_of_cons in Hin as [[= -> ->]|Hin]; [done | by destruct (H2 _ Hin)].
  - rewrite Hs in Hin. apply list_elem_of_fmap in Hin as (f' & [= <- ->] & Hf).
    destruct Hl as [HL Hst]. by apply ownStale_fresh.
Qed.

(** * The loop over the stacks *)

Definition pendingEntry (e : InFlight * string) : bool :=
  negb (if_Landed e.1) && String.eqb e.2 "" && bool_decide (checksState e.1 = Some StatePending).

(** The actions of one stack. *)
Definition stackActions (snapshot : Snapshot) (e : InFlight * string) : list Action :=
  let '(f, stale) := e in
  let stack := if_Stack f in
  if if_Landed f then [ActionLanded stack]
  else if negb (String.eqb stale "") then [ActionAbandon stack stale []]
  else match checksState f with
       | Some StatePending => match BatchmateRuns f with [] => [] | runs => [ActionCancel stack runs] end
       | Some StateSuccess => [ActionAdvance stack]
       | _ => failureActions snapshot f
       end.

Lemma resolveStack_step snapshot s e :
  resolveStack snapshot s e =
  mkPlanState (ps_actions s ++ stackActions snapshot e) (ps_resolved s || negb (pendingEntry e))
    (ps_pending s ++ (if pendingEntry e then [e.1] else []))
    ((if pendingEntry e then ∅ else list_to_set (Numbers (if_Stack e.1))) ∪ ps_handled s).
Proof.
  destruct e as [f st], s as [acts res pend hand]. unfold resolveStack, stackActions, pendingEntry. simpl.
  destruct (if_Landed f); simpl; [unfold resolveWith; simpl; by rewrite orb_true_r, app_nil_r |].
  destruct (String.eqb st ""); simpl; [|unfold resolveWith; simpl; by rewrite orb_true_r, app_nil_r].
  destruct (checksState f) as [[]|]; simpl; unfold resolveWith; simpl;
    rewrite ?orb_true_r, ?orb_false_r, ?app_nil_r, ?(left_id_L ∅ (∪)); try done.
  by destruct (BatchmateRuns f); simpl; rewrite ?app_nil_r.
Qed.

Lemma resolveStack_fold snapshot es s :
  fold_left (resolveStack snapshot) es s =
  mkPlanState (ps_actions s ++ concat (map (stackActions snapshot) es))
    (ps_resolved s || existsb (negb ∘ pendingEntry) es)
    (ps_pending s ++ map fst (keep pendingEntry es))
    (list_to_set (concat (map (λ e, Numbers (if_Stack e.1)) (keep (negb ∘ pendingEntry) es))) ∪ ps_handled s).
Proof.
  revert s. induction es as [|e es IH]; intros s; simpl.
  { rewrite !app_nil_r, orb_false_r, (left_id_L ∅ (∪)). by destruct s. }
  rewrite IH, resolveStack_step. simpl. destruct (pendingEntry e); simpl;
    rewrite <- ?app_assoc, ?orb_false_r, ?orb_true_r, ?(left_id_L ∅ (∪)), ?list_to_set_app_L; simpl; try done.
  f_equal. set_solver.
Qed.

(** * The loop over the queue *)

Definition eligible (config : Config) (active handled : gset Z) (pr : QueuedPR) : bool :=
  negb (q_Landed pr || bool_decide (Number pr ∈ active) || bool_decide (Number pr ∈ handled))
  && String.eqb (ineligibleReason pr config) "".

Definition ineligible (config : Config) (active handled : gset Z) (pr : QueuedPR) : bool :=
  negb (q_Landed pr || bool_decide (Number pr ∈ active) || bool_decide (Number pr ∈ handled))
  && negb (String.eqb (ineligibleReason pr config) "").

Definition ineligibleAction (config : Config) (pr : QueuedPR) : Action :=
  ActionComment (Number pr) (ineligibleComment (ineligibleReason pr config) (cf_Label config) (Owns pr)).

Lemma addCandidate_fold config active handled prs acts cands :
  fold_left (addCandidate config active handled) prs (acts, cands) =
  (acts ++ map (ineligibleAction config) (keep (ineligible config active handled) prs),
   cands ++ keep (eligible config active handled) prs).
Proof.
  revert acts cands. induction prs as [|pr prs IH]; intros acts cands; simpl; [by rewrite !app_nil_r |].
  unfold ineligible at 1, eligible at 1.
  destruct (q_Landed pr || _ || _); simpl; [apply IH |].
  destruct (String.eqb (ineligibleReason pr config) ""); simpl; rewrite IH, <- app_assoc; done.
Qed.

Lemma takeBatch_spec batchSize taken (prs : list QueuedPR) :
  0 <= taken <= batchSize →
  takeBatch batchSize taken prs = map Number (map q_PR (take (Z.to_nat (batchSize - taken)) prs)).
Proof.
  revert taken. induction prs as [|pr prs IH]; intros taken H; simpl; [by rewrite take_nil |].
  destruct (Z.eqb_spec taken batchSize) as [->|Hne].
  - by rewrite Z.sub_diag.
  - replace (Z.to_nat (batchSize - taken)) with (S (Z.to_nat (batchSize - (taken + 1)))) by lia.
    simpl. f_equal. apply IH. lia.
Qed.

(** * The plan, part by part *)

Section plan.
Context (snapshot : Snapshot) (config : Config).

Definition entriesOf : list (InFlight * string) := staleStacks snapshot.
Definition claimedOf : gmap Z Z := fold_left claimNumbers entriesOf ∅.
Definition activeOf : gset Z :=
  list_to_set (concat (map (λ f, Numbers (if_Stack f)) (map fst (keep pendingEntry entriesOf)))).
Definition handledOf : gset Z :=
  list_to_set (concat (map (λ e, Numbers (if_Stack e.1)) (keep (negb ∘ pendingEntry) entriesOf))).
Definition candidatesOf : list QueuedPR := keep (eligible config activeOf handledOf) (Queued snapshot).

(** No stack at all: the only case in which a new one forms. *)
Definition nextOf : list Z :=
  match Stacks snapshot with
  | [] => takeBatch (cf_BatchSize config) 0 candidatesOf
  | _ => []
  end.

Definition commentsOf : list Action :=
  map (ineligibleAction config) (keep (ineligible config activeOf handledOf) (Queued snapshot))
  ++ waitingActions (drop (length nextOf) candidatesOf).

Definition resolutionsOf : list Action :=
  map (setUnclaimed claimedOf) (concat (map (stackActions snapshot) entriesOf)).

Lemma resolved_or_pending :
  negb (existsb (negb ∘ pendingEntry) entriesOf)
  && bool_decide (map fst (keep pendingEntry entriesOf) = [])
  = bool_decide (Stacks snapshot = []).
Proof.
  unfold entriesOf. rewrite <- (staleStacks_fst snapshot).
  destruct (staleStacks snapshot) as [|e es]; [done |]. simpl.
  destruct (pendingEntry e); simpl; [|done]. apply andb_false_r.
Qed.

Lemma PlanTick_parts :
  PlanTick snapshot config =
  mkPlan (resolutionsOf ++ commentsOf
          ++ match nextOf with [] => [] | _ => [ActionForm nextOf (TargetSHA snapshot)] end)
    (negb (existsb (negb ∘ pendingEntry) entriesOf) && bool_decide (nextOf = [])).
Proof.
  unfold PlanTick. rewrite resolveStack_fold. cbn [ps_actions ps_resolved ps_pending ps_handled].
  rewrite (right_id_L ∅ (∪)). cbn [app]. rewrite addCandidate_fold. cbn [app orb].
  fold entriesOf claimedOf activeOf handledOf candidatesOf.
  rewrite resolved_or_pending.
  assert (Hn : (if bool_decide (Stacks snapshot = []) then takeBatch (cf_BatchSize config) 0 candidatesOf
                else []) = nextOf).
  { unfold nextOf. by destruct (Stacks snapshot). }
  rewrite Hn. f_equal. unfold commentsOf. fold resolutionsOf. rewrite <- !app_assoc.
  destruct nextOf; by rewrite ?app_nil_r, <- ?app_assoc.
Qed.

Lemma commentsOf_comments a : a ∈ commentsOf → ∃ n body, a = ActionComment n body.
Proof.
  unfold commentsOf. rewrite elem_of_app. intros [H|H].
  - apply list_elem_of_fmap in H as (pr & -> & _). by eexists _, _.
  - unfold waitingActions in H. apply elem_of_lookup_imap in H as (i & pr & -> & _). by eexists _, _.
Qed.

(** Where an action of the plan comes from. *)
Lemma plan_action a :
  a ∈ Actions (PlanTick snapshot config) →
  (∃ e, e ∈ entriesOf ∧ a ∈ map (setUnclaimed claimedOf) (stackActions snapshot e))
  ∨ (∃ n body, a = ActionComment n body)
  ∨ (Stacks snapshot = [] ∧ nextOf ≠ [] ∧ a = ActionForm nextOf (TargetSHA snapshot)).
Proof.
  rewrite PlanTick_parts. cbn [Actions]. rewrite !elem_of_app. intros [H|[H|H]].
  - left. unfold resolutionsOf in H. rewrite concat_map, map_map in H.
    apply elem_of_concat in H as (l & Hl & Ha). apply list_elem_of_fmap in Hl as (e & -> & He). eauto.
  - right. left. by apply commentsOf_comments.
  - right. right. unfold nextOf in *. destruct (Stacks snapshot); [|by apply not_elem_of_nil in H].
    destruct (takeBatch _ _ _) eqn:E; [by apply not_elem_of_nil in H |].
    apply list_elem_of_singleton in H. done.
Qed.

(** An action other than a comment or an abandonment comes unchanged from its stack. *)
Lemma plan_stack_action a :
  a ∈ Actions (PlanTick snapshot config) →
  match a with
  | ActionComment _ _ | ActionForm _ _ => True
  | ActionAbandon _ _ _ | ActionLanded _ => True
  | _ => ∃ f, fresh snapshot f ∧ a ∈ stackActions snapshot (f, ""%string)
  end.
Proof.
  intros Ha. apply plan_action in Ha as [([f st] & He & Ha)|[(n & body & ->)|(_ & _ & ->)]]; [|done..].
  apply list_elem_of_fmap in Ha as (b & -> & Hb).
  assert (Hcase : (∃ s, b = ActionLanded s) ∨ (∃ s r p, b = ActionAbandon s r p) ∨ live (f, st)).
  { unfold stackActions in Hb. unfold live. simpl. destruct (if_Landed f); [set_solver |].
    destruct (String.eqb_spec st ""%string) as [->|]; [auto |]. simpl in Hb. set_solver. }
  destruct Hcase as [(s & ->)|[(s & r & p & ->)|Hl]]; [done.. |].
  assert (Hst : st = ""%string) by apply Hl. subst st.
  pose proof (staleStacks_live _ _ _ He Hl) as Hf.
  destruct b; simpl; try done; exists f; done.
Qed.
End plan.

(** * What a plan consists of *)

(** * Landing *)

(** Actions that neither move a branch nor re-run, reject or form anything. *)
Definition bookkeeping (a : Action) : Prop :=
  match a with ActionLanded _ | ActionAbandon _ _ _ | ActionComment _ _ => True | _ => False end.

Lemma bookkeeping_dead snapshot claimed es :
  Forall (λ e, ¬ live e) es →
  Forall bookkeeping (map (setUnclaimed claimed) (concat (map (stackActions snapshot) es))).
Proof.
  intros H. rewrite Forall_forall. intros a Ha. apply list_elem_of_fmap in Ha as (b & -> & Hb).
  apply elem_of_concat in Hb as (l & Hl & Hb). apply list_elem_of_fmap in Hl as ([f st] & -> & He).
  rewrite Forall_forall in H. specialize (H _ He). unfold live, stackActions in *. simpl in H.
  destruct (if_Landed f); [apply list_elem_of_singleton in Hb as ->; done |].
  destruct (String.eqb_spec st ""%string) as [->|]; [naive_solver |].
  simpl in Hb. apply list_elem_of_singleton in Hb as ->. done.
Qed.

Lemma bookkeeping_comments snapshot config : Forall bookkeeping (commentsOf snapshot config).
Proof.
  rewrite Forall_forall. intros a Ha. apply commentsOf_comments in Ha as (n & body & ->). done.
Qed.

Lemma stackActions_advance snapshot f stack :
  ActionAdvance stack ∈ stackActions snapshot (f, ""%string) →
  stack = if_Stack f ∧ checksState f = Some StateSuccess.
Proof.
  unfold stackActions, failureActions. simpl. intros H.
  repeat case_match; rewrite ?elem_of_cons in H; set_solver.
Qed.

Lemma fresh_live snapshot f : fresh snapshot f → live (f, ownStale snapshot f).
Proof.
  intros (Hin & HL & Hb & Hm). split; [done |]. simpl. unfold ownStale. rewrite HL.
  by apply staleReason_fresh.
Qed.

(** Where a landing comes from. *)
Lemma plan_advance_origin snapshot config stack :
  ActionAdvance stack ∈ Actions (PlanTick snapshot config) →
  ∃ f, fresh snapshot f ∧ if_Stack f = stack ∧ checksState f = Some StateSuccess.
Proof.
  intros Ha. pose proof (plan_stack_action _ _ _ Ha) as (f & Hf & Hadv).
  apply stackActions_advance in Hadv as [-> HS]. by exists f.
Qed.

(** Beside a landing there is only bookkeeping. *)
Lemma plan_advance_alone snapshot config stack :
  ActionAdvance stack ∈ Actions (PlanTick snapshot config) →
  ∃ l1 l2, Actions (PlanTick snapshot config) = l1 ++ ActionAdvance stack :: l2
           ∧ Forall bookkeeping l1 ∧ Forall bookkeeping l2.
Proof.
  intros Ha. destruct (plan_advance_origin _ _ _ Ha) as (f & Hf & <- & HS).
  destruct (staleStacks_cases snapshot) as [(e1 & g & e2 & Hs & Hg & HgS & H1 & H2)|[_ Hno]].
  2: { destruct (Hno f); [apply Hf | by apply fresh_live | done]. }
  rewrite PlanTick_parts in Ha |- *. cbn [Actions] in *.
  assert (Hn : nextOf snapshot config = []).
  { unfold nextOf. destruct Hf as [Hin _]. by destruct (Stacks snapshot); [apply not_elem_of_nil in Hin |]. }
  rewrite Hn, app_nil_r in *. unfold resolutionsOf, entriesOf in *. rewrite Hs in *.
  rewrite map_app, concat_app, map_app in *. cbn [map concat] in *.
  assert (Hself : stackActions snapshot (g, ""%string) = [ActionAdvance (if_Stack g)]).
  { unfold stackActions. destruct Hg as (_ & -> & _). by rewrite HgS. }
  rewrite Hself in *. cbn [map app setUnclaimed] in *.
  pose proof (bookkeeping_dead snapshot (claimedOf snapshot) _ H1) as B1.
  pose proof (bookkeeping_dead snapshot (claimedOf snapshot) _ H2) as B2.
  pose proof (bookkeeping_comments snapshot config) as B3.
  assert (Heq : if_Stack g = if_Stack f).
  { rewrite !elem_of_app, elem_of_cons in Ha. rewrite Forall_forall in B1, B2, B3.
    destruct Ha as [[Ha|[[= Ha]|Ha]]|Ha]; [by specialize (B1 _ Ha) | done | by specialize (B2 _ Ha) | by specialize (B3 _ Ha)]. }
  rewrite <- Heq, <- app_assoc. cbn [app]. eexists _, _. split; [done |]. split; [done |].
  by apply Forall_app.
Qed.

(** The target moves at most once per tick, and only to a stack that is in
    the snapshot, not landed yet, based on the target's current commit, whose
    members are all queued at exactly the recorded commits and whose required
    checks all passed.  The rest of that tick's plan is bookkeeping: no stack
    forms, retries, splits or is rejected beside a landing. *)
Theorem plan_lands_one snapshot config stack :
  ActionAdvance stack ∈ Actions (PlanTick snapshot config) →
  (∃ f, fresh snapshot f ∧ if_Stack f = stack ∧ checksState f = Some StateSuccess)
  ∧ ∃ l1 l2, Actions (PlanTick snapshot config) = l1 ++ ActionAdvance stack :: l2
             ∧ Forall bookkeeping l1 ∧ Forall bookkeeping l2.
Proof. intros Ha. split; [eapply plan_advance_origin | eapply plan_advance_alone]; exact Ha. Qed.

(** * Forming *)

(** A pull request that may join a new stack. *)
Definition joinable (config : Config) (pr : QueuedPR) : bool :=
  negb (q_Landed pr) && SameRepo pr && negb (Draft pr)
  && String.eqb (BaseRef pr) (cf_Target config) && LabelerCanWrite pr.

Lemma eligible_joinable config (pr : QueuedPR) : eligible config ∅ ∅ pr = joinable config pr.
Proof.
  unfold eligible, joinable, ineligibleReason.
  rewrite !bool_decide_eq_false_2 by set_solver.
  destruct (q_Landed pr), (SameRepo pr), (Draft pr), (String.eqb (BaseRef pr) (cf_Target config)),
    (LabelerCanWrite pr); reflexivity.
Qed.

Lemma candidates_joinable snapshot config :
  Stacks snapshot = [] → candidatesOf snapshot config = keep (joinable config) (Queued snapshot).
Proof.
  intros Hs. unfold candidatesOf, activeOf, handledOf, entriesOf, staleStacks. rewrite Hs. simpl.
  apply keep_ext. intros pr _. apply eligible_joinable.
Qed.

Lemma next_batch snapshot config :
  Stacks snapshot = [] → 1 <= cf_BatchSize config →
  nextOf snapshot config =
  map Number (map q_PR (take (Z.to_nat (cf_BatchSize config)) (keep (joinable config) (Queued snapshot)))).
Proof.
  intros Hs Hb. unfold nextOf. rewrite candidates_joinable, Hs by done.
  rewrite takeBatch_spec by lia. by rewrite Z.sub_0_r.
Qed.

(** C39: With no stack in flight the tick forms the next one: the oldest
    eligible pull requests, in queue order, as many as a batch holds, on the
    target's current commit; every other action is a status comment, and the
    tick is idle exactly when no pull request is eligible. *)
Theorem plan_forms_next snapshot config :
  Stacks snapshot = [] → 1 <= cf_BatchSize config →
  let batch := take (Z.to_nat (cf_BatchSize config)) (keep (joinable config) (Queued snapshot)) in
  ∃ comments, Forall (λ a, ∃ n body, a = ActionComment n body) comments
    ∧ Actions (PlanTick snapshot config) =
      comments ++ match batch with
                  | [] => []
                  | _ => [ActionForm (map Number (map q_PR batch)) (TargetSHA snapshot)]
                  end
    ∧ Idle (PlanTick snapshot config) = bool_decide (batch = []).
Proof.
  intros Hs Hb batch. rewrite PlanTick_parts. cbn [Actions Idle].
  rewrite next_batch by done. fold batch.
  assert (He : entriesOf snapshot = []) by (unfold entriesOf, staleStacks; by rewrite Hs).
  exists (commentsOf snapshot config). unfold resolutionsOf. rewrite He. cbn. split_and!.
  - rewrite Forall_forall. intros a. apply commentsOf_comments.
  - by destruct batch.
  - by destruct batch.
Qed.

(** * Failures *)

(** A stack GitHub still matches whose checks failed, and which was retried
    already or has nothing to re-run. *)
Definition failedFinally (snapshot : Snapshot) (f : InFlight) : Prop :=
  fresh snapshot f ∧ checksState f ≠ Some StatePending ∧ checksState f ≠ Some StateSuccess
  ∧ (st_Retry (if_Stack f) ≠ 0 ∨ RerunIDs f = []).

Lemma failureActions_cases snapshot f :
  let stack := if_Stack f in
  (st_Retry stack = 0 ∧ RerunIDs f ≠ []
   ∧ ∃ reason, failureActions snapshot f = [ActionRetry (retriedStack stack (sn_Now snapshot)) (RerunIDs f) reason])
  ∨ (st_Retry stack ≠ 0 ∨ RerunIDs f = []) ∧
    ((∃ m reason, st_Members stack = [m]
        ∧ failureActions snapshot f = [ActionReject stack (m_Number m) reason (failingURLs f)])
     ∨ (length (st_Members stack) ≠ 1%nat ∧ ∃ reason, failureActions snapshot f =
        [ActionSplit stack reason; ActionForm (Split (Numbers stack)).1 (st_Base stack);
         ActionForm (Split (Numbers stack)).2 (st_Base stack)])).
Proof.
  intros stack. unfold failureActions. fold stack.
  destruct (Z.eqb_spec (st_Retry stack) 0) as [HR|HR]; simpl;
    [destruct (decide (RerunIDs f = [])) as [HI|HI];
       [rewrite bool_decide_eq_true_2 by done | rewrite bool_decide_eq_false_2 by done] |]; simpl.
  2: { left. eauto. }
  all: right; split; [tauto |]; destruct (Split (Numbers stack)) as [front back] eqn:ES;
    destruct (st_Members stack) as [|m [|m' ms]] eqn:EM; [right | left | right]; simpl; eauto.
Qed.

Lemma stackActions_failed snapshot f a :
  a ∈ stackActions snapshot (f, ""%string) → if_Landed f = false →
  match a with
  | ActionRetry _ _ _ | ActionReject _ _ _ _ | ActionSplit _ _ | ActionForm _ _ =>
      a ∈ failureActions snapshot f ∧ checksState f ≠ Some StatePending ∧ checksState f ≠ Some StateSuccess
  | _ => True
  end.
Proof.
  unfold stackActions. intros H HL. rewrite HL in H. simpl in H.
  destruct (checksState f) as [[]|]; [destruct (BatchmateRuns f) | | |];
    try (apply not_elem_of_nil in H; done); try (apply list_elem_of_singleton in H as ->; done);
    by destruct a.
Qed.

(** A failed stack retries at most once, only when a failed run can be
    re-run, and the retry only marks the stack as retried; a pull request is
    rejected only when it was alone on a stack that failed for good, and a
    stack is split only when it failed for good with several members. *)
Theorem plan_failure_outcomes snapshot config a :
  a ∈ Actions (PlanTick snapshot config) →
  match a with
  | ActionRetry stack ids _ =>
      ∃ f, fresh snapshot f ∧ st_Retry (if_Stack f) = 0 ∧ ids = RerunIDs f ∧ ids ≠ []
           ∧ checksState f ≠ Some StateSuccess ∧ stack = retriedStack (if_Stack f) (sn_Now snapshot)
  | ActionReject stack n _ _ =>
      ∃ f m, failedFinally snapshot f ∧ stack = if_Stack f ∧ st_Members stack = [m] ∧ n = m_Number m
  | ActionSplit stack _ =>
      ∃ f, failedFinally snapshot f ∧ stack = if_Stack f ∧ length (st_Members stack) ≠ 1%nat
  | _ => True
  end.
Proof.
  intros Ha. pose proof (plan_stack_action _ _ _ Ha) as Hs.
  destruct a; try done; destruct Hs as (f & Hf & Hs);
    pose proof (stackActions_failed _ _ _ Hs ltac:(apply Hf)) as (Hin & Hp & HS);
    destruct (failureActions_cases snapshot f) as [(HR & HI & reason' & E)|[HR [(m & reason' & HM & E)|(HM & reason' & E)]]];
    rewrite E in Hin; apply list_elem_of_In in Hin; simpl in Hin; destruct_or? Hin;
    simplify_eq; unfold failedFinally; eauto 10.
Qed.

(** * Bisection *)

Lemma Split_app prs : (Split prs).1 ++ (Split prs).2 = prs.
Proof. unfold Split. case_bool; simpl; [apply app_nil_r | apply take_drop]. Qed.

Lemma Split_lengths prs :
  (2 <= length prs)%nat →
  length (Split prs).1 = Nat.div (length prs + 1) 2
  ∧ (1 <= length (Split prs).2 <= length (Split prs).1)%nat
  ∧ (length (Split prs).1 < length prs)%nat.
Proof.
  intros H. unfold Split. destruct (Nat.ltb_spec (length prs) 2); [lia |]. cbn [fst snd].
  rewrite length_take, length_drop.
  pose proof (Nat.div_mod (length prs + 1) 2 ltac:(lia)).
  pose proof (Nat.mod_upper_bound (length prs + 1) 2 ltac:(lia)). lia.
Qed.

Lemma Split_half prs k : (length prs <= 2 ^ S k)%nat → (length (Split prs).1 <= 2 ^ k ∧ length (Split prs).2 <= 2 ^ k)%nat.
Proof.
  intros H. rewrite Nat.pow_succ_r' in H. pose proof (Nat.pow_nonzero 2 k ltac:(lia)).
  destruct (decide (2 <= length prs)%nat) as [H2|H2].
  - destruct (Split_lengths prs H2) as (H1 & ? & ?).
    pose proof (Nat.div_mod (length prs + 1) 2 ltac:(lia)). lia.
  - unfold Split. destruct (Nat.ltb_spec (length prs) 2); [simpl; lia | lia].
Qed.

(** One round of rebuilding every failed part in two halves. *)
Definition halve (prs : list Z) : list (list Z) :=
  if (length prs <? 2)%nat then [prs] else [(Split prs).1; (Split prs).2].
Definition bisectRound (parts : list (list Z)) : list (list Z) := concat (map halve parts).

Lemma bisectRound_concat parts : concat (bisectRound parts) = concat parts.
Proof.
  unfold bisectRound. induction parts as [|p parts IH]; simpl; [done |].
  rewrite concat_app, IH. f_equal. unfold halve. case_bool; simpl; rewrite app_nil_r; [done |].
  apply Split_app.
Qed.

Lemma bisectRound_bound parts k :
  Forall (λ p, length p <= 2 ^ S k)%nat parts → Forall (λ p, length p <= 2 ^ k)%nat (bisectRound parts).
Proof.
  unfold bisectRound. induction 1 as [|p parts Hp _ IH]; simpl; [done |].
  apply Forall_app. split; [|done]. unfold halve.
  destruct (Nat.ltb_spec (length p) 2) as [H2|H2].
  - apply Forall_singleton. pose proof (Nat.pow_nonzero 2 k ltac:(lia)). lia.
  - destruct (Split_half p k Hp). repeat constructor; done.
Qed.

(** C40: Bisection loses no pull request, keeps the order, and isolates every
    one of them after as many rounds as the logarithm of the batch: four for
    the largest batch the configuration allows. *)
Theorem bisection_isolates k prs :
  (length prs <= 2 ^ k)%nat →
  let parts := Nat.iter k bisectRound [prs] in
  concat parts = prs ∧ Forall (λ p, length p <= 1)%nat parts.
Proof.
  intros H. cbn zeta. split.
  - clear H. induction k as [|k IH]; simpl; [apply app_nil_r | by rewrite bisectRound_concat].
  - assert (Hj : ∀ j, (j <= k)%nat → Forall (λ p, length p <= 2 ^ (k - j))%nat (Nat.iter j bisectRound [prs])).
    { induction j as [|j IH]; intros Hj; simpl.
      - rewrite Nat.sub_0_r. by apply Forall_singleton.
      - apply bisectRound_bound. replace (S (k - S j)) with (k - j)%nat by lia. apply IH. lia. }
    specialize (Hj k ltac:(lia)). by rewrite Nat.sub_diag in Hj.
Qed.

Lemma bisection_isolates_witness :
  let parts := Nat.iter 4 bisectRound [[1; 2; 3; 4; 5; 6; 7; 8; 9; 10]] in
  concat parts = [1; 2; 3; 4; 5; 6; 7; 8; 9; 10] ∧ Forall (λ p, length p <= 1)%nat parts.
Proof. apply (bisection_isolates 4). simpl. lia. Defined.

(** * What may be formed *)

Lemma atHead_queued snapshot stack n :
  Forall (atHead (queuedMap (Queued snapshot))) (st_Members stack) → n ∈ Numbers stack →
  ∃ pr : QueuedPR, pr ∈ Queued snapshot ∧ Number pr = n.
Proof.
  intros H Hn. apply list_elem_of_fmap in Hn as (m & -> & Hm).
  rewrite Forall_forall in H. destruct (H m Hm) as (pr & Hpr & _).
  apply queuedMap_in in Hpr as [? ?]. eauto.
Qed.

Lemma plan_form_origin snapshot config prs base :
  ActionForm prs base ∈ Actions (PlanTick snapshot config) →
  (Stacks snapshot = [] ∧ prs = nextOf snapshot config ∧ prs ≠ [] ∧ base = TargetSHA snapshot)
  ∨ ∃ f, failedFinally snapshot f ∧ length (st_Members (if_Stack f)) ≠ 1%nat ∧ base = st_Base (if_Stack f)
         ∧ (prs = (Split (Numbers (if_Stack f))).1 ∨ prs = (Split (Numbers (if_Stack f))).2).
Proof.
  intros Ha. apply plan_action in Ha as [([f st] & He & Ha)|[(n & body & Ha)|(Hs & Hn & [= -> ->])]];
    [right | done | by left].
  apply list_elem_of_fmap in Ha as (b & Hb & Ha). destruct b; simpl in Hb; try discriminate. simplify_eq.
  assert (Hl : live (f, st)).
  { unfold stackActions in Ha. unfold live. simpl. destruct (if_Landed f); [set_solver |].
    destruct (String.eqb_spec st ""%string) as [->|]; [done |]. simpl in Ha. set_solver. }
  assert (Hst : st = ""%string) by apply Hl. subst st.
  pose proof (staleStacks_live _ _ _ He Hl) as Hf.
  pose proof (stackActions_failed _ _ _ Ha ltac:(apply Hf)) as (Hin & Hp & HS).
  exists f. destruct (failureActions_cases snapshot f) as [(HR & HI & r & E)|[HR [(m & r & HM & E)|(HM & r & E)]]];
    rewrite E in Hin; apply list_elem_of_In in Hin; simpl in Hin; destruct_or? Hin; simplify_eq;
    unfold failedFinally; eauto 10.
Qed.

(** Every stack a tick forms is built on the target's current commit from
    queued pull requests: it is the next batch when nothing is in flight, never
    larger than the batch size, or one half of a stack that failed for good. *)
Theorem plan_forms_sound snapshot config prs base :
  Forall (λ f, st_Members (if_Stack f) ≠ []) (Stacks snapshot) → 1 <= cf_BatchSize config →
  ActionForm prs base ∈ Actions (PlanTick snapshot config) →
  base = TargetSHA snapshot ∧ prs ≠ []
  ∧ (∀ n, n ∈ prs → ∃ pr : QueuedPR, pr ∈ Queued snapshot ∧ Number pr = n)
  ∧ (Stacks snapshot = [] ∧ Z.of_nat (length prs) <= cf_BatchSize config
     ∨ ∃ f, failedFinally snapshot f ∧ (length prs < length (st_Members (if_Stack f)))%nat
            ∧ ∃ rest, Numbers (if_Stack f) = prs ++ rest ∨ Numbers (if_Stack f) = rest ++ prs).
Proof.
  intros Hne Hb Ha. apply plan_form_origin in Ha as [(Hs & -> & Hn & ->)|(f & Hf & Hlen & -> & Hp)].
  - split_and!; [done | done | | left; split; [done |]]; rewrite next_batch by done.
    + intros n Hin. apply list_elem_of_fmap in Hin as (pr & -> & Hin).
      apply list_elem_of_fmap in Hin as (q & -> & Hin). exists q. split; [|done].
      apply elem_of_take in Hin as (i & Hin & _). apply list_elem_of_lookup_2, elem_of_keep in Hin. tauto.
    + rewrite !length_map, length_take. lia.
  - pose proof Hf as ((Hin & HL & Hbase & Hm) & _). rewrite Forall_forall in Hne. specialize (Hne f Hin).
    assert (H2 : (2 <= length (Numbers (if_Stack f)))%nat).
    { unfold Numbers. rewrite length_map. destruct (st_Members (if_Stack f)) as [|? [|? ?]]; simpl in *; [done | done | lia]. }
    pose proof (Split_lengths _ H2) as (_ & [? ?] & ?). pose proof (Split_app (Numbers (if_Stack f))) as Happ.
    assert (Hlen' : length (Numbers (if_Stack f)) = length (st_Members (if_Stack f))) by apply length_map.
    split_and!; [done | | | right; exists f; split_and!; [done | | ]].
    + intros ->. destruct Hp as [Hp|Hp]; rewrite <- Hp in *; simpl in *; lia.
    + intros n Hn. apply (atHead_queued snapshot (if_Stack f)); [done |]. rewrite <- Happ, elem_of_app.
      destruct Hp as [->| ->]; auto.
    + destruct Hp as [->| ->]; lia.
    + destruct Hp as [->| ->]; eexists; [left | right]; by rewrite Happ.
Qed.

(** * Idle ticks *)

Definition quiet (a : Action) : Prop :=
  match a with ActionComment _ _ | ActionCancel _ _ => True | _ => False end.

Lemma stackActions_quiet snapshot claimed e :
  Forall quiet (map (setUnclaimed claimed) (stackActions snapshot e)) ↔ pendingEntry e = true.
Proof.
  destruct e as [f st]. unfold stackActions, pendingEntry. simpl.
  destruct (if_Landed f); simpl; [rewrite Forall_singleton; done |].
  destruct (String.eqb st ""); simpl; [|rewrite Forall_singleton; done].
  destruct (checksState f) as [[]|] eqn:EC; simpl; try (rewrite Forall_singleton; done).
  1: { destruct (BatchmateRuns f); simpl; rewrite ?Forall_singleton; done. }
  all: destruct (failureActions_cases snapshot f) as [(_ & _ & r & ->)|[_ [(m & r & _ & ->)|(_ & r & ->)]]];
    simpl; rewrite ?Forall_cons; simpl; intuition done.
Qed.

(** A tick is idle exactly when its plan holds nothing but status comments
    and cancellations of runs a stack in flight makes redundant. *)
Theorem plan_idle_iff snapshot config :
  Idle (PlanTick snapshot config) = true ↔ Forall quiet (Actions (PlanTick snapshot config)).
Proof.
  rewrite PlanTick_parts. cbn [Actions Idle]. rewrite !Forall_app, andb_true_iff, negb_true_iff, bool_decide_eq_true.
  unfold resolutionsOf. rewrite existsb_false.
  assert (Hc : Forall quiet (commentsOf snapshot config)).
  { rewrite Forall_forall. intros a Ha. apply commentsOf_comments in Ha as (n & body & ->). done. }
  assert (He : Forall quiet (map (setUnclaimed (claimedOf snapshot))
                 (concat (map (stackActions snapshot) (entriesOf snapshot)))) ↔
               ∀ e, e ∈ entriesOf snapshot → (negb ∘ pendingEntry) e = false).
  { rewrite concat_map, map_map. rewrite !Forall_forall. setoid_rewrite elem_of_concat. split.
    - intros H e He. apply negb_false_iff, (stackActions_quiet snapshot (claimedOf snapshot)).
      rewrite Forall_forall. intros a Ha. apply H. eexists. split; [|done].
      apply list_elem_of_fmap. eauto.
    - intros H a (l & Hl & Ha). apply list_elem_of_fmap in Hl as (e & -> & He).
      apply H, negb_false_iff, (stackActions_quiet snapshot (claimedOf snapshot)) in He.
      rewrite Forall_forall in He. by apply He. }
  rewrite He. destruct (nextOf snapshot config) as [|n ns]; [intuition done |].
  rewrite Forall_singleton. simpl. intuition done.
Qed.

(** * Examples *)

Module PlanDemo.
Definition pr (n : Z) (sha : string) : QueuedPR :=
  mkQueuedPR (mkPR n sha "branch" "main" true false (n * Second) "alice") true [] false.

Definition config : Config := WithDefaults (mkConfig "" "" 2 [] 0).

Definition stack (retry : Z) : Stack := mkStack "aaa" [mkMember 1 "b1"; mkMember 2 "b2"] retry (100 * Second).
Definition status (s : checkState) : Status := mkStatus s [] [] [].

Definition inFlight (retry : Z) (s : checkState) (rerun mates : list Z) : InFlight :=
  mkInFlight (stack retry) false (Some (status s)) rerun mates.

Definition snapshot (stacks : list InFlight) : Snapshot :=
  mkSnapshot (200 * Second) "aaa" [pr 1 "b1"; pr 2 "b2"; pr 3 "b3"] stacks.
End PlanDemo.

Lemma plan_lands_one_witness :
  let sn := PlanDemo.snapshot [PlanDemo.inFlight 0 StateSuccess [] []; PlanDemo.inFlight 0 StatePending [] [7]] in
  (∃ f, fresh sn f ∧ if_Stack f = PlanDemo.stack 0 ∧ checksState f = Some StateSuccess)
  ∧ ∃ l1 l2, Actions (PlanTick sn PlanDemo.config) = l1 ++ ActionAdvance (PlanDemo.stack 0) :: l2
             ∧ Forall bookkeeping l1 ∧ Forall bookkeeping l2.
Proof. apply (plan_lands_one _ PlanDemo.config). vm_compute. left. Defined.

Lemma plan_forms_next_witness :
  let sn := PlanDemo.snapshot [] in
  let batch := take 2 (keep (joinable PlanDemo.config) (Queued sn)) in
  ∃ comments, Forall (λ a, ∃ n body, a = ActionComment n body) comments
    ∧ Actions (PlanTick sn PlanDemo.config) =
      comments ++ match batch with
                  | [] => []
                  | _ => [ActionForm (map Number (map q_PR batch)) (TargetSHA sn)]
                  end
    ∧ Idle (PlanTick sn PlanDemo.config) = bool_decide (batch = []).
Proof. apply (plan_forms_next (PlanDemo.snapshot []) PlanDemo.config); [reflexivity | vm_compute; discriminate]. Defined.

Lemma plan_failure_outcomes_witness :
  let sn := PlanDemo.snapshot [PlanDemo.inFlight 0 StateFailure [9] []] in
  ∃ f, fresh sn f ∧ st_Retry (if_Stack f) = 0 ∧ [9] = RerunIDs f ∧ [9] ≠ []
       ∧ checksState f ≠ Some StateSuccess
       ∧ retriedStack (PlanDemo.stack 0) (200 * Second) = retriedStack (if_Stack f) (sn_Now sn).
Proof.
  apply (plan_failure_outcomes (PlanDemo.snapshot [PlanDemo.inFlight 0 StateFailure [9] []]) PlanDemo.config
    (ActionRetry (retriedStack (PlanDemo.stack 0) (200 * Second)) [9] "required checks failed: ")).
  vm_compute. left.
Defined.

Lemma plan_forms_sound_witness :
  let sn := PlanDemo.snapshot [PlanDemo.inFlight 1 StateFailure [] []] in
  "aaa"%string = TargetSHA sn ∧ [1] ≠ [] ∧ (∀ n, n ∈ [1] → ∃ pr : QueuedPR, pr ∈ Queued sn ∧ Number pr = n)
  ∧ (Stacks sn = [] ∧ Z.of_nat (length [1]) <= cf_BatchSize PlanDemo.config
     ∨ ∃ f, failedFinally sn f ∧ (length [1] < length (st_Members (if_Stack f)))%nat
            ∧ ∃ rest, Numbers (if_Stack f) = [1] ++ rest ∨ Numbers (if_Stack f) = rest ++ [1]).
Proof.
  apply (plan_forms_sound _ PlanDemo.config); [by repeat constructor | vm_compute; discriminate |].
  vm_compute. right. left.
Defined.

(** A pending stack's redundant runs are cancelled by a tick reported as idle. *)
Example idle_tick_cancels :
  let plan := PlanTick (PlanDemo.snapshot [PlanDemo.inFlight 0 StatePending [] [7; 8]]) PlanDemo.config in
  Idle plan = true ∧ ActionCancel (PlanDemo.stack 0) [7; 8] ∈ Actions plan.
Proof. split; [reflexivity |]. vm_compute. left. Qed.
