(* ===== verification/MergeSnapshot.v ===== *)
(** Reading a snapshot of GitHub (src/mergequeue/snapshot.go), and the GitHub
    and Git interfaces a tick runs against (src/mergequeue/mergequeue.go).

    Every call to an interface is one action that appends the call and its
    answer to a trace; the answer may depend on everything that happened
    before.  The two interfaces, the clock, the cancellation of the context and
    the YAML decoder are the parameters of the class [MQEnv]. *)

From S2P Require Import Prelude Program GoStrings Provider MergeChecks MergeMarker MergePlan.

#[local] Open Scope string_scope.

(** * The interfaces *)

(** [WorkflowRun] *)
Record WorkflowRun := mkWorkflowRun {
  wr_ID : Z; wr_Event : string; wr_Status : string; wr_Conclusion : string; wr_SuiteID : Z
}.

(** [BranchUpdate] *)
Record BranchUpdate := mkBranchUpdate { Branch : string; bu_SHA : string; Expected : string }.

(** A call of the [GitHub] or [Git] interface with its answer. *)
Inductive event :=
  | didResolveBranch (branch : string) (r : error + string)
  | didReadFile (path : string) (r : error + string)
  | didQueuedPRs (label : string) (r : error + list PR)
  | didCanWrite (login : string) (r : error + bool)
  | didStatusComment (number : Z) (botLogin : string) (r : error + string)
  | didUpsertStatusComment (number : Z) (botLogin body : string) (e : option error)
  | didChangedFiles (number : Z) (r : error + list string)
  | didCheckRuns (sha : string) (r : error + list CheckRun)
  | didWorkflowRuns (sha : string) (r : error + list WorkflowRun)
  | didCompare (ancestor descendant : string) (r : error + bool)
  | didCancelRun (id : Z) (e : option error)
  | didRerunFailedJobs (id : Z) (e : option error)
  | didRemoveLabel (number : Z) (label : string) (e : option error)
  | didOpenGit (target : string) (e : option error)
  | didFetch (ref : string) (r : error + string)
  | didIsAncestor (ancestor descendant : string) (r : error + bool)
  | didRebase (onto upstream head : string) (r : error + string)
  | didPushBranches (updates : list BranchUpdate) (e : option error)
  | didFastForward (branch sha : string) (e : option error)
  | didNow (t : time)
  | didWait (d : duration) (cancelled : bool).

Class MQEnv := {
  ask_ResolveBranch : list event → string → error + string;
  ask_ReadFile : list event → string → error + string;
  ask_QueuedPRs : list event → string → error + list PR;
  ask_CanWrite : list event → string → error + bool;
  ask_StatusComment : list event → Z → string → error + string;
  ask_UpsertStatusComment : list event → Z → string → string → option error;
  ask_ChangedFiles : list event → Z → error + list string;
  ask_CheckRuns : list event → string → error + list CheckRun;
  ask_WorkflowRuns : list event → string → error + list WorkflowRun;
  ask_Compare : list event → string → string → error + bool;
  ask_CancelRun : list event → Z → option error;
  ask_RerunFailedJobs : list event → Z → option error;
  ask_RemoveLabel : list event → Z → string → option error;
  ask_OpenGit : list event → string → option error;
  ask_Fetch : list event → string → error + string;
  ask_IsAncestor : list event → string → string → error + bool;
  ask_Rebase : list event → string → string → string → error + string;
  ask_PushBranches : list event → list BranchUpdate → option error;
  ask_FastForward : list event → string → string → option error;
  ask_Now : list event → time;
  ask_Wait : list event → duration → bool;
  decodeYAML : string → option configFile
}.

(** * The state of a tick *)

(** [Report] *)
Record Report := mkReport {
  Formed : list (list Z); Landed : list (list Z); Retried : list (list Z); SplitStacks : list (list Z);
  Abandoned : list (list Z); Rejected : list Z; Deferred : list (list Z); r_Idle : bool
}.

(** The trace, and the mutable fields of the [applier]: [git], nil until the
    clone is opened, and [report].  [mq_stuck] tells that a loop of the model
    ran out of fuel, which never happens. *)
Record mq := mkMq { mq_trace : list event; mq_git : bool; mq_report : Report; mq_stuck : bool }.

Definition mq_log (e : event) (s : mq) : mq :=
  mkMq (app (mq_trace s) [e]) (mq_git s) (mq_report s) (mq_stuck s).

Section snapshot.
Context `{MQEnv}.

(** One call: the answer from the trace so far, then the record of it. *)
Definition call {A} (answer : list event → A) (did : A → event) : prog mq A :=
  act (λ s, let a := answer (mq_trace s) in (a, mq_log (did a) s)).

Definition ResolveBranch branch := call (λ tr, ask_ResolveBranch tr branch) (didResolveBranch branch).
Definition ReadFile path := call (λ tr, ask_ReadFile tr path) (didReadFile path).
Definition QueuedPRs label := call (λ tr, ask_QueuedPRs tr label) (didQueuedPRs label).
Definition CanWrite login := call (λ tr, ask_CanWrite tr login) (didCanWrite login).
Definition StatusComment number bot := call (λ tr, ask_StatusComment tr number bot) (didStatusComment number bot).
Definition UpsertStatusComment number bot body :=
  call (λ tr, ask_UpsertStatusComment tr number bot body) (didUpsertStatusComment number bot body).
Definition ChangedFiles number := call (λ tr, ask_ChangedFiles tr number) (didChangedFiles number).
Definition CheckRuns sha := call (λ tr, ask_CheckRuns tr sha) (didCheckRuns sha).
Definition WorkflowRuns sha := call (λ tr, ask_WorkflowRuns tr sha) (didWorkflowRuns sha).
Definition Compare a d := call (λ tr, ask_Compare tr a d) (didCompare a d).
Definition CancelRun id := call (λ tr, ask_CancelRun tr id) (didCancelRun id).
Definition RerunFailedJobs id := call (λ tr, ask_RerunFailedJobs tr id) (didRerunFailedJobs id).
Definition RemoveLabel number label := call (λ tr, ask_RemoveLabel tr number label) (didRemoveLabel number label).
Definition OpenGit target := call (λ tr, ask_OpenGit tr target) (didOpenGit target).
Definition Fetch ref := call (λ tr, ask_Fetch tr ref) (didFetch ref).
Definition IsAncestor a d := call (λ tr, ask_IsAncestor tr a d) (didIsAncestor a d).
Definition Rebase onto upstream head := call (λ tr, ask_Rebase tr onto upstream head) (didRebase onto upstream head).
Definition PushBranches updates := call (λ tr, ask_PushBranches tr updates) (didPushBranches updates).
Definition FastForward branch sha := call (λ tr, ask_FastForward tr branch sha) (didFastForward branch sha).
Definition Now := call ask_Now didNow.
Definition Wait d := call (λ tr, ask_Wait tr d) (didWait d).

(** * The queue's order *)

(** The comparison of [sortFIFO]. *)
Definition compareFIFO (a b : PR) : Z :=
  if negb (Bool.eqb (IsZero (LabeledAt a)) (IsZero (LabeledAt b))) then
    (if IsZero (LabeledAt a) then 1 else -1)%Z
  else if negb (LabeledAt a =? LabeledAt b)%Z then
    (if LabeledAt a <? LabeledAt b then -1 else 1)%Z
  else wrap64 (Number a - Number b).

(** [slices.SortStableFunc] as a stable insertion sort. *)
Fixpoint insertFIFO (pr : PR) (prs : list PR) : list PR :=
  match prs with
  | [] => [pr]
  | other :: rest => if (compareFIFO pr other <=? 0)%Z then pr :: prs else other :: insertFIFO pr rest
  end.

Definition sortFIFO (prs : list PR) : list PR := fold_right insertFIFO [] prs.

(** * A stack in flight *)

Definition activeRunStatuses (status : string) : bool :=
  existsb (String.eqb status) ["queued"; "in_progress"; "waiting"; "requested"; "pending"].
Definition rerunnableConclusions (conclusion : string) : bool :=
  existsb (String.eqb conclusion) ["failure"; "timed_out"; "cancelled"].

Definition needsFiles (checks : list RequiredCheck) : bool :=
  existsb (λ check, negb (bool_decide (rc_Paths check = []))) checks.

(** The runs of a list still queued or running for a pull request. *)
Definition pullRequestRuns (runs : list WorkflowRun) : list Z :=
  map wr_ID (keep (λ run, String.eqb (wr_Event run) "pull_request" && activeRunStatuses (wr_Status run)) runs).

Definition batchmateRuns (stack : Stack) : prog mq (error + list Z) :=
  fold_err (removelast (st_Members stack)) (λ member ids,
    runs ← WorkflowRuns (m_SHA member);
    match runs with
    | inl err => mret (inl (WrapError ("runs of #" +:+ Itoa (m_Number member)) err))
    | inr runs => mret (inr (app ids (pullRequestRuns runs)))
    end) [].

(** The files changed by the members, read only when a check needs them. *)
Definition stackFiles (config : Config) (stack : Stack) : prog mq (error + list string) :=
  if needsFiles (cf_RequiredChecks config) then
    fold_err (Numbers stack) (λ number files,
      changed ← ChangedFiles number;
      match changed with
      | inl err => mret (inl err)
      | inr changed => mret (inr (app files changed))
      end) []
  else mret (inr []).

(** The [switch] at the end of [loadInFlight]. *)
Definition loadRuns (stack : Stack) (checks : Status) : prog mq (error + InFlight) :=
  let inFlight rerun mates := mkInFlight stack false (Some checks) rerun mates in
  match State_ checks with
  | StateFailure =>
    if (0 <? st_Retry stack)%Z || bool_decide (Suites checks = []) then mret (inr (inFlight [] []))
    else
      runs ← WorkflowRuns (topSHA stack);
      match runs with
      | inl err => mret (inl err)
      | inr runs =>
          mret (inr (inFlight (map wr_ID (keep (λ run, String.eqb (wr_Status run) "completed"
            && rerunnableConclusions (wr_Conclusion run)
            && bool_decide (wr_SuiteID run ∈ Suites checks)) runs)) []))
      end
  | StatePending =>
      ids ← batchmateRuns stack;
      match ids with
      | inl err => mret (inl err)
      | inr ids => mret (inr (inFlight [] ids))
      end
  | StateSuccess => mret (inr (inFlight [] []))
  end.

Definition loadInFlight (config : Config) (stack : Stack) (targetSHA : string)
    (queued : gmap Z QueuedPR) (now : time) : prog mq (error + InFlight) :=
  if negb (String.eqb (st_Base stack) targetSHA) then
    if String.eqb (topSHA stack) targetSHA then mret (inr (mkInFlight stack true None [] []))
    else
      landed ← Compare (topSHA stack) targetSHA;
      match landed with
      | inl err => mret (inl err)
      | inr landed => mret (inr (mkInFlight stack landed None [] []))
      end
  else if negb (String.eqb (staleReason stack targetSHA queued) "") then
    mret (inr (mkInFlight stack false None [] []))
  else
    files ← stackFiles config stack;
    match files with
    | inl err => mret (inl err)
    | inr files =>
      runs ← CheckRuns (topSHA stack);
      match runs with
      | inl err => mret (inl err)
      | inr runs =>
          let retriedAt := if (0 <? st_Retry stack)%Z then st_At stack else zeroTime in
          loadRuns stack (Evaluate (cf_RequiredChecks config) files runs (Sub now (st_At stack))
                            (cf_CheckTimeout config) retriedAt)
      end
    end.

(** * The snapshot *)

(** The variables of the loop over the pull requests. *)
Record loadState := mkLoadState {
  ls_canWrite : gmap string bool; ls_queued : list QueuedPR; ls_stacks : list Stack
}.

(** Whether the labeler can write, asked once per login. *)
Definition labelerCanWrite (pr : PR) (known : gmap string bool) : prog mq (error + (bool * gmap string bool)) :=
  if String.eqb (LabeledBy pr) "" then mret (inr (false, known))
  else
  match known !! LabeledBy pr with
  | Some allowed => mret (inr (allowed, known))
  | None =>
      allowed ← CanWrite (LabeledBy pr);
      match allowed with
      | inl err => mret (inl err)
      | inr allowed => mret (inr (allowed, <[LabeledBy pr := allowed]> known))
      end
  end.

(** What the status comment of a pull request says. *)
Definition readComment (pr : PR) (allowed : bool) (body : string) : QueuedPR * list Stack :=
  (mkQueuedPR pr allowed (ParseOwns body) (bool_decide (ParseLanded body = Some (HeadSHA pr))),
   match ParseStack body with
   | Some stack => match Top stack with
                   | Some top => if (m_Number top =? Number pr)%Z then [stack] else []
                   | None => []
                   end
   | None => []
   end).

(** One turn of that loop. *)
Definition loadPR (botLogin : string) (pr : PR) (s : loadState) : prog mq (error + loadState) :=
  allowed ← labelerCanWrite pr (ls_canWrite s);
  match allowed with
  | inl err => mret (inl err)
  | inr (allowed, known) =>
    if String.eqb botLogin "" then
      mret (inr (mkLoadState known (app (ls_queued s) [mkQueuedPR pr allowed [] false]) (ls_stacks s)))
    else
      body ← StatusComment (Number pr) botLogin;
      match body with
      | inl err => mret (inl err)
      | inr body =>
          let '(queued, stacks) := readComment pr allowed body in
          mret (inr (mkLoadState known (app (ls_queued s) [queued]) (app (ls_stacks s) stacks)))
      end
  end.

Definition LoadSnapshot (config : Config) (botLogin : string) (now : time) : prog mq (error + Snapshot) :=
  targetSHA ← ResolveBranch (cf_Target config);
  match targetSHA with
  | inl err => mret (inl err)
  | inr targetSHA =>
    prs ← QueuedPRs (cf_Label config);
    match prs with
    | inl err => mret (inl err)
    | inr prs =>
      loaded ← fold_err (sortFIFO prs) (loadPR botLogin) (mkLoadState ∅ [] []);
      match loaded with
      | inl err => mret (inl err)
      | inr loaded =>
        stacks ← fold_err (ls_stacks loaded) (λ stack inFlights,
          inFlight ← loadInFlight config stack targetSHA (queuedMap (ls_queued loaded)) now;
          match inFlight with
          | inl err => mret (inl err)
          | inr inFlight => mret (inr (app inFlights [inFlight]))
          end) [];
        match stacks with
        | inl err => mret (inl err)
        | inr stacks => mret (inr (mkSnapshot now targetSHA (ls_queued loaded) stacks))
        end
      end
    end
  end.

End snapshot.
