(* ===== verification/MergeApply.v ===== *)
(** Applying a plan, and the whole tick (src/mergequeue/apply.go). *)

From S2P Require Import Prelude Program GoStrings Provider MergeChecks MergeMarker MergePlan MergeSnapshot.

#[local] Open Scope string_scope.

(** [Options]: the settings of a tick; its interfaces and clock are [MQEnv]. *)
Record Options := mkOptions { BotLogin : string; DryRun : bool; SettleWait : duration }.

(** The fields of [applier] a tick does not change. *)
Record applier := mkApplier {
  ap_options : Options; ap_config : Config; ap_snapshot : Snapshot; ap_queued : gmap Z QueuedPR
}.

(** * The report *)

Definition noReport (idle : bool) : Report := mkReport [] [] [] [] [] [] [] idle.

Definition addFormed (prs : list Z) (r : Report) : Report :=
  mkReport (app (Formed r) [prs]) (Landed r) (Retried r) (SplitStacks r) (Abandoned r) (Rejected r) (Deferred r) (r_Idle r).
Definition addLanded (prs : list Z) (r : Report) : Report :=
  mkReport (Formed r) (app (Landed r) [prs]) (Retried r) (SplitStacks r) (Abandoned r) (Rejected r) (Deferred r) (r_Idle r).
Definition addRetried (prs : list Z) (r : Report) : Report :=
  mkReport (Formed r) (Landed r) (app (Retried r) [prs]) (SplitStacks r) (Abandoned r) (Rejected r) (Deferred r) (r_Idle r).
Definition addSplit (prs : list Z) (r : Report) : Report :=
  mkReport (Formed r) (Landed r) (Retried r) (app (SplitStacks r) [prs]) (Abandoned r) (Rejected r) (Deferred r) (r_Idle r).
Definition addAbandoned (prs : list Z) (r : Report) : Report :=
  mkReport (Formed r) (Landed r) (Retried r) (SplitStacks r) (app (Abandoned r) [prs]) (Rejected r) (Deferred r) (r_Idle r).
Definition addRejected (n : Z) (r : Report) : Report :=
  mkReport (Formed r) (Landed r) (Retried r) (SplitStacks r) (Abandoned r) (app (Rejected r) [n]) (Deferred r) (r_Idle r).
Definition addDeferred (prs : list Z) (r : Report) : Report :=
  mkReport (Formed r) (Landed r) (Retried r) (SplitStacks r) (Abandoned r) (Rejected r) (app (Deferred r) [prs]) (r_Idle r).

(** [keepOwns]: the first record other than [current]. *)
Definition keepOwns (owns : list Own) (current : Own) : list Own :=
  take 1 (keep (λ own, negb (bool_decide (own = current))) owns).

(** [a.queued[number]]; a number that is not queued gives the zero value. *)
Definition zeroPR : QueuedPR := mkQueuedPR (mkPR 0 "" "" "" false false zeroTime "") false [] false.

(** [if err := m; err != nil { return err }] in the body of a loop. *)
Definition stopOnErr (wrap : error → error) (m : prog mq (option error)) : prog mq (option (option error)) :=
  err ← m; mret (match err with Some err => Some (Some (wrap err)) | None => None end).

Section apply.
Context `{MQEnv} (a : applier).

Definition report_ (f : Report → Report) : prog mq () :=
  update (λ s, mkMq (mq_trace s) (mq_git s) (f (mq_report s)) (mq_stuck s)).
Definition stuck : prog mq () := update (λ s, mkMq (mq_trace s) (mq_git s) (mq_report s) true).

Definition queuedPR (number : Z) : QueuedPR := default zeroPR (ap_queued a !! number).

Definition openGit : prog mq (option error) :=
  opened ← get mq_git;
  if opened : bool then mret None
  else
    err ← OpenGit (cf_Target (ap_config a));
    match err with
    | Some err => mret (Some (WrapError "clone the repository" err))
    | None => _ ← update (λ s, mkMq (mq_trace s) true (mq_report s) (mq_stuck s)); mret None
    end.

Definition comment (number : Z) (body : string) : prog mq (option error) :=
  UpsertStatusComment number (BotLogin (ap_options a)) body.

Definition cancel (ids : list Z) : prog mq () :=
  for_each ids (λ id, _ ← CancelRun id; mret None) (mret ()).

Definition cancelPullRequestRuns (sha : string) : prog mq () :=
  runs ← WorkflowRuns sha;
  match runs with inl _ => mret () | inr runs => cancel (pullRequestRuns runs) end.

Definition postpone (prs : list Z) : prog mq () := report_ (addDeferred prs).

Definition reject (number : Z) (reason : string) (urls : list string) : prog mq (option error) :=
  on_err (RemoveLabel number (cf_Label (ap_config a))) (λ err, mret (Some err))
    (on_err (comment number (rejectedComment reason (cf_Label (ap_config a)) urls (Owns (queuedPR number))))
       (λ err, mret (Some err))
       (_ ← report_ (addRejected number); mret None)).

(** The comments of a stack's members, in order. *)
Definition commentMembers (stack : Stack) (body : nat → string) (k : prog mq (option error))
    : prog mq (option error) :=
  for_each (imap (λ i m, (i, m_Number m)) (st_Members stack))
    (λ '(i, number), stopOnErr id (comment number (body i))) k.

Definition landed (stack : Stack) : prog mq (option error) :=
  commentMembers stack (landedComment stack) (_ ← report_ (addLanded (Numbers stack)); mret None).

Definition advance (stack : Stack) : prog mq (option error) :=
  on_err openGit (λ err, mret (Some err))
    (let number := match Top stack with Some top => m_Number top | None => 0%Z end in
     head ← Fetch ("refs/heads/" +:+ HeadRef (queuedPR number));
     match head with
     | inl err => mret (Some err)
     | inr head =>
       if negb (String.eqb head (topSHA stack)) then _ ← postpone (Numbers stack); mret None
       else
         on_err (FastForward (cf_Target (ap_config a)) (topSHA stack))
           (λ err, if errors_is ErrNotFastForward err then _ ← postpone (Numbers stack); mret None
                   else mret (Some err))
           (landed stack)
     end).

(** ** Settling *)

(** The loop of [settle]; [fuel] bounds its turns. *)
Fixpoint settleLoop (fuel : nat) (stack : Stack) (deadline : time) : prog mq () :=
  match fuel with
  | O => stuck
  | S fuel =>
    ids ← batchmateRuns stack;
    _ ← match ids with inr ids => cancel ids | inl _ => mret () end;
    now ← Now;
    if negb (Before now deadline) then mret ()
    else
      cancelled ← Wait (5 * Second)%Z;
      if cancelled : bool then mret () else settleLoop fuel stack deadline
  end.

(** A turn that waits takes five seconds of the deadline's distance. *)
Definition settleTurns : nat := S (S (Z.to_nat (SettleWait (ap_options a) / (5 * Second)))).

Definition settle (stack : Stack) : prog mq () :=
  if (SettleWait (ap_options a) <=? 0)%Z || (length (st_Members stack) <? 2)%nat then mret ()
  else
    now ← Now;
    settleLoop settleTurns stack (Add now (SettleWait (ap_options a))).

(** ** Forming *)

(** The loop of [upstream]. *)
Fixpoint pickUpstream (owns : list Own) (head base : string) : prog mq (string * list Own) :=
  match owns with
  | [] => mret (base, [])
  | own :: owns =>
    headOK ← IsAncestor (own_Head own) head;
    match headOK with
    | inr true =>
      upstreamOK ← IsAncestor (own_Upstream own) (own_Head own);
      match upstreamOK with
      | inr true => mret (own_Upstream own, [own])
      | _ => pickUpstream owns head base
      end
    | _ => pickUpstream owns head base
    end
  end.

Definition upstream (pr : QueuedPR) (base : string) : prog mq (string * list Own) :=
  pickUpstream (Owns pr) (HeadSHA pr) base.

(** The variables of the loop of [form] over the pull requests. *)
Record formState := mkFormState {
  fs_tip : string; fs_members : list Member; fs_updates : list BranchUpdate; fs_keeps : list (list Own)
}.

(** Why that loop returns early. *)
Inductive formStop := StopError (err : error) | StopMoved | StopConflict (number : Z).

Definition formMember (base : string) (number : Z) (s : formState) : prog mq (formStop + formState) :=
  let pr := queuedPR number in
  head ← Fetch ("refs/heads/" +:+ HeadRef pr);
  match head with
  | inl err => mret (inl (StopError err))
  | inr head =>
    if negb (String.eqb head (HeadSHA pr)) then mret (inl StopMoved)
    else
      up ← upstream pr base;
      rebased ← Rebase (fs_tip s) up.1 head;
      match rebased with
      | inl err =>
          mret (inl (if errors_is ErrRebaseConflict err then StopConflict number else StopError err))
      | inr rebased =>
          mret (inr (mkFormState rebased (app (fs_members s) [mkMember number rebased])
            (app (fs_updates s) [mkBranchUpdate (HeadRef pr) rebased (HeadSHA pr)])
            (app (fs_keeps s) [up.2])))
      end
  end.

(** The second half of [form]: the comments, then the push. *)
Definition publish (prs : list Z) (base : string) (s : formState) : prog mq (option error) :=
  let stack := mkStack base (fs_members s) 0 (sn_Now (ap_snapshot a)) in
  commentMembers stack (λ i, stackComment stack i (default [] (fs_keeps s !! i)))
    (on_err (PushBranches (fs_updates s))
       (λ err, if errors_is ErrLeaseRejected err then _ ← postpone prs; mret None else mret (Some err))
       (_ ← report_ (addFormed prs); _ ← settle stack; mret None)).

Definition conflict (form : list Z → string → prog mq (option error)) (prs : list Z) (base : string)
    (culprit : Z) : prog mq (option error) :=
  if (length prs =? 1)%nat then reject culprit "it does not rebase cleanly onto the target" []
  else
    let '(front, back) := Split prs in
    _ ← report_ (addSplit prs);
    on_err (form front base) (λ err, mret (Some err)) (form back base).

Fixpoint formFuel (fuel : nat) (prs : list Z) (base : string) : prog mq (option error) :=
  match fuel with
  | O => _ ← stuck; mret None
  | S fuel =>
    on_err openGit (λ err, mret (Some err))
      (target ← Fetch ("refs/heads/" +:+ cf_Target (ap_config a));
       match target with
       | inl err => mret (Some err)
       | inr target =>
         if negb (String.eqb target base) then _ ← postpone prs; mret None
         else
           built ← fold_err prs (formMember base) (mkFormState base [] [] []);
           match built with
           | inl (StopError err) => mret (Some err)
           | inl StopMoved => _ ← postpone prs; mret None
           | inl (StopConflict number) => conflict (formFuel fuel) prs base number
           | inr s => publish prs base s
           end
       end)
  end.

(** [form]: every split is shorter, so the length is fuel enough. *)
Definition form (prs : list Z) (base : string) : prog mq (option error) := formFuel (S (length prs)) prs base.

(** ** One action *)

Definition retry (stack : Stack) (runIDs : list Z) : prog mq (option error) :=
  for_each runIDs (λ id, _ ← RerunFailedJobs id; mret None)
    (commentMembers stack
       (λ i, stackComment stack i (keepOwns (Owns (queuedPR (memberNumber stack i))) (stackOwn stack i)))
       (_ ← report_ (addRetried (Numbers stack)); mret None)).

Definition abandon (stack : Stack) (reason : string) (prs : list Z) : prog mq (option error) :=
  _ ← cancelPullRequestRuns (topSHA stack);
  for_each prs (λ number,
    match ap_queued a !! number with
    | None => mret None
    | Some pr => stopOnErr id (comment number (requeuedComment reason (Owns pr)))
    end) (_ ← report_ (addAbandoned (Numbers stack)); mret None).

Definition apply (action : Action) : prog mq (option error) :=
  match action with
  | ActionComment number body => comment number body
  | ActionCancel _ runIDs => _ ← cancel runIDs; mret None
  | ActionForm prs base => form prs base
  | ActionAdvance stack => advance stack
  | ActionLanded stack => landed stack
  | ActionRetry stack runIDs _ => retry stack runIDs
  | ActionReject _ number reason urls => reject number reason urls
  | ActionSplit stack _ => _ ← report_ (addSplit (Numbers stack)); mret None
  | ActionAbandon stack reason prs => abandon stack reason prs
  end.

End apply.

(** * The tick *)

Section tick.
Context `{MQEnv}.

Definition Apply (plan : Plan) (snapshot : Snapshot) (config : Config) (options : Options)
    : prog mq (Report * option error) :=
  let a := mkApplier options config snapshot (queuedMap (Queued snapshot)) in
  _ ← update (λ s, mkMq (mq_trace s) false (noReport (Idle plan)) (mq_stuck s));
  err ← for_each (Actions plan)
    (λ action, stopOnErr (WrapError (default "" (actionString action))) (apply a action))
    (mret None);
  report ← get mq_report;
  mret (report, err).

Definition ConfigPath : string := ".github/merge-queue.yml".

Definition noPlan : Plan := mkPlan [] false.

Definition Tick (options : Options) : prog mq (Plan * Report * option error) :=
  let failed err := mret (noPlan, noReport false, Some err) in
  if negb (DryRun options) && String.eqb (BotLogin options) "" then
    failed (ErrorString "a tick that writes needs the queue's bot login, to recognize its own status comments")
  else
    data ← ReadFile ConfigPath;
    match data with
    | inl err => failed (WrapError ("read " +:+ ConfigPath +:+ " from the default branch") err)
    | inr data =>
      match ParseConfig (decodeYAML data) with
      | inl err => failed err
      | inr config =>
        now ← Now;
        loaded ← LoadSnapshot config (BotLogin options) now;
        match loaded with
        | inl err => failed err
        | inr snapshot =>
          let plan := PlanTick snapshot config in
          if DryRun options then mret (plan, noReport (Idle plan), None)
          else
            r ← Apply plan snapshot config options;
            mret (plan, r.1, r.2)
        end
      end
    end.

(** The state a tick starts in: nothing has been called yet. *)
Definition freshTick : mq := mkMq [] false (noReport false) false.
Definition runTick (options : Options) : (Plan * Report * option error) * mq :=
  runP (Tick options) freshTick.
End tick.
