(* ===== verification/MergeTickFacts.v ===== *)
(** Reasoning about a tick of the merge queue in a trace of calls; what [LoadSnapshot]
    guarantees of the snapshot it returns, and the order of the queue. *)

From S2P Require Import Prelude Program GoStrings Provider MergeChecks MergeMarker MergePlan.
From S2P Require Import MergePlanTheorems MergeSnapshot MergeApply.

(** * Traces *)

Definition grows (s s' : mq) : Prop := ∃ tr, mq_trace s' = mq_trace s ++ tr.

#[global] Instance grows_preorder : PreOrder grows.
Proof.
  split.
  - intros s. exists []. by rewrite app_nil_r.
  - intros s1 s2 s3 (tr1 & H1) (tr2 & H2). exists (tr1 ++ tr2). by rewrite H2, H1, app_assoc.
Qed.

(** Facts about the trace that later events keep. *)
Definition mono (F : list event → Prop) : Prop := ∀ tr tr', F tr → F (tr ++ tr').

Definition onTrace (F : list event → Prop) (s : mq) : Prop := F (mq_trace s).

Lemma mono_in e : mono (λ tr, e ∈ tr).
Proof. intros tr tr' H. apply elem_of_app. by left. Qed.

Lemma mono_const (P : Prop) : mono (λ _, P).
Proof. by intros tr tr'. Qed.

Lemma mono_and F F' : mono F → mono F' → mono (λ tr, F tr ∧ F' tr).
Proof. intros HF HF' tr tr' [? ?]. split; auto. Qed.

Lemma mono_ex {A} (F : A → list event → Prop) : (∀ x, mono (F x)) → mono (λ tr, ∃ x, F x tr).
Proof. intros HF tr tr' [x ?]. exists x. by apply HF. Qed.

Lemma mono_all {A} (F : A → list event → Prop) : (∀ x, mono (F x)) → mono (λ tr, ∀ x, F x tr).
Proof. intros HF tr tr' H x. by apply HF. Qed.

Lemma mono_imp (P : Prop) F : mono F → mono (λ tr, P → F tr).
Proof. intros HF tr tr' H ?. by apply HF, H. Qed.

Lemma mono_or F F' : mono F → mono F' → mono (λ tr, F tr ∨ F' tr).
Proof. intros HF HF' tr tr' [?|?]; [left | right]; auto. Qed.

Lemma mono_Forall {A} (F : A → list event → Prop) l :
  (∀ x, mono (F x)) → mono (λ tr, Forall (λ x, F x tr) l).
Proof. intros HF tr tr' H. eapply Forall_impl; [exact H |]. intros x. apply HF. Qed.

Lemma mono_Forall2 {A B} (F : A → B → list event → Prop) l k :
  (∀ x y, mono (F x y)) → mono (λ tr, Forall2 (λ x y, F x y tr) l k).
Proof. intros HF tr tr' H. eapply Forall2_impl; [exact H |]. intros x y. apply HF. Qed.

Create HintDb mono.
#[export] Hint Resolve mono_in mono_const mono_and mono_ex mono_all mono_imp mono_or
  mono_Forall mono_Forall2 : mono.

(** * Specifications of the calls *)

Section tick.
Context `{MQEnv} (strict : bool) (ok : list event → event → Prop).

(** Every event of the trace is allowed by the events before it. *)
Definition traceOK (s : mq) : Prop := ∀ l e r, mq_trace s = l ++ e :: r → ok l e.

Lemma traceOK_log e s : traceOK s → ok (mq_trace s) e → traceOK (mq_log e s).
Proof.
  intros HT He l e' r E. unfold mq_log in E. simpl in E.
  destruct r as [|e'' r] using rev_ind.
  - apply app_inj_tail in E as [<- <-]. done.
  - clear IHr. rewrite app_comm_cons, app_assoc in E. apply app_inj_tail in E as [E _]. by eapply HT.
Qed.

(** The invariant of a run; a strict one also shows that no loop runs out of fuel. *)
Definition tickInv (s : mq) : Prop := traceOK s ∧ (strict = true → mq_stuck s = false).

Definition run {A} (P : mq → Prop) (p : prog mq A) (Q : A → mq → Prop) : Prop :=
  spec eq grows tickInv P p Q.

(** Facts later events keep frame every step. *)
Lemma run_frame {A} P (F : list event → Prop) (p : prog mq A) Q :
  mono F → run P p Q → run (λ s, P s ∧ onTrace F s) p (λ a s, Q a s ∧ onTrace F s).
Proof.
  intros HF Hp. apply spec_frame; [|intros s s' [tr E] HP; unfold onTrace; rewrite E; by apply HF | done].
  by intros s s' <-.
Qed.

Lemma run_keep {A} (F : list event → Prop) (p : prog mq A) (Q : A → mq → Prop) :
  mono F → run (λ _, True) p Q → run (onTrace F) p (λ a s, Q a s ∧ onTrace F s).
Proof.
  intros HF Hp. eapply spec_conseq; [by apply run_frame | done | done].
Qed.

Lemma run_call {A} (P : mq → Prop) (answer : list event → A) (did : A → event) Q :
  (∀ s, P s → ok (mq_trace s) (did (answer (mq_trace s)))) →
  (∀ s, P s → Q (answer (mq_trace s)) (mq_log (did (answer (mq_trace s))) s)) →
  run P (call answer did) Q.
Proof.
  intros Hok HQ. apply spec_act; [by intros s s' <- |].
  intros s x s' [HT Hst] HP [= <- <-]. split_and!; [by eexists | | by apply HQ].
  split; [apply traceOK_log; auto | done].
Qed.

(** A call that is always allowed: its answer is on the trace. *)
Lemma run_free {A} (F : list event → Prop) (answer : list event → A) (did : A → event) :
  mono F → (∀ tr a, ok tr (did a)) →
  run (onTrace F) (call answer did) (λ a, onTrace (λ tr, F tr ∧ did a ∈ tr)).
Proof.
  intros HF Hok. apply run_call; [auto |]. intros s HP. split; [by apply HF |].
  simpl. apply elem_of_app. right. apply list_elem_of_singleton. done.
Qed.

Lemma run_ret {A} (P : mq → Prop) (a : A) Q : (∀ s, P s → Q a s) → run P (mret a) Q.
Proof. apply spec_ret. Qed.

Lemma run_bind {A B} P (p : prog mq A) (f : A → prog mq B) T Q :
  run P p T → (∀ a, run (T a) (f a) Q) → run P (p ≫= f) Q.
Proof. apply spec_bind. Qed.

Lemma run_conseq {A} (P P' : mq → Prop) (p : prog mq A) (Q Q' : A → mq → Prop) :
  run P' p Q' → (∀ s, P s → P' s) → (∀ a s, Q' a s → Q a s) → run P p Q.
Proof. apply spec_conseq. Qed.

Lemma run_post {A} (P : mq → Prop) (p : prog mq A) (Q Q' : A → mq → Prop) :
  run P p Q' → (∀ a s, Q' a s → Q a s) → run P p Q.
Proof. intros Hp HQ. by eapply run_conseq. Qed.

(** An update of the applier's own fields leaves the trace alone. *)
Lemma run_update (F : list event → Prop) (f : mq → mq) :
  (∀ s, mq_trace (f s) = mq_trace s) → (∀ s, mq_stuck (f s) = mq_stuck s) →
  run (onTrace F) (update f) (λ _, onTrace F).
Proof.
  intros Hf Hs. apply spec_act; [by intros s s' <- |]. intros s x s' [HT Hst] HP [= <- <-].
  split_and!; [exists []; by rewrite app_nil_r, Hf | |unfold onTrace; by rewrite Hf].
  split; [intros l e r; rewrite Hf; apply HT | by rewrite Hs].
Qed.

(** Running out of fuel is excluded in a strict run. *)
Lemma run_stuck (F : list event → Prop) :
  (strict = true → ∀ tr, F tr → False) → run (onTrace F) stuck (λ _, onTrace F).
Proof.
  intros Hf. apply spec_act; [by intros s s' <- |]. intros s x s' [HT Hst] HP [= <- <-].
  split_and!; [exists []; by rewrite app_nil_r | |exact HP].
  split; [done |]. intros Hs. by destruct (Hf Hs (mq_trace s)).
Qed.

Lemma run_get {A} (F : list event → Prop) (f : mq → A) : run (onTrace F) (get f) (λ _, onTrace F).
Proof.
  apply spec_act; [by intros s s' <- |]. intros s x s' HT HP [= <- <-]. split_and!; [reflexivity | done | done].
Qed.

(** A loop that accumulates facts. *)
Lemma run_fold_err {A B E} (J : list A → B → list event → Prop) (l : list A)
    (f : A → B → prog mq (E + B)) acc (Q : E → mq → Prop) :
  (∀ done_ x rest acc, l = done_ ++ x :: rest →
     run (onTrace (J done_ acc)) (f x acc)
       (λ r s, match r with inl e => Q e s | inr acc => onTrace (J (done_ ++ [x]) acc) s end)) →
  run (onTrace (J [] acc)) (fold_err l f acc)
    (λ r s, match r with inl e => Q e s | inr acc => onTrace (J l acc) s end).
Proof.
  intros Hf. assert (Hgen : ∀ rest done_ acc, l = done_ ++ rest →
    run (onTrace (J done_ acc)) (fold_err rest f acc)
      (λ r s, match r with inl e => Q e s | inr acc => onTrace (J l acc) s end)).
  { induction rest as [|x rest IH]; intros done_ acc0 Hl; simpl.
    - apply run_ret. rewrite app_nil_r in Hl. by subst.
    - eapply run_bind; [by eapply Hf |]. intros [e|acc1]; [by apply run_ret |].
      apply IH. by rewrite <- app_assoc. }
  by apply Hgen.
Qed.

Lemma run_for_each {A B} (J : list event → Prop) (l : list A) (f : A → prog mq (option B)) k Q :
  (∀ x, x ∈ l → run (onTrace J) (f x) (λ r s, match r with Some b => Q b s | None => onTrace J s end)) →
  run (onTrace J) k Q → run (onTrace J) (for_each l f k) Q.
Proof.
  intros Hf Hk. induction l as [|x l IH]; simpl; [done |].
  eapply run_bind; [apply Hf; left |]. intros [b|]; [by apply run_ret |].
  apply IH. intros y Hy. apply Hf. by right.
Qed.

(** * The snapshot *)

(** Reads are always allowed. *)
Definition reads (e : event) : bool :=
  match e with
  | didUpsertStatusComment _ _ _ _ | didCancelRun _ _ | didRerunFailedJobs _ _ | didRemoveLabel _ _ _
  | didOpenGit _ _ | didPushBranches _ _ | didFastForward _ _ _ => false
  | _ => true
  end.

(** The checks of a stack as [loadInFlight] evaluated them: on the runs GitHub
    gave for the stack's own top commit, and the files it gave for its members. *)
Definition evaluated (config : Config) (now : time) (stack : Stack) (checks : Status) (tr : list event) : Prop :=
  ∃ files runs, didCheckRuns (topSHA stack) (inr runs) ∈ tr
  ∧ (needsFiles (cf_RequiredChecks config) = true →
     ∃ changed, Forall2 (λ n fs, didChangedFiles n (inr fs) ∈ tr) (Numbers stack) changed ∧ files = concat changed)
  ∧ checks = Evaluate (cf_RequiredChecks config) files runs (Sub now (st_At stack)) (cf_CheckTimeout config)
      (if 0 <? st_Retry stack then st_At stack else zeroTime).

(** A stack of the snapshot: from the queue's comment on its top pull request. *)
Definition marked (botLogin : string) (stack : Stack) (tr : list event) : Prop :=
  ∃ body top, didStatusComment (m_Number top) botLogin (inr body) ∈ tr
  ∧ ParseStack body = Some stack ∧ Top stack = Some top.

Definition snapshotOK (config : Config) (botLogin : string) (snapshot : Snapshot) (tr : list event) : Prop :=
  didResolveBranch (cf_Target config) (inr (TargetSHA snapshot)) ∈ tr
  ∧ (∃ prs, didQueuedPRs (cf_Label config) (inr prs) ∈ tr ∧ map q_PR (Queued snapshot) = sortFIFO prs)
  ∧ Forall (λ f, marked botLogin (if_Stack f) tr
                 ∧ ∀ checks, if_Checks f = Some checks → evaluated config (sn_Now snapshot) (if_Stack f) checks tr)
      (Stacks snapshot).

Lemma evaluated_mono config now stack checks : mono (evaluated config now stack checks).
Proof. unfold evaluated. auto 20 with mono. Qed.
Lemma marked_mono botLogin stack : mono (marked botLogin stack).
Proof. unfold marked. auto 20 with mono. Qed.
Lemma snapshotOK_mono config botLogin snapshot : mono (snapshotOK config botLogin snapshot).
Proof.
  unfold snapshotOK. repeat apply mono_and; auto with mono.
  apply (mono_Forall (λ f tr, marked botLogin (if_Stack f) tr
    ∧ ∀ checks, if_Checks f = Some checks → evaluated config (sn_Now snapshot) (if_Stack f) checks tr)).
  intros f. apply mono_and; [apply marked_mono |]. apply mono_all. intros c. apply mono_imp, evaluated_mono.
Qed.

End tick.

#[export] Hint Resolve evaluated_mono marked_mono snapshotOK_mono : mono.

(** * The snapshot *)

Section load.
Context `{MQEnv} (strict : bool) (ok : list event → event → Prop).
Context (Hreads : ∀ tr e, reads e = true → ok tr e).

Lemma run_read {A} (F : list event → Prop) (answer : list event → A) (did : A → event) :
  mono F → (∀ a, reads (did a) = true) →
  run strict ok (onTrace F) (call answer did) (λ a, onTrace (λ tr, F tr ∧ did a ∈ tr)).
Proof. intros HF Hr. apply run_free; auto. Qed.

(** A result that may be an error: [F] and [T] hold of the trace on success. *)
Definition onOk {A} (T : A → list event → Prop) (r : error + A) (s : mq) : Prop :=
  match r with inl _ => True | inr a => onTrace (T a) s end.

(** The pattern [r ← call; if error, return it; continue]. *)
Lemma run_try {A B} P (p : prog mq (error + A)) (k : A → prog mq (error + B)) T U :
  run strict ok P p (onOk T) → (∀ a, run strict ok (onTrace (T a)) (k a) (onOk U)) →
  run strict ok P (r ← p; match r with inl err => mret (inl err) | inr a => k a end) (onOk U).
Proof. intros Hp Hk. eapply run_bind; [exact Hp |]. intros [err|a]; [by apply run_ret | apply Hk]. Qed.

Lemma run_read_ok {A} (F : list event → Prop) (answer : list event → error + A) (did : error + A → event) :
  mono F → (∀ a, reads (did a) = true) →
  run strict ok (onTrace F) (call answer did) (onOk (λ a tr, F tr ∧ did (inr a) ∈ tr)).
Proof.
  intros HF Hr. eapply run_conseq; [by apply run_read | done |]. by intros [err|a] s.
Qed.

Lemma batchmateRuns_run F stack : mono F →
  run strict ok (onTrace F) (batchmateRuns stack) (λ _, onTrace F).
Proof.
  intros HF. unfold batchmateRuns.
  eapply run_conseq; [apply (run_fold_err strict ok (λ _ _, F) _ _ [] (λ _, onTrace F)) | done | by intros [?|?]].
  intros done_ m rest acc _. eapply run_bind; [by apply run_read |].
  intros [err|runs]; apply run_ret; intros s [HFs _]; done.
Qed.

Definition changedFiles (numbers : list Z) (files : list string) (tr : list event) : Prop :=
  ∃ changed, Forall2 (λ n fs, didChangedFiles n (inr fs) ∈ tr) numbers changed ∧ files = concat changed.

Lemma changedFiles_mono numbers files : mono (changedFiles numbers files).
Proof. unfold changedFiles. auto with mono. Qed.
Hint Resolve changedFiles_mono : mono.

Lemma stackFiles_run F config stack : mono F →
  run strict ok (onTrace F) (stackFiles config stack)
    (onOk (λ files tr, F tr ∧ (needsFiles (cf_RequiredChecks config) = true →
                               changedFiles (Numbers stack) files tr))).
Proof.
  intros HF. unfold stackFiles. destruct (needsFiles (cf_RequiredChecks config)).
  - eapply run_conseq; [apply (run_fold_err strict ok (λ ns files tr, F tr ∧ changedFiles ns files tr) _ _ [] (λ _ _, True)) | |].
    + intros done_ n rest files _. eapply run_bind; [apply run_read; auto with mono |].
      intros [err|changed]; apply run_ret; [done |]. intros s [[HFs (cs & HC & ->)] Hin]. split; [done |].
      exists (cs ++ [changed]). split; [by apply Forall2_app; [|constructor] |].
      rewrite concat_app. simpl. by rewrite app_nil_r.
    + intros s HFs. split; [done |]. by exists [].
    + intros [err|files] s; [done |]. intros [? ?]. by split.
  - apply run_ret. intros s HFs. by split.
Qed.

Lemma loadRuns_run F stack checks : mono F →
  run strict ok (onTrace F) (loadRuns stack checks)
    (onOk (λ f tr, F tr ∧ if_Stack f = stack ∧ if_Checks f = Some checks)).
Proof.
  intros HF. unfold loadRuns. destruct (State_ checks).
  - eapply run_bind; [by apply batchmateRuns_run |].
    intros [err|ids]; apply run_ret; [done |]. by intros s HFs.
  - apply run_ret. by intros s HFs.
  - destruct (_ || _); [apply run_ret; by intros s HFs |].
    eapply run_bind; [by apply run_read |].
    intros [err|runs]; apply run_ret; [done |]. by intros s [HFs _].
Qed.

Lemma loadInFlight_run F config stack target queued now : mono F →
  run strict ok (onTrace F) (loadInFlight config stack target queued now)
    (onOk (λ f tr, F tr ∧ if_Stack f = stack
             ∧ ∀ checks, if_Checks f = Some checks → evaluated config now stack checks tr)).
Proof.
  intros HF. unfold loadInFlight.
  destruct (negb (String.eqb (st_Base stack) target)).
  { destruct (String.eqb (topSHA stack) target); [apply run_ret; by intros s HFs |].
    eapply run_bind; [by apply run_read |].
    intros [err|landed]; apply run_ret; [done |]. by intros s [HFs _]. }
  destruct (negb (String.eqb (staleReason stack target queued) "")); [apply run_ret; by intros s HFs |].
  eapply run_try; [by apply stackFiles_run |]. intros files.
  eapply run_try; [apply run_read_ok; auto with mono |]. intros runs.
  eapply run_post; [apply loadRuns_run; auto 10 with mono |].
  intros [err|f] s; [done |]. intros [[[HFs Hfiles] Hruns] [HS HC]]. split_and!; [done.. |].
  intros checks Hch. rewrite HC in Hch. injection Hch as <-. by exists files, runs.
Qed.

(** ** The loop over the pull requests *)

Definition loaded (botLogin : string) (prs : list PR) (s : loadState) (tr : list event) : Prop :=
  map q_PR (ls_queued s) = prs ∧ Forall (λ stack, marked botLogin stack tr) (ls_stacks s).

Lemma loaded_mono botLogin prs s : mono (loaded botLogin prs s).
Proof. unfold loaded. apply mono_and; [auto with mono |]. apply (mono_Forall (marked botLogin)). apply marked_mono. Qed.
Hint Resolve loaded_mono : mono.

Lemma labelerCanWrite_run F pr known : mono F →
  run strict ok (onTrace F) (labelerCanWrite pr known) (onOk (λ _, F)).
Proof.
  intros HF. unfold labelerCanWrite.
  destruct (String.eqb (LabeledBy pr) ""); [apply run_ret; by intros s HFs |].
  destruct (known !! LabeledBy pr); [apply run_ret; by intros s HFs |].
  eapply run_try; [by apply run_read_ok |]. intros allowed. apply run_ret. by intros s [HFs _].
Qed.

Lemma loadPR_run F botLogin pr prs s : mono F →
  run strict ok (onTrace (λ tr, F tr ∧ loaded botLogin prs s tr)) (loadPR botLogin pr s)
    (onOk (λ s' tr, F tr ∧ loaded botLogin (prs ++ [pr]) s' tr)).
Proof.
  intros HF. unfold loadPR. eapply run_try; [apply labelerCanWrite_run; auto with mono |]. intros [allowed known].
  destruct (String.eqb botLogin "").
  { apply run_ret. intros st [HFs [Hq Hs]]. split; [done |]. split; [|done].
    simpl. by rewrite map_app, Hq. }
  eapply run_try; [apply run_read_ok; auto with mono |]. intros body. apply run_ret.
  intros st [[HFs [Hq Hs]] Hbody]. unfold readComment. split; [done |]. split; simpl.
  - by rewrite map_app, Hq.
  - apply Forall_app. split; [done |]. destruct (ParseStack body) as [stack|] eqn:EP; [|done].
    destruct (Top stack) as [top|] eqn:ET; [|done]. destruct (Z.eqb_spec (m_Number top) (Number pr)) as [Hn|]; [|done].
    apply Forall_singleton. exists body, top. by rewrite Hn.
Qed.

(** [LoadSnapshot] only reads, and what it returns is what GitHub said. *)
Lemma LoadSnapshot_run F config botLogin now : mono F →
  run strict ok (onTrace F) (LoadSnapshot config botLogin now)
    (onOk (λ snapshot tr, F tr ∧ sn_Now snapshot = now ∧ snapshotOK config botLogin snapshot tr)).
Proof.
  intros HF. unfold LoadSnapshot. eapply run_try; [by apply run_read_ok |]. intros target.
  eapply run_try; [apply run_read_ok; auto with mono |]. intros prs.
  cbn beta. set (F2 := λ tr, (F tr ∧ didResolveBranch (cf_Target config) (inr target) ∈ tr)
                             ∧ didQueuedPRs (cf_Label config) (inr prs) ∈ tr). assert (HF2 : mono F2) by (unfold F2; auto with mono).
  eapply run_try.
  { eapply run_conseq; [apply (run_fold_err strict ok (λ done_ s tr, F2 tr ∧ loaded botLogin done_ s tr) _ _ _ (λ _ _, True)) | |].
    - intros done_ pr rest acc _. eapply run_conseq; [by apply loadPR_run | done |]. by intros [?|?] s.
    - intros s HFs. split; [done |]. by split.
    - intros [err|st] s Hp; [done | exact Hp]. }
  intros st. set (F3 := λ tr, F2 tr ∧ loaded botLogin (sortFIFO prs) st tr).
  assert (HF3 : mono F3) by (unfold F3; auto with mono).
  eapply run_try with (T := λ fs tr, F3 tr ∧ Forall (λ f, marked botLogin (if_Stack f) tr
      ∧ ∀ checks, if_Checks f = Some checks → evaluated config now (if_Stack f) checks tr) fs).
  { set (J := λ fs tr, F3 tr ∧ Forall (λ f, marked botLogin (if_Stack f) tr
      ∧ ∀ checks, if_Checks f = Some checks → evaluated config now (if_Stack f) checks tr) fs).
    assert (HJ : ∀ fs, mono (J fs)).
    { intros fs. apply mono_and; [done |]. apply (mono_Forall (λ f tr, marked botLogin (if_Stack f) tr
        ∧ ∀ checks, if_Checks f = Some checks → evaluated config now (if_Stack f) checks tr)). auto with mono. }
    eapply run_conseq; [apply (run_fold_err strict ok (λ _ fs, J fs) _ _ [] (λ _ _, True)) | |].
    - intros done_ stack rest fs Hst. eapply run_bind; [by apply loadInFlight_run |].
      intros [err|f]; apply run_ret; [done |]. intros s ([HF3s Hfs] & <- & Hev). split; [done |].
      apply Forall_app. split; [done |]. apply Forall_singleton. split; [|done].
      destruct HF3s as [_ [_ Hm]]. rewrite Hst in Hm. rewrite Forall_app, Forall_cons in Hm. tauto.
    - intros s HFs. by split.
    - intros [err|fs] s Hp; [done | exact Hp]. }
  intros fs. apply run_ret. intros s [[((HFs & Hres) & Hprs) [Hq Hm]] Hst].
  split_and!; [done | done |]. split_and!; simpl; [done | by exists prs | done].
Qed.
End load.

(** * The queue's order *)

(** [a] was labeled before [b]: earlier, or at the same instant with a smaller
    number; a pull request without a labeled event comes last. *)
Definition earlier (a b : PR) : Prop :=
  LabeledAt a ≠ zeroTime ∧ LabeledAt b = zeroTime
  ∨ (LabeledAt a = zeroTime ↔ LabeledAt b = zeroTime)
    ∧ (LabeledAt a < LabeledAt b ∨ LabeledAt a = LabeledAt b ∧ Number a < Number b).

Definition numbered (pr : PR) : Prop := 0 < Number pr <= max_int64.

Lemma compareFIFO_spec a b :
  numbered a → numbered b →
  (compareFIFO a b <= 0 ↔ earlier a b ∨ LabeledAt a = LabeledAt b ∧ Number a = Number b).
Proof.
  unfold numbered, compareFIFO, earlier, IsZero, zeroTime, max_int64. intros Ha Hb.
  rewrite wrap64_id by (unfold in_int64, min_int64, max_int64; lia).
  destruct (Z.eqb_spec (LabeledAt a) 0), (Z.eqb_spec (LabeledAt b) 0); cbn [Bool.eqb negb];
    destruct (Z.eqb_spec (LabeledAt a) (LabeledAt b)); cbn [negb];
    try destruct (Z.ltb_spec (LabeledAt a) (LabeledAt b)); lia.
Qed.

Lemma earlier_total a b : earlier a b ∨ earlier b a ∨ LabeledAt a = LabeledAt b ∧ Number a = Number b.
Proof. unfold earlier, zeroTime. lia. Qed.

Lemma earlier_trans a b c : earlier a b → earlier b c → earlier a c.
Proof. unfold earlier, zeroTime. lia. Qed.

Lemma insertFIFO_perm pr prs : insertFIFO pr prs ≡ₚ pr :: prs.
Proof.
  induction prs as [|p prs IH]; simpl; [done |]. case_bool; [done |]. rewrite IH. apply perm_swap.
Qed.

Lemma sortFIFO_perm prs : sortFIFO prs ≡ₚ prs.
Proof. induction prs as [|p prs IH]; simpl; [done |]. by rewrite insertFIFO_perm, IH. Qed.

Lemma insertFIFO_sorted pr prs :
  numbered pr → Forall numbered prs → Forall (λ p, Number p ≠ Number pr) prs →
  StronglySorted earlier prs → StronglySorted earlier (insertFIFO pr prs).
Proof.
  intros Hpr Hn Hne Hs. induction prs as [|p prs IH]; simpl; [by repeat constructor |].
  apply Forall_cons in Hn as [Hp Hn], Hne as [Hnp Hne]. apply StronglySorted_inv in Hs as [Hs Hall].
  pose proof (compareFIFO_spec pr p Hpr Hp) as HC.
  destruct (Z.leb_spec (compareFIFO pr p) 0) as [Hle|Hgt].
  - assert (He : earlier pr p) by (apply HC in Hle as [?|[_ ?]]; [done | congruence]).
    constructor; [by constructor |]. constructor; [done |].
    eapply Forall_impl; [exact Hall |]. intros q. by apply earlier_trans.
  - assert (He : earlier p pr).
    { destruct (earlier_total p pr) as [?|[?|[_ ?]]]; [done | apply Zlt_not_le in Hgt; tauto | congruence]. }
    constructor; [by apply IH |]. rewrite Forall_forall in *. intros q Hq.
    rewrite insertFIFO_perm, elem_of_cons in Hq. destruct Hq as [->|Hq]; auto.
Qed.

(** The queue is first in, first out: the snapshot's order is a reordering
    of what GitHub listed, by the time the label was last added and then by
    number, with pull requests that have no labeled event last. *)
Theorem fifo_order prs :
  Forall numbered prs → NoDup (map Number prs) →
  sortFIFO prs ≡ₚ prs ∧ StronglySorted earlier (sortFIFO prs).
Proof.
  intros Hn Hd. split; [apply sortFIFO_perm |]. induction prs as [|p prs IH]; [constructor |].
  cbn [map] in Hd. apply NoDup_cons in Hd as [Hp Hd]. apply Forall_cons in Hn as [Hnp Hn]. simpl.
  apply insertFIFO_sorted; [done | by rewrite sortFIFO_perm | | by apply IH].
  rewrite sortFIFO_perm, Forall_forall. intros q Hq E. apply Hp. rewrite <- E.
  apply list_elem_of_fmap. eauto.
Qed.

Lemma fifo_order_witness :
  let pr n t := mkPR n "sha" "branch" "main" true false t "alice" in
  sortFIFO [pr 4 0; pr 3 9; pr 1 9; pr 2 5] = [pr 2 5; pr 1 9; pr 3 9; pr 4 0]
  ∧ sortFIFO [pr 4 0; pr 3 9; pr 1 9; pr 2 5] ≡ₚ [pr 4 0; pr 3 9; pr 1 9; pr 2 5]
  ∧ StronglySorted earlier (sortFIFO [pr 4 0; pr 3 9; pr 1 9; pr 2 5]).
Proof.
  cbn zeta. split; [vm_compute; reflexivity |]. apply fifo_order.
  - unfold numbered, max_int64. repeat constructor; simpl; lia.
  - simpl. apply (bool_decide_unpack _). vm_compute. exact I.
Defined.
