(* ===== verification/MergeTickSpecs.v ===== *)
(** What each write of a tick is justified by, proved of every program of
    src/mergequeue/apply.go. *)

From S2P Require Import Prelude Program GoStrings Provider MergeChecks MergeMarker MergePlan.
From S2P Require Import MergePlanTheorems MergeSnapshot MergeApply MergeTickFacts.

#[local] Open Scope string_scope.

(** * Justified writes *)

Section justified.
Context `{MQEnv} (options : Options).

(** The configuration read, and the snapshot loaded, earlier in the tick. *)
Definition configured (config : Config) (tr : list event) : Prop :=
  ∃ data, didReadFile ConfigPath (inr data) ∈ tr ∧ ParseConfig (decodeYAML data) = inr config.

Definition known (config : Config) (snapshot : Snapshot) (tr : list event) : Prop :=
  configured config tr ∧ snapshotOK config (BotLogin options) snapshot tr.

Lemma known_mono config snapshot : mono (known config snapshot).
Proof. unfold known, configured. auto with mono. Qed.

(** The target is moved to the top of a stack the plan lands. *)
Definition landing (branch sha : string) (tr : list event) : Prop :=
  ∃ config snapshot stack, known config snapshot tr
  ∧ ActionAdvance stack ∈ Actions (PlanTick snapshot config)
  ∧ branch = cf_Target config ∧ sha = topSHA stack
  ∧ ∃ ref, didFetch ref (inr sha) ∈ tr.

(** The commit below member [i] of a stack built on [base]. *)
Definition tipOf (base : string) (members : list Member) (i : nat) : string :=
  match i with O => base | S j => match members !! j with Some m => m_SHA m | None => "" end end.

(** Member [i] was rebased onto the member below it, from the head the
    snapshot saw and git fetched again. *)
Definition rebasedMember (snapshot : Snapshot) (base : string) (members : list Member)
    (updates : list BranchUpdate) (i : nat) (n : Z) (tr : list event) : Prop :=
  ∃ (pr : QueuedPR) sha upstream, queuedMap (Queued snapshot) !! n = Some pr
  ∧ members !! i = Some (mkMember n sha)
  ∧ updates !! i = Some (mkBranchUpdate (HeadRef pr) sha (HeadSHA pr))
  ∧ didFetch ("refs/heads/" +:+ HeadRef pr) (inr (HeadSHA pr)) ∈ tr
  ∧ didRebase (tipOf base members i) upstream (HeadSHA pr) (inr sha) ∈ tr.

(** The status comment of member [i] is written. *)
Definition recordedMember (stack : Stack) (i : nat) (n : Z) (tr : list event) : Prop :=
  ∃ kept, didUpsertStatusComment n (BotLogin options) (stackComment stack i kept) None ∈ tr.

(** Branches are pushed as a chain of rebases above the target. *)
Definition pushing (updates : list BranchUpdate) (tr : list event) : Prop :=
  ∃ config snapshot (prs : list Z) members, known config snapshot tr
  ∧ didFetch ("refs/heads/" +:+ cf_Target config) (inr (TargetSHA snapshot)) ∈ tr
  ∧ length updates = length prs ∧ length members = length prs
  ∧ ∀ i n, prs !! i = Some n →
      rebasedMember snapshot (TargetSHA snapshot) members updates i n tr
      ∧ recordedMember (mkStack (TargetSHA snapshot) members 0 (sn_Now snapshot)) i n tr.

(** A label is removed from a pull request that failed on its own. *)
Definition removing (n : Z) (tr : list event) : Prop :=
  ∃ config snapshot (pr : QueuedPR), known config snapshot tr
  ∧ queuedMap (Queued snapshot) !! n = Some pr
  ∧ ((∃ f m, failedFinally snapshot f ∧ st_Members (if_Stack f) = [m] ∧ m_Number m = n)
     ∨ ∃ upstream err, didRebase (TargetSHA snapshot) upstream (HeadSHA pr) (inl err) ∈ tr
                       ∧ errors_is ErrRebaseConflict err = true).

Definition justified (tr : list event) (e : event) : Prop :=
  (reads e = false → DryRun options = false)
  ∧ match e with
    | didUpsertStatusComment _ bot _ _ => bot = BotLogin options
    | didFastForward branch sha _ => landing branch sha tr
    | didPushBranches updates _ => pushing updates tr
    | didRemoveLabel n _ _ => removing n tr
    | _ => True
    end.

Lemma justified_reads tr e : reads e = true → justified tr e.
Proof. intros Hr. split; [by rewrite Hr |]. by destruct e. Qed.
End justified.

#[export] Hint Resolve known_mono : mono.

(** * The clock *)

(** The trace shows that the instant [t] is past: it was read, or a wait that
    followed a reading reached it. *)
Definition past (t : time) (tr : list event) : Prop :=
  didNow t ∈ tr
  ∨ ∃ tr1 tr2 t0 d, tr = (tr1 ++ tr2)%list ∧ didNow t0 ∈ tr1 ∧ didWait d false ∈ tr2 ∧ t = (t0 + d)%Z.

Lemma past_mono t : mono (past t).
Proof.
  intros tr tr' [Hin|(tr1 & tr2 & t0 & d & -> & H0 & Hw & ->)]; [left; set_solver |].
  right. exists tr1, (tr2 ++ tr')%list, t0, d. rewrite app_assoc. set_solver.
Qed.
#[export] Hint Resolve past_mono : mono.

(** The clock never goes back, and a wait takes its time. *)
Definition ClockLaw `{MQEnv} : Prop := ∀ tr t, past t tr → (t <= ask_Now tr)%Z.

(** * The applier *)

Section applier.
Context `{MQEnv} (strict : bool) (options : Options) (config : Config) (snapshot : Snapshot).
Context (Hclock : strict = true → ClockLaw).
Context (Hdry : DryRun options = false).

Let a : applier := mkApplier options config snapshot (queuedMap (Queued snapshot)).
Let ok := justified options.
Let K := known options config snapshot.

Lemma K_mono : mono K.
Proof. apply known_mono. Qed.
Hint Resolve K_mono : mono.

(** Calls that need no more than a tick that writes. *)
Lemma run_write {A} (F : list event → Prop) (answer : list event → A) (did : A → event) :
  mono F →
  (∀ x, match did x with
        | didCancelRun _ _ | didRerunFailedJobs _ _ | didOpenGit _ _ => True
        | didUpsertStatusComment _ bot _ _ => bot = BotLogin options
        | _ => False
        end) →
  run strict ok (onTrace F) (call answer did) (λ x, onTrace (λ tr, F tr ∧ did x ∈ tr)).
Proof.
  intros HF Hd. apply run_free; [done |]. intros tr x. specialize (Hd x). split; [done |]. by destruct (did x).
Qed.

Lemma run_look {A} (F : list event → Prop) (answer : list event → A) (did : A → event) :
  mono F → (∀ x, reads (did x) = true) →
  run strict ok (onTrace F) (call answer did) (λ x, onTrace (λ tr, F tr ∧ did x ∈ tr)).
Proof. intros HF Hd. apply run_read; [apply justified_reads | done | done]. Qed.

Lemma comment_run F number body : mono F →
  run strict ok (onTrace F) (comment a number body)
    (λ e, onTrace (λ tr, F tr ∧ didUpsertStatusComment number (BotLogin options) body e ∈ tr)).
Proof. intros HF. by apply run_write. Qed.

Lemma report_run F f : run strict ok (onTrace F) (report_ f) (λ _, onTrace F).
Proof. by apply run_update. Qed.

Lemma openGit_run F : mono F → run strict ok (onTrace F) (openGit a) (λ _, onTrace F).
Proof.
  intros HF. unfold openGit. eapply run_bind; [apply run_get |]. intros [|]; [by apply run_ret |].
  eapply run_bind; [by apply run_write |]. intros [err|]; [by apply run_ret; intros s [? _] |].
  eapply run_bind; [by apply run_update |]. intros u. by apply run_ret; intros s [? _].
Qed.

Lemma cancel_run F ids : mono F → run strict ok (onTrace F) (cancel ids) (λ _, onTrace F).
Proof.
  intros HF. apply run_for_each; [|by apply run_ret]. intros id _.
  eapply run_bind; [by apply run_write |]. intros e. by apply run_ret; intros s [? _].
Qed.

Lemma cancelPullRequestRuns_run F sha : mono F → run strict ok (onTrace F) (cancelPullRequestRuns sha) (λ _, onTrace F).
Proof.
  intros HF. unfold cancelPullRequestRuns. eapply run_bind; [by apply run_look |].
  intros [err|runs]; [by apply run_ret; intros s [? _] |].
  eapply run_conseq; [by apply (cancel_run F) | by intros s [? _] | done].
Qed.

(** The comments of a stack: all of them are written when the loop ends. *)
Definition commented (stack : Stack) (body : nat → string) (tr : list event) : Prop :=
  ∀ i m, st_Members stack !! i = Some m →
  didUpsertStatusComment (m_Number m) (BotLogin options) (body i) None ∈ tr.

Lemma commentMembers_run F stack body k : mono F →
  run strict ok (onTrace (λ tr, F tr ∧ commented stack body tr)) k (λ _, onTrace F) →
  run strict ok (onTrace F) (commentMembers a stack body k) (λ _, onTrace F).
Proof.
  intros HF Hk. unfold commentMembers.
  set (l := imap (λ i m, (i, m_Number m)) (st_Members stack)).
  assert (Hgen : ∀ done_ rest, l = (done_ ++ rest)%list →
    run strict ok (onTrace (λ tr, F tr ∧ ∀ p, p ∈ done_ → didUpsertStatusComment p.2 (BotLogin options) (body p.1) None ∈ tr))
      (for_each rest (λ '(i, number), stopOnErr id (comment a number (body i))) k) (λ _, onTrace F)).
  { intros done_ rest. revert done_. induction rest as [|[i n] rest IH]; intros done_ E; cbn [for_each].
    - eapply run_conseq; [exact Hk | | done]. intros s [HFs Hall]. split; [done |]. intros i m Hm.
      apply (Hall (i, m_Number m)). rewrite app_nil_r in E. rewrite <- E. unfold l.
      apply (elem_of_lookup_imap_2 (λ i m, (i, m_Number m)) _ _ _ Hm).
    - unfold stopOnErr. eapply run_bind; [eapply run_bind; [apply comment_run; auto with mono |] |].
      { intros e. by apply (run_ret _ _ _ _ (λ r, onTrace (λ tr, (F tr ∧ ∀ p, p ∈ done_ →
          didUpsertStatusComment p.2 (BotLogin options) (body p.1) None ∈ tr) ∧
          (r = None → didUpsertStatusComment n (BotLogin options) (body i) None ∈ tr)))); destruct e; intros s [? ?]. }
      intros [r|]; [apply run_ret; by intros s [[? _] _] |].
      eapply run_conseq; [apply (IH (done_ ++ [(i, n)])%list) | |done]; [by rewrite <- app_assoc |].
      intros s [[HFs Hall] Hn]. split; [done |]. intros p Hp. apply elem_of_app in Hp as [Hp|Hp]; [auto |].
      apply list_elem_of_singleton in Hp as ->. auto. }
  eapply run_conseq; [apply (Hgen [] l eq_refl) | |done]. intros s HFs. split; [done |]. set_solver.
Qed.

Lemma landed_run F stack : mono F → run strict ok (onTrace F) (landed a stack) (λ _, onTrace F).
Proof.
  intros HF. apply commentMembers_run; [done |]. eapply run_bind; [apply report_run |].
  intros u. apply run_ret. by intros s [? _].
Qed.

Lemma postpone_run F prs : run strict ok (onTrace F) (_ ← postpone prs; mret (None : option error)) (λ _, onTrace F).
Proof. eapply run_bind; [apply report_run |]. intros u. by apply run_ret. Qed.

Lemma advance_run stack :
  ActionAdvance stack ∈ Actions (PlanTick snapshot config) →
  run strict ok (onTrace K) (advance a stack) (λ _, onTrace K).
Proof.
  intros Hplan. unfold advance. eapply run_bind; [apply openGit_run; auto with mono |].
  intros [err|]; [by apply run_ret |].
  eapply run_bind; [apply run_look; auto with mono |]. intros [err|head]; [by apply run_ret; intros s [? _] |].
  destruct (String.eqb_spec head (topSHA stack)) as [->|Hne]; simpl negb; cbv iota.
  2: { eapply run_post; [apply postpone_run |]. by intros x s [? _]. }
  eapply run_bind.
  { apply run_call with (Q := λ _, onTrace K).
    - intros s [HKs Hf]. split; [done |]. exists config, snapshot, stack. split_and!; [done.. |]. eauto.
    - intros s [HKs _]. by apply K_mono. }
  intros [err|].
  - destruct (errors_is ErrNotFastForward err); [apply postpone_run | by apply run_ret].
  - apply landed_run; auto with mono.
Qed.
Lemma reject_run F number reason urls :
  mono F → (∀ tr, F tr → removing options number tr) →
  run strict ok (onTrace F) (reject a number reason urls) (λ _, onTrace F).
Proof.
  intros HF Hr. unfold reject. eapply run_bind.
  { apply run_call with (Q := λ _, onTrace F); [|intros s HFs; by apply HF].
    intros s HFs. split; [done |]. by apply Hr. }
  intros [err|]; [by apply run_ret |]. eapply run_bind; [by apply comment_run |].
  intros [err|]; [by apply run_ret; intros s [? _] |].
  eapply run_bind; [apply report_run |]. intros u. by apply run_ret; intros s [? _].
Qed.

(** ** Settling *)

(** The turns left cover the time left. *)
Definition turnsLeft (fuel : nat) (deadline : time) (tr : list event) : Prop :=
  strict = true → ∃ t, past t tr ∧ (deadline - t <= (Z.of_nat fuel - 1) * (5 * Second))%Z.

Lemma turnsLeft_mono fuel deadline : mono (turnsLeft fuel deadline).
Proof. unfold turnsLeft. auto with mono. Qed.
Hint Resolve turnsLeft_mono : mono.

(** A reading of the clock before the deadline leaves time for a turn more. *)
Lemma turnsLeft_wait fuel deadline tr tr' now :
  turnsLeft (S fuel) deadline tr → now = ask_Now tr → (now < deadline)%Z →
  turnsLeft fuel deadline ((tr ++ [didNow now]) ++ tr' ++ [didWait (5 * Second) false])%list.
Proof.
  intros Hleft -> Hlt Hs. destruct (Hleft Hs) as (t & Hp & Ht). specialize (Hclock Hs tr t Hp).
  exists (ask_Now tr + 5 * Second)%Z. split; [|lia].
  right. exists (tr ++ [didNow (ask_Now tr)])%list, (tr' ++ [didWait (5 * Second) false])%list, (ask_Now tr), (5 * Second)%Z.
  split_and!; [done | set_solver | set_solver | done].
Qed.

Lemma settleLoop_run F fuel stack deadline : mono F →
  run strict ok (onTrace (λ tr, F tr ∧ turnsLeft fuel deadline tr ∧ fuel ≠ 0%nat))
    (settleLoop fuel stack deadline) (λ _, onTrace F).
Proof.
  intros HF. induction fuel as [|fuel IH]; cbn [settleLoop].
  { eapply run_post; [apply run_stuck; by intros _ tr (_ & _ & ?) | by intros u s [? _]]. }
  set (F1 := λ tr, F tr ∧ _). assert (HF1 : mono F1) by (unfold F1; auto with mono).
  eapply run_bind; [apply batchmateRuns_run; [apply justified_reads | done] |]. intros ids.
  eapply run_bind with (T := λ _, onTrace F1).
  { destruct ids as [err|ids]; [by apply run_ret | by apply cancel_run]. }
  intros u. eapply run_bind with (T := λ now, onTrace (λ tr, F tr ∧ ((now < deadline)%Z →
      turnsLeft fuel deadline (tr ++ [didWait (5 * Second) false])%list ∧ (strict = true → fuel ≠ 0%nat)))).
  { apply run_call; [intros s _; by apply justified_reads |]. intros s (HFs & Hleft & _).
    split; [by apply HF |]. intros Hlt. split.
    - apply (turnsLeft_wait _ _ _ [] _ Hleft eq_refl Hlt).
    - intros Hs. destruct (Hleft Hs) as (t & Hp & Ht). pose proof (Hclock Hs _ t Hp). unfold Second in Ht. lia. }
  intros now. destruct (Z.ltb_spec now deadline) as [Hlt|Hge]; unfold Before.
  2: { destruct (Z.ltb_spec now deadline); [lia |]. apply run_ret. by intros s [? _]. }
  destruct (Z.ltb_spec now deadline); [|lia]. cbn [negb].
  eapply run_bind with (T := λ c, onTrace (λ tr, F tr ∧ (c = false → turnsLeft fuel deadline tr ∧ (strict = true → fuel ≠ 0%nat)))).
  { apply run_call; [intros s _; by apply justified_reads |]. intros s [HFs Hl]. split; [by apply HF |].
    intros Hc. simpl. rewrite Hc. by apply Hl. }
  intros [|]; [apply run_ret; by intros s [? _] |].
  destruct fuel as [|fuel].
  - cbn [settleLoop]. eapply run_post; [apply run_stuck | by intros u' s [? _]].
    intros Hs tr [_ Hl]. destruct (Hl eq_refl) as [_ Hne]. by apply Hne.
  - eapply run_conseq; [exact IH | | done]. intros s [HFs Hl]. destruct (Hl eq_refl) as [? _]. done.
Qed.

Lemma settle_run F stack : mono F → run strict ok (onTrace F) (settle a stack) (λ _, onTrace F).
Proof.
  intros HF. unfold settle. destruct (Z.leb_spec (SettleWait (ap_options a)) 0) as [Hle|Hpos]; [by apply run_ret |].
  destruct (_ || _); [by apply run_ret |].
  eapply run_bind; [by apply run_look |]. intros now.
  eapply run_conseq; [by apply (settleLoop_run F) | | done]. intros s [HFs Hnow]. split_and!; [done | | done].
  intros _. exists now. split; [by left |]. unfold settleTurns, Add.
  pose proof (Z.div_mod (SettleWait (ap_options a)) (5 * Second) ltac:(unfold Second; lia)).
  pose proof (Z.mod_pos_bound (SettleWait (ap_options a)) (5 * Second) ltac:(unfold Second; lia)).
  pose proof (Z.div_pos (SettleWait (ap_options a)) (5 * Second) ltac:(lia) ltac:(unfold Second; lia)). lia.
Qed.

(** ** Forming *)

Lemma pickUpstream_run F owns head base : mono F →
  run strict ok (onTrace F) (pickUpstream owns head base) (λ _, onTrace F).
Proof.
  intros HF. induction owns as [|own owns IH]; cbn [pickUpstream]; [by apply run_ret |].
  assert (IH' : ∀ G, run strict ok (onTrace (λ tr, F tr ∧ G tr)) (pickUpstream owns head base) (λ _, onTrace F)).
  { intros G. eapply run_conseq; [exact IH | by intros s [? _] | done]. }
  eapply run_bind; [by apply run_look |]. intros [err|[|]]; [apply IH' | | apply IH'].
  eapply run_bind; [apply run_look; auto with mono |].
  intros [err|[|]]; [|by apply run_ret; intros s [[? _] _] |];
    (eapply run_conseq; [exact IH | by intros s [[? _] _] | done]).
Qed.

(** What the loop over the pull requests has built. *)
Definition built (base : string) (done_ : list Z) (s : formState) (tr : list event) : Prop :=
  length (fs_members s) = length done_ ∧ length (fs_updates s) = length done_
  ∧ fs_tip s = tipOf base (fs_members s) (length done_)
  ∧ ∀ i n, done_ !! i = Some n → rebasedMember snapshot base (fs_members s) (fs_updates s) i n tr.

Lemma rebasedMember_mono base members updates i n : mono (rebasedMember snapshot base members updates i n).
Proof. unfold rebasedMember. auto 20 with mono. Qed.
Hint Resolve rebasedMember_mono : mono.

Lemma built_mono base done_ s : mono (built base done_ s).
Proof. unfold built. auto 10 with mono. Qed.
Hint Resolve built_mono : mono.

Lemma tipOf_app base members m i : (i <= length members)%nat → tipOf base (members ++ [m]) i = tipOf base members i.
Proof. destruct i as [|i]; simpl; [done |]. intros Hi. rewrite lookup_app_l by lia. done. Qed.

Lemma built_snoc base done_ s n (pr : QueuedPR) sha up kept tr :
  built base done_ s tr → queuedMap (Queued snapshot) !! n = Some pr →
  didFetch ("refs/heads/" +:+ HeadRef pr) (inr (HeadSHA pr)) ∈ tr →
  didRebase (fs_tip s) up (HeadSHA pr) (inr sha) ∈ tr →
  built base (done_ ++ [n]) (mkFormState sha (fs_members s ++ [mkMember n sha])
    (fs_updates s ++ [mkBranchUpdate (HeadRef pr) sha (HeadSHA pr)]) (fs_keeps s ++ [kept])) tr.
Proof.
  intros (Hm & Hu & Ht & Hall) Hpr Hf Hr. unfold built. cbn [fs_members fs_updates fs_tip].
  rewrite !length_app, Hm, Hu. cbn [length]. split_and!; [done | done | |].
  - rewrite Nat.add_1_r. simpl. rewrite lookup_app_r, Hm, Nat.sub_diag by lia. done.
  - intros i k Hk. apply lookup_snoc_Some in Hk as [[Hi Hk]|[-> <-]].
    + destruct (Hall i k Hk) as (p & sh & u & ? & Hmi & Hui & ? & ?). exists p, sh, u.
      rewrite tipOf_app, !lookup_app_l by lia. done.
    + exists pr, sha, up. rewrite tipOf_app, !lookup_app_r, Hm, Hu, Nat.sub_diag by lia. by rewrite <- Ht.
Qed.

(** Why the loop stopped. *)
Definition stopped (base : string) (prs : list Z) (e : formStop) (tr : list event) : Prop :=
  match e with
  | StopConflict n => n ∈ prs ∧ (length prs = 1%nat → ∃ (pr : QueuedPR) up err,
      queuedMap (Queued snapshot) !! n = Some pr
      ∧ didRebase base up (HeadSHA pr) (inl err) ∈ tr ∧ errors_is ErrRebaseConflict err = true)
  | _ => True
  end.

Lemma stopped_mono base prs e : mono (stopped base prs e).
Proof. unfold stopped. destruct e; auto 20 with mono. Qed.
Hint Resolve stopped_mono : mono.

Lemma formMember_run F base prs done_ n rest s : mono F →
  prs = (done_ ++ n :: rest)%list → is_Some (queuedMap (Queued snapshot) !! n) →
  run strict ok (onTrace (λ tr, F tr ∧ built base done_ s tr)) (formMember a base n s)
    (λ r, match r with
          | inl e => onTrace (λ tr, F tr ∧ stopped base prs e tr)
          | inr s' => onTrace (λ tr, F tr ∧ built base (done_ ++ [n]) s' tr)
          end).
Proof.
  intros HF Hprs [pr Hpr]. unfold formMember.
  assert (Hq : queuedPR a n = pr) by (unfold queuedPR; simpl; by rewrite Hpr). rewrite Hq.
  eapply run_bind; [apply run_look; auto with mono |]. intros [err|head]; [by apply run_ret; intros st [[? _] _] |].
  destruct (String.eqb_spec head (HeadSHA pr)) as [->|]; cbn [negb]; [|by apply run_ret; intros st [[? _] _]].
  eapply run_bind; [apply pickUpstream_run; auto with mono |]. intros [up kept]. cbn [fst snd].
  eapply run_bind; [apply run_look; auto 10 with mono |]. intros [err|sha]; apply run_ret.
  - intros st [[[HFs Hb] Hf] Hr]. split; [done |].
    destruct (errors_is ErrRebaseConflict err) eqn:EC; [|done]. split; [rewrite Hprs; set_solver |].
    intros Hlen. rewrite Hprs, length_app in Hlen. cbn [length] in Hlen.
    assert (done_ = []) as -> by (apply nil_length_inv; lia).
    destruct Hb as (_ & _ & Ht & _). simpl in Ht. rewrite Ht in Hr. by exists pr, up, err.
  - intros st [[[HFs Hb] Hf] Hr]. split; [done |]. by eapply built_snoc.
Qed.
Definition queuedAll (prs : list Z) : Prop := Forall (λ n, is_Some (queuedMap (Queued snapshot) !! n)) prs.

Lemma commented_mono stack body : mono (commented stack body).
Proof. unfold commented. auto with mono. Qed.
Hint Resolve commented_mono : mono.

Lemma publish_run prs s :
  run strict ok (onTrace (λ tr, (K tr ∧ didFetch ("refs/heads/" +:+ cf_Target config) (inr (TargetSHA snapshot)) ∈ tr)
                         ∧ built (TargetSHA snapshot) prs s tr))
    (publish a prs (TargetSHA snapshot) s) (λ _, onTrace K).
Proof.
  unfold publish. set (F := λ tr, (K tr ∧ _) ∧ _). assert (HF : mono F) by (unfold F; auto with mono).
  eapply run_post; [apply commentMembers_run with (F := F); [done |] | by intros x st [[? _] _]].
  eapply run_bind.
  { apply run_call with (Q := λ _, onTrace F).
    - intros st [[[HK Hf] Hb] Hc]. split; [done |]. destruct Hb as (Hm & Hu & _ & Hall).
      exists config, snapshot, prs, (fs_members s). split_and!; [done.. |]. intros i n Hn. split; [by apply Hall |].
      destruct (Hall i n Hn) as (pr & sha & up & _ & Hmi & _). eexists. exact (Hc i _ Hmi).
    - intros st [HFs _]. by apply HF. }
  intros [err|].
  - destruct (errors_is ErrLeaseRejected err); [apply postpone_run | by apply run_ret].
  - eapply run_bind; [apply report_run |]. intros u.
    eapply run_bind; [by apply settle_run |]. intros u'. by apply run_ret.
Qed.

Lemma conflict_run form prs n :
  queuedAll prs → prs ≠ [] →
  (∀ prs', queuedAll prs' → (length prs' < length prs)%nat → run strict ok (onTrace K) (form prs' (TargetSHA snapshot)) (λ _, onTrace K)) →
  run strict ok (onTrace (λ tr, K tr ∧ stopped (TargetSHA snapshot) prs (StopConflict n) tr))
    (conflict a form prs (TargetSHA snapshot) n) (λ _, onTrace K).
Proof.
  intros Hall Hne Hform. unfold conflict. destruct (Nat.eqb_spec (length prs) 1) as [H1|H1].
  - eapply run_post; [apply reject_run |]; [auto with mono | |by intros x st [? _]].
    intros tr [HK [Hn Hc]]. destruct (Hc H1) as (pr & up & err & Hpr & Hr & HE).
    exists config, snapshot, pr. split_and!; [done.. |]. right. eauto.
  - assert (H2 : (2 <= length prs)%nat) by (destruct prs as [|? [|? ?]]; simpl in *; [done | done | lia]).
    pose proof (Split_lengths prs H2) as (_ & [_ ?] & ?).
    pose proof (Split_app prs) as Happ. destruct (Split prs) as [front back]. cbn [fst snd] in *.
    unfold queuedAll in Hall. rewrite <- Happ, Forall_app in Hall. destruct Hall as [Hfront Hback].
    eapply run_bind; [apply report_run |]. intros u.
    eapply run_bind; [eapply run_conseq; [apply Hform; [done | lia] | by intros st [? _] | done] |].
    intros [err|]; [by apply run_ret | apply Hform; [done | lia]].
Qed.

Lemma formFuel_run fuel prs :
  queuedAll prs → (strict = true → (length prs < fuel)%nat) →
  run strict ok (onTrace K) (formFuel a fuel prs (TargetSHA snapshot)) (λ _, onTrace K).
Proof.
  revert prs. induction fuel as [|fuel IH]; intros prs Hall Hfuel; cbn [formFuel].
  { eapply run_bind; [apply run_stuck; intros Hs tr _; specialize (Hfuel Hs); lia |]. intros u. by apply run_ret. }
  eapply run_bind; [apply openGit_run; auto with mono |]. intros [err|]; [by apply run_ret |].
  eapply run_bind; [apply run_look; auto with mono |]. intros [err|target]; [by apply run_ret; intros s [? _] |].
  destruct (String.eqb_spec target (TargetSHA snapshot)) as [->|]; cbn [negb].
  2: { eapply run_post; [apply postpone_run |]. by intros x s [? _]. }
  set (F := λ tr, K tr ∧ didFetch ("refs/heads/" +:+ cf_Target config) (inr (TargetSHA snapshot)) ∈ tr).
  assert (HF : mono F) by (unfold F; auto with mono).
  eapply run_bind with (T := λ r, match r with
    | inl e => onTrace (λ tr, F tr ∧ stopped (TargetSHA snapshot) prs e tr)
    | inr s => onTrace (λ tr, F tr ∧ built (TargetSHA snapshot) prs s tr)
    end).
  { eapply run_conseq;
      [apply (run_fold_err strict ok (λ done_ s tr, F tr ∧ built (TargetSHA snapshot) done_ s tr) prs _ _
                (λ e, onTrace (λ tr, F tr ∧ stopped (TargetSHA snapshot) prs e tr))) | |].
    - intros done_ n rest s Hprs.
      eapply run_post; [apply (formMember_run F _ prs done_ n rest s) | by intros [e|s'] st]; [done | done |].
      unfold queuedAll in Hall. rewrite Hprs, Forall_app, Forall_cons in Hall. tauto.
    - intros s HFs. split; [exact HFs |]. unfold built. done.
    - intros [e|s] st Hp; exact Hp. }
  intros [[err| |n]|s].
  - by apply run_ret; intros s [[? _] _].
  - eapply run_post; [apply postpone_run |]. by intros x s [[? _] _].
  - destruct (decide (prs = [])) as [->|Hne].
    { apply run_conseq with (P' := λ _, False) (Q' := λ _, onTrace K); [by intros s [] | | done]. intros s [_ [Hn _]]. by apply not_elem_of_nil in Hn. }
    eapply run_conseq; [apply conflict_run; [done | done |] | by intros s [[? _] ?] | done].
    intros prs' Hq Hlt. apply IH; [done |]. intros Hs. specialize (Hfuel Hs). lia.
  - apply publish_run.
Qed.

(** ** Every action of the plan *)

Lemma retry_run F stack ids : mono F → run strict ok (onTrace F) (retry a stack ids) (λ _, onTrace F).
Proof.
  intros HF. unfold retry. apply run_for_each.
  - intros id _. eapply run_bind; [by apply run_write |]. intros e. by apply run_ret; intros s [? _].
  - apply commentMembers_run; [done |]. eapply run_bind; [apply report_run |]. intros u.
    apply run_ret. by intros s [? _].
Qed.

Lemma abandon_run F stack reason prs : mono F → run strict ok (onTrace F) (abandon a stack reason prs) (λ _, onTrace F).
Proof.
  intros HF. unfold abandon. eapply run_bind; [by apply cancelPullRequestRuns_run |]. intros u. apply run_for_each.
  - intros n _. destruct (ap_queued a !! n); [|by apply run_ret].
    unfold stopOnErr. eapply run_bind; [by apply comment_run |]. intros [e|]; by apply run_ret; intros s [? _].
  - eapply run_bind; [apply report_run |]. intros u'. by apply run_ret.
Qed.

Lemma queuedMap_some (prs : list QueuedPR) (pr : QueuedPR) : pr ∈ prs → is_Some (queuedMap prs !! Number pr).
Proof.
  intros Hin. unfold queuedMap. assert (Hg : ∀ m : gmap Z QueuedPR, pr ∈ prs ∨ is_Some (m !! Number pr) →
    is_Some (fold_left (λ m (pr : QueuedPR), <[Number pr := pr]> m) prs m !! Number pr)); [|auto].
  clear Hin. induction prs as [|p prs IH]; simpl; intros m Hc.
  - destruct Hc as [Hc|Hc]; [by apply not_elem_of_nil in Hc | done].
  - apply IH. destruct (decide (Number p = Number pr)) as [->|Hne]; [right; rewrite lookup_insert_eq; eauto |].
    rewrite lookup_insert_ne by done. destruct Hc as [Hc|Hc]; [|by right].
    apply elem_of_cons in Hc as [->|Hc]; [done | by left].
Qed.

Lemma plan_form_queued prs base :
  ActionForm prs base ∈ Actions (PlanTick snapshot config) → base = TargetSHA snapshot ∧ queuedAll prs.
Proof.
  intros Ha. apply plan_form_origin in Ha as [(_ & -> & _ & ->)|(f & Hf & _ & -> & Hp)].
  - split; [done |]. unfold queuedAll, nextOf. destruct (Stacks snapshot); [|done].
    assert (Hc : Forall (λ pr, pr ∈ Queued snapshot) (candidatesOf snapshot config)).
    { rewrite Forall_forall. intros pr Hpr. by apply elem_of_keep in Hpr as [? _]. }
    generalize 0%Z. induction Hc as [|pr prs Hpr _ IH]; intros k; simpl; [done |].
    destruct (_ =? _)%Z; [done |]. constructor; [by apply queuedMap_some | apply IH].
  - pose proof Hf as ((_ & _ & Hb & Hm) & _). split; [done |]. unfold queuedAll.
    assert (Hall : Forall (λ n, is_Some (queuedMap (Queued snapshot) !! n)) (Numbers (if_Stack f))).
    { unfold Numbers. rewrite Forall_map. eapply Forall_impl; [exact Hm |].
      intros m (pr & Hpr & _). by exists pr. }
    rewrite <- (Split_app (Numbers (if_Stack f))), Forall_app in Hall. destruct Hp as [->| ->]; tauto.
Qed.

Lemma plan_reject_queued stack n reason urls :
  ActionReject stack n reason urls ∈ Actions (PlanTick snapshot config) →
  ∀ tr, K tr → removing options n tr.
Proof.
  intros Ha tr HK. pose proof (plan_stack_action _ _ _ Ha) as (f & Hf & Hs).
  pose proof (stackActions_failed _ _ _ Hs ltac:(apply Hf)) as (Hin & Hp & HS).
  destruct (failureActions_cases snapshot f) as [(_ & _ & r & E)|[HR [(m & r & HM & E)|(_ & r & E)]]];
    rewrite E in Hin; apply list_elem_of_In in Hin; simpl in Hin; destruct_or? Hin; simplify_eq.
  pose proof Hf as (_ & _ & _ & Hall). rewrite HM, Forall_singleton in Hall. destruct Hall as (pr & Hpr & _).
  exists config, snapshot, pr. split_and!; [done.. |]. left. exists f, m. unfold failedFinally. done.
Qed.

Lemma apply_run action :
  action ∈ Actions (PlanTick snapshot config) → run strict ok (onTrace K) (apply a action) (λ _, onTrace K).
Proof.
  intros Ha. destruct action as [prs base|stack|stack|stack ids r|stack n r urls|stack r|stack r prs|stack ids|n body];
    cbn [apply].
  - apply plan_form_queued in Ha as [-> Hq]. apply formFuel_run; [done |]. lia.
  - by apply advance_run.
  - apply landed_run; auto with mono.
  - apply retry_run; auto with mono.
  - apply reject_run; [auto with mono |]. by eapply plan_reject_queued.
  - eapply run_bind; [apply report_run |]. intros u. by apply run_ret.
  - apply abandon_run; auto with mono.
  - eapply run_bind; [apply cancel_run; auto with mono |]. intros u. by apply run_ret.
  - eapply run_post; [apply comment_run; auto with mono |]. by intros e s [? _].
Qed.

Lemma Apply_run :
  run strict ok (onTrace K) (Apply (PlanTick snapshot config) snapshot config options) (λ _, onTrace K).
Proof.
  unfold Apply. eapply run_bind; [by apply run_update |]. intros u.
  eapply run_bind with (T := λ _, onTrace K).
  - apply run_for_each; [|by apply run_ret]. intros action Ha. unfold stopOnErr.
    eapply run_bind; [by apply apply_run |]. intros [e|]; by apply run_ret.
  - intros e. eapply run_bind; [apply run_get |]. intros r. by apply run_ret.
Qed.
End applier.

(** * The tick *)

Lemma Tick_run `{MQEnv} strict options :
  (strict = true → ClockLaw) →
  run strict (justified options) (onTrace (λ _, True)) (Tick options) (λ _ _, True).
Proof.
  intros Hclock. pose proof (justified_reads options) as Hreads. unfold Tick.
  destruct (_ && _); [by apply run_ret |].
  eapply run_bind; [apply run_read; auto with mono |]. intros [err|data]; [by apply run_ret |].
  destruct (ParseConfig (decodeYAML data)) as [err|config] eqn:EC; [by apply run_ret |].
  eapply run_bind; [apply run_read; auto with mono |]. intros now.
  eapply run_bind; [apply LoadSnapshot_run; auto with mono |]. intros [err|snapshot]; [by apply run_ret |].
  destruct (DryRun options) eqn:ED; [by apply run_ret |].
  eapply run_bind with (T := λ _ _, True); [|intros r; by apply run_ret].
  eapply run_conseq; [by apply Apply_run | | done].
  intros s [[[_ Hd] _] [_ Hs]]. split; [by exists data | done].
Qed.

(** Every event of a tick is justified by the events before it. *)
Lemma tick_justified `{MQEnv} options l e r :
  mq_trace (runTick options).2 = (l ++ e :: r)%list → justified options l e.
Proof.
  destruct (wp_run eq grows (tickInv false (justified options)) (Tick options) (λ _ _, True) freshTick) as (_ & [HT _] & _).
  - by apply Tick_run.
  - split; [|done]. intros l' e' r' E. by destruct l'.
  - apply HT.
Qed.
