(* ===== verification/MergeTickTheorems.v ===== *)
(** The promises of a merge-queue tick: what it may land, push, reject and
    write, that the target moves at most once, and that it completes. *)

From S2P Require Import Prelude Program GoStrings Provider MergeChecks MergeMarker MergePlan.
From S2P Require Import MergePlanTheorems MergeSnapshot MergeApply MergeTickFacts MergeTickSpecs.

(** * How often the target moves *)

Definition moves (e : event) : bool := match e with didFastForward _ _ _ => true | _ => false end.
Definition eventCount (p : event → bool) (s : mq) : Z := Z.of_nat (length (keep p (mq_trace s))).
Abbreviation moveCount := (eventCount moves).

Section counts.
Context `{MQEnv} (p : event → bool).

Lemma eventCount_log e s : eventCount p (mq_log e s) = eventCount p s + (if p e then 1 else 0).
Proof.
  unfold eventCount, mq_log. simpl. rewrite keep_app, length_app. simpl. destruct (p e); simpl; lia.
Qed.

Lemma bounded_call {A} (answer : list event → A) (did : A → event) :
  (∀ x, p (did x) = false) → bounded (eventCount p) 0 (call answer did).
Proof. intros Hd. apply bounded_act. intros s. simpl. rewrite eventCount_log, Hd. lia. Qed.

Lemma bounded_report f : bounded (eventCount p) 0 (report_ f).
Proof. apply bounded_act. intros s. unfold eventCount. simpl. lia. Qed.

Lemma bounded_get {A} (f : mq → A) : bounded (eventCount p) 0 (get f).
Proof. apply bounded_act. intros s. simpl. lia. Qed.

Lemma bounded_update (f : mq → mq) : (∀ s, mq_trace (f s) = mq_trace s) → bounded (eventCount p) 0 (update f).
Proof. intros Hf. apply bounded_act. intros s. unfold eventCount. simpl. rewrite Hf. lia. Qed.
End counts.

(** Walk through a program whose calls are not counted. *)
Ltac bound_step :=
  first
    [ apply bounded_ret | apply bounded_report | apply bounded_get | apply bounded_update; done
    | apply bounded_call; done | apply bounded_on_err | apply bounded_for_each | apply bounded_fold_err
    | apply bounded_bind0 | intros ? | progress unfold stopOnErr, comment, postpone, stuck, upstream | case_match
    | solve [auto with bounded] ].
Ltac bound := repeat bound_step.

(** Loading a snapshot only asks GitHub. *)
Definition asksGitHub (e : event) : bool :=
  match e with
  | didQueuedPRs _ _ | didCanWrite _ _ | didStatusComment _ _ _ | didChangedFiles _ _ | didCheckRuns _ _
  | didWorkflowRuns _ _ | didCompare _ _ _ | didResolveBranch _ _ => true
  | _ => false
  end.

Lemma bounded_LoadSnapshot `{MQEnv} p config bot now :
  (∀ e, asksGitHub e = true → p e = false) → bounded (eventCount p) 0 (LoadSnapshot config bot now).
Proof.
  intros Hp.
  assert (Hb : ∀ A (answer : list event → A) did, (∀ x, asksGitHub (did x) = true) →
                 bounded (eventCount p) 0 (call answer did)) by (intros; apply bounded_call; auto).
  unfold LoadSnapshot, loadPR, labelerCanWrite, loadInFlight, loadRuns, stackFiles, batchmateRuns.
  repeat first [apply Hb; done | bound_step].
Qed.

Definition isAdvance (action : Action) : bool := match action with ActionAdvance _ => true | _ => false end.

Section moves.
Context `{MQEnv}.

Lemma bounded_batchmateRuns stack : bounded moveCount 0 (batchmateRuns stack).
Proof. unfold batchmateRuns. bound. Qed.
Hint Resolve bounded_batchmateRuns : bounded.

Lemma bounded_openGit a : bounded moveCount 0 (openGit a).
Proof. unfold openGit. bound. Qed.
Hint Resolve bounded_openGit : bounded.

Lemma bounded_cancel ids : bounded moveCount 0 (cancel ids).
Proof. unfold cancel. bound. Qed.
Hint Resolve bounded_cancel : bounded.

Lemma bounded_reject a n reason urls : bounded moveCount 0 (reject a n reason urls).
Proof. unfold reject. bound. Qed.
Hint Resolve bounded_reject : bounded.

Lemma bounded_commentMembers a stack body k :
  bounded moveCount 0 k → bounded moveCount 0 (commentMembers a stack body k).
Proof. unfold commentMembers. intros Hk. apply bounded_for_each; [|done]. intros [i n]. bound. Qed.

Lemma bounded_landed a stack : bounded moveCount 0 (landed a stack).
Proof. apply bounded_commentMembers. bound. Qed.

Lemma bounded_settleLoop fuel stack deadline : bounded moveCount 0 (settleLoop fuel stack deadline).
Proof. induction fuel as [|fuel IH]; cbn [settleLoop]; bound. Qed.
Hint Resolve bounded_settleLoop : bounded.

Lemma bounded_settle a stack : bounded moveCount 0 (settle a stack).
Proof. unfold settle. bound. Qed.
Hint Resolve bounded_settle : bounded.

Lemma bounded_pickUpstream owns head base : bounded moveCount 0 (pickUpstream owns head base).
Proof. induction owns as [|own owns IH]; cbn [pickUpstream]; bound. Qed.
Hint Resolve bounded_pickUpstream : bounded.

Lemma bounded_formMember a base n s : bounded moveCount 0 (formMember a base n s).
Proof. unfold formMember, upstream. bound. Qed.
Hint Resolve bounded_formMember : bounded.

Lemma bounded_publish a prs base s : bounded moveCount 0 (publish a prs base s).
Proof. apply bounded_commentMembers. bound. Qed.
Hint Resolve bounded_publish : bounded.

Lemma bounded_formFuel a fuel prs base : bounded moveCount 0 (formFuel a fuel prs base).
Proof.
  revert prs. induction fuel as [|fuel IH]; intros prs; cbn [formFuel]; [bound |]. unfold conflict. bound.
Qed.

Lemma bounded_apply a action :
  bounded moveCount (if isAdvance action then 1 else 0)%nat (apply a action).
Proof.
  destruct action; cbn [apply isAdvance].
  2: { unfold advance. apply bounded_on_err; [apply bounded_openGit | by intros e |].
       apply bounded_bind0; [by apply bounded_call |]. intros [err|head]; [done |].
       destruct (negb _); [apply (bounded_mono _ 0); [lia | bound] |].
       apply (bounded_bind _ 1 0).
       - apply bounded_act1. intros s. simpl. rewrite eventCount_log. simpl. lia.
       - intros [err|]; [bound | apply bounded_landed]. }
  - apply bounded_formFuel.
  - apply bounded_landed.
  - unfold retry. apply bounded_for_each; [intros id; bound |]. apply bounded_commentMembers. bound.
  - apply bounded_reject.
  - bound.
  - unfold abandon, cancelPullRequestRuns. bound.
  - bound.
  - bound.
Qed.

Lemma bounded_actions {B} (actions : list Action) (f : Action → prog mq (option B)) k :
  (∀ action, bounded moveCount (if isAdvance action then 1 else 0)%nat (f action)) → bounded moveCount 0 k →
  bounded moveCount (length (keep isAdvance actions)) (for_each actions f k).
Proof.
  intros Hf Hk. induction actions as [|action actions IH]; cbn [for_each keep List.filter length]; [done |].
  pose proof (Hf action) as Ha. destruct (isAdvance action); cbn [length].
  - apply (bounded_bind _ 1); [done |]. intros [b|]; [done | exact IH].
  - apply bounded_bind0; [done |]. intros [b|]; [done | exact IH].
Qed.

Lemma plan_advances_once snapshot config :
  (length (keep isAdvance (Actions (PlanTick snapshot config))) <= 1)%nat.
Proof.
  set (actions := Actions (PlanTick snapshot config)).
  destruct (existsb isAdvance actions) eqn:E.
  - apply existsb_exists in E as (action & Hin & Ha). destruct action; try done.
    apply list_elem_of_In, plan_advance_alone in Hin as (l1 & l2 & Hl & H1 & H2). fold actions in Hl.
    assert (Hno : ∀ l, Forall bookkeeping l → keep isAdvance l = []).
    { induction 1 as [|x l Hx _ IH]; [done |]. simpl. rewrite IH. by destruct x. }
    rewrite Hl, keep_app. simpl. rewrite !Hno by done. simpl. lia.
  - rewrite existsb_false in E. assert (keep isAdvance actions = []) as ->; [|simpl; lia].
    destruct (keep isAdvance actions) as [|x l] eqn:EK; [done |].
    assert (Hx : x ∈ keep isAdvance actions) by (rewrite EK; left).
    apply elem_of_keep in Hx as [Hx Ht]. rewrite E in Ht; done.
Qed.

Lemma bounded_Tick options : bounded moveCount 1 (Tick options).
Proof.
  unfold Tick. destruct (_ && _); [done |].
  apply bounded_bind0; [by apply bounded_call |]. intros [err|data]; [done |].
  destruct (ParseConfig (decodeYAML data)) as [err|config]; [done |].
  apply bounded_bind0; [by apply bounded_call |]. intros now.
  apply bounded_bind0; [apply bounded_LoadSnapshot; by intros [] |]. intros [err|snapshot]; [done |].
  destruct (DryRun options); [done |]. apply (bounded_bind _ 1 0); [|done]. unfold Apply.
  apply bounded_bind0; [by apply bounded_update |]. intros u.
  apply (bounded_mono _ (length (keep isAdvance (Actions (PlanTick snapshot config))) + 0)).
  { pose proof (plan_advances_once snapshot config). lia. }
  apply bounded_bind; [|intros e; bound].
  apply bounded_actions; [|done]. intros action. unfold stopOnErr.
  replace (if isAdvance action then 1%nat else 0%nat) with ((if isAdvance action then 1 else 0) + 0)%nat by lia.
  apply bounded_bind; [apply bounded_apply |]. intros [e|]; done.
Qed.
End moves.

(** The calls of a dry run: it asks GitHub and reads the clock. *)
Definition dryCall (e : event) : bool := asksGitHub e || match e with didReadFile _ _ | didNow _ => true | _ => false end.

Lemma dry_run_calls `{MQEnv} options :
  DryRun options = true → Forall (λ e, dryCall e = true) (mq_trace (runTick options).2).
Proof.
  intros Hd.
  assert (Hb : bounded (eventCount (λ e, negb (dryCall e))) 0 (Tick options)).
  { unfold Tick. rewrite Hd. cbn [negb andb].
    apply bounded_bind0; [by apply bounded_call |]. intros [err|data]; [done |].
    destruct (ParseConfig _) as [err|config]; [done |].
    apply bounded_bind0; [by apply bounded_call |]. intros now.
    apply bounded_bind0; [apply bounded_LoadSnapshot; by intros [] |]. by intros [err|snapshot]. }
  pose proof (bounded_run _ 0 _ freshTick Hb) as Hc. unfold execP in Hc. unfold runTick. revert Hc.
  change (eventCount _ freshTick) with 0. unfold eventCount.
  generalize (mq_trace (runP (Tick options) freshTick).2). intros tr Hc. rewrite Forall_forall. intros e He.
  destruct (dryCall e) eqn:E; [done |].
  assert (Hin : e ∈ keep (λ e, negb (dryCall e)) tr) by (apply elem_of_keep; by rewrite E).
  destruct (keep _ tr); [by apply not_elem_of_nil in Hin | simpl in Hc; lia].
Qed.

(** * An example environment *)

Module TickDemo.
Local Open Scope string_scope.
Local Open Scope Z_scope.

Fixpoint repeatChar (c : ascii) (n : nat) : string :=
  match n with O => "" | S n => String c (repeatChar c n) end.
Definition sha (c : ascii) : string := repeatChar c 40.

Definition pr (n : Z) (head : string) (branch : string) : PR :=
  mkPR n head branch "main" true false ((63800000000 + n) * Second) "alice".
Definition prs : list PR := [pr 1 (sha "b") "one"; pr 2 (sha "c") "two"].

Definition stack : Stack :=
  mkStack (sha "a") [mkMember 1 (sha "b"); mkMember 2 (sha "c")] 0 (UnixTime 1700000000).

(** The clock: at least every reading so far, plus the waits since. *)
Definition tickClock (c : time) (e : event) : time :=
  match e with didNow t => Z.max c t | didWait d false => c + Z.max 0 d | _ => c end.
Definition clock (tr : list event) : time := fold_left tickClock tr (UnixTime 1700000060).

Definition config : configFile := mkConfigFile "" "" 2 "" [mkRequiredCheck "test" []].

(** [queue] lists the pull requests, [inFlight] tells whether the second one
    carries the stack's marker, [clean] whether rebases succeed. *)
Definition env (queue : list PR) (inFlight clean : bool) : MQEnv := {|
  ask_ResolveBranch _ _ := inr (sha "a");
  ask_ReadFile _ _ := inr "required_checks: [{name: test}]";
  ask_QueuedPRs _ _ := inr queue;
  ask_CanWrite _ _ := inr true;
  ask_StatusComment _ n _ := inr (if inFlight && (n =? 2) then stackComment stack 1 [] else "");
  ask_UpsertStatusComment _ _ _ _ := None;
  ask_ChangedFiles _ _ := inr [];
  ask_CheckRuns _ _ := inr [mkCheckRun 1 "test" "completed" "success" "" 5 (UnixTime 1700000010)];
  ask_WorkflowRuns _ _ := inr [];
  ask_Compare _ _ _ := inr false;
  ask_CancelRun _ _ := None;
  ask_RerunFailedJobs _ _ := None;
  ask_RemoveLabel _ _ _ := None;
  ask_OpenGit _ _ := None;
  ask_Fetch _ ref :=
    inr (if String.eqb ref "refs/heads/one" then sha "b"
         else if String.eqb ref "refs/heads/two" then sha "c" else sha "a");
  ask_IsAncestor _ _ _ := inr true;
  ask_Rebase _ _ _ head :=
    if clean then inr (if String.eqb head (sha "b") then sha "d" else sha "e")
    else inl (Sentinel ErrRebaseConflict);
  ask_PushBranches _ _ := None;
  ask_FastForward _ _ _ := None;
  ask_Now tr := clock tr;
  ask_Wait _ _ := false;
  decodeYAML _ := Some config
|}.

Definition options : Options := mkOptions "queue[bot]" false (12 * Second).

Lemma tickClock_le c e : c <= tickClock c e.
Proof. unfold tickClock. destruct e as [| | | | | | | | | | | | | | | | | | |t|d [|]]; lia. Qed.

Lemma clock_le tr c : c <= fold_left tickClock tr c.
Proof.
  revert c. induction tr as [|e tr IH]; intros c; simpl; [lia |].
  pose proof (tickClock_le c e). specialize (IH (tickClock c e)). lia.
Qed.

Lemma clock_after tr e c : e ∈ tr → ∃ c', c <= c' ∧ tickClock c' e <= fold_left tickClock tr c.
Proof.
  revert c. induction tr as [|x tr IH]; intros c; [by intros ?%not_elem_of_nil |].
  intros [->|Hin]%elem_of_cons; simpl.
  - exists c. split; [lia | apply clock_le].
  - destruct (IH (tickClock c x) Hin) as (c' & ? & ?). exists c'. pose proof (tickClock_le c x). lia.
Qed.

(** The example's clock obeys the clock's law. *)
Lemma clockLaw queue inFlight clean : @ClockLaw (env queue inFlight clean).
Proof.
  intros tr t Hp. change (t <= clock tr). unfold clock.
  destruct Hp as [Hin|(tr1 & tr2 & t0 & d & -> & H0 & Hw & ->)].
  - destruct (clock_after tr _ (UnixTime 1700000060) Hin) as (c & _ & Hc). simpl in Hc. lia.
  - rewrite fold_left_app. destruct (clock_after tr1 _ (UnixTime 1700000060) H0) as (c & _ & Hc). simpl in Hc.
    destruct (clock_after tr2 _ (fold_left tickClock tr1 (UnixTime 1700000060)) Hw) as (c' & ? & Hc').
    simpl in Hc'. lia.
Qed.

(** The part of a trace before its first event of a kind. *)
Fixpoint before (p : event → bool) (tr : list event) : list event :=
  match tr with [] => [] | e :: tr => if p e then [] else e :: before p tr end.
Fixpoint after (p : event → bool) (tr : list event) : list event :=
  match tr with [] => [] | e :: tr => if p e then tr else after p tr end.

Definition landTrace : list event := mq_trace (@runTick (env prs true true) options).2.
Definition formTrace : list event := mq_trace (@runTick (env prs false true) options).2.
Definition rejectTrace : list event :=
  mq_trace (@runTick (env [pr 1 (sha "b") "one"] false false) options).2.
End TickDemo.

(** * What a tick promises *)

(** What a queue knows of a commit when it lands it on [branch], from the calls [l]. *)
Definition landsTested `{MQEnv} (options : Options) (branch sha : string) (l : list event) : Prop :=
  ∃ config stack prs checks now,
    configured config l ∧ branch = cf_Target config
    ∧ marked (BotLogin options) stack l ∧ sha = topSHA stack
    ∧ didResolveBranch branch (inr (st_Base stack)) ∈ l
    ∧ didQueuedPRs (cf_Label config) (inr prs) ∈ l
    ∧ Forall (λ m, ∃ pr, pr ∈ prs ∧ Number pr = m_Number m ∧ HeadSHA pr = m_SHA m) (st_Members stack)
    ∧ evaluated config now stack checks l ∧ State_ checks = StateSuccess
    ∧ ∃ ref, didFetch ref (inr sha) ∈ l.

Lemma landed_tested `{MQEnv} options l branch sha e r :
  mq_trace (runTick options).2 = (l ++ didFastForward branch sha e :: r)%list → landsTested options branch sha l.
Proof.
  intros Hl. apply tick_justified in Hl as [_ Hj].
  destruct Hj as (config & snapshot & stack & [Hc (Hres & (prs & Hprs & Hq) & Hst)] & Ha & -> & -> & Hf).
  apply plan_advance_origin in Ha as (f & (Hin & _ & Hb & Hm) & <- & HS).
  rewrite Forall_forall in Hst. destruct (Hst f Hin) as [Hmark Hev].
  unfold checksState in HS. destruct (if_Checks f) as [checks|]; [|done]. injection HS as HS.
  exists config, (if_Stack f), prs, checks, (sn_Now snapshot). rewrite Hb. split_and!; [done.. | | by apply Hev | done | done].
  eapply Forall_impl; [exact Hm |]. intros m (pr & Hpr & Hsha). apply queuedMap_in in Hpr as [Hpr Hn].
  exists (q_PR pr). split_and!; [|done..].
  apply (elem_of_Permutation_proper _ _ _ (sortFIFO_perm prs)). rewrite <- Hq. apply list_elem_of_fmap. by exists pr.
Qed.

(** C3: The target is fast-forwarded only to the top commit of a stack that
    the queue's own marker describes, that is based on the target's current
    commit, whose members are all still queued at the recorded commits, whose
    required checks GitHub reported green on exactly that commit, and whose
    branch git fetched at that commit just before. *)
Theorem tick_lands_tested `{MQEnv} options l branch sha e r :
  mq_trace (runTick options).2 = l ++ didFastForward branch sha e :: r →
  ∃ config stack prs checks now,
    configured config l ∧ branch = cf_Target config
    ∧ marked (BotLogin options) stack l ∧ sha = topSHA stack
    ∧ didResolveBranch branch (inr (st_Base stack)) ∈ l
    ∧ didQueuedPRs (cf_Label config) (inr prs) ∈ l
    ∧ Forall (λ m, ∃ pr, pr ∈ prs ∧ Number pr = m_Number m ∧ HeadSHA pr = m_SHA m) (st_Members stack)
    ∧ evaluated config now stack checks l ∧ State_ checks = StateSuccess
    ∧ ∃ ref, didFetch ref (inr sha) ∈ l.
Proof. exact (landed_tested options l branch sha e r). Qed.

Lemma tick_lands_tested_witness :
  let l := TickDemo.before moves TickDemo.landTrace in
  didFastForward "main" (TickDemo.sha "c") None ∈ TickDemo.landTrace
  ∧ ∃ config stack prs checks now,
    @configured (TickDemo.env TickDemo.prs true true) config l ∧ "main"%string = cf_Target config
    ∧ marked (BotLogin TickDemo.options) stack l ∧ TickDemo.sha "c" = topSHA stack
    ∧ didResolveBranch "main" (inr (st_Base stack)) ∈ l
    ∧ didQueuedPRs (cf_Label config) (inr prs) ∈ l
    ∧ Forall (λ m, ∃ pr, pr ∈ prs ∧ Number pr = m_Number m ∧ HeadSHA pr = m_SHA m) (st_Members stack)
    ∧ evaluated config now stack checks l ∧ State_ checks = StateSuccess
    ∧ ∃ ref, didFetch ref (inr (TickDemo.sha "c")) ∈ l.
Proof.
  assert (E : TickDemo.landTrace = TickDemo.before moves TickDemo.landTrace
     ++ didFastForward "main" (TickDemo.sha "c") None :: TickDemo.after moves TickDemo.landTrace)
    by (vm_compute; reflexivity).
  split; [rewrite E; apply elem_of_app; right; left |].
  exact (@tick_lands_tested (TickDemo.env TickDemo.prs true true) TickDemo.options _ _ _ _ _ E).
Defined.

(** A tick moves the target at most once. *)
Theorem tick_moves_target_once `{MQEnv} options : moveCount (runTick options).2 <= 1.
Proof. exact (bounded_run moveCount 1 (Tick options) freshTick (bounded_Tick options)). Qed.

(** What a queue knows of the branches it pushes, from the calls [l]. *)
Definition pushesRecorded `{MQEnv} (options : Options) (updates : list BranchUpdate) (l : list event) : Prop :=
  ∃ config snapshot (prs : list Z) members,
    known options config snapshot l
    ∧ didFetch (String.append "refs/heads/" (cf_Target config)) (inr (TargetSHA snapshot)) ∈ l
    ∧ length updates = length prs ∧ length members = length prs
    ∧ ∀ i n, prs !! i = Some n →
        rebasedMember snapshot (TargetSHA snapshot) members updates i n l
        ∧ recordedMember options (mkStack (TargetSHA snapshot) members 0 (sn_Now snapshot)) i n l.

Lemma pushed_recorded `{MQEnv} options l updates e r :
  mq_trace (runTick options).2 = (l ++ didPushBranches updates e :: r)%list → pushesRecorded options updates l.
Proof. intros Hl. apply tick_justified in Hl as [_ Hj]. exact Hj. Qed.

(** Branches are only pushed as a stack: a chain of rebases that starts at
    the target's commit, fetched again and unchanged since the snapshot, each
    branch leased on the head the snapshot saw and fetched at that head, and
    with the status comment of every member, the stack's marker included,
    written before the push. *)
Theorem tick_pushes_recorded_chain `{MQEnv} options l updates e r :
  mq_trace (runTick options).2 = l ++ didPushBranches updates e :: r →
  ∃ config snapshot (prs : list Z) members,
    known options config snapshot l
    ∧ didFetch (String.append "refs/heads/" (cf_Target config)) (inr (TargetSHA snapshot)) ∈ l
    ∧ length updates = length prs ∧ length members = length prs
    ∧ ∀ i n, prs !! i = Some n →
        rebasedMember snapshot (TargetSHA snapshot) members updates i n l
        ∧ recordedMember options (mkStack (TargetSHA snapshot) members 0 (sn_Now snapshot)) i n l.
Proof. exact (pushed_recorded options l updates e r). Qed.

Definition isPush (e : event) : bool := match e with didPushBranches _ _ => true | _ => false end.

Lemma tick_pushes_recorded_chain_witness :
  let l := TickDemo.before isPush TickDemo.formTrace in
  ∃ config snapshot (prs : list Z) members,
    @known (TickDemo.env TickDemo.prs false true) TickDemo.options config snapshot l
    ∧ didFetch (String.append "refs/heads/" (cf_Target config)) (inr (TargetSHA snapshot)) ∈ l
    ∧ 2%nat = length prs ∧ length members = length prs
    ∧ ∀ i n, prs !! i = Some n →
        rebasedMember snapshot (TargetSHA snapshot) members
          [mkBranchUpdate "one" (TickDemo.sha "d") (TickDemo.sha "b");
           mkBranchUpdate "two" (TickDemo.sha "e") (TickDemo.sha "c")] i n l
        ∧ recordedMember TickDemo.options (mkStack (TargetSHA snapshot) members 0 (sn_Now snapshot)) i n l.
Proof.
  assert (E : TickDemo.formTrace = TickDemo.before isPush TickDemo.formTrace
     ++ didPushBranches [mkBranchUpdate "one" (TickDemo.sha "d") (TickDemo.sha "b");
           mkBranchUpdate "two" (TickDemo.sha "e") (TickDemo.sha "c")] None
        :: TickDemo.after isPush TickDemo.formTrace) by (vm_compute; reflexivity).
  exact (@tick_pushes_recorded_chain (TickDemo.env TickDemo.prs false true) TickDemo.options _ _ _ _ E).
Defined.


Definition isRemoval (e : event) : bool := match e with didRemoveLabel _ _ _ => true | _ => false end.


(** A dry run only reads: it writes no comment, label, run or branch, and
    opens no clone. *)
Theorem dry_run_reads_only `{MQEnv} options :
  DryRun options = true → Forall (λ e, reads e = true) (mq_trace (runTick options).2).
Proof.
  intros Hd. rewrite Forall_forall. intros e He.
  apply list_elem_of_split in He as (l & r & Hl). apply tick_justified in Hl as [Hw _].
  destruct (reads e); [done |]. specialize (Hw eq_refl). congruence.
Qed.

Lemma dry_run_reads_only_witness :
  let options := mkOptions "queue[bot]" true 0 in
  Forall (λ e, reads e = true) (mq_trace (@runTick (TickDemo.env TickDemo.prs false true) options).2).
Proof.
  exact (@dry_run_reads_only (TickDemo.env TickDemo.prs false true) (mkOptions "queue[bot]" true 0) eq_refl).
Defined.

(** C35: A tick completes: the length of a batch bounds the bisection of rebase
    conflicts, and the settle wait, divided in turns of five seconds, bounds
    the loop that cancels redundant runs, as long as the clock never goes back
    and a wait takes its time. *)
Theorem tick_completes `{MQEnv} options : ClockLaw → mq_stuck (runTick options).2 = false.
Proof.
  intros Hclock.
  destruct (wp_run eq grows (tickInv true (justified options)) (Tick options) (λ _ _, True) freshTick) as (_ & [_ Hs] & _).
  - by apply Tick_run.
  - split; [|done]. intros l e r E. by destruct l.
  - by apply Hs.
Qed.

Lemma tick_completes_witness :
  mq_stuck (@runTick (TickDemo.env TickDemo.prs false false) TickDemo.options).2 = false
  ∧ Formed (mq_report (@runTick (TickDemo.env TickDemo.prs false true) TickDemo.options).2) = [[1; 2]]
  ∧ Rejected (mq_report (@runTick (TickDemo.env TickDemo.prs false false) TickDemo.options).2) = [1; 2].
Proof.
  split_and!; [| vm_compute; reflexivity..].
  apply (@tick_completes (TickDemo.env TickDemo.prs false false)), TickDemo.clockLaw.
Defined.
