(* ===== verification/MergeGitHub.v ===== *)
(** The merge queue's REST client (src/mergequeue/github.go) and its clone
    (src/mergequeue/git.go), and a tick on GitHub and git themselves: the interfaces of
    src/mergequeue/mergequeue.go implemented by them, as [runMergeQueueTick] of
    src/cmd/runneryard/merge_queue.go puts them together.

    HTTP, git processes, the environment and URL parsing are the class [QueueWorld],
    the decoding of JSON and YAML the class [GitHubJSON].  [MQEnv] answers a call from the
    calls before it; here the answer is the one the client gives in the world those calls
    have led to ([replay]). *)

From S2P Require Import GoPatterns Prelude Program Provider GoStrings GoText MergeChecks MergeMarker.
From S2P Require Import MergePlan MergeSnapshot MergeApply.

#[local] Open Scope string_scope.
#[local] Open Scope Z_scope.

Definition defaultGitHubAPIURL : string := "https://api.github.com".
Definition maxGitHubResponse : Z := 1048576.
Definition maxCompareResponse : Z := 8388608.
Definition pageSize : nat := 100.
Definition maxPages : nat := 30.

(** * Text *)

(** [url.QueryEscape] *)
Definition queryByte (c : ascii) : bool := letter_byte c || digit_byte c || containsByte c "-_.~".
Fixpoint QueryEscape (s : string) : string :=
  match s with
  | "" => ""
  | String c s =>
    (if Ascii.eqb c " " then "+" else if queryByte c then String c "" else "%" +:+ hexByte upperHex c) +:+ QueryEscape s
  end.

(** * Requests and commands *)

Record RESTClient := mkRESTClient { rc_Owner : string; rc_Repo : string; rc_Token : string; rc_BaseURL : string }.

Record apiRequest := mkApiRequest {
  aq_Method : string; aq_URL : string; aq_Accept : string; aq_Authorization : string; aq_Body : option string
}.
Record apiResponse := mkApiResponse { ap_StatusCode : Z; ap_Body : string; ap_ReadErr : option error }.

Record gitCommand := mkGitCommand { gc_Dir : string; gc_Args : list string; gc_Env : list string }.
(** How a process ended: [None], an [exec.ExitError], or another error. *)
Inductive processError := ExitError (code : Z) | NotRun (err : error).
Record gitOutput := mkGitOutput { go_stdout : string; go_stderr : string; go_err : option processError }.

Class QueueWorld (W : Type) := mkQueueWorld {
  (** What [http.NewRequest] says of a URL. *)
  qw_NewRequest : string → bool;
  qw_Do : apiRequest → W → (error + apiResponse) * W;
  qw_Git : gitCommand → W → gitOutput * W;
  qw_LookupEnv : string → option string;
  qw_MkdirTemp : W → (error + string) * W;
  (** [url.Parse]: the scheme and the host. *)
  qw_ParseURL : string → option (string * string);
  (** The orbits of Unicode's simple case folding: a representative of each. *)
  qw_Fold : N → N;
  qw_Now : W → time * W;
  qw_Wait : duration → W → bool * W
}.

(** [getList]'s elements and the documents, decoded. *)
Record pullJSON := mkPullJSON {
  pj_Draft : bool; pj_HeadSHA : string; pj_HeadRef : string; pj_HeadRepo : option string;
  pj_BaseRef : string; pj_BaseRepo : option string
}.
Record timelineEvent := mkTimelineEvent { te_Event : string; te_Label : string; te_Actor : string; te_CreatedAt : time }.
Record issueComment := mkIssueComment { ic_ID : Z; ic_Body : string; ic_Login : string; ic_Type : string }.

Class GitHubJSON := mkGitHubJSON {
  gj_Ref : string → option string;
  (** The number of an issue, and whether it has a pull request that is not null. *)
  gj_Issues : string → option (list (Z * bool));
  gj_Pull : string → option pullJSON;
  gj_Timeline : string → option (list timelineEvent);
  gj_Permission : string → option string;
  gj_Comments : string → option (list issueComment);
  (** The name of a file, and the one before. *)
  gj_Files : string → option (list (string * string));
  gj_CheckRuns : string → option (Z * list CheckRun);
  gj_WorkflowRuns : string → option (list WorkflowRun);
  gj_Compare : string → option string;
  gj_YAML : string → option configFile
}.

(** [LocalGit] *)
Record LocalGit := mkLocalGit { lg_Dir : string; lg_env : list string }.

Record queueSys (W : Type) := mkQueueSys {
  qworld : W; requests : list apiRequest; commands : list gitCommand; clone : option LocalGit
}.
Arguments mkQueueSys {W}.
Arguments qworld {W}.
Arguments requests {W}.
Arguments commands {W}.
Arguments clone {W}.

Section queue.
Context {W : Type} `{!QueueWorld W, !GitHubJSON} (c : RESTClient).
Abbreviation P := (prog (queueSys W)).

(** [strings.EqualFold] *)
Definition EqualFold (s t : string) : bool := equalFold qw_Fold s t.

Definition queueWorld_ {A} (f : W → A * W) : P A :=
  act (λ s, let '(x, w) := f (qworld s) in (x, mkQueueSys w (requests s) (commands s) (clone s))).

Definition sendAPI (r : apiRequest) : P (error + apiResponse) :=
  act (λ s, let '(x, w) := qw_Do r (qworld s) in (x, mkQueueSys w (r :: requests s) (commands s) (clone s))).

Definition repoPath (suffix : string) : string :=
  "/repos/" +:+ PathEscape (rc_Owner c) +:+ "/" +:+ PathEscape (rc_Repo c) +:+ suffix.

Definition escapePath (name : string) : string := Join "/" (map PathEscape (splitOn "/" name)).

(** [githubAPIStatusError] *)
Definition githubStatus (code : Z) : error := StatusError "github" code "".
Definition isNotFound (e : error) : bool :=
  match errors_as as_status e with Some (_, code) => code =? 404 | None => false end.

Definition apiURL (path : string) : string :=
  TrimRightSlash (if String.eqb (rc_BaseURL c) "" then defaultGitHubAPIURL else rc_BaseURL c) +:+ path.

(** [do]; the body read is cut off after [limit] and one byte more. *)
Definition do_ (method path : string) (input : option string) (accept : string) (limit : Z) (expected : list Z)
    : P (error + string) :=
  let url := apiURL path in
  if negb (qw_NewRequest url) then mret (inl (ErrorString "create GitHub request"))
  else
  answer ← sendAPI (mkApiRequest method url accept ("Bearer " +:+ rc_Token c) input);
  mret (match answer with
  | inl err => inl err
  | inr r =>
    let tooLarge := limit <? Z.of_nat (String.length (ap_Body r)) in
    if negb tooLarge && bool_decide (is_Some (ap_ReadErr r)) then inl (ErrorString "read GitHub response")
    else if negb (bool_decide (ap_StatusCode r ∈ expected)) then inl (githubStatus (ap_StatusCode r))
    else if tooLarge then inl (ErrorString "GitHub response too large")
    else inr (ap_Body r)
  end).

Definition githubJSON : string := "application/vnd.github+json".

(** [doJSON] without an output, and with one. *)
Definition doPlain (method path : string) (input : option string) (expected : Z) : P (option error) :=
  answer ← do_ method path input githubJSON maxGitHubResponse [expected];
  mret (match answer with inl err => Some err | inr _ => None end).

Definition doJSON {T} (decode : string → option T) (path : string) : P (error + T) :=
  answer ← do_ "GET" path None githubJSON maxGitHubResponse [200];
  mret (match answer with
        | inl err => inl err
        | inr body => match decode body with Some x => inr x | None => inl (ErrorString "decode GitHub response") end
        end).

(** [getList], from page [page] on. *)
Definition pagedPath (path : string) (page : Z) : string :=
  path +:+ (if containsByte "?" path then "&" else "?") +:+ "per_page=" +:+ Itoa (Z.of_nat pageSize)
  +:+ "&page=" +:+ Itoa page.

Fixpoint listFrom {T} (decode : string → option (list T)) (path : string) (turns : nat) (page : Z) (all : list T)
    : P (error + list T) :=
  match turns with
  | O => mret (inr all)
  | S turns =>
    items ← doJSON decode (pagedPath path page);
    match items with
    | inl err => mret (inl err)
    | inr items =>
      let all := app all items in
      if (length items <? pageSize)%nat then mret (inr all) else listFrom decode path turns (page + 1) all
    end
  end.

Definition getList {T} (decode : string → option (list T)) (path : string) : P (error + list T) :=
  listFrom decode path maxPages 1 [].

Definition wrapErr {T} (msg : string) (r : error + T) : error + T :=
  match r with inl err => inl (WrapError msg err) | inr x => inr x end.

(** * Reading *)

Definition restResolveBranch (branch : string) : P (error + string) :=
  r ← doJSON gj_Ref (repoPath ("/git/ref/heads/" +:+ escapePath branch));
  mret (wrapErr "resolve branch" r).

Definition restReadFile (path : string) : P (error + string) :=
  r ← do_ "GET" (repoPath ("/contents/" +:+ escapePath path)) None "application/vnd.github.raw+json" maxGitHubResponse [200];
  mret (wrapErr "read" r).

Definition pullRequest (number : Z) : P (error + PR) :=
  r ← doJSON gj_Pull (repoPath ("/pulls/" +:+ Itoa number));
  mret (match r with
  | inl err => inl (WrapError "pull request" err)
  | inr pull =>
    let sameRepo := match pj_HeadRepo pull, pj_BaseRepo pull with
                    | Some head, Some base => EqualFold head base | _, _ => false end in
    inr (mkPR number (pj_HeadSHA pull) (pj_HeadRef pull) (pj_BaseRef pull) sameRepo (pj_Draft pull) zeroTime "")
  end).

(** The newest event that added the label. *)
Definition newestLabeled (label : string) (events : list timelineEvent) : time * string :=
  fold_left (λ newest e,
    if String.eqb (te_Event e) "labeled" && EqualFold (te_Label e) label && negb (Before (te_CreatedAt e) newest.1)
    then (te_CreatedAt e, te_Actor e) else newest) events (zeroTime, "").

Definition lastLabeled (number : Z) (label : string) : P (error + time * string) :=
  r ← getList gj_Timeline (repoPath ("/issues/" +:+ Itoa number +:+ "/timeline"));
  mret (match r with
        | inl err => inl (WrapError "timeline" err)
        | inr events => inr (newestLabeled label events)
        end).

Definition restQueuedPRs (label : string) : P (error + list PR) :=
  r ← getList gj_Issues (repoPath ("/issues?state=open&labels=" +:+ QueryEscape label));
  match r with
  | inl err => mret (inl (WrapError "list queued pull requests" err))
  | inr issues =>
    fold_err issues (λ issue prs,
      if negb issue.2 then mret (inr prs)
      else
      pr ← pullRequest issue.1;
      match pr with
      | inl err => mret (inl err)
      | inr pr =>
        labeled ← lastLabeled issue.1 label;
        mret (match labeled with
        | inl err => inl err
        | inr (at_, by_) =>
          inr (app prs [mkPR (Number pr) (HeadSHA pr) (HeadRef pr) (BaseRef pr) (SameRepo pr) (Draft pr) at_ by_])
        end)
      end) []
  end.

Definition restCanWrite (login : string) : P (error + bool) :=
  r ← doJSON gj_Permission (repoPath ("/collaborators/" +:+ PathEscape login +:+ "/permission"));
  mret (match r with
        | inl err => if isNotFound err then inr false else inl (WrapError "permission" err)
        | inr permission => inr (String.eqb permission "admin" || String.eqb permission "write")
        end).

(** The newest status comment that the bot wrote. *)
Definition ownComment (botLogin : string) (comment : issueComment) : bool :=
  String.eqb (ic_Type comment) "Bot" && EqualFold (ic_Login comment) botLogin && HasPrefix (ic_Body comment) StatusPrefix.

Definition statusComment (number : Z) (botLogin : string) : P (error + option issueComment) :=
  r ← getList gj_Comments (repoPath ("/issues/" +:+ Itoa number +:+ "/comments"));
  mret (match r with
        | inl err => inl (WrapError "comments" err)
        | inr comments => inr (last (keep (ownComment botLogin) comments))
        end).

Definition restStatusComment (number : Z) (botLogin : string) : P (error + string) :=
  r ← statusComment number botLogin;
  mret (match r with
        | inl err => inl err
        | inr (Some comment) => inr (ic_Body comment)
        | inr None => inr ""
        end).

Definition restChangedFiles (number : Z) : P (error + list string) :=
  r ← getList gj_Files (repoPath ("/pulls/" +:+ Itoa number +:+ "/files"));
  mret (match r with
        | inl err => inl (WrapError "files" err)
        | inr files => inr (concat (map (λ f, f.1 :: if String.eqb f.2 "" then [] else [f.2]) files))
        end).

Definition checkRunsPath (sha : string) (page : Z) : string :=
  repoPath ("/commits/" +:+ PathEscape sha +:+ "/check-runs?filter=all&per_page=" +:+ Itoa (Z.of_nat pageSize)
            +:+ "&page=" +:+ Itoa page).

Fixpoint checkRunsFrom (sha : string) (turns : nat) (page : Z) (runs : list CheckRun) : P (error + list CheckRun) :=
  match turns with
  | O => mret (inr runs)
  | S turns =>
    r ← doJSON gj_CheckRuns (checkRunsPath sha page);
    match r with
    | inl err => mret (inl (WrapError "check runs" err))
    | inr (total, items) =>
      let runs := app runs items in
      if (length items <? pageSize)%nat || (total <=? Z.of_nat (length runs)) then mret (inr runs)
      else checkRunsFrom sha turns (page + 1) runs
    end
  end.

Definition restCheckRuns (sha : string) : P (error + list CheckRun) := checkRunsFrom sha maxPages 1 [].

Definition restWorkflowRuns (sha : string) : P (error + list WorkflowRun) :=
  r ← doJSON gj_WorkflowRuns (repoPath ("/actions/runs?head_sha=" +:+ QueryEscape sha +:+ "&per_page="
                                        +:+ Itoa (Z.of_nat pageSize)));
  mret (wrapErr "workflow runs" r).

Definition restIsAncestor (ancestor descendant : string) : P (error + bool) :=
  r ← do_ "GET" (repoPath ("/compare/" +:+ PathEscape ancestor +:+ "..." +:+ PathEscape descendant +:+ "?per_page=1"))
        None githubJSON maxCompareResponse [200];
  mret (match r with
  | inl err => if isNotFound err then inr false else inl (WrapError "compare" err)
  | inr body =>
    match gj_Compare body with
    | None => inl (ErrorString "decode GitHub compare response")
    | Some status => inr (String.eqb status "ahead" || String.eqb status "identical")
    end
  end).

(** * Writing *)

Definition commentBody (body : string) : string := Marshal (JObject [("body", JString body)]).

Definition restUpsertStatusComment (number : Z) (botLogin body : string) : P (option error) :=
  r ← statusComment number botLogin;
  match r with
  | inl err => mret (Some err)
  | inr (Some comment) =>
    if String.eqb (ic_Body comment) body then mret None
    else
    err ← doPlain "PATCH" (repoPath ("/issues/comments/" +:+ Itoa (ic_ID comment))) (Some (commentBody body)) 200;
    mret (WrapError "edit the status comment" <$> err)
  | inr None =>
    err ← doPlain "POST" (repoPath ("/issues/" +:+ Itoa number +:+ "/comments")) (Some (commentBody body)) 201;
    mret (WrapError "comment" <$> err)
  end.

Definition doStatus (method path : string) (expected : list Z) (msg : string) : P (option error) :=
  r ← do_ method (repoPath path) None githubJSON maxGitHubResponse expected;
  mret (match r with inl err => Some (WrapError msg err) | inr _ => None end).

Definition restCancelRun (id : Z) : P (option error) :=
  doStatus "POST" ("/actions/runs/" +:+ Itoa id +:+ "/cancel") [202; 409] "cancel run".

Definition restRerunFailedJobs (id : Z) : P (option error) :=
  err ← (doPlain "POST" (repoPath ("/actions/runs/" +:+ Itoa id +:+ "/rerun-failed-jobs")) None 201 : P (option error));
  mret (WrapError "re-run the failed jobs" <$> (err : option error)).

Definition restRemoveLabel (number : Z) (label : string) : P (option error) :=
  doStatus "DELETE" ("/issues/" +:+ Itoa number +:+ "/labels/" +:+ PathEscape label) [200; 404] "remove the label".

(** * Git *)

Definition committerName : string := "runneryard-merge-queue".
Definition committerEmail : string := "merge-queue@runneryard.invalid".

Definition inheritedEnvironment : list string :=
  ["PATH"; "HOME"; "TMPDIR"; "LANG"; "LC_ALL"; "SSL_CERT_FILE"; "SSL_CERT_DIR";
   "HTTPS_PROXY"; "https_proxy"; "HTTP_PROXY"; "http_proxy"; "NO_PROXY"; "no_proxy"; "ALL_PROXY"; "all_proxy"].

Definition gitConfig : list (string * string) :=
  [("core.hooksPath", "/dev/null"); ("core.fsmonitor", "false"); ("commit.gpgsign", "false"); ("gc.auto", "0");
   ("maintenance.auto", "false"); ("user.name", committerName); ("user.email", committerEmail)].

(** The entry that carries the token, if there is one. *)
Definition gitCredentials (remote token : string) : error + list (string * string) :=
  if String.eqb token "" then inr []
  else match qw_ParseURL remote with
  | Some (scheme, host) =>
    if negb (String.eqb scheme "https") || String.eqb host ""
    then inl (ErrorString "an authenticated remote must be an https URL")
    else inr [("http." +:+ scheme +:+ "://" +:+ host +:+ "/.extraheader",
               "AUTHORIZATION: basic " +:+ Base64 ("x-access-token:" +:+ token))]
  | None => inl (ErrorString "an authenticated remote must be an https URL")
  end.

Definition gitEnvironment (config : list (string * string)) : list string :=
  app ["GIT_TERMINAL_PROMPT=0"; "GIT_LFS_SKIP_SMUDGE=1"; "GIT_CONFIG_NOSYSTEM=1"; "GIT_CONFIG_GLOBAL=/dev/null"]
  (app (omap (λ name, (λ value, name +:+ "=" +:+ value) <$> qw_LookupEnv name) inheritedEnvironment)
  (("GIT_CONFIG_COUNT=" +:+ Itoa (Z.of_nat (length config)))
   :: concat (imap (λ i entry, ["GIT_CONFIG_KEY_" +:+ Itoa (Z.of_nat i) +:+ "=" +:+ entry.1;
                                "GIT_CONFIG_VALUE_" +:+ Itoa (Z.of_nat i) +:+ "=" +:+ entry.2]) config))).

(** [gitError] around the process's error; an [ExitError] keeps its code. *)
Definition gitError (e : processError) : error :=
  match e with ExitError code => WrapError "git" (StatusError "exit" code "") | NotRun err => WrapError "git" err end.

(** [runIn]: the output, and the error. *)
Definition runIn (g : LocalGit) (dir : string) (args : list string) : P (string * option error) :=
  act (λ s,
    let command := mkGitCommand dir args (lg_env g) in
    let '(out, w) := qw_Git command (qworld s) in
    (match go_err out with
     | Some e => (go_stdout out +:+ go_stderr out, Some (gitError e))
     | None => (TrimSpace (go_stdout out), None)
     end, mkQueueSys w (requests s) (command :: commands s) (clone s))).

Definition run_ (g : LocalGit) (args : list string) : P (string * option error) := runIn g (lg_Dir g) args.

Definition textOrErr (r : string * option error) : error + string :=
  match r with (text, None) => inr text | (_, Some err) => inl err end.

Definition NewLocalGit (dir remote target token : string) : P (error + LocalGit) :=
  match gitCredentials remote token with
  | inl err => mret (inl err)
  | inr credentials =>
    let git := mkLocalGit dir (gitEnvironment (app gitConfig credentials)) in
    r ← runIn git "" ["clone"; "--quiet"; "--filter=blob:none"; "--single-branch"; "--no-tags"; "--branch"; target;
                      "--"; remote; dir];
    mret (match r.2 with Some err => inl err | None => inr git end)
  end.

Definition gitFetch (g : LocalGit) (ref : string) : P (error + string) :=
  r ← run_ g ["fetch"; "--quiet"; "--no-tags"; "origin"; ref];
  match r.2 with
  | Some err => mret (inl err)
  | None => r ← run_ g ["rev-parse"; "--verify"; "FETCH_HEAD^{commit}"]; mret (textOrErr r)
  end.

Definition isExit (e : error) : bool :=
  match errors_as as_status e with Some (kind, _) => String.eqb kind "exit" | None => false end.

Definition gitIsAncestor (g : LocalGit) (ancestor descendant : string) : P (error + bool) :=
  r ← run_ g ["merge-base"; "--is-ancestor"; ancestor; descendant];
  mret (match r.2 with
        | None => inr true
        | Some err => if isExit err then inr false else inl err
        end).

Definition gitRebase (g : LocalGit) (onto upstream head : string) : P (error + string) :=
  r ← run_ g ["rebase"; "--quiet"; "--force-rebase"; "--no-autosquash"; "--onto"; onto; upstream; head];
  match r.2 with
  | Some err =>
    aborted ← run_ g ["rebase"; "--abort"];
    mret (inl (match aborted.2 with None => Sentinel ErrRebaseConflict | Some _ => err end))
  | None => r ← run_ g ["rev-parse"; "--verify"; "HEAD^{commit}"]; mret (textOrErr r)
  end.

Definition leaseArg (u : BranchUpdate) : string :=
  "--force-with-lease=refs/heads/" +:+ Branch u +:+ ":" +:+ Expected u.
Definition pushSpec (u : BranchUpdate) : string := bu_SHA u +:+ ":refs/heads/" +:+ Branch u.

Definition pushArgs (updates : list BranchUpdate) : list string :=
  app ["push"; "--atomic"; "--porcelain"; "origin"] (app (map leaseArg updates) (map pushSpec updates)).

Definition gitPushBranches (g : LocalGit) (updates : list BranchUpdate) : P (option error) :=
  r ← run_ g (pushArgs updates);
  mret (match r.2 with
        | Some err => Some (if Contains r.1 "stale info" then Sentinel ErrLeaseRejected else err)
        | None => None
        end).

Definition landArgs (branch sha : string) : list string :=
  ["push"; "--porcelain"; "origin"; sha +:+ ":refs/heads/" +:+ branch].

Definition gitFastForward (g : LocalGit) (branch sha : string) : P (option error) :=
  r ← run_ g (landArgs branch sha);
  mret (match r.2 with
        | Some err => Some (if Contains r.1 "non-fast-forward" || Contains r.1 "fetch first"
                            then Sentinel ErrNotFastForward else err)
        | None => None
        end).
End queue.

(** * A tick on GitHub and git *)

#[local] Close Scope Z_scope.
#[local] Open Scope string_scope.

Section rest.
Context {W : Type} `{!QueueWorld W, !GitHubJSON} (c : RESTClient) (remote : string).
Abbreviation P := (prog (queueSys W)).

(** [Options.OpenGit] *)
Definition restOpenGit (target : string) : P (option error) :=
  dir ← queueWorld_ qw_MkdirTemp;
  match dir with
  | inl err => mret (Some err)
  | inr dir =>
    git ← NewLocalGit (Clean (dir +:+ "/repo")) remote target (rc_Token c);
    match git with
    | inl err => mret (Some err)
    | inr git => _ ← update (λ s, mkQueueSys (qworld s) (requests s) (commands s) (Some git)); mret None
    end
  end.

(** An operation of the clone, which a tick opens first. *)
Definition withClone {A} (f : LocalGit → P A) : P A :=
  git ← get clone; f (default (mkLocalGit "" []) git).

(** The call that an event records, made again. *)
Definition perform (e : event) : P () :=
  match e with
  | didResolveBranch branch _ => _ ← restResolveBranch c branch; mret ()
  | didReadFile path _ => _ ← restReadFile c path; mret ()
  | didQueuedPRs label _ => _ ← restQueuedPRs c label; mret ()
  | didCanWrite login _ => _ ← restCanWrite c login; mret ()
  | didStatusComment number bot _ => _ ← restStatusComment c number bot; mret ()
  | didUpsertStatusComment number bot body _ => _ ← restUpsertStatusComment c number bot body; mret ()
  | didChangedFiles number _ => _ ← restChangedFiles c number; mret ()
  | didCheckRuns sha _ => _ ← restCheckRuns c sha; mret ()
  | didWorkflowRuns sha _ => _ ← restWorkflowRuns c sha; mret ()
  | didCompare ancestor descendant _ => _ ← restIsAncestor c ancestor descendant; mret ()
  | didCancelRun id _ => _ ← restCancelRun c id; mret ()
  | didRerunFailedJobs id _ => _ ← restRerunFailedJobs c id; mret ()
  | didRemoveLabel number label _ => _ ← restRemoveLabel c number label; mret ()
  | didOpenGit target _ => _ ← restOpenGit target; mret ()
  | didFetch ref _ => _ ← withClone (λ g, gitFetch g ref); mret ()
  | didIsAncestor ancestor descendant _ => _ ← withClone (λ g, gitIsAncestor g ancestor descendant); mret ()
  | didRebase onto upstream head _ => _ ← withClone (λ g, gitRebase g onto upstream head); mret ()
  | didPushBranches updates _ => _ ← withClone (λ g, gitPushBranches g updates); mret ()
  | didFastForward branch sha _ => _ ← withClone (λ g, gitFastForward g branch sha); mret ()
  | didNow _ => _ ← queueWorld_ qw_Now; mret ()
  | didWait d _ => _ ← queueWorld_ (qw_Wait d); mret ()
  end.

Definition replay (tr : list event) (s : queueSys W) : queueSys W :=
  fold_left (λ s e, execP (perform e) s) tr s.

Definition restEnv (s : queueSys W) : MQEnv := {|
  ask_ResolveBranch tr branch := evalP (restResolveBranch c branch) (replay tr s);
  ask_ReadFile tr path := evalP (restReadFile c path) (replay tr s);
  ask_QueuedPRs tr label := evalP (restQueuedPRs c label) (replay tr s);
  ask_CanWrite tr login := evalP (restCanWrite c login) (replay tr s);
  ask_StatusComment tr number bot := evalP (restStatusComment c number bot) (replay tr s);
  ask_UpsertStatusComment tr number bot body := evalP (restUpsertStatusComment c number bot body) (replay tr s);
  ask_ChangedFiles tr number := evalP (restChangedFiles c number) (replay tr s);
  ask_CheckRuns tr sha := evalP (restCheckRuns c sha) (replay tr s);
  ask_WorkflowRuns tr sha := evalP (restWorkflowRuns c sha) (replay tr s);
  ask_Compare tr ancestor descendant := evalP (restIsAncestor c ancestor descendant) (replay tr s);
  ask_CancelRun tr id := evalP (restCancelRun c id) (replay tr s);
  ask_RerunFailedJobs tr id := evalP (restRerunFailedJobs c id) (replay tr s);
  ask_RemoveLabel tr number label := evalP (restRemoveLabel c number label) (replay tr s);
  ask_OpenGit tr target := evalP (restOpenGit target) (replay tr s);
  ask_Fetch tr ref := evalP (withClone (λ g, gitFetch g ref)) (replay tr s);
  ask_IsAncestor tr ancestor descendant := evalP (withClone (λ g, gitIsAncestor g ancestor descendant)) (replay tr s);
  ask_Rebase tr onto upstream head := evalP (withClone (λ g, gitRebase g onto upstream head)) (replay tr s);
  ask_PushBranches tr updates := evalP (withClone (λ g, gitPushBranches g updates)) (replay tr s);
  ask_FastForward tr branch sha := evalP (withClone (λ g, gitFastForward g branch sha)) (replay tr s);
  ask_Now tr := evalP (queueWorld_ qw_Now) (replay tr s);
  ask_Wait tr d := evalP (queueWorld_ (qw_Wait d)) (replay tr s);
  decodeYAML := gj_YAML
|}.

(** The system after a tick from [s]. *)
Definition afterTick (options : Options) (s : queueSys W) : queueSys W :=
  replay (mq_trace (@runTick (restEnv s) options).2) s.
End rest.

Lemma replay_app {W} `{!QueueWorld W, !GitHubJSON} c remote tr tr' (s : queueSys W) :
  replay c remote (tr ++ tr') s = replay c remote tr' (replay c remote tr s).
Proof. apply fold_left_app. Qed.
