(* ===== verification/MergeComments.v ===== *)
(** What the merge queue's client reads of the lists GitHub gives it in pages, and
    the status comment that it keeps in one of them. *)

From S2P Require Import Prelude Program Provider GoStrings GoText MergeChecks MergeMarker MergePlan.
From S2P Require Import MergeSnapshot MergeGitHub.

#[local] Open Scope string_scope.
#[local] Open Scope Z_scope.

(** * Lists in pages *)

Definition pageOf {T} (l : list T) (page : Z) : list T := take pageSize (drop (pageSize * Z.to_nat (page - 1)) l).

Section lists.
Context {W : Type} {QW : QueueWorld W} {GJ : GitHubJSON} (c : RESTClient).

Definition apiGet (path : string) : apiRequest :=
  mkApiRequest "GET" (apiURL c path) githubJSON ("Bearer " +:+ rc_Token c) None.

(** In the worlds [st] the server answers the pages of [l]; asking does not leave [st]. *)
Definition serves {T} (st : W → Prop) (decode : string → option (list T)) (path : string) (l : list T) : Prop :=
  ∀ page, 1 <= page <= Z.of_nat maxPages →
  qw_NewRequest (apiURL c (pagedPath path page)) = true
  ∧ ∀ w, st w → ∃ body w', qw_Do (apiGet (pagedPath path page)) w = (inr (mkApiResponse 200 body None), w')
      ∧ st w' ∧ Z.of_nat (String.length body) <= maxGitHubResponse ∧ decode body = Some (pageOf l page).

(** A request that the server answers as expected. *)
Lemma do_runs method path input limit expected s answer body w :
  qw_NewRequest (apiURL c path) = true →
  qw_Do (mkApiRequest method (apiURL c path) githubJSON ("Bearer " +:+ rc_Token c) input) (qworld s)
    = (inr (mkApiResponse answer body None), w) →
  answer ∈ expected → Z.of_nat (String.length body) <= limit →
  evalP (do_ c method path input githubJSON limit expected) s = inr body
  ∧ qworld (execP (do_ c method path input githubJSON limit expected) s) = w
  ∧ length (requests (execP (do_ c method path input githubJSON limit expected) s)) = S (length (requests s)).
Proof.
  intros Hnew Hdo Hin Hlen. unfold do_. cbv zeta. rewrite Hnew. cbn [negb].
  rewrite evalP_bind, execP_bind. unfold sendAPI, evalP, execP. simpl. rewrite Hdo. simpl.
  rewrite bool_decide_true by done. rewrite (proj2 (Z.ltb_ge _ _)) by done. done.
Qed.

Section serving.
Context {T : Type} (st : W → Prop) (decode : string → option (list T)) (path : string) (l : list T).
Hypothesis Hserves : serves st decode path l.

Lemma doJSON_serves page s :
  1 <= page <= Z.of_nat maxPages → st (qworld s) →
  let s' := execP (doJSON c decode (pagedPath path page)) s in
  evalP (doJSON c decode (pagedPath path page)) s = inr (pageOf l page)
  ∧ st (qworld s') ∧ length (requests s') = S (length (requests s)).
Proof.
  intros Hp Hst. cbv zeta. destruct (Hserves page Hp) as [Hnew Hw].
  destruct (Hw _ Hst) as (body & w & Hdo & Hst' & Hlen & Hdec).
  destruct (do_runs "GET" (pagedPath path page) None maxGitHubResponse [200] s 200 body w Hnew Hdo)
    as (He & Hx & Hn); [by apply list_elem_of_singleton | done |].
  unfold doJSON. rewrite evalP_bind, execP_bind, He, Hdec, execP_ret, Hx.
  by split_and!.
Qed.

Lemma listFrom_serves turns k all s :
  (k + turns = maxPages)%nat → st (qworld s) →
  let p := listFrom c decode path turns (Z.of_nat k + 1) all in
  evalP p s = inr (all ++ take (pageSize * turns) (drop (pageSize * k) l))%list
  ∧ st (qworld (execP p s))
  ∧ length (requests (execP p s))
    = (length (requests s) + turns `min` S ((length l - pageSize * k) / pageSize))%nat.
Proof.
  revert k all s. induction turns as [|turns IH]; intros k all s Hk Hst; cbv zeta.
  { cbn [listFrom]. rewrite evalP_ret, execP_ret, Nat.mul_0_r, take_0, app_nil_r. split_and!; [done | done | lia]. }
  cbn [listFrom]. rewrite evalP_bind, execP_bind.
  destruct (doJSON_serves (Z.of_nat k + 1) s) as (He & Hst' & Hn); [lia | done |]. rewrite He.
  assert (Hpage : pageOf l (Z.of_nat k + 1) = take pageSize (drop (pageSize * k) l)).
  { unfold pageOf. do 3 f_equal. lia. }
  rewrite Hpage. set (rest := drop (pageSize * k) l).
  assert (Hrest : (length l - pageSize * k)%nat = length rest) by (unfold rest; by rewrite length_drop).
  rewrite Hrest. rewrite length_take.
  destruct (Nat.ltb_spec (pageSize `min` length rest) pageSize) as [Hlt|Hge].
  - rewrite !take_ge by lia. rewrite !execP_ret, Hn. split_and!; [done | done |].
    rewrite Nat.div_small by lia. lia.
  - replace (Z.of_nat k + 1 + 1) with (Z.of_nat (S k) + 1) by lia.
    destruct (IH (S k) (all ++ take pageSize rest)%list _ (ltac:(lia)) Hst') as (E & Hs & Hr). rewrite E, Hr, Hn.
    split_and!; [|done|].
    + rewrite <- app_assoc. do 2 f_equal.
      replace (drop (pageSize * S k) l) with (drop pageSize rest) by (unfold rest; rewrite drop_drop; f_equal; lia).
      rewrite take_take_drop. f_equal. lia.
    + replace (length l - pageSize * S k)%nat with (length rest - pageSize)%nat by (rewrite <- Hrest; lia).
      replace (length rest) with ((length rest - pageSize) + 1 * pageSize)%nat at 2 by lia.
      rewrite Nat.div_add by (unfold pageSize; lia). lia.
Qed.

Lemma getList_serves s :
  st (qworld s) →
  evalP (getList c decode path) s = inr (take (pageSize * maxPages) l)
  ∧ st (qworld (execP (getList c decode path) s))
  ∧ length (requests (execP (getList c decode path) s))
    = (length (requests s) + maxPages `min` S (length l / pageSize))%nat.
Proof.
  intros Hst. destruct (listFrom_serves maxPages 0 [] s eq_refl Hst) as (E & Hs & Hr).
  rewrite Nat.mul_0_r, Nat.sub_0_r in *. by split_and!.
Qed.
End serving.
End lists.

(** * The status comment *)

Lemma keep_map {A} (p : A → bool) (f : A → A) l : (∀ x, x ∈ l → p (f x) = p x) → keep p (map f l) = map f (keep p l).
Proof.
  intros Hp. unfold keep. induction l as [|x l IH]; [done |]. simpl. rewrite Hp by left.
  rewrite IH by (intros y Hy; apply Hp; by right). by destruct (p x).
Qed.

Section comments.
Context {W : Type} {QW : QueueWorld W} {GJ : GitHubJSON} (c : RESTClient) (number : Z) (bot body : string).
Variable thread : W → list issueComment.

Definition commentsPath : string := repoPath c ("/issues/" +:+ Itoa number +:+ "/comments").
Definition commentPath (id : Z) : string := repoPath c ("/issues/comments/" +:+ Itoa id).

Definition withBody (id : Z) (x : issueComment) : issueComment :=
  if ic_ID x =? id then mkIssueComment (ic_ID x) body (ic_Login x) (ic_Type x) else x.

Definition writing (method path : string) : apiRequest :=
  mkApiRequest method (apiURL c path) githubJSON ("Bearer " +:+ rc_Token c) (Some (commentBody body)).

(** GitHub's side: it lists the thread in pages, edits a comment of the bot's, and adds a first one as the bot whose token the client holds. *)
Record keepsThread : Prop := mkKeepsThread {
  kt_lists : ∀ l, serves c (λ w, thread w = l) gj_Comments commentsPath l;
  kt_edits : ∀ x w, x ∈ keep (ownComment bot) (thread w) → qw_NewRequest (apiURL c (commentPath (ic_ID x))) = true
    ∧ ∃ text w', qw_Do (writing "PATCH" (commentPath (ic_ID x))) w = (inr (mkApiResponse 200 text None), w')
        ∧ Z.of_nat (String.length text) <= maxGitHubResponse ∧ thread w' = map (withBody (ic_ID x)) (thread w);
  kt_adds : ∀ w, keep (ownComment bot) (thread w) = [] → qw_NewRequest (apiURL c commentsPath) = true
    ∧ ∃ text w' id login, qw_Do (writing "POST" commentsPath) w = (inr (mkApiResponse 201 text None), w')
        ∧ Z.of_nat (String.length text) <= maxGitHubResponse ∧ EqualFold login bot = true
        ∧ thread w' = (thread w ++ [mkIssueComment id body login "Bot"])%list
}.

(** The comments that are not the bot's own status comments. *)
Definition others (l : list issueComment) : list issueComment := keep (λ x, negb (ownComment bot x)) l.

Hypothesis Hthread : keepsThread.
Hypothesis Hbody : HasPrefix body StatusPrefix = true.

Lemma statusComment_reads s :
  (length (thread (qworld s)) <= pageSize * maxPages)%nat →
  evalP (statusComment c number bot) s = inr (last (keep (ownComment bot) (thread (qworld s))))
  ∧ thread (qworld (execP (statusComment c number bot) s)) = thread (qworld s).
Proof.
  intros Hlen. destruct (getList_serves c _ gj_Comments commentsPath _ (kt_lists Hthread (thread (qworld s))) s eq_refl)
    as (He & Hw & _).
  unfold statusComment. rewrite evalP_bind, execP_bind. fold commentsPath. rewrite He, evalP_ret, execP_ret, take_ge by done.
  done.
Qed.

Lemma doPlain_writes method path answer text w s :
  qw_NewRequest (apiURL c path) = true →
  qw_Do (writing method path) (qworld s) = (inr (mkApiResponse answer text None), w) →
  Z.of_nat (String.length text) <= maxGitHubResponse →
  evalP (doPlain c method path (Some (commentBody body)) answer) s = None
  ∧ qworld (execP (doPlain c method path (Some (commentBody body)) answer) s) = w.
Proof.
  intros Hnew Hdo Hlen.
  destruct (do_runs c method path (Some (commentBody body)) maxGitHubResponse [answer] s answer text w Hnew Hdo)
    as (He & Hx & _); [by apply list_elem_of_singleton | done |].
  unfold doPlain. rewrite evalP_bind, execP_bind, He, evalP_ret, execP_ret. done.
Qed.

Lemma own_withBody id l x y :
  NoDup (map ic_ID l) → x ∈ l → y ∈ l → ic_ID x = id → ownComment bot x = true →
  ownComment bot (withBody id y) = ownComment bot y ∧ (ownComment bot y = false → withBody id y = y).
Proof.
  intros Hnd Hx Hy <- Hown. unfold withBody. destruct (Z.eqb_spec (ic_ID y) (ic_ID x)) as [E|E]; [|done].
  assert (y = x) as ->.
  { apply list_elem_of_lookup in Hx as [i Hi], Hy as [j Hj].
    assert (i = j) as -> by (eapply NoDup_lookup; [exact Hnd | |]; rewrite list_lookup_fmap;
                              [by rewrite Hi | rewrite Hj; simpl; by rewrite E]). congruence. }
  rewrite Hown. split; [|done]. unfold ownComment in *. simpl. rewrite Hbody.
  apply andb_prop in Hown as [-> _]. done.
Qed.

(** A thread after an edit of the bot's newest status comment, and after a new one. *)
Definition rewritten (l l' : list issueComment) : Prop :=
  (∃ x, last (keep (ownComment bot) l') = Some x ∧ ic_Body x = body) ∧ others l' = others l
  ∧ length (keep (ownComment bot) l') = Nat.max 1 (length (keep (ownComment bot) l)) ∧ (length l' <= S (length l))%nat.

Lemma rewritten_edit l x :
  NoDup (map ic_ID l) → last (keep (ownComment bot) l) = Some x → rewritten l (map (withBody (ic_ID x)) l).
Proof.
  intros Hnd Hlast. apply last_Some in Hlast as [front Hfront].
  assert (Hx : x ∈ l ∧ ownComment bot x = true)
    by (apply elem_of_keep; rewrite Hfront; apply elem_of_app; right; by apply list_elem_of_singleton).
  destruct Hx as [Hx Hown].
  assert (Hkeep : keep (ownComment bot) (map (withBody (ic_ID x)) l)
                  = map (withBody (ic_ID x)) (keep (ownComment bot) l)).
  { apply keep_map. intros y Hy. by apply (own_withBody _ l x). }
  unfold rewritten. rewrite Hkeep, !length_map, Hfront, map_app. cbn [map]. rewrite last_snoc. split_and!.
  - eexists. split; [done |]. unfold withBody. by rewrite Z.eqb_refl.
  - unfold others. rewrite keep_map by (intros y Hy; f_equal; by apply (own_withBody _ l x)).
    rewrite <- (map_id (keep _ l)) at 2. apply map_ext_in. intros y Hy.
    apply list_elem_of_In, elem_of_keep in Hy as [Hy Hn]. apply (own_withBody _ l x); try done. by apply negb_true_iff.
  - rewrite length_app. simpl. lia.
  - lia.
Qed.

Lemma rewritten_add l id login :
  EqualFold login bot = true → last (keep (ownComment bot) l) = None →
  rewritten l (l ++ [mkIssueComment id body login "Bot"]).
Proof.
  intros Hlogin Hlast. apply last_None in Hlast.
  assert (Hown : ownComment bot (mkIssueComment id body login "Bot") = true)
    by (unfold ownComment; simpl; by rewrite Hlogin, Hbody).
  unfold rewritten, others. rewrite !keep_app, Hlast, !length_app.
  change (keep ?p [?x]) with (if p x then [x] else []). cbv beta. rewrite Hown. simpl. rewrite app_nil_r.
  split_and!; [by eexists | done | done | lia].
Qed.

(** Writing the status comment, against such a server. *)
Lemma upsert_rewrites s :
  (length (thread (qworld s)) <= pageSize * maxPages)%nat → NoDup (map ic_ID (thread (qworld s))) →
  evalP (restUpsertStatusComment c number bot body) s = None
  ∧ rewritten (thread (qworld s)) (thread (qworld (execP (restUpsertStatusComment c number bot body) s))).
Proof.
  intros Hlen Hnd. destruct (statusComment_reads s Hlen) as [He Hw].
  set (s1 := execP (statusComment c number bot) s) in *.
  unfold restUpsertStatusComment. rewrite evalP_bind, execP_bind, He. fold s1. rewrite <- Hw in *.
  destruct (last _) as [x|] eqn:Hlast; [destruct (String.eqb_spec (ic_Body x) body) as [Eb|Eb]|].
  - rewrite evalP_ret, execP_ret. split; [done |]. split_and!; [by exists x | done | | lia].
    apply last_Some in Hlast as [front ->]. rewrite length_app. simpl. lia.
  - assert (Hx : x ∈ keep (ownComment bot) (thread (qworld s1)))
      by (apply last_Some in Hlast as [front ->]; apply elem_of_app; right; by apply list_elem_of_singleton).
    destruct (kt_edits Hthread x (qworld s1) Hx) as (Hnew & text & w & Hdo & Ht & Hth).
    destruct (doPlain_writes "PATCH" (commentPath (ic_ID x)) 200 text w s1 Hnew Hdo Ht) as [Hv Hq].
    rewrite evalP_bind, execP_bind. fold (commentPath (ic_ID x)). rewrite Hv, evalP_ret, execP_ret, Hq, Hth.
    split; [done | by apply rewritten_edit].
  - destruct (kt_adds Hthread (qworld s1) (proj1 (last_None _) Hlast)) as (Hnew & text & w & id & login & Hdo & Ht & Hlogin & Hth).
    destruct (doPlain_writes "POST" commentsPath 201 text w s1 Hnew Hdo Ht) as [Hv Hq].
    rewrite evalP_bind, execP_bind. fold commentsPath. rewrite Hv, evalP_ret, execP_ret, Hq, Hth.
    split; [done | by apply rewritten_add].
Qed.

Lemma upsert_reads_back s :
  (length (thread (qworld s)) < pageSize * maxPages)%nat → NoDup (map ic_ID (thread (qworld s))) →
  let s' := execP (restUpsertStatusComment c number bot body) s in
  evalP (restUpsertStatusComment c number bot body) s = None
  ∧ evalP (restStatusComment c number bot) s' = inr body
  ∧ others (thread (qworld s')) = others (thread (qworld s))
  ∧ length (keep (ownComment bot) (thread (qworld s')))
    = Nat.max 1 (length (keep (ownComment bot) (thread (qworld s)))).
Proof.
  intros Hlen Hnd. cbv zeta. destruct (upsert_rewrites s) as (He & (x & Hlast & Hx) & Ho & Hn & Hl); [lia | done |].
  split_and!; [done | | done | done]. unfold restStatusComment. rewrite evalP_bind.
  destruct (statusComment_reads (execP (restUpsertStatusComment c number bot body) s)) as [Hr _]; [lia |].
  by rewrite Hr, evalP_ret, Hlast, Hx.
Qed.
End comments.

(** * An example thread *)

Module ThreadDemo.
Definition client : RESTClient := mkRESTClient "o" "r" "secret" "".
Definition text : string := StatusPrefix +:+ "landed".
Definition someone : issueComment := mkIssueComment 1 "hello" "alice" "User".

(** No status comment yet, an older one, or the one with [text]. *)
Definition thread (w : option bool) : list issueComment :=
  match w with
  | None => [someone]
  | Some new => [someone; mkIssueComment 7 (if new : bool then text else StatusPrefix) "queue[bot]" "Bot"]
  end.

(** The body of a response names the thread it stands for. *)
Definition document (w : option bool) : string :=
  match w with None => "none" | Some false => "old" | Some true => "new" end.

#[global] Instance world : QueueWorld (option bool) := {|
  qw_NewRequest _ := true;
  qw_Do r w :=
    if String.eqb (aq_Method r) "PATCH" then (inr (mkApiResponse 200 "" None), Some true)
    else if String.eqb (aq_Method r) "POST" then (inr (mkApiResponse 201 "" None), Some true)
    else (inr (mkApiResponse 200 (if String.eqb (aq_URL r) (apiURL client (pagedPath (commentsPath client 2) 1))
                                  then document w else "") None), w);
  qw_Git _ w := (mkGitOutput "" "" None, w);
  qw_LookupEnv _ := None;
  qw_MkdirTemp w := (inr "/tmp/q", w);
  qw_ParseURL _ := Some ("https", "github.com");
  qw_Fold n := n;
  qw_Now w := (0, w);
  qw_Wait _ w := (false, w)
|}.

#[global] Instance documents : GitHubJSON := {|
  gj_Ref _ := None; gj_Issues _ := None; gj_Pull _ := None; gj_Timeline _ := None; gj_Permission _ := None;
  gj_Comments body := Some (if String.eqb body "none" then thread None else if String.eqb body "old" then thread (Some false)
                            else if String.eqb body "new" then thread (Some true) else []);
  gj_Files _ := None; gj_CheckRuns _ := None; gj_WorkflowRuns _ := None; gj_Compare _ := None; gj_YAML _ := None
|}.

Definition system (w : option bool) : queueSys (option bool) := mkQueueSys w [] [] None.

Definition pages : list Z := seqZ 1 (Z.of_nat maxPages).

Lemma in_pages page : 1 <= page <= Z.of_nat maxPages → page ∈ pages.
Proof. intros H. apply elem_of_seqZ. lia. Qed.

Lemma pages_answer :
  Forall (λ page, ∀ w, gj_Comments (if String.eqb (apiURL client (pagedPath (commentsPath client 2) page))
                                         (apiURL client (pagedPath (commentsPath client 2) 1)) then document w else "")
                       = Some (pageOf (thread w) page)) pages.
Proof. repeat (apply List.Forall_cons; [by intros [[]|] |]). exact (List.Forall_nil _). Qed.

Lemma serves_thread l : serves client (λ w, thread w = l) gj_Comments (commentsPath client 2) l.
Proof.
  intros page Hp. split; [done |]. intros w <-. eexists _, w. split; [reflexivity |]. split; [done |].
  pose proof pages_answer as Ha. rewrite Forall_forall in Ha. cbn [aq_URL apiGet].
  split; [by destruct (String.eqb _ _), w as [[]|] | apply Ha, in_pages, Hp].
Qed.

Lemma keeps : keepsThread client 2 "queue[bot]" text thread.
Proof.
  split; [apply serves_thread | |].
  - intros x w Hx. split; [done |]. exists "", (Some true). split; [done |]. split; [done |].
    destruct w as [[]|]; [| |by apply not_elem_of_nil in Hx]; apply list_elem_of_singleton in Hx as ->; reflexivity.
  - intros [w|] Hw; [by destruct w |]. split; [done |]. exists "", (Some true), 7, "queue[bot]". by split_and!.
Qed.
End ThreadDemo.

(** * What the client reads and writes *)



(** The status comment that the queue writes reads back as its text, whether it was
    new, changed or already there; the thread keeps one comment of the bot's for it,
    however often the queue writes, and every other comment as it was.  (A thread of
    three thousand comments is where the client no longer sees its end.) *)
Theorem upsert_roundtrip {W} {QW : QueueWorld W} {GJ : GitHubJSON} (c : RESTClient) number bot body
    (thread : W → list issueComment) s :
  keepsThread c number bot body thread → HasPrefix body StatusPrefix = true →
  (length (thread (qworld s)) < 3000)%nat → NoDup (map ic_ID (thread (qworld s))) →
  let s' := execP (restUpsertStatusComment c number bot body) s in
  evalP (restUpsertStatusComment c number bot body) s = None
  ∧ evalP (restStatusComment c number bot) s' = inr body
  ∧ others bot (thread (qworld s')) = others bot (thread (qworld s))
  ∧ length (keep (ownComment bot) (thread (qworld s')))
    = Nat.max 1 (length (keep (ownComment bot) (thread (qworld s)))).
Proof. intros Hk Hb Hl Hn. exact (upsert_reads_back c number bot body thread Hk Hb s Hl Hn). Qed.

Lemma upsert_roundtrip_witness :
  let s := ThreadDemo.system (Some false) in
  let s' := execP (restUpsertStatusComment ThreadDemo.client 2 "queue[bot]" ThreadDemo.text) s in
  evalP (restUpsertStatusComment ThreadDemo.client 2 "queue[bot]" ThreadDemo.text) s = None
  ∧ evalP (restStatusComment ThreadDemo.client 2 "queue[bot]") s' = inr ThreadDemo.text
  ∧ others "queue[bot]" (ThreadDemo.thread (qworld s')) = [ThreadDemo.someone]
  ∧ length (keep (ownComment "queue[bot]") (ThreadDemo.thread (qworld s'))) = 1%nat.
Proof.
  apply (upsert_roundtrip ThreadDemo.client 2 "queue[bot]" ThreadDemo.text ThreadDemo.thread (ThreadDemo.system (Some false))
           ThreadDemo.keeps eq_refl).
  - simpl. lia.
  - apply (bool_decide_unpack _). vm_compute. done.
Defined.
