(* ===== verification/MergeRestTheorems.v ===== *)
(** What a tick does to GitHub and to the repository: which requests and commands the
    calls of its trace send, and what the client reads of a paginated list. *)

From S2P Require Import Prelude Program Provider GoStrings GoText MergeChecks MergeMarker MergePlan.
From S2P Require Import MergePlanTheorems MergeSnapshot MergeApply MergeTickFacts MergeTickSpecs.
From S2P Require Import MergeTickTheorems MergeGitHub.

#[local] Open Scope string_scope.
#[local] Open Scope Z_scope.

(** * What a program sends *)

Section sends.
Context {W : Type} {QW : QueueWorld W} {GJ : GitHubJSON}.
Abbreviation Σ := (queueSys W).
Variables (Q : apiRequest → Prop) (R : gitCommand → Prop).

(** A program adds requests and commands of the kinds [Q] and [R] to the logs. *)
Definition adds {A} (p : prog Σ A) : Prop :=
  ∀ s, ∃ new newc, requests (execP p s) = (new ++ requests s)%list ∧ commands (execP p s) = (newc ++ commands s)%list
                   ∧ Forall Q new ∧ Forall R newc.

Lemma adds_nothing {A} (p : prog Σ A) :
  (∀ s, requests (execP p s) = requests s ∧ commands (execP p s) = commands s) → adds p.
Proof.
  intros H s. exists [], []. destruct (H s) as [-> ->].
  split_and!; [done | done | exact (List.Forall_nil _) | exact (List.Forall_nil _)].
Qed.

Lemma adds_ret {A} (x : A) : adds (mret x).
Proof. by apply adds_nothing. Qed.

Lemma adds_bind {A B} (p : prog Σ A) (f : A → prog Σ B) : adds p → (∀ x, adds (f x)) → adds (p ≫= f).
Proof.
  intros Hp Hf s. rewrite execP_bind. destruct (Hp s) as (n1 & c1 & R1 & C1 & Q1 & G1).
  destruct (Hf (evalP p s) (execP p s)) as (n2 & c2 & R2 & C2 & Q2 & G2).
  exists (n2 ++ n1)%list, (c2 ++ c1)%list. rewrite R2, C2, R1, C1, !app_assoc.
  split_and!; [done | done | by apply Forall_app | by apply Forall_app].
Qed.

Lemma adds_get {A} (f : Σ → A) : adds (get f).
Proof. by apply adds_nothing. Qed.

Lemma adds_update f :
  (∀ s, requests (f s) = requests s ∧ commands (f s) = commands s) → adds (update f : prog Σ ()).
Proof. intros H. apply adds_nothing, H. Qed.

Lemma adds_world {A} (f : W → A * W) : adds (queueWorld_ f).
Proof. apply adds_nothing. intros s. unfold execP, queueWorld_. simpl. by destruct (f (qworld s)). Qed.

Lemma adds_send r : Q r → adds (sendAPI r).
Proof.
  intros Hr s. exists [r], []. unfold execP, sendAPI. simpl. destruct (qw_Do r (qworld s)).
  split_and!; [done | done | by apply Forall_singleton | exact (List.Forall_nil _)].
Qed.

Lemma adds_runIn g dir args : R (mkGitCommand dir args (lg_env g)) → adds (runIn g dir args).
Proof.
  intros Hr s. exists [], [mkGitCommand dir args (lg_env g)]. unfold execP, runIn. simpl. destruct (qw_Git _ _).
  split_and!; [done | done | exact (List.Forall_nil _) | by apply Forall_singleton].
Qed.

Lemma adds_fold_err {A B E} (l : list A) (f : A → B → prog Σ (E + B)) acc :
  (∀ x acc, adds (f x acc)) → adds (fold_err l f acc).
Proof.
  intros Hf. revert acc. induction l as [|x l IH]; intros acc; simpl; [apply adds_ret |].
  apply adds_bind; [done |]. intros [e|acc']; [apply adds_ret | apply IH].
Qed.

Section client.
Variable c : RESTClient.

(** The request of [do] with a method, a path and a body. *)
Definition sends (method path : string) (input : option string) : Prop :=
  ∀ accept, Q (mkApiRequest method (apiURL c path) accept ("Bearer " +:+ rc_Token c) input).

Lemma adds_do method path input accept limit expected :
  sends method path input → adds (do_ c method path input accept limit expected).
Proof.
  intros H. unfold do_. cbv zeta. destruct (negb _); [apply adds_ret |].
  apply adds_bind; [apply adds_send, H | intros x; apply adds_ret].
Qed.

Lemma adds_doPlain method path input expected :
  sends method path input → adds (doPlain c method path input expected).
Proof. intros H. apply adds_bind; [by apply adds_do | intros x; apply adds_ret]. Qed.

Lemma adds_doStatus method path expected msg :
  sends method (repoPath c path) None → adds (doStatus c method path expected msg).
Proof. intros H. apply adds_bind; [by apply adds_do | intros x; apply adds_ret]. Qed.

Hypothesis Hget : ∀ path, sends "GET" path None.

Lemma adds_doJSON {T} (decode : string → option T) path : adds (doJSON c decode path).
Proof. apply adds_bind; [by apply adds_do | intros x; apply adds_ret]. Qed.

Lemma adds_getList {T} (decode : string → option (list T)) path : adds (getList c decode path).
Proof.
  unfold getList. generalize (1%Z), (@nil T). induction maxPages as [|turns IH]; intros page all; simpl; [apply adds_ret |].
  apply adds_bind; [apply adds_doJSON |]. intros [err|items]; [apply adds_ret |].
  case_match; [apply adds_ret | apply IH].
Qed.

Lemma adds_checkRuns sha : adds (restCheckRuns c sha).
Proof.
  unfold restCheckRuns. generalize (1%Z), (@nil CheckRun).
  induction maxPages as [|turns IH]; intros page runs_; simpl; [apply adds_ret |].
  apply adds_bind; [apply adds_doJSON |]. intros [err|[total items]]; [apply adds_ret |].
  case_match; [apply adds_ret | apply IH].
Qed.
End client.
End sends.

Create HintDb adds.
#[export] Hint Resolve adds_ret adds_get adds_world adds_doJSON adds_getList adds_checkRuns : adds.

(** Follow a program through its calls. *)
Ltac adds_step :=
  match goal with
  | |- adds _ _ (_ ≫= _) => apply adds_bind; [|intros ?]
  | |- adds _ _ (mret _) => apply adds_ret
  | |- adds _ _ (match ?x with _ => _ end) => destruct x
  | |- adds _ _ (fold_err _ _ _) => apply adds_fold_err; intros ? ?
  | |- adds _ _ (do_ _ _ _ _ _ _ _) => apply adds_do
  | |- adds _ _ (doPlain _ _ _ _ _) => apply adds_doPlain
  | |- adds _ _ (doStatus _ _ _ _ _) => apply adds_doStatus
  | |- adds _ _ (run_ _ _) => apply adds_runIn
  | |- adds _ _ (runIn _ _ _) => apply adds_runIn
  | |- adds _ _ _ => solve [eauto with adds]
  end.
Ltac adds_all := repeat adds_step.

(** * What the calls of a tick send *)

Section tick.
Context {W : Type} {QW : QueueWorld W} {GJ : GitHubJSON} (c : RESTClient) (remote : string).

(** What the call of an event may write to GitHub, beside the requests that only read. *)
Definition writtenBy (e : event) (r : apiRequest) : Prop :=
  match e with
  | didUpsertStatusComment number _ body _ =>
      aq_Body r = Some (commentBody body)
      ∧ (aq_Method r = "POST" ∧ aq_URL r = apiURL c (repoPath c ("/issues/" +:+ Itoa number +:+ "/comments"))
         ∨ ∃ id, aq_Method r = "PATCH" ∧ aq_URL r = apiURL c (repoPath c ("/issues/comments/" +:+ Itoa id)))
  | didCancelRun id _ =>
      aq_Method r = "POST" ∧ aq_URL r = apiURL c (repoPath c ("/actions/runs/" +:+ Itoa id +:+ "/cancel"))
  | didRerunFailedJobs id _ =>
      aq_Method r = "POST" ∧ aq_URL r = apiURL c (repoPath c ("/actions/runs/" +:+ Itoa id +:+ "/rerun-failed-jobs"))
  | didRemoveLabel number label _ =>
      aq_Method r = "DELETE"
      ∧ aq_URL r = apiURL c (repoPath c ("/issues/" +:+ Itoa number +:+ "/labels/" +:+ PathEscape label))
  | _ => False
  end.
Definition sentBy (e : event) (r : apiRequest) : Prop :=
  aq_Authorization r = "Bearer " +:+ rc_Token c ∧ (aq_Method r = "GET" ∧ aq_Body r = None ∨ writtenBy e r).

(** The git commands of the call of an event. *)
Definition ranBy (e : event) (command : gitCommand) : Prop :=
  match e with
  | didPushBranches updates _ => gc_Args command = pushArgs updates
  | didFastForward branch sha _ => gc_Args command = landArgs branch sha
  | didOpenGit _ _ | didFetch _ _ | didIsAncestor _ _ _ | didRebase _ _ _ _ => head (gc_Args command) ≠ Some "push"
  | _ => False
  end.

Lemma sends_get e path : sends (sentBy e) c "GET" path None.
Proof. intros accept. split; [done | by left]. Qed.
#[local] Hint Resolve sends_get : adds.

Lemma adds_pullRequest e number : adds (sentBy e) (ranBy e) (pullRequest c number).
Proof. unfold pullRequest. adds_all. Qed.

Lemma adds_lastLabeled e number label : adds (sentBy e) (ranBy e) (lastLabeled c number label).
Proof. unfold lastLabeled. adds_all. Qed.

Lemma adds_statusComment e number bot : adds (sentBy e) (ranBy e) (statusComment c number bot).
Proof. unfold statusComment. adds_all. Qed.
#[local] Hint Resolve adds_pullRequest adds_lastLabeled adds_statusComment : adds.

Lemma adds_upsert number bot body err :
  adds (sentBy (didUpsertStatusComment number bot body err)) (ranBy (didUpsertStatusComment number bot body err))
    (restUpsertStatusComment c number bot body).
Proof.
  unfold restUpsertStatusComment. adds_all.
  - intros accept. split; [done |]. right. split; [done |]. right. by eexists.
  - intros accept. split; [done |]. right. split; [done |]. by left.
Qed.

Lemma adds_perform e : adds (sentBy e) (ranBy e) (perform c remote e).
Proof.
  destruct e; unfold perform, withClone; (apply adds_bind; [|intros ?; apply adds_ret]).
  - unfold restResolveBranch. adds_all.
  - unfold restReadFile. adds_all. apply sends_get.
  - unfold restQueuedPRs. adds_all.
  - unfold restCanWrite. adds_all.
  - unfold restStatusComment. adds_all.
  - apply adds_upsert.
  - unfold restChangedFiles. adds_all.
  - adds_all.
  - unfold restWorkflowRuns. adds_all.
  - unfold restIsAncestor. adds_all. apply sends_get.
  - unfold restCancelRun. adds_all. intros accept. split; [done | by right].
  - unfold restRerunFailedJobs. adds_all. intros accept. split; [done | by right].
  - unfold restRemoveLabel. adds_all. intros accept. split; [done | by right].
  - unfold restOpenGit, NewLocalGit. adds_all; try done. by apply adds_update.
  - unfold gitFetch. adds_all; done.
  - unfold gitIsAncestor. adds_all; done.
  - unfold gitRebase. adds_all; done.
  - unfold gitPushBranches. adds_all; done.
  - unfold gitFastForward. adds_all; done.
  - adds_all.
  - adds_all.
Qed.

(** The logs after the calls of a trace: each entry is due to one of its events. *)
Lemma replay_logs tr (s : queueSys W) :
  ∃ new newc, requests (replay c remote tr s) = (new ++ requests s)%list
    ∧ commands (replay c remote tr s) = (newc ++ commands s)%list
    ∧ Forall (λ r, ∃ e, e ∈ tr ∧ sentBy e r) new ∧ Forall (λ g, ∃ e, e ∈ tr ∧ ranBy e g) newc.
Proof.
  induction tr as [|e tr IH] using rev_ind.
  - exists [], []. split_and!; [done | done | exact (List.Forall_nil _) | exact (List.Forall_nil _)].
  - destruct IH as (n1 & c1 & R1 & C1 & Q1 & G1). rewrite replay_app.
    destruct (adds_perform e (replay c remote tr s)) as (n2 & c2 & R2 & C2 & Q2 & G2).
    exists (n2 ++ n1)%list, (c2 ++ c1)%list. simpl. rewrite R2, C2, R1, C1, !app_assoc.
    split_and!; [done | done | |]; apply Forall_app; (split; [eapply Forall_impl; [eassumption |]
      | eapply Forall_impl; [eassumption |]]; intros x Hx).
    all: try (exists e; split; [apply elem_of_app; right; by apply list_elem_of_singleton | exact Hx]).
    all: destruct Hx as (e' & ? & ?); exists e'; split; [apply elem_of_app; by left | done].
Qed.

Lemma replay_sent tr s r : requests s = [] → r ∈ requests (replay c remote tr s) → ∃ e, e ∈ tr ∧ sentBy e r.
Proof.
  intros Hs. destruct (replay_logs tr s) as (new & newc & -> & _ & HQ & _). rewrite Hs, app_nil_r.
  intros Hr. rewrite Forall_forall in HQ. by apply HQ.
Qed.

Lemma replay_ran tr s g : commands s = [] → g ∈ commands (replay c remote tr s) → ∃ e, e ∈ tr ∧ ranBy e g.
Proof.
  intros Hs. destruct (replay_logs tr s) as (new & newc & _ & -> & _ & HR). rewrite Hs, app_nil_r.
  intros Hg. rewrite Forall_forall in HR. by apply HR.
Qed.
End tick.

(** * An example repository *)

(** Pull request 2, queued on top of 1, carries the marker of their stack; the world of
    git is the commit of [FETCH_HEAD]. *)
Module QueueDemo.
Import TickDemo.
Definition client : RESTClient := mkRESTClient "o" "r" "secret" "".

(** The server answers each request with its path, which the decoders know. *)
#[global] Instance world : QueueWorld string := {|
  qw_NewRequest _ := true;
  qw_Do r w := (inr (mkApiResponse (if String.eqb (aq_Method r) "POST" then 201 else 200) (aq_URL r) None), w);
  qw_Git command w :=
    match gc_Args command with
    | "fetch" :: args =>
        let ref := default "" (last args) in
        (mkGitOutput "" "" None, if String.eqb ref "refs/heads/one" then sha "b"
                                 else if String.eqb ref "refs/heads/two" then sha "c" else sha "a")
    | "rev-parse" :: _ => (mkGitOutput (w +:+ String "010" "") "" None, w)
    | _ => (mkGitOutput "" "" None, w)
    end;
  qw_LookupEnv _ := None;
  qw_MkdirTemp w := (inr "/tmp/q", w);
  qw_ParseURL _ := Some ("https", "github.com");
  qw_Fold n := n;
  qw_Now w := (UnixTime 1700000060, w);
  qw_Wait _ w := (false, w)
|}.

#[global] Instance documents : GitHubJSON := {|
  gj_Ref _ := Some (sha "a");
  gj_Issues _ := Some [(1, true); (2, true)];
  gj_Pull path :=
    Some (if Contains path "/pulls/1" then mkPullJSON false (sha "b") "one" (Some "o/r") "main" (Some "o/r")
          else mkPullJSON false (sha "c") "two" (Some "o/r") "main" (Some "o/r"));
  gj_Timeline _ := Some [mkTimelineEvent "labeled" "queue" "alice" (UnixTime 1700000000)];
  gj_Permission _ := Some "write";
  gj_Comments path :=
    Some (if Contains path "/issues/2/" then [mkIssueComment 9 (stackComment stack 1 []) "queue[bot]" "Bot"] else []);
  gj_Files _ := Some [];
  gj_CheckRuns _ := Some (1, [mkCheckRun 1 "test" "completed" "success" "" 5 (UnixTime 1700000010)]);
  gj_WorkflowRuns _ := Some [];
  gj_Compare _ := Some "behind";
  gj_YAML _ := Some config
|}.

Definition system : queueSys string := mkQueueSys "" [] [] None.

Definition remote : string := "https://github.com/o/r.git".
Definition landing : gitCommand :=
  mkGitCommand "/tmp/q/repo" (landArgs "main" (sha "c"))
    (gitEnvironment (app gitConfig [("http.https://github.com/.extraheader",
       "AUTHORIZATION: basic " +:+ Base64 "x-access-token:secret")])).

(** The pushes of a tick. *)
Definition pushes (s : queueSys string) : list gitCommand :=
  keep (λ g, bool_decide (head (gc_Args g) = Some "push")) (commands s).
End QueueDemo.

(** * A tick on the repository *)

(** C31: A push of the merge queue's own client either fast-forwards a branch to a commit
    that the queue knows is tested, or pushes, atomically and leased, the rebased
    branches of a stack that the queue has written down; and a dry run never pushes. *)
Theorem queue_pushes_tested {W} {QW : QueueWorld W} {GJ : GitHubJSON} c remote options (s : queueSys W) command :
  commands s = [] → command ∈ commands (afterTick c remote options s) → head (gc_Args command) = Some "push" →
  let tr := mq_trace (@runTick (restEnv c remote s) options).2 in
  DryRun options = false
  ∧ ((∃ l branch sha e r, tr = (l ++ didFastForward branch sha e :: r)%list
        ∧ gc_Args command = landArgs branch sha ∧ @landsTested (restEnv c remote s) options branch sha l)
     ∨ (∃ l updates e r, tr = (l ++ didPushBranches updates e :: r)%list
        ∧ gc_Args command = pushArgs updates ∧ @pushesRecorded (restEnv c remote s) options updates l)).
Proof.
  intros Hs Hin Hpush. cbv zeta. destruct (replay_ran c remote _ s command Hs Hin) as (e & He & Hran).
  pose proof (dry_run_calls (H := restEnv c remote s) options) as Hd.
  assert (Hw : dryCall e = false).
  { destruct e; simpl in Hran; done. }
  split.
  { destruct (DryRun options); [|done]. specialize (Hd eq_refl). rewrite Forall_forall in Hd.
    rewrite Hd in Hw by done. done. }
  clear Hd. apply list_elem_of_split in He as (l & r & Hl).
  destruct e as [| | | | | | | | | | | | | | | | |updates e|branch sha e| |]; simpl in Hran; try done.
  - right. exists l, updates, e, r. split_and!; [done.. |]. by eapply pushed_recorded.
  - left. exists l, branch, sha, e, r. split_and!; [done.. |]. by eapply landed_tested.
Qed.

Lemma queue_pushes_tested_witness :
  let s := QueueDemo.system in
  let tr := mq_trace (@runTick (restEnv QueueDemo.client QueueDemo.remote s) TickDemo.options).2 in
  QueueDemo.pushes (afterTick QueueDemo.client QueueDemo.remote TickDemo.options s) = [QueueDemo.landing]
  ∧ DryRun TickDemo.options = false
  ∧ ((∃ l branch sha e r, tr = (l ++ didFastForward branch sha e :: r)%list
        ∧ gc_Args QueueDemo.landing = landArgs branch sha
        ∧ @landsTested (restEnv QueueDemo.client QueueDemo.remote s) TickDemo.options branch sha l)
     ∨ (∃ l updates e r, tr = (l ++ didPushBranches updates e :: r)%list
        ∧ gc_Args QueueDemo.landing = pushArgs updates
        ∧ @pushesRecorded (restEnv QueueDemo.client QueueDemo.remote s) TickDemo.options updates l)).
Proof.
  assert (E : QueueDemo.pushes (afterTick QueueDemo.client QueueDemo.remote TickDemo.options QueueDemo.system)
              = [QueueDemo.landing]) by (vm_compute; reflexivity).
  split; [exact E |].
  assert (Hin : QueueDemo.landing ∈ QueueDemo.pushes (afterTick QueueDemo.client QueueDemo.remote TickDemo.options QueueDemo.system))
    by (rewrite E; left).
  apply elem_of_keep in Hin as [Hin _].
  exact (queue_pushes_tested QueueDemo.client QueueDemo.remote TickDemo.options QueueDemo.system QueueDemo.landing
           eq_refl Hin eq_refl).
Defined.

(** A dry run of the merge queue only reads: each request is a GET without a body,
    and git never runs, whatever GitHub answers. *)
Theorem queue_dry_run_silent {W} {QW : QueueWorld W} {GJ : GitHubJSON} c remote options (s : queueSys W) :
  DryRun options = true → requests s = [] → commands s = [] →
  Forall (λ r, aq_Method r = "GET" ∧ aq_Body r = None) (requests (afterTick c remote options s))
  ∧ commands (afterTick c remote options s) = [].
Proof.
  intros Hd Hr Hc. pose proof (dry_run_calls (H := restEnv c remote s) options Hd) as Hall.
  rewrite Forall_forall in Hall. split.
  - rewrite Forall_forall. intros r Hin. destruct (replay_sent c remote _ s r Hr Hin) as (e & He & _ & [Hg|Hw]); [done |].
    specialize (Hall e He). by destruct e.
  - destruct (commands (afterTick c remote options s)) as [|g gs] eqn:E; [done |].
    assert (Hin : g ∈ commands (afterTick c remote options s)) by (rewrite E; left).
    destruct (replay_ran c remote _ s g Hc Hin) as (e & He & Hran). specialize (Hall e He).
    destruct e; simpl in Hran; done.
Qed.

Lemma queue_dry_run_silent_witness :
  let s := afterTick QueueDemo.client QueueDemo.remote (mkOptions "queue[bot]" true 0) QueueDemo.system in
  length (requests s) = 11%nat
  ∧ Forall (λ r, aq_Method r = "GET" ∧ aq_Body r = None) (requests s) ∧ commands s = [].
Proof.
  split; [vm_compute; reflexivity |].
  exact (queue_dry_run_silent QueueDemo.client QueueDemo.remote (mkOptions "queue[bot]" true 0) QueueDemo.system
           eq_refl eq_refl eq_refl).
Defined.
