(* ===== verification/PoolState.v ===== *)
(** Host pools, the data (src/pool/pool.go, the records of src/pool/compute.go,
    src/pool/usage.go and src/pool/conditions.go) and the pool's constructor.

    A pool keeps shared hosts; a host has a number of slots, and a slot holding
    a lease is a worker.  [hostState] is what the pool knows of one host, [Pool]
    the state behind the pool's mutex.  [h_warnedAt], which only spaces out log
    lines, is left out, and so are the logger, the clock and the channels, which
    the programs of [Pool] model as effects. *)

From S2P Require Import Prelude Float64 Provider GoStrings.

#[local] Open Scope string_scope.
#[local] Open Scope Z_scope.

(** * Sources, hosts and slots *)

Definition BillingPerSecond : string := "per_second".
Definition BillingPerStartedHour : string := "per_started_hour".
Definition BillingOwned : string := "owned".

Record Facts := mkFacts {
  Billing : string;
  HourlyPrice : f64;
  Currency : string;
  CanCreate : bool
}.

Record Host := mkHost {
  host_ID : string;
  Address : string;
  HostKey : string;
  host_CreatedAt : time;
  host_State : string;
  StateSince : time;
  host_Image : string
}.

Definition HostStopped : string := "stopped".

Record Slot := mkSlot {
  slot_Index : Z;
  slot_ControllerID : string;
  slot_LeaseID : string;
  slot_RunnerName : string;
  slot_RunnerID : Z;
  slot_RunnerScaleSetID : Z;
  slot_State : string;
  slot_CreatedAt : time
}.

Record HostInfo := mkHostInfo {
  info_Version : string;
  info_Slots : Z;
  info_Image : string;
  info_Ready : bool;
  info_DiskFreeBytes : Z
}.

Record StartRequest := mkStartRequest {
  sr_Image : string;
  sr_ControllerID : string;
  sr_LeaseID : string;
  sr_RunnerName : string;
  sr_RunnerID : Z;
  sr_RunnerScaleSetID : Z;
  sr_JITConfig : string;
  sr_Deadline : time;
  sr_IdleTimeoutSeconds : Z
}.

(** [Host{}] and [HostInfo{}] *)
Definition noHost : Host := mkHost "" "" "" zeroTime "" zeroTime "".
Definition noInfo : HostInfo := mkHostInfo "" 0 "" false 0.

(** * Agent refusals *)

Definition CodeInvalid : string := "invalid".
Definition CodeSlotBusy : string := "slot_busy".
Definition CodeLeaseMismatch : string := "lease_mismatch".
Definition CodeNotReady : string := "not_ready".
Definition CodeImageMismatch : string := "image_mismatch".
Definition CodeDiskFull : string := "disk_full".
Definition CodeDockerFailed : string := "docker_failed".

Definition as_agent (e : error) : option string :=
  match e with AgentError code _ => Some code | _ => None end.

Definition IsAgentRefusal (e : error) (code : string) : bool :=
  match errors_as as_agent e with
  | Some c => String.eqb code "" || String.eqb c code
  | None => false
  end.

Definition refusalCode (e : error) : string :=
  match errors_as as_agent e with Some c => c | None => "" end.

(** The regular expression [^[a-z][a-z0-9-]{0,30}$]. *)
Definition ValidName (name : string) : bool :=
  match name with
  | "" => false
  | String c rest =>
      lower_byte c && (String.length rest <=? 30)%nat
      && string_forallb (λ c, lower_byte c || digit_byte c || Ascii.eqb c "-"%char) rest
  end.

(** * Configuration *)

(** [SourceStops]: the source is a [Stopper].  [Follow], when set, is the
    follower's [Related]. *)
Record Config := mkConfig {
  Name : string;
  ControllerID : string;
  Image : string;
  MinHosts : Z;
  MaxHosts : Z;
  SourceFacts : Facts;
  SourceStops : bool;
  Follow : option (string → bool);
  ImageRefresh : duration;
  MaxLifetime : duration;
  Tick : duration;
  HostListInterval : duration;
  BootTimeout : duration;
  UnreachableGrace : duration;
  IdleReturn : duration;
  HourMargin : duration;
  CallTimeout : duration;
  StartTimeout : duration;
  IdleStop : duration;
  KeepStopped : Z;
  DeleteStoppedAfter : duration;
  Speculative : bool
}.

Definition maxStartAttempts : nat := 3.
Definition maxStartFailures : Z := 2.
Definition hostRefusalBackoff : duration := Minute.
Definition initialCreateBackoff : duration := Minute.
Definition maximumCreateBackoff : duration := 15 * Minute.
Definition imageRetry : duration := Minute.
Definition replaceInterval : duration := 5 * Minute.
Definition CapacityReasonFull : string := "pool_full".
Definition lateStartWait : duration := 30 * Second.
Definition lateStartPoll : duration := 2 * Second.

(** [p.stopper != nil] *)
Definition stopper (cfg : Config) : bool := CanCreate (SourceFacts cfg) && SourceStops cfg.

(** * Usage *)

Record usage := mkUsage {
  u_running : duration;
  u_ready : duration;
  u_busy : f64;
  u_readyBusy : f64;
  u_slot : f64;
  u_readySlot : f64
}.

Definition noUsage : usage := mkUsage 0 0 f64_zero f64_zero f64_zero f64_zero.

Definition usage_add (u other : usage) : usage :=
  mkUsage (u_running u + u_running other) (u_ready u + u_ready other)
    (f64_add (u_busy u) (u_busy other)) (f64_add (u_readyBusy u) (u_readyBusy other))
    (f64_add (u_slot u) (u_slot other)) (f64_add (u_readySlot u) (u_readySlot other)).

Record meter := mkMeter {
  m_at : time;
  m_running : bool;
  m_ready : bool;
  m_busy : Z;
  m_used : usage
}.

Definition noMeter : meter := mkMeter zeroTime false false 0 noUsage.

(** * Health *)

Record launchBucket := mkLaunchBucket { lb_start : time; lb_launched : Z; lb_overflowed : Z }.

Record poolHealth := mkPoolHealth {
  sourceFailingSince : time;
  imageFailingSince : time;
  launchFailures : Z;
  launchFailingSince : time;
  launchFailure : string;
  bootFailingSince : time;
  bootFailedAt : time;
  bootFailure : string;
  window : list launchBucket;
  overflowingSince : time;
  lastFull : time
}.

Definition noPoolHealth : poolHealth :=
  mkPoolHealth zeroTime zeroTime 0 zeroTime "" zeroTime zeroTime "" [] zeroTime zeroTime.

Definition eta_poolHealth (s : poolHealth) : poolHealth :=
  mkPoolHealth (sourceFailingSince s) (imageFailingSince s) (launchFailures s)
    (launchFailingSince s) (launchFailure s) (bootFailingSince s) (bootFailedAt s) (bootFailure s)
    (window s) (overflowingSince s) (lastFull s).

Definition set_sourceFailingSince (v : time) (s : poolHealth) : poolHealth :=
  ltac:(replace_field eta_poolHealth sourceFailingSince v s).
Definition set_imageFailingSince (v : time) (s : poolHealth) : poolHealth :=
  ltac:(replace_field eta_poolHealth imageFailingSince v s).
Definition set_window (v : list launchBucket) (s : poolHealth) : poolHealth :=
  ltac:(replace_field eta_poolHealth window v s).
Definition set_overflowingSince (v : time) (s : poolHealth) : poolHealth :=
  ltac:(replace_field eta_poolHealth overflowingSince v s).
Definition set_lastFull (v : time) (s : poolHealth) : poolHealth :=
  ltac:(replace_field eta_poolHealth lastFull v s).

Record hostHealth := mkHostHealth {
  drainedAt : time;
  slotFailures : Z;
  slotFailingSince : time;
  slotFailure : string;
  foreignSince : time
}.

Definition noHostHealth : hostHealth := mkHostHealth zeroTime 0 zeroTime "" zeroTime.

Definition eta_hostHealth (s : hostHealth) : hostHealth :=
  mkHostHealth (drainedAt s) (slotFailures s) (slotFailingSince s) (slotFailure s) (foreignSince s).

Definition set_drainedAt (v : time) (s : hostHealth) : hostHealth :=
  ltac:(replace_field eta_hostHealth drainedAt v s).
Definition set_slotFailures (v : Z) (s : hostHealth) : hostHealth :=
  ltac:(replace_field eta_hostHealth slotFailures v s).
Definition set_foreignSince (v : time) (s : hostHealth) : hostHealth :=
  ltac:(replace_field eta_hostHealth foreignSince v s).

(** * Hosts as the pool knows them *)

Inductive phase :=
  | phaseCreating | phaseBooting | phaseReady | phaseDraining
  | phaseDeleting | phaseStopping | phaseStopped | phaseStarting.

#[global] Instance phase_eq_dec : EqDecision phase.
Proof. solve_decision. Defined.

Definition phase_eqb (a b : phase) : bool := bool_decide (a = b).

Record hostState := mkHostState {
  h_host : Host;
  h_phase : phase;
  h_info : HostInfo;
  h_slots : gmap Z Slot;
  h_reserved : gmap Z string;
  firstSeen : time;
  lastContact : time;
  lastListed : time;
  everReady : bool;
  ownBoot : bool;
  emptySince : time;
  notBefore : time;
  drainReason : string;
  bootSince : time;
  runningSince : time;
  billed : f64;
  stoppedSince : time;
  startedByPool : bool;
  startFailures : Z;
  changedAt : time;
  createdImage : string;
  h_meter : meter;
  billedBefore : f64;
  h_health : hostHealth
}.

(** [&hostState{host, phase, firstSeen, slots: {}, reserved: {}}] *)
Definition newHostState (host : Host) (ph : phase) (now : time) : hostState :=
  mkHostState host ph noInfo ∅ ∅ now zeroTime zeroTime false false zeroTime zeroTime ""
    zeroTime zeroTime f64_zero zeroTime false 0 zeroTime "" noMeter f64_zero noHostHealth.

Definition eta_hostState (h : hostState) : hostState :=
  mkHostState (h_host h) (h_phase h) (h_info h) (h_slots h) (h_reserved h) (firstSeen h)
    (lastContact h) (lastListed h) (everReady h) (ownBoot h) (emptySince h) (notBefore h)
    (drainReason h) (bootSince h) (runningSince h) (billed h) (stoppedSince h) (startedByPool h)
    (startFailures h) (changedAt h) (createdImage h) (h_meter h) (billedBefore h) (h_health h).

Definition set_host (v : Host) (h : hostState) : hostState :=
  ltac:(replace_field eta_hostState h_host v h).
Definition set_phase (v : phase) (h : hostState) : hostState :=
  ltac:(replace_field eta_hostState h_phase v h).
Definition set_info (v : HostInfo) (h : hostState) : hostState :=
  ltac:(replace_field eta_hostState h_info v h).
Definition set_slots (v : gmap Z Slot) (h : hostState) : hostState :=
  ltac:(replace_field eta_hostState h_slots v h).
Definition set_reserved (v : gmap Z string) (h : hostState) : hostState :=
  ltac:(replace_field eta_hostState h_reserved v h).
Definition set_lastContact (v : time) (h : hostState) : hostState :=
  ltac:(replace_field eta_hostState lastContact v h).
Definition set_lastListed (v : time) (h : hostState) : hostState :=
  ltac:(replace_field eta_hostState lastListed v h).
Definition set_everReady (v : bool) (h : hostState) : hostState :=
  ltac:(replace_field eta_hostState everReady v h).
Definition set_ownBoot (v : bool) (h : hostState) : hostState :=
  ltac:(replace_field eta_hostState ownBoot v h).
Definition set_emptySince (v : time) (h : hostState) : hostState :=
  ltac:(replace_field eta_hostState emptySince v h).
Definition set_notBefore (v : time) (h : hostState) : hostState :=
  ltac:(replace_field eta_hostState notBefore v h).
Definition set_drainReason (v : string) (h : hostState) : hostState :=
  ltac:(replace_field eta_hostState drainReason v h).
Definition set_bootSince (v : time) (h : hostState) : hostState :=
  ltac:(replace_field eta_hostState bootSince v h).
Definition set_runningSince (v : time) (h : hostState) : hostState :=
  ltac:(replace_field eta_hostState runningSince v h).
Definition set_billed (v : f64) (h : hostState) : hostState :=
  ltac:(replace_field eta_hostState billed v h).
Definition set_stoppedSince (v : time) (h : hostState) : hostState :=
  ltac:(replace_field eta_hostState stoppedSince v h).
Definition set_startedByPool (v : bool) (h : hostState) : hostState :=
  ltac:(replace_field eta_hostState startedByPool v h).
Definition set_startFailures (v : Z) (h : hostState) : hostState :=
  ltac:(replace_field eta_hostState startFailures v h).
Definition set_changedAt (v : time) (h : hostState) : hostState :=
  ltac:(replace_field eta_hostState changedAt v h).
Definition set_createdImage (v : string) (h : hostState) : hostState :=
  ltac:(replace_field eta_hostState createdImage v h).
Definition set_meter (v : meter) (h : hostState) : hostState :=
  ltac:(replace_field eta_hostState h_meter v h).
Definition set_billedBefore (v : f64) (h : hostState) : hostState :=
  ltac:(replace_field eta_hostState billedBefore v h).
Definition set_hostHealth (v : hostHealth) (h : hostState) : hostState :=
  ltac:(replace_field eta_hostState h_health v h).

(** * The pool *)

Record Pool := mkPool {
  p_hosts : gmap string hostState;
  hostsListedAt : time;
  hostsKnown : bool;
  demand : Z;
  createSeq : Z;
  createNotBefore : time;
  createBackoff : duration;
  launched : Z;
  overflowed : Z;
  speculated : Z;
  returnedHosts : Z;
  returnedHours : f64;
  hostStarts : Z;
  hostStops : Z;
  p_image : string;
  imageResolved : bool;
  imageCheckAt : time;
  imageCheckedAt : time;
  imageError : string;
  replaceNotBefore : time;
  imageFailed : bool;
  imageReplaced : Z;
  measuredSince : time;
  retired : usage;
  retiredBefore : f64;
  slotsSeen : Z;
  p_health : poolHealth
}.

Definition eta_Pool (p : Pool) : Pool :=
  mkPool (p_hosts p) (hostsListedAt p) (hostsKnown p) (demand p) (createSeq p) (createNotBefore
    p) (createBackoff p) (launched p) (overflowed p) (speculated p) (returnedHosts p)
    (returnedHours p) (hostStarts p) (hostStops p) (p_image p) (imageResolved p) (imageCheckAt
    p) (imageCheckedAt p) (imageError p) (replaceNotBefore p) (imageFailed p) (imageReplaced p)
    (measuredSince p) (retired p) (retiredBefore p) (slotsSeen p) (p_health p).

Definition set_hosts (v : gmap string hostState) (p : Pool) : Pool :=
  ltac:(replace_field eta_Pool p_hosts v p).
Definition set_hostsListedAt (v : time) (p : Pool) : Pool :=
  ltac:(replace_field eta_Pool hostsListedAt v p).
Definition set_hostsKnown (v : bool) (p : Pool) : Pool :=
  ltac:(replace_field eta_Pool hostsKnown v p).
Definition set_demand (v : Z) (p : Pool) : Pool :=
  ltac:(replace_field eta_Pool demand v p).
Definition set_createSeq (v : Z) (p : Pool) : Pool :=
  ltac:(replace_field eta_Pool createSeq v p).
Definition set_createNotBefore (v : time) (p : Pool) : Pool :=
  ltac:(replace_field eta_Pool createNotBefore v p).
Definition set_createBackoff (v : duration) (p : Pool) : Pool :=
  ltac:(replace_field eta_Pool createBackoff v p).
Definition set_launched (v : Z) (p : Pool) : Pool :=
  ltac:(replace_field eta_Pool launched v p).
Definition set_overflowed (v : Z) (p : Pool) : Pool :=
  ltac:(replace_field eta_Pool overflowed v p).
Definition set_speculated (v : Z) (p : Pool) : Pool :=
  ltac:(replace_field eta_Pool speculated v p).
Definition set_returnedHosts (v : Z) (p : Pool) : Pool :=
  ltac:(replace_field eta_Pool returnedHosts v p).
Definition set_returnedHours (v : f64) (p : Pool) : Pool :=
  ltac:(replace_field eta_Pool returnedHours v p).
Definition set_hostStarts (v : Z) (p : Pool) : Pool :=
  ltac:(replace_field eta_Pool hostStarts v p).
Definition set_hostStops (v : Z) (p : Pool) : Pool :=
  ltac:(replace_field eta_Pool hostStops v p).
Definition set_image (v : string) (p : Pool) : Pool :=
  ltac:(replace_field eta_Pool p_image v p).
Definition set_imageResolved (v : bool) (p : Pool) : Pool :=
  ltac:(replace_field eta_Pool imageResolved v p).
Definition set_imageCheckAt (v : time) (p : Pool) : Pool :=
  ltac:(replace_field eta_Pool imageCheckAt v p).
Definition set_imageCheckedAt (v : time) (p : Pool) : Pool :=
  ltac:(replace_field eta_Pool imageCheckedAt v p).
Definition set_imageError (v : string) (p : Pool) : Pool :=
  ltac:(replace_field eta_Pool imageError v p).
Definition set_replaceNotBefore (v : time) (p : Pool) : Pool :=
  ltac:(replace_field eta_Pool replaceNotBefore v p).
Definition set_imageFailed (v : bool) (p : Pool) : Pool :=
  ltac:(replace_field eta_Pool imageFailed v p).
Definition set_imageReplaced (v : Z) (p : Pool) : Pool :=
  ltac:(replace_field eta_Pool imageReplaced v p).
Definition set_retired (v : usage) (p : Pool) : Pool :=
  ltac:(replace_field eta_Pool retired v p).
Definition set_retiredBefore (v : f64) (p : Pool) : Pool :=
  ltac:(replace_field eta_Pool retiredBefore v p).
Definition set_slotsSeen (v : Z) (p : Pool) : Pool :=
  ltac:(replace_field eta_Pool slotsSeen v p).
Definition set_poolHealth (v : poolHealth) (p : Pool) : Pool :=
  ltac:(replace_field eta_Pool p_health v p).

(** Replace one host's entry. *)
Definition set_hostState (id : string) (h : hostState) (p : Pool) : Pool :=
  p |> set_hosts (<[id := h]> (p_hosts p)).

(** [if h, ok := p.hosts[id]; ok { f h }] *)
Definition with_host (id : string) (f : hostState → hostState) (p : Pool) : Pool :=
  p |> set_hosts (alter f id (p_hosts p)).

(** ** Construction *)

Definition orDefault (value fallback : duration) : duration :=
  if value <=? 0 then fallback else value.

(** The configuration with the defaults of [New] filled in. *)
Definition withDefaults (c : Config) : Config :=
  let idleReturn := orDefault (IdleReturn c) (2 * Minute) in
  mkConfig (Name c) (ControllerID c) (Image c) (MinHosts c) (MaxHosts c) (SourceFacts c)
    (SourceStops c) (Follow c) (orDefault (ImageRefresh c) (5 * Minute)) (MaxLifetime c)
    (orDefault (Tick c) (10 * Second)) (orDefault (HostListInterval c) (30 * Second))
    (orDefault (BootTimeout c) (10 * Minute)) (orDefault (UnreachableGrace c) (2 * Minute))
    idleReturn (orDefault (HourMargin c) (2 * Minute))
    (orDefault (CallTimeout c) (20 * Second)) (orDefault (StartTimeout c) (90 * Second))
    (orDefault (IdleStop c) idleReturn) (KeepStopped c)
    (orDefault (DeleteStoppedAfter c) (6 * Hour)) (Speculative c).

Definition newPool (image : string) (now : time) : Pool :=
  mkPool ∅ zeroTime false 0 0 zeroTime 0 0 0 0 0 f64_zero 0 0 image false zeroTime zeroTime ""
    zeroTime false 0 now noUsage f64_zero 0 noPoolHealth.

Definition New (c : Config) (now : time) : error + Config * Pool :=
  let facts := SourceFacts c in
  if negb (ValidName (Name c)) then
    inl (ErrorString "pool name must be lowercase letters, digits, and hyphens")
  else if String.eqb (ControllerID c) "" || String.eqb (Image c) "" then
    inl (ErrorString "pool requires a controller ID, a runner image, a host source, and a host agent")
  else if negb (String.eqb (Billing facts) BillingPerSecond
                || String.eqb (Billing facts) BillingPerStartedHour
                || String.eqb (Billing facts) BillingOwned) then
    inl (ErrorString "pool source has unknown billing")
  else if CanCreate facts
          && ((MinHosts c <? 0) || (MaxHosts c <? 1) || (MaxHosts c <? MinHosts c)) then
    inl (ErrorString "host bounds must satisfy 0 <= min_hosts <= max_hosts and max_hosts >= 1")
  else if negb (CanCreate facts) && (negb (MinHosts c =? 0) || negb (MaxHosts c =? 0)) then
    inl (ErrorString "pool source cannot create hosts, so min_hosts and max_hosts do not apply")
  else if bool_decide (is_Some (Follow c)) && negb (CanCreate facts) then
    inl (ErrorString "pool source cannot create hosts, so it cannot follow an image tag")
  else if MaxLifetime c <? Minute then
    inl (ErrorString "pool requires the worker maximum lifetime")
  else
  let c := withDefaults c in
  if String.eqb (Billing facts) BillingPerStartedHour && (HourMargin c <=? Tick c) then
    inl (ErrorString "pool must check its hosts more often than its paid-hour margin")
  else if negb (stopper c) && negb (KeepStopped c =? 0) then
    inl (ErrorString "pool source cannot stop hosts, so keep_stopped does not apply")
  else if (KeepStopped c <? 0) || (MaxHosts c <? KeepStopped c) then
    inl (ErrorString "pool must keep between 0 and max_hosts stopped hosts")
  else inr (c, newPool (Image c) now).
