(* ===== verification/PoolSections.v ===== *)
(** Host pools, what is done under the pool's mutex (src/pool/compute.go): the state of
    hosts and slots, then the critical sections.

    Each critical section is a function from the state to the state, given the clock
    readings the section makes and the answers of the calls made before the lock was
    taken. *)

From S2P Require Import Prelude Float64 Provider GoStrings GoText PoolState.

#[local] Open Scope string_scope.
#[local] Open Scope Z_scope.

(** * Small helpers *)

(** [latest], [earliest], [firstNonZero], [firstNonEmpty] *)
Definition latest (values : list time) : time :=
  fold_left (λ result value, if After value result then value else result) values zeroTime.

Definition earliest (value lim : time) : time :=
  if negb (IsZero value) && Before value lim then value else lim.

Fixpoint firstNonZero (values : list time) : time :=
  match values with
  | [] => zeroTime
  | value :: values => if IsZero value then firstNonZero values else value
  end.

Fixpoint firstNonEmpty (values : list string) : string :=
  match values with
  | [] => ""
  | value :: values => if String.eqb value "" then firstNonEmpty values else value
  end.

Definition remainingPaid (age : duration) : duration :=
  if age <? 0 then Hour else Hour - Z.rem age Hour.

(** [p.sortedIDs()] *)
Definition sortedIDs (p : Pool) : list string := merge_sort str_le (elements (dom (p_hosts p))).

(** The hosts in that order. *)
Definition sortedHosts (p : Pool) : list (string * hostState) :=
  omap (λ id, pair id <$> p_hosts p !! id) (sortedIDs p).

(** [sortedSlots] *)
Definition sortedSlots (slots : gmap Z Slot) : list Z := merge_sort Z.le (elements (dom slots)).

(** * Slots *)

Definition slotIndexes (h : hostState) : list Z :=
  map Z.of_nat (seq 0 (Z.to_nat (info_Slots (h_info h)))).

Definition slotFree (h : hostState) (index : Z) : bool :=
  bool_decide (h_slots h !! index = None) && bool_decide (h_reserved h !! index = None).

Definition occupied (h : hostState) : Z := Z.of_nat (size (h_slots h)).
Definition reservations (h : hostState) : Z := Z.of_nat (size (h_reserved h)).

Definition freeSlot (h : hostState) : option Z := List.find (slotFree h) (slotIndexes h).

Definition freeCount (h : hostState) : Z := Z.of_nat (length (keep (slotFree h) (slotIndexes h))).

(** [h.running()]: the machine may be up and its agent reachable. *)
Definition running (h : hostState) : bool :=
  match h_phase h with
  | phaseCreating | phaseStopped | phaseStarting | phaseStopping => false
  | _ => true
  end.

(** A host that is being created, started or booted. *)
Definition onItsWay (h : hostState) : bool :=
  match h_phase h with phaseCreating | phaseStarting | phaseBooting => true | _ => false end.

Section pool.
Context (cfg : Config).

(** ** Images *)

Definition accepts (p : Pool) (image : string) : bool :=
  String.eqb image (p_image p) || String.eqb image (Image cfg)
  || match Follow cfg with Some related => related image | None => false end.

Definition stale (p : Pool) (image : string) : bool :=
  bool_decide (is_Some (Follow cfg)) && imageResolved p && negb (String.eqb image (p_image p)).

(** [p.takesLeases(h, now)] *)
Definition takesLeases (h : hostState) (now : time) : bool :=
  phase_eqb (h_phase h) phaseReady && negb (Before now (notBefore h))
  && negb (IsZero (lastContact h)) && (Sub now (lastContact h) <=? UnreachableGrace cfg).

Definition freeSlots (now : time) (p : Pool) : Z :=
  sumZ (λ x, if takesLeases x.2 now then freeCount x.2 else 0) (map_to_list (p_hosts p)).

(** ** Billing *)

Definition billedHours (createdAt now : time) : f64 :=
  if IsZero createdAt || negb (After now createdAt) then f64_zero
  else
  let age := Sub now createdAt in
  if String.eqb (Billing (SourceFacts cfg)) BillingPerStartedHour then
    f64_of_int (f64_ceil (Hours_f64 age))
  else if String.eqb (Billing (SourceFacts cfg)) BillingPerSecond then Hours_f64 age
  else f64_zero.

Definition hostBilled (h : hostState) (now : time) : f64 :=
  if IsZero (runningSince h) then billed h
  else f64_add (billed h) (billedHours (runningSince h) now).

(** ** Usage *)

Definition slotsOf (seen : Z) (h : hostState) : Z :=
  if 0 <? info_Slots (h_info h) then info_Slots (h_info h) else seen.

(** The time since the last accrual, at the state that one recorded. *)
Definition accrueUsed (m : meter) (now : time) : usage :=
  let elapsed := Sub now (m_at m) in
  if negb (IsZero (m_at m)) && (0 <? elapsed) then
    let u := m_used m in
    let slotSeconds := f64_mul (f64_of_int (m_busy m)) (Seconds_f64 elapsed) in
    let u := if m_running m
             then mkUsage (u_running u + elapsed) (u_ready u) (f64_add (u_busy u) slotSeconds)
                    (u_readyBusy u) (u_slot u) (u_readySlot u)
             else u in
    if m_ready m
    then mkUsage (u_running u) (u_ready u + elapsed) (u_busy u)
           (f64_add (u_readyBusy u) slotSeconds) (u_slot u) (u_readySlot u)
    else u
  else m_used m.

(** The slots that hold a runner or a reservation. *)
Definition busySlots (seen : Z) (h : hostState) : Z :=
  let busy := occupied h + reservations h in
  if 0 <? slotsOf seen h then Z.min busy (slotsOf seen h) else busy.

Definition accrueHost (seen : Z) (now : time) (h : hostState) : hostState :=
  let m := h_meter h in
  let isRunning := negb (IsZero (runningSince h)) in
  h |> set_meter (mkMeter (if After now (m_at m) then now else m_at m) isRunning
        (isRunning && phase_eqb (h_phase h) phaseReady)
        (if isRunning then busySlots seen h else 0) (accrueUsed m now)).

Definition accrue (now : time) (p : Pool) : Pool :=
  p |> set_hosts (accrueHost (slotsSeen p) now <$> p_hosts p).

Definition usageOf (p : Pool) (h : hostState) : usage :=
  let used := m_used (h_meter h) in
  let slots := f64_of_int (slotsOf (slotsSeen p) h) in
  mkUsage (u_running used) (u_ready used) (u_busy used) (u_readyBusy used)
    (f64_mul slots (Seconds_f64 (u_running used))) (f64_mul slots (Seconds_f64 (u_ready used))).

Definition forget (id : string) (now : time) (p : Pool) : Pool :=
  match p_hosts p !! id with
  | None => p
  | Some _ =>
    let p := accrue now p in
    match p_hosts p !! id with
    | Some h => p |> set_retired (usage_add (retired p) (usageOf p h))
                  |> set_hosts (delete id (p_hosts p))
    | None => p
    end
  end.

(** ** Health *)

Definition healthLaunchFailed (now : time) (reason : string) (s : poolHealth) : poolHealth :=
  mkPoolHealth (sourceFailingSince s) (imageFailingSince s) (launchFailures s + 1)
    (if launchFailures s =? 0 then now else launchFailingSince s) reason
    (bootFailingSince s) (bootFailedAt s) (bootFailure s) (window s) (overflowingSince s) (lastFull s).

Definition launchSucceeded (s : poolHealth) : poolHealth :=
  mkPoolHealth (sourceFailingSince s) (imageFailingSince s) 0 zeroTime ""
    (bootFailingSince s) (bootFailedAt s) (bootFailure s) (window s) (overflowingSince s) (lastFull s).

Definition bootFailed (now : time) (failure : string) (s : poolHealth) : poolHealth :=
  mkPoolHealth (sourceFailingSince s) (imageFailingSince s) (launchFailures s)
    (launchFailingSince s) (launchFailure s)
    (if IsZero (bootFailingSince s) then now else bootFailingSince s) now failure
    (window s) (overflowingSince s) (lastFull s).

Definition bootRecovered (s : poolHealth) : poolHealth :=
  mkPoolHealth (sourceFailingSince s) (imageFailingSince s) (launchFailures s)
    (launchFailingSince s) (launchFailure s) zeroTime zeroTime ""
    (window s) (overflowingSince s) (lastFull s).

Definition slotFailed (now : time) (reason : string) (s : hostHealth) : hostHealth :=
  mkHostHealth (drainedAt s) (slotFailures s + 1)
    (if slotFailures s =? 0 then now else slotFailingSince s) reason (foreignSince s).

(** [p.health.hostReady(h)], on the pool's side and on the host's. *)
Definition hostReady (s : poolHealth) : poolHealth := bootRecovered (launchSucceeded s).

Definition foreign (h : hostState) : bool :=
  existsb (λ x, negb (String.eqb (slot_ControllerID x.2) (ControllerID cfg)))
    (map_to_list (h_slots h)).

Definition trackForeign (now : time) (h : hostState) : hostState :=
  let s := h_health h in
  if negb (foreign h) then h |> set_hostHealth (set_foreignSince zeroTime s)
  else if IsZero (foreignSince s) then h |> set_hostHealth (set_foreignSince now s)
  else h.

Definition overflowWindow : duration := Hour.
Definition overflowBucket : duration := 5 * Minute.
Definition overflowReported : Z := 20.
Definition bootFailureQuiet : duration := 30 * Minute.

Definition inWindow (now : time) (b : launchBucket) : bool :=
  Sub now (lb_start b) <? overflowWindow.

(** The buckets with the one [now] falls into last. *)
Definition rollWindow (now : time) (buckets : list launchBucket) : list launchBucket :=
  let start := Truncate now overflowBucket in
  match last buckets with
  | Some b => if lb_start b =? start then buckets
              else app (keep (inWindow now) buckets) [mkLaunchBucket start 0 0]
  | None => [mkLaunchBucket start 0 0]
  end.

Definition bumpBucket (over : bool) (b : launchBucket) : launchBucket :=
  if over then mkLaunchBucket (lb_start b) (lb_launched b) (lb_overflowed b + 1)
  else mkLaunchBucket (lb_start b) (lb_launched b + 1) (lb_overflowed b).

(** [bucket := &s.window[len(s.window)-1]; bucket.x++] *)
Fixpoint bumpLast (over : bool) (buckets : list launchBucket) : list launchBucket :=
  match buckets with
  | [] => []
  | [b] => [bumpBucket over b]
  | b :: buckets => b :: bumpLast over buckets
  end.

Definition count (now : time) (over : bool) (s : poolHealth) : poolHealth :=
  let s := s |> set_window (bumpLast over (rollWindow now (window s))) in
  if over then s |> set_lastFull now else s.

(** [s.recent(now)]: launches taken, and refused as full. *)
Definition recent (now : time) (s : poolHealth) : Z * Z :=
  let buckets := keep (inWindow now) (window s) in
  (sumZ lb_launched buckets, sumZ lb_overflowed buckets).

Definition hostOnItsWay (p : Pool) : bool :=
  existsb (λ x, onItsWay x.2) (map_to_list (p_hosts p)).

(** ** Stopped hosts *)

(** Why a stopped host must not be started again, or [""]. *)
Definition unusable (p : Pool) (h : hostState) : string :=
  if negb (String.eqb (drainReason h) "") then drainReason h
  else if negb (String.eqb (host_Image (h_host h)) "") && negb (accepts p (host_Image (h_host h)))
  then "image_mismatch"
  else if negb (String.eqb (host_Image (h_host h)) "") && stale p (host_Image (h_host h))
  then "image_stale"
  else if maxStartFailures <=? startFailures h then "start_failed"
  else "".

(** One turn of the loop of [startable]. *)
Definition pickStartable (now : time) (p : Pool) (best : option (string * hostState))
    (x : string * hostState) : option (string * hostState) :=
  let h := x.2 in
  if negb (phase_eqb (h_phase h) phaseStopped) || Before now (notBefore h)
     || negb (String.eqb (unusable p h) "") then best
  else match best with
       | None => Some x
       | Some b => if After (stoppedSince h) (stoppedSince b.2) then Some x else best
       end.

Definition startable (now : time) (p : Pool) : option (string * hostState) :=
  if negb (stopper cfg) then None
  else fold_left (pickStartable now p) (sortedHosts p) None.

Definition atCeiling (now : time) (p : Pool) : bool :=
  if hostOnItsWay p then false
  else if bool_decide (is_Some (startable now p)) then false
  else negb (CanCreate (SourceFacts cfg)) || (MaxHosts cfg <=? Z.of_nat (size (p_hosts p))).

Definition checkHealth (now : time) (p : Pool) : Pool :=
  let s := p_health p in
  let s := if negb (IsZero (bootFailingSince s)) && negb (hostOnItsWay p)
              && (bootFailureQuiet <=? Sub now (latest [bootFailedAt s; lastFull s]))
           then bootRecovered s else s in
  let '(taken, over) := recent now s in
  let s := if IsZero (overflowingSince s)
           then if (overflowReported <=? over) && (taken <=? over) && atCeiling now p
                then s |> set_overflowingSince now else s
           else if (2 * over <? overflowReported) || (3 * over <? taken)
                then s |> set_overflowingSince zeroTime else s in
  p |> set_poolHealth s.
End pool.

(** * Critical sections *)

#[local] Open Scope string_scope.
#[local] Open Scope Z_scope.

(** * Workers in slots *)

Definition WorkerID (hostID : string) (slot : Z) (leaseID : string) : string :=
  hostID +:+ "/" +:+ Itoa slot +:+ "/" +:+ leaseID.

(** [strconv.Atoi] with a sign, the value at least zero. *)
Definition parseSlot (s : string) : option Z :=
  match s with
  | String "+" digits => Atoi digits
  | String "-" digits => match Atoi digits with Some 0 => Some 0 | _ => None end
  | _ => Atoi s
  end.

Definition parseWorkerID (id : string) : error + string * Z * string :=
  match splitOn "/" id with
  | [host; slot; lease] =>
    if String.eqb host "" || String.eqb lease "" then inl (ErrorString "invalid pool worker id")
    else match parseSlot slot with
         | Some slot => inr (host, slot, lease)
         | None => inl (ErrorString "invalid pool worker id")
         end
  | _ => inl (ErrorString "invalid pool worker id")
  end.

Definition slotWorker (hostID : string) (index : Z) (slot : Slot) (lease : option Lease) : Worker :=
  let leaseID := firstNonEmpty [slot_LeaseID slot; from_option lease_ID "" lease] in
  mkWorker (WorkerID hostID index leaseID) leaseID
    (firstNonEmpty [slot_RunnerName slot; from_option lease_RunnerName "" lease])
    (if slot_RunnerID slot =? 0 then from_option lease_RunnerID 0 lease else slot_RunnerID slot)
    (if slot_RunnerScaleSetID slot =? 0 then from_option lease_RunnerScaleSetID 0 lease
     else slot_RunnerScaleSetID slot)
    (slot_State slot) (slot_CreatedAt slot).

Section pool.
Context (cfg : Config).

(** * Launching *)

(** One turn of the loop of [reserve]: the busiest host that still has room, on
    the pool's image before a stale one, the oldest first. *)
Definition pickBest (now : time) (p : Pool) (best : option (string * hostState))
    (x : string * hostState) : option (string * hostState) :=
  let h := x.2 in
  if negb (takesLeases cfg h now) || (freeCount h =? 0) then best
  else match best with
  | None => Some x
  | Some b =>
    let isStale := stale cfg p (info_Image (h_info h)) in
    let bestStale := stale cfg p (info_Image (h_info b.2)) in
    if (bestStale && negb isStale)
       || (Bool.eqb isStale bestStale
           && ((freeCount h <? freeCount b.2)
               || ((freeCount h =? freeCount b.2)
                   && Before (host_CreatedAt (h_host h)) (host_CreatedAt (h_host b.2)))))
    then Some x else best
  end.

Definition bestHost (now : time) (p : Pool) : option (string * hostState) :=
  fold_left (pickBest now p) (sortedHosts p) None.

Definition reserve (leaseID : string) (now : time) (p : Pool)
    : option (Host * Z * string) * Pool :=
  match bestHost now p with
  | None => (None, p)
  | Some (id, best) =>
    let slot := default 0 (freeSlot best) in
    (Some (h_host best, slot, info_Image (h_info best)),
     p |> set_hostState id (best |> set_reserved (<[slot := leaseID]> (h_reserved best))
                                 |> set_emptySince zeroTime)
       |> accrue now)
  end.

Definition release (hostID : string) (slot : Z) (now : time) (p : Pool) : Pool :=
  p |> with_host hostID (λ h, h |> set_reserved (delete slot (h_reserved h)))
    |> accrue now.

(** The slot [commit] records. *)
Definition committedSlot (slot : Z) (started : Slot) (lease : Lease) (now : time) : Slot :=
  mkSlot slot (ControllerID cfg) (lease_ID lease) (lease_RunnerName lease)
    (if slot_RunnerID started =? 0 then lease_RunnerID lease else slot_RunnerID started)
    (if slot_RunnerScaleSetID started =? 0 then lease_RunnerScaleSetID lease
     else slot_RunnerScaleSetID started)
    (if String.eqb (slot_State started) "" then "started" else slot_State started)
    (if IsZero (slot_CreatedAt started) then now else slot_CreatedAt started).

Definition commit (hostID : string) (slot : Z) (started : Slot) (lease : Lease) (now : time)
    (p : Pool) : Worker * Pool :=
  let started := committedSlot slot started lease now in
  let p := p |> with_host hostID (λ h,
             h |> set_reserved (delete slot (h_reserved h))
               |> set_slots (<[slot := started]> (h_slots h))
               |> set_lastContact now
               |> set_emptySince zeroTime
               |> set_hostHealth (set_slotFailures 0 (h_health h))) in
  let p := p |> set_launched (launched p + 1) |> accrue now in
  (slotWorker hostID slot started (Some lease),
   p |> set_poolHealth (count now false (p_health p))).

(** [now1], [now2], [now3], [now4]: the four readings of the clock. *)
Definition holdSuspect (hostID : string) (slot : Z) (lease : Lease) (reason : string)
    (now1 now2 now3 now4 : time) (p : Pool) : Pool :=
  p |> with_host hostID (λ h,
         h |> set_hostHealth (slotFailed now1 reason (h_health h))
           |> set_reserved (delete slot (h_reserved h))
           |> set_slots (<[slot := mkSlot slot (ControllerID cfg) (lease_ID lease)
                (lease_RunnerName lease) (lease_RunnerID lease) (lease_RunnerScaleSetID lease)
                "starting" now2]> (h_slots h))
           |> set_notBefore (Add now3 hostRefusalBackoff))
    |> accrue now4.

Definition markForeign (hostID : string) (slot : Z) (now1 now2 : time) (p : Pool) : Pool :=
  p |> with_host hostID (λ h,
         let h := match h_slots h !! slot with
                  | Some _ => h
                  | None => h |> set_slots (<[slot := mkSlot slot "" "" "" 0 0 "unknown" zeroTime]>
                                              (h_slots h))
                  end in
         trackForeign cfg now1 h)
    |> accrue now2.

Definition refuseHost (hostID reason : string) (now1 now2 : time) (p : Pool) : Pool :=
  p |> with_host hostID (λ h,
         let h := h |> set_notBefore (Add now1 hostRefusalBackoff) in
         if String.eqb reason CodeImageMismatch then
           if phase_eqb (h_phase h) phaseReady
           then h |> set_phase phaseDraining |> set_drainReason "image_mismatch"
                  |> set_hostHealth (set_drainedAt now1 (h_health h))
           else h
         else h |> set_hostHealth (slotFailed now1 reason (h_health h)))
    |> accrue now2.

Definition cleared (hostID : string) (slot : Z) (leaseID : string) (now1 now2 : time) (p : Pool)
    : Pool :=
  match p_hosts p !! hostID with
  | None => p
  | Some h =>
    let h := match h_slots h !! slot with
             | Some current =>
               if String.eqb (slot_LeaseID current) leaseID || String.eqb (slot_LeaseID current) ""
               then h |> set_slots (delete slot (h_slots h)) else h
             | None => h
             end in
    let h := if (occupied h =? 0) && (reservations h =? 0) && IsZero (emptySince h)
             then h |> set_emptySince now1 else h in
    p |> set_hostState hostID h |> accrue now2
  end.

Definition roomComing (now : time) (p : Pool) : bool :=
  hostOnItsWay p || bool_decide (is_Some (startable cfg now p))
  || (CanCreate (SourceFacts cfg) && (Z.of_nat (size (p_hosts p)) <? MaxHosts cfg)
      && negb (Before now (createNotBefore p))).

(** The answer of [noteFull], and the demand it records. *)
Definition noteFull (now : time) (p : Pool) : duration * Pool :=
  let p := p |> set_demand (demand p + 1) |> set_overflowed (overflowed p + 1)
             |> set_poolHealth (count now true (p_health p)) in
  (if roomComing now p then Tick cfg else 0, p).

(** * Following a tag *)

Definition followSection (now : time) (resolved : error + string) (p : Pool) : Pool :=
  match resolved with
  | inl _ =>
    let s := p_health p in
    p |> set_imageCheckAt (Add now imageRetry) |> set_imageError "could not resolve"
      |> set_poolHealth (if IsZero (imageFailingSince s) then set_imageFailingSince now s else s)
  | inr image =>
    let p := p |> set_imageCheckAt (Add now (ImageRefresh cfg)) |> set_imageCheckedAt now
               |> set_imageError "" |> set_poolHealth (set_imageFailingSince zeroTime (p_health p)) in
    if String.eqb image (p_image p) then p
    else p |> set_image image |> set_imageResolved true |> set_imageFailed false
  end.

(** The scan of [replaceStale]: stop, or the best candidate so far and whether a
    host on the current image is ready. *)
Definition replaceScan (p : Pool) (acc : option (option (string * hostState) * bool))
    (x : string * hostState) : option (option (string * hostState) * bool) :=
  match acc with
  | None => None
  | Some (candidate, current) =>
    let h := x.2 in
    match h_phase h with
    | phaseCreating | phaseStarting | phaseStopping | phaseDeleting => None
    | phaseBooting => if ownBoot h && negb (everReady h) then None else acc
    | phaseDraining => if String.eqb (drainReason h) "image_stale" then None else acc
    | phaseReady =>
      if negb (stale cfg p (info_Image (h_info h))) then Some (candidate, true)
      else
      let busy := occupied h + reservations h in
      match candidate with
      | None => Some (Some x, current)
      | Some (_, c) =>
        let candidateBusy := occupied c + reservations c in
        if (busy <? candidateBusy)
           || ((busy =? candidateBusy)
               && Before (host_CreatedAt (h_host h)) (host_CreatedAt (h_host c)))
        then Some (Some x, current) else acc
      end
    | phaseStopped => acc
    end
  end.

Definition replaceStale (now : time) (p : Pool) : Pool :=
  if negb (bool_decide (is_Some (Follow cfg))) then p
  else if negb (imageResolved p) || Before now (replaceNotBefore p) then p
  else match fold_left (replaceScan p) (sortedHosts p) (Some (None, false)) with
  | Some (Some (id, candidate), current) =>
    if imageFailed p && negb current then p
    else p |> set_hostState id (candidate |> set_phase phaseDraining |> set_drainReason "image_stale")
           |> accrue now
           |> set_replaceNotBefore (Add now replaceInterval)
           |> set_imageReplaced (imageReplaced p + 1)
  | _ => p
  end.
End pool.
