(* ===== verification/PoolMaintain.v ===== *)
(** Host pools, the critical sections of the maintenance loop
    (src/pool/compute.go): following the source's listing, probing, returning,
    stopping, starting and creating hosts.

    And what a pool reports (src/pool/conditions.go [conditions], the [Status] of
    src/pool/compute.go and the figures of src/pool/usage.go): of a condition the key and
    the time it began are kept; summaries and advice are texts for people. *)

From S2P Require Import GoText Prelude Float64 Provider GoStrings PoolState PoolSections.

#[local] Open Scope string_scope.
#[local] Open Scope Z_scope.

(** [host.ID == "" || strings.ContainsAny(host.ID, "/:")] *)
Definition invalidHostID (id : string) : bool :=
  String.eqb id "" || containsByte "/" id || containsByte ":" id.

(** A goroutine the pool spawns: [p.start(ctx, id)], [p.create(ctx, placeholder, image)]. *)
Inductive goroutine :=
  | goStart (id : string)
  | goCreate (placeholder image : string).

Record returnCandidate := mkReturnCandidate {
  rc_host : Host;
  rc_previous : phase;
  rc_reason : string;
  rc_stop : bool
}.

Section pool.
Context (cfg : Config).

(** * The source's listing *)

Definition markStopped (at_ : time) (h : hostState) : hostState :=
  (if IsZero (runningSince h) then h
   else h |> set_billed (f64_add (billed h) (billedHours cfg (runningSince h) at_)))
  |> set_phase phaseStopped
  |> set_runningSince zeroTime
  |> set_stoppedSince at_
  |> set_slots ∅
  |> set_lastListed zeroTime
  |> set_emptySince zeroTime
  |> set_startedByPool false.

(** [p.reconcile(h, now)], on the pool's health and the host. *)
Definition reconcile (now : time) (s : poolHealth) (h : hostState) : poolHealth * hostState :=
  if negb (stopper cfg) then (s, h)
  else
  let stopped := String.eqb (host_State (h_host h)) HostStopped in
  match stopped, h_phase h with
  | true, (phaseBooting | phaseReady | phaseDraining) =>
    let '(s, h) :=
      if startedByPool h
      then (healthLaunchFailed now "stopped_while_starting" s,
            h |> set_startFailures (startFailures h + 1)
              |> set_notBefore (Add now hostRefusalBackoff))
      else (s, h) in
    (s, markStopped (earliest (StateSince (h_host h)) now) h)
  | false, phaseStopped =>
    (s, h |> set_phase phaseBooting |> set_bootSince now |> set_ownBoot false
          |> set_everReady false |> set_lastContact zeroTime
          |> set_runningSince (firstNonZero [StateSince (h_host h); now])
          |> set_stoppedSince zeroTime)
  | _, _ => (s, h)
  end.

(** A host the pool has not seen before. *)
Definition foundHost (now : time) (host : Host) : hostState :=
  let h := newHostState host phaseBooting now
           |> set_ownBoot (negb (IsZero (host_CreatedAt host))
                           && (Sub now (host_CreatedAt host) <? BootTimeout cfg)) in
  if stopper cfg && String.eqb (host_State host) HostStopped
  then h |> set_phase phaseStopped |> set_stoppedSince (earliest (StateSince host) now)
  else
  let since := firstNonZero [StateSince host; host_CreatedAt host; now] in
  h |> set_runningSince since |> set_billedBefore (billedHours cfg since now).

(** One listed host. *)
Definition listHost (started now : time) (p : Pool) (host : Host) : Pool :=
  if invalidHostID (host_ID host) then p
  else match p_hosts p !! host_ID host with
  | Some existing =>
    let existing := existing |> set_host host in
    if After (changedAt existing) started then p |> set_hostState (host_ID host) existing
    else
    let '(s, existing) := reconcile now (p_health p) existing in
    p |> set_hostState (host_ID host) existing |> set_poolHealth s
  | None => p |> set_hostState (host_ID host) (foundHost now host)
  end.

(** One known host that the listing may miss. *)
Definition dropUnlisted (started now : time) (seen : list string) (p : Pool) (id : string) : Pool :=
  match p_hosts p !! id with
  | Some h =>
    if bool_decide (id ∈ seen) || phase_eqb (h_phase h) phaseCreating || After (firstSeen h) started
    then p else forget id now p
  | None => p
  end.

(** The section of [refreshHosts] after a listing that began at [started].  The
    order in which hosts are dropped, unspecified in the source, is by name. *)
Definition listed (started now : time) (hosts : list Host) (p : Pool) : Pool :=
  let p := p |> set_poolHealth (set_sourceFailingSince zeroTime (p_health p)) in
  let seen := map host_ID (keep (λ h, negb (invalidHostID (host_ID h))) hosts) in
  let p := fold_left (listHost started now) hosts p in
  let p := fold_left (dropUnlisted started now seen) (sortedIDs p) p in
  p |> accrue now |> set_hostsListedAt now |> set_hostsKnown true.

(** The section after a failed listing. *)
Definition listFailed (now : time) (p : Pool) : Pool :=
  let s := p_health p in
  if IsZero (sourceFailingSince s) then p |> set_poolHealth (set_sourceFailingSince now s) else p.

(** * Probing and listing slots *)

(** One probed host, and whether it became ready. *)
Definition probed (now : time) (acc : bool * Pool) (x : Host * (error + HostInfo)) : bool * Pool :=
  let '(ready, p) := acc in
  let '(host, answer) := x in
  match p_hosts p !! host_ID host, answer with
  | Some h, inr info =>
    if negb (phase_eqb (h_phase h) phaseBooting) then acc
    else
    let h := h |> set_lastContact now |> set_info info in
    let p := p |> set_slotsSeen (Z.max (slotsSeen p) (info_Slots info)) in
    if negb (accepts cfg p (info_Image info)) then
      (ready,
       p |> set_hostState (host_ID host)
              (h |> set_phase phaseDraining |> set_drainReason "image_mismatch"
                 |> set_hostHealth (set_drainedAt now (h_health h)))
         |> set_poolHealth
              (if String.eqb (createdImage h) "" then p_health p
               else bootFailed now "host created for this pool runs another runner image" (p_health p)))
    else if info_Ready info && (0 <? info_Slots info) then
      (true,
       p |> set_hostState (host_ID host)
              (h |> set_phase phaseReady |> set_everReady true |> set_startedByPool false
                 |> set_startFailures 0 |> set_hostHealth (set_slotFailures 0 (h_health h)))
         |> set_poolHealth (hostReady (p_health p)))
    else (ready, p |> set_hostState (host_ID host) h)
  | _, _ => acc
  end.

Definition probeSection (now : time) (answers : list (Host * (error + HostInfo))) (p : Pool)
    : bool * Pool :=
  let '(ready, p) := fold_left (probed now) answers (false, p) in (ready, accrue now p).

(** [for _, slot := range results { slots[slot.Index] = slot }] *)
Definition slotMap (slots : list Slot) : gmap Z Slot :=
  fold_left (λ m slot, <[slot_Index slot := slot]> m) slots ∅.

Definition slotsListed (now : time) (p : Pool) (x : Host * (error + list Slot)) : Pool :=
  let '(host, answer) := x in
  match p_hosts p !! host_ID host, answer with
  | Some h, inr slots =>
    let h := h |> set_slots (slotMap slots) |> set_lastContact now |> set_lastListed now in
    let h := trackForeign cfg now h in
    let h := if (occupied h =? 0) && (reservations h =? 0)
             then if IsZero (emptySince h) then h |> set_emptySince now else h
             else h |> set_emptySince zeroTime in
    p |> set_hostState (host_ID host) h
  | _, _ => p
  end.

Definition listSection (now : time) (answers : list (Host * (error + list Slot))) (p : Pool) : Pool :=
  accrue now (fold_left (slotsListed now) answers p).

(** * Returning hosts *)

Definition createdBefore (a b : hostState) : Prop :=
  host_CreatedAt (h_host a) < host_CreatedAt (h_host b)
  ∨ host_CreatedAt (h_host a) = host_CreatedAt (h_host b)
    ∧ str_le (host_ID (h_host a)) (host_ID (h_host b)).

#[global] Instance createdBefore_dec : RelDecision createdBefore.
Proof. intros a b. unfold createdBefore. apply _. Defined.

(** The [min_hosts] oldest ready hosts, which are kept warm. *)
Definition baseHosts (p : Pool) : list string :=
  map (λ h, host_ID (h_host h)) (take (Z.to_nat (MinHosts cfg))
    (merge_sort createdBefore
       (keep (λ h, phase_eqb (h_phase h) phaseReady) (map snd (map_to_list (p_hosts p)))))).

(** Why a host is returned now, and whether it is stopped instead of deleted. *)
Definition returnReason (now : time) (base : list string) (p : Pool) (id : string) (h : hostState)
    : option (string * bool) :=
  let bootStart := firstNonZero [bootSince h; host_CreatedAt (h_host h)] in
  let billing := Billing (SourceFacts cfg) in
  if phase_eqb (h_phase h) phaseBooting && ownBoot h && negb (everReady h)
     && negb (IsZero bootStart) && (BootTimeout cfg <? Sub now bootStart)
  then Some ("boot_timeout", false)
  else if (phase_eqb (h_phase h) phaseReady || phase_eqb (h_phase h) phaseDraining
           || phase_eqb (h_phase h) phaseBooting)
          && (wrap64 (MaxLifetime cfg + UnreachableGrace cfg)
              <? Sub now (latest [lastContact h; firstSeen h; bootSince h]))
  then Some ("unreachable", false)
  else if negb (phase_eqb (h_phase h) phaseReady) && negb (phase_eqb (h_phase h) phaseDraining)
  then None
  else if (0 <? occupied h) || (0 <? reservations h) || IsZero (lastListed h)
          || (wrap64 (3 * Tick cfg) <? Sub now (lastListed h))
  then None
  else if phase_eqb (h_phase h) phaseDraining
  then if String.eqb (drainReason h) "" then None else Some (drainReason h, false)
  else if bool_decide (id ∈ base) || String.eqb billing BillingOwned then None
  else if String.eqb billing BillingPerStartedHour
  then if remainingPaid (Sub now (host_CreatedAt (h_host h))) <=? HourMargin cfg
       then Some ("paid_hour_ending", false) else None
  else if String.eqb billing BillingPerSecond
  then let idle := if stopper cfg then IdleStop cfg else IdleReturn cfg in
       if negb (IsZero (emptySince h)) && (idle <=? Sub now (emptySince h))
       then if stopper cfg && stale cfg p (info_Image (h_info h)) then Some ("image_stale", false)
            else Some ("idle", stopper cfg)
       else None
  else None.

(** One turn of the loop of [returnCandidates]. *)
Definition considerReturn (now : time) (base : list string)
    (acc : list returnCandidate * Pool) (id : string) : list returnCandidate * Pool :=
  let '(candidates, p) := acc in
  match p_hosts p !! id with
  | None => acc
  | Some h =>
    match returnReason now base p id h with
    | None => acc
    | Some (reason, stop) =>
      let p := if String.eqb reason "boot_timeout"
                  && phase_eqb (h_phase h) phaseBooting
               then p |> set_imageFailed (imageFailed p
                           || (negb (String.eqb (createdImage h) "")
                               && String.eqb (createdImage h) (p_image p)))
                      |> set_poolHealth (bootFailed now "host did not become ready" (p_health p))
               else p in
      (app candidates [mkReturnCandidate (h_host h) (h_phase h) reason stop],
       p |> set_hostState id (h |> set_phase (if stop then phaseStopping else phaseDeleting)))
    end
  end.

Definition stoppedLater (a b : string * hostState) : Prop :=
  stoppedSince b.2 < stoppedSince a.2
  ∨ stoppedSince a.2 = stoppedSince b.2 ∧ str_le (host_ID (h_host a.2)) (host_ID (h_host b.2)).

#[global] Instance stoppedLater_dec : RelDecision stoppedLater.
Proof. intros a b. unfold stoppedLater. apply _. Defined.

(** One turn of the loop of [stoppedCandidates]; the number is [kept]. *)
Definition considerStopped (now : time) (acc : Z * list returnCandidate * Pool)
    (x : string * hostState) : Z * list returnCandidate * Pool :=
  let '(kept, candidates, p) := acc in
  let '(id, h) := x in
  let delete_ reason :=
    (kept, app candidates [mkReturnCandidate (h_host h) phaseStopped reason false],
     p |> set_hostState id (h |> set_phase phaseDeleting)) in
  let reason := unusable cfg p h in
  if negb (String.eqb reason "") then delete_ reason
  else if kept <? KeepStopped cfg then (kept + 1, candidates, p)
  else if DeleteStoppedAfter cfg <=? Sub now (stoppedSince h) then delete_ "stopped_expired"
  else acc.

Definition stoppedCandidates (now : time) (p : Pool) : list returnCandidate * Pool :=
  let stopped := merge_sort stoppedLater
                   (keep (λ x, phase_eqb (h_phase x.2) phaseStopped) (map_to_list (p_hosts p))) in
  let '(_, candidates, p) := fold_left (considerStopped now) stopped (0, [], p) in
  (candidates, p).

Definition returnCandidates (now : time) (p : Pool) : list returnCandidate * Pool :=
  let '(candidates, p) := fold_left (considerReturn now (baseHosts p)) (sortedIDs p) ([], p) in
  let '(more, p) := stoppedCandidates now p in
  (app candidates more, accrue now p).

Definition restorePhase (hostID : string) (previous : phase) (now : time) (p : Pool) : Pool :=
  p |> with_host hostID (λ h,
         match h_phase h with
         | phaseDeleting | phaseStopping => h |> set_phase previous
         | _ => h
         end)
    |> accrue now.

(** The section after a successful [Delete]. *)
Definition returned (id : string) (now : time) (p : Pool) : Pool :=
  let p := match p_hosts p !! id with
           | Some h => p |> set_returnedHours (f64_add (returnedHours p) (hostBilled cfg h now))
                         |> set_retiredBefore (f64_add (retiredBefore p) (billedBefore h))
                         |> forget id now
           | None => p
           end in
  p |> set_returnedHosts (returnedHosts p + 1).

(** The section after a successful [Stop]. *)
Definition stopped (id : string) (now : time) (p : Pool) : Pool :=
  let p := p |> with_host id (λ h, markStopped now h |> set_changedAt now) |> accrue now in
  p |> set_hostStops (hostStops p + 1).

(** * Growing *)

Definition countPhases (p : Pool) : Z * Z :=
  fold_left (λ acc x, let '(active, pending) := acc in
    match h_phase x.2 with
    | phaseCreating | phaseStarting => (active + 1, pending + 1)
    | phaseBooting => (active + 1, if everReady x.2 then pending else pending + 1)
    | phaseReady => (active + 1, pending)
    | _ => acc
    end) (map_to_list (p_hosts p)) (0, 0).

(** The loop that starts stopped hosts: the goroutines and what is still wanted. *)
Fixpoint startStopped (now : time) (want : nat) (gos : list goroutine) (p : Pool)
    : nat * list goroutine * Pool :=
  match want with
  | O => (O, gos, p)
  | S rest =>
    match startable cfg now p with
    | None => (want, gos, p)
    | Some (id, h) =>
      startStopped now rest (app gos [goStart (host_ID (h_host h))])
        (p |> set_hostState id (h |> set_phase phaseStarting |> set_changedAt now))
    end
  end.

(** The loop that creates hosts, each with a placeholder until it exists. *)
Fixpoint createHosts (now : time) (want : nat) (gos : list goroutine) (p : Pool)
    : list goroutine * Pool :=
  match want with
  | O => (gos, p)
  | S want =>
    let p := p |> set_createSeq (createSeq p + 1) in
    let placeholder := "creating-" +:+ Itoa (createSeq p) in
    createHosts now want (app gos [goCreate placeholder (p_image p)])
      (p |> set_hostState placeholder (newHostState noHost phaseCreating now))
  end.

Definition grow (now : time) (p : Pool) : list goroutine * Pool :=
  let '(active, pending) := countPhases p in
  let want := Z.max 0 (MinHosts cfg - active) in
  let want := if (want =? 0) && (0 <? demand p) && (pending =? 0) then 1 else want in
  let p := p |> set_demand 0 in
  let '(want, gos, p) := startStopped now (Z.to_nat want) [] p in
  let want := Z.min (Z.of_nat want) (Z.max 0 (MaxHosts cfg - Z.of_nat (size (p_hosts p)))) in
  let want := if Before now (createNotBefore p) then 0 else want in
  createHosts now (Z.to_nat want) gos p.

(** [launchFailureReason] *)
Definition launchFailureReason (e : error) : string :=
  if IsCapacity e then CapacityReason e else "provider_error".

(** The section of [p.start] after the source answered. *)
Definition startSection (id : string) (err : option error) (now : time) (p : Pool) : Pool :=
  match p_hosts p !! id with
  | None => p
  | Some h =>
    let h := h |> set_changedAt now in
    match err with
    | Some e =>
      p |> set_hostState id
             (h |> set_phase phaseStopped
                |> set_startFailures (if IsCapacity e then maxStartFailures else startFailures h + 1)
                |> set_notBefore (Add now hostRefusalBackoff))
        |> set_poolHealth (healthLaunchFailed now (launchFailureReason e) (p_health p))
        |> set_demand (demand p + 1)
        |> accrue now
    | None =>
      p |> set_hostState id
             (h |> set_phase phaseBooting |> set_bootSince now |> set_runningSince now
                |> set_ownBoot true |> set_everReady false |> set_startedByPool true
                |> set_lastContact zeroTime |> set_stoppedSince zeroTime |> set_notBefore zeroTime)
        |> set_hostStarts (hostStarts p + 1)
        |> set_hostsListedAt zeroTime
        |> accrue now
    end
  end.

(** The section of [p.create] after the source answered. *)
Definition createSection (placeholder image : string) (answer : error + Host) (now : time)
    (p : Pool) : Pool :=
  let p := forget placeholder now p in
  match answer with
  | inl e =>
    let p := if Before now (createNotBefore p) then p
             else let backoff := Z.min (Z.max (createBackoff p * 2) initialCreateBackoff)
                                       maximumCreateBackoff in
                  p |> set_createBackoff backoff |> set_createNotBefore (Add now backoff)
                    |> set_poolHealth (healthLaunchFailed now (launchFailureReason e) (p_health p)) in
    p |> set_imageFailed (imageFailed p || String.eqb image (p_image p)) |> accrue now
  | inr host =>
    let p := p |> set_createBackoff 0 |> set_poolHealth (launchSucceeded (p_health p)) in
    if invalidHostID (host_ID host) then accrue now p
    else match p_hosts p !! host_ID host with
    | Some existing =>
      p |> set_hostState (host_ID host)
             (existing |> set_host host |> set_ownBoot true |> set_createdImage image)
        |> accrue now
    | None =>
      p |> set_hostState (host_ID host)
             (newHostState host phaseBooting now |> set_ownBoot true |> set_createdImage image
                |> set_runningSince (firstNonZero [host_CreatedAt host; now]))
        |> accrue now
    end
  end.
End pool.

(** * What a pool reports *)

#[local] Open Scope string_scope.
#[local] Open Scope Z_scope.

(** [provider.Condition] *)
Record Condition := mkCondition { Key : string; Since : time }.

Definition sourceUnavailableAfter : duration := 5 * Minute.
Definition imageUnresolvedAfter : duration := 15 * Minute.
Definition launchFailuresReported : Z := 3.
Definition slotFailuresReported : Z := 3.
Definition foreignSlotAfter : duration := 5 * Minute.

(** [Usage], [HostStatus] and [Status] *)
Record Usage := mkUsageReport {
  RunningSeconds : Z; ReadySeconds : Z; SlotSeconds : Z; BusySlotSeconds : Z;
  Occupancy : f64; ReadyOccupancy : f64
}.

Record HostStatus := mkHostStatus {
  hs_ID : string; hs_Phase : phase; hs_Slots : Z; hs_Busy : Z; hs_Reachable : bool;
  hs_CreatedAt : time; hs_StoppedAt : time; hs_Image : string; hs_Stale : bool; hs_Usage : Usage
}.

Record Status := mkStatus {
  SlotsTotal : Z; SlotsBusy : Z; BilledHours : f64; Cost : f64; Hosts : list HostStatus;
  st_Usage : Usage; MeasuredCost : f64; Conditions_ : list Condition
}.

(** [ratio], [priceHours], [ephemeralEquivalent] *)
Definition ratio (part whole : f64) : f64 :=
  if f64_le whole f64_zero then f64_zero
  else f64_div (f64_round (f64_mul (f64_div part whole) (f64_of_int 1000))) (f64_of_int 1000).

Definition priceHours (hours hourlyPrice : f64) : f64 :=
  f64_div (f64_round (f64_mul (f64_mul hours hourlyPrice) (f64_of_int 100))) (f64_of_int 100).

Definition ephemeralCost (busySlotSeconds : Z) (hourlyPrice : f64) : f64 :=
  priceHours (f64_div (f64_of_int busySlotSeconds) (f64_of_int 3600)) hourlyPrice.

Definition report (u : usage) : Usage :=
  mkUsageReport (Z.quot (u_running u) Second) (Z.quot (u_ready u) Second)
    (f64_trunc (u_slot u)) (f64_trunc (u_busy u))
    (ratio (u_busy u) (u_slot u)) (ratio (u_readyBusy u) (u_readySlot u)).

Section pool.
Context (cfg : Config).

Definition conditionKey (kind host : string) : string :=
  "pool/" +:+ Name cfg +:+ "/" +:+ kind
  +:+ (if String.eqb host "" then "" else "/" +:+ host).

(** The conditions of the pool as a whole. *)
Definition poolConditions (now : time) (s : poolHealth) : list Condition :=
  let when_ (b : bool) kind since := if b then [mkCondition (conditionKey kind "") since] else [] in
  app (when_ (negb (IsZero (sourceFailingSince s))
              && (sourceUnavailableAfter <=? Sub now (sourceFailingSince s)))
         "host_source_unavailable" (sourceFailingSince s))
  (app (when_ (negb (IsZero (imageFailingSince s))
               && (imageUnresolvedAfter <=? Sub now (imageFailingSince s)))
          "image_tag_unresolved" (imageFailingSince s))
  (app (when_ (launchFailuresReported <=? launchFailures s)
          "host_launch_failing" (launchFailingSince s))
  (app (when_ (negb (IsZero (bootFailingSince s))) "host_boot_failed" (bootFailingSince s))
       (when_ (negb (IsZero (overflowingSince s))) "pool_overflowing" (overflowingSince s))))).

(** The condition of a host, by the first case that applies. *)
Definition hostCondition (now : time) (id : string) (h : hostState) : list Condition :=
  let s := h_health h in
  if (phase_eqb (h_phase h) phaseReady || phase_eqb (h_phase h) phaseDraining)
     && negb (IsZero (lastContact h)) && (UnreachableGrace cfg <? Sub now (lastContact h))
  then [mkCondition (conditionKey "host_unreachable" id) (lastContact h)]
  else if phase_eqb (h_phase h) phaseBooting && negb (ownBoot h)
          && (BootTimeout cfg <? Sub now (latest [firstSeen h; bootSince h]))
  then [mkCondition (conditionKey "host_not_serving" id) (latest [firstSeen h; bootSince h])]
  else if phase_eqb (h_phase h) phaseDraining && negb (CanCreate (SourceFacts cfg))
          && negb (IsZero (drainedAt s)) && (BootTimeout cfg <? Sub now (drainedAt s))
  then [mkCondition (conditionKey "host_not_serving" id) (drainedAt s)]
  else if phase_eqb (h_phase h) phaseReady && (slotFailuresReported <=? slotFailures s)
  then [mkCondition (conditionKey "host_refusing" id) (slotFailingSince s)]
  else [].

(** The condition of a slot that holds another controller's container. *)
Definition foreignCondition (now : time) (id : string) (h : hostState) : list Condition :=
  let since := foreignSince (h_health h) in
  if negb (IsZero since) && foreign cfg h && (foreignSlotAfter <=? Sub now since)
  then [mkCondition (conditionKey "foreign_slot" id) since] else [].

Definition conditions (now : time) (p : Pool) : list Condition :=
  app (poolConditions now (p_health p))
      (concat (map (λ x, app (hostCondition now x.1 x.2) (foreignCondition now x.1 x.2)) (sortedHosts p))).

Definition hostImage (h : hostState) : string :=
  if running h then firstNonEmpty [info_Image (h_info h); host_Image (h_host h)]
  else firstNonEmpty [host_Image (h_host h); info_Image (h_info h)].

Definition hostStatus (now : time) (p : Pool) (id : string) (h : hostState) : HostStatus :=
  let image := hostImage h in
  mkHostStatus id (h_phase h) (info_Slots (h_info h)) (occupied h + reservations h)
    (running h && negb (IsZero (lastContact h)) && (Sub now (lastContact h) <=? UnreachableGrace cfg))
    (host_CreatedAt (h_host h)) (stoppedSince h) image
    (negb (String.eqb image "") && accepts cfg p image && stale cfg p image)
    (report (usageOf p h)).

(** One host's share of the totals: slots, busy slots, billed hours, the hours
    before this process, and usage. *)
Definition addHost (now : time) (p : Pool) (acc : Z * Z * f64 * f64 * usage) (h : hostState)
    : Z * Z * f64 * f64 * usage :=
  let '(total, busy, hours, before_, used) := acc in
  let inUse := occupied h + reservations h in
  let '(total, busy) := if phase_eqb (h_phase h) phaseReady
    then (total + info_Slots (h_info h), busy + Z.min inUse (info_Slots (h_info h)))
    else (total, busy) in
  (total, busy, f64_add hours (hostBilled cfg h now), f64_add before_ (billedBefore h),
   usage_add used (usageOf p h)).

(** [p.Status()], the figures that are computed. *)
Definition status (now : time) (p : Pool) : Status * Pool :=
  let p := accrue now p in
  let '(total, busy, hours, before_, used) :=
    fold_left (addHost now p) (map snd (sortedHosts p))
      (0, 0, returnedHours p, retiredBefore p, retired p) in
  let price := HourlyPrice (SourceFacts cfg) in
  (mkStatus total busy hours (priceHours hours price)
     (map (λ x, hostStatus now p x.1 x.2) (sortedHosts p)) (report used)
     (priceHours (f64_max f64_zero (f64_sub hours before_)) price) (conditions now p), p).

(** * What the reports promise *)

Lemma addHost_slots now p l acc :
  let r := fold_left (addHost now p) l acc in
  acc.1.1.1.2 <= acc.1.1.1.1 → r.1.1.1.2 <= r.1.1.1.1.
Proof.
  revert acc. induction l as [|h l IH]; intros [[[[total busy] hours] before_] used]; simpl; [done |].
  intros H. apply IH. destruct (phase_eqb _ _); simpl; lia.
Qed.

(** The pool never reports more busy slots than slots. *)
Lemma status_slots now p : SlotsBusy (status now p).1 <= SlotsTotal (status now p).1.
Proof.
  unfold status. pose proof (addHost_slots now (accrue now p) (map snd (sortedHosts (accrue now p)))
    (0, 0, returnedHours (accrue now p), retiredBefore (accrue now p), retired (accrue now p))) as H.
  simpl in H. destruct (fold_left _ _ _) as [[[[total busy] hours] before_] used]. simpl in *. lia.
Qed.
End pool.
