(* ===== verification/Pool.v ===== *)
(** Host pools, the programs (src/pool/compute.go): [Launch], [Inventory],
    [Destroy] and one pass of the maintenance loop, over the critical sections of
    [PoolSections] and [PoolMaintain].

    The host source, the host agent, the follower and the clocks are the class
    [PoolEnv]: any functions of a world that changes with every call.  Every
    call to the source or the agent is one action and leaves an entry in the
    trace, with the pool's state at the time of the call.  Agent calls the
    source makes in parallel are made in the order of the hosts: what any of
    them answers is free.  Goroutines the pool spawns are collected in
    [spawned]; [PoolSystem] runs them concurrently with everything else. *)

From S2P Require Import Prelude Program Float64 Provider GoStrings GoText PoolState PoolSections.
From S2P Require Import PoolMaintain.

#[local] Open Scope string_scope.
#[local] Open Scope Z_scope.

Class PoolEnv (W : Type) := mkPoolEnv {
  (* Config.Now and time.Now *)
  pe_Now : W → time * W;
  pe_wallNow : W → time * W;
  (* ctx.Err() != nil, and waiting for time.After or ctx.Done *)
  pe_Done : W → bool * W;
  pe_After : duration → W → W;
  (* Source *)
  pe_List : W → (error + list Host) * W;
  pe_Create : string → W → (error + Host) * W;
  pe_Delete : string → W → option error * W;
  (* Stopper *)
  pe_Stop : string → W → option error * W;
  pe_Start : string → W → option error * W;
  (* Follower *)
  pe_Resolve : W → (error + string) * W;
  (* Agent *)
  pe_Info : Host → W → (error + HostInfo) * W;
  pe_Slots : Host → W → (error + list Slot) * W;
  pe_StartSlot : Host → Z → StartRequest → W → (error + Slot) * W;
  pe_Remove : Host → Z → string → W → option error * W
}.

(** The calls to the source and the agent. *)
Inductive call :=
  | CStartSlot (host : Host) (slot : Z) (leaseID : string) (answer : error + Slot)
  | CSlots (host : Host) (answer : error + list Slot)
  | CRemove (host : Host) (slot : Z) (leaseID : string) (answer : option error)
  | CCreate (image : string) (answer : error + Host)
  | CDelete (candidate : returnCandidate) (answer : option error)
  | CStop (candidate : returnCandidate) (answer : option error)
  | CStartHost (id : string) (answer : option error)
  (* the candidates a pass selected, in the state it selected them *)
  | CSelect (now : time) (candidates : list returnCandidate)
  (* the read-back of a late start gave up counting *)
  | CStuck.

Record poolSys (W : Type) := mkPoolSys {
  pool : Pool;
  pworld : W;
  ptrace : list (call * Pool);
  spawned : list goroutine
}.
Arguments mkPoolSys {W} _ _ _ _.
Arguments pool {W} _.
Arguments pworld {W} _.
Arguments ptrace {W} _.
Arguments spawned {W} _.

Section pool.
Context {W : Type} {E : PoolEnv W} (cfg : Config).

Abbreviation P := (prog (poolSys W)).

(** * Actions *)

Definition set_pool (p : Pool) (s : poolSys W) : poolSys W :=
  mkPoolSys p (pworld s) (ptrace s) (spawned s).
Definition set_pworld (w : W) (s : poolSys W) : poolSys W :=
  mkPoolSys (pool s) w (ptrace s) (spawned s).
Definition logCall (c : call) (s : poolSys W) : poolSys W :=
  mkPoolSys (pool s) (pworld s) ((c, pool s) :: ptrace s) (spawned s).
Definition spawn (gos : list goroutine) (s : poolSys W) : poolSys W :=
  mkPoolSys (pool s) (pworld s) (ptrace s) (app (spawned s) gos).

(** A call to the outside that leaves no trace entry, and one that does. *)
Definition outside {A} (f : W → A * W) : P A :=
  act (λ s, let '(a, w) := f (pworld s) in (a, set_pworld w s)).
Definition calling {A} (f : W → A * W) (entry : A → call) : P A :=
  act (λ s, let '(a, w) := f (pworld s) in (a, logCall (entry a) (set_pworld w s))).

(** A critical section that reads the clock once, or [n] times. *)
Definition locked {A} (f : time → Pool → A * Pool) : P A :=
  act (λ s, let '(t, w) := pe_Now (pworld s) in
            let '(a, p) := f t (pool s) in (a, set_pool p (set_pworld w s))).
Definition locked2 (f : time → time → Pool → Pool) : P () :=
  act (λ s, let '(t1, w) := pe_Now (pworld s) in
            let '(t2, w) := pe_Now w in
            ((), set_pool (f t1 t2 (pool s)) (set_pworld w s))).
Definition locked4 (f : time → time → time → time → Pool → Pool) : P () :=
  act (λ s, let '(t1, w) := pe_Now (pworld s) in
            let '(t2, w) := pe_Now w in
            let '(t3, w) := pe_Now w in
            let '(t4, w) := pe_Now w in
            ((), set_pool (f t1 t2 t3 t4 (pool s)) (set_pworld w s))).
Definition section_ (f : time → Pool → Pool) : P () := locked (λ t p, ((), f t p)).
Definition view {A} (f : Pool → A) : P A := get (λ s, f (pool s)).

Definition now : P time := outside pe_Now.

(** * Launching *)

Definition startRequest (lease : Lease) (image : string) : StartRequest :=
  mkStartRequest image (ControllerID cfg) (lease_ID lease) (lease_RunnerName lease)
    (lease_RunnerID lease) (lease_RunnerScaleSetID lease) (JITConfig lease) (Deadline lease)
    (Z.quot (IdleTimeout lease) Second).

Definition StartSlot (host : Host) (slot : Z) (request : StartRequest) : P (error + Slot) :=
  calling (pe_StartSlot host slot request) (CStartSlot host slot (sr_LeaseID request)).
Definition ListSlots (host : Host) : P (error + list Slot) := calling (pe_Slots host) (CSlots host).

(** What one listing tells about a late start: the slot, that it is not the
    start, or nothing yet. *)
Inductive lateStart := LateFound (slot : Slot) | LateOther | LateUnknown.

Fixpoint findLate (slot : Z) (lease : Lease) (slots : list Slot) : lateStart :=
  match slots with
  | [] => LateUnknown
  | s :: slots =>
    if negb (slot_Index s =? slot) then findLate slot lease slots
    else if negb (String.eqb (slot_ControllerID s) (ControllerID cfg))
            || negb (String.eqb (slot_LeaseID s) (lease_ID lease))
            || negb (String.eqb (slot_RunnerName s) (lease_RunnerName lease)) then LateOther
    else if String.eqb (slot_State s) "started" then LateFound s
    else if String.eqb (slot_State s) "starting" then findLate slot lease slots
    else LateOther
  end.

Fixpoint readLateLoop (fuel : nat) (host : Host) (slot : Z) (lease : Lease) (answered : bool)
    (deadline : time) : P (option Slot) :=
  match fuel with
  | O => act (λ s, (None, logCall CStuck s))
  | S fuel =>
    cancelled ← outside pe_Done;
    if cancelled : bool then mret None
    else
    answer ← ListSlots host;
    match (match answer with inr slots => findLate slot lease slots | inl _ => LateUnknown end) with
    | LateFound s => mret (Some s)
    | LateOther => mret None
    | LateUnknown =>
      t ← outside pe_wallNow;
      if answered || negb (Before (Add t lateStartPoll) deadline) then mret None
      else
      _ ← outside (λ w, ((), pe_After lateStartPoll w));
      readLateLoop fuel host slot lease answered deadline
    end
  end.

(** The wait divided into polls, and one turn more. *)
Definition lateStartTurns : nat := S (Z.to_nat (lateStartWait / lateStartPoll)).

Definition readLateStart (host : Host) (slot : Z) (lease : Lease) (startErr : error)
    : P (option Slot) :=
  let answered := bool_decide (is_Some (errors_as as_agent startErr)) in
  t ← outside pe_wallNow;
  readLateLoop lateStartTurns host slot lease answered (Add t lateStartWait).

Definition full (retryAfter : duration) : error :=
  CapacityError CapacityReasonFull retryAfter (WrapError "pool" (Sentinel ErrFull)).

(** After the attempts, or with no slot left. *)
Definition refuseFull (growing : bool) : P (error + Worker) :=
  if negb growing then mret (inl (full 0))
  else retryAfter ← locked (noteFull cfg); mret (inl (full retryAfter)).

Definition releaseSlot (hostID : string) (slot : Z) : P () := section_ (release hostID slot).

Definition refuse (hostID reason : string) : P () := locked2 (refuseHost hostID reason).

(** What is done with the error of a start: try again, or return. *)
Definition startFailed (lease : Lease) (host : Host) (slot : Z) (err : error)
    : P (option (error + Worker)) :=
  if errors_is ErrUnreachable err then
    releaseSlot (host_ID host) slot;; refuse (host_ID host) "unreachable";; mret None
  else if IsAgentRefusal err CodeSlotBusy then
    releaseSlot (host_ID host) slot;;
    locked2 (markForeign cfg (host_ID host) slot);; mret None
  else if IsAgentRefusal err CodeNotReady || IsAgentRefusal err CodeImageMismatch
          || IsAgentRefusal err CodeDiskFull then
    releaseSlot (host_ID host) slot;; refuse (host_ID host) (refusalCode err);; mret None
  else if IsAgentRefusal err CodeInvalid then
    releaseSlot (host_ID host) slot;;
    mret (Some (inl (WrapError "pool host rejected the lease" err)))
  else
  late ← readLateStart host slot lease err;
  match late with
  | Some late => worker ← locked (commit cfg (host_ID host) slot late lease); mret (Some (inr worker))
  | None =>
    t ← now;
    let worker := slotWorker (host_ID host) slot
                    (mkSlot slot (ControllerID cfg) "" "" 0 0 "starting" t) (Some lease) in
    locked4 (holdSuspect cfg (host_ID host) slot lease
               (firstNonEmpty [refusalCode err; "start_unconfirmed"]));;
    mret (Some (inl (PartialLaunchError worker (WrapError "start slot" err))))
  end.

Fixpoint attempts (n : nat) (lease : Lease) (growing : bool) : P (error + Worker) :=
  match n with
  | O => refuseFull growing
  | S n =>
    r ← locked (reserve cfg (lease_ID lease));
    match r with
    | None => refuseFull growing
    | Some (host, slot, image) =>
      answer ← StartSlot host slot (startRequest lease image);
      match answer with
      | inr started => worker ← locked (commit cfg (host_ID host) slot started lease); mret (inr worker)
      | inl err =>
        r ← startFailed lease host slot err;
        match r with Some result => mret result | None => attempts n lease growing end
      end
    end
  end.

Definition launch (lease : Lease) (growing : bool) : P (error + Worker) :=
  if String.eqb (lease_ID lease) "" || String.eqb (lease_RunnerName lease) ""
     || String.eqb (JITConfig lease) "" || containsByte "/" (lease_ID lease) then
    mret (inl (ErrorString "pool launch requires a lease ID, a runner name, and a JIT configuration"))
  else attempts maxStartAttempts lease growing.

Definition Launch (lease : Lease) : P (error + Worker) := launch lease true.

Definition launchSpare (lease : Lease) : P (error + Worker) :=
  r ← launch lease false;
  (match r with
   | inr _ => update (λ s, set_pool (pool s |> set_speculated (speculated (pool s) + 1)) s)
   | inl _ => mret ()
   end);;
  mret r.

(** * Listing *)

(** [p.hostsIn(match)] *)
Definition hostsIn (matches : hostState → bool) (p : Pool) : list Host :=
  map (λ x, h_host x.2) (keep (λ x, matches x.2) (sortedHosts p)).

Definition refreshHosts (force : bool) : P (option error) :=
  fresh ← locked (λ t p, (hostsKnown p && (Sub t (hostsListedAt p) <? HostListInterval cfg), p));
  if (fresh : bool) && negb force then mret None
  else
  started ← now;
  answer ← outside pe_List;
  match answer with
  | inl err => section_ listFailed;; mret (Some err)
  | inr hosts => section_ (λ t, listed cfg started t hosts);; mret None
  end.

(** The agent calls of [probe] and [listSlots], one per host. *)
Fixpoint askAll {A} (ask : Host → P A) (hosts : list Host) : P (list (Host * A)) :=
  match hosts with
  | [] => mret []
  | host :: hosts => a ← ask host; rest ← askAll ask hosts; mret ((host, a) :: rest)
  end.

Definition listSlots (hosts : list Host) : P () :=
  answers ← askAll ListSlots hosts;
  section_ (λ t, listSection cfg t answers).

(** The workers of [Inventory] on one host. *)
Definition hostWorkers (t : time) (x : string * hostState) : list Worker :=
  let '(id, h) := x in
  if IsZero (lastListed h) || (UnreachableGrace cfg <? Sub t (lastListed h)) then []
  else omap (λ index,
    match h_slots h !! index with
    | Some slot =>
      if negb (String.eqb (slot_ControllerID slot) (ControllerID cfg))
         || String.eqb (slot_LeaseID slot) "" || String.eqb (slot_RunnerName slot) ""
      then None else Some (slotWorker id index slot None)
    | None => None
    end) (sortedSlots (h_slots h)).

Definition Inventory : P (error + list Worker) :=
  err ← refreshHosts false;
  known ← view hostsKnown;
  match err, known : bool with
  | Some err, false => mret (inl (WrapError "list hosts" err))
  | _, _ =>
    hosts ← view (hostsIn (λ h, negb (String.eqb (Address (h_host h)) "") && running h
                                && (everReady h || negb (ownBoot h))));
    listSlots hosts;;
    workers ← locked (λ t p, (concat (map (hostWorkers t) (sortedHosts p)), p));
    mret (inr workers)
  end.

(** * Destroying *)

Definition lookupHost (id : string) (p : Pool) : option Host :=
  match p_hosts p !! id with
  | Some h => if phase_eqb (h_phase h) phaseCreating then None else Some (h_host h)
  | None => None
  end.

Definition stoppedHost (id : string) (p : Pool) : bool :=
  match p_hosts p !! id with Some h => phase_eqb (h_phase h) phaseStopped | None => false end.

Definition clear (hostID : string) (slot : Z) (leaseID : string) : P () :=
  locked2 (cleared hostID slot leaseID).

Definition Remove (host : Host) (slot : Z) (leaseID : string) : P (option error) :=
  calling (pe_Remove host slot leaseID) (CRemove host slot leaseID).

Definition removeSlot (host : Host) (hostID : string) (slot : Z) (leaseID : string)
    : P (option error) :=
  isStopped ← view (stoppedHost hostID);
  if isStopped : bool then clear hostID slot leaseID;; mret None
  else
  err ← Remove host slot leaseID;
  match err with
  | None => clear hostID slot leaseID;; mret None
  | Some err =>
    if IsAgentRefusal err CodeLeaseMismatch then clear hostID slot leaseID;; mret None
    else if IsAgentRefusal err CodeInvalid then mret (Some (WrapError "remove slot" err))
    else mret (Some (TransientError (WrapError "remove slot" err)))
  end.

Definition Destroy (workerID : string) : P (option error) :=
  match parseWorkerID workerID with
  | inl err => mret (Some err)
  | inr (hostID, slot, leaseID) =>
    found ← view (lookupHost hostID);
    match found with
    | Some host => removeSlot host hostID slot leaseID
    | None =>
      on_err (refreshHosts true)
        (λ err, mret (Some (TransientError (WrapError "confirm host" err))))
      (found ← view (lookupHost hostID);
       match found with
       | Some host => removeSlot host hostID slot leaseID
       | None => mret None
       end)
    end
  end.

(** * Maintenance *)

Definition followTag : P () :=
  match Follow cfg with
  | None => mret ()
  | Some related =>
    due ← locked (λ t p, (negb (Before t (imageCheckAt p)), p));
    if negb due then mret ()
    else
    answer ← outside pe_Resolve;
    let answer := match answer with
                  | inr image =>
                    if String.eqb image (Image cfg) || negb (related image)
                    then inl (ErrorString "resolved an image that is not a digest of the tag")
                    else inr image
                  | inl err => inl err
                  end in
    section_ (λ t, followSection cfg t answer)
  end.

Definition Info (host : Host) : P (error + HostInfo) := outside (pe_Info host).

Definition probe : P () :=
  booting ← view (hostsIn (λ h, phase_eqb (h_phase h) phaseBooting
                                && negb (String.eqb (Address (h_host h)) "")));
  answers ← askAll Info booting;
  (* p.roomReady only signals the controller *)
  _ ← locked (λ t, probeSection cfg t answers);
  mret ().

(** Stopping a candidate, and deleting one. *)
Definition stopHost (c : returnCandidate) : P () :=
  err ← calling (pe_Stop (host_ID (rc_host c))) (CStop c);
  match err with
  | Some _ => section_ (restorePhase (host_ID (rc_host c)) (rc_previous c))
  | None => section_ (stopped cfg (host_ID (rc_host c)))
  end.

Definition deleteHost (c : returnCandidate) : P () :=
  err ← calling (pe_Delete (host_ID (rc_host c))) (CDelete c);
  match err with
  | Some _ => section_ (restorePhase (host_ID (rc_host c)) (rc_previous c))
  | None => section_ (returned cfg (host_ID (rc_host c)))
  end.

(** A candidate that may still run something is asked first. *)
Definition needsConfirmation (c : returnCandidate) : bool :=
  negb (phase_eqb (rc_previous c) phaseStopped)
  && negb (String.eqb (rc_reason c) "boot_timeout") && negb (String.eqb (rc_reason c) "unreachable").

Definition returnHost (c : returnCandidate) : P () :=
  empty ← (if needsConfirmation c then
             answer ← ListSlots (rc_host c);
             mret (match answer with inr [] => true | _ => false end)
           else mret true);
  if negb empty then section_ (restorePhase (host_ID (rc_host c)) (rc_previous c))
  else if rc_stop c then stopHost c
  else deleteHost c.

(** Select the candidates, with a trace entry of the state they were selected in. *)
Definition selectCandidates : P (list returnCandidate) :=
  act (λ s, let '(t, w) := pe_Now (pworld s) in
            let '(candidates, p) := returnCandidates cfg t (pool s) in
            (candidates, set_pool p (logCall (CSelect t candidates) (set_pworld w s)))).

Fixpoint returnAll (candidates : list returnCandidate) : P () :=
  match candidates with
  | [] => mret ()
  | c :: candidates => returnHost c;; returnAll candidates
  end.

Definition returnHosts : P () :=
  if negb (CanCreate (SourceFacts cfg)) then mret ()
  else candidates ← selectCandidates; returnAll candidates.

Definition growHosts : P () :=
  if negb (CanCreate (SourceFacts cfg)) then mret ()
  else act (λ s, let '(t, w) := pe_Now (pworld s) in
                 let '(gos, p) := grow cfg t (pool s) in
                 ((), spawn gos (set_pool p (set_pworld w s)))).

Definition maintain : P () :=
  followTag;;
  _ ← refreshHosts false;
  probe;;
  hosts ← view (hostsIn (λ h, negb (String.eqb (Address (h_host h)) "")
                  && (phase_eqb (h_phase h) phaseReady || phase_eqb (h_phase h) phaseDraining)));
  listSlots hosts;;
  section_ (replaceStale cfg);;
  returnHosts;;
  growHosts;;
  section_ (checkHealth cfg).

(** * Spawned goroutines *)

Definition start (id : string) : P () :=
  err ← calling (pe_Start id) (CStartHost id);
  section_ (startSection id err).

Definition create (placeholder image : string) : P () :=
  answer ← calling (pe_Create image) (CCreate image);
  section_ (createSection placeholder image answer).

Definition runGoroutine (g : goroutine) : P () :=
  match g with goStart id => start id | goCreate placeholder image => create placeholder image end.
End pool.
