(* ===== verification/PoolSystem.v ===== *)
(** Host pools as a system of threads, and a small world to run the programs in. *)

From S2P Require Import Prelude Program Float64 Provider GoStrings PoolState PoolSections PoolMaintain.
From S2P Require Import Pool.

(** What the controller asks of a pool. *)
Inductive request :=
  | reqLaunch (lease : Lease)
  | reqLaunchSpare (lease : Lease)
  | reqInventory
  | reqDestroy (workerID : string).

Section system.
Context {W : Type} {E : PoolEnv W} (cfg : Config).

Definition serve (r : request) : prog (poolSys W) () :=
  match r with
  | reqLaunch lease => _ ← Launch cfg lease; mret ()
  | reqLaunchSpare lease => _ ← launchSpare cfg lease; mret ()
  | reqInventory => _ ← Inventory cfg; mret ()
  | reqDestroy id => _ ← Destroy cfg id; mret ()
  end.

(** The pool's state, the threads in progress, and the maintenance loop. *)
Record system := mkSystem {
  sys : poolSys W;
  threads : list (prog (poolSys W) ());
  maintenance : prog (poolSys W) ()
}.

(** Take the [i]-th spawned goroutine. *)
Definition takeSpawned (i : nat) (s : poolSys W) : poolSys W :=
  mkPoolSys (pool s) (pworld s) (ptrace s) (delete i (spawned s)).

Inductive step : system → system → Prop :=
  | step_request s ts m r :
      step (mkSystem s ts m) (mkSystem s (ts ++ [serve r]) m)
  | step_spawned s ts m i g :
      spawned s !! i = Some g →
      step (mkSystem s ts m) (mkSystem (takeSpawned i s) (ts ++ [runGoroutine g]) m)
  | step_thread s ts m i t t' s' :
      ts !! i = Some t → stepP t s = (t', s') →
      step (mkSystem s ts m) (mkSystem s' (<[i := t']> ts) m)
  | step_maintenance s ts m m' s' :
      stepP m s = (m', s') →
      step (mkSystem s ts m) (mkSystem s' ts m')
  | step_tick s ts :
      step (mkSystem s ts (Ret ())) (mkSystem s ts (maintain cfg)).

(** A new pool, before its first pass. *)
Definition initial (p : Pool) (w : W) : system := mkSystem (mkPoolSys p w [] []) [] (Ret ()).

Definition reachable (p : Pool) (w : W) : system → Prop := rtc step (initial p w).

(** * Rely and guarantee

    [G] is what a request or a spawned goroutine may do to the state, [I] an
    invariant of every action.  The maintenance loop relies on [G]; the threads
    rely on nothing. *)

Section rely_guarantee.
Context (I : poolSys W → Prop) (G : relation (poolSys W)) `{!PreOrder G}.

Definition anything : relation (poolSys W) := λ _ _, True.

#[local] Instance anything_preorder : PreOrder anything.
Proof. by split. Qed.

Context (Hserve : ∀ r s, wp anything G I (serve r) (λ _ _, True) s).
Context (Hgo : ∀ g s, wp anything G I (runGoroutine g) (λ _ _, True) s).
Context (Hmaintain : ∀ s, wp G anything I (maintain cfg) (λ _ _, True) s).
Context (Htake : ∀ i s, I s → I (takeSpawned i s) ∧ G s (takeSpawned i s)).

Definition systemOK (y : system) : Prop :=
  I (sys y) ∧ Forall (λ t, wp anything G I t (λ _ _, True) (sys y)) (threads y)
  ∧ wp G anything I (maintenance y) (λ _ _, True) (sys y).

Lemma threads_mono (ts : list (prog (poolSys W) ())) s s' :
  Forall (λ t, wp anything G I t (λ _ _, True) s) ts →
  Forall (λ t, wp anything G I t (λ _ _, True) s') ts.
Proof.
  intros H. eapply Forall_impl; [exact H |]. intros t. simpl. by apply wp_rely.
Qed.

Lemma step_OK y y' : step y y' → systemOK y → systemOK y'.
Proof.
  intros Hstep (HI & Hts & Hm). destruct Hstep; simpl in *.
  - split_and!; [done | | done]. apply Forall_app. split; [done |]. by apply Forall_singleton.
  - destruct (Htake i s HI) as [HI' HG]. split_and!; [done | |].
    + apply Forall_app. split; [by eapply threads_mono |]. by apply Forall_singleton.
    + by eapply wp_rely; [..|exact HG|exact Hm].
  - pose proof (proj1 (Forall_lookup _ _) Hts _ _ H) as Ht. simpl in Ht.
    destruct (wp_step _ _ _ _ _ _ _ _ Ht HI H0) as (HG & HI' & Ht'). split_and!; [done | |].
    + apply Forall_insert; [by eapply threads_mono | done].
    + by eapply wp_rely; [..|exact HG|exact Hm].
  - destruct (wp_step _ _ _ _ _ _ _ _ Hm HI H) as (_ & HI' & Hm'). split_and!; [done | | done].
    by eapply threads_mono.
  - split_and!; [done | done | apply Hmaintain].
Qed.

(** The invariant holds in every reachable state. *)
Lemma reachable_I p w y :
  I (mkPoolSys p w [] []) → reachable p w y → I (sys y).
Proof.
  intros HI Hr. assert (Hinit : systemOK (initial p w)) by (split_and!; simpl; done).
  cut (systemOK y); [by intros [? _] |]. revert Hinit. unfold reachable in Hr.
  induction Hr as [|y1 y2 y3 Hs _ IH]; [done |]. intros H. apply IH. by eapply step_OK.
Qed.
End rely_guarantee.
End system.

(** * A pool to try things on *)

#[local] Open Scope Z_scope.

(** * A pool to try things on *)

Module PoolDemo.
(** A world that counts the calls; each reading of the clock is ten seconds
    after the one before. *)
Definition t0 : time := 63000000000 * Second.

Definition host1 : Host := mkHost "host-1" "10.0.0.1:22" "key" (t0 - 24 * Hour) "running" zeroTime "".

Definition demoFacts : Facts := mkFacts BillingPerSecond (f64_of_int 1) "EUR" true.

Definition demoConfig : Config :=
  mkConfig "pool" "controller" "image:1" 0 2 demoFacts false None 0 (2 * Hour)
    0 0 0 0 0 0 0 0 0 0 0 false.

(** The world: how often the clock was read, and the slots of the host. *)
#[global] Instance demoEnv : PoolEnv (Z * list Slot) := {|
  pe_Now w := (t0 + w.1 * (10 * Second), (w.1 + 1, w.2));
  pe_wallNow w := (t0 + w.1 * (10 * Second), (w.1 + 1, w.2));
  pe_Done w := (false, w);
  pe_After _ w := w;
  pe_List w := (inr [host1], w);
  pe_Create _ w := (inl (ErrorString "no capacity"), w);
  pe_Delete _ w := (None, w);
  pe_Stop _ w := (None, w);
  pe_Start _ w := (None, w);
  pe_Resolve w := (inl (ErrorString "no tag"), w);
  pe_Info _ w := (inr (mkHostInfo "1" 2 "image:1" true 0), w);
  pe_Slots _ w := (inr w.2, w);
  pe_StartSlot _ slot r w :=
    let s := mkSlot slot (sr_ControllerID r) (sr_LeaseID r) (sr_RunnerName r) (sr_RunnerID r)
               (sr_RunnerScaleSetID r) "started" zeroTime in (inr s, (w.1, s :: w.2));
  pe_Remove _ slot lease w := (None, (w.1, []))
|}.

Definition demoCfg : Config := withDefaults demoConfig.
Definition demoPool : Pool := newPool "image:1" t0.

(** [n] passes of the maintenance loop, with nothing else going on. *)
Fixpoint passes (n : nat) (s : poolSys (Z * list Slot)) : poolSys (Z * list Slot) :=
  match n with O => s | S n => passes n (execP (maintain demoCfg) s) end.

Definition after (n : nat) : poolSys (Z * list Slot) := passes n (mkPoolSys demoPool (0, []) [] []).
End PoolDemo.
