(* ===== verification/PoolFacts.v ===== *)
(** Host pools, what the critical sections and the stages of maintenance do to the hosts;
    which hosts a maintenance pass returns, stops or replaces ([returnCandidates],
    [stoppedCandidates], [replaceStale] of src/pool/compute.go). *)

From S2P Require Import Prelude Program Float64 Provider GoStrings PoolState PoolSections PoolMaintain.
From S2P Require Import Pool.

#[local] Open Scope Z_scope.

Abbreviation hostMap := (gmap string hostState).

(** Hosts are only ever drained for their image. *)
Definition drains (reason : string) : Prop :=
  (reason = "" ∨ reason = "image_mismatch" ∨ reason = "image_stale")%string.

(** A host is filed under its ID; a placeholder has none yet. *)
Definition filed (id : string) (h : hostState) : Prop :=
  (host_ID (h_host h) = id ∨ host_ID (h_host h) = ""%string) ∧ drains (drainReason h).

Definition keyed (m : hostMap) : Prop := ∀ id h, m !! id = Some h → id ≠ ""%string ∧ filed id h.

(** A host that takes no lease and holds none. *)
Definition resting (h : hostState) : Prop := h_phase h ≠ phaseReady ∧ h_reserved h = ∅.

Definition tameHost (id : string) (h h' : hostState) : Prop :=
  (filed id h → filed id h') ∧ (h_phase h' = phaseReady → h_phase h = phaseReady)
  ∧ (h_phase h = phaseReady ∨ h_reserved h' ⊆ h_reserved h).

Definition keepsHost (id : string) (h h' : hostState) : Prop := filed id h → filed id h'.

(** Every host of [m'] is new and at rest, or comes from one of [m]. *)
Definition evolves (new : hostState → Prop) (from : string → hostState → hostState → Prop)
    (m m' : hostMap) : Prop :=
  ∀ id h', m' !! id = Some h' →
    id ≠ ""%string ∧ filed id h' ∧ new h' ∨ ∃ h, m !! id = Some h ∧ from id h h'.

Definition tame : relation hostMap := evolves resting tameHost.
Definition keeps : relation hostMap := evolves (λ _, True) keepsHost.

#[global] Instance tameHost_refl id : Reflexive (tameHost id).
Proof. intros h. split_and!; auto. Qed.

#[global] Instance keepsHost_refl id : Reflexive (keepsHost id).
Proof. by intros h ?. Qed.

Lemma tameHost_trans id h1 h2 h3 : tameHost id h1 h2 → tameHost id h2 h3 → tameHost id h1 h3.
Proof.
  intros (? & ? & [?|H12]) (? & ? & [?|H23]); split_and!; auto. right. by etrans.
Qed.

Lemma subseteq_none (m : gmap Z string) : m ⊆ ∅ → m = ∅.
Proof.
  intros Hsub. apply map_eq. intros i. rewrite lookup_empty. destruct (m !! i) eqn:Ei; [|done].
  by eapply lookup_weaken in Hsub; [|exact Ei].
Qed.

Lemma resting_tame id h h' : resting h → tameHost id h h' → resting h'.
Proof.
  intros [Hp Hr] (_ & Hp' & [?|Hsub]); [done |]. split; [by auto |].
  rewrite Hr in Hsub. by apply subseteq_none.
Qed.

#[global] Instance tame_preorder : PreOrder tame.
Proof.
  split.
  - intros m id h Hm. right. exists h. split; [done | reflexivity].
  - intros m1 m2 m3 H12 H23 id h3 H3. destruct (H23 id h3 H3) as [?|(h2 & H2 & T23)]; [by left |].
    destruct (H12 id h2 H2) as [(? & ? & ?)|(h1 & H1 & T12)].
    + left. split_and!; [done | by apply T23 | by eapply resting_tame].
    + right. exists h1. split; [done | by eapply tameHost_trans].
Qed.

#[global] Instance keeps_preorder : PreOrder keeps.
Proof.
  split.
  - intros m id h Hm. right. exists h. split; [done | reflexivity].
  - intros m1 m2 m3 H12 H23 id h3 H3. destruct (H23 id h3 H3) as [?|(h2 & H2 & T23)]; [by left |].
    destruct (H12 id h2 H2) as [(? & ? & _)|(h1 & H1 & T12)].
    + left. split_and!; [done | by apply T23 | done].
    + right. exists h1. split; [done |]. intros ?. by apply T23, T12.
Qed.

Lemma tame_keeps m m' : tame m m' → keeps m m'.
Proof.
  intros H id h' Hm. destruct (H id h' Hm) as [(? & ? & _)|(h & ? & ? & _)]; [by left |].
  right. eauto.
Qed.

Lemma keeps_keyed m m' : keeps m m' → keyed m → keyed m'.
Proof.
  intros H Hk id h' Hm. destruct (H id h' Hm) as [(? & ? & _)|(h & Hh & Hf)]; [done |].
  destruct (Hk id h Hh). split; [done |]. by apply Hf.
Qed.

(** * Map operations *)

Section evolves.
Context (new : hostState → Prop) (from : string → hostState → hostState → Prop).
Context `{!∀ id, Reflexive (from id)}.

Lemma evolves_same (m : hostMap) id h' : m !! id = Some h' →
  id ≠ ""%string ∧ filed id h' ∧ new h' ∨ ∃ h, m !! id = Some h ∧ from id h h'.
Proof. intros. right. exists h'. split; [done | reflexivity]. Qed.

Lemma evolves_fmap f (m : hostMap) : (∀ id h, from id h (f h)) → evolves new from m (f <$> m).
Proof.
  intros Hf id h'. rewrite lookup_fmap_Some. intros (h & <- & Hm). right. eauto.
Qed.

Lemma evolves_alter id f (m : hostMap) : (∀ h, m !! id = Some h → from id h (f h)) → evolves new from m (alter f id m).
Proof.
  intros Hf i h'. rewrite lookup_alter_Some. intros [(<- & h & Hm & ->)|[_ Hm]].
  - right. eauto.
  - by apply evolves_same.
Qed.

Lemma evolves_insert id h h' (m : hostMap) : m !! id = Some h → from id h h' → evolves new from m (<[id := h']> m).
Proof.
  intros Hm Hf i h2. rewrite lookup_insert_Some. intros [[<- <-]|[_ Hi]].
  - right. eauto.
  - by apply evolves_same.
Qed.

Lemma evolves_add id h' (m : hostMap) :
  id ≠ ""%string → filed id h' → new h' → evolves new from m (<[id := h']> m).
Proof.
  intros ? ? ? i h2. rewrite lookup_insert_Some. intros [[<- <-]|[_ Hi]]; [by left |].
  by apply evolves_same.
Qed.

Lemma evolves_delete id (m : hostMap) : evolves new from m (delete id m).
Proof. intros i h'. rewrite lookup_delete_Some. intros [_ Hi]. by apply evolves_same. Qed.
End evolves.

(** * Sections as relations on pools *)

Definition tameP (p p' : Pool) : Prop := tame (p_hosts p) (p_hosts p').
Definition keepsP (p p' : Pool) : Prop := keeps (p_hosts p) (p_hosts p').

#[global] Instance tameP_preorder : PreOrder tameP.
Proof. split; [by intros p; unfold tameP | intros p1 p2 p3; unfold tameP; by etrans]. Qed.
#[global] Instance keepsP_preorder : PreOrder keepsP.
Proof. split; [by intros p; unfold keepsP | intros p1 p2 p3; unfold keepsP; by etrans]. Qed.

Lemma tameP_keepsP p p' : tameP p p' → keepsP p p'.
Proof. apply tame_keeps. Qed.

(** A loop of tame steps is tame. *)
Lemma fold_rel {A B} (R : relation B) `{!PreOrder R} (f : B → A → B) (l : list A) b :
  (∀ b a, R b (f b a)) → R b (fold_left f l b).
Proof.
  intros H. revert b. induction l as [|a l IH]; intros b; simpl; [done |]. etrans; [apply H | apply IH].
Qed.

(** A host whose slots, readings and accounts change, but not its phase, its
    reservations and its machine. *)
Definition sameHold (h h' : hostState) : Prop :=
  h_host h' = h_host h ∧ h_phase h' = h_phase h ∧ h_reserved h' = h_reserved h
  ∧ drainReason h' = drainReason h.

Lemma sameHold_tame id h h' : sameHold h h' → tameHost id h h'.
Proof.
  intros (Hh & Hp & Hr & Hd). unfold tameHost, filed. rewrite Hh, Hp, Hr, Hd. split_and!; auto.
Qed.

Lemma tameHost_keeps id h h' : tameHost id h h' → keepsHost id h h'.
Proof. by intros [? _]. Qed.

Create HintDb pool.
#[export] Hint Resolve tameHost_keeps sameHold_tame : pool.

Lemma accrueHost_hold seen now h : sameHold h (accrueHost seen now h).
Proof. done. Qed.

Lemma accrue_hosts seen now m : tame m (accrueHost seen now <$> m).
Proof. apply evolves_fmap. intros. by apply sameHold_tame. Qed.

Lemma accrue_tame now p : tameP p (accrue now p).
Proof. apply accrue_hosts. Qed.

Lemma forget_tame id now p : tameP p (forget id now p).
Proof.
  unfold forget. destruct (p_hosts p !! id) as [h|] eqn:Eh; [|reflexivity].
  etrans; [apply (accrue_tame now) |].
  destruct (p_hosts (accrue now p) !! id) as [h'|]; [|reflexivity].
  unfold tameP. simpl. apply evolves_delete, _.
Qed.

(** Look at the hosts of a pool built by updates that end with an accrual. *)
Ltac accrued := unfold tameP; simpl; etrans; [|apply accrue_hosts].

(** * Hosts in order *)

Lemma elem_of_sortedIDs p id : id ∈ sortedIDs p ↔ is_Some (p_hosts p !! id).
Proof. unfold sortedIDs. rewrite merge_sort_Permutation, elem_of_elements, elem_of_dom. done. Qed.

Lemma NoDup_sortedIDs p : NoDup (sortedIDs p).
Proof. unfold sortedIDs. rewrite merge_sort_Permutation. apply NoDup_elements. Qed.

Lemma elem_of_sortedHosts p id h : (id, h) ∈ sortedHosts p ↔ p_hosts p !! id = Some h.
Proof.
  unfold sortedHosts. rewrite list_elem_of_omap. split.
  - intros (i & _ & Hi). apply fmap_Some in Hi as (h' & Hh & [= -> ->]). done.
  - intros Hh. exists id. rewrite elem_of_sortedIDs, Hh. eauto.
Qed.

(** A scan that keeps an element or replaces it by the current one. *)
Lemma fold_pick {A} (Q : A → Prop) (f : option A → A → option A) l best :
  (∀ b x y, x ∈ l → f b x = Some y → b = Some y ∨ y = x ∧ Q x) →
  (∀ y, best = Some y → y ∈ l ∧ Q y) ∨ best = None →
  ∀ y, fold_left f l best = Some y → (best = Some y) ∨ (y ∈ l ∧ Q y).
Proof.
  intros Hf _. revert best. induction l as [|x l IH]; intros best y; simpl; [by left |].
  intros H. destruct (IH (λ b z w Hz, Hf b z w ltac:(by right)) (f best x) y H) as [Hx|[? ?]].
  - destruct (Hf best x y ltac:(left) Hx) as [?|[-> ?]]; [by left | right; split; [left | done]].
  - right. split; [by right | done].
Qed.

Section sections.
Context (cfg : Config).

Lemma pickBest_pick now p b x y :
  pickBest cfg now p b x = Some y → b = Some y ∨ y = x ∧ takesLeases cfg x.2 now = true ∧ 0 < freeCount x.2.
Proof.
  unfold pickBest. destruct (takesLeases cfg x.2 now) eqn:Et; simpl; [|by left].
  destruct (freeCount x.2 =? 0) eqn:Ef; [by left |].
  assert (0 < freeCount x.2) by (unfold freeCount in *; blia).
  destruct b as [b|]; [|intros [= <-]; by right].
  destruct (_ || _); intros [= <-]; [by right | by left].
Qed.

Lemma bestHost_takes now p id h :
  bestHost cfg now p = Some (id, h) →
  p_hosts p !! id = Some h ∧ takesLeases cfg h now = true ∧ 0 < freeCount h.
Proof.
  intros H. unfold bestHost in H.
  apply (fold_pick (λ x, takesLeases cfg x.2 now = true ∧ 0 < freeCount x.2)) in H.
  - destruct H as [?|[Hin [? ?]]]; [done |]. by apply elem_of_sortedHosts in Hin.
  - intros b x y _ Hy. by apply pickBest_pick in Hy.
  - by right.
Qed.

Lemma takesLeases_ready now h : takesLeases cfg h now = true → h_phase h = phaseReady.
Proof. unfold takesLeases, phase_eqb. rewrite !andb_true_iff, bool_decide_eq_true. tauto. Qed.

(** * Requests *)

Lemma reserve_tame lease now p : tameP p (reserve cfg lease now p).2.
Proof.
  unfold reserve. destruct (bestHost cfg now p) as [[id h]|] eqn:Eb; simpl; [|reflexivity].
  apply bestHost_takes in Eb as (Hh & Ht & _). apply takesLeases_ready in Ht.
  accrued. eapply evolves_insert; [apply _ | done |]. split_and!; [done | done | by left].
Qed.

(** Shrinking the reservations, and touching nothing else that matters. *)
Lemma fewer_tame id h h' :
  h_host h' = h_host h → h_phase h' = h_phase h → drainReason h' = drainReason h →
  h_reserved h' ⊆ h_reserved h → tameHost id h h'.
Proof. intros Hh Hp Hd Hr. unfold tameHost, filed. rewrite Hh, Hp, Hd. auto. Qed.

Lemma unreserve_tame id f m :
  (∀ h, h_host (f h) = h_host h ∧ h_phase (f h) = h_phase h ∧ drainReason (f h) = drainReason h
        ∧ h_reserved (f h) ⊆ h_reserved h) →
  tame m (alter f id m).
Proof.
  intros H. apply evolves_alter; [apply _ |]. intros h _. by apply fewer_tame; apply H.
Qed.

Lemma release_tame id slot now p : tameP p (release id slot now p).
Proof. accrued. apply unreserve_tame. intros h. split_and!; [done.. | apply delete_subseteq]. Qed.

Lemma commit_tame id slot started lease now p : tameP p (commit cfg id slot started lease now p).2.
Proof. accrued. apply unreserve_tame. intros h. split_and!; [done.. | apply delete_subseteq]. Qed.

Lemma holdSuspect_tame id slot lease reason t1 t2 t3 t4 p :
  tameP p (holdSuspect cfg id slot lease reason t1 t2 t3 t4 p).
Proof. accrued. apply unreserve_tame. intros h. split_and!; [done.. | apply delete_subseteq]. Qed.

Lemma trackForeign_hold now h : sameHold h (trackForeign cfg now h).
Proof. unfold trackForeign. case_bool; done. Qed.

Lemma markForeign_tame id slot t1 t2 p : tameP p (markForeign cfg id slot t1 t2 p).
Proof.
  accrued. apply evolves_alter; [apply _ |]. intros h _. apply sameHold_tame.
  match goal with |- sameHold _ (trackForeign _ _ ?h1) =>
    destruct (trackForeign_hold t1 h1) as (? & ? & ? & ?) end.
  split_and!; (etrans; [eassumption |]); by destruct (h_slots h !! slot).
Qed.

Lemma refuseHost_tame id reason t1 t2 p : tameP p (refuseHost id reason t1 t2 p).
Proof.
  accrued. apply evolves_alter; [apply _ |]. intros h _.
  case_bool; split_and!; simpl; try done; auto. intros []. split; [done | by right; left].
Qed.

Lemma cleared_tame id slot lease t1 t2 p : tameP p (cleared id slot lease t1 t2 p).
Proof.
  unfold cleared. destruct (p_hosts p !! id) as [h|] eqn:Eh; [|reflexivity].
  accrued. eapply evolves_insert; [apply _ | done |].
  apply sameHold_tame. destruct (h_slots h !! slot); case_bool; done.
Qed.

Lemma noteFull_tame now p : tameP p (noteFull cfg now p).2.
Proof. unfold tameP. done. Qed.

(** * The source's listing *)

Lemma markStopped_tame at_ id h : tameHost id h (markStopped cfg at_ h).
Proof. unfold markStopped. case_bool; split_and!; simpl; try done; auto. Qed.

Lemma reconcile_tame now s id h : tameHost id h (reconcile cfg now s h).2.
Proof.
  unfold reconcile. destruct (negb (stopper cfg)); [done |].
  destruct (String.eqb _ _), (h_phase h) eqn:Ep; simpl; try done;
    try (split_and!; simpl; [done | congruence | by right]);
    destruct (startedByPool h); simpl; try apply markStopped_tame;
    (eapply tameHost_trans; [|apply markStopped_tame]); by apply sameHold_tame.
Qed.

Lemma invalidHostID_empty id : invalidHostID id = false → id ≠ ""%string.
Proof. intros H ->. done. Qed.

Lemma foundHost_rest now host : resting (foundHost cfg now host) ∧ filed (host_ID host) (foundHost cfg now host).
Proof. unfold foundHost. case_bool; split; try split; simpl; try done; by left. Qed.

Lemma listHost_tame started now p host : tameP p (listHost cfg started now p host).
Proof.
  unfold listHost. destruct (invalidHostID (host_ID host)) eqn:Ei; [reflexivity |].
  apply invalidHostID_empty in Ei. destruct (p_hosts p !! host_ID host) as [h|] eqn:Eh.
  - assert (Hs : tameHost (host_ID host) h (h |> set_host host)).
    { split_and!; simpl; [intros []; split; [by left | done] | done | by right]. }
    case_bool; [unfold tameP; simpl; by eapply evolves_insert; [apply _ | ..] |].
    pose proof (reconcile_tame now (p_health p) (host_ID host) (h |> set_host host)) as Hr.
    destruct (reconcile _ _ _ _) as [s h']. unfold tameP. simpl.
    eapply evolves_insert; [apply _ | done |]. by eapply tameHost_trans.
  - unfold tameP. simpl. destruct (foundHost_rest now host). by apply evolves_add; [apply _ | ..].
Qed.

Lemma dropUnlisted_tame started now seen p id : tameP p (dropUnlisted started now seen p id).
Proof.
  unfold dropUnlisted. destruct (p_hosts p !! id); [|reflexivity].
  destruct (_ || _); [reflexivity | apply forget_tame].
Qed.

Lemma listed_tame started now hosts p : tameP p (listed cfg started now hosts p).
Proof.
  unfold listed. accrued. etrans; [|apply (fold_rel tameP), dropUnlisted_tame; apply _].
  pose proof (fold_rel tameP (listHost cfg started now) hosts
    (p |> set_poolHealth (set_sourceFailingSince zeroTime (p_health p)))
    (listHost_tame started now)) as H. exact H.
Qed.
Lemma listFailed_tame now p : tameP p (listFailed now p).
Proof. unfold listFailed, tameP. case_bool; done. Qed.

Lemma slotsListed_tame now p x : tameP p (slotsListed cfg now p x).
Proof.
  unfold slotsListed. destruct x as [host [err|slots]]; destruct (p_hosts p !! host_ID host) as [h|] eqn:Eh;
    try reflexivity.
  unfold tameP. simpl. eapply evolves_insert; [apply _ | done |]. apply sameHold_tame.
  match goal with |- context [trackForeign _ _ ?h1] =>
    destruct (trackForeign_hold now h1) as (? & ? & ? & ?) end.
  case_bool; split_and!; simpl; assumption.
Qed.

Lemma listSection_tame now answers p : tameP p (listSection cfg now answers p).
Proof. unfold listSection. accrued. apply (fold_rel tameP), slotsListed_tame. Qed.

(** * Spawned goroutines *)

Lemma startSection_tame id err now p : tameP p (startSection id err now p).
Proof.
  unfold startSection. destruct (p_hosts p !! id) as [h|] eqn:Eh; [|reflexivity].
  destruct err as [e|]; accrued; (eapply evolves_insert; [apply _ | done |]);
    split_and!; simpl; [done | done | by right | done | done | by right].
Qed.

Lemma createSection_tame placeholder image answer now p :
  tameP p (createSection placeholder image answer now p).
Proof.
  unfold createSection. etrans; [apply (forget_tame placeholder now) |].
  generalize (forget placeholder now p) as q. intros q. destruct answer as [e|host].
  { case_bool; accrued; reflexivity. }
  destruct (invalidHostID (host_ID host)) eqn:Ei; [accrued; reflexivity |].
  apply invalidHostID_empty in Ei. simpl.
  destruct (p_hosts q !! host_ID host) as [h|] eqn:Eh; accrued.
  - eapply evolves_insert; [apply _ | done |].
    split_and!; simpl; [intros []; split; [by left | done] | done | by right].
  - apply evolves_add; [apply _ | done | split; by left | done].
Qed.

(** * The maintenance loop *)

Lemma followSection_tame now r p : tameP p (followSection cfg now r p).
Proof. unfold followSection, tameP. destruct r; [done |]. case_bool; done. Qed.

Lemma checkHealth_tame now p : tameP p (checkHealth cfg now p).
Proof.
  unfold checkHealth, tameP. destruct (recent _ _) as [taken over]. done.
Qed.

Lemma probed_keeps now b p x : keepsP p (probed cfg now (b, p) x).2.
Proof.
  unfold probed. destruct x as [host [err|info]]; destruct (p_hosts p !! host_ID host) as [h|] eqn:Eh;
    try reflexivity.
  case_bool; try reflexivity;
    (unfold keepsP; simpl; eapply evolves_insert; [apply _ | done |]; intros [? ?]; split; simpl; unfold drains; auto).
Qed.

Lemma probeSection_keeps now answers p : keepsP p (probeSection cfg now answers p).2.
Proof.
  unfold probeSection. destruct (fold_left _ answers (false, p)) as [b q] eqn:Ef. simpl.
  etrans; [|apply tameP_keepsP, accrue_tame].
  enough (H : ∀ l b0 p0, keepsP p0 (fold_left (probed cfg now) l (b0, p0)).2).
  { specialize (H answers false p). by rewrite Ef in H. }
  clear. intros l. induction l as [|x l IH]; intros b0 p0; [reflexivity |].
  cbn [fold_left]. pose proof (probed_keeps now b0 p0 x) as Hx.
  destruct (probed cfg now (b0, p0) x) as [b1 p1]. etrans; [exact Hx | apply IH].
Qed.

Lemma restorePhase_keeps id previous now p : keepsP p (restorePhase id previous now p).
Proof.
  unfold restorePhase. etrans; [|apply tameP_keepsP, accrue_tame].
  unfold keepsP. simpl. apply evolves_alter; [apply _ |]. intros h _ Hf. by destruct (h_phase h).
Qed.

Lemma returned_tame id now p : tameP p (returned cfg id now p).
Proof.
  unfold returned. destruct (p_hosts p !! id) as [h|] eqn:Eh; [|unfold tameP; done].
  match goal with |- tameP _ (set_returnedHosts _ (forget _ _ ?q)) =>
    pose proof (forget_tame id now q) as H end. exact H.
Qed.

Lemma stopped_tame id now p : tameP p (stopped cfg id now p).
Proof.
  unfold stopped. accrued. apply evolves_alter; [apply _ |]. intros h _.
  eapply tameHost_trans; [apply (markStopped_tame now) |].
  generalize (markStopped cfg now h). intros h'. by apply sameHold_tame.
Qed.

Lemma createHosts_tame now n gos p : tameP p (createHosts now n gos p).2.
Proof.
  revert gos p. induction n as [|n IH]; intros gos p; simpl; [reflexivity |].
  etrans; [|apply IH]. unfold tameP. simpl. apply evolves_add; [apply _ | done | split; [by right | by left] | done].
Qed.

Lemma pickStartable_pick now p b x y :
  pickStartable cfg now p b x = Some y →
  b = Some y ∨ y = x ∧ h_phase x.2 = phaseStopped ∧ unusable cfg p x.2 = ""%string.
Proof.
  unfold pickStartable, phase_eqb. destruct (_ || _) eqn:Ec; [by left |].
  rewrite !orb_false_iff, !negb_false_iff, bool_decide_eq_true, String.eqb_eq in Ec.
  destruct b as [b|]; [|intros [= <-]; right; tauto].
  destruct (After _ _); intros [= <-]; [right; tauto | by left].
Qed.

Lemma startable_stopped now p id h :
  startable cfg now p = Some (id, h) →
  p_hosts p !! id = Some h ∧ h_phase h = phaseStopped ∧ unusable cfg p h = ""%string ∧ stopper cfg = true.
Proof.
  unfold startable. destruct (stopper cfg); [|done]. simpl. intros H.
  apply (fold_pick (λ x, h_phase x.2 = phaseStopped ∧ unusable cfg p x.2 = ""%string)) in H.
  - destruct H as [?|[Hin [? ?]]]; [done |]. by apply elem_of_sortedHosts in Hin.
  - intros b x y _ Hy. by apply pickStartable_pick in Hy.
  - by right.
Qed.

Lemma startStopped_tame now n gos p n' gos' p' :
  startStopped cfg now n gos p = (n', gos', p') → tameP p p'.
Proof.
  revert gos p. induction n as [|n IH]; intros gos p; simpl; [by intros [= _ _ <-] |].
  destruct (startable cfg now p) as [[id h]|] eqn:Es; [|by intros [= _ _ <-]].
  intros H. etrans; [|by eapply IH]. apply startable_stopped in Es as (Hh & Hp & _).
  unfold tameP. simpl. eapply evolves_insert; [apply _ | done |].
  split_and!; simpl; [done | done | by right].
Qed.

Lemma grow_tame now p : tameP p (grow cfg now p).2.
Proof.
  unfold grow. destruct (countPhases p) as [active pending].
  match goal with |- context [startStopped cfg now ?n [] ?q] =>
    destruct (startStopped cfg now n [] q) as [[want gos] p1] eqn:Es end.
  apply startStopped_tame in Es. etrans; [|apply createHosts_tame]. exact Es.
Qed.

Lemma replaceScan_ready p acc x :
  (match acc with Some (Some (id, h), _) => h_phase h = phaseReady | _ => True end) →
  match replaceScan cfg p acc x with Some (Some (id, h), _) => h_phase h = phaseReady | _ => True end.
Proof.
  destruct acc as [[[[id h]|] current]|]; destruct x as [i h']; simpl; intros H; [..|done];
    destruct (h_phase h') eqn:Ep; case_bool; auto.
Qed.
End sections.

(** * What a maintenance pass returns *)

#[local] Open Scope Z_scope.

Section return_.
Context (cfg : Config).

(** * Replacing a stale host *)

Lemma replaceScan_pick p acc x y c :
  replaceScan cfg p acc x = Some (Some y, c) →
  (∃ c', acc = Some (Some y, c')) ∨ y = x ∧ h_phase x.2 = phaseReady.
Proof.
  destruct acc as [[cand cur]|]; [|done]. unfold replaceScan. destruct x as [i h]. simpl.
  destruct (h_phase h) eqn:Ep; try done; try (intros H; left; case_bool; by eauto).
  destruct (negb _); [intros [= -> _]; by eauto |].
  destruct cand as [[i' h']|]; [|intros [= <- _]; by right].
  destruct (_ || _); intros [= <- _]; [by right | by eauto].
Qed.

Lemma replaceScan_fold p l acc y c :
  fold_left (replaceScan cfg p) l acc = Some (Some y, c) →
  (∃ c', acc = Some (Some y, c')) ∨ y ∈ l ∧ h_phase y.2 = phaseReady.
Proof.
  revert acc. induction l as [|x l IH]; intros acc; simpl; [eauto |].
  intros H. destruct (IH _ H) as [[c' Hc]|[? ?]]; [|right; split; [by right | done]].
  apply replaceScan_pick in Hc as [?|[-> ?]]; [by left | right; split; [left | done]].
Qed.

Lemma replaceStale_tame now p : tameP p (replaceStale cfg now p).
Proof.
  unfold replaceStale. destruct (negb _); [reflexivity |]. destruct (_ || _); [reflexivity |].
  destruct (fold_left _ _ _) as [[[[id h]|] current]|] eqn:Ef; try reflexivity.
  destruct (_ && _); [reflexivity |]. apply replaceScan_fold in Ef as [[? ?]|[Hin Hp]]; [done |].
  apply elem_of_sortedHosts in Hin. accrued. eapply evolves_insert; [apply _ | done |].
  split_and!; simpl; [intros []; split; [done | by right; right] | done | by right].
Qed.

(** * Candidates *)

(** What [returnReason] reads of the pool. *)
Definition sameImage (p q : Pool) : Prop := p_image q = p_image p ∧ imageResolved q = imageResolved p.

Lemma returnReason_image now base p q id h :
  sameImage p q → returnReason cfg now base q id h = returnReason cfg now base p id h.
Proof. intros [H1 H2]. unfold returnReason, stale. by rewrite H1, H2. Qed.

(** Host [id] is candidate [c] for the reason the loop found. *)
Definition picks (now : time) (base : list string) (p p' : Pool) (id : string) (c : returnCandidate)
    : Prop :=
  ∃ h, p_hosts p !! id = Some h
    ∧ returnReason cfg now base p id h = Some (rc_reason c, rc_stop c)
    ∧ rc_host c = h_host h ∧ rc_previous c = h_phase h
    ∧ p_hosts p' !! id = Some (h |> set_phase (if rc_stop c then phaseStopping else phaseDeleting)).

Lemma considerReturn_fold now base p l cs0 q :
  NoDup l → sameImage p q → (∀ id, id ∈ l → p_hosts q !! id = p_hosts p !! id) →
  ∃ ids cs, NoDup ids ∧ (∀ id, id ∈ ids → id ∈ l)
    ∧ (fold_left (considerReturn cfg now base) l (cs0, q)).1 = cs0 ++ cs
    ∧ let q' := (fold_left (considerReturn cfg now base) l (cs0, q)).2 in
      Forall2 (picks now base p q') ids cs ∧ sameImage p q'
      ∧ ∀ id, id ∉ ids → p_hosts q' !! id = p_hosts q !! id.
Proof.
  revert cs0 q. induction l as [|x l IH]; intros cs0 q Hnd Him Hsame; simpl.
  { exists [], []. rewrite app_nil_r. split_and!; auto using NoDup_nil_2. }
  apply NoDup_cons in Hnd as [Hx Hnd]. unfold considerReturn at 2 4.
  assert (Hskip : ∃ ids cs, NoDup ids ∧ (∀ id, id ∈ ids → id ∈ x :: l)
    ∧ (fold_left (considerReturn cfg now base) l (cs0, q)).1 = cs0 ++ cs
    ∧ let q' := (fold_left (considerReturn cfg now base) l (cs0, q)).2 in
      Forall2 (picks now base p q') ids cs ∧ sameImage p q'
      ∧ ∀ id, id ∉ ids → p_hosts q' !! id = p_hosts q !! id).
  { destruct (IH cs0 q Hnd Him) as (ids & cs & ? & Hin & ?); [set_solver |].
    exists ids, cs. split_and!; [done | set_solver | tauto..]. }
  destruct (p_hosts q !! x) as [h|] eqn:Eh; [|exact Hskip].
  rewrite (returnReason_image now base p q) by done.
  destruct (returnReason cfg now base p x h) as [[reason stop]|] eqn:Er; [|exact Hskip].
  clear Hskip. match goal with |- context [(cs0 ++ [?c0], set_hostState x ?h0 ?q0)] =>
    set (c := c0); set (h1 := h0); set (q1 := q0) end.
  assert (Hq1 : sameImage p q1 ∧ p_hosts q1 = p_hosts q).
  { subst q1. destruct (_ && _); [|done]. by destruct Him. }
  destruct Hq1 as [Him1 Hh1].
  destruct (IH (cs0 ++ [c]) (set_hostState x h1 q1)) as (ids & cs & Hndi & Hin & -> & HF & Him' & Hrest);
    [done | by destruct Him1 | |].
  { intros id Hid. simpl. rewrite Hh1, lookup_insert_ne by set_solver. apply Hsame. set_solver. }
  assert (Hxi : x ∉ ids) by set_solver.
  exists (x :: ids), (c :: cs). split_and!.
  - by apply NoDup_cons.
  - set_solver.
  - by rewrite <- app_assoc.
  - constructor; [|done]. exists h. subst c. simpl. split_and!; auto.
    + by rewrite <- Hsame by set_solver.
    + rewrite Hrest by done. simpl. by rewrite lookup_insert_eq.
  - apply Him'.
  - intros id Hid. rewrite Hrest by set_solver. simpl. rewrite Hh1, lookup_insert_ne by set_solver. done.
Qed.

(** A stopped host that cannot serve again, or has been stopped long enough. *)
Definition discards (now : time) (q q' : Pool) (id : string) (c : returnCandidate) : Prop :=
  ∃ h, p_hosts q !! id = Some h ∧ h_phase h = phaseStopped
    ∧ rc_host c = h_host h ∧ rc_previous c = phaseStopped ∧ rc_stop c = false
    ∧ (unusable cfg q h ≠ ""%string ∨ DeleteStoppedAfter cfg <= Sub now (stoppedSince h))
    ∧ p_hosts q' !! id = Some (h |> set_phase phaseDeleting).

Lemma unusable_image p q h : sameImage p q → unusable cfg q h = unusable cfg p h.
Proof. intros [H1 H2]. unfold unusable, accepts, stale. by rewrite H1, H2. Qed.

Lemma considerStopped_fold now p l kept cs0 q :
  NoDup (map fst l) → sameImage p q →
  (∀ id h, (id, h) ∈ l → p_hosts p !! id = Some h ∧ h_phase h = phaseStopped
     ∧ p_hosts q !! id = p_hosts p !! id) →
  ∃ ids cs kept' q', fold_left (considerStopped cfg now) l (kept, cs0, q) = (kept', cs0 ++ cs, q')
    ∧ NoDup ids ∧ (∀ id, id ∈ ids → id ∈ map fst l)
    ∧ Forall2 (discards now p q') ids cs ∧ sameImage p q'
    ∧ ∀ id, id ∉ ids → p_hosts q' !! id = p_hosts q !! id.
Proof.
  revert kept cs0 q. induction l as [|[x h] l IH]; intros kept cs0 q Hnd Him Hl.
  { exists [], [], kept, q. rewrite app_nil_r. split_and!; auto using NoDup_nil_2. }
  cbn [fold_left]. simpl in Hnd. apply NoDup_cons in Hnd as [Hx Hnd].
  destruct (Hl x h ltac:(left)) as (Hh & Hp & Hq).
  assert (Hskip : ∀ k, ∃ ids cs kept' q',
    fold_left (considerStopped cfg now) l (k, cs0, q) = (kept', cs0 ++ cs, q')
    ∧ NoDup ids ∧ (∀ id, id ∈ ids → id ∈ map fst ((x, h) :: l))
    ∧ Forall2 (discards now p q') ids cs ∧ sameImage p q'
    ∧ ∀ id, id ∉ ids → p_hosts q' !! id = p_hosts q !! id).
  { intros k. destruct (IH k cs0 q Hnd Him) as (ids & cs & k' & q' & ? & ? & Hin & ?).
    { intros id h0 H0. apply Hl. by right. }
    exists ids, cs, k', q'. split_and!; try tauto. intros id Hid. right. by apply Hin. }
  assert (Hdel : ∀ reason, reason ≠ ""%string ∨ True →
    unusable cfg p h ≠ ""%string ∨ DeleteStoppedAfter cfg <= Sub now (stoppedSince h) →
    ∃ ids cs kept' q',
    fold_left (considerStopped cfg now) l (kept, cs0 ++ [mkReturnCandidate (h_host h) phaseStopped reason false],
      set_hostState x (h |> set_phase phaseDeleting) q) = (kept', cs0 ++ cs, q')
    ∧ NoDup ids ∧ (∀ id, id ∈ ids → id ∈ map fst ((x, h) :: l))
    ∧ Forall2 (discards now p q') ids cs ∧ sameImage p q'
    ∧ ∀ id, id ∉ ids → p_hosts q' !! id = p_hosts q !! id).
  { intros reason _ Hwhy. set (c := mkReturnCandidate _ _ _ _).
    destruct (IH kept (cs0 ++ [c]) (set_hostState x (h |> set_phase phaseDeleting) q) Hnd)
      as (ids & cs & k' & q' & -> & Hndi & Hin & HF & Him' & Hrest); [by destruct Him | |].
    { intros id h0 H0. destruct (Hl id h0 ltac:(by right)) as (? & ? & ?). split_and!; [done.. |].
      simpl. rewrite lookup_insert_ne; [done |]. intros ->. apply Hx.
      apply list_elem_of_fmap. by exists (id, h0). }
    assert (Hxi : x ∉ ids) by (intros ?; apply Hx; auto).
    exists (x :: ids), (c :: cs), k', q'. split_and!.
    - by rewrite <- app_assoc.
    - by apply NoDup_cons.
    - intros id [->|Hid]%elem_of_cons; [left | right; auto].
    - constructor; [|done]. exists h. split_and!; auto.
      rewrite Hrest by done. simpl. by rewrite lookup_insert_eq.
    - apply Him'.
    - intros id Hid. rewrite Hrest by set_solver. simpl. by rewrite lookup_insert_ne by set_solver. }
  unfold considerStopped at 2. rewrite (unusable_image p q) by done.
  destruct (String.eqb_spec (unusable cfg p h) "") as [Eu|Eu]; simpl; [|auto].
  destruct (kept <? KeepStopped cfg); [auto |].
  destruct (Z.leb_spec (DeleteStoppedAfter cfg) (Sub now (stoppedSince h))); [auto | apply Hskip].
Qed.
(** Why host [id] is a candidate. *)
Definition due (now : time) (p : Pool) (id : string) (h : hostState) (c : returnCandidate) : Prop :=
  returnReason cfg now (baseHosts cfg p) p id h = Some (rc_reason c, rc_stop c)
  ∨ h_phase h = phaseStopped ∧ rc_stop c = false
    ∧ (unusable cfg p h ≠ ""%string ∨ DeleteStoppedAfter cfg <= Sub now (stoppedSince h)).

(** Candidate [c] is host [id] of [p], and [p'] takes no lease there. *)
Definition selects (now : time) (p p' : Pool) (id : string) (c : returnCandidate) : Prop :=
  ∃ h h', p_hosts p !! id = Some h ∧ due now p id h c
    ∧ rc_host c = h_host h ∧ rc_previous c = h_phase h
    ∧ p_hosts p' !! id = Some h' ∧ h_phase h' ≠ phaseReady ∧ h_reserved h' = h_reserved h.

Lemma stoppedHosts_spec (m : hostMap) :
  let l := merge_sort stoppedLater (keep (λ x, phase_eqb (h_phase x.2) phaseStopped) (map_to_list m)) in
  NoDup (map fst l) ∧ ∀ id h, (id, h) ∈ l → m !! id = Some h ∧ h_phase h = phaseStopped.
Proof.
  intros l. split.
  - unfold l. rewrite merge_sort_Permutation. apply NoDup_keep_map, NoDup_fst_map_to_list.
  - intros id h. unfold l. rewrite merge_sort_Permutation, elem_of_keep, elem_of_map_to_list.
    unfold phase_eqb. by rewrite bool_decide_eq_true.
Qed.

Lemma accrue_lookup now p id h :
  p_hosts p !! id = Some h → p_hosts (accrue now p) !! id = Some (accrueHost (slotsSeen p) now h).
Proof. intros H. unfold accrue. simpl. by rewrite lookup_fmap, H. Qed.

Lemma returnCandidates_selects now p :
  ∃ ids, NoDup ids ∧ Forall2 (selects now p (returnCandidates cfg now p).2) ids
                       (returnCandidates cfg now p).1.
Proof.
  unfold returnCandidates.
  destruct (considerReturn_fold now (baseHosts cfg p) p (sortedIDs p) [] p)
    as (ids1 & cs1 & Hnd1 & _ & Hcs1 & HF1 & Him1 & Hrest1); [apply NoDup_sortedIDs | done | done |].
  destruct (fold_left _ _ ([], p)) as [cands q]. simpl in *. subst cands.
  unfold stoppedCandidates. destruct (stoppedHosts_spec (p_hosts q)) as [Hnd Hl]. simpl in Hl.
  set (l := merge_sort _ _) in *.
  destruct (considerStopped_fold now q l 0 [] q Hnd) as
    (ids2 & cs2 & kept & q' & -> & Hnd2 & Hin2 & HF2 & Him2 & Hrest2); [done | naive_solver |].
  simpl. assert (Hdisj : ∀ id, id ∈ ids1 → id ∈ ids2 → False).
  { intros id H1 H2. apply Hin2 in H2. apply list_elem_of_fmap in H2 as ([i h] & -> & H2).
    apply Hl in H2 as [Hq Hp]. apply list_elem_of_lookup_1 in H1 as [k Hk].
    destruct (Forall2_lookup_l _ _ _ _ _ HF1 Hk) as (c & _ & h0 & _ & _ & _ & _ & Hh). simpl in Hq, Hh. rewrite Hh in Hq. injection Hq as <-.
    simpl in Hp. by destruct (rc_stop c). }
  exists (ids1 ++ ids2). split; [by apply NoDup_app; split_and!; eauto |].
  apply Forall2_app.
  - apply (Forall2_same_length_lookup_2 _ _ _ (Forall2_length _ _ _ HF1)).
    intros i id c Hid Hc.
    destruct (Forall2_lookup_lr _ _ _ _ _ _ HF1 Hid Hc) as (h & Hh & Hr & ? & ? & Hh').
    exists h. eexists. split_and!; [done | by left | done | done | | |].
    + apply accrue_lookup. rewrite Hrest2; [exact Hh' |]. intros ?. eapply Hdisj; [|done].
      by eapply list_elem_of_lookup_2.
    + simpl. by destruct (rc_stop c).
    + done.
  - eapply Forall2_impl; [exact HF2 |].
    intros id c (h & Hh & Hp & ? & ? & ? & Hw & Hh').
    assert (Hid : p_hosts q !! id = p_hosts p !! id).
    { apply Hrest1. intros [k Hk]%list_elem_of_lookup_1.
      destruct (Forall2_lookup_l _ _ _ _ _ HF1 Hk) as (c' & _ & h0 & _ & _ & _ & _ & Hq).
      rewrite Hh in Hq. injection Hq as ->. simpl in Hp. by destruct (rc_stop c'). }
    exists h. eexists. split_and!; [by rewrite <- Hid | | done | congruence | by apply accrue_lookup | done | done].
    right. split_and!; [done | done |]. by rewrite <- (unusable_image p q).
Qed.

(** A candidate that is not asked first: it is stopped, its first boot under the
    pool failed, or it has been silent for longer than any job may run. *)
Lemma due_unconfirmed now p id h c :
  due now p id h c → rc_previous c = h_phase h → drains (drainReason h) →
  needsConfirmation c = false →
  h_phase h = phaseStopped
  ∨ h_phase h = phaseBooting ∧ ownBoot h = true ∧ everReady h = false
    ∧ BootTimeout cfg < Sub now (firstNonZero [bootSince h; host_CreatedAt (h_host h)])
  ∨ wrap64 (MaxLifetime cfg + UnreachableGrace cfg)
      < Sub now (latest [lastContact h; firstSeen h; bootSince h]).
Proof.
  intros [Hr|(? & _)] Hp Hd Hn; [|by left]. unfold needsConfirmation in Hn. rewrite Hp in Hn.
  unfold returnReason in Hr. unfold phase_eqb in *.
  destruct (_ && _ && _ && _ && _) eqn:E1.
  { breflect. rewrite bool_decide_eq_true in E1. right. left. tauto. }
  destruct ((_ || _ || _) && _) eqn:E2; [breflect; tauto |].
  destruct (negb _ && negb _) eqn:E3; [done |]. destruct (_ || _ || _ || _); [done |].
  rewrite !andb_false_iff, !negb_false_iff, !bool_decide_eq_true, !String.eqb_eq in *.
  destruct Hn as [[?|Hn]|Hn]; [by left | |]; exfalso; destruct c as [ch cp cr cs]; simpl in Hn, Hr; subst cr;
    case_bool; destruct Hd as [?|[?|?]]; congruence.
Qed.

(** A candidate that is asked first is a ready or draining host with no runner
    and no reservation, listed within the last three ticks. *)
Lemma due_confirmed now p id h c :
  due now p id h c → rc_previous c = h_phase h → needsConfirmation c = true →
  (h_phase h = phaseReady ∧ id ∉ baseHosts cfg p ∧ Billing (SourceFacts cfg) ≠ BillingOwned
   ∨ h_phase h = phaseDraining ∧ drainReason h ≠ ""%string)
  ∧ h_slots h = ∅ ∧ h_reserved h = ∅ ∧ lastListed h ≠ 0 ∧ Sub now (lastListed h) <= wrap64 (3 * Tick cfg).
Proof.
  intros [Hr|(Hst & _)] Hp Hn; unfold needsConfirmation in Hn; rewrite Hp in Hn;
    rewrite !andb_true_iff, !negb_true_iff in Hn; unfold phase_eqb in *;
    [|destruct Hn as [[Hn _] _]; by apply bool_decide_eq_false in Hn].
  unfold returnReason, phase_eqb in Hr.
  destruct (_ && _ && _ && _ && _); [injection Hr as Hc ?; rewrite <- Hc in Hn; by destruct Hn as [[? ?] ?] |].
  destruct ((_ || _ || _) && _); [injection Hr as Hc ?; rewrite <- Hc in Hn; by destruct Hn as [[? ?] ?] |].
  destruct (negb _ && negb _) eqn:E3; [done |]. destruct (_ || _ || _ || _) eqn:E4; [done |].
  rewrite andb_false_iff, !negb_false_iff, !bool_decide_eq_true in E3.
  unfold occupied, reservations in E4. breflect. destruct_and!.
  assert (h_slots h = ∅) by (apply map_size_empty_inv; lia).
  assert (h_reserved h = ∅) by (apply map_size_empty_inv; lia).
  split; [|split_and!; try done; lia].
  destruct (bool_decide (h_phase h = phaseDraining)) eqn:Ed.
  { apply bool_decide_eq_true in Ed. right. split; [done |].
    destruct (String.eqb_spec (drainReason h) ""); done. }
  apply bool_decide_eq_false in Ed. destruct E3 as [E3|E3]; [|done]. left. split; [done |].
  destruct (_ || String.eqb _ _) eqn:E5; [done |]. rewrite orb_false_iff, bool_decide_eq_false in E5.
  rewrite String.eqb_neq in E5. tauto.
Qed.

(** Marking hosts for return is tame. *)
Lemma marked_tame q q' ids (cs : list returnCandidate) (Φ : string → returnCandidate → Prop) :
  (∀ id c, Φ id c → ∃ h ph, p_hosts q !! id = Some h ∧ ph ≠ phaseReady
     ∧ p_hosts q' !! id = Some (h |> set_phase ph)) →
  Forall2 Φ ids cs → (∀ id, id ∉ ids → p_hosts q' !! id = p_hosts q !! id) → tameP q q'.
Proof.
  intros HΦ HF Hrest id h' Hh'. right. destruct (decide (id ∈ ids)) as [Hid|Hid].
  - apply list_elem_of_lookup_1 in Hid as [k Hk].
    destruct (Forall2_lookup_l _ _ _ _ _ HF Hk) as (c & _ & Hc).
    destruct (HΦ id c Hc) as (h & ph & Hh & Hp & Hq'). exists h. rewrite Hh' in Hq'.
    injection Hq' as ->. split; [done |]. split_and!; simpl; [done | done | by right].
  - rewrite Hrest in Hh' by done. exists h'. split; [done | reflexivity].
Qed.

Lemma returnCandidates_tame now p : tameP p (returnCandidates cfg now p).2.
Proof.
  unfold returnCandidates.
  destruct (considerReturn_fold now (baseHosts cfg p) p (sortedIDs p) [] p)
    as (ids1 & cs1 & _ & _ & _ & HF1 & _ & Hrest1); [apply NoDup_sortedIDs | done | done |].
  destruct (fold_left _ _ ([], p)) as [cands q]. simpl in *.
  unfold stoppedCandidates. destruct (stoppedHosts_spec (p_hosts q)) as [Hnd Hl]. simpl in Hl.
  set (l := merge_sort _ _) in *.
  destruct (considerStopped_fold now q l 0 [] q Hnd) as
    (ids2 & cs2 & kept & q' & -> & _ & _ & HF2 & _ & Hrest2); [done | naive_solver |].
  accrued. transitivity (p_hosts q).
  - eapply (marked_tame p q ids1 cs1); [|exact HF1 | exact Hrest1].
    intros id c (h & Hh & _ & _ & _ & Hq). exists h. eexists. split_and!; [done | |exact Hq].
    by destruct (rc_stop c).
  - eapply (marked_tame q q' ids2 cs2); [|exact HF2 | exact Hrest2].
    intros id c (h & Hh & _ & _ & _ & _ & _ & Hq). by exists h, phaseDeleting.
Qed.
End return_.
