(* ===== verification/PoolSpecs.v ===== *)
(** Host pools, specifications of every program under interference.

    Requests and spawned goroutines are [client]s: they keep the invariant and
    change the hosts tamely.  The maintenance loop relies on that: once it has
    selected a host for return, no client makes the host ready or reserves a
    slot of it. *)

From S2P Require Import Prelude Program Float64 Provider GoStrings PoolState PoolSections PoolMaintain.
From S2P Require Import Pool PoolSystem PoolFacts.

#[local] Open Scope Z_scope.

Section specs.
Context {W : Type} {E : PoolEnv W} (cfg : Config).

Abbreviation Σ := (poolSys W).
Abbreviation trace := (list (call * Pool)).

(** * What the trace records of a return *)

(** Candidate [c] is not ready in [p], and holds no reservation if it has to
    answer first. *)
Definition held (c : returnCandidate) (p : Pool) : Prop :=
  ∀ h, p_hosts p !! host_ID (rc_host c) = Some h →
    h_phase h ≠ phaseReady ∧ (needsConfirmation c = true → h_reserved h = ∅).

(** A pass selected [c], and then did [since]. *)
Definition selected (c : returnCandidate) (tr since : trace) : Prop :=
  ∃ now all p rest, tr = since ++ (CSelect now all, p) :: rest ∧ c ∈ all.

(** Since it was selected, [c] answered that it runs nothing, if it has to. *)
Definition asked (c : returnCandidate) (tr : trace) : Prop :=
  ∃ since, selected c tr since
    ∧ (needsConfirmation c = true → ∃ p, (CSlots (rc_host c) (inr []), p) ∈ since ∧ held c p).

Definition entryOK (earlier : trace) (e : call * Pool) : Prop :=
  match e.1 with
  | CSelect now all => keyed (p_hosts e.2) ∧ all = (returnCandidates cfg now e.2).1
  | CDelete c _ => rc_stop c = false ∧ asked c earlier ∧ held c e.2
  | CStop c _ => rc_stop c = true ∧ asked c earlier ∧ held c e.2
  | _ => True
  end.

Fixpoint traceOK (tr : trace) : Prop :=
  match tr with [] => True | e :: tr => entryOK tr e ∧ traceOK tr end.

Definition Inv (s : Σ) : Prop := keyed (p_hosts (pool s)) ∧ traceOK (ptrace s).

Definition Guar (s s' : Σ) : Prop :=
  tameP (pool s) (pool s') ∧ ∃ l, ptrace s' = l ++ ptrace s.

#[global] Instance Guar_preorder : PreOrder Guar.
Proof.
  split.
  - intros s. split; [reflexivity | by exists []].
  - intros s1 s2 s3 [H1 [l1 E1]] [H2 [l2 E2]]. split; [by etrans |].
    exists (l2 ++ l1). by rewrite E2, E1, app_assoc.
Qed.

#[local] Instance anything_preorder : PreOrder (anything (W := W)).
Proof. by split. Qed.

(** * Clients *)

Definition client {A} (p : prog Σ A) : Prop := spec anything Guar Inv (λ _, True) p (λ _ _, True).

Lemma client_ret {A} (a : A) : client (mret a).
Proof. by apply spec_ret. Qed.

Lemma client_bind {A B} (p : prog Σ A) (f : A → prog Σ B) :
  client p → (∀ a, client (f a)) → client (p ≫= f).
Proof. intros Hp Hf. by eapply spec_bind. Qed.

Lemma client_on_err {X A} (m : prog Σ (option X)) (h : X → prog Σ A) k :
  client m → (∀ e, client (h e)) → client k → client (on_err m h k).
Proof. intros Hm Hh Hk. apply client_bind; [done |]. intros [e|]; auto. Qed.

Lemma client_act {A} (op : Σ → A * Σ) :
  (∀ s x s', op s = (x, s') → tameP (pool s) (pool s')
     ∧ (ptrace s' = ptrace s ∨ ∃ e, ptrace s' = e :: ptrace s ∧ entryOK (ptrace s) e)) →
  client (act op).
Proof.
  intros H. apply spec_act; [done |]. intros s x s' [HK HT] _ Eop.
  destruct (H s x s' Eop) as [Ht Htr]. split_and!; [split; [done |] | split |done].
  - destruct Htr as [->|(e & -> & _)]; [by exists [] | by exists [e]].
  - by eapply keeps_keyed, HK; apply tameP_keepsP.
  - by destruct Htr as [->|(e & -> & ?)].
Qed.

Lemma client_get {A} (f : Σ → A) : client (get f).
Proof. apply client_act. intros s x s' [= <- <-]. split; [reflexivity | by left]. Qed.

Lemma client_outside {A} (f : W → A * W) : client (outside f).
Proof.
  apply client_act. intros s x s'. destruct (f (pworld s)) as [a w]. intros [= <- <-].
  split; [reflexivity | by left].
Qed.

(** A call that is neither the selection nor the end of a candidate. *)
Definition plain (c : call) : Prop :=
  match c with CSelect _ _ | CDelete _ _ | CStop _ _ => False | _ => True end.

Lemma client_calling {A} (f : W → A * W) (entry : A → call) :
  (∀ a, plain (entry a)) → client (calling f entry).
Proof.
  intros Hp. apply client_act. intros s x s'. destruct (f (pworld s)) as [a w]. intros [= <- <-].
  split; [reflexivity |]. right. eexists. split; [done |]. specialize (Hp a). by destruct (entry a).
Qed.

Lemma client_locked {A} (f : time → Pool → A * Pool) :
  (∀ t p, tameP p (f t p).2) → client (locked f).
Proof.
  intros Hf. apply client_act. intros s x s'. destruct (pe_Now (pworld s)) as [t w].
  pose proof (Hf t (pool s)) as Ht. destruct (f t (pool s)) as [a p]. intros [= <- <-].
  split; [exact Ht | by left].
Qed.

Lemma client_section (f : time → Pool → Pool) : (∀ t p, tameP p (f t p)) → client (section_ f).
Proof. intros Hf. by apply client_locked. Qed.

Lemma client_locked2 f : (∀ t1 t2 p, tameP p (f t1 t2 p)) → client (locked2 f).
Proof.
  intros Hf. apply client_act. intros s x s'. destruct (pe_Now (pworld s)) as [t1 w1].
  destruct (pe_Now w1) as [t2 w2]. intros [= <- <-]. split; [apply Hf | by left].
Qed.

Lemma client_locked4 f : (∀ t1 t2 t3 t4 p, tameP p (f t1 t2 t3 t4 p)) → client (locked4 f).
Proof.
  intros Hf. apply client_act. intros s x s'. destruct (pe_Now (pworld s)) as [t1 w1].
  destruct (pe_Now w1) as [t2 w2], (pe_Now w2) as [t3 w3], (pe_Now w3) as [t4 w4].
  intros [= <- <-]. split; [apply Hf | by left].
Qed.

Create HintDb client.
Hint Resolve client_ret client_get client_outside client_calling client_locked
  client_section client_locked2 client_locked4 : client.
Hint Resolve reserve_tame release_tame commit_tame holdSuspect_tame markForeign_tame
  refuseHost_tame cleared_tame noteFull_tame listed_tame listFailed_tame listSection_tame
  startSection_tame createSection_tame : client.
Hint Extern 1 (plain _) => exact I : client.
Hint Extern 1 (tameP ?p (pair _ ?p).2) => reflexivity : client.

(** Follow the program, one constructor at a time. *)
Ltac follow :=
  repeat first
    [ apply client_ret
    | solve [eauto with client]
    | apply client_bind; [|intros ?]
    | apply client_on_err; [|intros ?|]
    | match goal with
      | |- client (match ?x with _ => _ end) => destruct x
      | |- client (if ?x then _ else _) => destruct x
      end ].

Lemma client_ListSlots host : client (ListSlots host).
Proof. apply client_calling. done. Qed.
Hint Resolve client_ListSlots : client.

Lemma client_readLateLoop fuel host slot lease answered deadline :
  client (readLateLoop cfg fuel host slot lease answered deadline).
Proof.
  induction fuel as [|fuel IH]; cbn [readLateLoop].
  { apply client_act. intros s x s' [= <- <-]. split; [reflexivity |]. right. by eexists. }
  follow.
Qed.

Lemma client_readLateStart host slot lease err : client (readLateStart cfg host slot lease err).
Proof.
  apply client_bind; [apply client_outside |]. intros t. apply client_readLateLoop.
Qed.
Hint Resolve client_readLateStart : client.

Lemma client_startFailed lease host slot err : client (startFailed cfg lease host slot err).
Proof.
  unfold startFailed, releaseSlot, refuse, now. follow.
Qed.

Lemma client_refuseFull growing : client (refuseFull cfg growing).
Proof. unfold refuseFull. follow. Qed.
Hint Resolve client_startFailed client_refuseFull : client.

Lemma client_attempts n lease growing : client (attempts cfg n lease growing).
Proof.
  induction n as [|n IH]; cbn [attempts]; [apply client_refuseFull |].
  apply client_bind; [eauto with client |]. intros [[[host slot] image]|]; [|apply client_refuseFull].
  unfold StartSlot. follow.
Qed.

Lemma client_launch lease growing : client (launch cfg lease growing).
Proof. unfold launch. destruct (_ || _); [apply client_ret | apply client_attempts]. Qed.

Lemma client_refreshHosts force : client (refreshHosts cfg force).
Proof. unfold refreshHosts, now. follow. Qed.
Hint Resolve client_launch client_refreshHosts : client.

Lemma client_askAll {A} (ask : Host → prog Σ A) hosts :
  (∀ host, client (ask host)) → client (askAll ask hosts).
Proof. intros Ha. induction hosts; cbn [askAll]; follow. Qed.

Lemma client_listSlots hosts : client (listSlots cfg hosts).
Proof. unfold listSlots. follow. apply client_askAll. eauto with client. Qed.
Hint Resolve client_listSlots : client.

Lemma client_removeSlot host hostID slot leaseID : client (removeSlot host hostID slot leaseID).
Proof. unfold removeSlot, Remove, clear, view. follow. Qed.
Hint Resolve client_removeSlot : client.

Lemma client_serve r : client (serve cfg r).
Proof.
  destruct r; cbn [serve]; unfold Launch, launchSpare, Inventory, Destroy, view, update;
    follow; (apply client_act; intros s x s' [= <- <-]; split; [by unfold tameP | by left]).
Qed.

Lemma client_goroutine g : client (runGoroutine g).
Proof. destruct g; cbn [runGoroutine]; unfold start, create; follow. Qed.

(** * The maintenance loop *)

Definition upkeep {A} (P : Σ → Prop) (p : prog Σ A) (Q : A → Σ → Prop) : Prop :=
  spec Guar anything Inv P p Q.

Lemma client_upkeep {A} (p : prog Σ A) : client p → upkeep (λ _, True) p (λ _ _, True).
Proof. intros H. by eapply spec_weaken, H. Qed.

Lemma upkeep_act {A} P (op : Σ → A * Σ) Q :
  stableR Guar P →
  (∀ s x s', Inv s → P s → op s = (x, s') →
     keepsP (pool s) (pool s') ∧ Q x s'
     ∧ (ptrace s' = ptrace s ∨ ∃ e, ptrace s' = e :: ptrace s ∧ entryOK (ptrace s) e)) →
  upkeep P (act op) Q.
Proof.
  intros Hst H. apply spec_act; [done |]. intros s x s' [HK HT] HP Eop.
  destruct (H s x s' (conj HK HT) HP Eop) as (Hk & HQ & Htr). split_and!; [done | | done].
  split; [by eapply keeps_keyed | by destruct Htr as [->|(e & -> & ?)]].
Qed.

(** A critical section of the loop. *)
Lemma upkeep_section P (f : time → Pool → Pool) Q :
  stableR Guar P → (∀ t p, keepsP p (f t p)) →
  (∀ t w s, Inv s → P s → keyed (p_hosts (f t (pool s))) → Q (set_pool (f t (pool s)) (set_pworld w s))) →
  upkeep P (section_ f) (λ _, Q).
Proof.
  intros Hst Hf HQ. apply upkeep_act; [done |]. intros s x s' HI HP.
  destruct (pe_Now (pworld s)) as [t w]. intros [= <- <-]. split_and!; [apply Hf | | by left].
  apply HQ; [done.. |]. eapply keeps_keyed; [apply Hf | apply HI].
Qed.

(** ** Candidates under interference *)

Lemma held_tame c p p' : tameP p p' → held c p → held c p'.
Proof.
  intros Ht Hc h' Hh'. destruct (Ht _ _ Hh') as [(_ & _ & Hr & He)|(h & Hh & _ & Hp & Hsub)]; [done |].
  destruct (Hc h Hh) as [Hp0 Hr0]. split; [auto |]. intros Hn. destruct Hsub as [?|Hsub]; [done |].
  rewrite (Hr0 Hn) in Hsub. by apply subseteq_none.
Qed.

Lemma selected_mono c tr since l : selected c tr since → selected c (l ++ tr) (l ++ since).
Proof. intros (now & all & p & rest & -> & ?). exists now, all, p, rest. by rewrite <- app_assoc. Qed.

Lemma asked_mono c tr l : asked c tr → asked c (l ++ tr).
Proof.
  intros (since & Hs & Ha). exists (l ++ since). split; [by apply selected_mono |].
  intros Hn. destruct (Ha Hn) as (p & Hp & Hh). exists p. split; [|done]. apply elem_of_app. by right.
Qed.

(** A candidate still to be returned. *)
Definition waiting (c : returnCandidate) (s : Σ) : Prop :=
  (∃ since, selected c (ptrace s) since) ∧ held c (pool s).

Lemma waiting_stable c : stableR Guar (waiting c).
Proof.
  intros s s' [Ht [l Htr]] [[since Hs] Hh]. split; [|by eapply held_tame].
  exists (l ++ since). rewrite Htr. by apply selected_mono.
Qed.

(** The candidates of one pass, filed under different names. *)
Definition apart (ids : list string) (cs : list returnCandidate) : Prop :=
  NoDup ids ∧ Forall2 (λ id c, host_ID (rc_host c) = id ∨ host_ID (rc_host c) = ""%string) ids cs.

Definition queue (cs : list returnCandidate) (s : Σ) : Prop :=
  (∃ ids, apart ids cs) ∧ Forall (λ c, waiting c s) cs.

Lemma queue_stable cs : stableR Guar (queue cs).
Proof.
  intros s s' HG [Ha Hw]. split; [done |]. eapply Forall_impl; [exact Hw |].
  intros c. by apply waiting_stable.
Qed.

(** Putting back one host's phase leaves the other candidates waiting. *)
Lemma restorePhase_other id previous t p c :
  host_ID (rc_host c) ≠ id → held c p → held c (restorePhase id previous t p).
Proof.
  intros Hne Hc h. unfold restorePhase. simpl. rewrite lookup_fmap_Some.
  intros (h0 & <- & Hh0). rewrite lookup_alter_ne in Hh0 by done. exact (Hc h0 Hh0).
Qed.

Lemma held_unnamed c p : keyed (p_hosts p) → host_ID (rc_host c) = ""%string → held c p.
Proof. intros Hk He h Hh. rewrite He in Hh. by destruct (Hk _ _ Hh). Qed.

Lemma queue_restore c cs previous t w s :
  queue (c :: cs) s → keyed (p_hosts (restorePhase (host_ID (rc_host c)) previous t (pool s))) →
  queue cs (set_pool (restorePhase (host_ID (rc_host c)) previous t (pool s)) (set_pworld w s)).
Proof.
  intros [[ids [Hnd HF]] Hw] Hk. inversion HF as [|id ? ids' ? Hc HF']; subst.
  apply NoDup_cons in Hnd as [Hid Hnd]. apply Forall_cons in Hw as [_ Hw].
  split; [by exists ids' |]. apply Forall_forall. intros c' Hc'.
  destruct (proj1 (Forall_forall _ _) Hw c' Hc') as [Hs Hh]. split; [exact Hs |]. simpl.
  destruct (decide (host_ID (rc_host c') = ""%string)) as [He|He]; [by apply held_unnamed |].
  apply restorePhase_other; [|done]. intros Heq. apply list_elem_of_lookup_1 in Hc' as [k Hk'].
  destruct (Forall2_lookup_r _ _ _ _ _ HF' Hk') as (id' & Hid' & Hc'').
  apply list_elem_of_lookup_2 in Hid'. destruct Hc'' as [E1|?]; [|done].
  destruct Hc as [E2|E2]; [|congruence]. congruence.
Qed.

Lemma queue_tame c cs q w s :
  queue (c :: cs) s → tameP (pool s) q → queue cs (set_pool q (set_pworld w s)).
Proof.
  intros [[ids [Hnd HF]] Hw] Ht. inversion HF as [|id ? ids' ? _ HF']; subst.
  apply NoDup_cons in Hnd as [_ Hnd]. apply Forall_cons in Hw as [_ Hw].
  split; [by exists ids' |]. eapply Forall_impl; [exact Hw |]. intros c' [Hs Hh].
  split; [exact Hs | by eapply held_tame].
Qed.

(** ** Returning one candidate *)

Definition ready (c : returnCandidate) (cs : list returnCandidate) (s : Σ) : Prop :=
  queue (c :: cs) s ∧ asked c (ptrace s).

Lemma ready_stable c cs : stableR Guar (ready c cs).
Proof.
  intros s s' HG [Hq Ha]. split; [by eapply queue_stable |]. destruct HG as [_ [l ->]].
  by apply asked_mono.
Qed.

(** The call that ends a candidate. *)
Lemma upkeep_ending {A} c cs (f : W → A * W) (entry : A → call) :
  (∀ a tr p, asked c tr → held c p → entryOK tr (entry a, p)) →
  upkeep (ready c cs) (calling f entry) (λ _, queue (c :: cs)).
Proof.
  intros He. apply upkeep_act; [apply ready_stable |]. intros s x s' HI [[Ha Hw] Hk].
  destruct (f (pworld s)) as [a w]. intros [= <- <-]. split_and!; [reflexivity | |].
  - split; [done |]. eapply Forall_impl; [exact Hw |]. intros c' [[since Hs] Hh].
    split; [|done]. exists ([(entry a, pool s)] ++ since). by apply (selected_mono _ _ _ [_]).
  - right. eexists. split; [done |]. apply He; [done |].
    apply Forall_cons in Hw as [[_ Hh] _]. exact Hh.
Qed.

Lemma upkeep_restore c cs :
  upkeep (queue (c :: cs)) (section_ (restorePhase (host_ID (rc_host c)) (rc_previous c))) (λ _, queue cs).
Proof.
  apply upkeep_section; [apply queue_stable | apply restorePhase_keeps |]. intros t w s _ Hq Hk.
  by apply queue_restore.
Qed.

Lemma upkeep_done c cs f :
  (∀ t p, tameP p (f t p)) → upkeep (queue (c :: cs)) (section_ f) (λ _, queue cs).
Proof.
  intros Hf. apply upkeep_section; [apply queue_stable | intros; by apply tameP_keepsP |].
  intros t w s _ Hq _. by eapply queue_tame.
Qed.

Lemma upkeep_ListSlots c cs :
  upkeep (queue (c :: cs)) (ListSlots (rc_host c))
    (λ answer s, match answer with inr [] => ready c cs s | _ => queue (c :: cs) s end).
Proof.
  apply upkeep_act; [apply queue_stable |]. intros s x s' HI [Ha Hw].
  destruct (pe_Slots (rc_host c) (pworld s)) as [answer w]. intros [= <- <-].
  set (s1 := logCall _ _). assert (Hq : queue (c :: cs) s1).
  { split; [done |]. eapply Forall_impl; [exact Hw |]. intros c' [[since Hs] Hh].
    split; [|done]. exists ([(CSlots (rc_host c) answer, pool s)] ++ since).
    by apply (selected_mono _ _ _ [_]). }
  split_and!; [reflexivity | | by right; eexists].
  destruct answer as [err|[|slot slots]]; [done | | done]. split; [done |].
  apply Forall_cons in Hw as [[[since Hs] Hh] _].
  exists ([(CSlots (rc_host c) (inr []), pool s)] ++ since). split; [by apply (selected_mono _ _ _ [_]) |].
  intros _. exists (pool s). split; [by left | done].
Qed.

Lemma upkeep_returnHost c cs : upkeep (queue (c :: cs)) (returnHost cfg c) (λ _, queue cs).
Proof.
  unfold returnHost.
  eapply spec_bind with (T := λ empty s, if empty : bool then ready c cs s else queue (c :: cs) s).
  - destruct (needsConfirmation c) eqn:En.
    + eapply spec_bind; [apply upkeep_ListSlots |]. intros answer. apply spec_ret.
      by destruct answer as [err|[|slot slots]].
    + apply spec_ret. intros s Hq. split; [done |]. destruct Hq as [_ Hw].
      apply Forall_cons in Hw as [[[since Hs] _] _]. exists since. split; [done | congruence].
  - intros [|]; cbn [negb]; [|apply upkeep_restore].
    destruct (rc_stop c) eqn:Es; (eapply spec_bind; [apply upkeep_ending; simpl; by auto |]);
      intros [err|]; try apply upkeep_restore; apply upkeep_done; intros;
      [apply stopped_tame | apply returned_tame].
Qed.

Lemma upkeep_returnAll cs : upkeep (queue cs) (returnAll cfg cs) (λ _ _, True).
Proof.
  induction cs as [|c cs IH]; cbn [returnAll]; [by apply spec_ret |].
  eapply spec_bind; [apply upkeep_returnHost |]. intros []. apply IH.
Qed.

Lemma upkeep_select : upkeep (λ _, True) (selectCandidates cfg) queue.
Proof.
  apply upkeep_act; [done |]. intros s x s' [HK HT] _.
  destruct (pe_Now (pworld s)) as [t w].
  destruct (returnCandidates_selects cfg t (pool s)) as (ids & Hnd & HF).
  pose proof (returnCandidates_tame cfg t (pool s)) as Htame.
  destruct (returnCandidates cfg t (pool s)) as [cs p] eqn:Er. simpl in HF, Htame. intros [= <- <-].
  split_and!; [by apply tameP_keepsP | |].
  - split.
    + exists ids. split; [done |]. eapply Forall2_impl; [exact HF |].
      intros id c (h & h' & Hh & Hd & Hhost & Hrest). rewrite Hhost. apply (HK id h Hh).
    + apply Forall_forall. intros c Hc. split.
      { exists [], t, cs, (pool s), (ptrace s). done. }
      apply list_elem_of_lookup_1 in Hc as [k Hk].
      destruct (Forall2_lookup_r _ _ _ _ _ HF Hk) as (id & _ & h & h' & Hh & Hdue & Hhost & Hprev & Hh' & Hp & Hr).
      intros h2 Hh2. simpl in Hh2. destruct (HK id h Hh) as [Hid [Hf _]]. rewrite Hhost in Hh2.
      destruct Hf as [Hf|Hf].
      * rewrite Hf, Hh' in Hh2. injection Hh2 as <-. split; [done |]. intros Hn. rewrite Hr.
        by destruct (due_confirmed cfg t (pool s) id h c Hdue Hprev Hn) as (_ & _ & ? & _).
      * rewrite Hf in Hh2.
        destruct (keeps_keyed _ _ (tameP_keepsP _ _ Htame) HK _ _ Hh2) as [? _]. done.
  - right. eexists. split; [done |]. split; [done |]. simpl. by rewrite Er.
Qed.

Lemma upkeep_returnHosts : upkeep (λ _, True) (returnHosts cfg) (λ _ _, True).
Proof.
  unfold returnHosts. destruct (negb _); [by apply spec_ret |].
  eapply spec_bind; [apply upkeep_select |]. intros cs. apply upkeep_returnAll.
Qed.

Lemma upkeep_probe : upkeep (λ _, True) (probe cfg) (λ _ _, True).
Proof.
  unfold probe. eapply spec_bind; [apply client_upkeep, client_get |]. intros booting.
  eapply spec_bind; [apply client_upkeep, client_askAll; intros host; apply client_outside |].
  intros answers. eapply spec_bind with (T := λ _ _, True); [|intros b; by apply spec_ret].
  apply upkeep_act; [done |]. intros s x s' _ _. destruct (pe_Now (pworld s)) as [t w].
  pose proof (probeSection_keeps cfg t answers (pool s)) as Hk.
  destruct (probeSection cfg t answers (pool s)) as [b p]. intros [= <- <-]. split_and!; auto.
Qed.

Lemma client_followTag : client (followTag cfg).
Proof.
  unfold followTag. destruct (Follow cfg) as [related|]; [|apply client_ret].
  apply client_bind; [eauto with client |]. intros due.
  destruct (negb due); [apply client_ret |]. apply client_bind; [apply client_outside |].
  intros answer. apply client_section. intros. apply followSection_tame.
Qed.

Lemma client_growHosts : client (growHosts cfg).
Proof.
  unfold growHosts. destruct (negb _); [apply client_ret |]. apply client_act. intros s x s'.
  destruct (pe_Now (pworld s)) as [t w]. pose proof (grow_tame cfg t (pool s)) as Hg.
  destruct (grow cfg t (pool s)) as [gos p]. intros [= <- <-]. split; [exact Hg | by left].
Qed.

Lemma upkeep_maintain : upkeep (λ _, True) (maintain cfg) (λ _ _, True).
Proof.
  unfold maintain.
  eapply spec_bind; [apply client_upkeep, client_followTag |]. intros [].
  eapply spec_bind; [apply client_upkeep, client_refreshHosts |]. intros err.
  eapply spec_bind; [apply upkeep_probe |]. intros [].
  eapply spec_bind; [apply client_upkeep, client_get |]. intros hosts.
  eapply spec_bind; [apply client_upkeep, client_listSlots |]. intros [].
  eapply spec_bind; [apply client_upkeep, client_section, replaceStale_tame |]. intros [].
  eapply spec_bind; [apply upkeep_returnHosts |]. intros [].
  eapply spec_bind; [apply client_upkeep, client_growHosts |]. intros [].
  apply client_upkeep, client_section. intros. apply checkHealth_tame.
Qed.

(** The invariant of every reachable state. *)
Lemma reachable_Inv p w y :
  keyed (p_hosts p) → reachable cfg p w y → Inv (sys y).
Proof.
  intros Hk. apply reachable_I with (G := Guar).
  - apply _.
  - intros r s. by apply client_serve.
  - intros g s. by apply client_goroutine.
  - intros s. by apply upkeep_maintain.
  - intros i s [? ?]. split; [done |]. split; [reflexivity | by exists []].
  - split; [exact Hk | done].
Qed.

(** An entry of the trace and what came before it. *)
Lemma traceOK_entry tr later e earlier : traceOK tr → tr = later ++ e :: earlier → entryOK earlier e.
Proof.
  revert tr. induction later as [|x later IH]; intros tr Htr ->; simpl in Htr; [by destruct Htr |].
  eapply IH; [|done]. by destruct Htr.
Qed.
End specs.
