(* ===== verification/PoolLaunch.v ===== *)
(** Host pools, what a launch leaves behind.

    A launch may start a container several times: the outcome it reports has to
    account for every start that may have left one running.  Everything here
    holds under interference: other threads may do anything but start the same
    lease, whose ID is unique. *)

From S2P Require Import Prelude Program Float64 Provider GoStrings PoolState PoolSections PoolMaintain.
From S2P Require Import Pool PoolSystem.

#[local] Open Scope string_scope.
#[local] Open Scope Z_scope.

(** The starts of a lease, newest first: host, slot and answer. *)
Definition startOf (leaseID : string) (e : call * Pool) : option (Host * Z * (error + Slot)) :=
  match e.1 with
  | CStartSlot host slot id answer => if String.eqb id leaseID then Some (host, slot, answer) else None
  | _ => None
  end.

Definition startsOf (leaseID : string) (tr : list (call * Pool)) : list (Host * Z * (error + Slot)) :=
  omap (startOf leaseID) tr.

(** The agent stated that nothing was started, or could not be reached. *)
Definition refusedCleanly (e : error) : Prop :=
  errors_is ErrUnreachable e = true ∨ IsAgentRefusal e CodeSlotBusy = true
  ∨ IsAgentRefusal e CodeNotReady = true ∨ IsAgentRefusal e CodeImageMismatch = true
  ∨ IsAgentRefusal e CodeDiskFull = true ∨ IsAgentRefusal e CodeInvalid = true.

Definition clean (x : Host * Z * (error + Slot)) : Prop :=
  ∃ e, x.2 = inl e ∧ refusedCleanly e.

(** The worker of a lease in a slot. *)
Definition named (lease : Lease) (hostID : string) (slot : Z) (w : Worker) : Prop :=
  ID w = WorkerID hostID slot (lease_ID lease) ∧ LeaseID w = lease_ID lease
  ∧ RunnerName w = lease_RunnerName lease.

(** Only the last start may have left a container, and [w] names its slot. *)
Definition namesLast (lease : Lease) (w : Worker) (starts : list (Host * Z * (error + Slot))) : Prop :=
  ∃ host slot answer earlier, starts = (host, slot, answer) :: earlier ∧ Forall clean earlier
    ∧ named lease (host_ID host) slot w.

(** What the result of a launch says of the starts. *)
Definition accounts (lease : Lease) (r : error + Worker) (starts : list (Host * Z * (error + Slot)))
    : Prop :=
  match r with
  | inr w => namesLast lease w starts
  | inl (PartialLaunchError w _) => namesLast lease w starts
  | inl _ => Forall clean starts
  end.

(** Workers carry the lease they were launched for. *)
Lemma firstNonEmpty_cons v l : v ≠ "" → firstNonEmpty (v :: l) = v.
Proof. intros H. simpl. by destruct (String.eqb_spec v ""). Qed.

Lemma commit_named cfg lease hostID slot started t p :
  lease_ID lease ≠ "" → lease_RunnerName lease ≠ "" →
  named lease hostID slot (commit cfg hostID slot started lease t p).1.
Proof.
  intros H1 H2. unfold commit, slotWorker. cbn [fst slot_LeaseID slot_RunnerName committedSlot].
  rewrite !firstNonEmpty_cons by done. done.
Qed.

Lemma suspect_named lease hostID slot cid t :
  lease_ID lease ≠ "" → lease_RunnerName lease ≠ "" →
  named lease hostID slot (slotWorker hostID slot (mkSlot slot cid "" "" 0 0 "starting" t) (Some lease)).
Proof.
  intros H1 H2. unfold slotWorker. cbn [slot_LeaseID slot_RunnerName from_option].
  change (firstNonEmpty ("" :: ?l)) with (firstNonEmpty l).
  rewrite !firstNonEmpty_cons by done. done.
Qed.

Section launch.
Context {W : Type} {E : PoolEnv W} (cfg : Config) (obs : string).
Context (base : list (Host * Z * (error + Slot))).

Abbreviation Σ := (poolSys W).

(** Others may do anything but start the lease we observe. *)
Definition others (s s' : Σ) : Prop :=
  startsOf obs (ptrace s') = startsOf obs (ptrace s).

#[global] Instance others_preorder : PreOrder others.
Proof. split; [done | intros s1 s2 s3; unfold others; congruence]. Qed.

#[local] Instance anything_pre : PreOrder (anything (W := W)).
Proof. by split. Qed.

(** The starts since those of [base]. *)
Definition starts (l : list (Host * Z * (error + Slot))) (s : Σ) : Prop :=
  startsOf obs (ptrace s) = (l ++ base)%list.

Definition run {A} (P : Σ → Prop) (p : prog Σ A) (Q : A → Σ → Prop) : Prop :=
  spec others anything (λ _, True) P p Q.

Lemma starts_stable l : stableR others (starts l).
Proof. intros s s'. unfold others, starts. congruence. Qed.

(** Programs that start nothing. *)
Definition silent {A} (p : prog Σ A) : Prop := ∀ l, run (starts l) p (λ _, starts l).

Lemma silent_act {A} (op : Σ → A * Σ) :
  (∀ s x s', op s = (x, s') → others s s') → silent (act op).
Proof.
  intros H l. apply spec_act; [apply starts_stable |]. intros s x s' _ Hs Eop.
  split_and!; [done | done |]. specialize (H s x s' Eop). unfold others, starts in *. congruence.
Qed.

Lemma silent_ret {A} (a : A) : silent (mret a).
Proof. intros l. by apply spec_ret. Qed.

Lemma silent_bind {A B} (p : prog Σ A) (f : A → prog Σ B) :
  silent p → (∀ a, silent (f a)) → silent (p ≫= f).
Proof. intros Hp Hf l. eapply spec_bind; [apply Hp |]. intros a. apply Hf. Qed.

Lemma silent_outside {A} (f : W → A * W) : silent (outside f).
Proof. apply silent_act. intros s x s'. destruct (f (pworld s)). by intros [= <- <-]. Qed.

Lemma silent_locked {A} (f : time → Pool → A * Pool) : silent (locked f).
Proof.
  apply silent_act. intros s x s'. destruct (pe_Now (pworld s)) as [t w].
  destruct (f t (pool s)). by intros [= <- <-].
Qed.

(** A critical section answers what its function does. *)
Lemma locked_answers {A} (f : time → Pool → A * Pool) l :
  run (starts l) (locked f) (λ a s, starts l s ∧ ∃ t p, a = (f t p).1).
Proof.
  apply spec_act; [apply starts_stable |]. intros s x s' _ Hs.
  destruct (pe_Now (pworld s)) as [t w]. destruct (f t (pool s)) as [a p] eqn:Ef.
  intros [= <- <-]. split_and!; [done | done | exact Hs |]. exists t, (pool s). by rewrite Ef.
Qed.

Lemma silent_locked2 f : silent (locked2 f).
Proof.
  apply silent_act. intros s x s'. destruct (pe_Now (pworld s)) as [t1 w1].
  destruct (pe_Now w1). by intros [= <- <-].
Qed.

Lemma silent_locked4 f : silent (locked4 f).
Proof.
  apply silent_act. intros s x s'. destruct (pe_Now (pworld s)) as [t1 w1].
  destruct (pe_Now w1) as [t2 w2], (pe_Now w2) as [t3 w3], (pe_Now w3). by intros [= <- <-].
Qed.

Lemma silent_ListSlots host : silent (ListSlots host).
Proof. apply silent_act. intros s x s'. destruct (pe_Slots host (pworld s)). by intros [= <- <-]. Qed.

Create HintDb silent.
#[local] Hint Resolve silent_ret silent_outside silent_locked silent_locked2 silent_locked4
  silent_ListSlots : silent.

Ltac quietly :=
  repeat first
    [ solve [eauto with silent]
    | apply silent_bind; [|intros ?]
    | match goal with
      | |- silent (match ?x with _ => _ end) => destruct x
      | |- silent (if ?x then _ else _) => destruct x
      end ].

Lemma silent_readLateLoop fuel host slot lease answered deadline :
  silent (readLateLoop cfg fuel host slot lease answered deadline).
Proof.
  induction fuel as [|fuel IH]; cbn [readLateLoop]; [|quietly].
  apply silent_act. by intros s x s' [= <- <-].
Qed.

Lemma silent_readLateStart host slot lease err : silent (readLateStart cfg host slot lease err).
Proof. apply silent_bind; [eauto with silent |]. intros t. apply silent_readLateLoop. Qed.
#[local] Hint Resolve silent_readLateStart : silent.

(** Step over a program that starts nothing. *)
Ltac step_silent :=
  eapply spec_bind;
  [ match goal with |- spec _ _ _ _ ?p _ =>
      let H := fresh in
      assert (H : silent p) by (unfold releaseSlot, refuse, section_, now; quietly); apply H
    end |].

(** What [startFailed] answers for an error: it tries again after a clean
    refusal, and otherwise names the slot. *)
Lemma startFailed_run lease host slot err earlier :
  lease_ID lease ≠ "" → lease_RunnerName lease ≠ "" → Forall clean earlier →
  run (starts ((host, slot, inl err) :: earlier)) (startFailed cfg lease host slot err)
    (λ r s, ∃ l, starts l s ∧ match r with
                              | Some result => accounts lease result l
                              | None => Forall clean l
                              end).
Proof.
  intros Hid Hname Hclean. unfold startFailed.
  assert (Hyes : refusedCleanly err → Forall clean ((host, slot, inl err) :: earlier)).
  { intros H. constructor; [|done]. by exists err. }
  unfold refusedCleanly in Hyes.
  assert (Hsome : refusedCleanly err → ∀ s, starts ((host, slot, inl err) :: earlier) s →
    ∃ l, starts l s ∧ Forall clean l) by eauto.
  unfold refusedCleanly in Hsome.
  destruct (errors_is ErrUnreachable err).
  { step_silent. intros []. step_silent. intros []. apply spec_ret. tauto. }
  destruct (IsAgentRefusal err CodeSlotBusy).
  { step_silent. intros []. step_silent. intros []. apply spec_ret. tauto. }
  destruct (_ || _ || _) eqn:E3.
  { rewrite !orb_true_iff in E3. step_silent. intros []. step_silent. intros []. apply spec_ret. tauto. }
  destruct (IsAgentRefusal err CodeInvalid).
  { step_silent. intros []. apply spec_ret. tauto. }
  step_silent. intros [late|].
  - eapply spec_bind; [apply locked_answers |]. intros w. apply spec_ret.
    intros s (Hs & t & p & ->). eexists. split; [exact Hs |]. simpl.
    exists host, slot, (inl err), earlier. split; [done |]. split; [done |]. by apply (commit_named cfg lease (host_ID host) slot _ t p).
  - step_silent. intros t. step_silent. intros []. apply spec_ret.
    intros s Hs. eexists. split; [exact Hs |]. simpl. exists host, slot, (inl err), earlier.
    split; [done |]. split; [done |]. by apply suspect_named.
Qed.

Lemma refuseFull_run lease growing l :
  Forall clean l → run (starts l) (refuseFull cfg growing) (λ r s, ∃ l, starts l s ∧ accounts lease r l).
Proof.
  intros Hl. unfold refuseFull. destruct (negb growing); [apply spec_ret; eauto |].
  step_silent. intros d. apply spec_ret. eauto.
Qed.

Lemma StartSlot_run lease host slot image l :
  lease_ID lease = obs →
  run (starts l) (StartSlot host slot (startRequest cfg lease image))
    (λ answer, starts ((host, slot, answer) :: l)).
Proof.
  intros Hobs. apply spec_act; [apply starts_stable |]. intros s x s' _ Hs.
  destruct (pe_StartSlot _ _ _ (pworld s)) as [a w]. intros [= <- <-]. split_and!; [done | done |].
  unfold starts, startsOf in *. cbn [ptrace logCall omap list_omap]. unfold startOf at 1.
  cbn [fst sr_LeaseID startRequest]. rewrite Hobs, String.eqb_refl. simpl. by f_equal.
Qed.

Lemma attempts_run lease n growing l :
  lease_ID lease = obs → lease_ID lease ≠ "" → lease_RunnerName lease ≠ "" → Forall clean l →
  run (starts l) (attempts cfg n lease growing) (λ r s, ∃ l, starts l s ∧ accounts lease r l).
Proof.
  intros Hobs Hid Hname. revert l. induction n as [|n IH]; intros l Hl; cbn [attempts]; [by apply refuseFull_run |].
  step_silent. intros [[[host slot] image]|]; [|by apply refuseFull_run].
  eapply spec_bind; [by apply StartSlot_run |]. intros [err|started].
  - eapply spec_bind; [by apply startFailed_run |]. intros [result|]; [by apply spec_ret |].
    intros s (l' & Hs & Hl'). by apply (IH l').
  - eapply spec_bind; [apply locked_answers |]. intros w. apply spec_ret.
    intros s (Hs & t & p & ->). eexists. split; [exact Hs |].
    exists host, slot, (inr started), l. split; [done |]. split; [done |]. by apply (commit_named cfg lease (host_ID host) slot _ t p).
Qed.

Lemma launch_run lease growing :
  lease_ID lease = obs →
  run (starts []) (launch cfg lease growing) (λ r s, ∃ l, starts l s ∧ accounts lease r l).
Proof.
  intros Hobs. unfold launch. destruct (_ || _ || _ || _) eqn:Eb.
  { apply spec_ret. intros s Hs. exists []. split; [exact Hs | constructor]. }
  rewrite !orb_false_iff, !String.eqb_neq in Eb. apply attempts_run; [done | tauto.. | constructor].
Qed.

(** A launch starts no other lease. *)
Lemma silent_StartSlot lease host slot image :
  lease_ID lease ≠ obs → silent (StartSlot host slot (startRequest cfg lease image)).
Proof.
  intros Hne. apply silent_act. intros s x s'. destruct (pe_StartSlot _ _ _ (pworld s)) as [a w].
  intros [= <- <-]. unfold others, startsOf. cbn [ptrace logCall omap list_omap]. unfold startOf at 1.
  cbn [fst sr_LeaseID startRequest]. by rewrite (proj2 (String.eqb_neq _ _) Hne).
Qed.

Lemma silent_launch lease growing : lease_ID lease ≠ obs → silent (launch cfg lease growing).
Proof.
  intros Hne. unfold launch. destruct (_ || _ || _ || _); [apply silent_ret |].
  generalize maxStartAttempts as n. intros n.
  assert (Hfull : silent (refuseFull cfg growing)) by (unfold refuseFull; quietly).
  induction n as [|n IH]; cbn [attempts]; [done |].
  apply silent_bind; [eauto with silent |]. intros [[[host slot] image]|]; [|done].
  apply silent_bind; [by apply silent_StartSlot |]. intros [err|started]; [|quietly].
  apply silent_bind; [|intros r; quietly]. unfold startFailed, releaseSlot, refuse, section_, now. quietly.
Qed.
End launch.
