(* ===== verification/PoolAccounts.v ===== *)
(** Host pools, the functional side: worker IDs, the choice of a slot, measured
    time, the overflow window and growth. *)

From S2P Require Import Prelude Program Float64 Provider GoStrings GoText PoolState PoolSections.
From S2P Require Import PoolMaintain Pool PoolSystem PoolFacts.

#[local] Open Scope string_scope.
#[local] Open Scope Z_scope.

(** * Worker IDs *)

Lemma containsByte_digits s : string_forallb digit_byte s = true → containsByte "/" s = false.
Proof.
  induction s as [|c s IH]; simpl; [done |]. rewrite andb_true_iff. intros [Hc Hs].
  rewrite IH by done. by destruct c as [[] [] [] [] [] [] [] []].
Qed.

Lemma parseSlot_digits s : string_forallb digit_byte s = true → parseSlot s = Atoi s.
Proof.
  destruct s as [|c s]; simpl; [done |]. rewrite andb_true_iff. intros [Hc _].
  by destruct c as [[] [] [] [] [] [] [] []].
Qed.

(** A worker ID names its slot: parsing it gives back the host, the slot and
    the lease it was made from, for every host ID a source may list and every
    lease the pool launches. *)
Theorem worker_id_roundtrip hostID slot leaseID :
  invalidHostID hostID = false → leaseID ≠ "" → containsByte "/" leaseID = false →
  0 <= slot <= max_int64 →
  parseWorkerID (WorkerID hostID slot leaseID) = inr (hostID, slot, leaseID).
Proof.
  unfold invalidHostID. rewrite !orb_false_iff, String.eqb_neq. intros [[Hh Hhs] _] Hl Hls Hs.
  destruct (Itoa_digits slot) as [Hd _]; [lia |].
  unfold parseWorkerID, WorkerID.
  change ("/" +:+ Itoa slot +:+ "/" +:+ leaseID) with (String "/" (Itoa slot +:+ String "/" leaseID)).
  rewrite splitOn_app by done. rewrite splitOn_app by (by apply containsByte_digits).
  rewrite splitOn_none by done.
  rewrite (proj2 (String.eqb_neq _ _) Hh), (proj2 (String.eqb_neq _ _) Hl). simpl.
  by rewrite parseSlot_digits, Atoi_Itoa.
Qed.

Lemma worker_id_roundtrip_witness :
  parseWorkerID (WorkerID "hetzner-123" 3 "7f-lease") = inr ("hetzner-123", 3, "7f-lease").
Proof.
  apply (worker_id_roundtrip "hetzner-123" 3 "7f-lease");
    [reflexivity | discriminate | reflexivity | vm_compute; split; discriminate].
Defined.

(** * Choosing a slot *)

Lemma freeSlot_spec h :
  match freeSlot h with
  | Some i => 0 <= i < info_Slots (h_info h) ∧ h_slots h !! i = None ∧ h_reserved h !! i = None
              ∧ ∀ j, 0 <= j < i → is_Some (h_slots h !! j) ∨ is_Some (h_reserved h !! j)
  | None => freeCount h = 0
  end.
Proof.
  unfold freeSlot, freeCount.
  assert (H : ∀ n k, let l := map Z.of_nat (seq k n) in
    match List.find (slotFree h) l with
    | Some i => Z.of_nat k <= i < Z.of_nat (k + n) ∧ slotFree h i = true
                ∧ ∀ j, Z.of_nat k <= j < i → slotFree h j = false
    | None => keep (slotFree h) l = []
    end).
  { induction n as [|n IH]; intros k; simpl; [done |]. destruct (slotFree h (Z.of_nat k)) eqn:Ek.
    { split_and!; [lia | lia | done | lia]. }
    specialize (IH (S k)). simpl in IH. destruct (List.find _ _) as [i|]; [|done].
    destruct IH as (? & ? & Hj). split_and!; [lia | lia | done |].
    intros j Hjk. destruct (decide (j = Z.of_nat k)) as [->|]; [done |]. apply Hj. lia. }
  specialize (H (Z.to_nat (info_Slots (h_info h))) 0%nat). unfold slotIndexes. simpl in H.
  destruct (List.find _ _) as [i|]; [|by rewrite H].
  destruct H as (Hi & Hf & Hj). unfold slotFree in Hf. rewrite andb_true_iff, !bool_decide_eq_true in Hf.
  split_and!; [lia | lia | tauto.. |]. intros j Hji. specialize (Hj j ltac:(lia)).
  unfold slotFree in Hj. rewrite andb_false_iff, !bool_decide_eq_false in Hj.
  rewrite <- !not_eq_None_Some. tauto.
Qed.

Section pool.
Context (cfg : Config).

(** The order of [reserve]: a host on the pool's image before a stale one, then
    the one with fewer free slots, then the older one. *)
Definition before (p : Pool) (h1 h2 : hostState) : Prop :=
  let s1 := stale cfg p (info_Image (h_info h1)) in
  let s2 := stale cfg p (info_Image (h_info h2)) in
  s1 = false ∧ s2 = true
  ∨ s1 = s2 ∧ (freeCount h1 < freeCount h2
               ∨ freeCount h1 = freeCount h2
                 ∧ host_CreatedAt (h_host h1) <= host_CreatedAt (h_host h2)).

Lemma before_refl p h : before p h h.
Proof. right. split; [done |]. right. split; [done | lia]. Qed.

Lemma before_trans p h1 h2 h3 : before p h1 h2 → before p h2 h3 → before p h1 h3.
Proof.
  unfold before. intros [[-> ->]|[-> H12]] [[H E]|[E H23]]; try rewrite E; try rewrite H; auto; try congruence.
  right. split; [congruence |]. lia.
Qed.

Definition eligible (now : time) (h : hostState) : Prop :=
  takesLeases cfg h now = true ∧ freeCount h ≠ 0.

Lemma pickBest_best now p best x :
  match pickBest cfg now p best x with
  | Some b => (∀ b0, best = Some b0 → before p b.2 b0.2) ∧ (eligible now x.2 → before p b.2 x.2)
  | None => best = None ∧ ~ eligible now x.2
  end.
Proof.
  unfold pickBest, eligible. destruct (takesLeases cfg x.2 now) eqn:Et; simpl.
  2:{ destruct best as [b|]; [|naive_solver]. split; [|naive_solver].
      intros b0 [= <-]. apply before_refl. }
  destruct (Z.eqb_spec (freeCount x.2) 0) as [Ef|Ef].
  { destruct best as [b|]; [|naive_solver]. split; [|naive_solver].
    intros b0 [= <-]. apply before_refl. }
  destruct best as [b|]; [|split; [done | intros; apply before_refl]].
  unfold before. set (s1 := stale cfg p (info_Image (h_info x.2))).
  set (s2 := stale cfg p (info_Image (h_info b.2))).
  destruct (_ || _) eqn:Ec; (split; [intros b0 [= <-] | intros _]); try apply before_refl;
    fold s1 s2; destruct s1, s2; simpl in Ec; breflect; try lia; auto.
  all: unfold before; fold s1 s2; try lia; auto.
Qed.

Lemma bestHost_fold now p l best :
  match fold_left (pickBest cfg now p) l best with
  | Some b => (∀ b0, best = Some b0 → before p b.2 b0.2)
              ∧ ∀ x, x ∈ l → eligible now x.2 → before p b.2 x.2
  | None => best = None ∧ ∀ x, x ∈ l → ~ eligible now x.2
  end.
Proof.
  revert best. induction l as [|x l IH]; intros best; simpl.
  { destruct best as [b|]; [|split; [done | by intros ? ?%elem_of_nil]].
    split; [intros b0 [= <-]; apply before_refl | by intros ? ?%elem_of_nil]. }
  pose proof (pickBest_best now p best x) as Hx. specialize (IH (pickBest cfg now p best x)).
  destruct (fold_left _ l _) as [b|].
  - destruct IH as [H1 H2]. destruct (pickBest cfg now p best x) as [b1|].
    + specialize (H1 b1 eq_refl). destruct Hx as [Hb Hxx]. split.
      * intros b0 Hb0. by eapply before_trans; [|apply Hb].
      * intros y [->|Hy]%elem_of_cons He; [|by apply H2]. by eapply before_trans; [|apply Hxx].
    + destruct Hx as [-> Hne]. split; [done |]. intros y [->|Hy]%elem_of_cons He; [done | by apply H2].
  - destruct IH as [Hn H2]. rewrite Hn in Hx. destruct Hx as [-> Hne]. split; [done |].
    intros y [->|Hy]%elem_of_cons; [done | by apply H2].
Qed.

(** A launch gets the best slot there is.  [reserve] refuses only when no
    host that takes leases has a free slot; otherwise it takes the lowest free
    slot of a host that comes before every other one with room (on the pool's
    image, then the fewest free slots, then the oldest), and the slot is
    reserved for the lease. *)
Theorem reserve_best leaseID now p :
  match reserve cfg leaseID now p with
  | (None, p') => p' = p ∧ ∀ id h, p_hosts p !! id = Some h → takesLeases cfg h now = true → freeCount h = 0
  | (Some (host, slot, image), p') =>
    ∃ id h, p_hosts p !! id = Some h ∧ host = h_host h ∧ image = info_Image (h_info h)
      ∧ takesLeases cfg h now = true
      ∧ (0 <= slot < info_Slots (h_info h) ∧ h_slots h !! slot = None ∧ h_reserved h !! slot = None)
      ∧ (∀ j, 0 <= j < slot → is_Some (h_slots h !! j) ∨ is_Some (h_reserved h !! j))
      ∧ (∀ id' h', p_hosts p !! id' = Some h' → eligible now h' → before p h h')
      ∧ ∃ h', p_hosts p' !! id = Some h' ∧ h_reserved h' = <[slot := leaseID]> (h_reserved h)
  end.
Proof.
  unfold reserve. pose proof (bestHost_fold now p (sortedHosts p) None) as Hf. fold (bestHost cfg now p) in Hf.
  destruct (bestHost cfg now p) as [[id h]|] eqn:Eb.
  - destruct Hf as [_ Hf]. apply bestHost_takes in Eb as (Hh & Ht & Hfree).
    pose proof (freeSlot_spec h) as Hs. destruct (freeSlot h) as [slot|]; [|lia].
    destruct Hs as (Hr & Hs1 & Hs2 & Hlow). exists id, h. simpl. split_and!; try done; try lia.
    + intros id' h' Hh' He. apply (Hf (id', h')); [|done]. by apply elem_of_sortedHosts.
    + eexists. split; [by rewrite lookup_fmap, lookup_insert_eq | done].
  - destruct Hf as [_ Hf]. split; [done |]. intros id h Hh Ht.
    destruct (decide (freeCount h = 0)) as [|Hne]; [done |].
    exfalso. apply (Hf (id, h)); [by apply elem_of_sortedHosts | done].
Qed.

(** * Growth *)

Definition isCreate (g : goroutine) : bool := match g with goCreate _ _ => true | goStart _ => false end.

Lemma startStopped_spec now n gos p n' gos' p' :
  startStopped cfg now n gos p = (n', gos', p') →
  size (p_hosts p') = size (p_hosts p)
  ∧ (∃ l, gos' = (gos ++ map goStart l)%list ∧ (n' + length l = n)%nat)
  ∧ (n' ≠ O → startable cfg now p' = None) ∧ createSeq p' = createSeq p ∧ createNotBefore p' = createNotBefore p.
Proof.
  revert gos p. induction n as [|n IH]; intros gos p; cbn [startStopped].
  { intros [= <- <- <-]. split_and!; try done. exists []. by rewrite app_nil_r. }
  destruct (startable cfg now p) as [[id h]|] eqn:Es.
  - intros H. destruct (IH _ _ H) as (Hsize & (l & -> & Hl) & ? & ? & ?).
    apply startable_stopped in Es as (Hh & _). split_and!; [| |done..].
    + rewrite Hsize. simpl. rewrite map_size_insert, Hh. simpl. lia.
    + exists (host_ID (h_host h) :: l). split; [by rewrite <- app_assoc | simpl; lia].
  - intros [= <- <- <-]. split_and!; try done. exists []. split; [by rewrite app_nil_r | simpl; lia].
Qed.

Lemma createHosts_spec now n gos p gos' p' :
  createHosts now n gos p = (gos', p') →
  (size (p_hosts p') <= size (p_hosts p) + n)%nat
  ∧ ∃ l, gos' = (gos ++ l)%list ∧ length l = n ∧ Forall (λ g, isCreate g = true) l.
Proof.
  revert gos p. induction n as [|n IH]; intros gos p; cbn [createHosts].
  { intros [= <- <-]. split; [lia |]. exists []. by rewrite app_nil_r. }
  intros H. destruct (IH _ _ H) as (Hsize & l & -> & Hl & HF). split.
  - etrans; [exact Hsize |]. simpl. rewrite map_size_insert. destruct (_ !! _); simpl; lia.
  - eexists (_ :: l). split; [by rewrite <- app_assoc |]. split; [simpl; lia | by constructor].
Qed.

Lemma keep_starts (l : list string) : keep isCreate (map goStart l) = [].
Proof. induction l; simpl; auto. Qed.

Lemma countPhases_nonneg p : 0 <= (countPhases p).1.
Proof.
  unfold countPhases. generalize (map_to_list (p_hosts p)) as l. intros l.
  enough (H : ∀ a b, 0 <= a → 0 <= (fold_left (λ acc x, let '(active, pending) := acc in
    match h_phase (x : string * hostState).2 with
    | phaseCreating | phaseStarting => (active + 1, pending + 1)
    | phaseBooting => (active + 1, if everReady x.2 then pending else pending + 1)
    | phaseReady => (active + 1, pending)
    | _ => acc
    end) l (a, b)).1) by (by apply H).
  induction l as [|x l IH]; intros a b Ha; simpl; [done |].
  destruct (h_phase x.2); apply IH; lia.
Qed.

(** A growth pass respects [max_hosts] and prefers what it already has.  It
    never takes the pool above [max_hosts], creates nothing within the backoff
    of a failed creation or while a stopped host could be started, and starts
    and creates no more hosts together than [min_hosts] or one overflow asks
    for. *)
Theorem grow_within_bounds now p gos p' :
  grow cfg now p = (gos, p') →
  let creations := length (keep isCreate gos) in
  Z.of_nat (size (p_hosts p')) <= Z.max (Z.of_nat (size (p_hosts p))) (MaxHosts cfg)
  ∧ Z.of_nat (length gos) <= Z.max (MinHosts cfg) 1
  ∧ (demand p = 0 → Z.of_nat (length gos) <= Z.max 0 (MinHosts cfg - (countPhases p).1))
  ∧ (creations ≠ O → createNotBefore p <= now
     ∧ ∃ q, startable cfg now q = None ∧ size (p_hosts q) = size (p_hosts p)).
Proof.
  unfold grow. pose proof (countPhases_nonneg p) as Hact. destruct (countPhases p) as [active pending].
  simpl in Hact. match goal with |- context [startStopped cfg now (Z.to_nat ?w) [] ?q] =>
    set (want := w); destruct (startStopped cfg now (Z.to_nat want) [] q) as [[n gos0] q1] eqn:Es end.
  assert (Hwant : want <= Z.max (MinHosts cfg) 1 ∧ (demand p = 0 → want <= Z.max 0 (MinHosts cfg - active))).
  { subst want. destruct (_ && _) eqn:Ew; [|lia]. breflect. lia. }
  apply startStopped_spec in Es as (Hsize & (l & -> & Hn) & Hnone & _ & Hnb). simpl in Hsize, Hnb.
  destruct (createHosts _ _ _ _) as [gos1 p1] eqn:Ec. intros [= <- <-].
  apply createHosts_spec in Ec as (Hsize1 & l1 & -> & Hl1 & HF).
  rewrite app_nil_l, keep_app, !length_app, length_map, keep_starts, (keep_all isCreate l1)
    by (by apply Forall_forall).
  destruct (Before now (createNotBefore q1)) eqn:Eb; breflect.
  - simpl in Hl1. split_and!; simpl; try lia.
  - split_and!; simpl; try lia. intros Hc. split; [lia |]. exists q1. split; [|done].
    apply Hnone. lia.
Qed.

End pool.

Lemma grow_within_bounds_witness :
  let p := PoolDemo.demoPool |> set_demand 1 in
  Z.of_nat (length (grow PoolDemo.demoCfg PoolDemo.t0 p).1) <= 1
  ∧ (grow PoolDemo.demoCfg PoolDemo.t0 p).1 = [goCreate "creating-1" "image:1"].
Proof.
  intros p. split; [|vm_compute; reflexivity].
  destruct (grow_within_bounds PoolDemo.demoCfg PoolDemo.t0 p _ _ (surjective_pairing _)) as (_ & H & _).
  exact H.
Defined.

(** * Measured time *)

(** The time a flag was set, for readings in order: the flag as it was recorded
    at [at_], then the flag recorded at each later time. *)
Fixpoint timeOn (at_ : time) (on : bool) (l : list (time * bool)) : duration :=
  match l with
  | [] => 0
  | (t, on') :: l => (if on then Z.max 0 (t - at_) else 0) + timeOn (Z.max at_ t) on' l
  end.

(** A change of a host, and the accrual after it. *)
Definition meterStep (h : hostState) (x : time * Z * (hostState → hostState)) : hostState :=
  let '(t, seen, change) := x in accrueHost seen t (change h).

(** The host after each change. *)
Fixpoint states (h : hostState) (l : list (time * Z * (hostState → hostState)))
    : list (time * hostState) :=
  match l with
  | [] => []
  | x :: l => (x.1.1, meterStep h x) :: states (meterStep h x) l
  end.

Definition isRunning (h : hostState) : bool := negb (IsZero (runningSince h)).
Definition isServing (h : hostState) : bool := isRunning h && phase_eqb (h_phase h) phaseReady.
Definition flags (f : hostState → bool) (l : list (time * hostState)) : list (time * bool) :=
  map (λ x, (x.1, f x.2)) l.

(** The meter of a host that was last accrued as it is. *)
Definition recorded (h : hostState) : Prop :=
  m_running (h_meter h) = isRunning h ∧ m_ready (h_meter h) = isServing h.

Lemma meter_fold lo l h :
  0 < lo → Forall (λ x, lo <= x.1.1 <= lo + max_int64 ∧ ∀ h, h_meter (x.2 h) = h_meter h) l →
  lo <= m_at (h_meter h) <= lo + max_int64 → recorded h →
  let u := m_used (h_meter h) in let u' := m_used (h_meter (fold_left meterStep l h)) in
  u_running u' = u_running u + timeOn (m_at (h_meter h)) (isRunning h) (flags isRunning (states h l))
  ∧ u_ready u' = u_ready u + timeOn (m_at (h_meter h)) (isServing h) (flags isServing (states h l)).
Proof.
  intros Hlo. revert h. induction l as [|[[t seen] change] l IH]; intros h HF Hat [Hr Hs]; [simpl; lia |].
  apply Forall_cons in HF as [[Ht Hm] HF]. simpl in Ht, Hm.
  cbn zeta. cbn [fold_left states flags map timeOn fst snd]. set (h1 := meterStep h (t, seen, change)).
  assert (Hat1 : m_at (h_meter h1) = Z.max (m_at (h_meter h)) t).
  { unfold h1, meterStep, accrueHost. simpl. rewrite Hm. destruct (After _ _) eqn:Ea; breflect; lia. }
  assert (Hused : u_running (m_used (h_meter h1)) = u_running (m_used (h_meter h))
      + (if isRunning h then Z.max 0 (t - m_at (h_meter h)) else 0)
    ∧ u_ready (m_used (h_meter h1)) = u_ready (m_used (h_meter h))
      + (if isServing h then Z.max 0 (t - m_at (h_meter h)) else 0)).
  { unfold h1, meterStep, accrueHost. simpl. rewrite Hm. unfold accrueUsed.
    rewrite Sub_exact by (unfold in_int64, max_int64, min_int64 in *; lia). rewrite Hr, Hs.
    destruct (_ && _) eqn:Ee; unfold isServing in *; destruct (isRunning h), (phase_eqb _ _);
      simpl; breflect; lia. }
  destruct (IH h1 HF ltac:(lia)) as [E1 E2]; [done |]. unfold flags in E1, E2. rewrite E1, E2, Hat1.
  destruct Hused as [-> ->]. lia.
Qed.

Lemma timeOn_mono l at_ (h : hostState) :
  0 <= timeOn at_ (isServing h) (flags isServing l) <= timeOn at_ (isRunning h) (flags isRunning l).
Proof.
  revert at_ h. induction l as [|[t h'] l IH]; intros at_ h; simpl; [lia |].
  specialize (IH (Z.max at_ t) h'). unfold isServing in *.
  destruct (isRunning h), (phase_eqb (h_phase h) phaseReady); simpl; lia.
Qed.

(** The measured time is the time.  From the first accrual of a new host on,
    through any changes of its state, each followed by an accrual, the running
    seconds are exactly the time between accruals at which the host was running,
    the ready seconds the time at which it was also ready, and a clock that
    steps back adds nothing. *)
Theorem usage_measures_time host ph seen0 t1 seen1 change1 l lo :
  let first := newHostState host ph seen0 in
  0 < lo → lo <= t1 <= lo + max_int64 → (∀ h, h_meter (change1 h) = h_meter h) →
  Forall (λ x, lo <= x.1.1 <= lo + max_int64 ∧ ∀ h, h_meter (x.2 h) = h_meter h) l →
  let h1 := meterStep first (t1, seen1, change1) in
  let used := m_used (h_meter (fold_left meterStep l h1)) in
  u_running used = timeOn t1 (isRunning h1) (flags isRunning (states h1 l))
  ∧ u_ready used = timeOn t1 (isServing h1) (flags isServing (states h1 l))
  ∧ 0 <= u_ready used <= u_running used.
Proof.
  intros first Hlo Ht1 Hc HF h1 used.
  assert (Hm : h_meter (change1 first) = noMeter) by by rewrite Hc.
  assert (Hat : m_at (h_meter h1) = t1).
  { unfold h1, meterStep, accrueHost. simpl. rewrite Hm. simpl.
    destruct (After _ _) eqn:Ea; breflect; unfold zeroTime in *; lia. }
  assert (Hu : m_used (h_meter h1) = noUsage).
  { unfold h1, meterStep, accrueHost. simpl. by rewrite Hm. }
  destruct (meter_fold lo l h1 Hlo HF) as [Hr Hs]; [by rewrite Hat | done |].
  fold used in Hr, Hs. rewrite Hu, Hat in Hr, Hs. rewrite Hr, Hs.
  pose proof (timeOn_mono (states h1 l) t1 h1). simpl. lia.
Qed.

Lemma usage_measures_time_witness :
  let change ph := set_phase ph in
  let start h := h |> set_runningSince 100 |> set_phase phaseReady in
  let l := [(160, 2, change phaseDraining); (220, 2, set_runningSince zeroTime); (500, 2, change phaseStopped)] in
  let h1 := meterStep (newHostState noHost phaseBooting 100) (100, 2, start) in
  let used := m_used (h_meter (fold_left meterStep l h1)) in
  u_running used = 120 ∧ u_ready used = 60.
Proof.
  intros change start l h1 used.
  destruct (usage_measures_time noHost phaseBooting 100 100 2 start l 1) as (Hr & Hs & _);
    [lia | unfold max_int64; lia | reflexivity | repeat constructor; simpl; unfold max_int64; lia |].
  fold h1 in Hr, Hs. fold used in Hr, Hs. rewrite Hr, Hs. vm_compute. split; reflexivity.
Defined.

(** * The overflow window *)

(** The launches, oldest first: when, and whether the pool was full. *)
Definition recordLaunches (events : list (time * bool)) : poolHealth :=
  fold_left (λ s e, count e.1 e.2 s) events noPoolHealth.

(** A launch counts for an hour from the start of its five minutes. *)
Definition counted (now : time) (e : time * bool) : bool :=
  Sub now (Truncate e.1 overflowBucket) <? overflowWindow.

Definition tally (now : time) (over : bool) (events : list (time * bool)) : Z :=
  Z.of_nat (length (keep (λ e, counted now e && Bool.eqb e.2 over) events)).

Definition inBuckets (now : time) (over : bool) (buckets : list launchBucket) : Z :=
  sumZ (if over then lb_overflowed else lb_launched) (keep (inWindow now) buckets).

Lemma rollWindow_last now buckets :
  ∃ l b, rollWindow now buckets = (l ++ [b])%list ∧ lb_start b = Truncate now overflowBucket.
Proof.
  unfold rollWindow. destruct (last buckets) as [b|] eqn:El; [|by exists [], (mkLaunchBucket (Truncate now overflowBucket) 0 0)].
  destruct (Z.eqb_spec (lb_start b) (Truncate now overflowBucket)) as [Es|]; [|by eexists _, _].
  apply last_Some in El as [l ->]. by exists l, b.
Qed.

Lemma bumpLast_app over l b : bumpLast over (l ++ [b]) = (l ++ [bumpBucket over b])%list.
Proof.
  induction l as [|x l IH]; simpl; [done |]. rewrite IH. by destruct l.
Qed.

(** Buckets dropped now are outside the window for good. *)
Lemma rollWindow_same t now over buckets :
  t <= now → inBuckets now over (rollWindow t buckets) = inBuckets now over buckets.
Proof.
  intros Ht. unfold rollWindow, inBuckets. set (fresh := mkLaunchBucket _ 0 0).
  assert (Hf : ∀ l, sumZ (if over then lb_overflowed else lb_launched) (keep (inWindow now) (l ++ [fresh]))
    = sumZ (if over then lb_overflowed else lb_launched) (keep (inWindow now) l)).
  { intros l. rewrite keep_app, sumZ_app. simpl. destruct (inWindow now fresh), over; simpl; lia. }
  destruct (last buckets) as [b|] eqn:El.
  - destruct (lb_start b =? _); [done |]. rewrite Hf, keep_keep. f_equal. apply keep_ext. intros x _.
    unfold inWindow. pose proof (Sub_mono t now (lb_start x) Ht).
    destruct (Z.ltb_spec (Sub t (lb_start x)) overflowWindow); [done |].
    simpl. symmetry. apply Z.ltb_ge. lia.
  - apply last_None in El as ->. apply (Hf []).
Qed.

Lemma count_window now t o over s :
  t <= now →
  inBuckets now over (window (count t o s))
  = inBuckets now over (window s) + (if counted now (t, o) && Bool.eqb o over then 1 else 0).
Proof.
  intros Ht. rewrite <- (rollWindow_same t now over (window s) Ht).
  replace (window (count t o s)) with (bumpLast o (rollWindow t (window s)))
    by (unfold count; by destruct o).
  destruct (rollWindow_last t (window s)) as (l & b & -> & Hb). rewrite bumpLast_app.
  unfold inBuckets. rewrite !keep_app, !sumZ_app. unfold counted. simpl. rewrite <- Hb.
  assert (Hw : inWindow now (bumpBucket o b) = inWindow now b) by (by destruct o). rewrite Hw.
  fold (inWindow now b). destruct (inWindow now b), o, over; simpl; lia.
Qed.

(** The overflow report counts what happened.  For launches recorded up to
    now, in any order, what [recent] sums from its five-minute buckets is the
    number of launches taken, and refused as full, that count at that time:
    those whose five minutes began less than an hour before. *)
Theorem recent_counts_launches events now :
  (∀ e, e ∈ events → e.1 <= now) →
  recent now (recordLaunches events) = (tally now false events, tally now true events).
Proof.
  intros Hnow. unfold recent. fold (inBuckets now false (window (recordLaunches events))).
  fold (inBuckets now true (window (recordLaunches events))).
  enough (H : ∀ over, inBuckets now over (window (recordLaunches events)) = tally now over events)
    by (by rewrite !H).
  intros over. unfold recordLaunches, tally. induction events as [|[t o] events IH] using rev_ind; [done |].
  rewrite fold_left_app. simpl. rewrite count_window by (apply (Hnow (t, o)); set_solver).
  rewrite IH by set_solver. rewrite keep_app, length_app. simpl.
  destruct (counted now (t, o) && Bool.eqb o over); simpl; lia.
Qed.

Lemma recent_counts_launches_witness :
  let t := 63000000000 * Second in
  let events := [(t, true); (t + Minute, false); (t + 50 * Minute, true); (t + 61 * Minute, true)] in
  recent (t + 62 * Minute) (recordLaunches events) = (0, 2).
Proof.
  intros t events. rewrite (recent_counts_launches events (t + 62 * Minute)).
  - vm_compute. reflexivity.
  - intros e He. unfold events in He. rewrite !elem_of_cons, elem_of_nil in He.
    destruct He as [->|[->|[->|[->|[]]]]]; simpl; unfold Minute; lia.
Defined.
