(* ===== verification/PoolTheorems.v ===== *)
(** What host pools guarantee. *)

From S2P Require Import Prelude Program Float64 Provider GoStrings PoolState PoolSections PoolMaintain.
From S2P Require Import Pool PoolSystem PoolFacts PoolSpecs PoolLaunch.

#[local] Open Scope Z_scope.

Section runs.
Context {W : Type} {E : PoolEnv W} (cfg : Config).

(** A pass that nothing interrupts. *)
Lemma maintenance_run (m : prog (poolSys W) ()) s ts :
  rtc (step cfg) (mkSystem s ts m) (mkSystem (execP m s) ts (Ret ())).
Proof.
  unfold execP. revert s. induction m as [[]|X op k IH]; intros s; simpl; [done |].
  destruct (op s) as [x s'] eqn:Eop. eapply rtc_l; [|apply (IH x s')].
  apply step_maintenance. simpl. by rewrite Eop.
Qed.
End runs.

(** The demonstration's passes are runs of the system. *)
Lemma demo_reachable n :
  reachable PoolDemo.demoCfg PoolDemo.demoPool (0, []) (mkSystem (PoolDemo.after n) [] (Ret ())).
Proof.
  unfold reachable, initial, PoolDemo.after. generalize (mkPoolSys PoolDemo.demoPool (0, @nil Slot) [] []).
  induction n as [|n IH]; intros s; simpl; [done |].
  eapply rtc_l; [apply step_tick |]. etrans; [apply maintenance_run | apply IH].
Qed.

Lemma new_keyed conf t0 cfg p : New conf t0 = inr (cfg, p) → keyed (p_hosts p).
Proof.
  unfold New. intros H. case_bool. intros id h. simpl. by rewrite lookup_empty.
Qed.

(** * Returning hosts *)

(** The end of candidate [c]: the host is deleted or stopped. *)
Definition ends (c : returnCandidate) (e : call) : Prop :=
  ∃ answer, e = CDelete c answer ∧ rc_stop c = false ∨ e = CStop c answer ∧ rc_stop c = true.

(** C6: A pool never takes a host away from a job.  With any number of launches,
    inventories and removals in progress, a host is deleted or stopped only
    after a maintenance pass selected it, in a state where one of these held: it
    was ready, beyond [min_hosts] and not owned, or draining, with no runner and
    no reservation; it was already stopped; it never became ready within the
    boot timeout; or it had been silent for longer than any job may run.  In the
    first case its agent answered, after it had stopped taking leases, that no
    slot is in use, and it got no reservation since. *)
Theorem returns_idle_hosts {W} `{!PoolEnv W} conf t0 cfg p w y c e q later earlier :
  New conf t0 = inr (cfg, p) → reachable cfg p w y →
  ptrace (sys y) = later ++ (e, q) :: earlier → ends c e →
  ∃ since now all p0 rest i h,
    earlier = since ++ (CSelect now all, p0) :: rest ∧ c ∈ all
    ∧ p_hosts p0 !! i = Some h ∧ h_host h = rc_host c
    ∧ (∀ h', p_hosts q !! host_ID (rc_host c) = Some h' → h_phase h' ≠ phaseReady)
    ∧ ((h_phase h = phaseReady ∧ i ∉ baseHosts cfg p0 ∧ Billing (SourceFacts cfg) ≠ BillingOwned
        ∨ h_phase h = phaseDraining)
       ∧ h_slots h = ∅ ∧ h_reserved h = ∅
       ∧ (∃ q1, (CSlots (rc_host c) (inr []), q1) ∈ since
            ∧ ∀ h', p_hosts q1 !! host_ID (rc_host c) = Some h' → resting h')
       ∧ (∀ h', p_hosts q !! host_ID (rc_host c) = Some h' → resting h')
       ∨ h_phase h = phaseStopped
       ∨ h_phase h = phaseBooting ∧ ownBoot h = true ∧ everReady h = false
         ∧ BootTimeout cfg < Sub now (firstNonZero [bootSince h; host_CreatedAt (h_host h)])
       ∨ wrap64 (MaxLifetime cfg + UnreachableGrace cfg)
           < Sub now (latest [lastContact h; firstSeen h; bootSince h])).
Proof.
  intros Hnew Hr Htr He. apply new_keyed in Hnew.
  destruct (reachable_Inv cfg p w y Hnew Hr) as [_ HT]. rewrite Htr in HT.
  pose proof (traceOK_entry cfg _ _ _ _ HT eq_refl) as Hentry.
  assert (Hc : asked c earlier ∧ held c q).
  { destruct He as [answer [[-> _]|[-> _]]]; apply Hentry. }
  destruct Hc as [(since & (now & all & p0 & rest & Heq & Hin) & Hconf) Hheld].
  assert (HS : entryOK cfg rest (CSelect now all, p0)).
  { eapply (traceOK_entry cfg _ (later ++ (e, q) :: since) _ rest HT). by rewrite Heq, <- !app_assoc. }
  destruct HS as [Hkey Hall]. simpl in Hkey, Hall. subst all.
  destruct (returnCandidates_selects cfg now p0) as (ids & _ & HF).
  apply list_elem_of_lookup_1 in Hin as [k Hk].
  destruct (Forall2_lookup_r _ _ _ _ _ HF Hk) as (i & _ & h & h' & Hh & Hdue & Hhost & Hprev & _).
  exists since, now, (returnCandidates cfg now p0).1, p0, rest, i, h.
  split_and!; [done | by eapply list_elem_of_lookup_2 | done | done | by intros h2 Hh2; apply Hheld |].
  destruct (needsConfirmation c) eqn:En.
  - left. destruct (due_confirmed cfg now p0 i h c Hdue Hprev En) as (Hphase & Hs & Hres & _).
    destruct (Hconf eq_refl) as (q1 & Hq1 & Hh1). split_and!; [tauto | done | done | |].
    + exists q1. split; [done |]. intros h2 Hh2. destruct (Hh1 h2 Hh2). split; auto.
    + intros h2 Hh2. destruct (Hheld h2 Hh2). split; auto.
  - right. apply (due_unconfirmed cfg now p0 i h c Hdue Hprev); [|done]. by destruct (Hkey i h Hh) as [_ [_ ?]].
Qed.

Lemma returns_idle_hosts_witness :
  ∃ c q earlier, ptrace (PoolDemo.after 3) = [] ++ (CDelete c None, q) :: earlier
    ∧ ∃ since now all p0 rest i h,
        earlier = since ++ (CSelect now all, p0) :: rest ∧ c ∈ all
        ∧ p_hosts p0 !! i = Some h ∧ h_host h = rc_host c.
Proof.
  assert (Hd : ∃ c q earlier, ptrace (PoolDemo.after 3) = [] ++ (CDelete c None, q) :: earlier
    ∧ rc_stop c = false) by (do 3 eexists; split; vm_compute; reflexivity).
  destruct Hd as (c & q & earlier & Htr & Hs). exists c, q, earlier. split; [exact Htr |].
  destruct (returns_idle_hosts PoolDemo.demoConfig PoolDemo.t0 PoolDemo.demoCfg PoolDemo.demoPool
    (0, []) (mkSystem (PoolDemo.after 3) [] (Ret ())) c (CDelete c None) q [] earlier)
    as (since & now & all & p0 & rest & i & h & ? & ? & ? & ? & _).
  - vm_compute. reflexivity.
  - apply demo_reachable.
  - exact Htr.
  - exists None. left. split; [reflexivity | exact Hs].
  - exists since, now, all, p0, rest, i, h. auto.
Defined.

(** * Launching *)

(** C7: A launch accounts for every container it may have started.  However it
    is interleaved with other threads, a worker it returns, or hands back as a
    partial launch, names the host, slot and lease of its last start, and every
    earlier start was refused cleanly; any other error says that all its starts
    were refused cleanly, so nothing of the lease is left in the pool. *)
Theorem launch_accounts_starts {W} `{!PoolEnv W} cfg lease growing s r s' :
  interleaved (others (lease_ID lease)) (launch cfg lease growing) s r s' →
  ∃ l, startsOf (lease_ID lease) (ptrace s') = l ++ startsOf (lease_ID lease) (ptrace s)
       ∧ accounts lease r l.
Proof.
  intros Hr.
  eapply (interleaved_spec _ _ _ _ _ _ _ _
    (launch_run cfg _ (startsOf (lease_ID lease) (ptrace s)) lease growing eq_refl)); [|done | exact Hr].
  intros a s1 s2 HR (l & Hl & Ha). exists l. split; [|done]. by eapply starts_stable.
Qed.

Lemma launch_accounts_starts_witness :
  let lease := mkLease "lease-1" "runner-1" 7 1 "jit" zeroTime 0 in
  let r := evalP (launch PoolDemo.demoCfg lease true) (PoolDemo.after 1) in
  let s' := execP (launch PoolDemo.demoCfg lease true) (PoolDemo.after 1) in
  (∃ l, startsOf "lease-1" (ptrace s') = l ++ startsOf "lease-1" (ptrace (PoolDemo.after 1))
        ∧ accounts lease r l)
  ∧ ∃ w, r = inr w ∧ ID w = "host-1/0/lease-1"%string.
Proof.
  intros lease r s'. split; [|by eexists; split; vm_compute; reflexivity].
  exact (launch_accounts_starts PoolDemo.demoCfg lease true (PoolDemo.after 1) r s'
    (interleaved_alone (others "lease-1") (launch PoolDemo.demoCfg lease true) (PoolDemo.after 1))).
Defined.
