(* ===== verification/Placement.v ===== *)
(** Placement (src/pool/placement.go): tiers tried in order, worker IDs that
    carry the tier's name, and the contract a tier keeps with its caller.

    A compute is a record of programs over a shared state, as the interface
    [provider.Compute] is of methods; a pool's side of speculative launches is
    the optional [spareTier].  Tiers that the source asks in parallel are asked
    in order: each acts on its own part of the state. *)

From S2P Require Import Prelude Program Provider GoStrings GoText PoolState PoolSections.

#[local] Open Scope string_scope.
#[local] Open Scope Z_scope.

(** [spareTier]: [freeSlots], [launchSpare], [speculative] *)
Record spareTier (Σ : Type) := mkSpareTier {
  sp_freeSlots : prog Σ Z;
  sp_launchSpare : Lease → prog Σ (error + Worker);
  sp_speculative : bool
}.
Arguments mkSpareTier {Σ}.
Arguments sp_freeSlots {Σ}.
Arguments sp_launchSpare {Σ}.
Arguments sp_speculative {Σ}.

(** [provider.Compute], and whether it is also a [spareTier]. *)
Record compute (Σ : Type) := mkCompute {
  cm_Launch : Lease → prog Σ (error + Worker);
  cm_Inventory : prog Σ (error + list Worker);
  cm_Destroy : string → prog Σ (option error);
  cm_spare : option (spareTier Σ)
}.
Arguments mkCompute {Σ}.
Arguments cm_Launch {Σ}.
Arguments cm_Inventory {Σ}.
Arguments cm_Destroy {Σ}.
Arguments cm_spare {Σ}.

Record Tier (Σ : Type) := mkTier { tier_Name : string; tier_Compute : compute Σ; tier_Drain : bool }.
Arguments mkTier {Σ}.
Arguments tier_Name {Σ}.
Arguments tier_Compute {Σ}.
Arguments tier_Drain {Σ}.

(** [byName] is a lookup in [pl_tiers], whose names are unique. *)
Record Placement (Σ : Type) := mkPlacement {
  pl_tiers : list (Tier Σ);
  pl_spare : list (string * spareTier Σ)
}.
Arguments mkPlacement {Σ}.
Arguments pl_tiers {Σ}.
Arguments pl_spare {Σ}.

(** [tier.Name + ":" + id] *)
Definition tierID (name id : string) : string := name +:+ ":" +:+ id.

Definition withID (id : string) (w : Worker) : Worker :=
  mkWorker id (LeaseID w) (RunnerName w) (RunnerID w) (RunnerScaleSetID w) (State w) (CreatedAt w).

Definition inTier (name : string) (w : Worker) : Worker := withID (tierID name (ID w)) w.

(** [partial.Worker.ID = tier.Name + ":" + partial.Worker.ID], where [errors.As]
    finds the partial launch. *)
Fixpoint relabelPartial (name : string) (e : error) : error :=
  match e with
  | PartialLaunchError w i => PartialLaunchError (if String.eqb (ID w) "" then w else inTier name w) i
  | WrapError m i => WrapError m (relabelPartial name i)
  | TransientError i => TransientError (relabelPartial name i)
  | CapacityError r d i => CapacityError r d (relabelPartial name i)
  | launchRejectedError r i => launchRejectedError r (relabelPartial name i)
  | handlerFailure i => handlerFailure (relabelPartial name i)
  | UrlError i => UrlError (relabelPartial name i)
  | JoinError es =>
      JoinError ((fix go es := match es with
                               | [] => []
                               | x :: es => match errors_as as_partial x with
                                            | Some _ => relabelPartial name x :: es
                                            | None => x :: go es
                                            end
                               end) es)
  | _ => e
  end.

Definition isPartial (e : error) : bool := bool_decide (is_Some (errors_as as_partial e)).

Section placement.
Context {Σ : Type}.

(** * Construction *)

Fixpoint checkTiers (seen : list string) (tiers : list (Tier Σ)) : option error :=
  match tiers with
  | [] => None
  | tier :: tiers =>
    if negb (ValidName (tier_Name tier)) then Some (ErrorString "invalid placement tier")
    else if bool_decide (tier_Name tier ∈ seen) then Some (ErrorString "placement tier appears twice")
    else checkTiers (tier_Name tier :: seen) tiers
  end.

(** The pools that take speculative runners: those before the first tier that
    boots a machine per worker. *)
Fixpoint spareTiers (bootsBefore : bool) (tiers : list (Tier Σ)) : list (string * spareTier Σ) :=
  match tiers with
  | [] => []
  | tier :: tiers =>
    if tier_Drain tier then spareTiers bootsBefore tiers
    else match cm_spare (tier_Compute tier) with
    | None => spareTiers true tiers
    | Some pool =>
      if sp_speculative pool && negb bootsBefore
      then (tier_Name tier, pool) :: spareTiers bootsBefore tiers
      else spareTiers bootsBefore tiers
    end
  end.

Definition launching (tiers : list (Tier Σ)) : list (Tier Σ) := keep (λ t, negb (tier_Drain t)) tiers.

Definition NewPlacement (tiers : list (Tier Σ)) : error + Placement Σ :=
  match tiers with
  | [] => inl (ErrorString "placement requires at least one tier")
  | _ =>
    match checkTiers [] tiers with
    | Some err => inl err
    | None =>
      match launching tiers with
      | [] => inl (ErrorString "placement requires at least one tier that starts workers")
      | _ => inr (mkPlacement tiers (spareTiers false tiers))
      end
    end
  end.

(** * Operations *)

Fixpoint launchFirst (tiers : list (Tier Σ)) (lastErr : option error) (lease : Lease)
    : prog Σ (error + Worker) :=
  match tiers with
  | [] => mret (match lastErr with Some e => inl e | None => inr emptyWorker end)
  | tier :: rest =>
    r ← cm_Launch (tier_Compute tier) lease;
    match r with
    | inr worker => mret (inr (inTier (tier_Name tier) worker))
    | inl err =>
      if isPartial err then mret (inl (relabelPartial (tier_Name tier) err))
      else if IsCapacity err && negb (bool_decide (rest = [])) then launchFirst rest (Some err) lease
      else mret (inl err)
    end
  end.

Definition Launch (p : Placement Σ) (lease : Lease) : prog Σ (error + Worker) :=
  launchFirst (launching (pl_tiers p)) None lease.

Fixpoint sumRoom (spare : list (string * spareTier Σ)) (room : Z) : prog Σ Z :=
  match spare with
  | [] => mret room
  | (_, pool) :: spare => n ← sp_freeSlots pool; sumRoom spare (room + n)
  end.

Definition SpareRoom (p : Placement Σ) : prog Σ Z := sumRoom (pl_spare p) 0.

Fixpoint launchSpareFirst (spare : list (string * spareTier Σ)) (lastErr : error) (lease : Lease)
    : prog Σ (error + Worker) :=
  match spare with
  | [] => mret (inl lastErr)
  | (name, pool) :: spare =>
    r ← sp_launchSpare pool lease;
    match r with
    | inr worker => mret (inr (inTier name worker))
    | inl err =>
      if isPartial err then mret (inl (relabelPartial name err))
      else if negb (IsCapacity err) then mret (inl err)
      else launchSpareFirst spare err lease
    end
  end.

Definition LaunchSpare (p : Placement Σ) (lease : Lease) : prog Σ (error + Worker) :=
  launchSpareFirst (pl_spare p)
    (CapacityError CapacityReasonFull 0 (WrapError "no speculative pool" (Sentinel ErrFull))) lease.

Definition findTier (tiers : list (Tier Σ)) (name : string) : option (Tier Σ) :=
  List.find (λ t, String.eqb (tier_Name t) name) tiers.

Definition Fast (p : Placement Σ) (workerID : string) : bool :=
  match Cut ":" workerID with
  | None => false
  | Some (name, _) =>
    match findTier (pl_tiers p) name with
    | Some t => bool_decide (is_Some (cm_spare (tier_Compute t)))
    | None => false
    end
  end.

(** Every tier is asked, then the first failure in tier order decides. *)
Fixpoint inventories (tiers : list (Tier Σ)) : prog Σ (list (string * (error + list Worker))) :=
  match tiers with
  | [] => mret []
  | tier :: tiers =>
    r ← cm_Inventory (tier_Compute tier);
    rest ← inventories tiers;
    mret ((tier_Name tier, r) :: rest)
  end.

Fixpoint joinInventories (answers : list (string * (error + list Worker))) (workers : list Worker)
    : error + list Worker :=
  match answers with
  | [] => inr workers
  | (name, inl failure) :: _ =>
    let err := WrapError "placement tier" failure in
    inl (if IsTransient failure then TransientError err else err)
  | (name, inr ws) :: answers => joinInventories answers (app workers (map (inTier name) ws))
  end.

Definition Inventory (p : Placement Σ) : prog Σ (error + list Worker) :=
  answers ← inventories (pl_tiers p);
  mret (joinInventories answers []).

Definition Destroy (p : Placement Σ) (workerID : string) : prog Σ (option error) :=
  if String.eqb workerID "" then mret None
  else match Cut ":" workerID with
  | Some (name, id) =>
    match findTier (pl_tiers p) name with
    | Some t => if String.eqb id "" then mret (Some (ErrorString "worker id names no placement tier"))
                else cm_Destroy (tier_Compute t) id
    | None => mret (Some (ErrorString "worker id names no placement tier"))
    end
  | None => mret (Some (ErrorString "worker id names no placement tier"))
  end.

(** A placement is a compute itself. *)
Definition placementCompute (p : Placement Σ) : compute Σ :=
  mkCompute (Launch p) (Inventory p) (Destroy p) None.
End placement.
