(* ===== verification/PlacementTheorems.v ===== *)
(** What placement guarantees, and the launch contract: the one a pool keeps, a
    placement asks of its tiers, and a placement keeps in turn. *)

From S2P Require Import Prelude Program Provider GoStrings GoText PoolState PoolSections PoolMaintain Pool.
From S2P Require Import PoolSystem PoolLaunch Placement.

#[local] Open Scope string_scope.
#[local] Open Scope Z_scope.

(** * Names *)

Lemma Cut_tierID name id : containsByte ":" name = false → Cut ":" (tierID name id) = Some (name, id).
Proof. intros H. by apply (Cut_app ":"). Qed.

Lemma tierID_nonempty name id : tierID name id ≠ "".
Proof. unfold tierID. intros H. by destruct name. Qed.

Lemma ValidName_colon name : ValidName name = true → containsByte ":" name = false.
Proof.
  destruct name as [|c rest]; [done |]. cbn [ValidName containsByte]. rewrite !andb_true_iff.
  intros [[Hc _] Hr]. destruct (Ascii.eqb_spec c ":") as [->|]; [done |].
  eapply containsByte_forallb; [|exact Hr]. reflexivity.
Qed.

Section placement.
Context {Σ : Type}.

Lemma checkTiers_spec seen (tiers : list (Tier Σ)) :
  checkTiers seen tiers = None →
  NoDup (map tier_Name tiers) ∧ (∀ t, t ∈ tiers → ValidName (tier_Name t) = true ∧ tier_Name t ∉ seen).
Proof.
  revert seen. induction tiers as [|t tiers IH]; intros seen; simpl.
  { intros _. split; [constructor | by intros ? ?%elem_of_nil]. }
  destruct (ValidName (tier_Name t)) eqn:Ev; simpl; [|done].
  destruct (bool_decide _) eqn:Es; [done |]. apply bool_decide_eq_false in Es.
  intros H. destruct (IH _ H) as [Hnd Hall]. split.
  - apply NoDup_cons. split; [|done]. intros Hin. apply list_elem_of_fmap in Hin as (t' & Ht & Hin).
    destruct (Hall t' Hin) as [_ Hn]. apply Hn. rewrite Ht. by left.
  - intros t' [->|Hin]%elem_of_cons; [done |]. destruct (Hall t' Hin). set_solver.
Qed.

Lemma NewPlacement_spec (tiers : list (Tier Σ)) p :
  NewPlacement tiers = inr p →
  pl_tiers p = tiers ∧ launching tiers ≠ [] ∧ NoDup (map tier_Name tiers)
  ∧ ∀ t, t ∈ tiers → containsByte ":" (tier_Name t) = false.
Proof.
  unfold NewPlacement. destruct tiers as [|t0 tiers]; [done |]. set (l := t0 :: tiers) in *.
  destruct (checkTiers [] l) eqn:Ec; [done |]. apply checkTiers_spec in Ec as [Hnd Hv].
  destruct (launching l) as [|t1 l1] eqn:El; [done |]. intros [= <-]. split_and!; [done | done | done |].
  intros t Ht. apply ValidName_colon. by apply Hv.
Qed.

Lemma findTier_unique (tiers : list (Tier Σ)) t :
  NoDup (map tier_Name tiers) → t ∈ tiers → findTier tiers (tier_Name t) = Some t.
Proof.
  unfold findTier. induction tiers as [|t' tiers IH]; simpl; intros Hnd Hin; [by apply elem_of_nil in Hin |].
  apply NoDup_cons in Hnd as [Hn Hnd].
  destruct (String.eqb_spec (tier_Name t') (tier_Name t)) as [He|He].
  - apply elem_of_cons in Hin as [->|Hin]; [done |]. exfalso. apply Hn. rewrite He.
    apply list_elem_of_fmap. eauto.
  - apply elem_of_cons in Hin as [->|Hin]; [done | by apply IH].
Qed.

(** A worker is destroyed by the tier that owns it.  For every tier, draining
    or not, destroying a worker under the ID the placement gave it, at launch or
    in the inventory, is exactly the tier's own destroy of the tier's own ID. *)
Theorem placement_destroys_own tiers (p : Placement Σ) t w :
  NewPlacement tiers = inr p → t ∈ tiers → ID w ≠ "" →
  Destroy p (ID (inTier (tier_Name t) w)) = cm_Destroy (tier_Compute t) (ID w).
Proof.
  intros Hp Ht Hw. apply NewPlacement_spec in Hp as (Htiers & _ & Hnd & Hc).
  unfold Destroy. simpl. rewrite Cut_tierID by auto. rewrite Htiers, findTier_unique by done.
  by rewrite (proj2 (String.eqb_neq _ _) Hw), (proj2 (String.eqb_neq _ _) (tierID_nonempty _ _)).
Qed.

(** * Launch order *)

(** Every tier of the list refused the lease as full, one after the other. *)
Inductive refusals (lease : Lease) : list (Tier Σ) → Σ → Σ → Prop :=
  | refusals_nil s : refusals lease [] s s
  | refusals_cons t l s err s1 s2 :
      runP (cm_Launch (tier_Compute t) lease) s = (inl err, s1) →
      isPartial err = false → IsCapacity err = true →
      refusals lease l s1 s2 → refusals lease (t :: l) s s2.

(** What the placement answers for a tier's answer. *)
Definition placed (name : string) (r : error + Worker) : error + Worker :=
  match r with
  | inr w => inr (inTier name w)
  | inl err => inl (if isPartial err then relabelPartial name err else err)
  end.

Definition isFull (r : error + Worker) : bool :=
  match r with inl err => negb (isPartial err) && IsCapacity err | inr _ => false end.

Lemma launchFirst_run tiers lastErr lease s :
  tiers ≠ [] →
  ∃ l1 t l2 s1, tiers = (l1 ++ t :: l2)%list ∧ refusals lease l1 s s1
    ∧ let r := evalP (cm_Launch (tier_Compute t) lease) s1 in
      runP (launchFirst tiers lastErr lease) s
        = (placed (tier_Name t) r, execP (cm_Launch (tier_Compute t) lease) s1)
      ∧ (isFull r = true → l2 = []).
Proof.
  revert lastErr s. induction tiers as [|t tiers IH]; intros lastErr s Hne; [done |].
  cbn [launchFirst]. rewrite runP_bind.
  destruct (evalP (cm_Launch (tier_Compute t) lease) s) as [err|w] eqn:Er.
  2:{ exists [], t, tiers, s. rewrite Er. by split_and!; [|apply refusals_nil |..]. }
  destruct (isPartial err) eqn:Ep.
  { exists [], t, tiers, s. rewrite Er. unfold isFull, placed. rewrite Ep.
    by split_and!; [|apply refusals_nil |..]. }
  destruct (IsCapacity err) eqn:Ec; simpl.
  2:{ exists [], t, tiers, s. rewrite Er. unfold isFull, placed. rewrite Ep, Ec.
      by split_and!; [|apply refusals_nil |..]. }
  destruct (bool_decide (tiers = [])) eqn:Eb; simpl.
  { apply bool_decide_eq_true in Eb as ->. exists [], t, [], s. rewrite Er. unfold placed. rewrite Ep.
    by split_and!; [|apply refusals_nil |..]. }
  apply bool_decide_eq_false in Eb.
  destruct (IH (Some err) (execP (cm_Launch (tier_Compute t) lease) s) Eb)
    as (l1 & t' & l2 & s1 & -> & Hrefs & Hrun & Hfull).
  exists (t :: l1), t', l2, s1. split_and!; [done | | done | done].
  econstructor; [|exact Ep | exact Ec | exact Hrefs].
  rewrite <- Er. unfold evalP, execP. by destruct (runP _ s).
Qed.

(** Tiers are tried in order.  A launch asks the tiers that start workers
    one after the other; it asks the next one only after a refusal for capacity,
    without a partial launch, and returns the answer of the first tier that does
    not refuse so, or of the last one, with the tier's name on the worker. *)
Theorem placement_launch_order tiers (p : Placement Σ) lease s :
  NewPlacement tiers = inr p →
  ∃ l1 t l2 s1, launching tiers = (l1 ++ t :: l2)%list ∧ refusals lease l1 s s1
    ∧ let r := evalP (cm_Launch (tier_Compute t) lease) s1 in
      runP (Launch p lease) s
        = (placed (tier_Name t) r, execP (cm_Launch (tier_Compute t) lease) s1)
      ∧ (isFull r = true → l2 = []).
Proof.
  intros Hp. apply NewPlacement_spec in Hp as (Htiers & Hne & _). unfold Launch. rewrite Htiers.
  by apply launchFirst_run.
Qed.

(** * Inventory *)

Lemma inventories_run (tiers : list (Tier Σ)) s :
  map fst (evalP (inventories tiers) s) = map tier_Name tiers.
Proof.
  revert s. induction tiers as [|t tiers IH]; intros s; cbn [inventories]; [done |].
  rewrite !evalP_bind. change (evalP (mret ?x) _) with x. cbn [map fst]. by rewrite IH.
Qed.

Lemma joinInventories_spec answers acc :
  match joinInventories answers acc with
  | inr ws => ∃ lists, map snd answers = map inr lists
      ∧ ws = (acc ++ concat (zip_with (λ name l, map (inTier name) l) (map fst answers) lists))%list
  | inl _ => ∃ name err, (name, inl err) ∈ answers
  end.
Proof.
  revert acc. induction answers as [|[name [err|ws]] answers IH]; intros acc; simpl.
  - exists []. by rewrite app_nil_r.
  - exists name, err. by left.
  - specialize (IH (acc ++ map (inTier name) ws)%list). destruct (joinInventories _ _) as [e|l].
    + destruct IH as (n & e' & ?). exists n, e'. by right.
    + destruct IH as (lists & Hs & ->). exists (ws :: lists). simpl. rewrite Hs. split; [done |].
      by rewrite <- app_assoc.
Qed.

(** The inventory is all or nothing.  It fails when any tier fails; when it
    succeeds, every tier answered, and it lists exactly their workers, in tier
    order, each under its tier's name. *)
Theorem placement_inventory_whole (p : Placement Σ) s :
  let answers := evalP (inventories (pl_tiers p)) s in
  map fst answers = map tier_Name (pl_tiers p) ∧
  match evalP (Inventory p) s with
  | inr ws => ∃ lists, map snd answers = map inr lists
      ∧ ws = concat (zip_with (λ name l, map (inTier name) l) (map tier_Name (pl_tiers p)) lists)
  | inl _ => ∃ name err, (name, inl err) ∈ answers
  end.
Proof.
  intros answers. split; [apply inventories_run |]. unfold Inventory. rewrite evalP_bind. fold answers.
  change (evalP (mret ?x) _) with x. pose proof (joinInventories_spec answers []) as H.
  destruct (joinInventories answers []); [done |]. destruct H as (lists & ? & ->). exists lists.
  split; [done |]. unfold answers. by rewrite inventories_run.
Qed.
End placement.

(** * The launch contract *)

(** The result of a launch names worker [id] of lease [l]. *)
Definition reported (r : error + Worker) (id l : string) : Prop :=
  match r with
  | inr w => ID w = id ∧ LeaseID w = l
  | inl err => ∃ w, errors_as as_partial err = Some w ∧ ID w = id ∧ LeaseID w = l
  end.

(** [left s id l]: a container of lease [l] may be running as worker [id].  After
    a launch there is none but those that were there before and the one the
    launch reports, as its worker or as a partial launch. *)
Class LaunchContract {Σ} (c : compute Σ) (left : Σ → string → string → Prop) : Prop := {
  left_named : ∀ s id l, left s id l → id ≠ "";
  launch_left : ∀ lease s id l,
    left (execP (cm_Launch c lease) s) id l →
    left s id l ∨ reported (evalP (cm_Launch c lease) s) id l
}.

(** ** A pool keeps it *)

Section pool.
Context {W : Type} {E : PoolEnv W} (cfg : Config).

(** A pool as a tier. *)
Definition poolCompute : compute (poolSys W) :=
  mkCompute (Pool.Launch cfg) (Pool.Inventory cfg) (Pool.Destroy cfg)
    (Some (mkSpareTier (locked (λ t p, (freeSlots cfg t p, p))) (launchSpare cfg) (Speculative cfg))).

(** A start that was not refused cleanly may have left a container. *)
Definition poolLeft (s : poolSys W) (id l : string) : Prop :=
  ∃ host slot answer, (host, slot, answer) ∈ startsOf l (ptrace s) ∧ ~ clean (host, slot, answer)
    ∧ id = WorkerID (host_ID host) slot l.

Lemma WorkerID_nonempty h s l : WorkerID h s l ≠ "".
Proof. unfold WorkerID. by destruct h. Qed.

Lemma accounts_reported lease r l host slot answer :
  accounts lease r l → (host, slot, answer) ∈ l → ~ clean (host, slot, answer) →
  reported r (WorkerID (host_ID host) slot (lease_ID lease)) (lease_ID lease).
Proof.
  intros Ha Hin Hn.
  assert (Hnames : ∀ w, namesLast lease w l →
    ID w = WorkerID (host_ID host) slot (lease_ID lease) ∧ LeaseID w = lease_ID lease).
  { intros w (h & sl & a & earlier & -> & HF & Hid & Hl & _).
    apply elem_of_cons in Hin as [[= -> -> ->]|Hin]; [done |].
    exfalso. apply Hn. by apply (proj1 (Forall_forall _ _) HF). }
  destruct r as [err|w]; [|by apply Hnames]. destruct err; simpl in Ha;
    try (exfalso; apply Hn; by apply (proj1 (Forall_forall _ _) Ha)).
  eexists. split; [done |]. by apply Hnames.
Qed.

#[global] Instance pool_contract : LaunchContract poolCompute poolLeft.
Proof.
  split; [intros s id l (h & sl & a & _ & _ & ->); apply WorkerID_nonempty |].
  intros lease s id l (host & slot & answer & Hin & Hn & ->). cbn [cm_Launch poolCompute] in *.
  unfold Pool.Launch in *.
  destruct (decide (lease_ID lease = l)) as [<-|Hne].
  - destruct (interleaved_spec _ _ _ _ _ _ _ _
      (launch_run cfg _ (startsOf (lease_ID lease) (ptrace s)) lease true eq_refl)
      ltac:(intros a s1 s2 HR (k & Hk & Ha); exists k; split; [by eapply starts_stable | done]) eq_refl
      (interleaved_alone (others (lease_ID lease)) (launch cfg lease true) s)) as (k & Hk & Ha).
    unfold starts in Hk. rewrite Hk in Hin. apply elem_of_app in Hin as [Hin|Hin].
    + right. by eapply accounts_reported.
    + left. by exists host, slot, answer.
  - pose proof (interleaved_spec _ _ _ _ _ _ _ _
      (silent_launch cfg l (startsOf l (ptrace s)) lease true Hne [])
      ltac:(intros a; apply starts_stable) eq_refl
      (interleaved_alone (others l) (launch cfg lease true) s)) as Hk.
    unfold starts in Hk. rewrite Hk in Hin. left. by exists host, slot, answer.
Qed.
End pool.

(** ** A placement of such tiers keeps it *)

Lemma errors_as_relabel name e w :
  errors_as as_partial e = Some w →
  errors_as as_partial (relabelPartial name e) = Some (if String.eqb (ID w) "" then w else inTier name w).
Proof.
  revert w. induction e as [e IH] using error_tree_ind. intros w. destruct e; simpl in *; try done;
    try (inversion_clear IH; by auto).
  - revert IH. induction errs as [|x errs IHe]; intros IH; [done |]. apply Forall_cons in IH as [Hx IH].
    simpl. destruct (errors_as as_partial x) as [w'|] eqn:Ex.
    + intros [= ->]. simpl. by rewrite (Hx w).
    + intros Hw. simpl. rewrite Ex. by apply IHe.
  - by intros [= ->].
Qed.

Lemma isPartial_false e : isPartial e = false → errors_as as_partial e = None.
Proof.
  unfold isPartial. rewrite bool_decide_eq_false. destruct (errors_as as_partial e); [|done].
  intros H. exfalso. eauto.
Qed.

Lemma reported_placed name r id l : reported r id l → id ≠ "" → reported (placed name r) (tierID name id) l.
Proof.
  destruct r as [err|w]; simpl.
  - intros (w & Hw & <- & <-) Hid. unfold isPartial. rewrite Hw, bool_decide_eq_true_2 by eauto.
    rewrite (errors_as_relabel name err w Hw), (proj2 (String.eqb_neq _ _) Hid).
    by eexists.
  - by intros [<- <-] _.
Qed.

Section contract.
Context {Σ : Type} (tiers : list (Tier Σ)) (left : string → Σ → string → string → Prop).

(** Every tier keeps the contract, and leaves the others alone. *)
Class TiersContract : Prop := {
  own_contract t : t ∈ tiers → LaunchContract (tier_Compute t) (left (tier_Name t));
  other_tiers t n lease s id l : t ∈ tiers → n ≠ tier_Name t →
    left n (execP (cm_Launch (tier_Compute t) lease) s) id l → left n s id l
}.

(** What is left in any tier, under the placement's IDs. *)
Definition placementLeft (s : Σ) (id l : string) : Prop :=
  ∃ t id0, t ∈ tiers ∧ id = tierID (tier_Name t) id0 ∧ left (tier_Name t) s id0 l.

Context `{!TiersContract}.

(** One tier's launch. *)
Lemma tier_launch_left t lease s id l :
  t ∈ tiers → placementLeft (execP (cm_Launch (tier_Compute t) lease) s) id l →
  placementLeft s id l
  ∨ reported (placed (tier_Name t) (evalP (cm_Launch (tier_Compute t) lease) s)) id l.
Proof.
  intros Ht (t' & id0 & Ht' & -> & Hl).
  destruct (decide (tier_Name t' = tier_Name t)) as [He|He].
  - rewrite He in *. pose proof (own_contract t Ht) as Hc.
    destruct (launch_left lease s id0 l Hl) as [Hs|Hr].
    + left. exists t, id0. done.
    + right. apply reported_placed; [done |]. by eapply left_named.
  - left. exists t', id0. split_and!; [done | done |].
    exact (other_tiers t (tier_Name t') lease s id0 l Ht He Hl).
Qed.

Lemma refusals_left lease ts s s' id l :
  refusals lease ts s s' → (∀ t, t ∈ ts → t ∈ tiers) → placementLeft s' id l → placementLeft s id l.
Proof.
  induction 1 as [s|t ts s err s1 s2 Hrun Hp _ _ IH]; intros Hts Hl; [done |].
  apply IH in Hl; [|by intros t' ?; apply Hts; right].
  assert (Hs1 : s1 = execP (cm_Launch (tier_Compute t) lease) s) by (unfold execP; by rewrite Hrun).
  assert (Hr : evalP (cm_Launch (tier_Compute t) lease) s = inl err) by (unfold evalP; by rewrite Hrun).
  subst s1. destruct (tier_launch_left t lease s id l) as [?|Hrep]; [apply Hts; left | done | done |].
  rewrite Hr in Hrep. simpl in Hrep. rewrite Hp in Hrep. destruct Hrep as (w & Hw & _).
  by rewrite isPartial_false in Hw.
Qed.

(** C28: A placement keeps the launch contract its tiers keep.  When every tier
    reports what its launches may leave running and leaves the other tiers
    alone, then after a launch through the placement, on whichever tier it ended
    up and however many refused it before, nothing new may be running but the
    worker it reports, under an ID that routes back to its tier. *)
Theorem placement_contract p :
  NewPlacement tiers = inr p → LaunchContract (placementCompute p) placementLeft.
Proof.
  intros Hp. apply NewPlacement_spec in Hp as (Htiers & Hne & _). split.
  - intros s id l (t & id0 & _ & -> & _). apply tierID_nonempty.
  - intros lease s id l Hl. cbn [cm_Launch placementCompute] in *. unfold Launch in *. rewrite Htiers in *.
    destruct (launchFirst_run (launching tiers) None lease s Hne)
      as (l1 & t & l2 & s1 & Hl12 & Hrefs & Hrun & _).
    assert (Hin : ∀ t', t' ∈ (l1 ++ t :: l2)%list → t' ∈ tiers).
    { intros t' Ht'. rewrite <- Hl12 in Ht'. by apply elem_of_keep in Ht' as [? _]. }
    unfold evalP, execP in *. rewrite Hrun in *. simpl in *.
    destruct (tier_launch_left t lease s1 id l) as [Hs1|?]; [set_solver | done | | by right].
    left. eapply refusals_left; [exact Hrefs | | done]. set_solver.
Qed.
End contract.

(** * A placement to try it on: a full tier ahead of a pool *)

Module PlacementDemo.
Import PoolDemo.

(** A machine type that is out of stock. *)
Definition soldOut : compute (poolSys (Z * list Slot)) :=
  mkCompute (λ _, mret (inl (CapacityError CapacityReasonFull 0 (Sentinel ErrFull))))
    (mret (inr [])) (λ _, mret None) None.

Definition poolTier : Tier (poolSys (Z * list Slot)) := mkTier "pool" (poolCompute demoCfg) false.

Definition tiers : list (Tier (poolSys (Z * list Slot))) := [mkTier "fast" soldOut false; poolTier].

Definition placement : Placement (poolSys (Z * list Slot)) := mkPlacement tiers [].

Definition lease : Lease := mkLease "lease-1" "runner-1" 7 1 "jit" 0 0.

(** The worker of a launch on the pool after one pass of its maintenance. *)
Definition worker : Worker :=
  match evalP (Pool.Launch demoCfg lease) (after 1) with inr w => w | inl _ => emptyWorker end.

Lemma worker_named : ID worker ≠ "".
Proof. by vm_compute. Qed.

Definition left (n : string) : poolSys (Z * list Slot) → string → string → Prop :=
  if String.eqb n "pool" then poolLeft else λ _ _ _, False.

Lemma tiers_contract : TiersContract tiers left.
Proof.
  split.
  - intros t [->|[->|[]%elem_of_nil]%elem_of_cons]%elem_of_cons; [|apply pool_contract].
    by split.
  - intros t n lease0 s id l Ht Hn. unfold left.
    destruct (String.eqb_spec n "pool") as [->|]; [|done].
    apply elem_of_cons in Ht as [->|[->|[]%elem_of_nil]%elem_of_cons]; done.
Qed.
End PlacementDemo.

Lemma placement_destroys_own_witness :
  let t := PlacementDemo.poolTier in
  Destroy PlacementDemo.placement (ID (inTier (tier_Name t) PlacementDemo.worker))
  = cm_Destroy (tier_Compute t) (ID PlacementDemo.worker).
Proof.
  apply (placement_destroys_own PlacementDemo.tiers PlacementDemo.placement PlacementDemo.poolTier);
    [reflexivity | by right; left | apply PlacementDemo.worker_named].
Defined.

Lemma placement_launch_order_witness :
  let s := PoolDemo.after 1 in
  ∃ l1 t l2 s1, launching PlacementDemo.tiers = (l1 ++ t :: l2)%list ∧ refusals PlacementDemo.lease l1 s s1
    ∧ let r := evalP (cm_Launch (tier_Compute t) PlacementDemo.lease) s1 in
      runP (Launch PlacementDemo.placement PlacementDemo.lease) s
        = (placed (tier_Name t) r, execP (cm_Launch (tier_Compute t) PlacementDemo.lease) s1)
      ∧ (isFull r = true → l2 = []).
Proof. apply (placement_launch_order PlacementDemo.tiers). reflexivity. Defined.

Lemma placement_contract_witness :
  LaunchContract (placementCompute PlacementDemo.placement)
    (placementLeft PlacementDemo.tiers PlacementDemo.left).
Proof.
  apply (@placement_contract _ PlacementDemo.tiers PlacementDemo.left PlacementDemo.tiers_contract).
  reflexivity.
Defined.
