(* ===== verification/HostAgent.v ===== *)
(** The host agent (src/hostagent/agent.go and the work directories of
    src/hostagent/workspace.go): the four verbs it answers, the docker commands
    it runs for them, and the work directory it gives every lease.

    Docker, the file system, the slot locks, the disk and the clock are the
    class [AgentEnv]: any functions.  Every docker command and every directory
    made or renamed goes to a trace.  The output of a docker command is its text
    and, for an inspect, what it decodes to; the error of a command is its text.
    A reply carries its result before encoding: encoding cannot fail, since an
    instant in a result was itself decoded. *)

From S2P Require Import Prelude Program Float64 GoStrings GoText PoolState.

#[local] Open Scope string_scope.
#[local] Open Scope Z_scope.

(** * Configuration *)

Definition labelSlot : string := "runneryard.slot".
Definition labelController : string := "runneryard.controller".
Definition labelLease : string := "runneryard.lease".
Definition labelRunnerName : string := "runneryard.runner-name".
Definition labelRunnerID : string := "runneryard.runner-id".
Definition labelScaleSetID : string := "runneryard.scale-set-id".
Definition labelImage : string := "runneryard.image".
Definition maxRequestBytes : Z := 65536.
Definition maxJITBytes : Z := 49152.
Definition maxSlots : Z := 64.
Definition maxCaches : nat := 8.
Definition defaultDockerFS : string := "/var/lib/docker".
Definition MinimumSlotMemoryMB : Z := 512.
Definition maxCPU : Z := 8191.
Definition slotEntrypoint : string := "/usr/local/bin/runner-entrypoint".

Definition upper_byte : ascii → bool := byte_in "A"%char "Z"%char.
Definition alnum_byte (c : ascii) : bool := upper_byte c || lower_byte c || digit_byte c.
Definition byte_of (l : string) (c : ascii) : bool := containsByte c l.

(** [^<first>[<rest>]{0,n}$] *)
Definition matchName (rest : ascii → bool) (n : nat) (s : string) : bool :=
  match s with
  | "" => false
  | String c s => alnum_byte c && (String.length s <=? n)%nat && string_forallb rest s
  end.

Definition safeLabelValue : string → bool := matchName (λ c, alnum_byte c || byte_of "._-" c) 62.
Definition safeHostname : string → bool := matchName (λ c, alnum_byte c || byte_of "-" c) 62.
Definition safeImage : string → bool := matchName (λ c, alnum_byte c || byte_of "._/:@-" c) 254.
Definition safeJIT (s : string) : bool :=
  negb (String.eqb s "") && string_forallb (λ c, alnum_byte c || byte_of "+/=" c) s.
Definition safeCachePath (s : string) : bool :=
  match s with
  | String "/" rest =>
    negb (String.eqb rest "") && string_forallb (λ c, alnum_byte c || byte_of "._/-" c) rest
  | _ => false
  end.

Record Config := mkHostConfig {
  hc_Slots : Z;
  hc_Image : string;
  hc_SlotCPUs : f64;
  hc_SlotMemoryMB : Z;
  hc_Caches : list string;
  hc_MinFreeDiskGB : Z;
  hc_DockerRoot : string
}.

Definition validCachePath (path : string) : bool :=
  if negb (safeCachePath path) || negb (String.eqb (Clean path) path) then false
  else if String.eqb path "/home/runner/_work" || String.eqb path "/var/lib/docker" then false
  else existsb (λ root, HasPrefix path root && (String.length root <? String.length path)%nat)
         ["/home/runner/"; "/opt/"].

Definition cacheVolumeSuffix (path : string) : string :=
  replaceByte "/" "-" (TrimPrefix path "/").

Fixpoint validateCaches (seen : list string) (caches : list string) : option string :=
  match caches with
  | [] => None
  | path :: caches =>
    if negb (validCachePath path)
    then Some "cache path must be a clean absolute path under /home/runner or /opt"
    else if bool_decide (cacheVolumeSuffix path ∈ seen)
    then Some "cache path appears twice or shares its volume with another path"
    else validateCaches (cacheVolumeSuffix path :: seen) caches
  end.

Definition Validate (c : Config) : option string :=
  if (hc_Slots c <? 1) || (maxSlots <? hc_Slots c) then Some "slots must be between 1 and 64"
  else if negb (safeImage (hc_Image c)) then Some "invalid runner image"
  else if negb (f64_le f64_zero (hc_SlotCPUs c)) || negb (f64_le (hc_SlotCPUs c) (f64_of_int 512))
          || (hc_SlotMemoryMB c <? 0)
          || ((0 <? hc_SlotMemoryMB c) && (hc_SlotMemoryMB c <? MinimumSlotMemoryMB))
  then Some "slot CPUs must be positive and slot memory at least 512 MB when set"
  else if (maxCaches <? length (hc_Caches c))%nat then Some "at most 8 cache paths"
  else match validateCaches [] (hc_Caches c) with
  | Some err => Some err
  | None =>
    if (hc_MinFreeDiskGB c <? 0) || (10000 <? hc_MinFreeDiskGB c)
    then Some "min_free_disk_gb must be between 0 and 10000"
    else if negb (String.eqb (hc_DockerRoot c) "") && negb (HasPrefix (hc_DockerRoot c) "/")
    then Some "docker_root must be an absolute path"
    else None
  end.

(** * CPU lists *)

(** One element of the list, after the CPUs before it in reverse. *)
Definition cpuRange (cpus : list Z) (part : string) : option (list Z) :=
  let '(first, last) := match Cut "-" part with Some (f, l) => (f, Some l) | None => (part, None) end in
  let '(low, okLow) := ParseInt first in
  let '(high, okHigh) := match last with Some l => ParseInt l | None => (low, true) end in
  if negb okLow || negb okHigh then None
  else if (low <? 0) || (high <? low) || (maxCPU <? high)
          || match cpus with previous :: _ => low <=? previous | [] => false end
  then None
  else Some (app (rev (map (λ i, low + Z.of_nat i) (seq 0 (Z.to_nat (high - low + 1))))) cpus).

Fixpoint cpuRanges (cpus : list Z) (parts : list string) : option (list Z) :=
  match parts with
  | [] => Some (rev cpus)
  | part :: parts =>
    match cpuRange cpus part with Some cpus => cpuRanges cpus parts | None => None end
  end.

Definition ParseCPUList (text : string) : option (list Z) :=
  let text := TrimSpace text in
  if String.eqb text "" then None else cpuRanges [] (splitOn "," text).

(** [OnlineCPUs], of the contents of the kernel's list. *)
Definition OnlineCPUs (contents : option string) : list Z :=
  match contents with Some text => default [] (ParseCPUList text) | None => [] end.

Example ParseCPUList_samples :
  map ParseCPUList ["0-3,6,8-9"; "0"; ""; "3-1"; "0-3,2"; "+1-2"; "9000"]
  = [Some [0; 1; 2; 3; 6; 8; 9]; Some [0]; None; None; None; Some [1; 2]; None].
Proof. reflexivity. Qed.

(** * The agent and its surroundings *)

(** What [docker inspect] says of a container. *)
Record container := mkContainer {
  c_Name : string;
  c_Created : time;
  c_Status : string;
  c_Labels : gmap string string
}.

(** [labels[key]] *)
Definition label (labels : gmap string string) (key : string) : string := default "" (labels !! key).

(** Standard output: its text, and its decoding as a list of containers. *)
Record dockerOutput := mkDockerOutput { out_text : string; out_containers : option (list container) }.

Inductive dirListing := DirMissing | DirFailed (err : string) | DirEntries (names : list string).

(** How a wait for the purge ends after some polls, if nothing ends it before. *)
Inductive purgeEnd := PurgeCanceled | PurgeDeadline.

(** [Lock], [FreeBytes], [CachesFilled] and [PurgeWorkspaces] may be nil: the
    booleans say whether they are set, [AgentEnv] what they do. *)
Record Agent := mkAgent {
  a_Config : Config;
  a_LocalImage : string;
  a_ConfigErr : option string;
  a_Lock : bool;
  a_FreeBytes : bool;
  a_CPUs : list Z;
  a_CachesFilled : bool;
  a_WorkRoot : string;
  a_PurgeWorkspaces : bool;
  a_Version : string
}.

Class AgentEnv (W : Type) := mkAgentEnv {
  (** [Docker.Run(ctx, env, args...)] *)
  ae_Docker : list string → list string → W → (dockerOutput * option string) * W;
  ae_Lock : Z → W → option string * W;
  ae_Unlock : Z → W → W;
  ae_FreeBytes : string → W → (string + Z) * W;
  ae_CachesFilled : W → bool * W;
  ae_PurgeWorkspaces : W → W;
  ae_Now : W → time * W;
  ae_MkdirAll : string → W → option string * W;
  ae_Mkdir : string → W → option string * W;
  ae_ReadDir : string → W → dirListing * W;
  ae_Rename : string → string → W → option string * W;
  ae_RandText : W → string * W;
  (** The polls before the wait for a purge is over: finitely many, but Go
      picks at random between a deadline that passed and a poll that is due. *)
  ae_PurgeWait : W → (nat * purgeEnd) * W
}.

(** What the agent did, newest first in a trace. *)
Inductive agentCall :=
  | ADocker (args : list string) (out : dockerOutput) (err : option string)
  | ALock (slot : Z) | AUnlock (slot : Z)
  | AMkdir (path : string) (err : option string)
  | ARename (from to : string) (err : option string).

Record agentSys (W : Type) := mkAgentSys { aworld : W; atrace : list agentCall }.
Arguments mkAgentSys {W}.
Arguments aworld {W}.
Arguments atrace {W}.

(** [pool.Reply] *)
Inductive Result :=
  | RInfo (info : HostInfo) | RSlots (slots : list Slot) | RSlot (slot : Slot) | RRemoved (found : bool).
Inductive Reply := Succeeded (result : Result) | Refused (code message : string).

(** Standard input of a start: [None] when it cannot be read, else its length,
    and the request unless it is not valid JSON. *)
Abbreviation stdin := (option (Z * option StartRequest)).

(** * Pure parts *)

Definition containerName (slot : Z) : string := "runneryard-slot-" +:+ Itoa slot.

Definition notFound (err : string) : bool := Contains (ToLower err) "no such".

(** [workerState] *)
Definition workerState (status : string) : string :=
  if String.eqb status "running" then "started"
  else if String.eqb status "created" || String.eqb status "restarting" then "starting"
  else if String.eqb status "removing" then "destroying"
  else if String.eqb status "exited" || String.eqb status "dead" || String.eqb status "paused" then "stopped"
  else "unknown".

Definition toSlot (item : container) : option Slot :=
  let labels := c_Labels item in
  let '(index, ok) := ParseInt (label labels labelSlot) in
  if negb ok || (index <? 0) then None
  else Some (mkSlot index (label labels labelController) (label labels labelLease)
               (label labels labelRunnerName) (ParseInt (label labels labelRunnerID)).1
               (ParseInt (label labels labelScaleSetID)).1 (workerState (c_Status item)) (c_Created item)).

Section agent.
Context (a : Agent).
Abbreviation cfg := (a_Config a).

Definition slotIndex (value : string) : option Z :=
  let '(slot, ok) := ParseInt value in
  if negb ok || (slot <? 0) || (hc_Slots cfg <=? slot) || negb (String.eqb (Itoa slot) value)
  then None else Some slot.

Definition image : string :=
  if String.eqb (a_LocalImage a) "" then hc_Image cfg else a_LocalImage a.

(** [a.validate(request)], at the instant [now]. *)
Definition validate (now : time) (r : StartRequest) : option string :=
  if negb (safeLabelValue (sr_ControllerID r)) then Some "invalid controller id"
  else if negb (safeLabelValue (sr_LeaseID r)) then Some "invalid lease id"
  else if negb (safeHostname (sr_RunnerName r)) then Some "invalid runner name"
  else if (sr_RunnerID r <? 0) || (sr_RunnerScaleSetID r <? 0) then Some "invalid runner registration"
  else if String.eqb (sr_JITConfig r) "" || (maxJITBytes <? Z.of_nat (String.length (sr_JITConfig r)))
          || negb (safeJIT (sr_JITConfig r)) then Some "invalid JIT configuration"
  else if negb (After (sr_Deadline r) now) || After (sr_Deadline r) (Add now (25 * Hour))
  then Some "deadline must be in the future and within 25h"
  else if (sr_IdleTimeoutSeconds r <? 0) || (86400 <? sr_IdleTimeoutSeconds r) then Some "invalid idle timeout"
  else None.

(** The cores of a slot, or none when it gets a quota instead. *)
Definition slotCores (slot : Z) : list Z :=
  let count := f64_trunc (hc_SlotCPUs cfg) in
  if (count <? 1) || negb (f64_eqb (f64_of_int count) (hc_SlotCPUs cfg))
     || (Z.of_nat (length (a_CPUs a)) <? hc_Slots cfg * count) || (slot <? 0) || (hc_Slots cfg <=? slot)
  then []
  else take (Z.to_nat count) (drop (Z.to_nat (slot * count)) (a_CPUs a)).

Definition slotCPUSet (slot : Z) : string := Join "," (map Itoa (slotCores slot)).

Definition SlotsPinned : bool := negb (String.eqb (slotCPUSet 0) "").

(** Name and target of the slot's volumes. *)
Definition volumes (slot : Z) : list (string * string) :=
  (containerName slot +:+ "-docker", "/var/lib/docker")
  :: map (λ path, (containerName slot +:+ "-cache-" +:+ cacheVolumeSuffix path, path)) (hc_Caches cfg).

Definition retiredWorkVolume (slot : Z) : string := containerName slot +:+ "-work".

Definition volumeMounts (slot : Z) : list string :=
  concat (map (λ v, ["--mount"; "type=volume,source=" +:+ v.1 +:+ ",target=" +:+ v.2]) (volumes slot)).

Definition workspaceTarget : string := "/home/runner/_work".

Definition cpuArgs (slot : Z) : list string :=
  if negb (String.eqb (slotCPUSet slot) "") then ["--cpuset-cpus"; slotCPUSet slot]
  else if negb (f64_le (hc_SlotCPUs cfg) f64_zero) then ["--cpus"; FormatFloat (hc_SlotCPUs cfg)]
  else [].

Definition slotLabels (slot : Z) (r : StartRequest) : list (string * string) :=
  [(labelSlot, Itoa slot); (labelController, sr_ControllerID r); (labelLease, sr_LeaseID r);
   (labelRunnerName, sr_RunnerName r); (labelRunnerID, Itoa (sr_RunnerID r));
   (labelScaleSetID, Itoa (sr_RunnerScaleSetID r)); (labelImage, sr_Image r)].

Definition runArgs (slot : Z) (r : StartRequest) (workspace : string) : list string :=
  app ["run"; "--detach"; "--name"; containerName slot; "--hostname"; sr_RunnerName r; "--privileged"]
  (app (concat (map (λ l, ["--label"; l.1 +:+ "=" +:+ l.2]) (slotLabels slot r)))
  (app ["--log-driver"; "json-file"; "--log-opt"; "max-size=20m"; "--log-opt"; "max-file=2"]
  (app (cpuArgs slot)
  (app (if 0 <? hc_SlotMemoryMB cfg then ["--memory"; Itoa (hc_SlotMemoryMB cfg) +:+ "m"] else [])
  (app ["--env"; "ACTIONS_RUNNER_INPUT_JITCONFIG";
        "--env"; "RUNNERYARD_DEADLINE=" +:+ FormatRFC3339 (sr_Deadline r);
        "--env"; "RUNNERYARD_IDLE_TIMEOUT=" +:+ Itoa (sr_IdleTimeoutSeconds r);
        "--env"; "RUNNERYARD_REUSED_SLOT=1"]
  (app (volumeMounts slot)
  (app (if String.eqb workspace "" then []
        else ["--mount"; "type=bind,source=" +:+ workspace +:+ ",target=" +:+ workspaceTarget])
  ["--pull"; "never"; "--entrypoint"; "/usr/bin/dumb-init"; image; "--"; slotEntrypoint]))))))).

(** ** Work directories *)

Definition workspacePrefix : string := "slot-".
Definition retiredWorkspacePrefix : string := "deleting-".
Definition labelWorkspacePurge : string := "runneryard.workspace-purge".
Definition purgeTarget : string := "/workspaces".

Definition validWorkRoot (root : string) : bool := safeCachePath root && String.eqb (Clean root) root.

Definition slotWorkspacePrefix (slot : Z) : string := workspacePrefix +:+ Itoa slot +:+ "-".

(** [filepath.Join(root, name)] *)
Definition joinPath (root name : string) : string := Clean (root +:+ "/" +:+ name).

Definition workspacePath (slot : Z) (leaseID : string) : string :=
  joinPath (a_WorkRoot a) (slotWorkspacePrefix slot +:+ leaseID).

Definition purgeArgs : list string :=
  ["run"; "--rm"; "--detach"; "--label"; labelWorkspacePurge +:+ "=true";
   "--network"; "none"; "--read-only"; "--log-driver"; "none";
   "--user"; "0:0"; "--cap-drop"; "ALL"; "--cap-add"; "DAC_OVERRIDE"; "--cap-add"; "FOWNER";
   "--mount"; "type=bind,source=" +:+ a_WorkRoot a +:+ ",target=" +:+ purgeTarget;
   "--pull"; "never"; "--entrypoint"; "/usr/bin/find";
   image; purgeTarget; "-mindepth"; "1"; "-maxdepth"; "1"; "-name"; retiredWorkspacePrefix +:+ "*";
   "-exec"; "rm"; "-rf"; "--"; "{}"; "+"].

(** * Programs *)

Section programs.
Context {W : Type} `{!AgentEnv W}.
Abbreviation P := (prog (agentSys W)).

Definition world {A} (f : W → A * W) : P A :=
  act (λ s, let '(x, w) := f (aworld s) in (x, mkAgentSys w (atrace s))).

(** A call that goes to the trace. *)
Definition traced {A} (f : W → A * W) (entry : A → agentCall) : P A :=
  act (λ s, let '(x, w) := f (aworld s) in (x, mkAgentSys w (entry x :: atrace s))).

Definition docker (env args : list string) : P (dockerOutput * option string) :=
  traced (ae_Docker env args) (λ r, ADocker args r.1 r.2).

Definition inspectContainer (name : string) : P (string + option container) :=
  r ← docker [] ["inspect"; "--type"; "container"; name];
  mret (match r with
        | (_, Some err) => if notFound err then inr None else inl ("docker inspect: " +:+ err)
        | (out, None) => match out_containers out with
                         | Some [item] => inr (Some item)
                         | _ => inl "unexpected docker inspect output"
                         end
        end).

Definition slotByName (name : string) : P (string + Slot) :=
  r ← docker [] ["inspect"; name];
  mret (match r with
        | (_, Some err) => inl err
        | (out, None) => match out_containers out with
                         | Some [item] => match toSlot item with
                                          | Some slot => inr slot
                                          | None => inl "started container lacks slot labels"
                                          end
                         | _ => inl "unexpected docker inspect output"
                         end
        end).

Definition slots : P (string + list Slot) :=
  r ← docker [] ["ps"; "--all"; "--no-trunc"; "--filter"; "label=" +:+ labelSlot; "--format"; "{{.ID}}"];
  match r with
  | (_, Some err) => mret (inl ("docker ps: " +:+ err))
  | (out, None) =>
    match Fields (out_text out) with
    | [] => mret (inr [])
    | ids =>
      r ← docker [] ("inspect" :: ids);
      mret (match out_containers r.1 with
            | Some containers => inr (omap toSlot containers)
            | None => inl (match r.2 with
                           | Some err => "docker inspect: " +:+ err
                           | None => "decode docker inspect"
                           end)
            end)
    end
  end.

Definition imagePresent : P bool :=
  r ← docker [] ["image"; "inspect"; "--format"; "{{.Id}}"; image];
  mret (match r.2 with None => true | Some _ => false end).

Definition cachesFilled : P bool := if a_CachesFilled a then world ae_CachesFilled else mret true.

Definition freeBytes : P (string + Z) :=
  if negb (a_FreeBytes a) then mret (inl "disk space unknown")
  else
  free ← world (ae_FreeBytes (if String.eqb (hc_DockerRoot cfg) "" then defaultDockerFS
                              else hc_DockerRoot cfg));
  match free with
  | inl err => mret (inl err)
  | inr free =>
    if String.eqb (a_WorkRoot a) "" then mret (inr free)
    else
    work ← world (ae_FreeBytes (a_WorkRoot a));
    mret (inr (match work with inr work => if work <? free then work else free | inl _ => free end))
  end.

Definition purgeWorkspaces : P () :=
  if a_PurgeWorkspaces a then world (λ w, ((), ae_PurgeWorkspaces w))
  else docker [] purgeArgs;; mret ().

(** The loop of [retireWorkspaces] over the entries: how many were renamed, and
    the error that ended it. *)
Fixpoint retireEntries (root prefix : string) (names : list string) (retired : nat)
    : P (nat * option string) :=
  match names with
  | [] => mret (retired, None)
  | name :: names =>
    if negb (HasPrefix name prefix) then retireEntries root prefix names retired
    else
    suffix ← world ae_RandText;
    let target := retiredWorkspacePrefix +:+ name +:+ "-" +:+ ToLower suffix in
    err ← traced (ae_Rename (joinPath root name) (joinPath root target))
            (ARename (joinPath root name) (joinPath root target));
    match err with
    | Some err => mret (retired, Some err)
    | None => retireEntries root prefix names (S retired)
    end
  end.

Definition retireWorkspaces (root prefix : string) : P (nat * option string) :=
  entries ← world (ae_ReadDir root);
  match entries with
  | DirMissing => mret (O, None)
  | DirFailed err => mret (O, Some err)
  | DirEntries names => retireEntries root prefix names O
  end.

Definition RetireWorkspaces (root : string) : P (nat * option string) :=
  retireWorkspaces root workspacePrefix.

Definition discardWorkspaces (slot : Z) : P (option string) :=
  if String.eqb (a_WorkRoot a) "" then mret None
  else
  r ← retireWorkspaces (a_WorkRoot a) (slotWorkspacePrefix slot);
  (match r.1 with O => mret () | S _ => purgeWorkspaces end);;
  mret r.2.

Definition prepareWorkspace (slot : Z) (leaseID : string) : P (string + string) :=
  if negb (validWorkRoot (a_WorkRoot a)) then mret (inl "invalid work root")
  else if negb (safeLabelValue leaseID) then mret (inl "invalid lease id")
  else
  err ← world (ae_MkdirAll (a_WorkRoot a));
  match err with
  | Some err => mret (inl err)
  | None =>
    err ← discardWorkspaces slot;
    match err with
    | Some err => mret (inl err)
    | None =>
      let path := workspacePath slot leaseID in
      err ← traced (ae_Mkdir path) (AMkdir path);
      mret (match err with Some err => inl err | None => inr path end)
    end
  end.

Definition retiredWorkspacesLeft (root : string) : P bool :=
  entries ← world (ae_ReadDir root);
  mret (match entries with
        | DirEntries names => existsb (λ name, HasPrefix name retiredWorkspacePrefix) names
        | _ => false
        end).

(** The loop of [awaitPurge]: [polls] polls, then the end. *)
Fixpoint awaitPurgeLoop (polls : nat) (ending : purgeEnd) (required free : Z) : P (string + Z) :=
  match polls, ending with
  | O, PurgeCanceled => mret (inr free)
  | O, PurgeDeadline => freeBytes
  | S polls, _ =>
    current ← freeBytes;
    match current with
    | inl err => mret (inl err)
    | inr current =>
      if required <=? current then mret (inr current)
      else
      more ← retiredWorkspacesLeft (a_WorkRoot a);
      if (more : bool) then awaitPurgeLoop polls ending required current else mret (inr current)
    end
  end.

Definition awaitPurge (required free : Z) : P (string + Z) :=
  more ← (if String.eqb (a_WorkRoot a) "" then mret false else retiredWorkspacesLeft (a_WorkRoot a));
  if negb more then mret (inr free)
  else
  purgeWorkspaces;;
  wait ← world ae_PurgeWait;
  awaitPurgeLoop wait.1 wait.2 required free.

(** ** Verbs *)

(** [None] when the start may go on. *)
Definition ensureDisk (slot : Z) : P (option Reply) :=
  if hc_MinFreeDiskGB cfg =? 0 then mret None
  else
  let required := Z.shiftl (hc_MinFreeDiskGB cfg mod 2 ^ 64) 30 mod 2 ^ 64 in
  let enough (r : string + Z) : bool := match r with inr free => required <=? free | inl _ => true end in
  free ← freeBytes;
  if enough free then mret None
  else
  free ← awaitPurge required (match free with inr free => free | inl _ => 0 end);
  if enough free then mret None
  else
  r ← docker [] (app ["volume"; "rm"; "--force"] (app (map fst (volumes slot)) [retiredWorkVolume slot]));
  match r.2 with
  | Some err =>
    mret (Some (Refused CodeDiskFull
                  ("free disk below minimum and slot caches could not be removed: " +:+ err)))
  | None =>
    free ← freeBytes;
    mret (match free with
          | inr free =>
            if free <? required
            then Some (Refused CodeDiskFull ("free disk " +:+ Itoa (Z.shiftr free 30) +:+ " GB below minimum "
                                             +:+ Itoa (hc_MinFreeDiskGB cfg) +:+ " GB"))
            else None
          | inl _ => None
          end)
  end.

Definition info : P Reply :=
  match a_ConfigErr a with
  | Some _ => mret (Succeeded (RInfo (mkHostInfo (a_Version a) 0 "" false 0)))
  | None =>
    filled ← cachesFilled;
    ready ← (if (filled : bool) then imagePresent else mret false);
    free ← freeBytes;
    mret (Succeeded (RInfo (mkHostInfo (a_Version a) (hc_Slots cfg) (hc_Image cfg) ready
                              (match free with inr free => free | inl _ => 0 end))))
  end.

Definition list_ : P Reply :=
  r ← slots;
  mret (match r with inl err => Refused CodeDockerFailed err | inr l => Succeeded (RSlots l) end).

(** Remove a half-created container, but only one of this lease. *)
Definition removeHalfCreated (name leaseID : string) : P () :=
  found ← inspectContainer name;
  match found with
  | inr (Some item) =>
    if String.eqb (label (c_Labels item) labelLease) leaseID
    then docker [] ["rm"; "--force"; name];; mret () else mret ()
  | _ => mret ()
  end.

(** The start proper, with a work directory or [""]. *)
Definition runSlot (slot : Z) (r : StartRequest) (workspace : string) : P Reply :=
  let name := containerName slot in
  started ← docker ["ACTIONS_RUNNER_INPUT_JITCONFIG=" +:+ sr_JITConfig r] (runArgs slot r workspace);
  match started.2 with
  | Some err =>
    removeHalfCreated name (sr_LeaseID r);;
    mret (Refused CodeDockerFailed ("docker run: " +:+ err))
  | None =>
    slot ← slotByName name;
    mret (match slot with
          | inl err => Refused CodeDockerFailed ("inspect started slot: " +:+ err)
          | inr slot => Succeeded (RSlot slot)
          end)
  end.

(** A valid request for a slot: what must hold before it is run. *)
Definition startValid (slot : Z) (r : StartRequest) : P Reply :=
  found ← inspectContainer (containerName slot);
  match found with
  | inl err => mret (Refused CodeDockerFailed err)
  | inr (Some _) => mret (Refused CodeSlotBusy "slot already holds a container")
  | inr None =>
    present ← imagePresent;
    if negb present then mret (Refused CodeNotReady "runner image is not present")
    else
    filled ← cachesFilled;
    if negb filled then mret (Refused CodeNotReady "slot caches are still being filled")
    else
    refusal ← ensureDisk slot;
    match refusal with
    | Some reply => mret reply
    | None =>
      if String.eqb (a_WorkRoot a) "" then runSlot slot r ""
      else
      workspace ← prepareWorkspace slot (sr_LeaseID r);
      match workspace with
      | inl err => mret (Refused CodeNotReady ("prepare work directory: " +:+ err))
      | inr workspace => runSlot slot r workspace
      end
    end
  end.

Definition start (slot : Z) (input : stdin) : P Reply :=
  match input with
  | None => mret (Refused CodeInvalid "unreadable or oversized start request")
  | Some (length, request) =>
    if maxRequestBytes <? length then mret (Refused CodeInvalid "unreadable or oversized start request")
    else match request with
    | None => mret (Refused CodeInvalid "start request is not valid JSON")
    | Some r =>
      if negb (String.eqb (sr_Image r) (hc_Image cfg))
      then mret (Refused CodeImageMismatch ("host serves " +:+ hc_Image cfg))
      else
      now ← world ae_Now;
      match validate now r with
      | Some err => mret (Refused CodeInvalid err)
      | None => startValid slot r
      end
    end
  end.

Definition remove (slot : Z) (leaseID : string) : P Reply :=
  let name := containerName slot in
  let discard (found : bool) : P Reply :=
    err ← discardWorkspaces slot;
    mret (match err with
          | Some err => Refused CodeDockerFailed ("retire work directory: " +:+ err)
          | None => Succeeded (RRemoved found)
          end) in
  item ← inspectContainer name;
  match item with
  | inl err => mret (Refused CodeDockerFailed err)
  | inr None => discard false
  | inr (Some item) =>
    if negb (String.eqb (label (c_Labels item) labelLease) leaseID)
    then mret (Refused CodeLeaseMismatch "slot holds another lease")
    else
    (if String.eqb (c_Status item) "running" then docker [] ["wait"; name];; mret () else mret ());;
    removed ← docker [] ["rm"; "--force"; name];
    match removed.2 with
    | Some err => mret (Refused CodeDockerFailed ("docker rm: " +:+ err))
    | None => discard true
    end
  end.

Definition locked (slot : Z) (run : P Reply) : P Reply :=
  if negb (a_Lock a) then run
  else
  err ← traced (ae_Lock slot) (λ _, ALock slot);
  match err with
  | Some err => mret (Refused CodeDockerFailed ("lock slot: " +:+ err))
  | None =>
    reply ← run;
    traced (λ w, ((), ae_Unlock slot w)) (λ _, AUnlock slot);;
    mret reply
  end.

Definition Handle (command : string) (input : stdin) : P Reply :=
  match Fields command with
  | [] => mret (Refused CodeInvalid "empty command")
  | verb :: args =>
    if String.eqb verb "info" && bool_decide (args = []) then info
    else
    match a_ConfigErr a with
    | Some err => mret (Refused CodeNotReady ("host is not installed: " +:+ err))
    | None =>
      match args with
      | [] => if String.eqb verb "list" then list_ else mret (Refused CodeInvalid "unknown command")
      | [value] =>
        if negb (String.eqb verb "start") then mret (Refused CodeInvalid "unknown command")
        else match slotIndex value with
        | None => mret (Refused CodeInvalid "invalid slot")
        | Some slot => locked slot (start slot input)
        end
      | [value; leaseID] =>
        if negb (String.eqb verb "remove") then mret (Refused CodeInvalid "unknown command")
        else match slotIndex value with
        | Some slot =>
          if safeLabelValue leaseID then locked slot (remove slot leaseID)
          else mret (Refused CodeInvalid "invalid slot or lease")
        | None => mret (Refused CodeInvalid "invalid slot or lease")
        end
      | _ => mret (Refused CodeInvalid "unknown command")
      end
    end
  end.

(** [PrefillCaches], one slot after the other: the slots that failed. *)
Definition prefillArgs (slot : Z) : list string :=
  app ["run"; "--rm"; "--network"; "none"; "--pull"; "never"; "--entrypoint"; "/usr/bin/true"]
    (app (volumeMounts slot) [image]).

Fixpoint prefillFrom (count : nat) (slot : Z) : P (list (Z * string)) :=
  match count with
  | O => mret []
  | S count =>
    r ← docker [] (prefillArgs slot);
    errs ← prefillFrom count (slot + 1);
    mret (match r.2 with Some err => (slot, err) :: errs | None => errs end)
  end.

Definition PrefillCaches : P (list (Z * string)) := prefillFrom (Z.to_nat (hc_Slots cfg)) 0.
End programs.
End agent.
