(* ===== verification/HostAgentFacts.v ===== *)
(** The host agent against what docker promises.

    [SlotDocker] states what the agent relies on of docker, for one slot: an
    inspect tells the truth, a name is given to one container only, and only a
    run under the slot's name or a removal of it changes what the slot holds.
    Commands for other slots may run at the same time; those for this slot are
    kept apart by its lock.  [startSpec] and [removeSpec] are the abstract slot:
    empty, or holding a container with its labels. *)

From S2P Require Import Prelude Program Float64 GoStrings GoText PoolState HostAgent.

#[local] Open Scope string_scope.
#[local] Open Scope Z_scope.

Abbreviation labelMap := (gmap string string).

(** * The command line of docker run *)

(** The values given to a flag of [docker run]: flags come first, all but the
    listed ones with a value, and the image ends them. *)
Fixpoint flagValues (flag : string) (args : list string) : list string :=
  match args with
  | [] => []
  | x :: rest =>
    if String.eqb x "run" || String.eqb x "--detach" || String.eqb x "--privileged"
    then flagValues flag rest
    else if negb (HasPrefix x "--") then []
    else match rest with
    | [] => []
    | y :: rest => if String.eqb x flag then y :: flagValues flag rest else flagValues flag rest
    end
  end.

Definition runName (args : list string) : string := default "" (head (flagValues "--name" args)).

Definition addLabel (l : labelMap) (text : string) : labelMap :=
  match Cut "=" text with Some (k, v) => <[k := v]> l | None => <[text := ""]> l end.

Definition runLabels (args : list string) : labelMap := fold_left addLabel (flagValues "--label" args) ∅.

(** Whether a command may change what a name holds: a detached run under that
    name, a removal of it. *)
Definition isRun (args : list string) : bool :=
  match args with x :: y :: _ => String.eqb x "run" && String.eqb y "--detach" | _ => false end.

Definition isRm (args : list string) : bool :=
  match args with x :: _ => String.eqb x "rm" | _ => false end.

Definition addresses (name : string) (args : list string) : bool :=
  isRun args && String.eqb (runName args) name || isRm args && bool_decide (name ∈ args).

(** * What docker promises *)

Section docker.
Context {W : Type} `{!AgentEnv W}.

Class SlotDocker (name : string) (held : W → option labelMap) : Prop := {
  docker_inspect flags w r w' :
    flags = ["--type"; "container"] ∨ flags = [] →
    ae_Docker [] (app ("inspect" :: flags) [name]) w = (r, w') →
    held w' = held w
    ∧ (r.2 = None → ∀ item, out_containers r.1 = Some [item] → held w = Some (c_Labels item))
    ∧ (∀ err, r.2 = Some err → notFound err = true → held w = None);
  docker_run env args w r w' :
    isRun args = true → runName args = name → ae_Docker env args w = (r, w') →
    match held w with
    | Some _ => is_Some r.2 ∧ held w' = held w
    | None => held w' = Some (runLabels args) ∨ is_Some r.2 ∧ held w' = None
    end;
  docker_rm env w r w' :
    ae_Docker env ["rm"; "--force"; name] w = (r, w') →
    held w' = None ∨ is_Some r.2 ∧ held w' = held w;
  docker_other env args w r w' :
    addresses name args = false → ae_Docker env args w = (r, w') → held w' = held w;
  docker_alone_lock slot w r w' : ae_Lock slot w = (r, w') → held w' = held w;
  docker_alone_unlock slot w : held (ae_Unlock slot w) = held w;
  docker_alone_free path w r w' : ae_FreeBytes path w = (r, w') → held w' = held w;
  docker_alone_filled w r w' : ae_CachesFilled w = (r, w') → held w' = held w;
  docker_alone_purge w : held (ae_PurgeWorkspaces w) = held w;
  docker_alone_now w r w' : ae_Now w = (r, w') → held w' = held w;
  docker_alone_mkdirall path w r w' : ae_MkdirAll path w = (r, w') → held w' = held w;
  docker_alone_mkdir path w r w' : ae_Mkdir path w = (r, w') → held w' = held w;
  docker_alone_readdir path w r w' : ae_ReadDir path w = (r, w') → held w' = held w;
  docker_alone_rename p q w r w' : ae_Rename p q w = (r, w') → held w' = held w;
  docker_alone_rand w r w' : ae_RandText w = (r, w') → held w' = held w;
  docker_alone_wait w r w' : ae_PurgeWait w = (r, w') → held w' = held w
}.
End docker.

(** * The abstract slot *)

Definition requestLabels (slot : Z) (r : StartRequest) : labelMap := list_to_map (slotLabels slot r).

(** A start on a slot that holds [h], and then [h']. *)
Definition startSpec (slot : Z) (r : StartRequest) (h : option labelMap) (reply : Reply) (h' : option labelMap) : Prop :=
  match reply with
  | Succeeded (RSlot s) =>
    h = None ∧ h' = Some (requestLabels slot r) ∧ slot_Index s = slot ∧ slot_LeaseID s = sr_LeaseID r
    ∧ slot_ControllerID s = sr_ControllerID r ∧ slot_RunnerName s = sr_RunnerName r
  | Succeeded _ => False
  | Refused code _ =>
    if String.eqb code CodeDockerFailed
    then h' = h ∨ h = None ∧ h' = Some (requestLabels slot r)
    else h' = h
  end.

(** The removal of a lease from a slot. *)
Definition removeSpec (leaseID : string) (h : option labelMap) (reply : Reply) (h' : option labelMap) : Prop :=
  let mine := ∃ l, h = Some l ∧ label l labelLease = leaseID in
  match reply with
  | Succeeded (RRemoved found) => h' = None ∧ if found then mine else h = None
  | Succeeded _ => False
  | Refused code _ =>
    if String.eqb code CodeLeaseMismatch
    then h' = h ∧ ∃ l, h = Some l ∧ label l labelLease ≠ leaseID
    else h' = h ∨ h' = None ∧ (h = None ∨ mine)
  end.

(** * The arguments of a start *)

Section args.
Context (a : Agent).

Hypothesis Himage : HasPrefix (image a) "--" = false.

(** Options that are not [flag], each with its value. *)
Definition skips (flag : string) (xs : list string) : Prop :=
  ∀ ys, flagValues flag (app xs ys) = flagValues flag ys.

Lemma skips_app flag xs ys : skips flag xs → skips flag ys → skips flag (app xs ys).
Proof. intros Hx Hy zs. rewrite <- app_assoc, Hx. apply Hy. Qed.

Lemma flagValues_option flag x y ys :
  String.eqb x "run" || String.eqb x "--detach" || String.eqb x "--privileged" = false →
  HasPrefix x "--" = true →
  flagValues flag (x :: y :: ys) = if String.eqb x flag then y :: flagValues flag ys else flagValues flag ys.
Proof. intros H1 H2. cbn [flagValues]. by rewrite H1, H2. Qed.

Lemma flagValues_switch flag x ys :
  String.eqb x "run" || String.eqb x "--detach" || String.eqb x "--privileged" = true →
  flagValues flag (x :: ys) = flagValues flag ys.
Proof. intros H. cbn [flagValues]. by rewrite H. Qed.

Lemma skips_mounts flag slot : String.eqb "--mount" flag = false → skips flag (volumeMounts a slot).
Proof.
  intros Hf. unfold volumeMounts. generalize (volumes a slot). intros l ys.
  induction l as [|v l IH]; [done |]. cbn [map concat app]. by rewrite flagValues_option, Hf.
Qed.

Lemma flagValues_labels flag slot r ys :
  flagValues flag (app (concat (map (λ l, ["--label"; l.1 +:+ "=" +:+ l.2]) (slotLabels slot r))) ys)
  = app (if String.eqb "--label" flag then map (λ l, l.1 +:+ "=" +:+ l.2) (slotLabels slot r) else [])
        (flagValues flag ys).
Proof.
  generalize (slotLabels slot r). intros l. induction l as [|x l IH]; [by destruct (String.eqb _ _) |].
  cbn [map concat app]. rewrite flagValues_option, IH by done. by destruct (String.eqb _ _).
Qed.

(** After the labels comes no label and no name. *)
Lemma flagValues_tail flag slot r ws :
  flag = "--label" ∨ flag = "--name" →
  flagValues flag
    (app ["--log-driver"; "json-file"; "--log-opt"; "max-size=20m"; "--log-opt"; "max-file=2"]
    (app (cpuArgs a slot)
    (app (if 0 <? hc_SlotMemoryMB (a_Config a) then ["--memory"; Itoa (hc_SlotMemoryMB (a_Config a)) +:+ "m"] else [])
    (app ["--env"; "ACTIONS_RUNNER_INPUT_JITCONFIG";
          "--env"; "RUNNERYARD_DEADLINE=" +:+ FormatRFC3339 (sr_Deadline r);
          "--env"; "RUNNERYARD_IDLE_TIMEOUT=" +:+ Itoa (sr_IdleTimeoutSeconds r);
          "--env"; "RUNNERYARD_REUSED_SLOT=1"]
    (app (volumeMounts a slot)
    (app (if String.eqb ws "" then [] else ["--mount"; "type=bind,source=" +:+ ws +:+ ",target=" +:+ workspaceTarget])
    ["--pull"; "never"; "--entrypoint"; "/usr/bin/dumb-init"; image a; "--"; slotEntrypoint])))))) = [].
Proof.
  intros Hf.
  assert (Hskip : ∀ xs ys, skips flag xs → flagValues flag ys = [] → flagValues flag (app xs ys) = [])
    by (intros xs ys Hx <-; apply Hx).
  assert (Hm : String.eqb "--mount" flag = false) by (by destruct Hf as [-> | ->]).
  apply Hskip; [by intros ys; destruct Hf as [-> | ->] |].
  apply Hskip; [intros ys; unfold cpuArgs; do 2 case_bool; by destruct Hf as [-> | ->] |].
  apply Hskip; [intros ys; case_bool; by destruct Hf as [-> | ->] |].
  apply Hskip; [by intros ys; destruct Hf as [-> | ->] |].
  apply Hskip; [by apply skips_mounts |].
  apply Hskip; [intros ys; case_bool; by destruct Hf as [-> | ->] |].
  assert (Hi : flagValues flag [image a; "--"; slotEntrypoint] = []).
  { destruct Hf as [-> | ->]; cbn [flagValues]; rewrite Himage; by destruct (_ || _). }
  rewrite !flagValues_option, Hi by done. by destruct Hf as [-> | ->].
Qed.

Lemma runArgs_name slot r ws : runName (runArgs a slot r ws) = containerName slot.
Proof.
  unfold runName, runArgs. cbn [app]. change (flagValues "--name" ?x) with (flagValues "--name" x).
  match goal with |- context [flagValues "--name" (_ :: _ :: _ :: ?v :: ?rest)] =>
    change (flagValues "--name" (_ :: _ :: _ :: v :: rest)) with (v :: flagValues "--name" rest) end.
  done.
Qed.

Lemma runArgs_isRun slot r ws : isRun (runArgs a slot r ws) = true.
Proof. done. Qed.

Lemma runArgs_labels slot r ws :
  flagValues "--label" (runArgs a slot r ws) = map (λ l, l.1 +:+ "=" +:+ l.2) (slotLabels slot r).
Proof.
  unfold runArgs.
  assert (Hhead : skips "--label" ["run"; "--detach"; "--name"; containerName slot; "--hostname";
                                   sr_RunnerName r; "--privileged"]).
  { intros ys. cbn [app]. rewrite !flagValues_switch by done. rewrite !flagValues_option by done.
    cbn [String.eqb Ascii.eqb Bool.eqb]. by rewrite flagValues_switch. }
  rewrite Hhead, flagValues_labels, flagValues_tail, app_nil_r by auto. done.
Qed.

Lemma addLabel_kv k v m : containsByte "=" k = false → addLabel m (k +:+ "=" +:+ v) = <[k := v]> m.
Proof.
  intros H. unfold addLabel. change (k +:+ "=" +:+ v) with (k +:+ String "=" v). by rewrite Cut_app.
Qed.

Lemma fold_addLabel (l : list (string * string)) m :
  NoDup l.*1 → Forall (λ x, containsByte "=" x.1 = false) l →
  fold_left addLabel (map (λ x, x.1 +:+ "=" +:+ x.2) l) m = list_to_map l ∪ m.
Proof.
  revert m. induction l as [|[k v] l IH]; intros m Hnd Hk; cbn; [by rewrite (left_id_L ∅ (∪)) |].
  apply NoDup_cons in Hnd as [Hn Hnd]. apply Forall_cons in Hk as [Hk Hks].
  rewrite addLabel_kv, IH by done. rewrite <- insert_union_l, insert_union_r; [done |].
  by apply not_elem_of_list_to_map_1.
Qed.

Lemma slotLabels_NoDup slot r : NoDup (slotLabels slot r).*1.
Proof. cbn. apply (bool_decide_unpack _). by vm_compute. Qed.

(** The labels docker keeps are the request's. *)
Lemma runLabels_request slot r ws : runLabels (runArgs a slot r ws) = requestLabels slot r.
Proof.
  unfold runLabels. rewrite runArgs_labels, fold_addLabel; [by rewrite (right_id_L ∅ (∪)) | |].
  - exact (slotLabels_NoDup slot r).
  - repeat constructor.
Qed.

End args.

Lemma requestLabels_toSlot slot r item :
  0 <= slot <= max_int64 → c_Labels item = requestLabels slot r →
  ∃ s, toSlot item = Some s ∧ slot_Index s = slot ∧ slot_LeaseID s = sr_LeaseID r
    ∧ slot_ControllerID s = sr_ControllerID r ∧ slot_RunnerName s = sr_RunnerName r.
Proof.
  intros Hs Hl. unfold toSlot. rewrite Hl.
  assert (Hlook : ∀ k v, (k, v) ∈ slotLabels slot r → label (requestLabels slot r) k = v).
  { intros k v Hin. unfold label, requestLabels. erewrite elem_of_list_to_map_1; [done | | exact Hin].
    exact (slotLabels_NoDup slot r). }
  rewrite (Hlook labelSlot (Itoa slot)) by (by left). rewrite ParseInt_Itoa by done.
  destruct (Z.ltb_spec slot 0); [lia |]. cbn. eexists. split; [done |]. cbn.
  split_and!; [done | | |]; apply Hlook; unfold slotLabels; set_solver.
Qed.

Lemma Itoa_inj n m : 0 <= n <= max_int64 → 0 <= m <= max_int64 → Itoa n = Itoa m → n = m.
Proof. intros Hn Hm H. pose proof (ParseInt_Itoa n Hn) as P. rewrite H, ParseInt_Itoa in P by done. congruence. Qed.

Lemma containerName_inj n m :
  0 <= n <= max_int64 → 0 <= m <= max_int64 → containerName n = containerName m → n = m.
Proof. unfold containerName. intros Hn Hm H. apply (inj (String.append _)) in H. by apply Itoa_inj. Qed.

Lemma slotIndex_range a value slot :
  slotIndex a value = Some slot → 0 <= slot <= max_int64 ∧ slot < hc_Slots (a_Config a) ∧ value = Itoa slot.
Proof.
  unfold slotIndex. destruct (ParseInt value) as [z ok] eqn:E. destruct ok; [|done].
  assert (Hz : z <= max_int64).
  { unfold ParseInt in E. destruct (match value with String _ _ => _ | _ => _ end) as [neg digits].
    repeat case_match; simplify_eq; unfold max_int64 in *; lia. }
  cbn [negb orb]. case_bool; [done |]. rewrite !orb_false_iff in *. destruct_and!. breflect.
  intros [= ->]. by rewrite String.eqb_eq in *.
Qed.
