(* ===== verification/HostAgentTheorems.v ===== *)
(** What the host agent guarantees, for any docker that keeps [SlotDocker]. *)

From S2P Require Import Prelude Program Float64 GoStrings GoText PoolState HostAgent HostAgentFacts.

#[local] Open Scope string_scope.
#[local] Open Scope Z_scope.

Section agent.
Context {W : Type} `{!AgentEnv W} (a : Agent) (slot : Z) (held : W → option labelMap).
Abbreviation name := (containerName slot).
Abbreviation P := (prog (agentSys W)).
Context `{!SlotDocker name held}.

Definition holds (s : agentSys W) : option labelMap := held (aworld s).

(** * Programs that leave the slot alone *)

Definition quiet {A} (p : P A) : Prop := ∀ s, holds (execP p s) = holds s.

Lemma quiet_ret {A} (x : A) : quiet (mret x).
Proof. done. Qed.

Lemma quiet_bind {A B} (p : P A) (f : A → P B) : quiet p → (∀ x, quiet (f x)) → quiet (p ≫= f).
Proof. intros Hp Hf s. by rewrite execP_bind, Hf, Hp. Qed.

Lemma quiet_world {A} (f : W → A * W) : (∀ w r w', f w = (r, w') → held w' = held w) → quiet (world f).
Proof.
  intros H s. unfold execP, holds. simpl. destruct (f (aworld s)) as [x w] eqn:E. simpl. eauto.
Qed.

Lemma quiet_traced {A} (f : W → A * W) entry :
  (∀ w r w', f w = (r, w') → held w' = held w) → quiet (traced f entry).
Proof.
  intros H s. unfold execP, holds. simpl. destruct (f (aworld s)) as [x w] eqn:E. simpl. eauto.
Qed.

Lemma quiet_docker env args : addresses name args = false → quiet (docker env args).
Proof. intros H. apply quiet_traced. intros w r w'. by apply docker_other. Qed.

Ltac quiet_step :=
  match goal with
  | |- quiet (mret _) => apply quiet_ret
  | |- quiet (_ ≫= _) => apply quiet_bind; [|intros ?]
  | |- quiet (docker _ _) => by apply quiet_docker
  | |- quiet (world _) => apply quiet_world; intros ? ? ?
  | |- quiet (traced _ _) => apply quiet_traced; intros ? ? ?
  | |- quiet (if ?b then _ else _) => destruct b
  | |- quiet (match ?x with _ => _ end) => destruct x
  | |- _ = _ → _ => first [ apply docker_alone_lock | apply docker_alone_free | apply docker_alone_filled
      | apply docker_alone_now | apply docker_alone_mkdirall | apply docker_alone_mkdir
      | apply docker_alone_readdir | apply docker_alone_rename | apply docker_alone_rand
      | apply docker_alone_wait ]
  end.
Ltac quietly := repeat quiet_step.

Lemma quiet_inspect n : quiet (inspectContainer n).
Proof. unfold inspectContainer. quietly. Qed.

Lemma quiet_imagePresent : quiet (imagePresent a).
Proof. unfold imagePresent. quietly. Qed.

Lemma quiet_cachesFilled : quiet (cachesFilled a).
Proof. unfold cachesFilled. quietly. Qed.

Lemma quiet_freeBytes : quiet (freeBytes a).
Proof. unfold freeBytes. quietly. Qed.

Lemma quiet_purgeWorkspaces : quiet (purgeWorkspaces a).
Proof.
  unfold purgeWorkspaces. quietly. intros [= <- <-]. apply docker_alone_purge.
Qed.

Lemma quiet_retireEntries root prefix names n : quiet (retireEntries root prefix names n).
Proof. revert n. induction names; intros n; cbn [retireEntries]; quietly; auto. Qed.

Lemma quiet_discard n : quiet (discardWorkspaces a n).
Proof.
  unfold discardWorkspaces, retireWorkspaces. quietly; auto using quiet_retireEntries, quiet_purgeWorkspaces.
Qed.

Lemma quiet_prepare n leaseID : quiet (prepareWorkspace a n leaseID).
Proof. unfold prepareWorkspace. quietly; auto using quiet_discard. Qed.

Lemma quiet_left root : quiet (retiredWorkspacesLeft root).
Proof. unfold retiredWorkspacesLeft. quietly. Qed.

Lemma quiet_awaitPurgeLoop polls ending required free : quiet (awaitPurgeLoop a polls ending required free).
Proof.
  revert free. induction polls; intros free; cbn [awaitPurgeLoop]; quietly;
    auto using quiet_freeBytes, quiet_left.
Qed.

Lemma quiet_awaitPurge required free : quiet (awaitPurge a required free).
Proof.
  unfold awaitPurge. quietly; auto using quiet_left, quiet_purgeWorkspaces, quiet_awaitPurgeLoop.
Qed.

Lemma quiet_ensureDisk n : quiet (ensureDisk a n).
Proof. unfold ensureDisk. quietly; auto using quiet_freeBytes, quiet_awaitPurge. Qed.

(** * The verbs *)

Definition post {A} (p : P A) (Q : option labelMap → A → option labelMap → Prop) : Prop :=
  ∀ s, Q (holds s) (evalP p s) (holds (execP p s)).

Lemma post_ret {A} (x : A) Q : (∀ h, Q h x h) → post (mret x) Q.
Proof. intros H s. apply H. Qed.

(** After a program that leaves the slot alone. *)
Lemma post_quiet {A B} (p : P A) (f : A → P B) Q : quiet p → (∀ x, post (f x) Q) → post (p ≫= f) Q.
Proof. intros Hp Hf s. rewrite evalP_bind, execP_bind, <- (Hp s). apply Hf. Qed.

(** What an inspect of the slot tells. *)
Lemma post_inspect {B} (f : string + option container → P B) Q :
  (∀ err, post (f (inl err)) Q) →
  (∀ item, post (f (inr (Some item))) (λ h r h', h = Some (c_Labels item) → Q h r h')) →
  post (f (inr None)) (λ h r h', h = None → Q h r h') →
  post (inspectContainer name ≫= f) Q.
Proof.
  intros Herr Hsome Hnone s. rewrite evalP_bind, execP_bind.
  pose proof (quiet_inspect name s) as Hq. revert Hq.
  assert (Hi : match evalP (inspectContainer name) s with
               | inr (Some item) => holds s = Some (c_Labels item)
               | inr None => holds s = None
               | inl _ => True
               end).
  { unfold inspectContainer. rewrite evalP_bind. unfold evalP at 2. cbn [docker traced act runP fst].
    change (aworld s) with (aworld s). unfold holds.
    destruct (ae_Docker [] ["inspect"; "--type"; "container"; name] (aworld s)) as [r w] eqn:E.
    destruct (docker_inspect ["--type"; "container"] _ _ _ (or_introl eq_refl) E) as (_ & H1 & H2).
    destruct r as [out [err|]]; simpl.
    - destruct (notFound err) eqn:En; simpl; [|done]. by eapply H2.
    - destruct (out_containers out) as [[|item [|]]|] eqn:Eo; simpl; try done. by eapply H1. }
  destruct (evalP (inspectContainer name) s) as [err|[item|]]; intros Hq; rewrite <- Hq in *.
  - apply Herr.
  - by apply Hsome.
  - by apply Hnone.
Qed.

Lemma post_conseq {A} (p : P A) (Q Q' : option labelMap → A → option labelMap → Prop) :
  post p Q' → (∀ h x h', Q' h x h' → Q h x h') → post p Q.
Proof. intros Hp H s. apply H, Hp. Qed.

Lemma post_bind {A B} (p : P A) (f : A → P B) T Q :
  post p T → (∀ x, post (f x) (λ h r h', ∀ h0, T h0 x h → Q h0 r h')) → post (p ≫= f) Q.
Proof. intros Hp Hf s. rewrite evalP_bind, execP_bind. eapply Hf, Hp. Qed.

(** The removal of the slot's container. *)
Lemma post_rm env : post (docker env ["rm"; "--force"; name])
  (λ h r h', h' = None ∨ is_Some r.2 ∧ h' = h).
Proof.
  intros s. unfold evalP, execP, holds. cbn [docker traced act runP].
  destruct (ae_Docker env ["rm"; "--force"; name] (aworld s)) as [r w] eqn:E. simpl.
  by eapply docker_rm.
Qed.

Lemma post_slotByName : post (slotByName name) (λ h r h', h' = h ∧
  match r with
  | inr sl => ∃ item, h = Some (c_Labels item) ∧ toSlot item = Some sl
  | inl _ => True
  end).
Proof.
  intros s. unfold slotByName. rewrite evalP_bind, execP_bind. unfold evalP, execP, holds.
  cbn [docker traced act runP fst snd mret prog_ret aworld].
  destruct (ae_Docker [] ["inspect"; name] (aworld s)) as [r w] eqn:E. cbn [runP fst snd aworld].
  destruct (docker_inspect [] _ _ _ (or_intror eq_refl) E) as (Hh & H1 & _). split; [done |].
  destruct r as [out [err|]]; simpl in *; [done |].
  destruct (out_containers out) as [[|item [|]]|]; try done.
  destruct (toSlot item) eqn:Et; [|done]. exists item. split; [by apply H1 | done].
Qed.

Context (Himage : HasPrefix (image a) "--" = false) (Hslot : 0 <= slot <= max_int64).

Lemma post_run env r ws : post (docker env (runArgs a slot r ws))
  (λ h x h', h = None → h' = Some (requestLabels slot r) ∨ is_Some x.2 ∧ h' = None).
Proof.
  intros s. unfold evalP, execP, holds. cbn [docker traced act runP].
  destruct (ae_Docker env (runArgs a slot r ws) (aworld s)) as [x w] eqn:E. cbn [fst snd aworld].
  intros Hn. pose proof (docker_run _ _ _ _ _ (runArgs_isRun a slot r ws) (runArgs_name a slot r ws) E) as H.
  by rewrite Hn, (runLabels_request a Himage) in H.
Qed.

Lemma post_halfCreated leaseID : post (removeHalfCreated name leaseID) (λ h _ h', h' = None ∨ h' = h).
Proof.
  unfold removeHalfCreated. apply post_inspect.
  - intros err. apply post_ret. auto.
  - intros item. destruct (String.eqb _ _); [|apply post_ret; auto].
    eapply post_bind; [apply post_rm |]. intros x. apply post_ret. intros h h0 [?|[_ ?]]; auto.
  - apply post_ret. auto.
Qed.

Lemma post_runSlot r ws : post (runSlot a slot r ws) (λ h reply h', h = None → startSpec slot r h reply h').
Proof.
  unfold runSlot. eapply post_bind; [apply post_run |]. intros [out [err|]]; cbn [snd].
  - eapply post_bind; [apply post_halfCreated |]. intros []. apply post_ret.
    intros h2 h1 H12 h0 H01 ->. destruct (H01 eq_refl) as [->|[_ ->]], H12 as [->| ->]; cbn; auto.
  - eapply post_bind; [apply post_slotByName |]. intros [err|sl]; apply post_ret; intros h2 h1 [-> H1] h0 H0 ->;
      destruct (H0 eq_refl) as [->|[[] _]]; try done; cbn; [by auto |].
    destruct H1 as (item & Hl & Ht). simplify_eq.
    destruct (requestLabels_toSlot slot r item Hslot ltac:(congruence)) as (s & Hs & ?).
    rewrite Ht in Hs. simplify_eq. auto.
Qed.

Lemma post_ensureDisk : post (ensureDisk a slot) (λ h x h', h' = h ∧
  match x with Some reply => ∃ msg, reply = Refused CodeDiskFull msg | None => True end).
Proof.
  intros s. split; [apply quiet_ensureDisk |]. revert s.
  enough (H : post (ensureDisk a slot) (λ _ x _,
    match x with Some reply => ∃ msg, reply = Refused CodeDiskFull msg | None => True end)) by exact H.
  unfold ensureDisk. destruct (_ =? 0); [by apply post_ret |].
  apply post_quiet; [apply quiet_freeBytes |]. intros free.
  destruct (match free with inr _ => _ | inl _ => _ end); [by apply post_ret |].
  apply post_quiet; [apply quiet_awaitPurge |]. intros free'.
  destruct (match free' with inr _ => _ | inl _ => _ end); [by apply post_ret |].
  apply post_quiet; [by apply quiet_docker |]. intros [out [err|]]; cbn [snd]; [apply post_ret; eauto |].
  apply post_quiet; [apply quiet_freeBytes |]. intros [err|left]; apply post_ret; [done |].
  intros h. case_bool; eauto.
Qed.

Lemma post_startValid r : post (startValid a slot r) (startSpec slot r).
Proof.
  unfold startValid. apply post_inspect.
  - intros err. apply post_ret. cbn. auto.
  - intros item. apply post_ret. done.
  - apply post_quiet; [apply quiet_imagePresent |]. intros [|]; cbn [negb]; [|apply post_ret; done].
    apply post_quiet; [apply quiet_cachesFilled |]. intros [|]; cbn [negb]; [|apply post_ret; done].
    eapply post_bind; [apply post_ensureDisk |]. intros [reply|].
    + apply post_ret. intros h h0 [-> [msg ->]] _. done.
    + eapply (post_conseq _ _ (λ h reply h', h = None → startSpec slot r h reply h')).
      2:{ intros h x h' H h0 [-> _]. exact H. }
      destruct (String.eqb _ _); [apply post_runSlot |].
      apply post_quiet; [apply quiet_prepare |]. intros [err|ws]; [by apply post_ret | apply post_runSlot].
Qed.

(** A start: of a request that is read, or of none. *)
Lemma post_start input :
  post (start a slot input) (λ h reply h',
    match input with
    | Some (_, Some r) => startSpec slot r h reply h'
    | _ => ∃ code msg, reply = Refused code msg ∧ h' = h
    end).
Proof.
  destruct input as [[len [r|]]|]; cbn [start].
  - destruct (_ <? len); [by apply post_ret |]. destruct (negb _); [by apply post_ret |].
    apply post_quiet; [apply quiet_world; intros ???; apply docker_alone_now |]. intros now.
    destruct (validate now r); [by apply post_ret | apply post_startValid].
  - destruct (_ <? len); apply post_ret; eauto.
  - apply post_ret. eauto.
Qed.

Lemma post_remove leaseID : post (remove a slot leaseID) (removeSpec leaseID).
Proof.
  unfold remove.
  assert (Hdiscard : ∀ (found : bool) h0, (if found then ∃ l, h0 = Some l ∧ label l labelLease = leaseID else h0 = None) →
    post (err ← discardWorkspaces a slot; mret (match err with
            | Some err => Refused CodeDockerFailed ("retire work directory: " +:+ err)
            | None => Succeeded (RRemoved found) end))
      (λ h reply h', h = None → removeSpec leaseID h0 reply h')).
  { intros found h0 H0. apply post_quiet; [apply quiet_discard |].
    intros [err|]; apply post_ret; intros h ->; cbn; [|done].
    right. split; [done |]. destruct found; auto. }
  apply post_inspect.
  - intros err. apply post_ret. cbn. auto.
  - intros item. destruct (String.eqb_spec (label (c_Labels item) labelLease) leaseID) as [Hm|Hm]; cbn [negb].
    2:{ apply post_ret. intros h ->. cbn. split; [done |]. eauto. }
    apply post_quiet; [destruct (String.eqb _ _); [|apply quiet_ret];
                       apply quiet_bind; [by apply quiet_docker | intros; apply quiet_ret] |]. intros _.
    eapply post_bind; [apply post_rm |]. intros [out [err|]]; cbn [snd].
    + apply post_ret. intros h h0 H ->. cbn. destruct H as [->|[_ ->]]; [|by left]. right. eauto.
    + intros s h0 H Hh. destruct H as [H|[[] _]]; [|done].
      apply (Hdiscard true h0); [eauto | done].
  - intros s Hs. rewrite Hs. by apply (Hdiscard false None).
Qed.

Lemma post_locked run Q : post run Q →
  (∀ h err, Q h (Refused CodeDockerFailed ("lock slot: " +:+ err)) h) → post (locked a slot run) Q.
Proof.
  intros Hrun Herr. unfold locked. destruct (negb _); [done |].
  apply post_quiet; [apply quiet_traced; intros ???; apply docker_alone_lock |].
  intros [err|]; [by apply post_ret |]. eapply post_bind; [exact Hrun |]. intros reply.
  apply post_quiet; [apply quiet_traced; intros ? ? ? [= <- <-]; apply docker_alone_unlock |].
  intros _. apply post_ret. auto.
Qed.
(** * Other slots *)

Section other.
Context (n : Z) (Hn : 0 <= n <= max_int64) (Hother : n ≠ slot).

Lemma other_name : containerName n ≠ name.
Proof. intros H. by apply Hother, containerName_inj. Qed.

Lemma quiet_run_other env r ws : quiet (docker env (runArgs a n r ws)).
Proof.
  apply quiet_docker. unfold addresses. rewrite runArgs_name, (proj2 (String.eqb_neq _ _) other_name).
  done.
Qed.

Lemma quiet_rm_other env : quiet (docker env ["rm"; "--force"; containerName n]).
Proof.
  apply quiet_docker. unfold addresses. cbn [isRun isRm orb].
  rewrite bool_decide_eq_false_2; [by rewrite andb_false_r |].
  pose proof other_name. rewrite !elem_of_cons, elem_of_nil. naive_solver.
Qed.

Lemma quiet_start_other input : quiet (start a n input).
Proof.
  unfold start, startValid, runSlot, removeHalfCreated, slotByName. quietly;
    auto using quiet_inspect, quiet_imagePresent, quiet_cachesFilled, quiet_ensureDisk, quiet_prepare,
      quiet_run_other, quiet_rm_other.
Qed.

Lemma quiet_remove_other leaseID : quiet (remove a n leaseID).
Proof. unfold remove. quietly; auto using quiet_inspect, quiet_discard, quiet_rm_other. Qed.

Lemma quiet_locked m run : quiet run → quiet (locked a m run).
Proof. intros H. unfold locked. quietly; auto. intros [= <- <-]. apply docker_alone_unlock. Qed.
End other.

Lemma quiet_info : quiet (info a).
Proof. unfold info. quietly; auto using quiet_cachesFilled, quiet_imagePresent, quiet_freeBytes. Qed.

Lemma quiet_list : quiet list_.
Proof. unfold list_, slots. quietly. Qed.

(** * Commands *)

Definition inputSpec (input : stdin) (h : option labelMap) (reply : Reply) (h' : option labelMap) : Prop :=
  match input with
  | Some (_, Some r) => startSpec slot r h reply h'
  | _ => (∃ code msg, reply = Refused code msg) ∧ h' = h
  end.

(** What a command does to the slot, from [h] to [h']. *)
Definition commandSpec (command : string) (input : stdin) (h : option labelMap) (reply : Reply)
    (h' : option labelMap) : Prop :=
  let mine value := bool_decide (slotIndex a value = Some slot) in
  match a_ConfigErr a, Fields command with
  | None, [verb; value] =>
    if String.eqb verb "start" && mine value then inputSpec input h reply h' else h' = h
  | None, [verb; value; leaseID] =>
    if String.eqb verb "remove" && mine value && safeLabelValue leaseID
    then removeSpec leaseID h reply h' else h' = h
  | _, _ => h' = h
  end.

Lemma post_quiet' {A} (p : P A) : quiet p → post p (λ h _ h', h' = h).
Proof. intros H s. apply H. Qed.

Lemma post_Handle command input : post (Handle a command input) (commandSpec command input).
Proof.
  unfold Handle, commandSpec. destruct (Fields command) as [|verb args].
  { destruct (a_ConfigErr a); by apply post_ret. }
  destruct (String.eqb verb "info" && bool_decide (args = [])) eqn:Ei.
  { apply andb_true_iff in Ei as [_ Ei]. apply bool_decide_eq_true in Ei as ->.
    destruct (a_ConfigErr a); apply post_quiet', quiet_info. }
  clear Ei. destruct (a_ConfigErr a); [by apply post_ret |]. destruct args as [|value [|leaseID [|]]].
  - destruct (String.eqb verb "list"); [apply post_quiet', quiet_list | by apply post_ret].
  - destruct (String.eqb verb "start"); cbn [negb andb]; [|by apply post_ret].
    destruct (slotIndex a value) as [n|] eqn:Es; [|by apply post_ret].
    apply slotIndex_range in Es as (Hn & _).
    destruct (decide (n = slot)) as [->|Hne].
    + rewrite bool_decide_eq_true_2 by done. apply post_locked.
      * eapply post_conseq; [apply post_start |]. unfold inputSpec. intros h x h' H.
        destruct input as [[? [?|]]|]; [done | |]; destruct H as (c & m & -> & ->); eauto.
      * unfold inputSpec. intros h err. destruct input as [[? [?|]]|]; cbn; eauto.
    + rewrite bool_decide_eq_false_2 by congruence.
      by apply post_quiet', quiet_locked, quiet_start_other.
  - destruct (String.eqb verb "remove"); cbn [negb andb]; [|by apply post_ret].
    destruct (slotIndex a value) as [n|] eqn:Es; [|by apply post_ret].
    apply slotIndex_range in Es as (Hn & _).
    destruct (safeLabelValue leaseID); [|rewrite andb_false_r; by apply post_ret].
    destruct (decide (n = slot)) as [->|Hne].
    + rewrite bool_decide_eq_true_2 by done. apply post_locked; [apply post_remove |]. cbn. auto.
    + rewrite bool_decide_eq_false_2 by congruence.
      by apply post_quiet', quiet_locked, quiet_remove_other.
  - by apply post_ret.
Qed.


(** Commands one after the other. *)
Fixpoint handleAll (commands : list (string * stdin)) (s : agentSys W) : agentSys W :=
  match commands with
  | [] => s
  | (command, input) :: commands => handleAll commands (execP (Handle a command input) s)
  end.

(** A removal of the lease from the slot. *)
Definition removes (leaseID : string) (command : string) : Prop :=
  Fields command = ["remove"; Itoa slot; leaseID].

Lemma commandSpec_kept command input l reply h' :
  ~ removes (label l labelLease) command → commandSpec command input (Some l) reply h' → h' = Some l.
Proof.
  unfold commandSpec, removes. intros Hn. destruct (a_ConfigErr a); [done |].
  destruct (Fields command) as [|verb [|value [|lease [|]]]]; try done.
  - destruct (String.eqb verb "start" && _); [|done]. unfold inputSpec, startSpec.
    destruct input as [[? [r|]]|]; [|by intros [_ ?]..].
    destruct reply as [[| | |]|code msg]; [naive_solver.. |]. destruct (String.eqb _ _); naive_solver.
  - destruct (String.eqb_spec verb "remove") as [->|]; [|done]. cbn [andb].
    destruct (bool_decide _) eqn:Eb; [|done]. apply bool_decide_eq_true, slotIndex_range in Eb as (_ & _ & ->).
    destruct (safeLabelValue lease); [|done]. cbn [andb]. unfold removeSpec.
    destruct reply as [[| | |found]|code msg]; try done.
    + intros [_ H]. destruct found; [|done]. destruct H as (l' & [= <-] & Hl). by rewrite Hl in Hn.
    + destruct (String.eqb _ _); [by intros [? _] |]. intros [?|[_ [?|(l' & [= <-] & Hl)]]]; [done..|].
      by rewrite Hl in Hn.
Qed.

End agent.

(** * The job's configuration stays secret *)

Section secret.
Context {W : Type} `{!AgentEnv W} (a : Agent).

Definition withJIT (j : string) (r : StartRequest) : StartRequest :=
  mkStartRequest (sr_Image r) (sr_ControllerID r) (sr_LeaseID r) (sr_RunnerName r) (sr_RunnerID r)
    (sr_RunnerScaleSetID r) j (sr_Deadline r) (sr_IdleTimeoutSeconds r).

Definition acceptableJIT (j : string) : bool :=
  negb (String.eqb j "" || (maxJITBytes <? Z.of_nat (String.length j)) || negb (safeJIT j)).

Lemma runP_bind_ext {Σ A B} (p p' : prog Σ A) (f f' : A → prog Σ B) :
  (∀ s, runP p s = runP p' s) → (∀ x s, runP (f x) s = runP (f' x) s) →
  ∀ s, runP (p ≫= f) s = runP (p' ≫= f') s.
Proof. intros Hp Hf s. rewrite !runP_bind. unfold evalP, execP. by rewrite Hp, Hf. Qed.

Context (Hdocker : ∀ env env' args w, ae_Docker env args w = ae_Docker env' args w).

Lemma docker_same env env' args s : runP (docker env args) s = runP (docker env' args) s.
Proof. unfold docker, traced, act. cbn [runP]. by rewrite (Hdocker env env'). Qed.

Lemma runSlot_same slot r j ws s : runP (runSlot a slot r ws) s = runP (runSlot a slot (withJIT j r) ws) s.
Proof.
  unfold runSlot. change (runArgs a slot (withJIT j r) ws) with (runArgs a slot r ws).
  revert s. apply runP_bind_ext; [intros s; apply docker_same | done].
Qed.

Lemma startValid_same slot r j s : runP (startValid a slot r) s = runP (startValid a slot (withJIT j r)) s.
Proof.
  unfold startValid. revert s. apply runP_bind_ext; [done |]. intros [err|[item|]]; try done.
  apply runP_bind_ext; [done |]. intros [|]; cbn [negb]; try done.
  apply runP_bind_ext; [done |]. intros [|]; cbn [negb]; try done.
  apply runP_bind_ext; [done |]. intros [reply|]; try done.
  destruct (String.eqb _ _); [intros s; apply runSlot_same |].
  apply runP_bind_ext; [done |]. intros [err|ws]; [done | intros s; apply runSlot_same].
Qed.

Lemma validate_same now j r :
  acceptableJIT j = acceptableJIT (sr_JITConfig r) → validate now (withJIT j r) = validate now r.
Proof.
  unfold acceptableJIT, validate. cbn [withJIT sr_ControllerID sr_LeaseID sr_RunnerName sr_RunnerID
    sr_RunnerScaleSetID sr_JITConfig sr_Deadline sr_IdleTimeoutSeconds].
  intros H. apply (f_equal negb) in H. rewrite !negb_involutive in H. by rewrite H.
Qed.

(** The agent never gives a job's JIT configuration away.  It reaches docker
    only through the environment: when docker's own answers do not depend on
    that, two starts that differ in nothing but the configuration get the same
    reply and run the same commands, with the same arguments, whatever the
    configuration is. *)
Theorem jit_config_secret command len len' r j s :
  len <= maxRequestBytes → len' <= maxRequestBytes →
  acceptableJIT j = acceptableJIT (sr_JITConfig r) →
  runP (Handle a command (Some (len, Some r))) s
  = runP (Handle a command (Some (len', Some (withJIT j r)))) s.
Proof.
  intros Hl Hl' Hj. unfold Handle. destruct (Fields command) as [|verb args]; [done |].
  destruct (String.eqb verb "info" && _); [done |]. destruct (a_ConfigErr a); [done |].
  destruct args as [|value [|leaseID [|]]]; try done. destruct (negb (String.eqb verb "start")); [done |].
  destruct (slotIndex a value) as [slot|]; [|done].
  assert (Hs : ∀ s, runP (start a slot (Some (len, Some r))) s
                    = runP (start a slot (Some (len', Some (withJIT j r)))) s).
  { cbn [start]. rewrite !(proj2 (Z.ltb_ge _ _)) by done. change (sr_Image (withJIT j r)) with (sr_Image r).
    destruct (negb _); [done |]. apply runP_bind_ext; [done |]. intros now s0. rewrite validate_same by done.
    destruct (validate now r); [done | apply startValid_same]. }
  unfold locked. destruct (negb (a_Lock a)); [apply Hs |]. revert s.
  apply runP_bind_ext; [done |]. intros [err|]; [done |]. by apply runP_bind_ext.
Qed.
End secret.

(** * Cores *)

Lemma range_sorted low n cpus :
  (∀ c, c ∈ cpus → c < low) → StronglySorted Z.gt cpus →
  StronglySorted Z.gt (app (rev (map (λ i, low + Z.of_nat i) (seq 0 n))) cpus).
Proof.
  intros Hp Hs. induction n as [|n IH]; [done |].
  rewrite seq_S, map_app, rev_app_distr. cbn. constructor; [done |]. apply Forall_forall. intros c.
  rewrite elem_of_app, !list_elem_of_In, <- in_rev, in_map_iff, <- list_elem_of_In.
  intros [(i & <- & Hi)|Hc]; [apply in_seq in Hi; lia |]. specialize (Hp c Hc). lia.
Qed.

Lemma cpuRange_sorted cpus part cpus' :
  cpuRange cpus part = Some cpus' → StronglySorted Z.gt cpus → StronglySorted Z.gt cpus'.
Proof.
  unfold cpuRange. destruct (match Cut "-" part with Some _ => _ | None => _ end) as [first last_].
  destruct (ParseInt first) as [low okl]. destruct (match last_ with Some _ => _ | None => _ end) as [high okh].
  destruct (negb okl || negb okh); [done |]. case_bool; [done |]. intros [= <-] Hs.
  rewrite !orb_false_iff in *. destruct_and!. breflect.
  assert (Hp : ∀ c, c ∈ cpus → c < low).
  { intros c Hc. destruct cpus as [|p cpus]; [by apply elem_of_nil in Hc |]. breflect.
    apply StronglySorted_inv in Hs as [_ HF]. apply elem_of_cons in Hc as [->|Hc]; [lia |].
    rewrite Forall_forall in HF. specialize (HF c Hc). lia. }
  by apply range_sorted.
Qed.

Lemma ParseCPUList_NoDup text cpus : ParseCPUList text = Some cpus → NoDup cpus.
Proof.
  unfold ParseCPUList. destruct (String.eqb _ _); [done |].
  enough (H : ∀ parts acc, StronglySorted Z.gt acc → cpuRanges acc parts = Some cpus → NoDup cpus)
    by (apply H; constructor).
  intros parts. induction parts as [|part parts IH]; intros acc Hs; cbn [cpuRanges].
  - intros [= <-]. apply NoDup_ListNoDup, List.NoDup_rev, NoDup_ListNoDup. induction Hs as [|c acc Hs IH HF]; constructor; [|done].
    intros Hc. rewrite Forall_forall in HF. specialize (HF c Hc). lia.
  - destruct (cpuRange acc part) as [acc'|] eqn:E; [|done]. apply IH. by eapply cpuRange_sorted.
Qed.

(** Pinned slots never share a core.  When the host's CPU list is one the
    kernel prints, the cores two different slots are pinned to are disjoint, and
    a pinned slot has exactly the configured number of them. *)
Theorem slot_cores_disjoint a contents n m c :
  a_CPUs a = OnlineCPUs contents → n ≠ m → c ∈ slotCores a n →
  Z.of_nat (length (slotCores a n)) = f64_trunc (hc_SlotCPUs (a_Config a)) ∧ c ∉ slotCores a m.
Proof.
  intros Hc Hne. assert (Hnd : NoDup (a_CPUs a)).
  { rewrite Hc. unfold OnlineCPUs. destruct contents as [text|]; [|constructor].
    destruct (ParseCPUList text) eqn:E; [by eapply ParseCPUList_NoDup | constructor]. }
  unfold slotCores. set (count := f64_trunc _). clearbody count.
  assert (Hin : ∀ k x, 0 <= k → 1 <= count →
    x ∈ take (Z.to_nat count) (drop (Z.to_nat (k * count)) (a_CPUs a)) →
    ∃ i, a_CPUs a !! i = Some x ∧ k * count <= Z.of_nat i < (k + 1) * count).
  { intros k x Hk Hcount Hx. apply list_elem_of_lookup in Hx as [i Hi]. apply lookup_take_Some in Hi as [Hi Hlt].
    rewrite lookup_drop in Hi. eexists. split; [exact Hi |]. nia. }
  destruct (_ || (hc_Slots (a_Config a) <=? n)) eqn:En; [by intros ?%elem_of_nil |].
  intros Hx. rewrite !orb_false_iff in En. destruct_and!. breflect. split.
  - rewrite length_take, length_drop. nia.
  - destruct (_ || (hc_Slots (a_Config a) <=? m)) eqn:Em; [by intros ?%elem_of_nil |].
    rewrite !orb_false_iff in Em. destruct_and!. breflect. intros Hy.
    destruct (Hin n c) as (i & Hi & ?); [done.. |]. destruct (Hin m c) as (j & Hj & ?); [done.. |].
    assert (i = j) as -> by (by eapply NoDup_lookup). nia.
Qed.

(** * Volumes *)

Lemma append_inj_l (a b c : string) : a +:+ b = a +:+ c → b = c.
Proof. apply (inj (String.append a)). Qed.

(** A volume's name gives back its slot. *)
Lemma volume_slot n m x y :
  0 <= n <= max_int64 → 0 <= m <= max_int64 →
  containerName n +:+ String "-" x = containerName m +:+ String "-" y → n = m ∧ x = y.
Proof.
  intros Hn Hm H.
  assert (Hcut : ∀ k z, 0 <= k → Cut "-" (Itoa k +:+ String "-" z) = Some (Itoa k, z)).
  { intros k z Hk. apply Cut_app. destruct (Itoa_digits k Hk) as [Hd _].
    by eapply containsByte_forallb; [|exact Hd]. }
  change ("runneryard-slot-" +:+ (Itoa n +:+ String "-" x) = "runneryard-slot-" +:+ (Itoa m +:+ String "-" y)) in H.
  apply append_inj_l in H.
  pose proof (Hcut n x (proj1 Hn)) as Hx. rewrite H, Hcut in Hx by lia. simplify_eq.
  split; [|done]. by apply Itoa_inj.
Qed.

Lemma validateCaches_spec seen caches :
  validateCaches seen caches = None →
  NoDup (map cacheVolumeSuffix caches) ∧ (∀ path, path ∈ caches → cacheVolumeSuffix path ∉ seen)
  ∧ Forall (λ path, validCachePath path = true) caches.
Proof.
  revert seen. induction caches as [|path caches IH]; intros seen; cbn [validateCaches map].
  { intros _. split_and!; [constructor | by intros ? ?%elem_of_nil | constructor]. }
  destruct (validCachePath path) eqn:Ev; cbn [negb]; [|done]. case_bool_decide as Hs; [done |].
  intros H. destruct (IH _ H) as (Hnd & Hn & Hv). split_and!.
  - apply NoDup_cons. split; [|done]. intros Hin. apply list_elem_of_fmap in Hin as (q & Hq & Hin).
    apply (Hn q Hin). rewrite <- Hq. by left.
  - intros q [->|Hin]%elem_of_cons; [done |]. specialize (Hn q Hin). set_solver.
  - by constructor.
Qed.

(** C33: No two jobs share a volume.  Under a configuration that is valid, the
    volumes of a slot have different names, and none is a volume of another slot,
    nor the volume an older agent kept for its work. *)
Theorem slot_volumes_distinct a n m :
  Validate (a_Config a) = None → 0 <= n <= max_int64 → 0 <= m <= max_int64 →
  NoDup (map fst (volumes a n))
  ∧ ∀ v, v ∈ map fst (volumes a n) → v ≠ retiredWorkVolume m ∧ (n ≠ m → v ∉ map fst (volumes a m)).
Proof.
  intros Hv Hn Hm.
  assert (Hc : validateCaches [] (hc_Caches (a_Config a)) = None).
  { unfold Validate in Hv. repeat (destruct (_ || _) in Hv; [done |]). case_match; [done |].
    destruct (_ || _) in Hv; [done |]. case_match; [done |]. by destruct (validateCaches _ _). }
  destruct (validateCaches_spec _ _ Hc) as (Hnd & _ & _).
  assert (Hname : ∀ k v, v ∈ map fst (volumes a k) →
    ∃ x, v = containerName k +:+ String "-" x ∧ x ≠ "work").
  { intros k v Hin. unfold volumes in Hin. cbn [map fst] in Hin.
    apply elem_of_cons in Hin as [->|Hin]; [by exists "docker" |].
    rewrite map_map in Hin. apply list_elem_of_fmap in Hin as (path & -> & _).
    by exists ("cache-" +:+ cacheVolumeSuffix path). }
  split.
  - unfold volumes. cbn [map fst]. rewrite map_map. apply NoDup_cons. split.
    + intros Hin. apply list_elem_of_fmap in Hin as (path & H & _). by apply append_inj_l in H.
    + cbn [fst]. revert Hnd. generalize (hc_Caches (a_Config a)). intros l. induction l as [|path l IH]; [constructor |].
      cbn [map]. rewrite !NoDup_cons. intros [Hx Hl]. split; [|auto]. intros Hin. apply Hx.
      apply list_elem_of_fmap in Hin as (q & H & Hin). do 2 apply append_inj_l in H. rewrite H.
      by apply list_elem_of_fmap; exists q.
  - intros v Hin. destruct (Hname n v Hin) as (x & -> & Hx). split.
    + unfold retiredWorkVolume. intros H. apply (volume_slot n m x "work") in H as [_ H]; done.
    + intros Hne Hin'. destruct (Hname m _ Hin') as (y & H & _). by apply volume_slot in H as [? _].
Qed.

(** * A docker to try it on *)

Module AgentDemo.
(** The labels of every container, by name. *)
Abbreviation dockers := (gmap string labelMap).

Definition inspect (n : string) (w : dockers) : dockerOutput * option string :=
  match w !! n with
  | Some l => (mkDockerOutput "" (Some [mkContainer n zeroTime "running" l]), None)
  | None => (mkDockerOutput "" None, Some ("Error: No such object: " +:+ n))
  end.

Definition done : dockerOutput * option string := (mkDockerOutput "" None, None).

Definition run (args : list string) (w : dockers) : (dockerOutput * option string) * dockers :=
  if isRun args then
    match w !! runName args with
    | Some _ => ((mkDockerOutput "" None, Some "Conflict. The name is already in use"), w)
    | None => (done, <[runName args := runLabels args]> w)
    end
  else if isRm args then (done, foldr delete w args)
  else match args with
  | verb :: rest =>
    if String.eqb verb "inspect" then (inspect (default "" (last rest)) w, w) else (done, w)
  | [] => (done, w)
  end.

#[global] Instance demoAgentEnv : AgentEnv dockers := {|
  ae_Docker _ := run;
  ae_Lock _ w := (None, w);
  ae_Unlock _ w := w;
  ae_FreeBytes _ w := (inr (50 * 2 ^ 30), w);
  ae_CachesFilled w := (true, w);
  ae_PurgeWorkspaces w := w;
  ae_Now w := (UnixTime 1790000000, w);
  ae_MkdirAll _ w := (None, w);
  ae_Mkdir _ w := (None, w);
  ae_ReadDir _ w := (DirEntries ["slot-0-earlier"; "slot-1-other"], w);
  ae_Rename _ _ w := (None, w);
  ae_RandText w := ("ABC", w);
  ae_PurgeWait w := ((3%nat, PurgeDeadline), w)
|}.

Lemma lookup_foldr_delete (l : list string) (w : dockers) n :
  foldr delete w l !! n = if bool_decide (n ∈ l) then None else w !! n.
Proof.
  induction l as [|x l IH]; cbn; [done |]. destruct (decide (x = n)) as [->|Hne].
  - rewrite lookup_delete_eq, bool_decide_eq_true_2; [done | by left].
  - rewrite lookup_delete_ne, IH by done. rewrite (bool_decide_ext (n ∈ x :: l) (n ∈ l)); [done |].
    rewrite elem_of_cons. naive_solver.
Qed.

#[global] Instance demoDocker n : SlotDocker n (λ w : dockers, w !! n).
Proof.
  split; cbn [ae_Docker demoAgentEnv]; try (by intros; simplify_eq/=).
  - intros flags w r w' Hf. unfold run.
    assert (Hl : default "" (last (app flags [n])) = n) by (by rewrite last_snoc).
    assert (H : isRun (app ("inspect" :: flags) [n]) = false ∧ isRm (app ("inspect" :: flags) [n]) = false)
      by (by destruct Hf as [-> | ->]). destruct H as [-> ->]. cbn [app String.eqb Ascii.eqb Bool.eqb].
    rewrite Hl. intros [= <- <-]. unfold inspect. destruct (w !! n) as [l|]; split_and!; naive_solver.
  - intros env args w r w' Hr Hn. unfold run. rewrite Hr, Hn. destruct (w !! n) eqn:E; intros [= <- <-].
    + by split; [eexists |].
    + left. apply lookup_insert_eq.
  - intros env w r w'. unfold run. cbn [isRun isRm String.eqb Ascii.eqb Bool.eqb andb].
    intros H. apply (f_equal snd) in H. cbn [snd] in H. subst w'. left. rewrite lookup_foldr_delete, bool_decide_eq_true_2; [done | set_solver].
  - intros env args w r w'. unfold addresses, run. rewrite orb_false_iff. intros [H1 H2].
    destruct (isRun args); cbn [andb] in H1.
    + apply String.eqb_neq in H1. destruct (w !! runName args); intros [= _ <-]; [done |].
      by rewrite lookup_insert_ne.
    + destruct (isRm args); cbn [andb] in H2; [|destruct args as [|v rest]; [|destruct (String.eqb v _)]];
        intros [= _ <-]; [|done..]. by rewrite lookup_foldr_delete, H2.
Qed.

Definition config : Config := mkHostConfig 2 "ghcr.io/org/runner:1" (f64_of_int 2) 4096 ["/opt/cache"] 10 "".

Definition agent : Agent :=
  mkAgent config "" None true true [0; 1; 2; 3] true "/var/lib/runneryard/work" true "1.0".

Definition request (lease : string) : StartRequest :=
  mkStartRequest "ghcr.io/org/runner:1" "controller" lease "runner-1" 7 1 "c2VjcmV0"
    (UnixTime 1790003600) 600.

Definition input (lease : string) : stdin := Some (300, Some (request lease)).

Definition booted : agentSys dockers := mkAgentSys ∅ [].

(** The first slot runs a lease. *)
Definition busy : agentSys dockers :=
  mkAgentSys {[containerName 0 := requestLabels 0 (request "lease-1")]} [].

Definition commands : list (string * stdin) :=
  [("remove 0 lease-2", None); ("start 0", input "lease-3"); ("list", None)].

Lemma commands_others command i : (command, i) ∈ commands → ~ removes 0 "lease-1" command.
Proof.
  unfold removes. intros Hin H.
  repeat (apply elem_of_cons in Hin as [[= -> ->]|Hin]; [by vm_compute in H |]). by apply elem_of_nil in Hin.
Qed.

Example config_valid : Validate config = None.
Proof. reflexivity. Qed.
End AgentDemo.



Lemma jit_config_secret_witness :
  runP (Handle AgentDemo.agent "start 0" (AgentDemo.input "lease-1")) AgentDemo.booted
  = runP (Handle AgentDemo.agent "start 0" (Some (300, Some (withJIT "b3RoZXI=" (AgentDemo.request "lease-1")))))
      AgentDemo.booted.
Proof.
  apply (jit_config_secret AgentDemo.agent ltac:(done) "start 0" 300 300 (AgentDemo.request "lease-1")
    "b3RoZXI=" AgentDemo.booted); [by vm_compute.. | by vm_compute].
Defined.

Lemma slot_cores_disjoint_witness :
  slotCores AgentDemo.agent 1 = [2; 3] ∧ 2 ∉ slotCores AgentDemo.agent 0.
Proof.
  split; [by vm_compute |].
  apply (slot_cores_disjoint AgentDemo.agent (Some "0-3") 1 0 2); [by vm_compute | done |].
  vm_compute. by left.
Defined.

Lemma slot_volumes_distinct_witness :
  NoDup (map fst (volumes AgentDemo.agent 0))
  ∧ ∀ v, v ∈ map fst (volumes AgentDemo.agent 0) →
      v ≠ retiredWorkVolume 1 ∧ (0 ≠ 1 → v ∉ map fst (volumes AgentDemo.agent 1)).
Proof. apply slot_volumes_distinct; [exact AgentDemo.config_valid | by split..]. Defined.
