(* ===== verification/HostBoot.v ===== *)
(** Making a machine a pool host: installing the agent under sshd
    (src/hostagent/install.go), or booting a machine whose image is the runner image
    (src/hostagent/boot.go and rootfs.go), and the agent's own command line
    (src/cmd/runneryard/host.go).

    System calls, processes and the file system are the class [MachineEnv]: any
    functions.  Every call that changes the machine goes to a log, and so does what the
    agent does meanwhile. *)

From S2P Require Import Prelude Program Float64 GoStrings GoText GoPatterns PoolState HostAgent.

#[local] Open Scope string_scope.
#[local] Open Scope Z_scope.

(** * Names *)

Definition AgentUser : string := "runneryard".
Definition AgentHome : string := "/var/lib/runneryard".
Definition BinaryPath : string := "/usr/local/bin/runneryard".
Definition HostConfigPath : string := "/etc/runneryard/host.json".
Definition sshdDropInPath : string := "/etc/ssh/sshd_config.d/10-runneryard.conf".
Definition metadataUnitName : string := "runneryard-metadata-block.service".
Definition metadataUnitPath : string := "/etc/systemd/system/" +:+ metadataUnitName.
Definition BootPort : string := "2222".
Definition bootWorkspaces : string := "workspaces".
Definition dockerdConfigPath : string := "/etc/docker/daemon.json".
Definition dockerdLogPath : string := "/var/log/dockerd.log".
Definition dockerReadyTimeout : duration := 90 * Second.
Definition maxPullBackoff : duration := Minute.
Definition oomScoreAdjPath : string := "/proc/self/oom_score_adj".
Definition BootDNSVariable : string := "RUNNERYARD_DOCKER_DNS".
Definition mountsPath : string := "/proc/self/mounts".
Definition initEnvironPath : string := "/proc/1/environ".
Definition onlineCPUsPath : string := "/sys/devices/system/cpu/online".

Definition newline : string := bytes [10]%nat.
Definition textLines (lines : list string) : string := String.concat "" (map (λ l, l +:+ newline) lines).

Definition SSHDHardening : string := textLines
  ["# Written by runneryard host install."; "PasswordAuthentication no"; "KbdInteractiveAuthentication no";
   "PermitRootLogin no"; "AllowAgentForwarding no"; "AllowTcpForwarding no"; "X11Forwarding no"; "PermitTunnel no";
   "MaxSessions 32"].

Definition MetadataBlockUnit : string := textLines
  ["# Written by runneryard host install."; "[Unit]";
   "Description=Keep RunnerYard slot containers away from the cloud metadata service";
   "After=docker.service"; "Requires=docker.service"; ""; "[Service]"; "Type=oneshot"; "RemainAfterExit=yes";
   "ExecStart=/bin/sh -c 'iptables -C DOCKER-USER -d 169.254.169.254/32 -j DROP 2>/dev/null || iptables -I DOCKER-USER -d 169.254.169.254/32 -j DROP'";
   ""; "[Install]"; "WantedBy=multi-user.target"].

(** * The machine *)

Inductive machineAct :=
  | MkdirAll (path : string) | WriteFile (path contents : string) (mode : Z) | Chmod (path : string) (mode : Z)
  | Chown (path : string) (uid gid : Z) | Rename (from to : string) | Remove (path : string)
  | Exec (name : string) (args : list string)
  | MkdirTemp (pattern : string) | MakePipe
  | StartProcess (name : string) (args : list string) | WaitProcess (name : string)
  | OpenAppend (path : string) | StopDockerd
  | Listen (address : string) | Serve (a : Agent) (hostKey authorized : string) | FillCaches.

Inductive lookup := UnknownUser | LookupFailed (err : string) | Account (uid gid home : string).
Inductive dockerWait := DockerExited | WaitCanceled (err : string) | WaitTick.
(** What ends a boot that serves. *)
Inductive serveEnd := ServedEnd (err : option string) | DockerEnd | ContextEnd (err : option string).

Class MachineEnv (W : Type) := mkMachineEnv {
  me_Root : bool;
  (** A call: its output, and its error. *)
  me_Do : machineAct → W → (string * option string) * W;
  me_ReadFile : string → W → (string + string) * W;
  me_Device : string → W → (string + Z) * W;
  me_IsBlockDevice : string → W → (string + bool) * W;
  me_IsRegular : string → W → bool * W;
  (** [os.Executable], with its links resolved. *)
  me_Executable : W → (string + string) * W;
  me_Lookup : string → W → lookup * W;
  me_Environ : list string;
  me_Home : option string;
  me_Now : W → time * W;
  (** [ctx.Err() != nil]; how many failed pulls the context outlasts. *)
  me_Canceled : W → bool * W;
  me_Pulls : W → nat * W;
  me_Sleep : duration → W → () * W;
  me_DockerWait : W → dockerWait * W;
  me_ServeEnd : W → serveEnd * W;
  (** [json.Unmarshal] and [json.MarshalIndent] of a host configuration *)
  me_DecodeConfig : string → option Config;
  me_EncodeConfig : Config → option string;
  me_ParsePrivateKey : string → option string;
  (** [ssh.ParseAuthorizedKey]: the key, written again, its options and the rest. *)
  me_ParseAuthorizedKey : string → option (string * list string * string);
  (** [netip.ParseAddr]: the address, written again, and whether it is unspecified. *)
  me_ParseAddr : string → option (string * bool)
}.

Inductive hostCall := HAgent (c : agentCall) | HDone (a : machineAct) (err : option string).

Record hostSys (W : Type) := mkHostSys { hworld : W; hlog : list hostCall }.
Arguments mkHostSys {W}.
Arguments hworld {W}.
Arguments hlog {W}.

(** * Pure parts *)

(** [filepath.Join], which skips an empty element. *)
Definition pathJoin (dir name : string) : string := if String.eqb dir "" then Clean name else JoinPath dir name.

(** [LocalImageName] *)
Definition withoutTag (name : string) : string :=
  match rev (splitOn "/" name) with
  | last :: before => match Cut ":" last with Some (base, _) => Join "/" (rev (base :: before)) | None => name end
  | [] => name
  end.

Definition LocalImageName (image : string) : string :=
  match Cut "@" image with
  | None => image
  | Some (name, digest) => withoutTag name +:+ ":" +:+ replaceByte ":" "-" digest
  end.

(** [^/dev/[a-z][a-z0-9]{0,31}$] and [^[A-Za-z_][A-Za-z0-9_.-]{0,254}$] *)
Definition blockDeviceName : regexp :=
  RCat (lit "/dev/") (RCat (RClass lower_byte) (upTo 31 (RClass (λ c, lower_byte c || digit_byte c)))).
Definition envKey : regexp :=
  RCat (RClass (λ c, upper_byte c || lower_byte c || Ascii.eqb c "_")) (upTo 254 (RClass (λ c, alnum c || oneOf "_.-" c))).

(** The text from the last occurrence of [sub] on. *)
Fixpoint fromLast (sub s : string) : option string :=
  match s with
  | "" => None
  | String _ rest =>
    match fromLast sub rest with Some found => Some found | None => if HasPrefix s sub then Some s else None end
  end.

(** The topmost lower layer that the options of a mount name last. *)
Fixpoint lowerDir (lower : string) (options : list string) : string :=
  match options with
  | [] => lower
  | option :: options =>
    lowerDir (match CutPrefix "lowerdir=" option with
              | Some value => match Cut ":" value with Some (top, _) => top | None => value end
              | None => lower
              end) options
  end.

(** What is mounted at the root last, if it is an overlay. *)
Definition mountLower (lower line : string) : string :=
  match Fields line with
  | _ :: at_ :: kind :: options :: _ =>
    if negb (String.eqb at_ "/") || negb (String.eqb kind "overlay") then lower else lowerDir "" (splitOn "," options)
  | _ => lower
  end.

(** [ImageLayer] *)
Definition ImageLayer (mounts : string) : string + string :=
  match fromLast "/dev/" (fold_left mountLower (splitOn (ascii_of_nat 10) mounts) "") with
  | None => inl "the root filesystem is not an overlay over a block device"
  | Some device => if MatchString blockDeviceName device then inr device else inl "unexpected image layer"
  end.

(** A byte that is no character of an environment variable in a Dockerfile. *)
Definition control (c : ascii) : bool :=
  let n := nat_of_ascii c in ((n <? 32) && negb (n =? 9) || (n =? 127))%nat.

(** [ImageEnvironment] *)
Fixpoint ImageEnvironment (environ initEnviron : list string) : string + list string :=
  match environ with
  | [] => inr []
  | entry :: environ =>
    match Cut "=" entry with
    | None => ImageEnvironment environ initEnviron
    | Some (key, value) =>
      if bool_decide (entry ∈ initEnviron) || HasPrefix key "FLY_" || String.eqb key BootDNSVariable
      then ImageEnvironment environ initEnviron
      else if negb (MatchString envKey key) || negb (string_forallb (λ c, negb (control c)) value)
      then inl "environment variable cannot be set in an image"
      else match ImageEnvironment environ initEnviron with inl err => inl err | inr env => inr (entry :: env) end
    end
  end.

Definition dockerfileQuoted (c : ascii) : string :=
  let n := nat_of_ascii c in
  if ((n =? 92) || (n =? 34) || (n =? 36))%nat then String (ascii_of_nat 92) (String c "") else String c "".
Fixpoint replaceQuoted (s : string) : string :=
  match s with "" => "" | String c s => dockerfileQuoted c +:+ replaceQuoted s end.

(** [importChanges] *)
Definition importChanges (env : list string) : list string :=
  "USER runner"
  :: map (λ entry, match Cut "=" entry with
                   | Some (key, value) => "ENV " +:+ key +:+ "=" +:+ dquote +:+ replaceQuoted value +:+ dquote
                   | None => "ENV " +:+ entry +:+ "=" +:+ dquote +:+ dquote
                   end) env.

(** The text of the daemon's configuration, keys in order. *)
Definition daemonConfig (dataRoot : string) (resolvers : list string) : string :=
  Marshal (JObject (app [("data-root", JString dataRoot)]
    (app (match resolvers with [] => [] | _ => [("dns", JArray (map JString resolvers))] end)
    [("features", JObject [("buildkit", JBool true); ("containerd-snapshotter", JBool false)])]))) +:+ newline.

Record BootOptions := mkBootOptions {
  bo_ConfigPath : string; bo_HostKeyPath : string; bo_AuthorizedKeyPath : string; bo_DataRoot : string;
  bo_Listen : string; bo_DNS : list string; bo_Version : string
}.

Record InstallOptions := mkInstallOptions {
  io_Config : Config; io_AuthorizedKey : string; io_HardenSSHD : bool; io_BlockMetadata : bool
}.

Section host.
Context {W : Type} `{!AgentEnv W, !MachineEnv W}.
Abbreviation P := (prog (hostSys W)).

Definition hostAsk {A} (f : W → A * W) : P A :=
  act (λ s, let '(x, w) := f (hworld s) in (x, mkHostSys w (hlog s))).

Definition perform (a : machineAct) : P (string * option string) :=
  act (λ s, let '(x, w) := me_Do a (hworld s) in (x, mkHostSys w (HDone a x.2 :: hlog s))).

(** A call of which only the error is read. *)
Definition doCall (a : machineAct) : P (option string) := r ← perform a; mret r.2.

(** A program of the agent, with its calls in the machine's log. *)
Fixpoint asAgent {A} (p : prog (agentSys W) A) : P A :=
  match p with
  | Ret a => Ret a
  | Act op k =>
    Act (λ s, let '(x, s') := op (mkAgentSys (hworld s) []) in
              (x, mkHostSys (aworld s') (app (map HAgent (atrace s')) (hlog s)))) (λ x, asAgent (k x))
  end.

Definition dockerRun (args : list string) : P (string * option string) :=
  r ← asAgent (docker [] args); mret (out_text r.1, r.2).

(** [run] of install.go *)
Definition run (name : string) (args : list string) : P (option string) := doCall (Exec name args).

(** [if err := m; err != nil { return err } ; k] *)
Definition orReturn (m k : P (option string)) : P (option string) := on_err m (λ err, mret (Some err)) k.

(** [writeFile], which replaces a file by renaming. *)
Definition temporaryName (path : string) : string := path +:+ ".runneryard-tmp".
Definition writeFile (path contents : string) (mode : Z) : P (option string) :=
  orReturn (doCall (MkdirAll (Dir path)))
  (orReturn (doCall (WriteFile (temporaryName path) contents mode))
  (orReturn (doCall (Chmod (temporaryName path) mode))
  (doCall (Rename (temporaryName path) path)))).

(** * Installing *)

(** [AuthorizedKeysLine] *)
Definition AuthorizedKeysLine (controllerKey : string) : string + string :=
  match me_ParseAuthorizedKey (TrimSpace controllerKey) with
  | None => inl "controller key is not an SSH public key"
  | Some (key, options, rest) =>
    match options with
    | _ :: _ => inl "controller key must be a single public key without options"
    | [] =>
      if negb (String.eqb (TrimSpace rest) "") then inl "controller key must be a single public key without options"
      else inr ("restrict,command=" +:+ dquote +:+ BinaryPath +:+ " host" +:+ dquote +:+ " " +:+ TrimSpace key)
    end
  end.

Definition installBinary : P (option string) :=
  executable ← hostAsk me_Executable;
  match executable with
  | inl err => mret (Some "locate runneryard binary")
  | inr executable =>
    if String.eqb executable BinaryPath then mret None
    else
    contents ← hostAsk (me_ReadFile executable);
    match contents with
    | inl err => mret (Some "read runneryard binary")
    | inr contents => writeFile BinaryPath contents 493
    end
  end.

(** The account as it must be: numeric, and with its own home. *)
Definition agentAccount (found : lookup) : string + Z * Z :=
  match found with
  | Account uid gid home =>
    let '(u, uok) := ParseInt uid in
    let '(g, gok) := ParseInt gid in
    if negb uok || negb gok then inl "the account has a non-numeric uid or gid"
    else if negb (String.eqb home AgentHome) then inl "the account exists with another home"
    else inr (u, g)
  | _ => inl "look up the account"
  end.

(** [ensureUser] *)
Definition ensureUser : P (string + Z * Z) :=
  found ← hostAsk (me_Lookup AgentUser);
  added ← match found with
          | Account _ _ _ => mret None
          | LookupFailed err => mret (Some "look up the account")
          | UnknownUser =>
            run "useradd" ["--system"; "--create-home"; "--home-dir"; AgentHome; "--shell"; "/bin/sh"; AgentUser]
          end;
  match added : option string with
  | Some err => mret (inl err)
  | None =>
    grouped ← run "usermod" ["--append"; "--groups"; "docker"; AgentUser];
    match grouped with
    | Some err => mret (inl err)
    | None => found ← hostAsk (me_Lookup AgentUser); mret (agentAccount found)
    end
  end.

(** [hardenSSHD] *)
Definition hardenSSHD : P (option string) :=
  orReturn (writeFile sshdDropInPath SSHDHardening 420)
  (refused ← run "sshd" ["-t"];
   match refused with
   | Some err => doCall (Remove sshdDropInPath);; mret (Some "sshd rejected the hardening drop-in, removed it")
   | None =>
     reloaded ← run "systemctl" ["try-reload-or-restart"; "ssh.service"];
     match reloaded with
     | Some _ => run "systemctl" ["try-reload-or-restart"; "sshd.service"]
     | None => mret None
     end
   end).

Definition sshDirectory : string := AgentHome +:+ "/.ssh".
Definition authorizedKeysPath : string := sshDirectory +:+ "/authorized_keys".

(** [writeAuthorizedKey] *)
Definition chownTo (uid gid : Z) (target : string) : P (option (option string)) :=
  err ← doCall (Chown target uid gid); mret (match err with Some err => Some (Some err) | None => None end).
Definition writeAuthorizedKey (line : string) (uid gid : Z) : P (option string) :=
  orReturn (doCall (MkdirAll sshDirectory))
  (orReturn (writeFile authorizedKeysPath (line +:+ newline) 384)
  (for_each [AgentHome; sshDirectory; authorizedKeysPath] (chownTo uid gid)
    (doCall (Chmod sshDirectory 448)))).

(** An agent that fills caches before it serves: [&Agent{Config: cfg, Docker: CLI{}}]. *)
Definition installAgent (c : Config) : Agent := mkAgent c "" None false false [] false "" false "".

Definition blockMetadata : P (option string) :=
  orReturn (writeFile metadataUnitPath MetadataBlockUnit 420)
  (orReturn (run "systemctl" ["daemon-reload"]) (run "systemctl" ["enable"; "--now"; metadataUnitName])).

(** [Install]; what it prints is left out. *)
Definition Install (o : InstallOptions) : P (option string) :=
  if negb me_Root then mret (Some "runneryard host install must run as root")
  else match Validate (io_Config o) with
  | Some err => mret (Some err)
  | None =>
    match AuthorizedKeysLine (io_AuthorizedKey o) with
    | inl err => mret (Some err)
    | inr line =>
      orReturn installBinary
      (account ← ensureUser;
       match account with
       | inl err => mret (Some err)
       | inr (uid, gid) =>
         match me_EncodeConfig (io_Config o) with
         | None => mret (Some "encode the configuration")
         | Some encoded =>
           orReturn (writeFile HostConfigPath (encoded +:+ newline) 420)
           (orReturn (run "docker" ["pull"; hc_Image (io_Config o)])
           (asAgent (PrefillCaches (installAgent (io_Config o)));;
            orReturn (if io_BlockMetadata o then blockMetadata else mret None)
            (orReturn (if io_HardenSSHD o then hardenSSHD else mret None)
            (writeAuthorizedKey line uid gid))))
         end
       end)
    end
  end.

(** * The image of the machine *)

(** [importTree]: the image's ID. *)
Definition tarArgs (dir : string) : list string :=
  ["--create"; "--file=-"; "--directory=" +:+ dir; "--one-file-system"; "--numeric-owner"; "--xattrs";
   "--xattrs-include=security.capability"; "."].
Definition importArgs (changes : list string) : list string :=
  app ("import" :: concat (map (λ c, ["--change"; c]) changes)) ["-"].

Definition importTree (dir : string) (changes : list string) : P (string + string) :=
  piped ← doCall MakePipe;
  match piped with
  | Some err => mret (inl err)
  | None =>
    importing ← doCall (StartProcess "docker" (importArgs changes));
    match importing with
    | Some err => mret (inl err)
    | None =>
      archiving ← doCall (StartProcess "tar" (tarArgs dir));
      match archiving with
      | Some err => doCall (WaitProcess "docker");; mret (inl err)
      | None =>
        archived ← doCall (WaitProcess "tar");
        imported ← perform (WaitProcess "docker");
        let id := TrimSpace imported.1 in
        match archived with
        | Some err =>
          (if bool_decide (imported.2 = None) && negb (String.eqb id "") then run "docker" ["image"; "rm"; id] else mret None);;
          mret (inl "tar")
        | None =>
          mret match imported.2 with
          | Some err => inl "docker import"
          | None => if negb (HasPrefix id "sha256:") then inl "docker import printed no image ID" else inr id
          end
        end
      end
    end
  end.

(** From the mount of the layer to the tag. *)
Definition importMounted (device dir image : string) (env : list string) : P (option string) :=
  runner ← hostAsk (me_IsRegular (pathJoin dir slotEntrypoint));
  if negb runner then mret (Some "not a runner image")
  else
  id ← importTree dir (importChanges env);
  match id with
  | inl err => mret (Some err)
  | inr id => run "docker" ["tag"; id; image]
  end.

Definition mountedImport (device image : string) (env : list string) : P (option string) :=
  dir ← perform (MkdirTemp "runneryard-image-");
  match dir.2 with
  | Some err => mret (Some err)
  | None =>
    let dir := dir.1 in
    result ← orReturn (run "mount" ["-o"; "ro,nosuid,nodev,noexec"; device; dir])
               (result ← importMounted device dir image env; run "umount" [dir];; mret result);
    doCall (Remove dir);; mret result
  end.

(** [ImportRootfsImage] *)
Definition ImportRootfsImage (image : string) : P (option string) :=
  mounts ← hostAsk (me_ReadFile mountsPath);
  match mounts with
  | inl err => mret (Some err)
  | inr mounts =>
    match ImageLayer mounts with
    | inl err => mret (Some err)
    | inr device =>
      block ← hostAsk (me_IsBlockDevice device);
      match block with
      | inl err => mret (Some err)
      | inr false => mret (Some "not a block device")
      | inr true =>
        initEnviron ← hostAsk (me_ReadFile initEnvironPath);
        match initEnviron with
        | inl err => mret (Some err)
        | inr initEnviron =>
          match ImageEnvironment me_Environ (splitOn (ascii_of_nat 0) initEnviron) with
          | inl err => mret (Some err)
          | inr env => mountedImport device image env
          end
        end
      end
    end
  end.

(** The pulls of [EnsureImage]: whether the image is there, or the context ended. *)
Fixpoint pullImage (pulls : nat) (image local : string) (backoff : duration) : P bool :=
  match pulls with
  | O => mret false
  | S pulls =>
    pulled ← dockerRun ["pull"; "--quiet"; image];
    err ← (if bool_decide (pulled.2 = None) && negb (String.eqb local image)
           then tagged ← dockerRun ["tag"; image; local]; mret tagged.2 else mret pulled.2);
    match err : option string with
    | None => mret true
    | Some _ =>
      canceled ← hostAsk me_Canceled;
      if canceled : bool then mret false
      else
      hostAsk (me_Sleep backoff);;
      pullImage pulls image local (Z.min (backoff * 2) maxPullBackoff)
    end
  end.

(** [EnsureImage]; without an import it only pulls. *)
Definition EnsureImage (image local : string) (importImage : option (string → P (option string))) : P bool :=
  found ← dockerRun ["image"; "inspect"; "--format"; "{{.Id}}"; local];
  match found.2 with
  | None => mret true
  | Some _ =>
    imported ← match importImage with
               | Some import => err ← import local; mret (Some err)
               | None => mret None
               end;
    match imported : option (option string) with
    | Some None => mret true
    | Some (Some _) =>
      canceled ← hostAsk me_Canceled;
      if canceled : bool then mret false
      else pulls ← hostAsk me_Pulls; pullImage pulls image local (5 * Second)
    | None => pulls ← hostAsk me_Pulls; pullImage pulls image local (5 * Second)
    end
  end.

(** * Booting *)

(** [LoadConfig] *)
Definition noConfig : Config := mkHostConfig 0 "" f64_zero 0 [] 0 "".
Definition LoadConfig (path : string) : P (Config * option string) :=
  contents ← hostAsk (me_ReadFile path);
  mret match contents with
  | inl err => (noConfig, Some err)
  | inr contents =>
    match me_DecodeConfig contents with
    | None => (noConfig, Some "decode the configuration")
    | Some c => (c, Validate c)
    end
  end.

(** [LoadBootKeys]: the host's key and the controller's. *)
Definition LoadBootKeys (hostKeyPath authorizedKeyPath : string) : P (string + string * string) :=
  hostKey ← hostAsk (me_ReadFile hostKeyPath);
  match hostKey with
  | inl err => mret (inl "read host key")
  | inr hostKey =>
    match me_ParsePrivateKey hostKey with
    | None => mret (inl "parse host key")
    | Some signer =>
      contents ← hostAsk (me_ReadFile authorizedKeyPath);
      mret match contents with
      | inl err => inl "read controller key"
      | inr contents =>
        match me_ParseAuthorizedKey (TrimSpace contents) with
        | None => inl "controller key is not an SSH public key"
        | Some (_, _ :: _, _) => inl "controller key must be a single public key without options"
        | Some (key, [], rest) =>
          if negb (String.eqb (TrimSpace rest) "") then inl "controller key must be a single public key without options"
          else inr (signer, key)
        end
      end
    end
  end.

(** [SeparateFilesystem] *)
Definition SeparateFilesystem (path : string) : P (option string) :=
  data ← hostAsk (me_Device path);
  match data with
  | inl err => mret (Some err)
  | inr data =>
    root ← hostAsk (me_Device "/");
    mret match root with
    | inl err => Some err
    | inr root => if data =? root then Some "not a mounted volume; the host needs one for Docker's data" else None
    end
  end.

(** The resolvers of [DockerDaemonConfig], each once. *)
Fixpoint resolvers (seen : list string) (dns : list string) : string + list string :=
  match dns with
  | [] => inr []
  | value :: dns =>
    match me_ParseAddr (TrimSpace value) with
    | None => inl "invalid or repeated DNS resolver"
    | Some (address, _) =>
      if bool_decide (address ∈ seen) then inl "invalid or repeated DNS resolver"
      else match resolvers (address :: seen) dns with inl err => inl err | inr rs => inr (address :: rs) end
    end
  end.

Definition DockerDaemonConfig (dataRoot : string) (dns : list string) : string + string :=
  if (3 <? length dns)%nat then inl "at most three DNS resolvers"
  else match resolvers [] dns with inl err => inl err | inr rs => inr (daemonConfig dataRoot rs) end.

(** [startDockerd] *)
Definition startDockerd : P (option string) :=
  orReturn (doCall (OpenAppend dockerdLogPath)) (doCall (StartProcess "dockerd" ["--config-file"; dockerdConfigPath])).

(** [waitForDocker]: a poll takes a second at least, so the polls outlast the deadline. *)
Fixpoint pollDocker (polls : nat) (deadline : time) : P (option string) :=
  r ← dockerRun ["info"; "--format"; "{{.Driver}}"];
  match r.2 with
  | None => mret (if String.eqb (TrimSpace r.1) "vfs" then Some "refusing Docker storage driver vfs" else None)
  | Some _ =>
    waited ← hostAsk me_DockerWait;
    match waited with
    | DockerExited => mret (Some "dockerd exited before becoming ready")
    | WaitCanceled err => mret (Some err)
    | WaitTick =>
      now ← hostAsk me_Now;
      match polls with
      | S polls => if After now deadline then mret (Some "dockerd did not become ready") else pollDocker polls deadline
      | O => mret (Some "dockerd did not become ready")
      end
    end
  end.

Definition waitForDocker : P (option string) :=
  now ← hostAsk me_Now; pollDocker 90 (Add now dockerReadyTimeout).

(** [RemoveLeftoverSlots] *)
Definition RemoveLeftoverSlots : P (option string) :=
  r ← dockerRun ["ps"; "--all"; "--quiet"; "--filter"; "label=" +:+ labelSlot];
  match r.2 with
  | Some err => mret (Some "list leftover slot containers")
  | None =>
    match Fields r.1 with
    | [] => mret None
    | ids =>
      removed ← dockerRun (app ["rm"; "--force"] ids);
      mret match removed.2 with Some err => Some "remove leftover slot containers" | None => None end
    end
  end.

(** The agent of a booted machine. *)
Definition bootAgent (o : BootOptions) (c : Config) (cpus : list Z) : Agent :=
  mkAgent c (LocalImageName (hc_Image c)) None true true cpus true (pathJoin (bo_DataRoot o) bootWorkspaces) true (bo_Version o).

(** [Boot] from the start of dockerd to its end, when it serves; the retirement of work
    directories reads nothing of an agent. *)
Definition serveBoot (o : BootOptions) (c : Config) (hostKey authorized : string) : P (option string) :=
  orReturn waitForDocker
  (orReturn RemoveLeftoverSlots
  (retired ← asAgent (RetireWorkspaces (pathJoin (bo_DataRoot o) bootWorkspaces));
   match retired.2 : option string with
   | Some err => mret (Some "retire the work directories left by the previous run")
   | None =>
     listening ← doCall (Listen (bo_Listen o));
     match listening with
     | Some err => mret (Some "listen")
     | None =>
       online ← hostAsk (me_ReadFile onlineCPUsPath);
       let cpus := OnlineCPUs match online with inl _ => None | inr text => Some text end in
       doCall (Serve (bootAgent o c cpus) hostKey authorized);;
       ended ← hostAsk me_ServeEnd;
       mret match ended with
       | ServedEnd err => err
       | DockerEnd => Some "dockerd exited"
       | ContextEnd err => err
       end
     end
   end)).

(** [Boot] *)
Definition Boot (o : BootOptions) : P (option string) :=
  if negb me_Root then mret (Some "runneryard host boot must run as root")
  else
  config ← LoadConfig (bo_ConfigPath o);
  let c := config.1 in
  match config.2 : option string with
  | Some err => mret (Some "host configuration")
  | None =>
    let dockerRoot := pathJoin (bo_DataRoot o) "docker" in
    if negb (String.eqb (hc_DockerRoot c) dockerRoot) then mret (Some "host configuration docker_root is not on the data volume")
    else
    keys ← LoadBootKeys (bo_HostKeyPath o) (bo_AuthorizedKeyPath o);
    match keys with
    | inl err => mret (Some err)
    | inr (hostKey, authorized) =>
      orReturn (SeparateFilesystem (bo_DataRoot o))
      match DockerDaemonConfig dockerRoot (bo_DNS o) with
      | inl err => mret (Some err)
      | inr daemon =>
        orReturn (writeFile dockerdConfigPath daemon 420)
        (doCall (WriteFile oomScoreAdjPath "-500" 384);;
         orReturn startDockerd
         (result ← serveBoot o c hostKey authorized; doCall StopDockerd;; mret result))
      end
    end
  end.

(** The goroutine of [Boot] that makes a serving agent ready. *)
Definition fillCaches (a : Agent) : P () :=
  ensured ← EnsureImage (hc_Image (a_Config a)) (a_LocalImage a) (Some ImportRootfsImage);
  canceled ← hostAsk me_Canceled;
  if negb ensured || canceled then mret tt
  else
  failed ← asAgent (PrefillCaches a);
  ended ← match failed with [] => mret false | _ => hostAsk me_Canceled end;
  if ended : bool then mret tt else doCall FillCaches;; mret tt.

(** * The command line *)

(** [bootListen] of host.go *)
Definition bootListen (privateIP : string) : string + string :=
  if String.eqb privateIP "" then inl "FLY_PRIVATE_IP is not set"
  else match me_ParseAddr privateIP with
  | None => inl "FLY_PRIVATE_IP is not a usable IP address"
  | Some (address, unspecified) =>
    if unspecified : bool then inl "FLY_PRIVATE_IP is not a usable IP address" else inr (JoinHostPort address BootPort)
  end.

(** [hostHome] *)
Definition hostHome : string :=
  match me_Home with Some home => if String.eqb home "" then AgentHome else home | None => AgentHome end.

(** [runHost] of a verb, the command that sshd forces or the arguments. *)
Definition hostCommand (original : string) (args : list string) : string :=
  let command := TrimSpace original in if String.eqb command "" then Join " " args else command.

Definition commandAgent (config : Config * option string) (cpus : list Z) (version : string) : Agent :=
  mkAgent config.1 "" config.2 true true cpus false (pathJoin hostHome "workspaces") false version.

Definition runHost (original : string) (args : list string) (version : string) (input : stdin) : P (string + Reply) :=
  let command := hostCommand original args in
  if String.eqb command "" then mret (inl "runneryard host needs a verb")
  else
  config ← LoadConfig HostConfigPath;
  online ← hostAsk (me_ReadFile onlineCPUsPath);
  let cpus := OnlineCPUs match online with inl _ => None | inr text => Some text end in
  reply ← asAgent (Handle (commandAgent config cpus version) command input);
  mret (inr reply).
End host.
