(* ===== verification/HostBootTheorems.v ===== *)
(** What becoming a pool host guarantees: nobody can command a machine before it is
    prepared, and it is not called ready before its image and caches are there. *)

From S2P Require Import Prelude Program Float64 GoStrings GoText GoPatterns PoolState HostAgent HostBoot.

#[local] Open Scope string_scope.
#[local] Open Scope Z_scope.

(** * Calls in their order *)

(** The machine did this, without an error. *)
Definition done_ (a : machineAct) (l : list hostCall) : Prop := HDone a None ∈ l.
Definition ran (args : list string) (out : dockerOutput) (l : list hostCall) : Prop := HAgent (ADocker args out None) ∈ l.

(** A file was written whole under another name, and renamed. *)
Record inPlace (path contents : string) (mode : Z) (l : list hostCall) : Prop := mkInPlace {
  ip_written : done_ (WriteFile (temporaryName path) contents mode) l;
  ip_mode : done_ (Chmod (temporaryName path) mode) l;
  ip_renamed : done_ (Rename (temporaryName path) path) l
}.

(** Before each of these calls of the machine, [need] held of the calls before. *)
Definition orderly (need : machineAct → list hostCall → Prop) (new old : list hostCall) : Prop :=
  ∀ after a err before, new = (after ++ HDone a err :: before)%list → need a (before ++ old)%list.

Section host.
Context {W : Type} `{!AgentEnv W, !MachineEnv W}.
Abbreviation P := (prog (hostSys W)).

Section orderly.
Context (need : machineAct → list hostCall → Prop).

Definition grows (s s' : hostSys W) : Prop :=
  ∃ new, hlog s' = (new ++ hlog s)%list ∧ orderly need new (hlog s).

#[global] Instance grows_preorder : PreOrder grows.
Proof.
  split.
  - intros s. exists []. split; [done |]. by intros [] ? ? ? [=].
  - intros a b c (n1 & L1 & O1) (n2 & L2 & O2). exists (n2 ++ n1)%list. split; [by rewrite L2, L1, app_assoc |].
    intros after act err before Heq. apply app_eq_app in Heq as (l & [[-> Hn2]|[-> Hn1]]).
    + destruct l as [|x l]; cbn in Hn2; [by apply (O1 [] act err before) |]. injection Hn2 as <- ->.
      rewrite <- app_assoc, <- L1. by apply (O2 after act err l).
    + by apply (O1 l act err before).
Qed.

(** What a program on its own ends in. *)
Abbreviation runs p Q s := (wp eq grows (λ _, True) p Q s).

Lemma grows_in c s s' : grows s s' → c ∈ hlog s → c ∈ hlog s'.
Proof. intros (new & -> & _) Hc. apply elem_of_app. by right. Qed.

Lemma host_bind {A B} (p : P A) (k : A → P B) Q s :
  runs p (λ a s', grows s s' → runs (k a) Q s') s → runs (p ≫= k) Q s.
Proof.
  intros Hrun. apply wp_bind.
  assert (Hq : ∀ s0, grows s0 s → runs p (λ a s', grows s0 s' → runs (k a) Q s') s → runs p (λ a s', runs (k a) Q s') s).
  { clear Hrun. revert s. induction p as [a|X op kp IH]; simpl; intros s s0 Hs0 Hr; [by apply Hr |].
    intros s1 <- _ x s2 E. destruct (Hr s eq_refl Logic.I x s2 E) as (HG & _ & Hk). split_and!; [done | done |].
    apply (IH x s2 s0); [by etrans | done]. }
  by apply (Hq s).
Qed.

Lemma host_ask {A} (f : W → A * W) (Q : A → hostSys W → Prop) s :
  (∀ x s' w, hlog s' = hlog s → f w = (x, hworld s') → Q x s') → runs (hostAsk f) Q s.
Proof.
  intros HQ s1 <- _ x s2 E. destruct (f (hworld s)) as [y w] eqn:Ef. injection E as <- <-. split_and!; [|done|].
  - exists []. split; [done |]. by intros [] ? ? ? [=].
  - by apply (HQ y _ (hworld s)).
Qed.

Lemma host_perform a (Q : string * option string → hostSys W → Prop) s :
  need a (hlog s) → (∀ x s', hlog s' = HDone a x.2 :: hlog s → grows s s' → Q x s') → runs (perform a) Q s.
Proof.
  intros Hn HQ s1 <- _ x s2 E. destruct (me_Do a (hworld s)) as [y w] eqn:Ef. injection E as <- <-.
  assert (Hg : grows s (mkHostSys w (HDone a y.2 :: hlog s))).
  { exists [HDone a y.2]. split; [done |]. intros [|c after] act err before [=]; [by subst | by destruct after]. }
  split_and!; [done.. |]. by apply HQ.
Qed.

Lemma host_do_log a (Q : option string → hostSys W → Prop) s :
  need a (hlog s) → (∀ r s', hlog s' = HDone a r :: hlog s → grows s s' → Q r s') → runs (doCall a) Q s.
Proof. intros Hn HQ. apply wp_bind, host_perform; [done |]. intros [out err] s' Hl Hg. by apply (HQ err). Qed.

Lemma host_do a (Q : option string → hostSys W → Prop) s :
  need a (hlog s) → (∀ r s', grows s s' → (r = None → done_ a (hlog s')) → Q r s') → runs (doCall a) Q s.
Proof.
  intros Hn HQ. apply host_do_log; [done |]. intros r s' Hl Hg. apply HQ; [done |].
  intros ->. unfold done_. rewrite Hl. apply list_elem_of_here.
Qed.

(** A program of the agent only adds what the agent does. *)
Lemma host_asAgent {A} (p : prog (agentSys W) A) (Q : A → hostSys W → Prop) s :
  (∀ x s', grows s s' → Q x s') → runs (asAgent p) Q s.
Proof.
  intros HQ. apply (wp_conseq eq grows (λ _, True) _ (λ x s', grows s s')); [done |].
  assert (Hs : grows s s) by reflexivity. revert Hs. generalize s at 1 3. clear HQ Q. intros s0. revert s.
  induction p as [a|X op k IH]; simpl; intros s Hs; [done |].
  intros s1 <- _ x s2 E. destruct (op (mkAgentSys (hworld s) [])) as [y s'] eqn:Eop. injection E as <- <-.
  assert (Hg : grows s (mkHostSys (aworld s') (map HAgent (atrace s') ++ hlog s))).
  { exists (map HAgent (atrace s')). split; [done |]. intros after a err before Heq.
    assert (Hin : HDone a err ∈ map HAgent (atrace s')) by (rewrite Heq; apply elem_of_app; right; apply list_elem_of_here).
    by apply list_elem_of_fmap in Hin as (c & [=] & _). }
  split_and!; [done.. |]. apply IH. by etrans.
Qed.

Lemma host_docker args (Q : string * option string → hostSys W → Prop) s :
  (∀ text err s', grows s s' → (err = None → ∃ out, out_text out = text ∧ ran args out (hlog s')) → Q (text, err) s') →
  runs (dockerRun args) Q s.
Proof.
  intros HQ. apply wp_bind. intros s1 <- _ x s2 E. cbn in E.
  destruct (ae_Docker [] args (hworld s)) as [[out err] w] eqn:Ed. injection E as <- <-.
  assert (Hg : grows s (mkHostSys w (HAgent (ADocker args out err) :: hlog s))).
  { exists [HAgent (ADocker args out err)]. split; [done |]. intros [|c after] a e before [=]. by destruct after. }
  split_and!; [exact Hg | done |]. apply HQ; [exact Hg |]. cbn. intros ->. exists out. split; [done | apply list_elem_of_here].
Qed.

Lemma host_orReturn (m k : P (option string)) Q s :
  runs m (λ r s', grows s s' → match r with Some err => Q (Some err) s' | None => runs k Q s' end) s → runs (orReturn m k) Q s.
Proof.
  intros Hm. apply host_bind. eapply wp_conseq; [|exact Hm]. intros [err|] s' Hr Hg; exact (Hr Hg).
Qed.

Lemma host_writeFile path contents mode (Q : option string → hostSys W → Prop) s :
  (∀ a l, a ∈ [MkdirAll (Dir path); WriteFile (temporaryName path) contents mode; Chmod (temporaryName path) mode] → need a l) →
  (∀ s', grows s s' → done_ (WriteFile (temporaryName path) contents mode) (hlog s') → need (Rename (temporaryName path) path) (hlog s')) →
  (∀ r s', grows s s' → (r = None → inPlace path contents mode (hlog s')) → Q r s') →
  runs (writeFile path contents mode) Q s.
Proof.
  intros Hn Hren HQ. unfold writeFile.
  apply host_orReturn, host_do; [apply Hn, list_elem_of_here |]. intros [err|] s1 Hg1 _ _; [by apply HQ |].
  apply host_orReturn, host_do; [apply Hn, list_elem_of_further, list_elem_of_here |]. intros [err|] s2 Hg2 Hd2 _; [apply HQ; [by etrans | done] |].
  apply host_orReturn, host_do; [apply Hn, list_elem_of_further, list_elem_of_further, list_elem_of_here |].
  assert (H2 : grows s s2) by (by etrans). specialize (Hd2 eq_refl).
  intros [err|] s3 Hg3 Hd3 _; [apply HQ; [by etrans | done] |]. assert (H3 : grows s s3) by (by etrans).
  apply host_do; [apply Hren; [done | exact (grows_in _ _ _ Hg3 Hd2)] |]. intros r s4 Hg4 Hd4. apply HQ; [by etrans |].
  intros ->. split; [|exact (grows_in _ _ _ Hg4 (Hd3 eq_refl)) | by apply Hd4].
  exact (grows_in _ _ _ Hg4 (grows_in _ _ _ Hg3 Hd2)).
Qed.
End orderly.

Abbreviation runs need p Q s := (wp eq (grows need) (λ _, True) p Q s).

(** * Installing *)

(** What an installation establishes before its last step. *)
Record prepared (o : InstallOptions) (line : string) (l : list hostCall) : Prop := mkPrepared {
  pr_root : me_Root (W := W) = true;
  pr_config : Validate (io_Config o) = None;
  pr_line : AuthorizedKeysLine (io_AuthorizedKey o) = inr line;
  pr_settings : ∃ encoded, me_EncodeConfig (io_Config o) = Some encoded
                           ∧ inPlace HostConfigPath (encoded +:+ newline) 420 l;
  pr_image : done_ (Exec "docker" ["pull"; hc_Image (io_Config o)]) l;
  pr_metadata : io_BlockMetadata o = true →
    inPlace metadataUnitPath MetadataBlockUnit 420 l ∧ done_ (Exec "systemctl" ["enable"; "--now"; metadataUnitName]) l;
  pr_sshd : io_HardenSSHD o = true →
    inPlace sshdDropInPath SSHDHardening 420 l ∧ done_ (Exec "sshd" ["-t"]) l
    ∧ (done_ (Exec "systemctl" ["try-reload-or-restart"; "ssh.service"]) l
       ∨ done_ (Exec "systemctl" ["try-reload-or-restart"; "sshd.service"]) l)
}.

(** The key goes in place only on a prepared machine, and it is the one line. *)
Definition keyLast (o : InstallOptions) (a : machineAct) (before : list hostCall) : Prop :=
  a = Rename (temporaryName authorizedKeysPath) authorizedKeysPath →
  ∃ line, prepared o line before ∧ done_ (WriteFile (temporaryName authorizedKeysPath) (line +:+ newline) 384) before.

Section install.
Context (o : InstallOptions).

Lemma keyLast_other a l : (∀ from to, a ≠ Rename from to) → keyLast o a l.
Proof. intros Ha ->. by destruct (Ha (temporaryName authorizedKeysPath) authorizedKeysPath). Qed.

Lemma keyLast_path from to l : to ≠ authorizedKeysPath → keyLast o (Rename from to) l.
Proof. by intros Hto [= _ Heq]. Qed.

Lemma inPlace_later need path contents mode (s s' : hostSys W) :
  grows need s s' → inPlace path contents mode (hlog s) → inPlace path contents mode (hlog s').
Proof. intros Hg [H1 H2 H3]. split; unfold done_ in *; by eapply grows_in. Qed.

Lemma prepared_later need line (s s' : hostSys W) :
  grows need s s' → prepared o line (hlog s) → prepared o line (hlog s').
Proof.
  intros Hg [H1 H2 H3 (enc & He & H4) H5 H6 H7]. split; [done.. | | | |].
  - exists enc. split; [done |]. by eapply inPlace_later.
  - unfold done_ in *. by eapply grows_in.
  - intros Hb. destruct (H6 Hb) as [Hi Hd]. split; [by eapply inPlace_later | unfold done_ in *; by eapply grows_in].
  - intros Hb. destruct (H7 Hb) as (Hi & Hd & Hr). split_and!; [by eapply inPlace_later | unfold done_ in *; by eapply grows_in |].
    destruct Hr as [Hr|Hr]; [left | right]; unfold done_ in *; by eapply grows_in.
Qed.

Lemma install_exec name args (Q : option string → hostSys W → Prop) s :
  (∀ r s', grows (keyLast o) s s' → (r = None → done_ (Exec name args) (hlog s')) → Q r s') → runs (keyLast o) (run name args) Q s.
Proof. intros HQ. apply host_do; [by apply keyLast_other | exact HQ]. Qed.

Lemma install_writeFile path contents mode (Q : option string → hostSys W → Prop) s :
  path ≠ authorizedKeysPath →
  (∀ r s', grows (keyLast o) s s' → (r = None → inPlace path contents mode (hlog s')) → Q r s') →
  runs (keyLast o) (writeFile path contents mode) Q s.
Proof.
  intros Hp HQ. apply host_writeFile; [| by intros; apply keyLast_path | exact HQ].
  intros a l Ha. apply keyLast_other. intros from to ->. set_solver.
Qed.

(** A step of the installation that the rest does not rely on. *)
Lemma install_binary (Q : option string → hostSys W → Prop) s :
  (∀ r s', grows (keyLast o) s s' → Q r s') → runs (keyLast o) installBinary Q s.
Proof.
  intros HQ. unfold installBinary. apply host_bind, host_ask. intros executable s1 w Hl _ Hg.
  destruct executable as [err|executable]; [by apply HQ |]. destruct (String.eqb executable BinaryPath); [by apply HQ |].
  apply host_bind, host_ask. intros contents s2 w2 _ _ Hg2. assert (H2 : grows (keyLast o) s s2) by (by etrans).
  destruct contents as [err|contents]; [by apply HQ |].
  apply install_writeFile; [by vm_compute |]. intros r s3 Hg3 _. apply HQ. by etrans.
Qed.

Lemma install_user (Q : string + Z * Z → hostSys W → Prop) s :
  (∀ r s', grows (keyLast o) s s' → Q r s') → runs (keyLast o) ensureUser Q s.
Proof.
  intros HQ. unfold ensureUser. apply host_bind, host_ask. intros found s1 w _ _ Hg1. apply host_bind.
  assert (Hnext : ∀ r s2, grows (keyLast o) s s2 → runs (keyLast o)
            match r : option string with
            | Some err => mret (inl err)
            | None =>
              grouped ← run "usermod" ["--append"; "--groups"; "docker"; AgentUser];
              match grouped with
              | Some err => mret (inl err)
              | None => found ← hostAsk (me_Lookup AgentUser); mret (agentAccount found)
              end
            end Q s2).
  { intros [err|] s2 Hg2; [by apply HQ |]. apply host_bind, install_exec. intros [err|] s3 Hg3 _ _; [apply HQ; by etrans |].
    apply host_bind, host_ask. intros again s4 w4 _ _ Hg4. apply HQ. etrans; [exact Hg2 |]. by etrans. }
  destruct found; [apply install_exec | intros _; by apply (Hnext (Some _)) | intros _; by apply (Hnext None)].
  intros r s2 Hg2 _ _. apply Hnext. by etrans.
Qed.

Lemma install_metadata (Q : option string → hostSys W → Prop) s :
  (∀ r s', grows (keyLast o) s s' →
     (r = None → inPlace metadataUnitPath MetadataBlockUnit 420 (hlog s')
                 ∧ done_ (Exec "systemctl" ["enable"; "--now"; metadataUnitName]) (hlog s')) → Q r s') →
  runs (keyLast o) blockMetadata Q s.
Proof.
  intros HQ. apply host_orReturn, install_writeFile; [by vm_compute |]. intros [err|] s1 Hg1 Hi _; [by apply HQ |].
  apply host_orReturn, install_exec. intros [err|] s2 Hg2 _ _; [apply HQ; [by etrans | done] |].
  apply install_exec. intros r s3 Hg3 Hd. apply HQ; [etrans; [exact Hg1 | by etrans] |]. intros Hr. split; [|by apply Hd].
  eapply inPlace_later; [exact Hg3 |]. eapply inPlace_later; [exact Hg2 | by apply Hi].
Qed.

Lemma install_sshd (Q : option string → hostSys W → Prop) s :
  (∀ r s', grows (keyLast o) s s' →
     (r = None → inPlace sshdDropInPath SSHDHardening 420 (hlog s') ∧ done_ (Exec "sshd" ["-t"]) (hlog s')
                 ∧ (done_ (Exec "systemctl" ["try-reload-or-restart"; "ssh.service"]) (hlog s')
                    ∨ done_ (Exec "systemctl" ["try-reload-or-restart"; "sshd.service"]) (hlog s'))) → Q r s') →
  runs (keyLast o) hardenSSHD Q s.
Proof.
  intros HQ. apply host_orReturn, install_writeFile; [by vm_compute |]. intros [err|] s1 Hg1 Hi _; [by apply HQ |].
  specialize (Hi eq_refl). apply host_bind, install_exec. intros [err|] s2 Hg2 Ht _.
  { apply host_bind, host_do; [by apply keyLast_other |]. intros r s3 Hg3 _ _. apply HQ; [|done].
    etrans; [exact Hg1 | by etrans]. }
  specialize (Ht eq_refl). apply host_bind, install_exec. intros [err|] s3 Hg3 Hr _.
  - apply install_exec. intros r s4 Hg4 Hr4. assert (H24 : grows (keyLast o) s2 s4) by (by etrans).
    apply HQ; [etrans; [exact Hg1 | by etrans] |]. intros Hnone. split_and!; [| by eapply grows_in | right; by apply Hr4].
    eapply inPlace_later; [exact H24 |]. by eapply inPlace_later.
  - apply HQ; [etrans; [exact Hg1 | by etrans] |]. intros _. split_and!; [| by eapply grows_in | left; by apply Hr].
    eapply inPlace_later; [exact Hg3 |]. by eapply inPlace_later.
Qed.

Definition installed (r : option string) (s : hostSys W) : Prop :=
  r = None → ∃ line, prepared o line (hlog s) ∧ inPlace authorizedKeysPath (line +:+ newline) 384 (hlog s).

Lemma chown_all uid gid targets (k : P (option string)) Q s :
  (∀ err s', Q (Some err) s') → (∀ s', grows (keyLast o) s s' → runs (keyLast o) k Q s') →
  runs (keyLast o) (for_each targets (chownTo uid gid) k) Q s.
Proof.
  intros Herr. revert s. induction targets as [|t ts IH]; intros s Hk; [apply Hk; reflexivity |].
  apply host_bind, host_bind, host_do; [by apply keyLast_other |]. intros [err|] s1 Hg1 _ _ _; [by apply Herr |].
  apply IH. intros s2 Hg2. apply Hk. by etrans.
Qed.

Lemma install_key line uid gid s :
  prepared o line (hlog s) → runs (keyLast o) (writeAuthorizedKey line uid gid) installed s.
Proof.
  intros Hp. unfold writeAuthorizedKey. apply host_orReturn, host_do; [by apply keyLast_other |].
  intros [err|] s1 Hg1 _ _; [by intros [=] |]. assert (Hp1 : prepared o line (hlog s1)) by (by eapply prepared_later).
  apply host_orReturn, host_writeFile.
  - intros a l Ha. apply keyLast_other. intros from to ->. set_solver.
  - intros s2 Hg2 Hw _. exists line. split; [by eapply prepared_later | done].
  - intros [err|] s2 Hg2 Hi _; [by intros [=] |]. specialize (Hi eq_refl).
    apply chown_all; [by intros err s3 [=] |]. intros s3 Hg3.
    apply host_do; [by apply keyLast_other |]. intros r s4 Hg4 _ _. exists line.
    assert (H24 : grows (keyLast o) s2 s4) by (by etrans).
    split; [|by eapply inPlace_later]. eapply prepared_later; [exact H24 |]. by eapply prepared_later.
Qed.

Lemma install_runs s : runs (keyLast o) (Install o) installed s.
Proof.
  unfold Install. destruct (me_Root) eqn:Er; cbn [negb]; [|by intros [=]].
  destruct (Validate (io_Config o)) eqn:Ev; [by intros [=] |].
  destruct (AuthorizedKeysLine (io_AuthorizedKey o)) as [err|line] eqn:El; [by intros [=] |].
  apply host_orReturn, install_binary. intros [err|] s1 _ _; [by intros [=] |].
  apply host_bind, install_user. intros [err|[uid gid]] s2 _ _; [by intros [=] |].
  destruct (me_EncodeConfig (io_Config o)) as [encoded|] eqn:Ee; [|by intros [=]].
  apply host_orReturn, install_writeFile; [by vm_compute |]. intros [err|] s3 _ Hc _; [by intros [=] |].
  specialize (Hc eq_refl).
  apply host_orReturn, install_exec. intros [err|] s4 Hg4 Hi _; [by intros [=] |]. specialize (Hi eq_refl).
  apply host_bind, host_asAgent. intros failed s5 Hg5 _. assert (H35 : grows (keyLast o) s3 s5) by (by etrans).
  apply host_orReturn.
  assert (Hstep : ∀ (wanted : bool) (p : P (option string)) (φ : list hostCall → Prop) s,
            (∀ Q s, (∀ r s', grows (keyLast o) s s' → (r = None → φ (hlog s')) → Q r s') → runs (keyLast o) p Q s) →
            runs (keyLast o) (if wanted then p else mret None)
              (λ r s', grows (keyLast o) s s' ∧ (r = None → wanted = true → φ (hlog s'))) s).
  { intros [] p φ s' Hp'; [|by split; [|done]]. apply Hp'. intros r s'' Hg Hφ. split; [done |]. intros Hr _. by apply Hφ. }
  eapply wp_conseq; [|apply (Hstep _ _ (λ l, inPlace metadataUnitPath MetadataBlockUnit 420 l
                                     ∧ done_ (Exec "systemctl" ["enable"; "--now"; metadataUnitName]) l)); exact install_metadata].
  intros [err|] s6 [Hg6 Hm] _; [by intros [=] |].
  apply host_orReturn. eapply wp_conseq; [|apply (Hstep _ _ (λ l, inPlace sshdDropInPath SSHDHardening 420 l ∧ done_ (Exec "sshd" ["-t"]) l
    ∧ (done_ (Exec "systemctl" ["try-reload-or-restart"; "ssh.service"]) l
       ∨ done_ (Exec "systemctl" ["try-reload-or-restart"; "sshd.service"]) l))); exact install_sshd].
  intros [err|] s7 [Hg7 Hs] _; [by intros [=] |].
  apply install_key. assert (H57 : grows (keyLast o) s5 s7) by (by etrans).
  assert (H37 : grows (keyLast o) s3 s7) by (by etrans). assert (H47 : grows (keyLast o) s4 s7) by (by etrans).
  split; [done.. | | | |].
  - exists encoded. split; [done |]. exact (inPlace_later _ _ _ _ _ _ H37 Hc).
  - exact (grows_in _ _ _ _ H47 Hi).
  - intros Hb. destruct (Hm eq_refl Hb) as [Hmi Hmd].
    split; [exact (inPlace_later _ _ _ _ _ _ Hg7 Hmi) | exact (grows_in _ _ _ _ Hg7 Hmd)].
  - by apply Hs.
Qed.

(** C12: A machine becomes reachable only when it is prepared: whatever fails, the
    controller's key is put in place only after the configuration that it runs was
    checked and written, its image was pulled, and, where asked for, containers were cut
    off from the metadata service and sshd took its hardening; and the file then holds one
    line, the controller's only key, forced to the agent's command.  An installation that
    reports success has done all of it. *)
Theorem install_key_last (w : W) :
  let s' := execP (Install o) (mkHostSys w []) in
  orderly (keyLast o) (hlog s') [] ∧ installed (evalP (Install o) (mkHostSys w [])) s'.
Proof.
  destruct (wp_run _ _ _ _ _ _ (install_runs (mkHostSys w [])) Logic.I) as ((new & Hl & Ho) & _ & HQ).
  cbv zeta. split; [|exact HQ]. rewrite Hl. cbn in *. by rewrite app_nil_r.
Qed.
End install.

(** * Booting *)

Section agents.
Context (need : machineAct → list hostCall → Prop).

Lemma agent_bind {A B} (p : prog (agentSys W) A) (k : A → prog (agentSys W) B) Q s :
  runs need (asAgent p) (λ a s', grows need s s' → runs need (asAgent (k a)) Q s') s → runs need (asAgent (p ≫= k)) Q s.
Proof.
  intros Hrun.
  assert (Hp : runs need (asAgent p) (λ a s', runs need (asAgent (k a)) Q s') s).
  { assert (Hq : ∀ s0, grows need s0 s → runs need (asAgent p) (λ a s', grows need s0 s' → runs need (asAgent (k a)) Q s') s →
                       runs need (asAgent p) (λ a s', runs need (asAgent (k a)) Q s') s).
    { clear Hrun. revert s. induction (asAgent p) as [a|X op kp IH]; simpl; intros s s0 Hs0 Hr; [by apply Hr |].
      intros s1 <- _ x s2 E. destruct (Hr s eq_refl Logic.I x s2 E) as (HG & _ & Hk). split_and!; [done | done |].
      apply (IH x s2 s0); [by etrans | done]. }
    by apply (Hq s). }
  clear Hrun. revert s Hp. unfold mbind, prog_bind. induction p as [a|X op kp IH]; simpl; intros s Hp; [done |].
  intros s1 HR HI x s2 E. destruct (Hp s1 HR HI x s2 E) as (? & ? & ?). split_and!; [done.. |]. by apply IH.
Qed.

Lemma agent_world {A} (f : W → A * W) (Q : A → hostSys W → Prop) s :
  (∀ x s' w, grows need s s' → f w = (x, hworld s') → Q x s') → runs need (asAgent (world f)) Q s.
Proof.
  intros HQ s1 <- _ x s2 E. cbn in E. destruct (f (hworld s)) as [y w] eqn:Ef. injection E as <- <-.
  assert (Hg : grows need s (mkHostSys w (hlog s))).
  { exists []. split; [done |]. by intros [] ? ? ? [=]. }
  split_and!; [exact Hg | done |]. by apply (HQ y _ (hworld s)).
Qed.

Lemma agent_traced {A} (f : W → A * W) entry (Q : A → hostSys W → Prop) s :
  (∀ x s', grows need s s' → HAgent (entry x) ∈ hlog s' → Q x s') → runs need (asAgent (traced f entry)) Q s.
Proof.
  intros HQ s1 <- _ x s2 E. cbn in E. destruct (f (hworld s)) as [y w] eqn:Ef. injection E as <- <-.
  assert (Hg : grows need s (mkHostSys w (HAgent (entry y) :: hlog s))).
  { exists [HAgent (entry y)]. split; [done |]. intros [|c after] a err before [=]. by destruct after. }
  split_and!; [exact Hg | done |]. apply HQ; [done |]. apply list_elem_of_here.
Qed.

(** Every directory of a slot was renamed for deletion. *)
Definition retiredAll (root : string) (l : list hostCall) : Prop :=
  ∃ w, match (ae_ReadDir root w).1 with
       | DirMissing => True
       | DirFailed _ => False
       | DirEntries names =>
         ∀ name, name ∈ names → HasPrefix name workspacePrefix = true →
           ∃ suffix, HAgent (ARename (joinPath root name) (joinPath root (retiredWorkspacePrefix +:+ name +:+ "-" +:+ suffix)) None) ∈ l
       end.

Lemma boot_retireEntries root prefix names n (Q : nat * option string → hostSys W → Prop) s :
  (∀ r s', grows need s s' →
     (r.2 = None → ∀ name, name ∈ names → HasPrefix name prefix = true →
        ∃ suffix, HAgent (ARename (joinPath root name) (joinPath root (retiredWorkspacePrefix +:+ name +:+ "-" +:+ suffix)) None) ∈ hlog s') →
     Q r s') →
  runs need (asAgent (retireEntries root prefix names n)) Q s.
Proof.
  revert n s Q. induction names as [|name names IH]; intros n s Q HQ; cbn [retireEntries].
  { apply HQ; [reflexivity |]. by intros _ name ?%not_elem_of_nil. }
  destruct (HasPrefix name prefix) eqn:Ep; cbn [negb].
  2: { apply IH. intros r s' Hg Hr. apply HQ; [done |]. intros Hnone q [->|Hq]%elem_of_cons Hp; [congruence | by apply Hr]. }
  apply agent_bind, agent_world. intros suffix s1 w Hg1 _ _. apply agent_bind, agent_traced. intros err s2 Hg2 Hin _.
  assert (H2 : grows need s s2) by (by etrans). destruct err as [err|]; [by apply HQ |].
  apply IH. intros r s3 Hg3 Hr. apply HQ; [by etrans |].
  intros Hnone q [->|Hq]%elem_of_cons Hp; [|by apply Hr]. exists (ToLower suffix). exact (grows_in _ _ _ _ Hg3 Hin).
Qed.

Lemma boot_retire root (Q : nat * option string → hostSys W → Prop) s :
  (∀ r s', grows need s s' → (r.2 = None → retiredAll root (hlog s')) → Q r s') →
  runs need (asAgent (RetireWorkspaces root)) Q s.
Proof.
  intros HQ. unfold RetireWorkspaces, retireWorkspaces. apply agent_bind, agent_world. intros entries s1 w Hg1 Hw _.
  destruct entries as [|err|names].
  - apply HQ; [done |]. intros _. exists w. by rewrite Hw.
  - by apply HQ.
  - apply boot_retireEntries. intros r s2 Hg2 Hr. apply HQ; [by etrans |]. intros Hnone. exists w. rewrite Hw. exact (Hr Hnone).
Qed.
End agents.

(** What a boot establishes before anybody can reach the agent. *)
Definition leftoverArgs : list string := ["ps"; "--all"; "--quiet"; "--filter"; "label=" +:+ labelSlot].

Record started (o : BootOptions) (c : Config) (l : list hostCall) : Prop := mkStarted {
  sb_root : me_Root (W := W) = true;
  sb_config : Validate c = None ∧ hc_DockerRoot c = pathJoin (bo_DataRoot o) "docker";
  sb_volume : ∃ v w data root, (me_Device (bo_DataRoot o) v).1 = inr data ∧ (me_Device "/" w).1 = inr root ∧ data ≠ root;
  sb_daemon : ∃ text, DockerDaemonConfig (hc_DockerRoot c) (bo_DNS o) = inr text ∧ inPlace dockerdConfigPath text 420 l;
  sb_started : done_ (StartProcess "dockerd" ["--config-file"; dockerdConfigPath]) l
}.

Record cleared (o : BootOptions) (l : list hostCall) : Prop := mkCleared {
  cb_driver : ∃ out, ran ["info"; "--format"; "{{.Driver}}"] out l ∧ TrimSpace (out_text out) ≠ "vfs";
  cb_leftover : ∃ out, ran leftoverArgs out l
    ∧ (Fields (out_text out) ≠ [] → ∃ removed, ran (app ["rm"; "--force"] (Fields (out_text out))) removed l);
  cb_retired : retiredAll (pathJoin (bo_DataRoot o) bootWorkspaces) l
}.

(** The controller's key, alone in its file. *)
Definition onlyKey (o : BootOptions) (authorized : string) : Prop :=
  ∃ w contents rest, (me_ReadFile (bo_AuthorizedKeyPath o) w).1 = inr contents
    ∧ me_ParseAuthorizedKey (TrimSpace contents) = Some (authorized, [], rest) ∧ TrimSpace rest = "".

Definition servesLast (o : BootOptions) (a : machineAct) (before : list hostCall) : Prop :=
  match a with
  | Listen _ => ∃ c, started o c before ∧ cleared o before
  | Serve agent _ authorized =>
    ∃ c cpus, agent = bootAgent o c cpus ∧ onlyKey o authorized
              ∧ started o c before ∧ cleared o before ∧ done_ (Listen (bo_Listen o)) before
  | _ => True
  end.

Section boot.
Context (o : BootOptions).
Abbreviation need := (servesLast o).

Lemma started_later c (s s' : hostSys W) : grows need s s' → started o c (hlog s) → started o c (hlog s').
Proof.
  intros Hg [H1 H2 H3 (t & Ht & H4) H5]. split; [done.. | | exact (grows_in _ _ _ _ Hg H5)].
  exists t. split; [done |]. by eapply inPlace_later.
Qed.

Lemma cleared_later (s s' : hostSys W) : grows need s s' → cleared o (hlog s) → cleared o (hlog s').
Proof.
  intros Hg [(out & H1 & H2) (lo & H3 & H4) (w & H5)]. split.
  - exists out. split; [exact (grows_in _ _ _ _ Hg H1) | done].
  - exists lo. split; [exact (grows_in _ _ _ _ Hg H3) |]. intros Hne. destruct (H4 Hne) as [r Hr].
    exists r. exact (grows_in _ _ _ _ Hg Hr).
  - exists w. destruct (ae_ReadDir _ w).1 as [| |names]; [done.. |]. intros name Hn Hp.
    destruct (H5 name Hn Hp) as [suffix Hs]. exists suffix. exact (grows_in _ _ _ _ Hg Hs).
Qed.

Lemma boot_poll polls deadline (Q : option string → hostSys W → Prop) s :
  (∀ r s', grows need s s' →
     (r = None → ∃ out, ran ["info"; "--format"; "{{.Driver}}"] out (hlog s') ∧ TrimSpace (out_text out) ≠ "vfs") → Q r s') →
  runs need (pollDocker polls deadline) Q s.
Proof.
  revert s. induction polls as [|polls IH]; intros s HQ; cbn [pollDocker].
  all: apply host_bind, host_docker; intros text err s1 Hg1 Hrun _; cbn [fst snd]; destruct err as [err|].
  2, 4: apply HQ; [done |]; destruct (String.eqb_spec (TrimSpace text) "vfs") as [|Hne]; [done |];
    intros _; destruct (Hrun eq_refl) as (out & Ho & Hr); exists out; by rewrite Ho.
  all: apply host_bind, host_ask; intros waited s2 w2 _ _ Hg2; assert (H2 : grows need s s2) by (by etrans).
  all: destruct waited as [|e|]; [by apply HQ | by apply HQ |].
  all: apply host_bind, host_ask; intros now s3 w3 _ _ Hg3; assert (H3 : grows need s s3) by (by etrans).
  - by apply HQ.
  - destruct (After now deadline); [by apply HQ |]. apply IH. intros r s4 Hg4 Hr. apply HQ; [by etrans | done].
Qed.

Lemma boot_leftover (Q : option string → hostSys W → Prop) s :
  (∀ r s', grows need s s' →
     (r = None → ∃ out, ran leftoverArgs out (hlog s')
        ∧ (Fields (out_text out) ≠ [] → ∃ removed, ran (app ["rm"; "--force"] (Fields (out_text out))) removed (hlog s'))) → Q r s') →
  runs need RemoveLeftoverSlots Q s.
Proof.
  intros HQ. unfold RemoveLeftoverSlots. apply host_bind, host_docker. intros text err s1 Hg1 Hrun _. cbn [fst snd].
  destruct err as [err|]; [by apply HQ |]. destruct (Hrun eq_refl) as (out & <- & Hr).
  destruct (Fields (out_text out)) as [|id ids] eqn:Ef; [apply HQ; [done |]; intros _; exists out; by rewrite Ef |].
  rewrite <- Ef. apply host_bind, host_docker. intros text2 err2 s2 Hg2 Hrun2 _. cbn [fst snd].
  apply HQ; [by etrans |]. destruct err2 as [err2|]; [done |]. intros _. exists out.
  split; [exact (grows_in _ _ _ _ Hg2 Hr) |]. intros _. destruct (Hrun2 eq_refl) as (removed & _ & Hrm). by exists removed.
Qed.

Lemma boot_serves c hostKey authorized (Q : option string → hostSys W → Prop) s :
  started o c (hlog s) → onlyKey o authorized → (∀ r s', grows need s s' → Q r s') →
  runs need (serveBoot o c hostKey authorized) Q s.
Proof.
  intros Hst Hkey HQ. unfold serveBoot, waitForDocker.
  apply host_orReturn, host_bind, host_ask. intros now s0 w0 _ _ Hg0. apply boot_poll.
  intros [err|] s1 Hg1 Hdriver Hg01; [by apply HQ |]. destruct (Hdriver eq_refl) as (out & Hinfo & Hvfs).
  apply host_orReturn, boot_leftover. intros [err|] s2 Hg2 Hleft _; [apply HQ; by etrans |]. specialize (Hleft eq_refl).
  apply host_bind, boot_retire. intros [n err] s3 Hg3 Hret _. cbn [snd] in *.
  assert (H13 : grows need s1 s3) by (by etrans). assert (H03 : grows need s s3) by (by etrans).
  destruct err as [err|]; [by apply HQ |].
  assert (Hclear : cleared o (hlog s3)).
  { split; [exists out; split; [exact (grows_in _ _ _ _ H13 Hinfo) | done] | | by apply Hret].
    destruct Hleft as (lo & Hlo & Hrm). exists lo. split; [exact (grows_in _ _ _ _ Hg3 Hlo) |].
    intros Hne. destruct (Hrm Hne) as [removed Hr]. exists removed. exact (grows_in _ _ _ _ Hg3 Hr). }
  assert (Hst3 : started o c (hlog s3)) by (by eapply started_later).
  apply host_bind, host_do; [by exists c |]. intros [err|] s4 Hg4 Hlis _; [apply HQ; by etrans |]. specialize (Hlis eq_refl).
  apply host_bind, host_ask. intros online s5 w5 _ _ Hg5. cbv zeta. assert (H35 : grows need s3 s5) by (by etrans).
  apply host_bind, host_do.
  { eexists c, _. split_and!; [done | done | by eapply started_later | by eapply cleared_later |].
    exact (grows_in _ _ _ _ Hg5 Hlis). }
  intros r s6 Hg6 _ _. apply host_bind, host_ask. intros ended s7 w7 _ _ Hg7.
  apply HQ. etrans; [exact H03 |]. etrans; [exact H35 |]. by etrans.
Qed.

Lemma boot_config path (Q : Config * option string → hostSys W → Prop) s :
  (∀ c err s', hlog s' = hlog s → (err = None → Validate c = None) → Q (c, err) s') → runs need (LoadConfig path) Q s.
Proof.
  intros HQ. apply host_bind, host_ask. intros contents s1 w Hl _ _. destruct contents as [err|contents]; [by apply HQ |].
  by destruct (me_DecodeConfig contents); apply HQ.
Qed.

Lemma boot_keys (Q : string + string * string → hostSys W → Prop) s :
  (∀ r s', hlog s' = hlog s → match r with inr keys => onlyKey o keys.2 | inl _ => True end → Q r s') →
  runs need (LoadBootKeys (bo_HostKeyPath o) (bo_AuthorizedKeyPath o)) Q s.
Proof.
  intros HQ. apply host_bind, host_ask. intros hostKey s1 w1 Hl1 _ _. destruct hostKey as [err|hostKey]; [by apply HQ |].
  destruct (me_ParsePrivateKey hostKey) as [signer|]; [|by apply HQ].
  apply host_bind, host_ask. intros contents s2 w2 Hl2 Hw _. apply HQ; [congruence |].
  destruct contents as [err|contents]; [done |].
  destruct (me_ParseAuthorizedKey (TrimSpace contents)) as [[[key [|x xs]] rest]|] eqn:Ek; try done.
  destruct (String.eqb_spec (TrimSpace rest) ""); cbn [negb]; [|done].
  exists w2, contents, rest. cbn. by rewrite Hw.
Qed.

Lemma boot_volume (Q : option string → hostSys W → Prop) s :
  (∀ r s', hlog s' = hlog s →
     (r = None → ∃ v w data root, (me_Device (bo_DataRoot o) v).1 = inr data ∧ (me_Device "/" w).1 = inr root ∧ data ≠ root) →
     Q r s') →
  runs need (SeparateFilesystem (bo_DataRoot o)) Q s.
Proof.
  intros HQ. apply host_bind, host_ask. intros data s1 w1 Hl1 Hw1 _. destruct data as [err|data]; [by apply HQ |].
  apply host_bind, host_ask. intros root s2 w2 Hl2 Hw2 _. apply HQ; [congruence |]. destruct root as [err|root]; [done |].
  destruct (Z.eqb_spec data root); [done |]. intros _. exists w1, w2, data, root. by rewrite Hw1, Hw2.
Qed.

(** A boot that started dockerd stops it. *)
Definition stopped (r : option string) (s : hostSys W) : Prop :=
  done_ (StartProcess "dockerd" ["--config-file"; dockerdConfigPath]) (hlog s) → ∃ err, HDone StopDockerd err ∈ hlog s.

Definition unstarted (s : hostSys W) : Prop :=
  ¬ done_ (StartProcess "dockerd" ["--config-file"; dockerdConfigPath]) (hlog s).

Lemma boot_perform_other a (Q : option string → hostSys W → Prop) s :
  need a (hlog s) → a ≠ StartProcess "dockerd" ["--config-file"; dockerdConfigPath] → unstarted s →
  (∀ r s', grows need s s' → (r = None → done_ a (hlog s')) → unstarted s' → Q r s') → runs need (doCall a) Q s.
Proof.
  intros Hn Ha Hu HQ. apply host_do_log; [done |]. intros r s' Hl Hg. apply HQ; [done | |].
  - intros ->. unfold done_. rewrite Hl. apply list_elem_of_here.
  - unfold unstarted, done_. rewrite Hl. by intros [[= ? ?]|Hin]%elem_of_cons.
Qed.

Lemma boot_daemonFile text (Q : option string → hostSys W → Prop) s :
  unstarted s →
  (∀ r s', grows need s s' → (r = None → inPlace dockerdConfigPath text 420 (hlog s')) → unstarted s' → Q r s') →
  runs need (writeFile dockerdConfigPath text 420) Q s.
Proof.
  intros Hu HQ. unfold writeFile.
  apply host_orReturn, boot_perform_other; [done.. |]. intros [err|] s1 Hg1 _ Hu1 _; [by apply HQ |].
  apply host_orReturn, boot_perform_other; [done.. |]. intros [err|] s2 Hg2 Hd2 Hu2 _; [apply HQ; [by etrans | done..] |].
  apply host_orReturn, boot_perform_other; [done.. |].
  assert (H2 : grows need s s2) by (by etrans). specialize (Hd2 eq_refl).
  intros [err|] s3 Hg3 Hd3 Hu3 _; [apply HQ; [by etrans | done..] |]. assert (H3 : grows need s s3) by (by etrans).
  apply boot_perform_other; [done.. |]. intros r s4 Hg4 Hd4 Hu4. apply HQ; [by etrans | | done]. intros ->.
  split; [|exact (grows_in _ _ _ _ Hg4 (Hd3 eq_refl)) | by apply Hd4].
  exact (grows_in _ _ _ _ Hg4 (grows_in _ _ _ _ Hg3 Hd2)).
Qed.

Lemma unstarted_stopped r s : unstarted s → stopped r s.
Proof. intros Hu Hs. by destruct Hu. Qed.

Lemma boot_runs s : hlog s = [] → runs need (Boot o) stopped s.
Proof.
  intros Hl.
  assert (Hnew : ∀ s', hlog s' = [] → unstarted s').
  { intros s' Hs'. unfold unstarted, done_. rewrite Hs'. by intros ?%not_elem_of_nil. }
  assert (Hend : ∀ r s', hlog s' = [] → stopped r s') by (intros r s' Hs'; by apply unstarted_stopped, Hnew).
  unfold Boot. destruct me_Root eqn:Er; cbn [negb]; [|by apply Hend].
  apply host_bind, boot_config. intros c err s1 Hl1 Hc _. rewrite Hl in Hl1. cbn [fst snd].
  destruct err as [err|]; [by apply Hend |]. cbv zeta.
  destruct (String.eqb_spec (hc_DockerRoot c) (pathJoin (bo_DataRoot o) "docker")) as [Hroot|]; cbn [negb]; [|by apply Hend].
  apply host_bind, boot_keys. intros keys s2 Hl2 Hkeys _. rewrite Hl1 in Hl2. destruct keys as [err|[hostKey authorized]]; [by apply Hend |].
  apply host_orReturn, boot_volume. intros [err|] s3 Hl3 Hvol _; rewrite Hl2 in Hl3; [by apply Hend |]. specialize (Hvol eq_refl).
  rewrite <- Hroot. destruct (DockerDaemonConfig (hc_DockerRoot c) (bo_DNS o)) as [err|text] eqn:Ed; [by apply Hend |].
  apply host_orReturn, boot_daemonFile; [by apply Hnew |]. intros [err|] s4 Hg4 Hfile Hu4 _; [by apply unstarted_stopped |].
  specialize (Hfile eq_refl).
  apply host_bind, boot_perform_other; [done.. |]. intros oom s5 Hg5 _ Hu5 _.
  apply host_orReturn, host_orReturn, boot_perform_other; [done.. |].
  intros [err|] s6 Hg6 _ Hu6 _; [intros _; by apply unstarted_stopped |].
  assert (H46 : grows need s4 s6) by (by etrans).
  apply host_do_log; [done |]. intros [err|] s7 Hl7 Hg7.
  { intros _. apply unstarted_stopped. unfold unstarted, done_ in *. rewrite Hl7. by intros [[=]|Hin]%elem_of_cons. }
  intros _. assert (H47 : grows need s4 s7) by (by etrans). apply host_bind, (boot_serves c); [| done |].
  - split; [done | by split; [apply Hc |] | done | |].
    + exists text. split; [done |]. by eapply inPlace_later.
    + unfold done_. rewrite Hl7. apply list_elem_of_here.
  - intros r s8 _ _. apply host_bind, host_do_log; [done |]. intros err s9 Hl9 _ _ _.
    exists err. rewrite Hl9. apply list_elem_of_here.
Qed.
End boot.

(** * Getting ready *)

(** The image that slots run is in the host's docker: it was there, or it was made of
    the machine's own image layer, or pulled. *)
Definition imageThere (a : Agent) (l : list hostCall) : Prop :=
  let image := hc_Image (a_Config a) in
  let local := a_LocalImage a in
  (∃ out, ran ["image"; "inspect"; "--format"; "{{.Id}}"; local] out l)
  ∨ (∃ device dir id, MatchString blockDeviceName device = true ∧ HasPrefix id "sha256:" = true
       ∧ done_ (Exec "mount" ["-o"; "ro,nosuid,nodev,noexec"; device; dir]) l
       ∧ done_ (WaitProcess "tar") l ∧ done_ (WaitProcess "docker") l ∧ done_ (Exec "docker" ["tag"; id; local]) l)
  ∨ (∃ out, ran ["pull"; "--quiet"; image] out l) ∧ (local = image ∨ ∃ out, ran ["tag"; image; local] out l).

(** Every slot's caches were filled, or their filling was tried. *)
Definition prefilled (a : Agent) (l : list hostCall) : Prop :=
  ∀ slot, 0 <= slot < hc_Slots (a_Config a) → ∃ out err, HAgent (ADocker (prefillArgs a slot) out err) ∈ l.

Definition readyLast (a : Agent) (act : machineAct) (before : list hostCall) : Prop :=
  act = FillCaches → imageThere a before ∧ prefilled a before.

Section ready.
Context (a : Agent).
Abbreviation need := (readyLast a).

Lemma ready_other act l : act ≠ FillCaches → need act l.
Proof. by intros Ha ->. Qed.

Lemma ready_do act (Q : option string → hostSys W → Prop) s :
  act ≠ FillCaches → (∀ r s', grows need s s' → (r = None → done_ act (hlog s')) → Q r s') → runs need (doCall act) Q s.
Proof. intros Ha. by apply host_do, ready_other. Qed.

(** An import of the tree, with what it says was done. *)
Definition treeImported (id : string) (l : list hostCall) : Prop :=
  HasPrefix id "sha256:" = true ∧ done_ (WaitProcess "tar") l ∧ done_ (WaitProcess "docker") l.

Lemma ready_tree dir changes (Q : string + string → hostSys W → Prop) s :
  (∀ r s', grows need s s' → match r with inr id => treeImported id (hlog s') | inl _ => True end → Q r s') →
  runs need (importTree dir changes) Q s.
Proof.
  intros HQ. unfold importTree. apply host_bind, ready_do; [done |]. intros [err|] s1 Hg1 _ _; [by apply HQ |].
  apply host_bind, ready_do; [done |]. intros [err|] s2 Hg2 _ _; [apply HQ; [by etrans | done] |].
  assert (H2 : grows need s s2) by (by etrans).
  apply host_bind, ready_do; [done |]. intros [err|] s3 Hg3 _ _; assert (H3 : grows need s s3) by (by etrans).
  { apply host_bind, ready_do; [done |]. intros r s4 Hg4 _ _. apply HQ; [by etrans | done]. }
  apply host_bind, ready_do; [done |]. intros archived s4 Hg4 Htar _. assert (H4 : grows need s s4) by (by etrans).
  apply host_bind, host_perform; [by apply ready_other |]. intros [out imported] s5 Hl5 Hg5 _. cbv zeta. cbn [fst snd] in *.
  assert (H5 : grows need s s5) by (by etrans). destruct archived as [err|].
  - apply host_bind. assert (Hnext : ∀ s6, grows need s5 s6 → Q (inl "tar") s6) by (intros s6 Hg6; apply HQ; [by etrans | done]).
    destruct (_ && _); [|intros _; by apply Hnext]. apply ready_do; [done |]. intros r s6 Hg6 _ _. by apply Hnext.
  - apply HQ; [done |]. destruct imported as [err|]; [done |].
    destruct (HasPrefix (TrimSpace out) "sha256:") eqn:Ep; cbn [negb]; [|done].
    split_and!; [done | exact (grows_in _ _ _ _ Hg5 (Htar eq_refl)) |]. unfold done_. rewrite Hl5. apply list_elem_of_here.
Qed.

Definition rootfsImported (image : string) (l : list hostCall) : Prop :=
  ∃ device dir id, MatchString blockDeviceName device = true ∧ HasPrefix id "sha256:" = true
    ∧ done_ (Exec "mount" ["-o"; "ro,nosuid,nodev,noexec"; device; dir]) l
    ∧ done_ (WaitProcess "tar") l ∧ done_ (WaitProcess "docker") l ∧ done_ (Exec "docker" ["tag"; id; image]) l.

Lemma rootfsImported_later image (s s' : hostSys W) :
  grows need s s' → rootfsImported image (hlog s) → rootfsImported image (hlog s').
Proof.
  intros Hg (device & dir & id & H1 & H2 & H3 & H4 & H5 & H6). exists device, dir, id.
  split_and!; [done | done | exact (grows_in _ _ _ _ Hg H3) | exact (grows_in _ _ _ _ Hg H4)
              | exact (grows_in _ _ _ _ Hg H5) | exact (grows_in _ _ _ _ Hg H6)].
Qed.

Lemma ready_mounted device image env (Q : option string → hostSys W → Prop) s :
  MatchString blockDeviceName device = true →
  (∀ r s', grows need s s' → (r = None → rootfsImported image (hlog s')) → Q r s') →
  runs need (mountedImport device image env) Q s.
Proof.
  intros Hdev HQ. unfold mountedImport. apply host_bind, host_perform; [by apply ready_other |].
  intros [dir err] s1 Hl1 Hg1 _. cbn [fst snd]. destruct err as [err|]; [by apply HQ |]. cbv zeta. apply host_bind.
  assert (Hdone : ∀ r s2, grows need s s2 → (r = None → rootfsImported image (hlog s2)) →
                    runs need (doCall (Remove dir);; mret r) Q s2).
  { intros r s2 Hg2 Hr. apply host_bind, ready_do; [done |]. intros r' s3 Hg3 _ _. apply HQ; [by etrans |].
    intros Hnone. eapply rootfsImported_later; [exact Hg3 | by apply Hr]. }
  apply host_orReturn, ready_do; [done |]. intros [err|] s2 Hg2 Hmount _; assert (H2 : grows need s s2) by (by etrans).
  { intros _. by apply Hdone. }
  specialize (Hmount eq_refl). apply host_bind. unfold importMounted. apply host_bind, host_ask.
  assert (Hunmount : ∀ r s3, grows need s2 s3 → (r = None → rootfsImported image (hlog s3)) →
            runs need (run "umount" [dir];; mret r)
              (λ r s', grows need s1 s' → runs need (doCall (Remove dir);; mret r) Q s') s3).
  { intros r s3 Hg3 Hr. apply host_bind, ready_do; [done |]. intros r' s4 Hg4 _ _ Hg14. apply Hdone; [etrans; [exact Hg1 | exact Hg14] |].
    intros Hnone. eapply rootfsImported_later; [exact Hg4 | by apply Hr]. }
  intros runner s3 w3 Hl3 _ Hg3. destruct runner; cbn [negb]; [|intros Hg23; by apply Hunmount].
  apply host_bind, ready_tree. intros id s4 Hg4 Hid _. assert (H24 : grows need s2 s4) by (by etrans).
  destruct id as [err|id]; [intros _; by apply Hunmount |]. destruct Hid as (Hsha & Htar & Hdocker).
  apply ready_do; [done |]. intros r s5 Hg5 Htag _. apply Hunmount; [by etrans |]. intros Hr.
  assert (H25 : grows need s2 s5) by (by etrans). exists device, dir, id.
  split_and!; [done | done | exact (grows_in _ _ _ _ H25 Hmount) | exact (grows_in _ _ _ _ Hg5 Htar)
              | exact (grows_in _ _ _ _ Hg5 Hdocker) | by apply Htag].
Qed.

Lemma ImageLayer_block mounts device : ImageLayer mounts = inr device → MatchString blockDeviceName device = true.
Proof.
  unfold ImageLayer. destruct (fromLast _ _) as [d|]; [|done]. destruct (MatchString blockDeviceName d) eqn:E; [|done].
  by intros [= <-].
Qed.

Lemma ready_rootfs image (Q : option string → hostSys W → Prop) s :
  (∀ r s', grows need s s' → (r = None → rootfsImported image (hlog s')) → Q r s') →
  runs need (ImportRootfsImage image) Q s.
Proof.
  intros HQ. unfold ImportRootfsImage. apply host_bind, host_ask. intros mounts s1 w1 _ _ Hg1.
  destruct mounts as [err|mounts]; [by apply HQ |].
  destruct (ImageLayer mounts) as [err|device] eqn:El; [by apply HQ |]. apply ImageLayer_block in El.
  apply host_bind, host_ask. intros block s2 w2 _ _ Hg2. assert (H2 : grows need s s2) by (by etrans).
  destruct block as [err|[]]; [by apply HQ | | by apply HQ].
  apply host_bind, host_ask. intros environ s3 w3 _ _ Hg3. assert (H3 : grows need s s3) by (by etrans).
  destruct environ as [err|environ]; [by apply HQ |].
  destruct (ImageEnvironment _ _) as [err|env]; [by apply HQ |].
  apply ready_mounted; [done |]. intros r s4 Hg4 Hr. apply HQ; [by etrans | done].
Qed.

Lemma ready_pull pulls backoff (Q : bool → hostSys W → Prop) s :
  (∀ r s', grows need s s' → (r = true → imageThere a (hlog s')) → Q r s') →
  runs need (pullImage pulls (hc_Image (a_Config a)) (a_LocalImage a) backoff) Q s.
Proof.
  revert backoff s. induction pulls as [|pulls IH]; intros backoff s HQ; cbn [pullImage]; [by apply HQ |].
  apply host_bind, host_docker. intros text err s1 Hg1 Hpull _. cbn [fst snd]. apply host_bind.
  assert (Hnext : ∀ r s2, grows need s1 s2 → (r = None → imageThere a (hlog s2)) →
            runs need match r : option string with
                      | None => mret true
                      | Some _ =>
                        canceled ← hostAsk me_Canceled;
                        if canceled : bool then mret false
                        else hostAsk (me_Sleep backoff);;
                             pullImage pulls (hc_Image (a_Config a)) (a_LocalImage a) (Z.min (backoff * 2) maxPullBackoff)
                      end Q s2).
  { intros r s2 Hg2 Hr. assert (H2 : grows need s s2) by (by etrans). destruct r as [e|]; [|apply HQ; [done | intros _; by apply Hr]].
    apply host_bind, host_ask. intros canceled s3 w3 _ _ Hg3. assert (H3 : grows need s s3) by (by etrans).
    destruct canceled; [by apply HQ |]. apply host_bind, host_ask. intros [] s4 w4 _ _ Hg4.
    apply IH. intros r s5 Hg5 Hr5. apply HQ; [|done]. etrans; [exact H3 |]. by etrans. }
  destruct err as [err|].
  { rewrite bool_decide_eq_false_2 by done. intros _. by apply (Hnext (Some err)). }
  destruct (Hpull eq_refl) as (out & _ & Hrun). rewrite bool_decide_eq_true_2 by done.
  destruct (String.eqb_spec (a_LocalImage a) (hc_Image (a_Config a))) as [Hsame|]; cbn [negb andb].
  - intros _. apply (Hnext None); [reflexivity |]. intros _. right. right. split; [by exists out | by left].
  - apply host_bind, host_docker. intros text2 err2 s2 Hg2 Htag _. intros _. apply (Hnext err2); [done |]. intros ->.
    destruct (Htag eq_refl) as (out2 & _ & Hrun2). right. right.
    split; [exists out; exact (grows_in _ _ _ _ Hg2 Hrun) | right; by exists out2].
Qed.

Lemma imageThere_later (s s' : hostSys W) : grows need s s' → imageThere a (hlog s) → imageThere a (hlog s').
Proof.
  intros Hg [[out H]|[H|[[out H1] H2]]].
  - left. exists out. exact (grows_in _ _ _ _ Hg H).
  - right. left. by eapply rootfsImported_later.
  - right. right. split; [exists out; exact (grows_in _ _ _ _ Hg H1) |]. destruct H2 as [H2|[out2 H2]]; [by left | right].
    exists out2. exact (grows_in _ _ _ _ Hg H2).
Qed.

Lemma ready_image (Q : bool → hostSys W → Prop) s :
  (∀ r s', grows need s s' → (r = true → imageThere a (hlog s')) → Q r s') →
  runs need (EnsureImage (hc_Image (a_Config a)) (a_LocalImage a) (Some ImportRootfsImage)) Q s.
Proof.
  intros HQ. unfold EnsureImage. apply host_bind, host_docker. intros text err s1 Hg1 Hfound _. cbn [fst snd].
  destruct err as [err|].
  2: { apply HQ; [done |]. intros _. left. destruct (Hfound eq_refl) as (out & _ & Hr). by exists out. }
  apply host_bind, host_bind, ready_rootfs. intros imported s2 Hg2 Himp _ _. assert (H2 : grows need s s2) by (by etrans).
  destruct imported as [e|]; [|apply HQ; [done |]; intros _; right; left; by apply Himp].
  apply host_bind, host_ask. intros canceled s3 w3 _ _ Hg3. assert (H3 : grows need s s3) by (by etrans).
  destruct canceled; [by apply HQ |]. apply host_bind, host_ask. intros pulls s4 w4 _ _ Hg4.
  assert (H4 : grows need s s4) by (by etrans). apply ready_pull. intros r s5 Hg5 Hr. apply HQ; [by etrans | done].
Qed.

Lemma ready_prefill count slot (Q : list (Z * string) → hostSys W → Prop) s :
  (∀ r s', grows need s s' →
     (∀ i, slot <= i < slot + Z.of_nat count → ∃ out err, HAgent (ADocker (prefillArgs a i) out err) ∈ hlog s') → Q r s') →
  runs need (asAgent (prefillFrom a count slot)) Q s.
Proof.
  revert slot Q s. induction count as [|count IH]; intros slot Q s HQ; cbn [prefillFrom].
  { apply HQ; [reflexivity |]. intros i Hi. lia. }
  apply agent_bind, agent_traced. intros r s1 Hg1 Hin _. apply agent_bind, IH. intros errs s2 Hg2 Hall _.
  apply HQ; [by etrans |]. intros i Hi. destruct (decide (i = slot)) as [->|].
  - exists r.1, r.2. exact (grows_in _ _ _ _ Hg2 Hin).
  - apply Hall. lia.
Qed.

Lemma fill_runs s : runs need (fillCaches a) (λ _ _, True) s.
Proof.
  unfold fillCaches. apply host_bind, ready_image. intros ensured s1 Hg1 Himg _.
  apply host_bind, host_ask. intros canceled s2 w2 _ _ Hg2.
  destruct ensured; cbn [negb orb]; [|done]. destruct canceled; [done |]. specialize (Himg eq_refl).
  apply host_bind. unfold PrefillCaches. apply ready_prefill. intros failed s3 Hg3 Hall _.
  assert (H13 : grows need s1 s3) by (by etrans). apply host_bind.
  assert (Hnext : ∀ ended s4, grows need s3 s4 →
            runs need (if ended : bool then mret tt else doCall FillCaches;; mret tt) (λ _ _, True) s4).
  { intros [] s4 Hg4; [done |]. assert (H14 : grows need s1 s4) by (by etrans).
    apply host_bind, host_do; [|done]. intros _. split; [by eapply imageThere_later |].
    intros slot Hs. destruct (Hall slot) as (out & err & Hin); [lia |]. exists out, err. exact (grows_in _ _ _ _ Hg4 Hin). }
  destruct failed; [intros _; by apply (Hnext false) |]. apply host_ask. intros ended s4 w4 Hl4 _ Hg4. by apply Hnext.
Qed.
End ready.

(** C13: A booted machine serves only when it is clean: before the agent listens, the
    configuration is valid and puts docker on a volume of its own, dockerd runs with the
    daemon's settings on a driver that is not vfs, the containers that the previous run
    left are removed and its work directories renamed away, and the agent admits one key,
    alone in its file; the dockerd that a boot started it stops.  The agent is called
    ready only after the runner image is there, from the machine's own read-only image
    layer or from the registry, and the filling of every slot's caches was tried. *)
Theorem boot_serves_ready (o : BootOptions) (a : Agent) (v w : W) :
  let s' := execP (Boot o) (mkHostSys v []) in
  orderly (servesLast o) (hlog s') [] ∧ stopped (evalP (Boot o) (mkHostSys v [])) s'
  ∧ orderly (readyLast a) (hlog (execP (fillCaches a) (mkHostSys w []))) [].
Proof.
  destruct (wp_run _ _ _ _ _ _ (boot_runs o (mkHostSys v []) eq_refl) Logic.I) as ((new & Hl & Ho) & _ & HQ).
  destruct (wp_run _ _ _ _ _ _ (fill_runs a (mkHostSys w [])) Logic.I) as ((new2 & Hl2 & Ho2) & _ & _).
  cbv zeta. rewrite Hl, Hl2. cbn in *. rewrite !app_nil_r. split_and!; [done | exact HQ | done].
Qed.
End host.

(** * A machine where all goes well *)

Module MachineDemo.

Definition config : Config := mkHostConfig 2 "ghcr.io/o/runner@sha256:abc" f64_zero 0 ["/home/runner/.cache"] 20 "/data/docker".

#[global] Instance agent : AgentEnv nat := {|
  ae_Docker _ args w :=
    ((mkDockerOutput match args with
                     | "ps" :: _ => "c1" +:+ newline +:+ "c2" +:+ newline
                     | "info" :: _ => "overlay2" +:+ newline
                     | _ => ""
                     end None,
      match args with "image" :: "inspect" :: _ => Some "No such image" | _ => None end), S w);
  ae_Lock _ w := (None, w);
  ae_Unlock _ w := w;
  ae_FreeBytes _ w := (inr 0, w);
  ae_CachesFilled w := (true, w);
  ae_PurgeWorkspaces w := w;
  ae_Now w := (Z.of_nat w, w);
  ae_MkdirAll _ w := (None, w);
  ae_Mkdir _ w := (None, w);
  ae_ReadDir _ w := (DirEntries ["slot-0-l1"; "deleting-slot-1-l0-x"], w);
  ae_Rename _ _ w := (None, w);
  ae_RandText w := ("ABC", w);
  ae_PurgeWait w := ((0%nat, PurgeDeadline), w)
|}.

#[global] Instance machine : MachineEnv nat := {|
  me_Root := true;
  me_Do a w := ((match a with MkdirTemp _ => "/tmp/image" | WaitProcess "docker" => "sha256:def" | _ => "" end, None), S w);
  me_ReadFile path w :=
    (inr (if String.eqb path mountsPath
          then "none / overlay rw,lowerdir=/lower/dev/vdb:/lower,upperdir=/upper 0 0" +:+ newline
          else if String.eqb path onlineCPUsPath then "0-3" else path), w);
  me_Device path w := (inr (if String.eqb path "/" then 1 else 2), w);
  me_IsBlockDevice _ w := (inr true, w);
  me_IsRegular _ w := (true, w);
  me_Executable w := (inr "/root/runneryard", w);
  me_Lookup _ w := (if (w <? 6)%nat then UnknownUser else Account "999" "999" AgentHome, w);
  me_Environ := ["PATH=/bin"; "FLY_APP_NAME=pool"; "TERM=linux"; "QUOTED=a$b"];
  me_Home := None;
  me_Now w := (Z.of_nat w, w);
  me_Canceled w := (false, w);
  me_Pulls w := (3%nat, w);
  me_Sleep _ w := (tt, w);
  me_DockerWait w := (WaitTick, w);
  me_ServeEnd w := (ContextEnd None, w);
  me_DecodeConfig _ := Some config;
  me_EncodeConfig _ := Some "{}";
  me_ParsePrivateKey _ := Some "host key";
  me_ParseAuthorizedKey text := Some (text +:+ newline, [], "");
  me_ParseAddr text := Some (text, false)
|}.

Definition install : InstallOptions := mkInstallOptions config "ssh-ed25519 AAAA" true true.
Definition boot : BootOptions := mkBootOptions HostConfigPath "/etc/host_key" "/etc/controller.pub" "/data" "[fdaa::1]:2222" ["1.1.1.1"] "v1".

Definition installs : string :=
  match evalP (Install install) (mkHostSys 0%nat []) with Some err => err | None => "" end.
Example installs_fully : installs = "".
Proof. vm_compute. done. Qed.

(** It serves, having removed the two containers and renamed the directory. *)
Definition calls (l : list hostCall) : list string :=
  concat (map (λ c, match c with
                    | HAgent (ADocker (verb :: _) _ _) => ["docker " +:+ verb]
                    | HAgent (ARename from to _) => [to]
                    | HDone (Listen address) None => ["listen " +:+ address]
                    | HDone (Serve _ _ _) _ => ["serve"]
                    | HDone StopDockerd _ => ["stop"]
                    | HDone FillCaches _ => ["ready"]
                    | _ => []
                    end) (rev l)).
Example boots : calls (hlog (execP (Boot boot) (mkHostSys 0%nat [])))
  = ["docker info"; "docker ps"; "docker rm"; "/data/workspaces/deleting-slot-0-l1-abc"; "listen [fdaa::1]:2222"; "serve"; "stop"].
Proof. vm_compute. done. Qed.

Example fills : calls (hlog (execP (fillCaches (bootAgent boot config [0; 1])) (mkHostSys 0%nat [])))
  = ["docker image"; "docker run"; "docker run"; "ready"].
Proof. vm_compute. done. Qed.

Example local_names : map LocalImageName ["ghcr.io/o/runner:v1@sha256:abc"; "reg:5000/r@sha256:ab"; "r:v1"]
  = ["ghcr.io/o/runner:sha256-abc"; "reg:5000/r:sha256-ab"; "r:v1"].
Proof. reflexivity. Qed.

Example changes : (λ env, importChanges env) <$> (match ImageEnvironment me_Environ ["TERM=linux"] with inr env => Some env | inl _ => None end)
  = Some ["USER runner"; "ENV PATH=" +:+ dquote +:+ "/bin" +:+ dquote; "ENV QUOTED=" +:+ dquote +:+ "a\$b" +:+ dquote].
Proof. vm_compute. done. Qed.
End MachineDemo.
