(* ===== verification/SshServer.v ===== *)
(** The agent's own SSH server, for a host without sshd (src/hostagent/sshserver.go):
    whom it admits, what it runs for them, and how much at a time.

    The SSH library decodes the wire; what it hands to the server, in any order and on
    any number of connections, is a list of [arrival]s.  Commands of different sessions
    run at the same time: one action of one command is one arrival too.  The text of a
    reply is the class [ReplyJSON].  Deadlines and the server's log are left out. *)

From S2P Require Import Prelude Program GoStrings GoText PoolState HostAgent HostBoot HostBootTheorems.

#[local] Open Scope string_scope.
#[local] Open Scope Z_scope.

Definition sshMaxConnections : nat := 16.
Definition sshMaxSessionsPerConn : nat := 16.

(** [json.Marshal] of a reply *)
Class ReplyJSON := encodeReply : Reply → option string.

(** A request of a session: its type, and the command of an exec, if it decodes. *)
Record sshRequest := mkSshRequest { rq_Type : string; rq_Command : option string; rq_Input : stdin }.

Section server.
Context {W : Type} `{!AgentEnv W, !ReplyJSON} (a : Agent) (authorized : string).

(** A session that has sent no command yet, or the rest of its command. *)
Inductive serverSession := Waiting | Working (command : string) (input : stdin) (p : prog (agentSys W) Reply).

(** A connection: the user and key that the handshake admitted, if it is over. *)
Record connection := mkConnection { cn_Admitted : option (string * string); cn_Sessions : gmap nat serverSession }.

Inductive serverEvent :=
  | EvAdmit (c : nat) (user key : string)
  | EvReply (c i : nat) (kind : string) (ok : bool)
  | EvRun (c i : nat) (command : string)
  | EvAnswer (c i : nat) (text : string).

Record serverSys := mkServerSys {
  sv_Agent : agentSys W; sv_Open : bool; sv_Next : nat; sv_Connections : gmap nat connection; sv_Log : list serverEvent
}.

Definition withConnections (f : gmap nat connection → gmap nat connection) (s : serverSys) : serverSys :=
  mkServerSys (sv_Agent s) (sv_Open s) (sv_Next s) (f (sv_Connections s)) (sv_Log s).
Definition logged (e : serverEvent) (s : serverSys) : serverSys :=
  mkServerSys (sv_Agent s) (sv_Open s) (sv_Next s) (sv_Connections s) (e :: sv_Log s).
Definition numbered (s : serverSys) : serverSys :=
  mkServerSys (sv_Agent s) (sv_Open s) (S (sv_Next s)) (sv_Connections s) (sv_Log s).

(** ** What the server does *)

(** The [PublicKeyCallback] of [config] *)
Definition publicKeyCallback (user key : string) : bool := String.eqb user AgentUser && String.eqb key authorized.

(** [Serve], of one connection: closed at once when there are too many. *)
Definition accept (s : serverSys) : serverSys :=
  if negb (sv_Open s) then s
  else if (size (sv_Connections s) <? sshMaxConnections)%nat
  then numbered (withConnections (<[sv_Next s := mkConnection None ∅]>) s)
  else s.

Definition authenticate (c : nat) (cn : connection) (user key : string) (s : serverSys) : serverSys :=
  match cn_Admitted cn with
  | Some _ => s
  | None =>
    if publicKeyCallback user key
    then logged (EvAdmit c user key) (withConnections (<[c := mkConnection (Some (user, key)) (cn_Sessions cn)]>) s)
    else s
  end.

Definition setSession (c : nat) (cn : connection) (i : nat) (x : option serverSession) (s : serverSys) : serverSys :=
  withConnections (<[c := mkConnection (cn_Admitted cn) (partial_alter (λ _, x) i (cn_Sessions cn))]>) s.

(** [serveConn], of one channel: only sessions, and not too many. *)
Definition newChannel (c : nat) (cn : connection) (kind : string) (s : serverSys) : serverSys :=
  match cn_Admitted cn with
  | None => s
  | Some _ =>
    if negb (String.eqb kind "session") then s
    else if (size (cn_Sessions cn) <? sshMaxSessionsPerConn)%nat
    then numbered (setSession c cn (sv_Next s) (Some Waiting) s)
    else s
  end.

(** [serveSession], of one request: the first exec is the session's command. *)
Definition serveRequest (c : nat) (cn : connection) (i : nat) (r : sshRequest) (s : serverSys) : serverSys :=
  if negb (String.eqb (rq_Type r) "exec") then logged (EvReply c i (rq_Type r) false) s
  else match rq_Command r with
  | None => logged (EvReply c i "exec" false) (setSession c cn i None s)
  | Some command =>
    logged (EvRun c i command)
      (logged (EvReply c i "exec" true)
        (setSession c cn i (Some (Working command (rq_Input r) (Handle a command (rq_Input r)))) s))
  end.

(** The next action of a session's command; at its end, [run] writes the answer. *)
Definition work (c : nat) (cn : connection) (i : nat) (command : string) (input : stdin) (p : prog (agentSys W) Reply)
    (s : serverSys) : serverSys :=
  match p with
  | Ret reply =>
    let s' := setSession c cn i None s in
    match encodeReply reply with Some text => logged (EvAnswer c i (text +:+ newline)) s' | None => s' end
  | _ =>
    let '(p', agent) := stepP p (sv_Agent s) in
    let s' := setSession c cn i (Some (Working command input p')) s in
    mkServerSys agent (sv_Open s') (sv_Next s') (sv_Connections s') (sv_Log s')
  end.

(** ** What comes from outside *)

Inductive arrival :=
  | ArConnect
  | ArAuthenticate (c : nat) (user key : string)
  | ArChannel (c : nat) (kind : string)
  | ArRequest (c i : nat) (r : sshRequest)
  | ArWork (c i : nat)
  | ArCloseSession (c i : nat)
  | ArClose (c : nat)
  | ArStop.

(** What arrives for nobody changes nothing.  A connection ends when its sessions have:
    [serveConn] waits for them. *)
Definition react (e : arrival) (s : serverSys) : serverSys :=
  let at_ c f := match sv_Connections s !! c with Some cn => f cn | None => s end in
  let in_ c i f := at_ c (λ cn, match cn_Sessions cn !! i with Some x => f cn x | None => s end) in
  match e with
  | ArConnect => accept s
  | ArAuthenticate c user key => at_ c (λ cn, authenticate c cn user key s)
  | ArChannel c kind => at_ c (λ cn, newChannel c cn kind s)
  | ArRequest c i r => in_ c i (λ cn x, match x with Waiting => serveRequest c cn i r s | Working _ _ _ => s end)
  | ArWork c i => in_ c i (λ cn x, match x with Waiting => s | Working command input p => work c cn i command input p s end)
  | ArCloseSession c i => in_ c i (λ cn x, match x with Waiting => setSession c cn i None s | Working _ _ _ => s end)
  | ArClose c => at_ c (λ cn, if bool_decide (cn_Sessions cn = ∅) then withConnections (delete c) s else s)
  | ArStop => mkServerSys (sv_Agent s) false (sv_Next s) (sv_Connections s) (sv_Log s)
  end.

Definition reactAll (es : list arrival) (s : serverSys) : serverSys := fold_left (λ s e, react e s) es s.

Definition listening (w : W) : serverSys := mkServerSys (mkAgentSys w []) true 0 ∅ [].
End server.

(** * What it guarantees *)

(** What is left of a program after some of its actions, taken at any states. *)
Definition reaches {Σ A} : prog Σ A → prog Σ A → Prop := rtc (λ p p', ∃ s, p' = (stepP p s).1).

(** The sessions whose command ran. *)
Definition commandOf (e : serverEvent) : option (nat * nat) := match e with EvRun c i _ => Some (c, i) | _ => None end.
Definition runs (l : list serverEvent) : list (nat * nat) := omap commandOf l.

Section proofs.
Context {W : Type} `{!AgentEnv W, !ReplyJSON} (a : Agent) (authorized : string).
Abbreviation sys := (serverSys (W := W)).
Abbreviation conn := (connection (W := W)).

(** What the log of a server says: commands only from the controller, one for each
    session, and an answer only of the agent to that command. *)
Record logOk (l : list serverEvent) : Prop := mkLogOk {
  lo_key : ∀ c i command, EvRun c i command ∈ l → EvAdmit c AgentUser authorized ∈ l;
  lo_admit : ∀ c user key, EvAdmit c user key ∈ l → user = AgentUser ∧ key = authorized;
  lo_once : NoDup (runs l);
  lo_exec : ∀ c i kind, EvReply c i kind true ∈ l → kind = "exec";
  lo_answer : ∀ c i text, EvAnswer c i text ∈ l →
    ∃ command input reply doc, EvRun c i command ∈ l
      ∧ reaches (Handle a command input : prog (agentSys W) Reply) (Ret reply)
      ∧ encodeReply reply = Some doc ∧ text = doc +:+ newline
}.

Definition sessionOk (l : list serverEvent) (next c i : nat) (x : serverSession (W := W)) : Prop :=
  (i < next)%nat
  ∧ match x with
    | Waiting => (c, i) ∉ runs l
    | Working command input p => EvRun c i command ∈ l ∧ reaches (Handle a command input) p
    end.

Record connOk (l : list serverEvent) (next c : nat) (cn : conn) : Prop := mkConnOk {
  co_next : (c < next)%nat;
  co_size : (size (cn_Sessions cn) <= sshMaxSessionsPerConn)%nat;
  co_admit : match cn_Admitted cn with Some (user, key) => EvAdmit c user key ∈ l | None => cn_Sessions cn = ∅ end;
  co_sessions : ∀ i x, cn_Sessions cn !! i = Some x → sessionOk l next c i x
}.

Record serverOk (s : sys) : Prop := mkServerOk {
  so_size : (size (sv_Connections s) <= sshMaxConnections)%nat;
  so_conns : ∀ c cn, sv_Connections s !! c = Some cn → connOk (sv_Log s) (sv_Next s) c cn;
  so_runs : ∀ c i, (c, i) ∈ runs (sv_Log s) → (i < sv_Next s)%nat;
  so_log : logOk (sv_Log s)
}.

Lemma runs_elem l c i : (c, i) ∈ runs l ↔ ∃ command, EvRun c i command ∈ l.
Proof.
  unfold runs. rewrite list_elem_of_omap. split.
  - intros (e & He & Hc). destruct e; try done. injection Hc as -> ->. by eexists.
  - intros [command Hin]. by exists (EvRun c i command).
Qed.

Lemma sessionOk_more l e next next' c i x :
  (next <= next')%nat → (x = Waiting → commandOf e ≠ Some (c, i)) → sessionOk l next c i x → sessionOk (e :: l) next' c i x.
Proof.
  intros Hn He [Hi Hx]. split; [lia |]. destruct x as [|command input p].
  - unfold runs in *. cbn. specialize (He eq_refl). destruct (commandOf e) as [p|] eqn:Ee; [|done].
    intros [Heq|Hin]%elem_of_cons; [by rewrite <- Heq in He | done].
  - destruct Hx as [Hr Hp]. split; [by apply list_elem_of_further | done].
Qed.

Lemma connOk_next l next next' c cn : (next <= next')%nat → connOk l next c cn → connOk l next' c cn.
Proof. intros Hn [H1 H2 H3 H4]. split; [lia | done | done |]. intros i x Hx. destruct (H4 i x Hx) as [Hi Ho]. split; [lia | done]. Qed.

Lemma connOk_log l e next c cn :
  (∀ i, cn_Sessions cn !! i = Some Waiting → commandOf e ≠ Some (c, i)) → connOk l next c cn → connOk (e :: l) next c cn.
Proof.
  intros He [H1 H2 H3 H4]. split; [done | done | |].
  - destruct (cn_Admitted cn) as [[user key]|]; [by apply list_elem_of_further | done].
  - intros i x Hx. apply (sessionOk_more l e next next); [lia | | by apply H4]. intros ->. by apply He.
Qed.

(** An event that is no command leaves the rest as it is. *)
Lemma serverOk_logged e (s : sys) :
  commandOf e = None → logOk (e :: sv_Log s) → serverOk s → serverOk (logged e s).
Proof.
  intros He Hl [H1 H2 H3 H4]. split; cbn; [done | | | done].
  - intros c cn Hc. apply connOk_log; [by rewrite He | by apply H2].
  - intros c i. unfold runs. cbn. rewrite He. apply H3.
Qed.

Lemma logOk_more e l :
  logOk l → commandOf e = None → (∀ c user key, e = EvAdmit c user key → user = AgentUser ∧ key = authorized) →
  (∀ c i kind, e = EvReply c i kind true → kind = "exec") →
  (∀ c i text, e = EvAnswer c i text →
    ∃ command input reply doc, EvRun c i command ∈ l
      ∧ reaches (Handle a command input : prog (agentSys W) Reply) (Ret reply)
      ∧ encodeReply reply = Some doc ∧ text = doc +:+ newline) →
  logOk (e :: l).
Proof.
  intros [H1 H2 H3 H4 H5] He Ha Hr Hans. split.
  - intros c i command [<-|Hin]%elem_of_cons; [done |]. apply list_elem_of_further. by eapply H1.
  - intros c user key [Heq|Hin]%elem_of_cons; [by eapply Ha | by eapply H2].
  - unfold runs. cbn. by rewrite He.
  - intros c i kind [Heq|Hin]%elem_of_cons; [by eapply Hr | by eapply H4].
  - intros c i text Hin. assert (Hold : ∃ command input reply doc, EvRun c i command ∈ l
        ∧ reaches (Handle a command input : prog (agentSys W) Reply) (Ret reply)
        ∧ encodeReply reply = Some doc ∧ text = doc +:+ newline).
    { apply elem_of_cons in Hin as [Heq|Hin]; [by eapply Hans | by eapply H5]. }
    destruct Hold as (command & input & reply & doc & Hrun & Hrest). exists command, input, reply, doc.
    split; [by apply list_elem_of_further | done].
Qed.

(** One connection's sessions change at one place. *)
Lemma serverOk_session c cn i x (s : sys) :
  serverOk s → sv_Connections s !! c = Some cn → is_Some (cn_Admitted cn) →
  (is_Some x → is_Some (cn_Sessions cn !! i) ∨ (size (cn_Sessions cn) < sshMaxSessionsPerConn)%nat) →
  (∀ y, x = Some y → sessionOk (sv_Log s) (sv_Next s) c i y) →
  serverOk (setSession c cn i x s).
Proof.
  intros [H1 H2 H3 H4] Hc Had Hsize Hx. destruct (H2 c cn Hc) as [C1 C2 C3 C4].
  split; cbn; [| | done | done].
  - rewrite map_size_insert_Some; [done | by exists cn].
  - intros c' cn'. rewrite lookup_insert. case_decide as E; [subst c' | by apply H2]. intros [= <-].
    split; cbn; [done | | |].
    + destruct x as [y|]; cbn.
      * change (partial_alter (λ _, Some y) i (cn_Sessions cn)) with (<[i := y]> (cn_Sessions cn)).
        rewrite map_size_insert. destruct (cn_Sessions cn !! i) eqn:Ei; [done |].
        destruct (Hsize ltac:(by eexists)) as [[? ?]|]; [congruence | lia].
      * change (partial_alter (λ _, None) i (cn_Sessions cn)) with (delete i (cn_Sessions cn)).
        rewrite map_size_delete. destruct (cn_Sessions cn !! i); cbn; lia.
    + destruct (cn_Admitted cn); [done | by destruct Had].
    + intros j y. rewrite lookup_partial_alter. case_decide as E; [subst j; intros Hy; by apply Hx | by apply C4].
Qed.

(** A command starts: of a session that is nobody's any more. *)
Lemma serverOk_run c i command (s : sys) :
  serverOk s → (i < sv_Next s)%nat → (c, i) ∉ runs (sv_Log s) → EvAdmit c AgentUser authorized ∈ sv_Log s →
  (∀ cn, sv_Connections s !! c = Some cn → cn_Sessions cn !! i = None) → serverOk (logged (EvRun c i command) s).
Proof.
  intros [H1 H2 H3 [L1 L2 L3 L4 L5]] Hi Hnew Had Hno. split; cbn; [done | | |].
  - intros c' cn Hc. apply connOk_log; [|by apply H2]. intros j Hj [= -> ->]. by rewrite (Hno cn Hc) in Hj.
  - intros c' j [[= -> ->]|Hin]%elem_of_cons; [done | by eapply H3].
  - split.
    + intros c' j command' [[= -> -> ->]|Hin]%elem_of_cons; apply list_elem_of_further; [done | by eapply L1].
    + intros c' user key [[=]|Hin]%elem_of_cons. by eapply L2.
    + by apply NoDup_cons.
    + intros c' j kind [[=]|Hin]%elem_of_cons. by eapply L4.
    + intros c' j text [[=]|Hin]%elem_of_cons. destruct (L5 _ _ _ Hin) as (cm & inp & r & d & Hr & Hrest).
      exists cm, inp, r, d. split; [by apply list_elem_of_further | done].
Qed.

Lemma setSession_twice c cn i x y (s : sys) :
  setSession c (mkConnection (cn_Admitted cn) (partial_alter (λ _, x) i (cn_Sessions cn))) i y (setSession c cn i x s)
  = setSession c cn i y s.
Proof.
  unfold setSession, withConnections. cbn. f_equal. rewrite insert_insert_eq. by rewrite partial_alter_partial_alter_eq.
Qed.

Lemma serverOk_accept (s : sys) : serverOk s → serverOk (accept s).
Proof.
  intros [H1 H2 H3 H4]. unfold accept. destruct (sv_Open s); cbn [negb]; [|by split].
  destruct (Nat.ltb_spec (size (sv_Connections s)) sshMaxConnections); [|by split].
  assert (Hfresh : sv_Connections s !! sv_Next s = None).
  { apply eq_None_not_Some. intros [cn Hc]. destruct (H2 _ _ Hc) as [Hn _ _ _]. lia. }
  split; cbn; [| | | done].
  - rewrite map_size_insert_None by done. unfold sshMaxConnections in *. lia.
  - intros c cn. rewrite lookup_insert. case_decide as E.
    + subst c. intros [= <-]. split; cbn; [lia | rewrite map_size_empty; lia | done | by intros i x ?%lookup_empty_Some].
    + intros Hc. apply (connOk_next _ (sv_Next s)); [lia | by apply H2].
  - intros c i Hin. specialize (H3 c i Hin). lia.
Qed.

Lemma serverOk_numbered (s : sys) : serverOk s → serverOk (numbered s).
Proof.
  intros [H1 H2 H3 H4]. split; cbn; [done | | | done].
  - intros c cn Hc. apply (connOk_next _ (sv_Next s)); [lia | by apply H2].
  - intros c i Hin. specialize (H3 c i Hin). lia.
Qed.

Lemma serverOk_authenticate c cn user key (s : sys) :
  serverOk s → sv_Connections s !! c = Some cn → serverOk (authenticate authorized c cn user key s).
Proof.
  intros Hs Hc. unfold authenticate. destruct (cn_Admitted cn) eqn:Ea; [done |].
  destruct (publicKeyCallback authorized user key) eqn:Ek; [|done].
  unfold publicKeyCallback in Ek. apply andb_true_iff in Ek as [->%String.eqb_eq ->%String.eqb_eq].
  destruct Hs as [H1 H2 H3 H4]. destruct (H2 c cn Hc) as [C1 C2 C3 C4]. rewrite Ea in C3.
  split; cbn; [| | by intros c' i; apply H3 |].
  - rewrite map_size_insert_Some; [done | by exists cn].
  - intros c' cn'. rewrite lookup_insert. case_decide as E.
    + subst c'. intros [= <-]. split; cbn; [done | done | apply list_elem_of_here |].
      rewrite C3. by intros i x ?%lookup_empty_Some.
    + intros Hc'. apply connOk_log; [done | by apply H2].
  - apply logOk_more; [done | done | | done | done]. by intros c' user' key' [= -> -> ->].
Qed.

Lemma serverOk_newChannel c cn kind (s : sys) :
  serverOk s → sv_Connections s !! c = Some cn → serverOk (newChannel c cn kind s).
Proof.
  intros Hs Hc. unfold newChannel. destruct (cn_Admitted cn) eqn:Ea; [|done].
  destruct (negb _); [done |]. destruct (Nat.ltb_spec (size (cn_Sessions cn)) sshMaxSessionsPerConn); [|done].
  change (serverOk (setSession c cn (sv_Next s) (Some Waiting) (numbered s))).
  apply serverOk_session; [by apply serverOk_numbered | done | by rewrite Ea | by right |].
  intros y [= <-]. split; cbn; [lia |]. intros Hin. destruct Hs as [_ _ H3 _]. specialize (H3 _ _ Hin). lia.
Qed.

Lemma serverOk_request c cn i r (s : sys) :
  serverOk s → sv_Connections s !! c = Some cn → cn_Sessions cn !! i = Some Waiting → serverOk (serveRequest a c cn i r s).
Proof.
  intros Hs Hc Hi. unfold serveRequest.
  assert (Hco : connOk (sv_Log s) (sv_Next s) c cn) by (by apply (so_conns _ Hs)).
  destruct Hco as [C1 C2 C3 C4]. destruct (C4 i _ Hi) as [Hin Hwait].
  assert (Had : is_Some (cn_Admitted cn)).
  { destruct (cn_Admitted cn); [by eexists |]. by rewrite C3, lookup_empty in Hi. }
  assert (Hgone : serverOk (setSession c cn i None s)) by (apply serverOk_session; [done | done | done | by intros [? [=]] | done]).
  assert (Hreply : ∀ kind ok (s' : sys), serverOk s' → (ok = true → kind = "exec") → serverOk (logged (EvReply c i kind ok) s')).
  { intros kind ok s' Hs' Hk. apply serverOk_logged; [done | | done].
    apply logOk_more; [apply (so_log _ Hs') | done | done | | done]. by intros c' i' kind' [= _ _ <- ->]; apply Hk. }
  destruct (negb _); [by apply Hreply |]. destruct (rq_Command r) as [command|]; [|by apply Hreply].
  set (p := Handle a command (rq_Input r)). rewrite <- (setSession_twice c cn i None).
  set (cn' := mkConnection (cn_Admitted cn) _). set (s0 := setSession c cn i None s) in *.
  change (serverOk (setSession c cn' i (Some (Working command (rq_Input r) p))
                     (logged (EvRun c i command) (logged (EvReply c i "exec" true) s0)))).
  assert (Hc' : sv_Connections s0 !! c = Some cn') by (cbn; by rewrite lookup_insert_eq).
  assert (Hrun : serverOk (logged (EvRun c i command) (logged (EvReply c i "exec" true) s0))).
  { apply serverOk_run; [by apply Hreply | done | done | |].
    - apply list_elem_of_further. destruct (cn_Admitted cn) as [[user key]|]; [|by destruct Had].
      destruct (lo_admit _ (so_log _ Hs) c user key C3) as [-> ->]. done.
    - intros cn2 Hc2. change (sv_Connections s0 !! c = Some cn2) in Hc2. rewrite Hc' in Hc2. injection Hc2 as <-.
      cbn. by rewrite lookup_partial_alter_eq. }
  apply serverOk_session; [done | done | done | |].
  - intros _. right. cbn. change (partial_alter (λ _, None) i (cn_Sessions cn)) with (delete i (cn_Sessions cn)).
    assert (Hpos : size (cn_Sessions cn) ≠ 0%nat) by (apply map_size_non_empty_iff; intros E; by rewrite E, lookup_empty in Hi).
    rewrite map_size_delete, Hi. cbn. lia.
  - intros y [= <-]. split; [done |]. split; [apply list_elem_of_here | apply rtc_refl].
Qed.

Lemma serverOk_agent agent (s : sys) :
  serverOk s → serverOk (mkServerSys agent (sv_Open s) (sv_Next s) (sv_Connections s) (sv_Log s)).
Proof. by intros [H1 H2 H3 H4]. Qed.

Lemma serverOk_work c cn i command input p (s : sys) :
  serverOk s → sv_Connections s !! c = Some cn → cn_Sessions cn !! i = Some (Working command input p) →
  serverOk (work c cn i command input p s).
Proof.
  intros Hs Hc Hi. destruct (so_conns _ Hs c cn Hc) as [C1 C2 C3 C4]. destruct (C4 i _ Hi) as [Hin [Hrun Hp]].
  assert (Had : is_Some (cn_Admitted cn)).
  { destruct (cn_Admitted cn); [by eexists |]. by rewrite C3, lookup_empty in Hi. }
  destruct p as [reply|X op k].
  - assert (Hgone : serverOk (setSession c cn i None s)) by (apply serverOk_session; [done | done | done | by intros [? [=]] | done]).
    unfold work. cbv zeta. destruct (encodeReply reply) as [doc|] eqn:Ed; [|done].
    apply serverOk_logged; [done | | done]. apply logOk_more; [apply (so_log _ Hgone) | done | done | done |].
    intros c' i' text [= <- <- <-]. by exists command, input, reply, doc.
  - unfold work. destruct (stepP (Act op k) (sv_Agent s)) as [p' agent] eqn:Ep. cbv zeta. apply serverOk_agent, serverOk_session.
    + done.
    + done.
    + done.
    + intros _. left. by eexists.
    + intros y [= <-]. split; [done |]. split; [done |]. eapply rtc_r; [exact Hp |]. exists (sv_Agent s). by rewrite Ep.
Qed.

Lemma serverOk_react e (s : sys) : serverOk s → serverOk (react a authorized e s).
Proof.
  intros Hs. destruct e as [|c user key|c kind|c i r|c i|c i|c|]; cbn [react].
  1: by apply serverOk_accept.
  1-6: destruct (sv_Connections s !! c) as [cn|] eqn:Hc; [|done].
  - by apply serverOk_authenticate.
  - by apply serverOk_newChannel.
  - destruct (cn_Sessions cn !! i) as [[|]|] eqn:Hi; [by apply serverOk_request | done | done].
  - destruct (cn_Sessions cn !! i) as [[|command input p]|] eqn:Hi; [done | by apply serverOk_work | done].
  - destruct (cn_Sessions cn !! i) as [[|]|] eqn:Hi; [| done | done].
    apply serverOk_session; [done | done | | by intros [? [=]] | done].
    destruct (so_conns _ Hs c cn Hc) as [_ _ C3 _]. destruct (cn_Admitted cn); [by eexists |].
    by rewrite C3, lookup_empty in Hi.
  - case_bool_decide; [|done]. destruct Hs as [H1 H2 H3 H4]. split; cbn; [| | done | done].
    + rewrite map_size_delete, Hc. cbn. lia.
    + intros c' cn' [_ Hc']%lookup_delete_Some. by apply H2.
  - by destruct Hs as [H1 H2 H3 H4].
Qed.

Lemma serverOk_listening w : serverOk (listening w : sys).
Proof.
  split; cbn; [rewrite map_size_empty; lia | by intros c cn ?%lookup_empty_Some | by intros c i ?%not_elem_of_nil |].
  split; try (by intros; exfalso; eapply not_elem_of_nil). apply NoDup_nil_2.
Qed.

(** C14: A machine with the agent's own SSH server runs commands for the controller only:
    whatever connects, asks and closes, in any order, a command runs only on a connection
    that was admitted with the controller's key as the agent's user, one for a session
    and only by an exec request; what is answered is the agent's reply to that very
    command; and never more than sixteen connections with sixteen sessions each are
    served. *)
Theorem ssh_server_admits (es : list arrival) (w : W) :
  let s := reactAll a authorized es (listening w) in
  logOk (sv_Log s)
  ∧ (size (sv_Connections s) <= sshMaxConnections)%nat
  ∧ ∀ c cn, sv_Connections s !! c = Some cn →
      (size (cn_Sessions cn) <= sshMaxSessionsPerConn)%nat
      ∧ ∀ i command input p, cn_Sessions cn !! i = Some (Working command input p) →
          EvRun c i command ∈ sv_Log s ∧ reaches (Handle a command input) p.
Proof.
  assert (Hall : ∀ es (s : sys), serverOk s → serverOk (reactAll a authorized es s)).
  { clear es. induction es as [|e es IH]; intros s Hs; [done |]. cbn. by apply IH, serverOk_react. }
  cbv zeta. destruct (Hall es _ (serverOk_listening w)) as [H1 H2 _ H4]. split_and!; [done | done |].
  intros c cn Hc. destruct (H2 c cn Hc) as [_ C2 _ C4]. split; [done |].
  intros i command input p Hi. by destruct (C4 i _ Hi).
Qed.
End proofs.

(** A stranger is turned away; the controller gets one answer for each session, with a
    shell refused. *)
Module ServerDemo.
#[global] Instance replies : ReplyJSON := λ reply, Some match reply with Refused code _ => code | Succeeded _ => "ok" end.

Definition exec (command : string) : sshRequest := mkSshRequest "exec" (Some command) None.
Definition arrivals : list arrival :=
  app [ArConnect; ArAuthenticate 0 "root" "key"; ArChannel 0 "session"; ArAuthenticate 0 "runneryard" "key";
       ArChannel 0 "direct-tcpip"; ArChannel 0 "session"; ArChannel 0 "session";
       ArRequest 0 1 (mkSshRequest "shell" None None); ArRequest 0 1 (exec "info"); ArRequest 0 2 (exec "what")]
  (app (concat (repeat [ArWork 0 1; ArWork 0 2] 12)) [ArRequest 0 1 (exec "info"); ArClose 0]).

Example one_each :
  let s := reactAll (bootAgent MachineDemo.boot MachineDemo.config [0; 1]) "key" arrivals (listening 0%nat) in
  (rev (sv_Log s), sv_Connections s)
  = ([EvAdmit 0 "runneryard" "key"; EvReply 0 1 "shell" false; EvReply 0 1 "exec" true; EvRun 0 1 "info";
      EvReply 0 2 "exec" true; EvRun 0 2 "what"; EvAnswer 0 2 ("invalid" +:+ newline); EvAnswer 0 1 ("ok" +:+ newline)], ∅).
Proof. vm_compute. done. Qed.
End ServerDemo.
