(* ===== verification/SshAgent.v ===== *)
(** The controller's side of the host agent (src/pool/sshagent.go): connections
    kept per host, one command per session, and what a failure says.

    The SSH library, the network and the host at the other end are the class
    [SshEnv].  Connections are dialed outside the client's mutex, so the programs
    may be interleaved with those of other calls.  A dial and a command go to a
    trace. *)

From S2P Require Import Prelude Program Provider GoStrings GoText PoolState HostAgent.

#[local] Open Scope string_scope.
#[local] Open Scope Z_scope.

(** A kept connection: what it was dialed as, and its client. *)
Record sshConn := mkSshConn { cn_identity : string; cn_client : Z }.

#[global] Instance sshConn_eq_dec : EqDecision sshConn.
Proof. solve_decision. Defined.

(** The reply on standard output, decoded: the result, if there is one and it
    decodes, or the stated error. *)
Inductive wireReply :=
  | WireOK (result : option (string + Result))
  | WireError (stated : option (string * string)).

(** How the wait for a started command ends: the session is over, with the reply
    unless there is none, or the context is, canceled or past its deadline. *)
Inductive waited := SessionOver (reply : option wireReply) | ContextOver (deadline : bool).

Class SshEnv (W : Type) := mkSshEnv {
  (** [ssh.ParseAuthorizedKey] *)
  se_ParseKey : string → option string;
  (** Dial the address and shake hands, accepting only the pinned key. *)
  se_Dial : string → string → W → (error + Z) * W;
  se_Close : Z → W → W;
  (** A place among the connection's sessions, or the context is over. *)
  se_Acquire : Z → W → option error * W;
  se_Release : Z → W → W;
  se_NewSession : Z → W → option error * W;
  se_Start : Z → string → option StartRequest → W → option error * W;
  se_Wait : Z → W → waited * W
}.

Inductive sshCall :=
  | SDial (client : Z) (address key pinned : string)
  | SCommand (host : Host) (client : Z) (command : string).

Record sshSys (W : Type) := mkSshSys { conns : gmap string sshConn; sworld : W; strace : list sshCall }.
Arguments mkSshSys {W}.
Arguments conns {W}.
Arguments sworld {W}.
Arguments strace {W}.

Definition identityOf (host : Host) : string := Address host +:+ "|" +:+ HostKey host.

Section client.
Context {W : Type} `{!SshEnv W}.
Abbreviation P := (prog (sshSys W)).

Definition sshWorld {A} (f : W → A * W) : P A :=
  act (λ s, let '(x, w) := f (sworld s) in (x, mkSshSys (conns s) w (strace s))).

Definition closeClient (client : Z) : P () := sshWorld (λ w, ((), se_Close client w)).

(** [a.drop(hostID, conn)] *)
Definition drop (hostID : string) (conn : sshConn) : P () :=
  act (λ s, match conns s !! hostID with
            | Some current =>
              if bool_decide (current = conn)
              then ((), mkSshSys (delete hostID (conns s)) (se_Close (cn_client conn) (sworld s)) (strace s))
              else ((), s)
            | None => ((), s)
            end).

(** Keep a new connection, unless another call has made the same one by now. *)
Definition keepConn (hostID : string) (conn : sshConn) : P sshConn :=
  act (λ s, match conns s !! hostID with
            | Some existing =>
              if String.eqb (cn_identity existing) (cn_identity conn)
              then (existing, mkSshSys (conns s) (se_Close (cn_client conn) (sworld s)) (strace s))
              else (conn, mkSshSys (<[hostID := conn]> (conns s))
                            (se_Close (cn_client existing) (sworld s)) (strace s))
            | None => (conn, mkSshSys (<[hostID := conn]> (conns s)) (sworld s) (strace s))
            end).

Definition dial (address key pinned : string) : P (error + Z) :=
  act (λ s, let '(r, w) := se_Dial address pinned (sworld s) in
            (r, mkSshSys (conns s) w
                  (match r with inr client => SDial client address key pinned :: strace s | inl _ => strace s end))).

Definition connect (host : Host) : P (error + sshConn) :=
  kept ← get (λ s, conns s !! host_ID host);
  let dialNew : P (error + sshConn) :=
    match se_ParseKey (HostKey host) with
    | None => mret (inl (ErrorString "no valid pinned host key"))
    | Some pinned =>
      r ← dial (Address host) (HostKey host) pinned;
      match r with
      | inl err => mret (inl err)
      | inr client => conn ← keepConn (host_ID host) (mkSshConn (identityOf host) client); mret (inr conn)
      end
    end in
  match kept with
  | Some conn => if String.eqb (cn_identity conn) (identityOf host) then mret (inr conn) else dialNew
  | None => dialNew
  end.

(** The two attempts of [session]. *)
Fixpoint sessionFrom (attempts : nat) (lastErr : error) (host : Host) : P (error + sshConn) :=
  match attempts with
  | O => mret (inl lastErr)
  | S attempts =>
    r ← connect host;
    match r with
    | inl err => mret (inl err)
    | inr conn =>
      full ← sshWorld (se_Acquire (cn_client conn));
      match full with
      | Some err => mret (inl err)
      | None =>
        failed ← sshWorld (se_NewSession (cn_client conn));
        match failed with
        | None => mret (inr conn)
        | Some err =>
          sshWorld (λ w, ((), se_Release (cn_client conn) w));;
          drop (host_ID host) conn;;
          sessionFrom attempts err host
        end
      end
    end
  end.

Definition session (host : Host) : P (error + sshConn) := sessionFrom 2 (ErrorString "") host.

Definition unreachable (err : error) : error := JoinError [Sentinel ErrUnreachable; err].

(** What the caller is told of a command that was started. *)
Definition answer (w : waited) : error + option Result :=
  match w with
  | ContextOver deadline =>
    inl (WrapError "host agent interrupted" (Sentinel (if deadline then DeadlineExceeded else Canceled)))
  | SessionOver None => inl (ErrorString "host agent returned no reply")
  | SessionOver (Some (WireError None)) => inl (ErrorString "host agent failed without a reason")
  | SessionOver (Some (WireError (Some (code, msg)))) =>
    if String.eqb code "" then inl (ErrorString "host agent failed without a reason")
    else inl (AgentError code msg)
  | SessionOver (Some (WireOK None)) => inr None
  | SessionOver (Some (WireOK (Some (inl err)))) => inl (WrapError "host agent: decode reply" (ErrorString err))
  | SessionOver (Some (WireOK (Some (inr result)))) => inr (Some result)
  end.

Definition startCommand (host : Host) (client : Z) (command : string) (input : option StartRequest) : P (option error) :=
  act (λ s, let '(r, w) := se_Start client command input (sworld s) in
            (r, mkSshSys (conns s) w (SCommand host client command :: strace s))).

Definition call (host : Host) (command : string) (input : option StartRequest) : P (error + option Result) :=
  opened ← session host;
  match opened with
  | inl err => mret (inl (unreachable err))
  | inr conn =>
    failed ← startCommand host (cn_client conn) command input;
    r ← (match failed with
         | Some err => drop (host_ID host) conn;; mret (inl (unreachable err))
         | None => w ← sshWorld (se_Wait (cn_client conn)); mret (answer w)
         end);
    sshWorld (λ w, ((), se_Release (cn_client conn) w));;
    mret r
  end.

(** ** The agent's interface

    A result of another shape does not decode into the target. *)

Definition decoded {A} (f : Result → option A) (zero : A) (r : error + option Result) : error + A :=
  match r with
  | inl err => inl err
  | inr None => inr zero
  | inr (Some result) =>
    match f result with Some x => inr x | None => inl (ErrorString "host agent: decode reply") end
  end.

Definition Info (host : Host) : P (error + HostInfo) :=
  r ← call host "info" None;
  mret (decoded (λ x, match x with RInfo i => Some i | _ => None end) noInfo r).

Definition List (host : Host) : P (error + list Slot) :=
  r ← call host "list" None;
  mret (decoded (λ x, match x with RSlots l => Some l | _ => None end) [] r).

Definition noSlot : Slot := mkSlot 0 "" "" "" 0 0 "" zeroTime.

Definition Start (host : Host) (slot : Z) (request : StartRequest) : P (error + Slot) :=
  r ← call host ("start " +:+ Itoa slot) (Some request);
  mret (decoded (λ x, match x with RSlot s => Some s | _ => None end) noSlot r).

Definition spaceByte (c : ascii) : bool := byte_of " " c || bool_decide (nat_of_ascii c ∈ [9; 13; 10]%nat).

Definition Remove (host : Host) (slot : Z) (leaseID : string) : P (option error) :=
  if String.eqb leaseID "" || negb (string_forallb (λ c, negb (spaceByte c)) leaseID)
  then mret (Some (ErrorString "invalid lease id"))
  else
  r ← call host ("remove " +:+ Itoa slot +:+ " " +:+ leaseID) None;
  mret (match r with inl err => Some err | inr _ => None end).
End client.
