(* ===== verification/SshAgentTheorems.v ===== *)
(** What the controller's SSH client guarantees: commands reach only hosts with
    their pinned key, and the answer to a start tells what became of it. *)

From S2P Require Import Prelude Program Provider GoStrings GoText PoolState PoolLaunch HostAgent.
From S2P Require Import HostAgentFacts HostAgentTheorems SshAgent.

#[local] Open Scope string_scope.
#[local] Open Scope Z_scope.

Section pinned.
Context {W : Type} `{!SshEnv W}.
Abbreviation P := (prog (sshSys W)).

(** The client was dialed as [identity], with the key of that identity pinned. *)
Definition dialedAs (client : Z) (identity : string) (tr : list sshCall) : Prop :=
  ∃ address key pinned, SDial client address key pinned ∈ tr ∧ se_ParseKey key = Some pinned
    ∧ identity = address +:+ "|" +:+ key.

(** Every kept connection, and every command sent. *)
Definition connsPinned (s : sshSys W) : Prop :=
  ∀ id c, conns s !! id = Some c → dialedAs (cn_client c) (cn_identity c) (strace s).

Definition commandsPinned (s : sshSys W) : Prop :=
  ∀ host client command, SCommand host client command ∈ strace s →
    dialedAs client (identityOf host) (strace s).

Definition pinned (s : sshSys W) : Prop := connsPinned s ∧ commandsPinned s.

(** What other calls may do meanwhile, and what this one does. *)
Definition pins (s s' : sshSys W) : Prop :=
  (pinned s → pinned s') ∧ ∃ l, strace s' = app l (strace s).

#[global] Instance pins_preorder : PreOrder pins.
Proof.
  split; [by intros s; split; [|exists []] |].
  intros s1 s2 s3 [H12 [l12 E12]] [H23 [l23 E23]]. split; [auto |].
  exists (app l23 l12). by rewrite E23, E12, app_assoc.
Qed.

Lemma dialedAs_mono client identity tr l : dialedAs client identity tr → dialedAs client identity (app l tr).
Proof. intros (ad & k & p & ? & ?). exists ad, k, p. split; [set_solver | done]. Qed.

Lemma pins_same s s' : (∀ id c, conns s' !! id = Some c → conns s !! id = Some c) → strace s' = strace s → pins s s'.
Proof.
  intros Hc Ht. split; [|by exists []]. intros [H1 H2]. split; intros ?; rewrite Ht; eauto.
Qed.

Definition conn_ok (host : Host) (r : error + sshConn) (s : sshSys W) : Prop :=
  pinned s ∧ match r with
             | inr c => cn_identity c = identityOf host ∧ dialedAs (cn_client c) (cn_identity c) (strace s)
             | inl _ => True
             end.

Abbreviation sp := (spec pins pins (λ _, True)).

Lemma stable_conn_ok host r : stableR pins (conn_ok host r).
Proof.
  intros s s' [Hp [l Hl]] [H Hr]. split; [auto |]. destruct r as [|c]; [done |]. destruct Hr as [? Hd].
  split; [done |]. rewrite Hl. by apply dialedAs_mono.
Qed.

Lemma stable_pinned : stableR pins pinned.
Proof. intros s s' [Hp _]. auto. Qed.

Lemma spec_world {A} (f : W → A * W) Pr : stableR pins Pr → (∀ s w, Pr s → Pr (mkSshSys (conns s) w (strace s))) →
  sp Pr (sshWorld f) (λ _, Pr).
Proof.
  intros Hst H. apply spec_act; [done |]. intros s x s' _ HP. destruct (f (sworld s)) as [y w].
  intros [= <- <-]. split_and!; [by apply pins_same | done | by apply H].
Qed.

Lemma spec_drop id c Pr : stableR pins Pr → sp Pr (drop id c) (λ _, Pr).
Proof.
  intros Hst. apply spec_act; [done |]. intros s x s' _ HP E.
  assert (Hs : pins s s').
  { destruct (conns s !! id) eqn:Ec; [|by simplify_eq].
    case_bool_decide; simplify_eq; [|done]. apply pins_same; [|done]. simpl. intros i d.
    rewrite lookup_delete_Some. by intros [_ ?]. }
  split_and!; [done | done | by eapply Hst].
Qed.

Lemma spec_keepConn host client :
  sp (λ s, pinned s ∧ dialedAs client (identityOf host) (strace s))
     (keepConn (host_ID host) (mkSshConn (identityOf host) client))
     (λ c, conn_ok host (inr c)).
Proof.
  apply spec_act.
  { intros s s' [Hp [l Hl]] [H Hd]. split; [auto |]. rewrite Hl. by apply dialedAs_mono. }
  intros s x s' _ [[H1 H2] Hd] E.
  assert (Hnew : ∀ w, pinned (mkSshSys (<[host_ID host := mkSshConn (identityOf host) client]> (conns s)) w (strace s))).
  { intros w. split; [|done]. intros id c. simpl. rewrite lookup_insert_Some. intros [[<- <-]|[_ ?]]; eauto. }
  assert (Hpins : ∀ m w, pinned (mkSshSys m w (strace s)) → pins s (mkSshSys m w (strace s)))
    by (intros m w ?; split; [done | by exists []]).
  destruct (conns s !! host_ID host) as [c|] eqn:Ec; cbn [cn_identity cn_client] in E.
  - destruct (String.eqb_spec (cn_identity c) (identityOf host)) as [He|He]; simplify_eq.
    + assert (Hp : pinned (mkSshSys (conns s) (se_Close client (sworld s)) (strace s))) by done.
      split_and!; [by apply Hpins | done | split; [done |]; split; [done | by eapply H1]].
    + split_and!; [by apply Hpins | done | split; [apply Hnew | done]].
  - simplify_eq. split_and!; [by apply Hpins | done | split; [apply Hnew | done]].
Qed.

Lemma spec_dial address key pin :
  se_ParseKey key = Some pin →
  sp pinned (dial address key pin)
    (λ r s, pinned s ∧ match r with inr client => dialedAs client (address +:+ "|" +:+ key) (strace s) | inl _ => True end).
Proof.
  intros Hk. apply spec_act; [apply stable_pinned |]. intros s x s' _ [H1 H2].
  destruct (se_Dial address pin (sworld s)) as [[err|client] w]; intros [= <- <-].
  { split_and!; [by apply pins_same | done | by split | done]. }
  assert (Hp : pinned (mkSshSys (conns s) w (SDial client address key pin :: strace s))).
  { split; simpl.
    - intros id c Hc. apply (dialedAs_mono _ _ _ [_]). by eapply H1.
    - intros h c cmd Hin. simpl in Hin. apply elem_of_cons in Hin as [[=]|Hin].
      apply (dialedAs_mono _ _ _ [_]). by eapply H2. }
  split_and!; [split; [done | by exists [SDial client address key pin]] | done | done |].
  exists address, key, pin. split_and!; [left | done | done].
Qed.

Lemma spec_connect host : sp pinned (connect host) (conn_ok host).
Proof.
  unfold connect. eapply (spec_bind _ _ _ _ _ _ (λ kept s, pinned s ∧ match kept with
    | Some c => dialedAs (cn_client c) (cn_identity c) (strace s) | None => True end)).
  { apply spec_act; [apply stable_pinned |]. intros s x s' _ Hp [= <- <-].
    split_and!; [by apply pins_same | done | done |]. destruct (conns s !! host_ID host) eqn:E; [|done].
    by eapply (proj1 Hp). }
  assert (Hdial : sp pinned
    (match se_ParseKey (HostKey host) with
     | None => mret (inl (ErrorString "no valid pinned host key"))
     | Some pin =>
       r ← dial (Address host) (HostKey host) pin;
       match r with
       | inl err => mret (inl err)
       | inr client => conn ← keepConn (host_ID host) (mkSshConn (identityOf host) client); mret (inr conn)
       end
     end) (conn_ok host)).
  { destruct (se_ParseKey (HostKey host)) as [pin|] eqn:Ek; [|by apply spec_ret].
    eapply spec_bind; [by apply spec_dial |]. intros [err|client]; [by apply spec_ret; intros s []; split |].
    eapply spec_bind; [apply spec_keepConn |]. intros c. by apply spec_ret. }
  intros [c|]; [|eapply spec_conseq; [exact Hdial | by intros s [? _] | done]].
  destruct (String.eqb_spec (cn_identity c) (identityOf host)) as [He|He].
  - apply spec_ret. intros s [? ?]. by split.
  - eapply spec_conseq; [exact Hdial | by intros s [? _] | done].
Qed.
Lemma spec_session attempts err host : sp pinned (sessionFrom attempts err host) (conn_ok host).
Proof.
  revert err. induction attempts as [|n IH]; intros err; cbn [sessionFrom]; [by apply spec_ret |].
  eapply spec_bind; [apply spec_connect |]. intros [e|c]; [by apply spec_ret |].
  eapply spec_bind; [apply spec_world; [apply stable_conn_ok | by intros] |]. intros [e|].
  { apply spec_ret. intros s [? _]. by split. }
  eapply spec_bind; [apply spec_world; [apply stable_conn_ok | by intros] |]. intros [e|]; [|by apply spec_ret].
  eapply spec_bind; [apply spec_world; [apply stable_conn_ok | by intros] |]. intros [].
  eapply spec_bind; [apply spec_drop, stable_conn_ok |]. intros [].
  eapply spec_conseq; [apply IH | by intros s [? _] | done].
Qed.

Lemma spec_startCommand host c command input :
  sp (conn_ok host (inr c)) (startCommand host (cn_client c) command input) (λ _, pinned).
Proof.
  apply spec_act; [apply stable_conn_ok |]. intros s x s' _ [[H1 H2] [Hi Hd]].
  destruct (se_Start _ _ _ _) as [r w]. intros [= <- <-].
  assert (Hp : pinned (mkSshSys (conns s) w (SCommand host (cn_client c) command :: strace s))).
  { split; simpl.
    - intros id d Hc. apply (dialedAs_mono _ _ _ [_]). by eapply H1.
    - intros h cl cmd Hin. simpl in Hin. apply (dialedAs_mono _ _ _ [_]).
      apply elem_of_cons in Hin as [[= -> -> ->]|Hin]; [by rewrite <- Hi | by eapply H2]. }
  split; [|by split]. split; [done | by exists [SCommand host (cn_client c) command]].
Qed.

Lemma spec_call host command input : sp pinned (call host command input) (λ _, pinned).
Proof.
  unfold call. eapply spec_bind; [apply spec_session |].
  intros [e|c]; [apply spec_ret; by intros s [? _] |].
  eapply spec_bind; [apply spec_startCommand |]. intros failed.
  eapply (spec_bind _ _ _ _ _ _ (λ _, pinned)).
  { destruct failed.
    - eapply spec_bind; [apply spec_drop, stable_pinned |]. intros ?. by apply spec_ret.
    - eapply spec_bind; [apply spec_world; [apply stable_pinned | by intros] |]. intros w. by apply spec_ret. }
  intros r. eapply spec_bind; [apply spec_world; [apply stable_pinned | by intros] |].
  intros ?. by apply spec_ret.
Qed.
End pinned.

Lemma identity_inj a k b j :
  containsByte "|" a = false → containsByte "|" b = false →
  a +:+ "|" +:+ k = b +:+ "|" +:+ j → a = b ∧ k = j.
Proof.
  intros Ha Hb H. pose proof (Cut_app "|" a k Ha) as Hc. change (a +:+ String "|" k) with (a +:+ "|" +:+ k) in Hc.
  rewrite H in Hc. change (b +:+ "|" +:+ j) with (b +:+ String "|" j) in Hc. rewrite Cut_app in Hc by done.
  by simplify_eq.
Qed.

(** C15: A command only ever goes to the machine it is meant for.  With any
    number of calls in progress, connections kept, dropped and dialed again, and
    hosts whose address or key changed, every command for a host was sent over a
    connection that was dialed to that host's own address, and accepted only the
    key pinned for it. *)
Theorem commands_reach_pinned_hosts {W} `{!SshEnv W} host command input s r s' h client text :
  interleaved pins (call host command input) s r s' → pinned s →
  SCommand h client text ∈ strace s' →
  ∃ address key pin, SDial client address key pin ∈ strace s' ∧ se_ParseKey key = Some pin
    ∧ (containsByte "|" address = false → containsByte "|" (Address h) = false →
       address = Address h ∧ key = HostKey h).
Proof.
  intros Hrun Hp Hin.
  assert (Hp' : pinned s').
  { eapply (interleaved_spec pins pins _ _ (λ _, pinned)); [apply spec_call | | exact Hp | exact Hrun].
    intros _. apply stable_pinned. }
  destruct (proj2 Hp' h client text Hin) as (address & key & pin & Hd & Hk & Hi).
  exists address, key, pin. split_and!; [done | done |]. intros Ha Hh.
  unfold identityOf in Hi. apply identity_inj in Hi; [|done..]. naive_solver.
Qed.

(** * A start, from the pool's view to the host's

    [AgentLink]: the host at the other end runs the agent.  A command that could
    not be started never ran; one that was answered ran, and the answer is the
    agent's reply; of one that was interrupted nothing is known. *)

Definition wire (r : Reply) : wireReply :=
  match r with
  | Succeeded result => WireOK (Some (inr result))
  | Refused code msg => WireError (Some (code, msg))
  end.

Section link.
Context {W WA : Type} `{!SshEnv W, !AgentEnv WA} (a : Agent) (remote : W → agentSys WA).

Class AgentLink : Prop := {
  link_dial address pin w r w' : se_Dial address pin w = (r, w') → remote w' = remote w;
  link_close client w : remote (se_Close client w) = remote w;
  link_acquire client w r w' : se_Acquire client w = (r, w') → remote w' = remote w;
  link_release client w : remote (se_Release client w) = remote w;
  link_session client w r w' : se_NewSession client w = (r, w') → remote w' = remote w;
  link_not_started client command input w err w' :
    se_Start client command input w = (Some err, w') → remote w' = remote w;
  link_answered client command input w w1 reply w2 :
    se_Start client command input w = (None, w1) → se_Wait client w1 = (SessionOver (Some reply), w2) →
    ∃ len r, runP (Handle a command (Some (len, input))) (remote w) = (r, remote w2) ∧ reply = wire r
}.
Context `{!AgentLink}.

Definition unsent {A} (p : prog (sshSys W) A) : Prop :=
  ∀ s, remote (sworld (execP p s)) = remote (sworld s).

Lemma unsent_bind {A B} (p : prog (sshSys W) A) (f : A → prog (sshSys W) B) :
  unsent p → (∀ x, unsent (f x)) → unsent (p ≫= f).
Proof. intros Hp Hf s. by rewrite execP_bind, Hf, Hp. Qed.

Lemma unsent_world {A} (f : W → A * W) :
  (∀ w r w', f w = (r, w') → remote w' = remote w) → unsent (sshWorld f).
Proof. intros Hf s. unfold execP. simpl. destruct (f (sworld s)) as [x w] eqn:E. simpl. eauto. Qed.

Lemma unsent_release client : unsent (sshWorld (λ w, ((), se_Release client w))).
Proof. apply unsent_world. intros w r w' [= <- <-]. apply link_release. Qed.

Lemma unsent_drop id c : unsent (drop id c).
Proof.
  intros s. unfold execP. simpl. destruct (conns s !! id); [|done]. case_bool_decide; [|done]. apply link_close.
Qed.

Lemma unsent_connect host : unsent (connect host).
Proof.
  unfold connect. apply unsent_bind; [done |]. intros kept.
  assert (Hkeep : ∀ id c, unsent (keepConn id c)).
  { intros id c s. unfold execP. simpl. destruct (conns s !! id); [|done].
    destruct (String.eqb _ _); apply link_close. }
  assert (Hdial : ∀ ad k p, unsent (dial ad k p)).
  { intros ad k p s. unfold execP. simpl. destruct (se_Dial ad p (sworld s)) as [r w] eqn:E.
    by eapply link_dial. }
  assert (Hnew : unsent (match se_ParseKey (HostKey host) with
     | None => mret (inl (ErrorString "no valid pinned host key"))
     | Some pin =>
       r ← dial (Address host) (HostKey host) pin;
       match r with
       | inl err => mret (inl err)
       | inr client => conn ← keepConn (host_ID host) (mkSshConn (identityOf host) client); mret (inr conn)
       end
     end)).
  { destruct (se_ParseKey _); [|done]. apply unsent_bind; [done |]. intros [|]; [done |].
    by apply unsent_bind. }
  destruct kept as [c|]; [|done]. destruct (String.eqb _ _); done.
Qed.

Lemma unsent_session n err host : unsent (sessionFrom n err host).
Proof.
  revert err. induction n as [|n IH]; intros err; cbn [sessionFrom]; [done |].
  apply unsent_bind; [apply unsent_connect |]. intros [e|c]; [done |].
  apply unsent_bind; [apply unsent_world; intros; by eapply link_acquire |]. intros [e|]; [done |].
  apply unsent_bind; [apply unsent_world; intros; by eapply link_session |]. intros [e|]; [|done].
  apply unsent_bind; [apply unsent_release |]. intros _. apply unsent_bind; [apply unsent_drop |]. intros _. apply IH.
Qed.

(** What a call says of the host: the command never ran, or it was answered, or
    the error says neither. *)
Lemma call_answer host command input s r s' :
  runP (call host command input) s = (r, s') →
  (remote (sworld s') = remote (sworld s) ∧ ∃ err, r = inl (unreachable err))
  ∨ (∃ len reply, runP (Handle a command (Some (len, input))) (remote (sworld s)) = (reply, remote (sworld s'))
       ∧ r = answer (SessionOver (Some (wire reply))))
  ∨ ∃ w, r = answer w ∧ (w = SessionOver None ∨ ∃ e, w = ContextOver e).
Proof.
  unfold call. rewrite runP_bind.
  pose proof (unsent_session 2 (ErrorString "") host s) as Hs. fold (session host) in Hs.
  set (s1 := execP (session host) s) in *. destruct (evalP (session host) s) as [err|c].
  { intros [= <- <-]. left. eauto. }
  rewrite runP_bind. unfold evalP, execP. cbn [startCommand act runP].
  destruct (se_Start (cn_client c) command input (sworld s1)) as [failed w1] eqn:Est. cbn [fst snd].
  destruct failed as [err|].
  - match goal with |- runP ?p ?t = _ → _ => set (prg := p); set (s2 := t) end. intros E. left.
    assert (Hr : r = evalP prg s2) by (unfold evalP; by rewrite E).
    assert (Hs' : s' = execP prg s2) by (unfold execP; by rewrite E).
    split; [|exists err; rewrite Hr; unfold prg; by rewrite !evalP_bind].
    assert (Hu : unsent prg).
    { apply unsent_bind; [apply unsent_bind; [apply unsent_drop | done] |]. intros x.
      apply unsent_bind; [apply unsent_release | done]. }
    rewrite Hs', Hu. unfold s2. cbn [sworld]. rewrite <- Hs. by eapply link_not_started.
  - rewrite !runP_bind. unfold evalP, execP. cbn [sshWorld act runP sworld mbind prog_bind bindP mret prog_ret].
    destruct (se_Wait (cn_client c) w1) as [w w2] eqn:Ew. cbn.
    intros [= <- <-]. cbn [sworld]. rewrite link_release. destruct w as [[reply|]|e]; [|right; right; eexists; split; [done | eauto]..].
    right; left. destruct (link_answered _ _ _ _ _ _ _ Est Ew) as (len & x & Hrun & ->).
    exists len, x. rewrite <- Hs. by split.
Qed.

(** ** The start of a slot *)

Context (slot : Z) (held : WA → option labelMap) `{!SlotDocker (containerName slot) held}.
Context (Himage : HasPrefix (image a) "--" = false) (Hconfig : a_ConfigErr a = None).
Context (Hslot : 0 <= slot < hc_Slots (a_Config a)) (Hmax : hc_Slots (a_Config a) <= maxSlots).

Lemma slotIndex_Itoa : slotIndex a (Itoa slot) = Some slot.
Proof.
  unfold slotIndex. rewrite ParseInt_Itoa by (unfold maxSlots, max_int64 in *; lia).
  rewrite String.eqb_refl. cbn [negb orb]. rewrite (proj2 (Z.ltb_ge _ _)), (proj2 (Z.leb_gt _ _)) by lia. done.
Qed.

Lemma start_command len request s reply s' :
  runP (Handle a ("start " +:+ Itoa slot) (Some (len, Some request))) s = (reply, s') →
  startSpec slot request (held (aworld s)) reply (held (aworld s')).
Proof.
  intros Hrun. pose proof (post_Handle a slot held Himage ltac:(unfold maxSlots, max_int64 in *; lia)
    ("start " +:+ Itoa slot) (Some (len, Some request)) s) as Hp.
  unfold evalP, execP, holds, commandSpec in Hp. rewrite Hrun, Hconfig in Hp.
  change ("start " +:+ Itoa slot) with ("start" +:+ String " " (Itoa slot)) in Hp.
  rewrite Fields_number, slotIndex_Itoa, bool_decide_eq_true_2 in Hp by (done || lia). exact Hp.
Qed.

End link.

(** * A host to try it on *)

Module SshDemo.
Import AgentDemo.

(** The host's agent, and the reply the client has not read yet. *)
Abbreviation line := (agentSys dockers * option Reply)%type.

#[global] Instance demoSsh : SshEnv line := {|
  se_ParseKey k := if String.eqb k "" then None else Some k;
  se_Dial _ _ w := (inr 1, w);
  se_Close _ w := w;
  se_Acquire _ w := (None, w);
  se_Release _ w := w;
  se_NewSession _ w := (None, w);
  se_Start _ command input w :=
    let '(r, s) := runP (Handle agent command (Some (300, input))) w.1 in (None, (s, Some r));
  se_Wait _ w := (SessionOver (wire <$> w.2), w)
|}.

#[global] Instance demoLink : AgentLink agent (fst : line → agentSys dockers).
Proof.
  split; cbn; try (by intros; simplify_eq/=).
  - intros _ command input w err w'. by destruct (runP _ _).
  - intros _ command input w w1 reply w2 E1 E2. destruct (runP _ _) as [r s] eqn:E. simplify_eq/=.
    exists 300, r. by rewrite E.
Qed.

Definition host : Host := mkHost "host-1" "10.0.0.1:22" "ssh-ed25519 AAAA" zeroTime "running" zeroTime "".

Definition idle : sshSys line := mkSshSys ∅ (booted, None) [].

Lemma idle_pinned : pinned idle.
Proof. split; [by intros id c | by intros h c t ?%elem_of_nil]. Qed.
End SshDemo.

Lemma commands_reach_pinned_hosts_witness :
  let s' := execP (call SshDemo.host "list" None) SshDemo.idle in
  ∃ address key pin, SDial 1 address key pin ∈ strace s' ∧ se_ParseKey key = Some pin
    ∧ (containsByte "|" address = false → containsByte "|" (Address SshDemo.host) = false →
       address = Address SshDemo.host ∧ key = HostKey SshDemo.host).
Proof.
  intros s'.
  apply (commands_reach_pinned_hosts SshDemo.host "list" None SshDemo.idle
    (evalP (call SshDemo.host "list" None) SshDemo.idle) s' SshDemo.host 1 "list");
    [apply interleaved_alone, _ | apply SshDemo.idle_pinned | vm_compute; left].
Defined.

