(* ===== verification/CloudHTTP.v ===== *)
(** Requests to a cloud provider's HTTP API, as src/providers/fly/adapter.go and
    src/providers/hetzner/adapter.go make them: sent once ([doJSON]), or under
    the retry policy of src/provider/retry/retry.go ([retried]).

    The network and the provider behind it, the limiter, the timers and the random
    source are the class [CloudEnv]: any functions.  Contexts that end show in
    their answers.  Every request that is sent goes to a log with its answer.  The
    JSON parser is a function of the answer that gives the decoded value, possibly
    filled in part, and its error. *)

From S2P Require Import Prelude Program Provider Float64 GoStrings Retry.

#[local] Open Scope string_scope.
#[local] Open Scope Z_scope.

Record request (B : Type) := mkRequest {
  rq_Method : string; rq_URL : string; rq_Query : list (string * string); rq_Body : option B
}.
Arguments mkRequest {B}.
Arguments rq_Method {B}.
Arguments rq_URL {B}.
Arguments rq_Query {B}.
Arguments rq_Body {B}.

(** An answer: its status, and its body with the error that ended reading it. *)
Record response := mkResponse { StatusCode : Z; rs_Body : string; rs_ReadErr : option error }.

Class CloudEnv (B W : Type) := mkCloudEnv {
  (** What [http.NewRequest] says of a URL. *)
  ce_NewRequest : string → option error;
  (** [http.Client.Do] *)
  ce_Do : request B → W → (error + response) * W;
  (** [Retryer.Wait]: the limiter admits the caller, or its context is over. *)
  ce_Wait : W → option error * W;
  (** [sleepContext]: the timer fires, or the context is over. *)
  ce_Sleep : duration → W → option error * W;
  ce_Random : W → f64 * W
}.

(** The world, the requests sent with their answers, the last one first, and what
    the caller keeps itself. *)
Record cloudSys (B L W : Type) := mkCloudSys {
  cworld : W; exchanges : list (request B * (error + response)); own : L
}.
Arguments mkCloudSys {B L W}.
Arguments cworld {B L W}.
Arguments exchanges {B L W}.
Arguments own {B L W}.

Section client.
Context {B L W : Type} `{!CloudEnv B W}.
Abbreviation P := (prog (cloudSys B L W)).

Definition cloudWorld {A} (f : W → A * W) : P A :=
  act (λ s, let '(x, w) := f (cworld s) in (x, mkCloudSys w (exchanges s) (own s))).

Definition send (r : request B) : P (error + response) :=
  act (λ s, let '(answer, w) := ce_Do r (cworld s) in
            (answer, mkCloudSys w ((r, answer) :: exchanges s) (own s))).

Definition Wait : P (option error) := cloudWorld ce_Wait.
Definition sleepContext (d : duration) : P (option error) := cloudWorld (ce_Sleep d).
Definition random : P f64 := cloudWorld ce_Random.

(** What [io.LimitReader] lets through of an error body. *)
Definition errorText (r : response) : string := String.substring 0 (Z.to_nat 65536) (rs_Body r).

Definition success (status : Z) : bool := (200 <=? status) && (status <? 300).

(** What an answer makes of the variable [target], which holds [zero]. *)
Definition received {T} (responseError : response → error) (zero : T)
    (decode : option (response → T * option error)) (answer : error + response) : T * option error :=
  match answer with
  | inl err => (zero, ClassifyRequestError (Some err))
  | inr resp =>
    if negb (success (StatusCode resp)) then (zero, Some (responseError resp))
    else match decode with
    | None => (zero, None)
    | Some decode =>
      if StatusCode resp =? 204 then (zero, None)
      else let '(x, err) := decode resp in (x, WrapError "decode response" <$> err)
    end
  end.

Definition doJSON {T} (responseError : response → error) (r : request B) (zero : T)
    (decode : option (response → T * option error)) : P (T * option error) :=
  match ce_NewRequest (rq_URL r) with
  | Some err => mret (zero, Some (WrapError "build request" err))
  | None => answer ← send r; mret (received responseError zero decode answer)
  end.

(** [Retryer.Do] of an operation that assigns a variable it first clears. *)
Definition retried {T} (policy : Policy) (zero : T) (operation : P (T * option error))
    : P (T * option error) :=
  Do Wait operation sleepContext random policy zero.
End client.
