(* ===== verification/CloudFacts.v ===== *)
(** Reasoning about requests to a provider's API: one call, a retried call, and the errors
    they end in; which requests a program may send, given what it has read. *)

From S2P Require Import GoStrings Prelude Program Provider Float64 Retry CloudHTTP.

(** No promise about what a program does to others. *)
Definition anyChange {Σ : Type} (s s' : Σ) : Prop := True.
#[export] Instance anyChange_preorder {Σ} : PreOrder (@anyChange Σ).
Proof. by split. Qed.

(** An error that is not the adapter's own: no capacity refusal, no partial launch. *)
Definition foreign (e : error) : Prop := ~ In_chain as_capacity e ∧ ~ In_chain as_partial e.

Lemma In_chain_wrap {A} (p : error → option A) msg e :
  p (WrapError msg e) = None → In_chain p (WrapError msg e) → In_chain p e.
Proof.
  intros Hp H. inversion H as [? [x Hx]|? y Hy Hc]; subst; [congruence |].
  by apply list_elem_of_singleton in Hy as ->.
Qed.

Lemma In_chain_join {A} (p : error → option A) es :
  p (JoinError es) = None → In_chain p (JoinError es) → ∃ e, e ∈ es ∧ In_chain p e.
Proof. intros Hp H. inversion H as [? [x Hx]|? y Hy Hc]; subst; [congruence | eauto]. Qed.

Lemma In_chain_transient {A} (p : error → option A) e :
  p (TransientError e) = None → In_chain p (TransientError e) → In_chain p e.
Proof.
  intros Hp H. inversion H as [? [x Hx]|? y Hy Hc]; subst; [congruence |].
  by apply list_elem_of_singleton in Hy as ->.
Qed.

Lemma foreign_wrap msg e : foreign e → foreign (WrapError msg e).
Proof. intros [H1 H2]. split; intros H; apply In_chain_wrap in H; done. Qed.

Lemma foreign_join es : Forall foreign es → foreign (JoinError es).
Proof.
  rewrite Forall_forall. intros Hf.
  split; intros H; apply In_chain_join in H as (e & He & Hc); try done; by destruct (Hf e He).
Qed.

Lemma foreign_status p n msg : foreign (StatusError p n msg).
Proof.
  split; intros H; inversion H as [? [? Hs]|? y Hy Hc]; subst; [done | set_solver | done | set_solver].
Qed.

Lemma foreign_transient e : foreign e → foreign (TransientError e).
Proof. intros [H1 H2]. split; intros H; apply In_chain_transient in H; done. Qed.

Lemma Transient_cases e e' : Transient (Some e) = Some e' → e' = e ∨ e' = TransientError e.
Proof. simpl. case_match; intros [= <-]; auto. Qed.

Lemma ClassifyRequestError_cases e e' :
  ClassifyRequestError (Some e) = Some e' → e' = e ∨ e' = TransientError e.
Proof.
  unfold ClassifyRequestError. intros H. repeat case_match; simplify_eq; auto;
    by apply Transient_cases.
Qed.

Lemma ClassifyRequestError_some e : is_Some (ClassifyRequestError (Some e)).
Proof. unfold ClassifyRequestError, Transient. repeat case_match; eauto; done. Qed.

Lemma foreign_request e e' : foreign e → ClassifyRequestError (Some e) = Some e' → foreign e'.
Proof. intros Hf H. apply ClassifyRequestError_cases in H as [->| ->]; [done | by apply foreign_transient]. Qed.

Lemma ClassifyStatus_some p n msg : is_Some (ClassifyStatus p n msg).
Proof. unfold ClassifyStatus, Transient. repeat case_match; eauto; done. Qed.

Lemma foreign_classified p n msg e : ClassifyStatus p n msg = Some e → foreign e.
Proof.
  unfold ClassifyStatus. intros H. pose proof (foreign_status p n msg). case_match; [|by simplify_eq].
  apply Transient_cases in H as [->| ->]; [done | by apply foreign_transient].
Qed.

(** [foreign] in terms of [errors.As]. *)
Lemma foreign_not_capacity e : foreign e → IsCapacity e = false.
Proof. intros [H _]. apply not_true_iff_false. by rewrite IsCapacity_chain. Qed.

Lemma foreign_not_partial e w : foreign e → errors_as as_partial e ≠ Some w.
Proof. intros [_ H] E. apply H. apply errors_as_In_chain. by rewrite E. Qed.

(** An error of the standard library: not a status the API answered either. *)
Definition plain (e : error) : Prop := foreign e ∧ ~ In_chain as_status e.

Lemma In_chain_status_wrap msg e : In_chain as_status (WrapError msg e) → In_chain as_status e.
Proof. by apply In_chain_wrap. Qed.

Lemma ClassifyRequestError_status e e' :
  plain e → ClassifyRequestError (Some e) = Some e' → ~ In_chain as_status e'.
Proof.
  intros [_ Hs] H. apply ClassifyRequestError_cases in H as [->| ->]; [done |].
  intros Hc. by apply In_chain_transient in Hc.
Qed.

Lemma no_status_none e : ~ In_chain as_status e → errors_as as_status e = None.
Proof. rewrite <- errors_as_In_chain. by destruct (errors_as as_status e) eqn:E; [intros []; eauto |]. Qed.

(** * Specifications of the calls *)

Section specs.
Context {B L W : Type} `{!CloudEnv B W} (R : cloudSys B L W → cloudSys B L W → Prop) `{!PreOrder R}
  (F : error → Prop).
Abbreviation Σ := (cloudSys B L W).
Abbreviation cspec := (spec R anyChange (λ _ : Σ, True)).

(** Waiting changes nothing the assertion is about, and fails with errors of the
    class [F]. *)
Class Waits (Pr : Σ → Prop) : Prop := {
  waits_wait w tr l : Pr (mkCloudSys w tr l) →
    Pr (mkCloudSys (ce_Wait w).2 tr l) ∧ ∀ e, (ce_Wait w).1 = Some e → F e;
  waits_sleep d w tr l : Pr (mkCloudSys w tr l) →
    Pr (mkCloudSys (ce_Sleep d w).2 tr l) ∧ ∀ e, (ce_Sleep d w).1 = Some e → F e;
  waits_random w tr l : Pr (mkCloudSys w tr l) → Pr (mkCloudSys (ce_Random w).2 tr l)
}.

Lemma spec_cloudWorld {A} (f : W → A * W) (Pr : Σ → Prop) (Q : A → Σ → Prop) :
  stableR R Pr →
  (∀ w tr l, Pr (mkCloudSys w tr l) → Q (f w).1 (mkCloudSys (f w).2 tr l)) →
  cspec Pr (cloudWorld f) Q.
Proof.
  intros Hst H. apply spec_act; [done |]. intros [w tr l] x s' _ HP. simpl.
  specialize (H w tr l HP). destruct (f w). by intros [= <- <-].
Qed.

Definition failsBy (Pr : Σ → Prop) (r : option error) (s : Σ) : Prop :=
  Pr s ∧ ∀ e, r = Some e → F e.

Lemma spec_Wait Pr : stableR R Pr → Waits Pr → cspec Pr Wait (failsBy Pr).
Proof. intros Hst HW. apply spec_cloudWorld; [done |]. intros w tr l. apply waits_wait. Qed.

Lemma spec_sleepContext Pr d : stableR R Pr → Waits Pr → cspec Pr (sleepContext d) (failsBy Pr).
Proof. intros Hst HW. apply spec_cloudWorld; [done |]. intros w tr l. apply waits_sleep. Qed.

Lemma spec_random Pr : stableR R Pr → Waits Pr → cspec Pr random (λ _, Pr).
Proof. intros Hst HW. apply spec_cloudWorld; [done |]. intros w tr l. apply waits_random. Qed.

Lemma spec_send r Pr Q :
  stableR R Pr →
  (∀ w tr l, Pr (mkCloudSys w tr l) →
     Q (ce_Do r w).1 (mkCloudSys (ce_Do r w).2 ((r, (ce_Do r w).1) :: tr) l)) →
  cspec Pr (send r) Q.
Proof.
  intros Hst H. apply spec_act; [done |]. intros [w tr l] x s' _ HP. simpl.
  specialize (H w tr l HP). destruct (ce_Do r w). by intros [= <- <-].
Qed.

Lemma spec_doJSON {T} responseError r (zero : T) decode Pr Q :
  stableR R Pr →
  (∀ s err, Pr s → ce_NewRequest (rq_URL r) = Some err → Q (zero, Some (WrapError "build request" err)) s) →
  (∀ w tr l, Pr (mkCloudSys w tr l) →
     Q (received responseError zero decode (ce_Do r w).1)
       (mkCloudSys (ce_Do r w).2 ((r, (ce_Do r w).1) :: tr) l)) →
  cspec Pr (doJSON responseError r zero decode) Q.
Proof.
  intros Hst Hbad H. unfold doJSON. destruct (ce_NewRequest (rq_URL r)) as [err|] eqn:E.
  { apply spec_ret. intros s HP. by apply Hbad. }
  eapply spec_bind; [apply (spec_send _ _ (λ answer, Q (received responseError zero decode answer))); [done | exact H] |].
  intros answer. by apply spec_ret.
Qed.

(** An operation that, when it fails, keeps what it found: retried, it does what
    its last attempt did, or fails in the wait between attempts. *)
Lemma spec_retried {T} policy (zero : T) operation Pr (Q : T → Σ → Prop) (E : error → Prop) :
  stableR R Pr → Waits Pr →
  (∀ e, F e → E e) → (∀ e e', E e → F e' → E (JoinError [e; e'])) →
  1 <= Attempts policy →
  cspec Pr operation (λ r s, match r.2 with None => Q r.1 s | Some e => Pr s ∧ E e end) →
  cspec Pr (retried policy zero operation)
    (λ r s, match r.2 with None => Q r.1 s | Some e => Pr s ∧ E e end).
Proof.
  intros Hst HW HE HJ Hp Hop. unfold retried, Do.
  assert (Hloop : ∀ n attempt last, last.2 ≠ None ∨ n ≠ 0%nat → (∀ e, last.2 = Some e → E e) →
    cspec Pr (doFrom Wait operation sleepContext random n policy attempt last)
    (λ r s, match r.2 with None => Q r.1 s | Some e => Pr s ∧ E e end)).
  { induction n as [|n IH]; intros attempt last Hne Hlast; cbn [doFrom].
    { destruct last as [t [e|]]; simpl in *; [|by destruct Hne]. apply spec_ret. split; auto. }
    eapply spec_bind; [by apply spec_Wait |]. intros [e|].
    { apply spec_ret. intros s [? Hf]. simpl. eauto. }
    eapply spec_bind.
    { eapply spec_conseq; [exact Hop | by intros s [] | intros r s Hr; exact Hr]. }
    intros [t [e|]]; cbn [fst snd]; [|by apply spec_ret].
    destruct (negb (IsTransient e)); [by apply spec_ret |].
    destruct (attempt =? Attempts policy); [by apply spec_ret |].
    eapply (spec_bind _ _ _ _ _ _ (λ _ s, Pr s ∧ E e)).
    { apply (spec_cloudWorld ce_Random (λ s, Pr s ∧ E e) (λ _ s, Pr s ∧ E e)).
      - intros s s' HR [? ?]. split; [by eapply Hst | done].
      - intros w tr l [? ?]. split; [by apply waits_random | done]. }
    intros x. eapply (spec_bind _ _ _ _ _ _ (λ r s, failsBy Pr r s ∧ E e)).
    { apply (spec_cloudWorld (ce_Sleep _) (λ s, Pr s ∧ E e) (λ r s, failsBy Pr r s ∧ E e)).
      - intros s s' HR [? ?]. split; [by eapply Hst | done].
      - intros w tr l [? ?]. split; [by apply waits_sleep | done]. }
    intros [e'|].
    { apply spec_ret. intros s [[? Hf] ?]. simpl. split; [done |]. apply HJ; auto. }
    intros s [[Hs _] He]. eapply IH; [by left | by intros ? [= <-] | done]. }
  apply Hloop; [right; lia | done].
Qed.
End specs.

(** * Requests in a trace *)

#[local] Open Scope Z_scope.

(** Assertions about the exchanges that only grow. *)
Class Grows {E : Type} (Pr : list E → Prop) : Prop := grows l tr : Pr tr → Pr (l ++ tr)%list.

#[export] Instance grows_const {E} (φ : Prop) : Grows (λ _ : list E, φ).
Proof. by intros l tr. Qed.
#[export] Instance grows_and {E} (Pr Qr : list E → Prop) `{!Grows Pr, !Grows Qr} : Grows (λ tr, Pr tr ∧ Qr tr).
Proof. intros l tr [? ?]. split; by apply grows. Qed.
#[export] Instance grows_exists {E A} (Pr : A → list E → Prop) `{!∀ x, Grows (Pr x)} : Grows (λ tr, ∃ x, Pr x tr).
Proof. intros l tr [x ?]. exists x. by apply grows. Qed.
#[export] Instance grows_elem {E} (x : E) : Grows (λ tr, x ∈ tr).
Proof. intros l tr ?. set_solver. Qed.

Section trace.
Context {B L W : Type} `{!CloudEnv B W}.
Abbreviation Σ := (cloudSys B L W).
Abbreviation trace := (list (request B * (error + response))).
Context (J : trace → Prop) (allowed : request B → trace → Prop).

Class Admits : Prop := admits r answer tr : allowed r tr → J tr → J ((r, answer) :: tr).
Context {HA : Admits}.

(** What other calls may do meanwhile. *)
Definition steps (σ σ' : Σ) : Prop :=
  (J (exchanges σ) → J (exchanges σ')) ∧ ∃ l, exchanges σ' = (l ++ exchanges σ)%list.

#[export] Instance steps_preorder : PreOrder steps.
Proof.
  split; [by intros σ; split; [|exists []] |]. intros s1 s2 s3 [H1 [l1 E1]] [H2 [l2 E2]]. split; [auto |].
  exists (l2 ++ l1)%list. by rewrite E2, E1, app_assoc.
Qed.

Definition K (Pr : trace → Prop) (σ : Σ) : Prop := J (exchanges σ) ∧ Pr (exchanges σ).
Abbreviation hspec := (spec steps anyChange (λ _ : Σ, True)).
Abbreviation any := (λ _ : error, True).

Lemma stable_K Pr `{!Grows Pr} : stableR steps (K Pr).
Proof. intros σ σ' [Hj [l Hl]] [H HP]. split; [auto |]. rewrite Hl. by apply grows. Qed.

#[export] Instance waits_K Pr `{!Grows Pr} : Waits any (K Pr).
Proof.
  split; [intros w tr l HK'; by split | intros d w tr l HK'; by split | by intros w tr l HK'].
Qed.

Lemma K_world {A} (f : W → A * W) Pr `{!Grows Pr} : hspec (K Pr) (cloudWorld f) (λ _, K Pr).
Proof. apply spec_cloudWorld; [by apply stable_K | done]. Qed.

Lemma K_send r Pr `{!Grows Pr} :
  (∀ tr, Pr tr → allowed r tr) →
  hspec (K Pr) (send r) (λ answer σ, K (λ tr, Pr tr ∧ (r, answer) ∈ tr) σ).
Proof.
  intros Hr. apply spec_send; [by apply stable_K |]. intros w tr l [Hj HP].
  split; [by apply admits; [apply Hr |] |]. split; [by apply (grows [_]) | left].
Qed.

Lemma K_doJSON {T} responseError r (zero : T) decode Pr `{!Grows Pr} :
  (∀ tr, Pr tr → allowed r tr) →
  hspec (K Pr) (doJSON responseError r zero decode)
    (λ x σ, K Pr σ ∧ (x.2 = None → ∃ answer, (r, answer) ∈ exchanges σ
                                     ∧ received responseError zero decode answer = x)).
Proof.
  intros Hr. apply spec_doJSON; [by apply stable_K | done |].
  intros w tr l [Hj HP]. split; [split; [by apply admits; [apply Hr |] | by apply (grows [_])] |].
  intros _. eexists. split; [left | done].
Qed.

Lemma K_doJSON_keep {T} responseError r (zero : T) decode Pr `{!Grows Pr} :
  (∀ tr, Pr tr → allowed r tr) → hspec (K Pr) (doJSON responseError r zero decode) (λ _, K Pr).
Proof. intros Hr. eapply spec_conseq; [by apply K_doJSON | done | by intros x σ [? _]]. Qed.

(** A retried operation that keeps it, and tells something when it succeeds. *)
Lemma K_retried {T} policy (zero : T) operation Pr (Q : T → trace → Prop) `{!Grows Pr} :
  1 <= Attempts policy →
  hspec (K Pr) operation (λ x σ, K Pr σ ∧ (x.2 = None → Q x.1 (exchanges σ))) →
  hspec (K Pr) (retried policy zero operation) (λ x σ, K Pr σ ∧ (x.2 = None → Q x.1 (exchanges σ))).
Proof.
  intros Hatt Hop. eapply spec_conseq.
  - apply (spec_retried steps any policy zero operation (K Pr)
             (λ x σ, K Pr σ ∧ Q x (exchanges σ)) any); [by apply stable_K | apply _ | done.. |].
    eapply spec_conseq; [exact Hop | done |]. intros [x [e|]] σ [? HQ]; cbn [fst snd] in *; auto.
  - done.
  - intros [x [e|]] σ; cbn [fst snd]; [by intros [? _] | by intros [? ?]].
Qed.

Lemma K_retried_keep {T} policy (zero : T) operation Pr `{!Grows Pr} :
  1 <= Attempts policy →
  hspec (K Pr) operation (λ _, K Pr) → hspec (K Pr) (retried policy zero operation) (λ _, K Pr).
Proof.
  intros Hatt Hop. eapply spec_conseq;
    [apply (K_retried policy zero operation Pr (λ _ _, True)); [done |] | done | by intros x σ [? _]].
  eapply spec_conseq; [exact Hop | done | done].
Qed.

(** ** Programs that keep whatever was shown *)

Definition keeps {A} (p : prog Σ A) : Prop := ∀ Pr, Grows Pr → hspec (K Pr) p (λ _, K Pr).

Lemma keeps_first {A} (p : prog Σ A) Pr Qr `{!Grows Pr} :
  keeps p → hspec (K (λ tr, Pr tr ∧ Qr tr)) p (λ _, K Pr).
Proof. intros Hp. eapply spec_conseq; [by apply (Hp Pr) | intros σ [? [? _]]; by split | done]. Qed.

Lemma keeps_ret {A} (x : A) : keeps (mret x).
Proof. intros Pr HP. by apply spec_ret. Qed.

Lemma keeps_bind {A C} (p : prog Σ A) (f : A → prog Σ C) : keeps p → (∀ x, keeps (f x)) → keeps (p ≫= f).
Proof. intros Hp Hf Pr HP. eapply spec_bind; [by apply Hp |]. intros x. by apply Hf. Qed.

Lemma keeps_on_err {E A} (m : prog Σ (option E)) (h : E → prog Σ A) k :
  keeps m → (∀ e, keeps (h e)) → keeps k → keeps (on_err m h k).
Proof. intros Hm Hh Hk. apply keeps_bind; [done |]. intros [e|]; auto. Qed.

Lemma keeps_world {A} (f : W → A * W) : keeps (cloudWorld f).
Proof. intros Pr HP. by apply K_world. Qed.

Lemma keeps_Wait : keeps Wait.
Proof. apply keeps_world. Qed.

Lemma keeps_random : keeps random.
Proof. apply keeps_world. Qed.

Lemma keeps_sleepContext d : keeps (sleepContext d).
Proof. apply keeps_world. Qed.

Lemma keeps_own {A} (f : Σ → A * Σ) : (∀ σ, exchanges (f σ).2 = exchanges σ) → keeps (act f).
Proof.
  intros Hf Pr HP. apply spec_act; [by apply stable_K |]. intros σ x σ' _ [Hj HPr] E.
  specialize (Hf σ). rewrite E in Hf. simpl in Hf. split_and!; [done | done |]. split; by rewrite Hf.
Qed.

Lemma keeps_retried {T} policy (zero : T) operation :
  1 <= Attempts policy → keeps operation → keeps (retried policy zero operation).
Proof. intros Hatt Hop Pr HP. by apply K_retried_keep, Hop. Qed.

(** What is kept of a run, whatever runs in between. *)
Lemma keeps_run {A} (p : prog Σ A) σ x σ' :
  keeps p → interleaved steps p σ x σ' → J (exchanges σ) → J (exchanges σ').
Proof.
  intros Hp Hrun Hj. assert (HK' : K (λ _, True) σ'); [|by destruct HK'].
  eapply (interleaved_spec steps anyChange (K (λ _, True)) _ (λ _, K (λ _, True)));
    [by apply Hp, _ | intros _; by apply stable_K, _ | by split | exact Hrun].
Qed.
End trace.

(** ** Traces that reads always keep *)

Class Reads {B} (J : list (request B * (error + response)) → Prop) : Prop :=
  reads_admits : Admits J (λ r _, rq_Method r = "GET"%string).

Section reads.
Context {B L W : Type} `{!CloudEnv B W} (J : list (request B * (error + response)) → Prop) {HR : Reads J}.
Abbreviation Σ := (cloudSys B L W).

Lemma keeps_get {T} responseError r (zero : T) decode :
  rq_Method r = "GET"%string → keeps J (doJSON responseError r zero decode : prog Σ _).
Proof. intros Hr Pr HP. by apply (K_doJSON_keep J _ (HA := HR) _ _ _ _ Pr). Qed.

(** What a successful read showed: the value is the answer's to that request. *)
Lemma K_get1 {T} responseError r (zero : T) decode Pr `{!Grows Pr} :
  rq_Method r = "GET"%string →
  spec (steps J) anyChange (λ _ : Σ, True) (K J Pr) (doJSON responseError r zero decode)
    (λ x σ, K J Pr σ ∧ (x.2 = None → ∃ answer, (r, answer) ∈ exchanges σ
                                     ∧ received responseError zero decode answer = (x.1, None))).
Proof.
  intros Hr. eapply spec_conseq; [by apply (K_doJSON J _ (HA := HR) _ _ _ _ Pr) | done |].
  intros [x e] σ [HK' Hx]. split; [done |]. cbn [fst snd] in *. intros He.
  destruct (Hx He) as (answer & ? & Ha). exists answer. by rewrite Ha, He.
Qed.

Lemma K_get {T} policy responseError r (zero : T) decode Pr `{!Grows Pr} :
  1 <= Attempts policy → rq_Method r = "GET"%string →
  spec (steps J) anyChange (λ _ : Σ, True) (K J Pr) (retried policy zero (doJSON responseError r zero decode))
    (λ x σ, K J Pr σ ∧ (x.2 = None → ∃ answer, (r, answer) ∈ exchanges σ
                                     ∧ received responseError zero decode answer = (x.1, None))).
Proof.
  intros Hatt Hr. apply (K_retried J policy zero _ Pr (λ x tr, ∃ answer, (r, answer) ∈ tr
    ∧ received responseError zero decode answer = (x, None))); [done |]. by apply K_get1.
Qed.
End reads.

(** ** Justified requests *)

(** Every request of the trace was allowed when it was sent. *)
Fixpoint justified {E A : Type} (allowed : E → list (E * A) → Prop) (tr : list (E * A)) : Prop :=
  match tr with [] => True | (r, _) :: tr => allowed r tr ∧ justified allowed tr end.

(** Reading is always allowed. *)
Class ReadsAllowed {E A} (allowed : request E → list (request E * A) → Prop) : Prop :=
  reads_allowed r tr : rq_Method r = "GET"%string → allowed r tr.

#[export] Instance admits_justified {B} (allowed : request B → list (request B * (error + response)) → Prop) :
  Admits (justified allowed) allowed.
Proof. by intros r answer tr. Qed.

#[export] Instance reads_justified {B} (allowed : request B → list (request B * (error + response)) → Prop)
  `{!ReadsAllowed allowed} : Reads (justified allowed).
Proof. intros r answer tr Hr Hj. split; [by apply reads_allowed | done]. Qed.

(** [keep] composes a program that keeps, from parts in the database [touch]. *)
Create HintDb touch.
#[export] Hint Resolve keeps_ret keeps_world keeps_Wait keeps_random keeps_sleepContext : touch.
#[export] Hint Extern 2 (keeps _ (doJSON _ _ _ _)) => (apply keeps_get; [apply _ | reflexivity]) : touch.
#[export] Hint Extern 3 (keeps _ (retried _ _ _)) => (apply keeps_retried; [assumption |]) : touch.

Ltac keeps_step :=
  match goal with
  | |- keeps _ (match ?x with _ => _ end) => destruct x
  | |- keeps _ (on_err _ _ _) => apply keeps_on_err
  | |- keeps _ (_ ≫= _) => apply keeps_bind
  | |- ∀ _, _ => intros ?
  | |- _ => solve [auto with touch]
  end.
Ltac keep := repeat (cbn beta zeta; keeps_step).
