(* ===== verification/Fly.v ===== *)
(** The Fly Machines adapter (src/providers/fly/adapter.go): one-job workers,
    each a Machine of its own.

    And what the adapter relies on of the Machines API, and what its requests do to the
    machines of the app. *)

From S2P Require Import GoNumbers Prelude Program Provider Float64 GoStrings GoText Retry CloudHTTP.
From S2P Require Import CloudFacts.

#[local] Open Scope string_scope.
#[local] Open Scope Z_scope.

(** * Configuration *)

Definition managedByKey : string := "runneryard-managed-by".
Definition controllerIDKey : string := "runneryard-controller".
Definition leaseIDKey : string := "runneryard-lease-id".
Definition runnerNameKey : string := "runneryard-runner-name".
Definition runnerIDKey : string := "runneryard-runner-id".
Definition runnerScaleSetIDKey : string := "runneryard-runner-scale-set-id".
Definition deadlineKey : string := "runneryard-deadline".
Definition runnerEntrypoint : string := "/usr/local/bin/runner-entrypoint".
Definition defaultDockerDNS : string := "1.1.1.1,8.8.8.8".
Definition destroyedMachine : string := "destroyed".
Definition destroyingMachine : string := "destroying".

Record Config := mkConfig {
  cf_APIToken : string; cf_APIBaseURL : string; cf_App : string; cf_Region : string;
  cf_Image : string; cf_ControllerID : string; cf_CPUKind : string; cf_CPUs : Z;
  cf_MemoryMB : Z; cf_RootFSGB : Z; cf_DockerDNS : string; cf_Retry : Policy
}.

Record Adapter := mkAdapter {
  baseURL : string; app_ : string; region : string; image : string; controllerID : string;
  cpuKind : string; cpus : Z; memoryMB : Z; rootFSGB : Z; dockerDNS : string; policy : Policy
}.

(** [net.ParseIP] and [IP.String]: the canonical text of a literal address. *)
Class ParseIP := parseIP : string → option string.

Section config.
Context `{!ParseIP}.

(** The entries still to read, after the normalized ones, the last one first. *)
Fixpoint normalizeItems (items seen : list string) : string + list string :=
  match items with
  | [] => inr (rev seen)
  | item :: items =>
    match parseIP (TrimSpace item) with
    | None => inl "fly Docker DNS entry must be a literal IP address"
    | Some canonical =>
      if bool_decide (canonical ∈ seen) then inl "fly Docker DNS contains duplicate address"
      else normalizeItems items (canonical :: seen)
    end
  end.

Definition normalizeDockerDNS (value : string) : string + string :=
  let value := if String.eqb (TrimSpace value) "" then defaultDockerDNS else value in
  let items := splitOn "," value in
  if bool_decide (length items < 1)%nat || bool_decide (3 < length items)%nat
  then inl "fly Docker DNS must contain between one and three comma-separated IP addresses"
  else match normalizeItems items [] with
  | inl err => inl err
  | inr normalized => inr (Join "," normalized)
  end.

Definition New (cfg : Config) : string + Adapter :=
  if String.eqb (cf_APIToken cfg) "" || String.eqb (cf_App cfg) "" || String.eqb (cf_Region cfg) ""
     || String.eqb (cf_Image cfg) "" || String.eqb (cf_ControllerID cfg) ""
  then inl "fly token, worker app, region, image, and controller ID are required"
  else if negb (String.eqb (cf_CPUKind cfg) "shared") && negb (String.eqb (cf_CPUKind cfg) "performance")
  then inl "fly CPU kind must be shared or performance"
  else if (cf_CPUs cfg <? 1) || (cf_MemoryMB cfg <? 512) || (cf_RootFSGB cfg <? 10)
  then inl "fly worker shape must have at least 1 CPU, 512 MB RAM, and 10 GB rootfs"
  else match normalizeDockerDNS (cf_DockerDNS cfg) with
  | inl err => inl err
  | inr dockerDNS =>
    let base := if String.eqb (cf_APIBaseURL cfg) "" then "https://api.machines.dev" else cf_APIBaseURL cfg in
    inr (mkAdapter (TrimRightSlash base) (cf_App cfg) (cf_Region cfg) (cf_Image cfg)
           (cf_ControllerID cfg) (cf_CPUKind cfg) (cf_CPUs cfg) (cf_MemoryMB cfg) (cf_RootFSGB cfg)
           dockerDNS (withDefaults (cf_Retry cfg)))
  end.
End config.

(** * Machines *)

Record rootFSConfig := mkRootFS { SizeGB : Z }.
Record processConfig := mkProcess {
  Entrypoint : list string; Env : gmap string string; IgnoreAppSecrets : bool
}.
Record restartPolicy := mkRestart { rp_Policy : string }.
Record guestConfig := mkGuest { g_CPUs : Z; g_MemoryMB : Z; g_CPUKind : string }.
Record stopConfig := mkStop { Signal : string; Timeout : duration }.

Record machineConfig := mkMachineConfig {
  mc_Image : string; Processes : list processConfig; Metadata : gmap string string;
  AutoDestroy : bool; Restart : restartPolicy; Guest : guestConfig; RootFS : rootFSConfig;
  StopConfig : stopConfig
}.

Record machine := mkMachine {
  m_ID : string; m_Name : string; m_State : string; m_Region : string; m_CreatedAt : time;
  m_Config : machineConfig
}.

Record createMachineRequest := mkCreate {
  cr_Name : string; cr_Region : string; cr_Config : machineConfig
}.

(** What the requests for pool hosts carry (hostsource.go). *)
Record machineMount := mkMount { Volume : string; Path : string }.
Record machineFile := mkFile { GuestPath : string; RawValue : string; Mode : Z }.
Record poolProcess := mkPoolProcess {
  pp_Entrypoint : list string; User : string; pp_Env : gmap string string; pp_IgnoreAppSecrets : bool
}.

Record poolMachineConfig := mkPoolConfig {
  pc_Image : string; pc_Guest : guestConfig; pc_Processes : list poolProcess;
  pc_Metadata : gmap string string; pc_Mounts : list machineMount; pc_Files : list machineFile;
  pc_AutoDestroy : bool; pc_Restart : restartPolicy; pc_StopConfig : stopConfig
}.

Record createPoolMachineRequest := mkCreatePool {
  cp_Name : string; cp_Region : string; cp_Config : poolMachineConfig
}.

Record createVolumeRequest := mkCreateVolume {
  cv_Name : string; cv_Region : string; cv_SizeGB : Z; cv_Encrypted : bool;
  cv_AutoBackupEnabled : bool; cv_Compute : guestConfig
}.

Inductive flyBody :=
  | CreateMachine (r : createMachineRequest)
  | CreatePoolMachine (r : createPoolMachineRequest)
  | CreateVolume (r : createVolumeRequest).

Definition noConfig : machineConfig :=
  mkMachineConfig "" [] ∅ false (mkRestart "") (mkGuest 0 0 "") (mkRootFS 0) (mkStop "" 0).
Definition noMachine : machine := mkMachine "" "" "" "" zeroTime noConfig.

(** A duration of the API: a text, or a number of nanoseconds. *)
Inductive flyDurationJSON := DurationText (text : string) | DurationNumber (nanoseconds : Z) | DurationOther.

Definition MarshalJSON (d : duration) : flyDurationJSON := DurationNumber d.
Definition UnmarshalJSON (data : flyDurationJSON) : string + duration :=
  match data with
  | DurationText text => match ParseDuration text with
                         | Some d => inr d
                         | None => inl "parse Fly duration"
                         end
  | DurationNumber n => if (min_int64 <=? n) && (n <=? max_int64) then inr n else inl "parse Fly duration"
  | DurationOther => inl "parse Fly duration"
  end.

(** [item.Config.Metadata[key]] *)
Definition metadata (m : gmap string string) (key : string) : string := default "" (m !! key).

Definition toWorker (item : machine) : Worker :=
  let md := metadata (Metadata (m_Config item)) in
  mkWorker (m_ID item) (md leaseIDKey) (md runnerNameKey) (ParseInt (md runnerIDKey)).1
    (ParseInt (md runnerScaleSetIDKey)).1 (m_State item) (m_CreatedAt item).

Definition withLeaseProof (w : Worker) (lease : Lease) : Worker :=
  mkWorker (ID w)
    (if String.eqb (LeaseID w) "" then lease_ID lease else LeaseID w)
    (if String.eqb (RunnerName w) "" then lease_RunnerName lease else RunnerName w)
    (if RunnerID w =? 0 then lease_RunnerID lease else RunnerID w)
    (if RunnerScaleSetID w =? 0 then lease_RunnerScaleSetID lease else RunnerScaleSetID w)
    (State w) (CreatedAt w).

(** * Classification of answers *)

Definition capacityDescriptions (reason : string) : string :=
  if String.eqb reason "fly_machine_limit" then "organization machine limit reached"
  else if String.eqb reason "fly_insufficient_resources" then "region could not reserve the requested resources"
  else if String.eqb reason "fly_placement_unavailable" then "no host could place the machine"
  else "".

Definition capacityReason (status : Z) (message : string) : string :=
  if (status <? 400) || (500 <=? status) || (status =? 429) then ""
  else
  let mentions := existsb (Contains (ToLower message)) in
  if mentions ["machine limit"] then "fly_machine_limit"
  else if mentions ["could not reserve resource"; "insufficient memory"; "insufficient cpu";
                    "insufficient resources"; "not enough capacity"; "no capacity"; "capacity available"]
  then "fly_insufficient_resources"
  else if mentions ["no host"; "find a host"; "unable to place"; "failed to place"; "could not place"]
  then "fly_placement_unavailable"
  else "".

Definition statusError (provider : string) (status : Z) (message : string) : error :=
  default (ErrorString "") (ClassifyStatus provider status message).

Definition responseError (resp : response) : error :=
  match rs_ReadErr resp with
  | Some readErr => JoinError [statusError "fly" (StatusCode resp) ""; readErr]
  | None =>
    let message := TrimSpace (errorText resp) in
    let reason := capacityReason (StatusCode resp) message in
    if negb (String.eqb reason "")
    then CapacityError reason 0 (ErrorString ("fly API returned " +:+ Itoa (StatusCode resp) +:+ ": "
                                              +:+ capacityDescriptions reason))
    else statusError "fly" (StatusCode resp) message
  end.

Definition notFound (err : option error) : bool :=
  match err with
  | Some e => match errors_as as_status e with Some (_, status) => status =? 404 | None => false end
  | None => false
  end.

(** * Operations *)

(** How answers decode. *)
Class FlyJSON := mkFlyJSON {
  fj_machine : response → machine * option error;
  fj_machines : response → list machine * option error
}.

Section adapter.
Context {L W : Type} `{!CloudEnv flyBody W} {J : FlyJSON} (a : Adapter).
Abbreviation P := (prog (cloudSys flyBody L W)).

Definition machinesURL : string := baseURL a +:+ "/v1/apps/" +:+ PathEscape (app_ a) +:+ "/machines".
Definition machineURL (id : string) : string := machinesURL +:+ "/" +:+ PathEscape id.

(** The machine a launch asks for. *)
Definition launchRequest (lease : Lease) : createMachineRequest :=
  mkCreate (lease_RunnerName lease) (region a)
    (mkMachineConfig (image a)
       [mkProcess ["/usr/bin/dumb-init"; "--"; runnerEntrypoint]
          (list_to_map
             [("ACTIONS_RUNNER_INPUT_JITCONFIG", JITConfig lease);
              ("RUNNERYARD_DEADLINE", FormatRFC3339 (Deadline lease));
              ("RUNNERYARD_DOCKER_DNS", dockerDNS a);
              ("RUNNERYARD_IDLE_TIMEOUT", Itoa (Z.quot (IdleTimeout lease) Second))]) true]
       (list_to_map
          [(managedByKey, "true"); (controllerIDKey, controllerID a); (leaseIDKey, lease_ID lease);
           (runnerNameKey, lease_RunnerName lease); (runnerIDKey, Itoa (lease_RunnerID lease));
           (runnerScaleSetIDKey, Itoa (lease_RunnerScaleSetID lease));
           (deadlineKey, FormatRFC3339 (Deadline lease))])
       true (mkRestart "no") (mkGuest (cpus a) (memoryMB a) (cpuKind a)) (mkRootFS (rootFSGB a))
       (mkStop "SIGTERM" (30 * Second))).

Definition postMachine (payload : createMachineRequest) : request flyBody :=
  mkRequest "POST" machinesURL [] (Some (CreateMachine payload)).
Definition listMachines : request flyBody := mkRequest "GET" machinesURL [] None.

Definition getMachine (id : string) : request flyBody := mkRequest "GET" (machineURL id) [] None.
Definition deleteMachine (id : string) : request flyBody :=
  mkRequest "DELETE" (machineURL id) [("force", "true")] None.

Definition owned (item : machine) : bool :=
  let md := metadata (Metadata (m_Config item)) in
  String.eqb (md managedByKey) "true" && String.eqb (md controllerIDKey) (controllerID a).

Definition Inventory : P (error + list Worker) :=
  r ← retried (policy a) [] (doJSON responseError listMachines [] (Some fj_machines));
  mret (match r.2 with
        | Some err => inl (WrapError "list Fly Machines" err)
        | None => inr (map toWorker (List.filter owned r.1))
        end).

Definition findByLease (leaseID : string) : P (error + option Worker) :=
  r ← Inventory;
  mret (match r with
        | inl err => inl err
        | inr workers => inr (List.find (λ w, String.eqb (LeaseID w) leaseID) workers)
        end).

(** The loop of [Launch] from attempt [attempt] on. *)
Fixpoint launchFrom (fuel : nat) (lease : Lease) (attempt : Z) (lastErr : option error) : P (error + Worker) :=
  match fuel with
  | O => mret (inl (default (ErrorString "") lastErr))
  | S fuel =>
    on_err Wait (λ err, mret (inl err))
      (r ← doJSON responseError (postMachine (launchRequest lease)) noMachine (Some fj_machine);
       let created := r.1 in
       match r.2 with
       | None =>
         mret (if String.eqb (m_ID created) ""
               then inl (ErrorString "create Fly worker: response did not include a machine id")
               else inr (withLeaseProof (toWorker created) lease))
       | Some err =>
         if negb (String.eqb (m_ID created) "")
         then mret (inl (PartialLaunchError (withLeaseProof (toWorker created) lease) err))
         else
         let lastErr := WrapError "create Fly worker" err in
         if negb (IsTransient err) then mret (inl lastErr)
         else
         found ← findByLease (lease_ID lease);
         match found with
         | inl lookupErr =>
           mret (inl (JoinError [lastErr; WrapError "confirm Fly worker absence before retry" lookupErr]))
         | inr (Some existing) => mret (inr (withLeaseProof existing lease))
         | inr None =>
           if attempt =? Attempts (policy a) then mret (inl lastErr)
           else
           x ← random;
           on_err (sleepContext (Backoff (policy a) x attempt)) (λ err, mret (inl (JoinError [lastErr; err])))
             (launchFrom fuel lease (attempt + 1) (Some lastErr))
         end
       end)
  end.

Definition Launch (lease : Lease) : P (error + Worker) :=
  launchFrom (Z.to_nat (Attempts (policy a))) lease 1 None.

Definition leaving (workerID : string) : P bool :=
  r ← doJSON responseError (getMachine workerID) noMachine (Some fj_machine);
  mret (notFound r.2
        || (match r.2 with None => true | Some _ => false end
            && (String.eqb (m_State r.1) destroyingMachine || String.eqb (m_State r.1) destroyedMachine))).

(** One attempt to delete. *)
Definition deleteOnce (workerID : string) : P (() * option error) :=
  match ce_NewRequest (machineURL workerID) with
  | Some err => mret ((), Some (WrapError "build delete request" err))
  | None =>
    answer ← send (deleteMachine workerID);
    match answer with
    | inl err => mret ((), ClassifyRequestError (Some err))
    | inr resp =>
      if StatusCode resp =? 404 then mret ((), None)
      else if StatusCode resp =? 412 then
        gone ← leaving workerID;
        mret ((), if (gone : bool) then None else Some (responseError resp))
      else mret ((), if negb (success (StatusCode resp)) then Some (responseError resp) else None)
    end
  end.

Definition Destroy (workerID : string) : P (option error) :=
  if String.eqb workerID "" then mret None
  else
  r ← retried (policy a) () (deleteOnce workerID);
  mret (option_map (WrapError "delete Fly worker") r.2).
End adapter.

(** * What the adapter relies on *)

#[local] Close Scope string_scope.
#[local] Open Scope Z_scope.

(** * Classes of errors *)

(** A shortage of the provider: a client error whose text names one. *)
Definition shortage (resp : response) : Prop :=
  rs_ReadErr resp = None ∧ capacityReason (StatusCode resp) (TrimSpace (errorText resp)) ≠ ""%string.

Lemma statusError_classified p n msg : ClassifyStatus p n msg = Some (statusError p n msg).
Proof. unfold statusError. by destruct (ClassifyStatus_some p n msg) as [e ->]. Qed.

Lemma capacityReason_client status msg :
  capacityReason status msg ≠ ""%string → 400 <= status < 500 ∧ status ≠ 429.
Proof.
  unfold capacityReason. destruct (Z.ltb_spec status 400), (Z.leb_spec 500 status), (Z.eqb_spec status 429);
    simpl; [done.. | lia].
Qed.

Lemma foreign_string msg : foreign (ErrorString msg).
Proof. split; intros H; inversion H as [? [? Hs]|? y Hy Hc]; subst; [done | set_solver | done | set_solver]. Qed.

(** The adapter's refusals are the API's shortages; every other error is foreign. *)
Lemma responseError_cases resp :
  (∀ e, rs_ReadErr resp = Some e → foreign e) →
  shortage resp ∨ foreign (responseError resp).
Proof.
  intros Hread. unfold responseError, shortage. destruct (rs_ReadErr resp) as [e|].
  { right. apply foreign_join, Forall_cons. split; [|by apply Forall_singleton, Hread].
    eapply foreign_classified, statusError_classified. }
  destruct (String.eqb_spec (capacityReason (StatusCode resp) (TrimSpace (errorText resp))) "") as [He|He]; simpl.
  - right. eapply foreign_classified, statusError_classified.
  - by left.
Qed.

(** A shortage is a client error, not worth a retry. *)
Lemma shortage_refused resp :
  shortage resp → 400 <= StatusCode resp < 500
    ∧ IsTransient (responseError resp) = false ∧ ~ In_chain as_partial (responseError resp).
Proof.
  intros [Hr Hc]. split; [by apply capacityReason_client in Hc as [? _] |].
  unfold responseError. rewrite Hr.
  destruct (String.eqb_spec (capacityReason (StatusCode resp) (TrimSpace (errorText resp))) "") as [|_]; [done |].
  split; [done |]. intros H. inversion H as [? [? Hs]|? y Hy Hp]; subst; [done |].
  simpl in Hy. apply list_elem_of_singleton in Hy as ->. by apply foreign_string in Hp.
Qed.

Lemma statusError_status p n msg : errors_as as_status (statusError p n msg) = Some (p, n).
Proof. unfold statusError, ClassifyStatus, Transient. by destruct (RetryableStatus n). Qed.

(** The status an error of an answer carries is the answer's. *)
Lemma responseError_status resp :
  errors_as as_status (responseError resp) = None
  ∨ ∃ p, errors_as as_status (responseError resp) = Some (p, StatusCode resp).
Proof.
  unfold responseError. destruct (rs_ReadErr resp) as [e|].
  - right. exists "fly"%string. cbn [errors_as as_status]. by rewrite statusError_status.
  - destruct (negb _); [by left | right]. eexists. apply statusError_status.
Qed.

(** * Identity *)

Lemma metadata_launch a lease :
  metadata (Metadata (cr_Config (launchRequest a lease))) managedByKey = "true"%string
  ∧ metadata (Metadata (cr_Config (launchRequest a lease))) controllerIDKey = controllerID a
  ∧ metadata (Metadata (cr_Config (launchRequest a lease))) leaseIDKey = lease_ID lease
  ∧ metadata (Metadata (cr_Config (launchRequest a lease))) runnerNameKey = lease_RunnerName lease
  ∧ metadata (Metadata (cr_Config (launchRequest a lease))) runnerIDKey = Itoa (lease_RunnerID lease)
  ∧ metadata (Metadata (cr_Config (launchRequest a lease))) runnerScaleSetIDKey
    = Itoa (lease_RunnerScaleSetID lease).
Proof. split_and!; unfold metadata; cbn [cr_Config launchRequest Metadata]; by simplify_map_eq. Qed.

(** * The API *)

(** A machine of the app, whatever has become of its state: its ID and metadata. *)
Abbreviation identity := (string * gmap string string)%type.
Definition identityOf (m : machine) : identity := (m_ID m, Metadata (m_Config m)).

Section api.
Context {W : Type} `{!CloudEnv flyBody W} {J : FlyJSON} (a : Adapter).

Class FlyMachines := mkFlyMachines {
  (** The machines there are, and those that are gone or on their way out for good. *)
  running : W → list identity;
  ended : W → string → Prop
}.
Definition later `{!FlyMachines} (w w' : W) : Prop :=
  running w' ⊆+ running w ∧ ∀ id, ended w id → ended w' id.

(** What the adapter relies on: a create makes at most one machine, with the
    metadata it was given, and none when it is refused; nothing else makes one; a
    list is complete; an ID is never used again; and the errors of the transport
    are not the adapter's. *)
Class FlyCloud `{!FlyMachines} : Prop := mkFlyCloud {
  fc_wait w : later w (ce_Wait w).2;
  fc_sleep d w : later w (ce_Sleep d w).2;
  fc_random w : later w (ce_Random w).2;
  fc_reads r w : rq_Method r ≠ "POST"%string → later w (ce_Do r w).2;
  fc_create payload w :
    later w (ce_Do (postMachine a payload) w).2
    ∨ ∃ id, running (ce_Do (postMachine a payload) w).2 ⊆+ (id, Metadata (cr_Config payload)) :: running w
        ∧ (∀ resp, (ce_Do (postMachine a payload) w).1 = inr resp →
            (success (StatusCode resp) = true → m_ID (fj_machine resp).1 ≠ ""%string →
             m_ID (fj_machine resp).1 = id)
            ∧ ~ (400 <= StatusCode resp < 500));
  fc_list w resp ms :
    (ce_Do (listMachines a) w).1 = inr resp → success (StatusCode resp) = true → StatusCode resp ≠ 204 →
    fj_machines resp = (ms, None) →
    (∀ i, i ∈ running (ce_Do (listMachines a) w).2 → i ∈ map identityOf ms)
    ∧ (∀ i, i ∈ map identityOf ms → i ∈ running w);
  fc_list_content w resp : (ce_Do (listMachines a) w).1 = inr resp → StatusCode resp ≠ 204;
  (** A deletion the API accepts, or a machine it does not know; and a machine it
      shows on its way out. *)
  fc_delete id w resp :
    (ce_Do (deleteMachine a id) w).1 = inr resp → success (StatusCode resp) = true ∨ StatusCode resp = 404 →
    ended (ce_Do (deleteMachine a id) w).2 id;
  fc_get id w resp :
    (ce_Do (getMachine a id) w).1 = inr resp →
    StatusCode resp = 404
    ∨ success (StatusCode resp) = true ∧ (m_State (fj_machine resp).1 = destroyingMachine
                                          ∨ m_State (fj_machine resp).1 = destroyedMachine) →
    ended (ce_Do (getMachine a id) w).2 id;
  fc_wait_err w e : (ce_Wait w).1 = Some e → plain e;
  fc_sleep_err d w e : (ce_Sleep d w).1 = Some e → plain e;
  fc_transport r w e : (ce_Do r w).1 = inl e → plain e;
  fc_read_err r w resp e : (ce_Do r w).1 = inr resp → rs_ReadErr resp = Some e → plain e;
  fc_decode_err resp : (∀ e, (fj_machine resp).2 = Some e → plain e)
                       ∧ (∀ e, (fj_machines resp).2 = Some e → plain e);
  fc_url url e : ce_NewRequest url = Some e → plain e
}.

Context `{!FlyMachines, !FlyCloud}.

(** An error of a request is a shortage the API reported, or foreign. *)
Lemma received_error {T} (zero : T) decode r w e :
  (∀ d resp e, decode = Some d → (d resp).2 = Some e → plain e) →
  (received responseError zero decode (ce_Do r w).1).2 = Some e →
  foreign e ∨ ∃ resp, (ce_Do r w).1 = inr resp ∧ shortage resp ∧ e = responseError resp.
Proof.
  intros Hd. destruct (ce_Do r w).1 as [err|resp] eqn:E; simpl.
  { intros Hc. left. eapply foreign_request; [by eapply fc_transport | exact Hc]. }
  destruct (success (StatusCode resp)); simpl.
  - destruct decode as [d|]; [|done]. destruct (StatusCode resp =? 204); [done |].
    destruct (d resp) as [x [err|]] eqn:Ed; [|done]. intros [= <-]. left. apply foreign_wrap.
    eapply (Hd d resp); [done | by rewrite Ed].
  - intros [= <-]. destruct (responseError_cases resp) as [Hs|Hf]; [by intros err ?; eapply fc_read_err | | by left].
    right. by exists resp.
Qed.

(** A machine is not found when the API says so. *)
Lemma received_notFound {T} (zero : T) d r w :
  (∀ resp e, (d resp).2 = Some e → plain e) →
  notFound (received responseError zero (Some d) (ce_Do r w).1).2 = true →
  ∃ resp, (ce_Do r w).1 = inr resp ∧ StatusCode resp = 404.
Proof.
  intros Hd. destruct (ce_Do r w).1 as [err|resp] eqn:E; cbn [received fst snd]; unfold notFound.
  { destruct (ClassifyRequestError (Some err)) as [e|] eqn:Ee; [|done].
    rewrite no_status_none; [done |]. eapply ClassifyRequestError_status; [by eapply fc_transport | done]. }
  intros Hn. exists resp. split; [done |]. revert Hn.
  destruct (success (StatusCode resp)); cbn [negb].
  - destruct (StatusCode resp =? 204); [done |]. destruct (d resp) as [x [e|]] eqn:Ed; [|done].
    change (snd _) with (Some (WrapError "decode response" e)). cbv beta iota.
    rewrite no_status_none; [done |]. intros Hc. apply In_chain_status_wrap in Hc.
    by destruct (Hd resp e) as [_ []]; [rewrite Ed |].
  - cbn [snd]. destruct (responseError_status resp) as [Hn|(p & Hn)]; rewrite Hn; [done |]. by intros ?%Z.eqb_eq.
Qed.

(** A value comes from a successful answer. *)
Lemma received_value {T} (zero : T) d answer :
  let r := received responseError zero (Some d) answer in
  (r.1 = zero ∧ (r.2 = None → ∃ resp, answer = inr resp ∧ StatusCode resp = 204))
  ∨ ∃ resp, answer = inr resp ∧ success (StatusCode resp) = true ∧ StatusCode resp ≠ 204
      ∧ r.1 = (d resp).1 ∧ (r.2 = None → (d resp).2 = None).
Proof.
  destruct answer as [err|resp]; cbn [received fst snd].
  { left. split; [done |]. intros Hc. destruct (ClassifyRequestError_some err) as [e He]. congruence. }
  destruct (success (StatusCode resp)) eqn:Es; simpl; [|by left].
  destruct (Z.eqb_spec (StatusCode resp) 204) as [H2|H2]; [left; split; [done | by exists resp] |].
  right. exists resp. destruct (d resp) as [x [e|]]; by split_and!.
Qed.
End api.
Arguments FlyMachines : clear implicits.
Arguments FlyCloud W {_ _} a {_}.
