(* ===== verification/FlyTheorems.v ===== *)
(** The Fly adapter's promises: one machine for a lease, a name for whatever may
    be running, a deletion that is one. *)

From S2P Require Import Prelude Program Provider Float64 GoStrings GoText Retry CloudHTTP CloudFacts Fly.

#[local] Open Scope Z_scope.

Lemma filter_submseteq_mono {A} (p : A → bool) (l k : list A) :
  l ⊆+ k → filter p l ⊆+ filter p k.
Proof.
  intros [rest ->]%submseteq_Permutation. rewrite filter_app. by apply submseteq_inserts_r.
Qed.

Section launch.
Context {L W : Type} `{!CloudEnv flyBody W} {J : FlyJSON} (a : Adapter) `{!FlyMachines W, !FlyCloud W a} (lease : Lease).
Abbreviation Σ := (cloudSys flyBody L W).

(** The machines that run for the lease. *)
Definition carries (i : identity) : bool :=
  String.eqb (metadata i.2 managedByKey) "true" && String.eqb (metadata i.2 controllerIDKey) (controllerID a)
  && String.eqb (metadata i.2 leaseIDKey) (lease_ID lease).
Definition holders (s : Σ) : list identity := filter carries (running (cworld s)).

(** Others, launches of other leases too, may do anything but start this lease. *)
Definition othersLeases (s s' : Σ) : Prop := holders s' ⊆+ holders s.

#[local] Instance othersLeases_preorder : PreOrder othersLeases.
Proof. split; [intros s | intros s1 s2 s3]; unfold othersLeases; [reflexivity | by etrans]. Qed.

Abbreviation lspec := (spec othersLeases anyChange (λ _ : Σ, True)).

Definition atMostOne (s : Σ) : Prop := (length (holders s) <= 1)%nat.
Definition namedBy (id : string) (s : Σ) : Prop := atMostOne s ∧ ∀ i, i ∈ holders s → i.1 = id.
Definition none (s : Σ) : Prop := holders s = [].

Lemma stable_none : stableR othersLeases none.
Proof. intros s s' H Hn. unfold none, othersLeases in *. rewrite Hn in H. by apply submseteq_nil_r. Qed.

Lemma stable_atMostOne : stableR othersLeases atMostOne.
Proof. intros s s' H Hn. unfold atMostOne. apply submseteq_length in H. unfold atMostOne in Hn. lia. Qed.

Lemma none_atMostOne s : none s → atMostOne s.
Proof. unfold none, atMostOne. intros ->. simpl. lia. Qed.

Lemma none_named s id : none s → namedBy id s.
Proof. intros H. split; [by apply none_atMostOne |]. rewrite H. set_solver. Qed.

Lemma running_others w w' tr tr' l l' :
  later w w' → othersLeases (mkCloudSys w tr l) (mkCloudSys w' tr' l').
Proof. intros [Hle _]. by apply filter_submseteq_mono. Qed.

(** What others may do, the passing of time may do. *)
Lemma waits_stable Pr : stableR othersLeases Pr → Waits foreign Pr.
Proof.
  intros Hst. split.
  - intros w tr l HP. split; [|by intros e He; destruct (fc_wait_err a _ _ He)]. eapply Hst; [|exact HP]. apply running_others, (fc_wait a).
  - intros d w tr l HP. split; [|by intros e He; destruct (fc_sleep_err a _ _ _ He)]. eapply Hst; [|exact HP]. apply running_others, (fc_sleep a).
  - intros w tr l HP. eapply Hst; [|exact HP]. apply running_others, (fc_random a).
Qed.

Lemma elem_of_holders m s : m ∈ holders s ↔ carries m = true ∧ m ∈ running (cworld s).
Proof. unfold holders. by rewrite list_elem_of_filter, Is_true_true. Qed.

(** ** Create *)

Definition created (r : machine * option error) (s : Σ) : Prop :=
  atMostOne s ∧ (m_ID r.1 ≠ ""%string → namedBy (m_ID r.1) s)
  ∧ ∀ e, r.2 = Some e → foreign e ∨ (IsTransient e = false ∧ ~ In_chain as_partial e ∧ none s).

Lemma holders_cons w w' m tr tr' l l' :
  none (mkCloudSys w tr l) → running w' ⊆+ m :: running w → holders (mkCloudSys w' tr' l') ⊆+ [m].
Proof.
  intros Hn H. unfold none, holders in *. cbn [cworld] in *. apply (filter_submseteq_mono carries) in H.
  rewrite filter_cons, Hn in H. case_decide; [done |]. etrans; [exact H |]. apply submseteq_nil_l.
Qed.

Lemma create_spec :
  lspec none (doJSON responseError (postMachine a (launchRequest a lease)) noMachine (Some fj_machine)) created.
Proof.
  apply spec_doJSON; [apply stable_none | |].
  { intros s err Hn Herr. split_and!; [by apply none_atMostOne | done |]. intros e [= <-].
    left. apply foreign_wrap. by destruct (fc_url a _ _ Herr). }
  intros w tr l Hn. set (r := postMachine a (launchRequest a lease)).
  set (s' := mkCloudSys (ce_Do r w).2 ((r, (ce_Do r w).1) :: tr) l).
  assert (Herr : ∀ e, (received responseError noMachine (Some fj_machine) (ce_Do r w).1).2 = Some e →
      foreign e ∨ ∃ resp, (ce_Do r w).1 = inr resp ∧ shortage resp ∧ e = responseError resp).
  { intros e. apply (received_error a). intros d resp e' [= <-]. apply (fc_decode_err a). }
  destruct (fc_create a (launchRequest a lease) w) as [Hle|(id & Hle & Hanswer)]; fold r in Hle.
  - assert (Hn' : none s') by (eapply stable_none; [by apply running_others | exact Hn]).
    split_and!; [by apply none_atMostOne | intros _; by apply none_named |].
    intros e He. destruct (Herr e He) as [?|(resp & _ & Hs & ->)]; [by left |]. right.
    by destruct (shortage_refused resp Hs) as (_ & ? & ?).
  - assert (Hone : holders s' ⊆+ [(id, Metadata (cr_Config (launchRequest a lease)))]) by (by eapply holders_cons).
    assert (Hm : atMostOne s') by (unfold atMostOne; by apply submseteq_length in Hone).
    split_and!; [done | |].
    + intros Hid. split; [done |]. intros m' Hm'.
      apply (elem_of_submseteq _ _ _ Hm'), list_elem_of_singleton in Hone as ->.
      destruct (received_value noMachine fj_machine (ce_Do r w).1) as [[Hz _]|(resp & Ha & Hok & _ & Hv & _)].
      { by rewrite Hz in Hid. }
      rewrite Hv in *. symmetry. by apply (Hanswer resp Ha).
    + intros e He. destruct (Herr e He) as [?|(resp & Ha & Hs & ->)]; [by left |].
      destruct (Hanswer resp Ha) as [_ []]. by apply shortage_refused.
Qed.

(** ** Look up *)

Definition notPartial (e : error) : Prop := ~ In_chain as_partial e.

Lemma foreign_notPartial e : foreign e → notPartial e.
Proof. by intros []. Qed.

Lemma join_notPartial e e' : notPartial e → foreign e' → notPartial (JoinError [e; e']).
Proof.
  intros He [_ Hf] Hc. apply In_chain_join in Hc as (x & Hx & Hc); [|done].
  apply elem_of_cons in Hx as [->|Hx]; [done |]. by apply list_elem_of_singleton in Hx as ->.
Qed.

(** A complete list of what may run for the lease. *)
Definition listed (ms : list machine) (s : Σ) : Prop :=
  atMostOne s ∧ (∀ i, i ∈ holders s → i ∈ map identityOf ms)
  ∧ (∀ m i, m ∈ ms → carries (identityOf m) = true → i ∈ holders s → i.1 = m_ID m).

Lemma stable_listed ms : stableR othersLeases (listed ms).
Proof.
  intros s s' Hle (H1 & H2 & H3). split; [by eapply stable_atMostOne |].
  assert (Hin : ∀ m, m ∈ holders s' → m ∈ holders s) by (intros m Hm; by eapply elem_of_submseteq).
  split; [auto |]. intros m m' ? ? ?. eapply H3; auto.
Qed.

Lemma atMostOne_eq s m m' : atMostOne s → m ∈ holders s → m' ∈ holders s → m = m'.
Proof.
  unfold atMostOne. destruct (holders s) as [|x [|y l]]; simpl; [set_solver | set_solver | lia].
Qed.

Lemma list_spec :
  lspec atMostOne (doJSON responseError (listMachines a) [] (Some fj_machines))
    (λ r s, match r.2 with None => listed r.1 s | Some e => atMostOne s ∧ notPartial e end).
Proof.
  apply spec_doJSON; [apply stable_atMostOne | |].
  { intros s err Hs Herr. split; [done |]. apply foreign_notPartial, foreign_wrap. by destruct (fc_url a _ _ Herr). }
  intros w tr l Hn. set (r := listMachines a).
  assert (Hle : later w (ce_Do r w).2) by (by apply (fc_reads a)).
  assert (Hone : atMostOne (mkCloudSys (ce_Do r w).2 ((r, (ce_Do r w).1) :: tr) l)).
  { eapply stable_atMostOne; [by apply running_others | exact Hn]. }
  pose proof (received_value [] fj_machines (ce_Do r w).1) as Hv.
  destruct (received responseError [] (Some fj_machines) (ce_Do r w).1) as [ms [e|]] eqn:Er; cbn [fst snd] in *.
  - split; [done |]. destruct (received_error a [] (Some fj_machines) r w e) as [Hf|(resp & _ & Hs & ->)].
    + intros d resp e' [= <-]. apply (fc_decode_err a).
    + by rewrite Er.
    + by apply foreign_notPartial.
    + by apply shortage_refused.
  - destruct Hv as [[_ H2]|(resp & Ha & Hok & H204 & Hms & Hd)].
    { destruct (H2 eq_refl) as (resp & Ha & Hs). by destruct (fc_list_content a w resp Ha). }
    specialize (Hd eq_refl). destruct (fj_machines resp) as [ms' oe] eqn:Ed. simpl in Hms, Hd. subst ms' oe.
    destruct (fc_list a w resp ms Ha Hok H204 Ed) as [Hall Hwas]. split_and!; [done | |].
    + intros m [_ Hm]%elem_of_holders. by apply Hall.
    + intros m i Hm Hc Hi. assert (i = identityOf m) as ->; [|done]. apply (atMostOne_eq _ _ _ Hn).
      * by eapply elem_of_submseteq; [exact Hi | apply running_others].
      * apply elem_of_holders. split; [done |]. apply Hwas, list_elem_of_fmap. eauto.
Qed.

Definition lookedUp (r : error + option Worker) (s : Σ) : Prop :=
  match r with
  | inl e => atMostOne s ∧ notPartial e
  | inr None => none s
  | inr (Some w) => namedBy (ID w) s
  end.

Lemma find_spec : 1 <= Attempts (policy a) → lspec atMostOne (findByLease a (lease_ID lease)) lookedUp.
Proof.
  intros Hatt. unfold findByLease, Inventory.
  eapply (spec_bind _ _ _ _ _ _ (λ r s, match r with
    | inl e => atMostOne s ∧ notPartial e
    | inr ws => ∃ ms, listed ms s ∧ ws = map toWorker (List.filter (owned a) ms) end)).
  { eapply spec_bind.
    { apply (spec_retried _ foreign _ _ _ atMostOne listed notPartial); [apply stable_atMostOne | apply waits_stable, stable_atMostOne
        | apply foreign_notPartial | apply join_notPartial | done | apply list_spec]. }
    intros [ms [e|]]; apply spec_ret; cbn [fst snd]; [|eauto].
    intros s [? Hp]. split; [done |]. intros Hc. by apply In_chain_wrap in Hc. }
  intros [e|ws]; apply spec_ret; [done |]. intros s (ms & (H1 & H2 & H3) & ->). simpl.
  destruct (List.find _ _) as [w|] eqn:Ef.
  - apply List.find_some in Ef as [Hw Hl]. apply in_map_iff in Hw as (m & <- & [Hm Ho]%filter_In).
    split; [done |]. intros m' Hm'. apply (H3 m m' ); [by apply list_elem_of_In | | done].
    apply andb_true_iff. by split.
  - destruct (holders s) as [|m l] eqn:El; [done |]. exfalso.
    assert (Hm : m ∈ holders s) by (rewrite El; left). destruct (proj1 (list_elem_of_fmap _ _ _) (H2 m ltac:(set_solver))) as (m' & -> & Hm').
    apply elem_of_holders in Hm as [Hc _]. unfold carries in Hc. apply andb_true_iff in Hc as [Ho Hl].
    assert (Hin : In (toWorker m') (map toWorker (List.filter (owned a) ms))).
    { apply in_map, filter_In. split; [by apply list_elem_of_In | done]. }
    apply (List.find_none _ _ Ef) in Hin. cbn in Hin, Hl. congruence.
Qed.
(** ** Launch *)

(** A lookup that failed after a create whose outcome is not known. *)
Definition lookupRefused (err : error) : Prop :=
  ∃ create lookup, IsCapacity lookup = true
    ∧ err = JoinError [WrapError "create Fly worker" create;
                       WrapError "confirm Fly worker absence before retry" lookup].

Definition launched (r : error + Worker) (s : Σ) : Prop :=
  atMostOne s ∧
  match r with
  | inr w => ∀ i, i ∈ holders s → i.1 = ID w
  | inl err => (∀ w, errors_as as_partial err = Some w → ∀ i, i ∈ holders s → i.1 = ID w)
               ∧ (IsCapacity err = true → none s ∨ lookupRefused err)
  end.

Lemma launched_foreign err s : atMostOne s → foreign err → launched (inl err) s.
Proof.
  intros Hs Hf. split; [done |]. split.
  - intros w Hw. by destruct (foreign_not_partial _ _ Hf Hw).
  - by rewrite foreign_not_capacity.
Qed.

Lemma launched_unpartial err s :
  atMostOne s → notPartial err → (none s ∨ lookupRefused err ∨ IsCapacity err = false) → launched (inl err) s.
Proof.
  intros Hs Hp Hc. split; [done |]. split.
  - intros w Hw. destruct Hp. apply errors_as_In_chain. by rewrite Hw.
  - destruct Hc as [?|[?| ->]]; auto. done.
Qed.

Lemma launchFrom_spec fuel attempt lastErr :
  1 <= Attempts (policy a) → fuel ≠ 0%nat ∨ (∃ e, lastErr = Some e ∧ foreign e) →
  lspec none (launchFrom a fuel lease attempt lastErr) launched.
Proof.
  intros Hatt. revert attempt lastErr. induction fuel as [|fuel IH]; intros attempt lastErr Hlast; cbn [launchFrom].
  { destruct Hlast as [?|(e & -> & Hf)]; [done |]. apply spec_ret. intros s Hn.
    apply launched_foreign; [by apply none_atMostOne | done]. }
  eapply spec_on_err; [apply (spec_Wait _ foreign); [apply stable_none | apply waits_stable, stable_none] | |].
  { intros e. apply spec_ret. intros s [Hn Hf]. apply launched_foreign; [by apply none_atMostOne | by apply Hf]. }
  eapply spec_bind.
  { eapply spec_conseq; [apply create_spec | by intros s [] | by intros r s Hr]. }
  intros [m [e|]]; cbn [fst snd].
  2:{ apply spec_ret. intros s (Hone & Hid & _). cbn [fst snd] in Hid.
      destruct (String.eqb_spec (m_ID m) "") as [_|Hne]; [by apply launched_foreign, foreign_string |].
      split; [done |]. apply Hid, Hne. }
  destruct (String.eqb_spec (m_ID m) "") as [_|Hne]; cbn [negb].
  2:{ apply spec_ret. intros s (Hone & Hid & Herr). split; [done |]. split.
      - intros w [= <-]. by apply Hid.
      - intros Hc. left. destruct (Herr e eq_refl) as [Hf|(_ & _ & Hn)]; [|done].
        change (IsCapacity e = true) in Hc. by rewrite (foreign_not_capacity e Hf) in Hc. }
  destruct (IsTransient e) eqn:Et; cbn [negb].
  2:{ apply spec_ret. intros s (Hone & _ & Herr). apply launched_unpartial; [done | |].
      - intros Hc. apply In_chain_wrap in Hc; [|done]. by destruct (Herr e eq_refl) as [[]|(_ & ? & _)].
      - destruct (Herr e eq_refl) as [Hf|(_ & _ & Hn)]; [|by left].
        right. right. by apply foreign_not_capacity, foreign_wrap. }
  eapply (spec_because _ _ _ (foreign (WrapError "create Fly worker" e)) _ atMostOne).
  { intros s (Hone & _ & Herr). split; [|done]. destruct (Herr e eq_refl) as [Hf|(Ht & _)]; [|congruence].
    by apply foreign_wrap. }
  intros Hf. eapply spec_bind; [by apply find_spec |]. intros [lookup|[w|]]; cbn [lookedUp].
  - apply spec_ret. intros s [Hone Hp]. apply launched_unpartial; [done | |].
    + intros Hc. apply In_chain_join in Hc as (x & Hx & Hc); [|done].
      apply elem_of_cons in Hx as [->|Hx]; [by destruct Hf |].
      apply list_elem_of_singleton in Hx as ->. by apply In_chain_wrap in Hc.
    + right. destruct (IsCapacity lookup) eqn:Ec; [left; by exists e, lookup | right].
      apply not_true_iff_false. rewrite IsCapacity_chain. intros Hc. apply In_chain_join in Hc as (x & Hx & Hc); [|done].
      apply elem_of_cons in Hx as [->|Hx]; [by destruct Hf |].
      apply list_elem_of_singleton in Hx as ->. apply In_chain_wrap in Hc; [|done].
      apply IsCapacity_chain in Hc. congruence.
  - apply spec_ret. intros s [Hone Hid]. split; [done |]. exact Hid.
  - destruct (attempt =? Attempts (policy a)).
    { apply spec_ret. intros s Hn. apply launched_foreign; [by apply none_atMostOne | done]. }
    eapply spec_bind; [apply (spec_random _ foreign); [apply stable_none | apply waits_stable, stable_none] |]. intros x.
    eapply spec_on_err; [apply (spec_sleepContext _ foreign); [apply stable_none | apply waits_stable, stable_none] | |].
    + intros e'. apply spec_ret. intros s [Hn He']. apply launched_foreign; [by apply none_atMostOne |].
      apply foreign_join, Forall_cons. split; [done |]. by apply Forall_singleton, He'.
    + eapply spec_conseq; [apply (IH (attempt + 1) (Some (WrapError "create Fly worker" e))) | by intros s [] | done].
      right. eauto.
Qed.

Lemma stable_launched r : stableR othersLeases (launched r).
Proof.
  intros s s' Hle [Hone Hr]. split; [by eapply stable_atMostOne |].
  assert (Hin : ∀ m, m ∈ holders s' → m ∈ holders s) by (intros m Hm; by eapply elem_of_submseteq).
  destruct r as [err|w]; [|auto]. destruct Hr as [Hp Hc]. split; [eauto |].
  intros Hcap. destruct (Hc Hcap) as [?|?]; [left; by eapply stable_none | by right].
Qed.
End launch.

Lemma New_policy `{!ParseIP} cfg a : New cfg = inr a → 1 <= Attempts (policy a).
Proof.
  unfold New. intros Ha. repeat case_match; simplify_eq; cbn [policy];
    by destruct (withDefaults_sane (cf_Retry cfg)) as (? & _).
Qed.


(** * Destroy *)

Section destroy.
Context {L W : Type} `{!CloudEnv flyBody W} {J : FlyJSON} (a : Adapter) `{!FlyMachines W, !FlyCloud W a} (id : string).
Abbreviation Σ := (cloudSys flyBody L W).

(** A machine that is gone stays so. *)
Definition othersEnd (s s' : Σ) : Prop := ∀ id, ended (cworld s) id → ended (cworld s') id.

#[local] Instance othersEnd_preorder : PreOrder othersEnd.
Proof. split; [by intros s id' | intros s1 s2 s3 H1 H2 id' Hid; auto]. Qed.

Abbreviation dspec := (spec othersEnd anyChange (λ _ : Σ, True)).
Definition gone (s : Σ) : Prop := ended (cworld s) id.
Definition anything (s : Σ) : Prop := True.

#[local] Instance waits_anything : Waits foreign anything.
Proof.
  split; [intros w tr l _ | intros d w tr l _ | done]; (split; [done |]); intros e He.
  - by destruct (fc_wait_err a _ _ He).
  - by destruct (fc_sleep_err a _ _ _ He).
Qed.

(** The request fails, and is not answered, before it is sent. *)
Lemma bad_url_found url err : ce_NewRequest url = Some err → notFound (Some (WrapError "build request" err)) = false.
Proof.
  intros H. unfold notFound. rewrite no_status_none; [done |]. intros Hc. apply In_chain_status_wrap in Hc.
  by destruct (fc_url a _ _ H).
Qed.

Lemma leaving_spec : dspec anything (leaving a id) (λ b s, b = true → gone s).
Proof.
  unfold leaving. eapply (spec_bind _ _ _ _ _ _ (λ r s,
    (notFound r.2 = true ∨ r.2 = None ∧ (m_State r.1 = destroyingMachine ∨ m_State r.1 = destroyedMachine)) → gone s)).
  - apply spec_doJSON; [done | |].
    + intros s err _ Herr. cbn [fst snd]. rewrite (bad_url_found _ _ Herr). naive_solver.
    + intros w tr l _ [Hn|[Hn Hs]].
      * apply (received_notFound a) in Hn as (resp & Ha & Hs); [|intros resp e; apply (fc_decode_err a)].
        apply (fc_get a id w resp Ha). by left.
      * destruct (received_value noMachine fj_machine (ce_Do (getMachine a id) w).1)
          as [[Hz _]|(resp & Ha & Hok & _ & Hv & _)].
        { rewrite Hz in Hs. by destruct Hs. }
        apply (fc_get a id w resp Ha). right. rewrite Hv in Hs. done.
  - intros [m e]. apply spec_ret. cbn [fst snd]. intros s Hs Hb. apply Hs.
    apply orb_true_iff in Hb as [Hb|Hb]; [by left | right].
    apply andb_true_iff in Hb as [He Hb]. destruct e; [done |]. split; [done |].
    apply orb_true_iff in Hb as [Hb|Hb]; apply String.eqb_eq in Hb; auto.
Qed.

Lemma deleteOnce_spec :
  dspec anything (deleteOnce a id) (λ r s, match r.2 with None => gone s | Some _ => anything s ∧ True end).
Proof.
  unfold deleteOnce. destruct (ce_NewRequest (machineURL a id)) as [err|]; [by apply spec_ret |].
  eapply spec_bind.
  { apply (spec_send _ _ _ (λ answer s, match answer with
      | inr resp => success (StatusCode resp) = true ∨ StatusCode resp = 404 → gone s | inl _ => True end)); [done |].
    intros w tr l _. destruct (ce_Do (deleteMachine a id) w).1 as [|resp] eqn:E; [done |].
    intros Hs. by apply (fc_delete a id w resp). }
  intros [err|resp]; cbn [fst snd].
  { apply spec_ret. intros s _. destruct (ClassifyRequestError_some err) as [e ->]. done. }
  destruct (Z.eqb_spec (StatusCode resp) 404) as [H4|_]; [apply spec_ret; intros s Hs; apply Hs; by right |].
  destruct (StatusCode resp =? 412).
  - eapply spec_bind; [eapply spec_conseq; [apply leaving_spec | done | intros b s Hb; exact Hb] |].
    intros [|]; apply spec_ret; intros s Hs; [by apply Hs | done].
  - apply spec_ret. cbn [snd]. intros s Hs. destruct (success (StatusCode resp)); [by apply Hs; left | done].
Qed.
End destroy.

(** A worker reported destroyed is gone.  Whatever is retried and whatever
    the API answers in between, a deletion that returns no error leaves a machine
    that is gone or on its way out, and a deletion refused with a failed
    precondition counts as done only when the machine is. *)
Theorem fly_destroyed {L W} `{!CloudEnv flyBody W} {J : FlyJSON} `{!ParseIP} cfg a
    `{!FlyMachines W, !FlyCloud W a} id (s s' : cloudSys flyBody L W) :
  New cfg = inr a → id ≠ ""%string →
  interleaved othersEnd (Destroy a id) s None s' → ended (cworld s') id.
Proof.
  intros Ha Hid Hrun. apply New_policy in Ha.
  apply (interleaved_spec othersEnd anyChange anything (Destroy a id) (λ r s, r = None → gone id s) s None s');
    [| | done | exact Hrun | done].
  - unfold Destroy. destruct (String.eqb_spec id ""); [done |].
    eapply spec_bind; [apply (spec_retried _ foreign _ _ _ anything (λ _, gone id) (λ _, True)); try done;
      [by apply (waits_anything a) | by apply deleteOnce_spec] |].
    intros [[] [e|]]; apply spec_ret; cbn [snd]; done.
  - intros r s1 s2 HR Hg Hr. by apply HR, Hg.
Qed.

(** * Identity *)

(** What a launch writes, an inventory reads back.  A machine that carries the
    metadata of a launch is listed as the worker of its lease, with the runner and
    the scale set it was made for, whatever its state; and by no adapter of another
    controller. *)
Theorem fly_identity_roundtrip a lease m :
  Metadata (m_Config m) = Metadata (cr_Config (launchRequest a lease)) →
  0 <= lease_RunnerID lease <= max_int64 → 0 <= lease_RunnerScaleSetID lease <= max_int64 →
  toWorker m = mkWorker (m_ID m) (lease_ID lease) (lease_RunnerName lease) (lease_RunnerID lease)
                 (lease_RunnerScaleSetID lease) (m_State m) (m_CreatedAt m)
  ∧ ∀ a', owned a' m = String.eqb (controllerID a) (controllerID a').
Proof.
  intros Hm H1 H2. destruct (metadata_launch a lease) as (E1 & E2 & E3 & E4 & E5 & E6).
  unfold toWorker, owned. rewrite Hm, E1, E2, E3, E4, E5, E6, !ParseInt_Itoa by done. done.
Qed.

(** * An API to try it on *)

Module FlyDemo.

#[global] Instance literalIPs : ParseIP := Some.

Definition cfg : Config :=
  mkConfig "token" "" "workers" "cdg" "image" "controller-1" "shared" 2 1024 20 ""
    (mkPolicy 3 0 0 DefaultRate 0).
Definition adapter : Adapter := match New cfg with inr a => a | inl _ => mkAdapter "" "" "" "" "" "" 0 0 0 "" (cf_Retry cfg) end.

Definition lease : Lease := mkLease "lease-1" "runner-1" 7 3 "jit" (UnixTime 0) (60 * Second).
Definition md : gmap string string := Metadata (cr_Config (launchRequest adapter lease)).

(** How many machines run for the lease, and whether the answers to the next
    creates are lost. *)
Record world := mkWorld { count : nat; lost : list bool }.

Definition started : machine :=
  mkMachine "m1" "runner-1" "started" "cdg" zeroTime (cr_Config (launchRequest adapter lease)).
Definition endedMachine : machine := mkMachine "" "" destroyedMachine "" zeroTime noConfig.

#[global] Instance answers : FlyJSON :=
  mkFlyJSON (λ r, (if String.eqb (rs_Body r) "one" then started else endedMachine, None))
            (λ r, (if String.eqb (rs_Body r) "one" then [started] else [], None)).

Definition serve (r : request flyBody) (w : world) : (error + response) * world :=
  let ok (w : world) := mkResponse 200 (if Nat.eqb (count w) 0 then "none" else "one") None in
  if String.eqb (rq_Method r) "POST" then
    match rq_Body r with
    | Some (CreateMachine payload) =>
      if bool_decide (Metadata (cr_Config payload) = md) then
        let w' := mkWorld (S (count w)) (tl (lost w)) in
        (if default false (head (lost w)) then inl (NetError "connection reset") else inr (ok w'), w')
      else (inr (mkResponse 422 "no such lease" None), w)
    | _ => (inr (mkResponse 422 "no such request" None), w)
    end
  else if String.eqb (rq_Method r) "GET" then (inr (ok w), w)
  else let w' := mkWorld 0 (lost w) in (inr (ok w'), w').

#[global] Instance api : CloudEnv flyBody world :=
  mkCloudEnv _ _ (λ _, None) serve (λ w, (None, w)) (λ _ w, (None, w)) (λ w, (f64_zero, w)).

#[global] Instance machines : FlyMachines world :=
  {| running w := repeat ("m1"%string, md) (count w); ended w id := count w = 0%nat ∨ id ≠ "m1"%string |}.

Lemma later_count w w' : (count w' <= count w)%nat → later w w'.
Proof.
  intros Hle. split.
  - simpl. replace (count w) with (count w' + (count w - count w'))%nat by lia.
    rewrite repeat_app. by apply submseteq_inserts_r.
  - intros id [H0|]; [left; simpl in *; lia | by right].
Qed.

Lemma plain_net msg : plain (NetError msg).
Proof. repeat split; intros H; inversion H as [? [? Hs]|? y Hy Hc]; subst; done || set_solver. Qed.

Lemma serve_post payload w :
  ce_Do (postMachine adapter payload) w =
  if bool_decide (Metadata (cr_Config payload) = md) then
    (if default false (head (lost w)) then inl (NetError "connection reset")
     else inr (mkResponse 200 "one" None), mkWorld (S (count w)) (tl (lost w)))
  else (inr (mkResponse 422 "no such lease" None), w).
Proof. reflexivity. Qed.

#[global] Instance cloud : FlyCloud world adapter.
Proof.
  split.
  - intros w. by apply later_count.
  - intros d w. by apply later_count.
  - intros w. by apply later_count.
  - intros r w Hr. apply later_count. simpl. unfold serve.
    destruct (String.eqb_spec (rq_Method r) "POST"); [done |]. destruct (String.eqb _ _); simpl; lia.
  - intros payload w. destruct (decide (Metadata (cr_Config payload) = md)) as [Hm|Hm].
    + right. exists "m1"%string. rewrite serve_post, bool_decide_true by done. split; [by rewrite Hm |].
      intros resp Hr. destruct (default false (head (lost w))); simpl in Hr; simplify_eq. split; [done | simpl; lia].
    + left. rewrite serve_post, bool_decide_false by done. by apply later_count.
  - intros w resp ms Ha _ _ Hms. simpl in *. simplify_eq. simpl. destruct (count w) as [|n]; simpl; [set_solver |].
    split; intros i.
    + intros [->|Hi]%elem_of_cons; [left |]. apply list_elem_of_In, repeat_spec in Hi as ->; left.
    + intros ->%list_elem_of_singleton. left.
  - intros w resp Ha. simpl in *. by simplify_eq.
  - intros id w resp _ _. by left.
  - intros id w resp Ha Hs. simpl in *. simplify_eq. left. simpl in *.
    destruct (count w); [done |]. simpl in Hs. naive_solver.
  - done.
  - done.
  - intros r w e. simpl. unfold serve. repeat case_match; simpl; intros; simplify_eq; apply plain_net.
  - intros r w resp e. simpl. unfold serve. repeat case_match; simpl; intros; simplify_eq.
  - intros resp. by split.
  - done.
Qed.

Definition start : cloudSys flyBody () world := mkCloudSys (mkWorld 0 [true]) [] ().

(** The first answer is lost; the machine is found. *)
Example launch_found :
  evalP (Launch adapter lease) start = inr (toWorker started) ∧ count (cworld (execP (Launch adapter lease) start)) = 1%nat.
Proof. vm_compute. done. Qed.

Lemma destroyed_none : evalP (Destroy adapter "m1") start = None.
Proof. vm_compute. done. Qed.

(** The list that should prove the absence may itself be refused with a text that
    names a shortage.  The launch then fails as if there were no capacity, and a
    placement tries the next tier, although the create may have been carried out. *)
Definition unsureServe (r : request flyBody) (w : world) : (error + response) * world :=
  if String.eqb (rq_Method r) "POST" then (inl (NetError "connection reset"), mkWorld (S (count w)) (lost w))
  else (inr (mkResponse 422 "no host found for the app" None), w).

Definition unsure : CloudEnv flyBody world :=
  mkCloudEnv _ _ (λ _, None) unsureServe (λ w, (None, w)) (λ _ w, (None, w)) (λ w, (f64_zero, w)).

Lemma lookup_shortage_is_capacity :
  let r := runP (@Launch () world unsure answers adapter lease) start in
  match r.1 with inl err => IsCapacity err && negb (bool_decide (is_Some (errors_as as_partial err))) | inr _ => false end
  = true ∧ count (cworld r.2) = 1%nat.
Proof. vm_compute. done. Qed.

End FlyDemo.


Lemma fly_destroyed_witness :
  ended (cworld (execP (Destroy FlyDemo.adapter "m1") FlyDemo.start)) "m1".
Proof.
  apply (fly_destroyed FlyDemo.cfg FlyDemo.adapter "m1" FlyDemo.start); [reflexivity | done |].
  rewrite <- FlyDemo.destroyed_none at 1. apply interleaved_alone. by intros s id.
Defined.

Lemma fly_identity_roundtrip_witness :
  let m := FlyDemo.started in let lease := FlyDemo.lease in
  toWorker m = mkWorker (m_ID m) (lease_ID lease) (lease_RunnerName lease) (lease_RunnerID lease)
                 (lease_RunnerScaleSetID lease) (m_State m) (m_CreatedAt m)
  ∧ ∀ a', owned a' m = String.eqb (controllerID FlyDemo.adapter) (controllerID a').
Proof. apply fly_identity_roundtrip; [reflexivity | |]; vm_compute; split; discriminate. Defined.
