(* ===== verification/FlyHosts.v ===== *)
(** Pool hosts on Fly Machines (src/providers/fly/hostsource.go) and their prices
    (src/providers/fly/prices.go): a host is one Machine with one volume, and the
    pool's record of what it may touch is the metadata of the Machine and the name
    of the volume.

    The derivation of host keys, SHA-256, the random suffix of a name, the clock
    and the JSON text of a host's configuration are parameters.  A wait polls until
    its timer tells that the context is over; a timer never fires early, so that
    [StateTimeout/PollInterval] polls and one more outlast the context. *)

From S2P Require Import Prelude Program Provider Float64 GoStrings GoText Retry CloudHTTP PoolState.
From S2P Require Import HostAgent Fly.

#[local] Open Scope string_scope.
#[local] Open Scope Z_scope.

(** * Prices *)

Definition SharedVCPUPerSecond : f64 := of_ratio 8465 10000000000.
Definition PerformanceVCPUPerSecond : f64 := of_ratio 12732 1000000000.
Definition RAMPerGBPerSecond : f64 := of_ratio 2316 1000000000.
Definition SharedIncludedMBPerVCPU : f64 := f64_of_int 256.
Definition PerformanceIncludedMBPerVCPU : f64 := f64_of_int 2048.

Definition RegionMultiplier (region : string) : option f64 :=
  if String.eqb region "iad" || String.eqb region "ewr" then Some (f64_of_int 1)
  else if String.eqb region "cdg" then Some (of_ratio 1134615385 1000000000)
  else None.

Definition PricePerSecond (cpuKind : string) (cpus memoryMB : Z) : string + f64 :=
  let price (vcpu includedMB : f64) :=
    let extraGB := f64_div (f64_max f64_zero (f64_sub (f64_of_int memoryMB) (f64_mul (f64_of_int cpus) includedMB)))
                     (f64_of_int 1024) in
    inr (f64_add (f64_mul (f64_of_int cpus) vcpu) (f64_mul extraGB RAMPerGBPerSecond)) in
  if (cpus <? 1) || (memoryMB <? 1) then inl "a Fly Machine has at least one vCPU and some memory"
  else if String.eqb cpuKind "performance" then price PerformanceVCPUPerSecond PerformanceIncludedMBPerVCPU
  else if String.eqb cpuKind "shared" then price SharedVCPUPerSecond SharedIncludedMBPerVCPU
  else inl "fly CPU kind must be performance or shared".

Definition HourlyPriceUSD (cpuKind : string) (cpus memoryMB : Z) (region : string) : option f64 :=
  match RegionMultiplier region with
  | None => None
  | Some multiplier =>
    match PricePerSecond cpuKind cpus memoryMB with
    | inl _ => None
    | inr perSecond => Some (f64_mul (f64_mul perSecond multiplier) (f64_of_int 3600))
    end
  end.

(** [Adapter.WorkerHourlyPrice] *)
Definition WorkerHourlyPrice (a : Adapter) : option f64 * string :=
  (HourlyPriceUSD (cpuKind a) (cpus a) (memoryMB a) (region a), "USD").

(** * Configuration *)

Definition poolHostKey : string := "runneryard-pool-host".
Definition poolNameKey : string := "runneryard-pool".
Definition poolImageKey : string := "runneryard-pool-image".
Definition hostIDPrefix : string := "fly-".
Definition hostNamePrefix : string := "ry-".
Definition dataPath : string := "/data".
Definition defaultPoll : duration := 2 * Second.
Definition defaultStateFor : duration := 3 * Minute.
Definition orphanVolumeAge : duration := 30 * Minute.
Definition volumeSweepEvery : duration := 10 * Minute.
Definition minVolumeGB : Z := 10.
Definition maxVolumeGB : Z := 500.
Definition stoppedMachine : string := "stopped".
Definition startedMachine : string := "started".
Definition hostBootEntrypoint : string := "/usr/local/bin/runneryard".

(** Constants of src/hostagent that the source passes on. *)
Definition ConfigPath : string := "/etc/runneryard/host.json".
Definition BootHostKeyPath : string := "/etc/runneryard/ssh_host_ed25519_key".
Definition BootAuthorizedKeyPath : string := "/etc/runneryard/controller.pub".
Definition BootPort : string := "2222".
Definition BootDNSVariable : string := "RUNNERYARD_DOCKER_DNS".

(** [^[a-z0-9]{1,64}$] *)
Definition safeMachineID (id : string) : bool :=
  negb (String.eqb id "") && (String.length id <=? 64)%nat
  && string_forallb (λ c, lower_byte c || digit_byte c) id.

Record HostSourceConfig := mkHostSourceConfig {
  hs_APIToken : string; hs_APIBaseURL : string; hs_App : string; hs_Region : string;
  hs_CPUKind : string; hs_CPUs : Z; hs_MemoryMB : Z; hs_VolumeGB : Z; hs_ControllerID : string;
  hs_Pool : string; hs_HourlyPrice : f64; hs_RunnerImage : string; hs_Slots : Z; hs_SlotCPUs : f64;
  hs_SlotMemoryMB : Z; hs_Caches : list string; hs_MinFreeDiskGB : Z; hs_DockerDNS : string;
  hs_HasHostKey : bool; hs_AuthorizedKey : string; hs_Retry : Policy;
  hs_PollInterval : duration; hs_StateTimeout : duration
}.

Record HostSource := mkHostSource {
  src_cfg : HostSourceConfig; api : Adapter; src_price : f64; src_imageTag : string;
  volumePrefix : string; src_dockerDNS : string
}.

(** Functions the source is given, or that the standard library computes. *)
Class HostKeys := mkHostKeys {
  (** [cfg.HostKey]: the private key and the public one of a name. *)
  hk_HostKey : string → error + (string * string);
  hk_Sum256 : string → string;
  (** [json.MarshalIndent] *)
  hk_HostJSON : HostAgent.Config → string
}.

Definition hostConfig (cfg : HostSourceConfig) (image : string) : HostAgent.Config :=
  mkHostConfig (hs_Slots cfg) image (hs_SlotCPUs cfg) (hs_SlotMemoryMB cfg) (hs_Caches cfg)
    (hs_MinFreeDiskGB cfg) (dataPath +:+ "/docker").

Section config.
Context `{!ParseIP, !HostKeys}.

Definition imageTag (image : string) : string := HexEncode (String.substring 0 8 (hk_Sum256 image)).

(** The configuration with its defaults, and the price of a host hour. *)
Definition listedPrice (cfg : HostSourceConfig) : string + f64 :=
  let price := hs_HourlyPrice cfg in
  if mantissa price <? 0 then inl "hourly price cannot be negative"
  else if mantissa price =? 0 then
    match HourlyPriceUSD (hs_CPUKind cfg) (hs_CPUs cfg) (hs_MemoryMB cfg) (hs_Region cfg) with
    | Some listed => inr listed
    | None => inl "no listed price multiplier for region; set hourly_price"
    end
  else inr price.

Definition withWaits (cfg : HostSourceConfig) : HostSourceConfig :=
  mkHostSourceConfig (hs_APIToken cfg)
    (if String.eqb (hs_APIBaseURL cfg) "" then "https://api.machines.dev" else hs_APIBaseURL cfg)
    (hs_App cfg) (hs_Region cfg) (hs_CPUKind cfg) (hs_CPUs cfg) (hs_MemoryMB cfg) (hs_VolumeGB cfg)
    (hs_ControllerID cfg) (hs_Pool cfg) (hs_HourlyPrice cfg) (hs_RunnerImage cfg) (hs_Slots cfg)
    (hs_SlotCPUs cfg) (hs_SlotMemoryMB cfg) (hs_Caches cfg) (hs_MinFreeDiskGB cfg) (hs_DockerDNS cfg)
    (hs_HasHostKey cfg) (hs_AuthorizedKey cfg) (hs_Retry cfg)
    (if hs_PollInterval cfg <=? 0 then defaultPoll else hs_PollInterval cfg)
    (if hs_StateTimeout cfg <=? 0 then defaultStateFor else hs_StateTimeout cfg).

Definition NewHostSource (cfg : HostSourceConfig) : string + HostSource :=
  if negb (ValidName (hs_Pool cfg)) then inl "fly pool name must be lowercase letters, digits, and hyphens"
  else if String.eqb (hs_APIToken cfg) "" || String.eqb (hs_App cfg) "" || String.eqb (hs_Region cfg) ""
          || String.eqb (hs_ControllerID cfg) ""
  then inl "fly pool requires a token, an app, a region, and a controller ID"
  else if negb (hs_HasHostKey cfg) || String.eqb (TrimSpace (hs_AuthorizedKey cfg)) ""
  then inl "fly pool requires the controller SSH key"
  else if negb (String.eqb (hs_CPUKind cfg) "shared") && negb (String.eqb (hs_CPUKind cfg) "performance")
  then inl "fly pool CPU kind must be shared or performance"
  else if (hs_CPUs cfg <? 1) || (hs_MemoryMB cfg <? 1024) || negb (Z.rem (hs_MemoryMB cfg) 256 =? 0)
  then inl "fly pool hosts need at least 1 CPU and 1024 MB of memory in steps of 256 MB"
  else if (hs_VolumeGB cfg <? minVolumeGB) || (maxVolumeGB <? hs_VolumeGB cfg)
  then inl "fly pool volume_gb must be between 10 and 500"
  else match Validate (hostConfig cfg (hs_RunnerImage cfg)) with
  | Some err => inl err
  | None =>
    match normalizeDockerDNS (hs_DockerDNS cfg) with
    | inl err => inl err
    | inr dockerDNS =>
      match listedPrice cfg with
      | inl err => inl err
      | inr price =>
        let cfg := withWaits cfg in
        let owner := hk_Sum256 (hs_ControllerID cfg +:+ "|" +:+ hs_Pool cfg) in
        inr (mkHostSource cfg
               (mkAdapter (TrimRightSlash (hs_APIBaseURL cfg)) (hs_App cfg) "" "" "" "" 0 0 0 ""
                  (Retry.withDefaults (hs_Retry cfg)))
               price (imageTag (hs_RunnerImage cfg))
               ("ry_" +:+ HexEncode (String.substring 0 4 owner) +:+ "_") dockerDNS)
      end
    end
  end.

(** * Machines and volumes *)

Record poolMachine := mkPoolMachine {
  pm_ID : string; pm_Name : string; pm_State : string; pm_Region : string; pm_PrivateIP : string;
  pm_CreatedAt : time; pm_UpdatedAt : time;
  pm_Image : string; pm_Metadata : gmap string string; pm_Mounts : list machineMount
}.
Definition noPoolMachine : poolMachine := mkPoolMachine "" "" "" "" "" zeroTime zeroTime "" ∅ [].

Record flyVolume := mkVolume {
  fv_ID : string; fv_Name : string; fv_State : string; AttachedMachineID : option string; fv_CreatedAt : time
}.
Definition noVolume : flyVolume := mkVolume "" "" "" None zeroTime.

Definition attached (v : flyVolume) : bool :=
  match AttachedMachineID v with Some id => negb (String.eqb id "") | None => false end.

Context (s : HostSource).

Definition Facts : PoolState.Facts := mkFacts BillingPerSecond (src_price s) "USD" true.

Definition owns (item : poolMachine) : bool :=
  let md := metadata (pm_Metadata item) in
  String.eqb (md poolHostKey) "true" && String.eqb (md controllerIDKey) (hs_ControllerID (src_cfg s))
  && String.eqb (md poolNameKey) (hs_Pool (src_cfg s)) && String.eqb (md managedByKey) "".

Definition hostState (state : string) : string :=
  if String.eqb state startedMachine then "running"
  else if String.eqb state stoppedMachine || String.eqb state "suspended" || String.eqb state "failed"
  then HostStopped
  else state.

Definition hostImage (item : poolMachine) : string :=
  let tag := metadata (pm_Metadata item) poolImageKey in
  if negb (String.eqb tag "") && negb (String.eqb (pm_Image item) "") && String.eqb (imageTag (pm_Image item)) tag
  then pm_Image item
  else if String.eqb tag (src_imageTag s) then hs_RunnerImage (src_cfg s)
  else if negb (String.eqb tag "") then "other-image@" +:+ tag
  else "".

Definition toHost (item : poolMachine) : error + Host :=
  match hk_HostKey (pm_Name item) with
  | inl err => inl (WrapError "derive host key" err)
  | inr (_, public) =>
    inr (mkHost (hostIDPrefix +:+ pm_ID item)
           (if String.eqb (pm_PrivateIP item) "" then "" else JoinHostPort (pm_PrivateIP item) BootPort)
           public (pm_CreatedAt item) (hostState (pm_State item)) (pm_UpdatedAt item) (hostImage item))
  end.

(** The loop of [List]: the hosts before, the last one first. *)
Fixpoint hostsFrom (machines : list poolMachine) (hosts : list Host) : error + list Host :=
  match machines with
  | [] => inr (rev hosts)
  | item :: machines =>
    if negb (owns item) || String.eqb (pm_State item) destroyingMachine || String.eqb (pm_State item) destroyedMachine
    then hostsFrom machines hosts
    else match toHost item with
         | inl err => inl err
         | inr host => hostsFrom machines (host :: hosts)
         end
  end.

Definition mountedVolumes (machines : list poolMachine) : list string :=
  concat (map (λ item, map Volume (pm_Mounts item)) machines).
End config.

(** * Operations *)

Class HostJSON := mkHostJSON {
  hj_machine : response → poolMachine * option error;
  hj_machines : response → list poolMachine * option error;
  hj_volume : response → flyVolume * option error;
  hj_volumes : response → list flyVolume * option error
}.

(** The clock, and four random bytes. *)
Class HostWorld (W : Type) := mkHostWorld {
  hw_Now : W → time * W;
  hw_Read : W → (error + string) * W
}.

Section source.
Context {W : Type} `{!CloudEnv flyBody W, !HostWorld W} {HK : HostKeys} {J : HostJSON} (s : HostSource).
(** The source keeps [sweptAt]. *)
Abbreviation P := (prog (cloudSys flyBody time W)).
Let cfg := src_cfg s.
Let a := api s.

Definition volumesURL : string := baseURL a +:+ "/v1/apps/" +:+ PathEscape (hs_App cfg) +:+ "/volumes".
Definition volumeURL (id : string) : string := volumesURL +:+ "/" +:+ PathEscape id.
Definition getHost (id : string) : request flyBody := mkRequest "GET" (machineURL a id) [] None.
Definition deleteHost (id : string) : request flyBody :=
  mkRequest "DELETE" (machineURL a id) [("force", "true")] None.
Definition moveHost (id verb : string) : request flyBody :=
  mkRequest "POST" (machineURL a id +:+ "/" +:+ verb) [] None.
Definition postHost (payload : createPoolMachineRequest) : request flyBody :=
  mkRequest "POST" (machinesURL a) [] (Some (CreatePoolMachine payload)).
Definition listHosts : request flyBody := mkRequest "GET" (machinesURL a) [] None.
Definition getVolume (id : string) : request flyBody := mkRequest "GET" (volumeURL id) [] None.
Definition deleteVolume (id : string) : request flyBody := mkRequest "DELETE" (volumeURL id) [] None.
Definition postVolume (payload : createVolumeRequest) : request flyBody :=
  mkRequest "POST" volumesURL [] (Some (CreateVolume payload)).
Definition listVolumes : request flyBody := mkRequest "GET" volumesURL [] None.

Definition attempts {T} (zero : T) (operation : P (T * option error)) : P (T * option error) :=
  retried (policy a) zero operation.

(** A request that reads no value. *)
Definition doNothing (r : request flyBody) : P (() * option error) := doJSON responseError r () None.

(** The same, where an object that is not there is as good as one deleted. *)
Definition doDelete (r : request flyBody) : P (() * option error) :=
  r ← doNothing r; mret ((), if notFound r.2 then None else r.2).

Definition machines : P (list poolMachine * option error) :=
  attempts [] (doJSON responseError listHosts [] (Some hj_machines)).

Definition machine (id : string) : P (error + poolMachine) :=
  r ← attempts noPoolMachine (doJSON responseError (getHost id) noPoolMachine (Some hj_machine));
  mret (match r.2 with
        | None => inr r.1
        | Some err => if notFound (Some err) then inl (Sentinel errMachineGone)
                      else inl (WrapError "look up Fly Machine" err)
        end).

Definition ownedMachine (hostID : string) : P (error + poolMachine) :=
  match CutPrefix hostIDPrefix hostID with
  | Some id =>
    if negb (safeMachineID id) then mret (inl (ErrorString "invalid Fly pool host id"))
    else
    r ← machine id;
    mret (match r with
          | inl err => inl err
          | inr item => if negb (owns s item) then inl (ErrorString "refusing to touch Fly Machine: not a host of the pool")
                        else inr item
          end)
  | None => mret (inl (ErrorString "invalid Fly pool host id"))
  end.

Definition findByName (name : string) : P (error + option poolMachine) :=
  r ← machines;
  mret (match r.2 with
        | Some err => inl (WrapError "confirm Fly pool host absence" err)
        | None => inr (List.find (λ item, String.eqb (pm_Name item) name && owns s item) r.1)
        end).

(** How many timers fire before the context of a wait is over. *)
Definition polls : nat := S (Z.to_nat (hs_StateTimeout cfg / hs_PollInterval cfg)).

Definition stillIn (want : string) : error := ErrorString ("machine not yet " +:+ want).

(** The loop of [waitState]; the result is the machine, or none when it is gone. *)
Fixpoint waitStateFrom (fuel : nat) (id want : string) : P (error + option poolMachine) :=
  match fuel with
  | O => mret (inl (stillIn want))
  | S fuel =>
    let poll : P (error + option poolMachine) :=
      on_err (sleepContext (hs_PollInterval cfg)) (λ _, mret (inl (stillIn want)))
        (waitStateFrom fuel id want) in
    r ← machine id;
    match r with
    | inl err =>
      if errors_is errMachineGone err
      then mret (if String.eqb want destroyedMachine then inr None else inl err)
      else poll
    | inr item => if String.eqb (pm_State item) want then mret (inr (Some item)) else poll
    end
  end.

Definition waitState (id want : string) : P (error + option poolMachine) := waitStateFrom polls id want.

(** ** Volumes *)

Definition volumes : P (list flyVolume * option error) :=
  attempts [] (doJSON responseError listVolumes [] (Some hj_volumes)).

Definition createVolume (name : string) (guest : guestConfig) : P (error + flyVolume) :=
  let payload := mkCreateVolume name (hs_Region cfg) (hs_VolumeGB cfg) true false guest in
  on_err Wait (λ err, mret (inl err))
    (r ← doJSON responseError (postVolume payload) noVolume (Some hj_volume);
     let confirm :=
       if String.eqb (fv_ID r.1) "" || negb (String.eqb (fv_Name r.1) name)
       then inl (ErrorString "the response is not the requested volume") else inr r.1 in
     match r.2 with
     | None => mret confirm
     | Some err =>
       if IsTransient err then
         l ← volumes;
         mret (match l.2 with
               | Some listErr => inl (JoinError [err; listErr])
               | None => match List.find (λ v, String.eqb (fv_Name v) name) l.1 with
                         | Some volume => inr volume
                         | None => inl err
                         end
               end)
       else mret (inl err)
     end).

(** A status of the API that a later attempt may not see again. *)
Definition heldStatus (err : error) : bool :=
  match errors_as as_status err with
  | Some (_, status) => negb ((500 <=? status) || (status =? 401) || (status =? 403))
  | None => false
  end.

(** The loop of [dropVolume]. *)
Fixpoint dropVolumeFrom (fuel : nat) (id : string) : P (option error) :=
  match fuel with
  | O => mret (Some (ErrorString "volume is still attached"))
  | S fuel =>
    let poll : P (option error) :=
      on_err (sleepContext (hs_PollInterval cfg)) (λ _, mret (Some (ErrorString "volume is still attached")))
        (dropVolumeFrom fuel id) in
    r ← attempts noVolume (doJSON responseError (getVolume id) noVolume (Some hj_volume));
    match r.2 with
    | Some err =>
      mret (if notFound (Some err) then None else Some (WrapError "look up volume" err))
    | None =>
      if String.eqb (fv_State r.1) destroyedMachine || String.eqb (fv_State r.1) "pending_destroy" then mret None
      else if negb (HasPrefix (fv_Name r.1) (volumePrefix s))
      then mret (Some (ErrorString "refusing to delete volume: not a volume of the pool"))
      else if attached r.1 then poll
      else
      d ← attempts () (doDelete (deleteVolume id));
      match d.2 with
      | None => mret None
      | Some err => if heldStatus err then poll else mret (Some (WrapError "delete volume" err))
      end
    end
  end.

Definition dropVolume (id : string) : P (option error) := dropVolumeFrom polls id.

(** A volume no Machine uses. *)
Definition orphaned (now : time) (mounted : list string) (v : flyVolume) : bool :=
  negb (negb (HasPrefix (fv_Name v) (volumePrefix s)) || bool_decide (fv_ID v ∈ mounted) || attached v
        || bool_decide (fv_State v ∈ [destroyingMachine; destroyedMachine; "pending_destroy"])
        || IsZero (fv_CreatedAt v) || (Sub now (fv_CreatedAt v) <? orphanVolumeAge)).

Fixpoint dropAll (ids : list string) : P () :=
  match ids with
  | [] => mret ()
  | id :: ids => _ ← dropVolume id; dropAll ids
  end.

(** The critical section of [sweepVolumes]: whether a sweep is due, which it then is no more. *)
Definition sweepDue (now : time) : P bool :=
  act (λ σ, if negb (IsZero (own σ)) && (Sub now (own σ) <? volumeSweepEvery) then (false, σ)
            else (true, mkCloudSys (cworld σ) (exchanges σ) now)).

Definition sweepVolumes (mounted : list string) : P () :=
  now ← cloudWorld hw_Now;
  due ← sweepDue now;
  if negb due then mret ()
  else
  l ← volumes;
  match l.2 with
  | Some _ => mret ()
  | None => dropAll (map fv_ID (List.filter (orphaned now mounted) l.1))
  end.

(** ** The source *)

Definition List : P (error + list Host) :=
  r ← machines;
  match r.2 with
  | Some err => mret (inl (WrapError "list Fly pool hosts" err))
  | None =>
    match hostsFrom s r.1 [] with
    | inl err => mret (inl err)
    | inr hosts => sweepVolumes (mountedVolumes r.1);; mret (inr hosts)
    end
  end.

(** The Machine a new host boots. *)
Definition hostRequest (name image volumeID privateKey : string) (guest : guestConfig) : createPoolMachineRequest :=
  mkCreatePool name (hs_Region cfg)
    (mkPoolConfig image guest
       [mkPoolProcess [hostBootEntrypoint; "host"; "boot"] "root"
          {[ BootDNSVariable := src_dockerDNS s ]} true]
       (list_to_map [(poolHostKey, "true"); (controllerIDKey, hs_ControllerID cfg);
                     (poolNameKey, hs_Pool cfg); (poolImageKey, imageTag image)])
       [mkMount volumeID dataPath]
       [mkFile ConfigPath (Base64 (hk_HostJSON (hostConfig cfg image) +:+ bytes [10]%nat)) 420;
        mkFile BootHostKeyPath (Base64 privateKey) 384;
        mkFile BootAuthorizedKeyPath (Base64 (TrimSpace (hs_AuthorizedKey cfg) +:+ bytes [10]%nat)) 420]
       false (mkRestart "no") (mkStop "SIGTERM" (30 * Second))).

(** After the volume is there. *)
Definition createMachine (name image volumeID privateKey : string) (guest : guestConfig) : P (error + Host) :=
  let failed (err : error) : P (error + Host) :=
    dropped ← dropVolume volumeID;
    mret (inl (JoinError (err :: option_list dropped))) in
  let finish (created : poolMachine) : P (error + Host) :=
    mret (if String.eqb (pm_ID created) "" || negb (owns s created)
          then inl (ErrorString "create Fly pool host: the response is not a Machine of this pool")
          else toHost s created) in
  on_err Wait (λ err, failed err)
    (r ← doJSON responseError (postHost (hostRequest name image volumeID privateKey guest)) noPoolMachine
           (Some hj_machine);
     match r.2 with
     | None => finish r.1
     | Some err =>
       if IsTransient err then
         found ← findByName name;
         match found with
         | inl lookupErr => mret (inl (JoinError [WrapError "create Fly pool host" err; lookupErr]))
         | inr (Some item) => finish item
         | inr None => failed (WrapError "create Fly pool host" err)
         end
       else failed (WrapError "create Fly pool host" err)
     end).

Definition Create (image : string) : P (error + Host) :=
  match Validate (hostConfig cfg image) with
  | Some err => mret (inl (ErrorString err))
  | None =>
    r ← cloudWorld hw_Read;
    match r with
    | inl err => mret (inl (WrapError "name pool host" err))
    | inr suffix =>
      let name := hostNamePrefix +:+ hs_Pool cfg +:+ "-" +:+ HexEncode suffix in
      match hk_HostKey name with
      | inl err => mret (inl (WrapError "derive host key" err))
      | inr (privateKey, _) =>
        let guest := mkGuest (hs_CPUs cfg) (hs_MemoryMB cfg) (hs_CPUKind cfg) in
        v ← createVolume (volumePrefix s +:+ HexEncode suffix) guest;
        match v with
        | inl err => mret (inl (WrapError "create volume of Fly pool host" err))
        | inr volume => createMachine name image (fv_ID volume) privateKey guest
        end
      end
    end
  end.

Definition Delete (hostID : string) : P (option error) :=
  r ← ownedMachine hostID;
  match r with
  | inl err => mret (if errors_is errMachineGone err then None else Some err)
  | inr item =>
    d ← attempts () (doDelete (deleteHost (pm_ID item)));
    match d.2 with
    | Some err => mret (Some (WrapError "delete Fly pool host" err))
    | None =>
      w ← waitState (pm_ID item) destroyedMachine;
      match w with
      | inl err => mret (Some (WrapError "delete Fly pool host" err))
      | inr _ => dropAll (map Volume (pm_Mounts item));; mret None
      end
    end
  end.

Definition transition (hostID verb want : string) : P (option error) :=
  r ← ownedMachine hostID;
  match r with
  | inl err => mret (Some (WrapError verb err))
  | inr item =>
    let onItsWay := if String.eqb want stoppedMachine then "stopping"
                    else if String.eqb want startedMachine then "starting" else "" in
    let wait : P (option error) :=
      w ← waitState (pm_ID item) want;
      mret (match w with inl err => Some (WrapError verb err) | inr _ => None end) in
    if negb (String.eqb (pm_State item) want) && negb (String.eqb (pm_State item) onItsWay) then
      d ← attempts () (doNothing (moveHost (pm_ID item) verb));
      match d.2 with
      | Some err => mret (Some (WrapError verb err))
      | None => wait
      end
    else wait
  end.

Definition Stop (hostID : string) : P (option error) := transition hostID "stop" stoppedMachine.
Definition Start (hostID : string) : P (option error) := transition hostID "start" startedMachine.
End source.
