(* ===== verification/FlyHostsTheorems.v ===== *)
(** What the source of Fly pool hosts touches: the Machines and volumes that the
    API itself showed to be the pool's, and nothing else of the app. *)

From S2P Require Import Prelude Program Provider Float64 GoStrings GoText Retry CloudHTTP CloudFacts.
From S2P Require Import PoolState HostAgent Fly FlyHosts.

#[local] Open Scope Z_scope.

Section touch.
Context {W : Type} `{!CloudEnv flyBody W, !HostWorld W} {HK : HostKeys} {J : HostJSON} (s : HostSource).
Abbreviation Σ := (cloudSys flyBody time W).
Abbreviation trace := (list (request flyBody * (error + response))).

(** The API showed the Machine, the volume of that ID. *)
Definition seenHost (item : poolMachine) (tr : trace) : Prop :=
  ∃ id answer, (getHost s id, answer) ∈ tr
    ∧ received responseError noPoolMachine (Some hj_machine) answer = (item, None).
Definition seenVolume (id : string) (v : flyVolume) (tr : trace) : Prop :=
  ∃ answer, (getVolume s id, answer) ∈ tr
    ∧ received responseError noVolume (Some hj_volume) answer = (v, None).

(** What a request needs to have been shown before it is sent. *)
Inductive allowed : request flyBody → trace → Prop :=
  | allowed_read r tr : rq_Method r = "GET"%string → allowed r tr
  | allowed_delete item tr : seenHost item tr → owns s item = true → allowed (deleteHost s (pm_ID item)) tr
  | allowed_move item verb tr : seenHost item tr → owns s item = true → allowed (moveHost s (pm_ID item) verb) tr
  | allowed_drop id v tr :
      seenVolume id v tr → HasPrefix (fv_Name v) (volumePrefix s) = true → attached v = false →
      allowed (deleteVolume s id) tr
  | allowed_volume payload tr :
      HasPrefix (cv_Name payload) (volumePrefix s) = true → allowed (postVolume s payload) tr
  | allowed_create payload tr :
      (∀ item, pm_Metadata item = pc_Metadata (cp_Config payload) → owns s item = true) →
      allowed (postHost s payload) tr.

#[export] Instance reads_touch : ReadsAllowed allowed.
Proof. intros r tr. apply allowed_read. Qed.

#[export] Instance grows_seenHost item : Grows (seenHost item).
Proof. intros l tr (id & ans & ? & ?). exists id, ans. split; [set_solver | done]. Qed.
#[export] Instance grows_seenVolume id v : Grows (seenVolume id v).
Proof. intros l tr (ans & ? & ?). exists ans. split; [set_solver | done]. Qed.

Abbreviation hspec := (spec (steps (justified allowed)) anyChange (λ _ : Σ, True)).
Abbreviation K := (K (justified allowed)).
Abbreviation keeps := (keeps (justified allowed)).

Lemma keeps_sweepDue now : keeps (sweepDue now : prog Σ bool).
Proof. apply keeps_own. intros [w tr l]. simpl. by destruct (_ && _). Qed.

Context (Hatt : 1 <= Attempts (policy (api s))).

Lemma machine_spec id Pr `{!Grows Pr} :
  hspec (K Pr) (machine s id)
    (λ r σ, match r with inr item => K (λ tr, Pr tr ∧ seenHost item tr) σ | inl _ => K Pr σ end).
Proof.
  unfold machine. eapply spec_bind; [by apply (K_get _ _ _ _ _ _ Pr) |].
  intros [item [err|]]; cbn [fst snd]; apply spec_ret; intros σ [[Hj HP] Hs].
  - by destruct (notFound _).
  - split; [done |]. split; [done |]. destruct (Hs eq_refl) as (answer & ? & ?). by exists id, answer.
Qed.

Lemma keeps_machine id : keeps (machine s id).
Proof.
  intros Pr HP. eapply spec_conseq; [by apply machine_spec | done |].
  intros [err|item] σ; [done |]. by intros [? [? _]].
Qed.

#[local] Hint Resolve keeps_sweepDue keeps_machine : touch.

Lemma keeps_machines : keeps (machines s).
Proof. unfold machines, attempts. keep. Qed.
Lemma keeps_volumes : keeps (volumes s).
Proof. unfold volumes, attempts. keep. Qed.
#[local] Hint Resolve keeps_machines keeps_volumes : touch.

Lemma keeps_findByName name : keeps (findByName s name).
Proof. unfold findByName. keep. Qed.

Lemma keeps_waitState id want : keeps (waitState s id want).
Proof. unfold waitState. induction (polls s) as [|n IH]; cbn [waitStateFrom]; keep. Qed.
#[local] Hint Resolve keeps_findByName keeps_waitState : touch.

(** ** Volumes *)

Lemma dropVolume_keeps id : keeps (dropVolume s id).
Proof.
  unfold dropVolume. induction (polls s) as [|n IH]; cbn [dropVolumeFrom]; [keep |]. intros Pr HP.
  assert (Hpoll : keeps (on_err (sleepContext (hs_PollInterval (src_cfg s)))
    (λ _, mret (Some (ErrorString "volume is still attached"))) (dropVolumeFrom s n id))) by keep.
  eapply spec_bind.
  { by apply (K_get _ _ _ _ _ _ Pr). }
  intros [v [err|]]; cbn [fst snd]; [by apply spec_ret; intros σ [? _] |].
  eapply (spec_conseq _ _ _ _ (K (λ tr, Pr tr ∧ seenVolume id v tr)) _ _ (λ _, K Pr)); [| |done].
  2:{ intros σ [[Hj HPr] Hs]. split; [done |]. split; [done | by destruct (Hs eq_refl) as (answer & ? & ?); exists answer]. }
  assert (Hdone : ∀ r : option error, hspec (K (λ tr, Pr tr ∧ seenVolume id v tr)) (mret r) (λ _, K Pr)).
  { intros r. apply spec_ret. by intros σ [? [? _]]. }
  assert (Hwait : hspec (K (λ tr, Pr tr ∧ seenVolume id v tr))
    (on_err (sleepContext (hs_PollInterval (src_cfg s)))
      (λ _, mret (Some (ErrorString "volume is still attached"))) (dropVolumeFrom s n id)) (λ _, K Pr)).
  { by apply keeps_first. }
  destruct (_ || _); [apply Hdone |]. destruct (HasPrefix (fv_Name v) (volumePrefix s)) eqn:Hp; [|apply Hdone].
  destruct (attached v) eqn:Hat; [done |]. cbn [negb]. eapply spec_bind.
  { apply K_retried_keep; [apply _ | done |]. unfold doDelete, doNothing. eapply spec_bind.
    - apply (K_doJSON_keep _ allowed); [apply _ |]. intros tr [_ Hs]. by eapply allowed_drop.
    - intros x. by apply spec_ret. }
  intros [[] [err|]]; cbn [fst snd]; [|apply Hdone]. destruct (heldStatus err); [done | apply Hdone].
Qed.
#[local] Hint Resolve dropVolume_keeps : touch.

Lemma keeps_dropAll ids : keeps (dropAll s ids).
Proof. induction ids as [|id ids IH]; cbn [dropAll]; keep. Qed.
#[local] Hint Resolve keeps_dropAll : touch.

Lemma keeps_sweepVolumes mounted : keeps (sweepVolumes s mounted).
Proof. unfold sweepVolumes. keep. Qed.
#[local] Hint Resolve keeps_sweepVolumes : touch.

Lemma keeps_List : keeps (List s).
Proof. unfold List. keep. Qed.

Lemma keeps_createVolume name guest :
  HasPrefix name (volumePrefix s) = true → keeps (createVolume s name guest).
Proof.
  intros Hn. unfold createVolume. keep. intros Pr HP. apply (K_doJSON_keep _ allowed); [done |].
  intros tr _. by apply allowed_volume.
Qed.

Lemma hostRequest_owned name image volumeID key guest item :
  pm_Metadata item = pc_Metadata (cp_Config (hostRequest s name image volumeID key guest)) → owns s item = true.
Proof.
  intros H. unfold owns, metadata. rewrite H. cbn [pc_Metadata cp_Config hostRequest]. simplify_map_eq.
  by rewrite !String.eqb_refl.
Qed.

Lemma keeps_createMachine name image volumeID key guest :
  keeps (createMachine s name image volumeID key guest).
Proof.
  unfold createMachine. keep. intros Pr HP. apply (K_doJSON_keep _ allowed); [done |].
  intros tr _. apply allowed_create. apply hostRequest_owned.
Qed.
#[local] Hint Resolve keeps_createMachine keeps_List : touch.

Lemma keeps_Create image : keeps (Create s image).
Proof. unfold Create. keep. apply keeps_createVolume, HasPrefix_app. Qed.

(** ** Machines *)

Lemma ownedMachine_spec hostID Pr `{!Grows Pr} :
  hspec (K Pr) (ownedMachine s hostID)
    (λ r σ, match r with
            | inr item => owns s item = true ∧ K (λ tr, Pr tr ∧ seenHost item tr) σ
            | inl _ => K Pr σ
            end).
Proof.
  unfold ownedMachine. destruct (CutPrefix _ _) as [id|]; [|by apply spec_ret].
  destruct (negb (safeMachineID id)); [by apply spec_ret |].
  eapply spec_bind; [by apply machine_spec |]. intros [err|item]; [by apply spec_ret |].
  apply spec_ret. destruct (owns s item) eqn:Ho; cbn [negb]; [by intros σ | by intros σ [? [? _]]].
Qed.

Lemma keeps_Delete hostID : keeps (Delete s hostID).
Proof.
  intros Pr HP. unfold Delete. eapply spec_bind; [by apply ownedMachine_spec |].
  intros [err|item]; [by apply spec_ret |].
  eapply (spec_because _ _ _ (owns s item = true) _ (K (λ tr, Pr tr ∧ seenHost item tr))); [by intros σ [? ?] |]. intros Ho.
  eapply spec_bind.
  { apply K_retried_keep; [apply _ | done |]. unfold doDelete, doNothing. eapply spec_bind.
    - apply (K_doJSON_keep _ allowed); [apply _ |]. intros tr [_ Hs]. by apply allowed_delete.
    - intros x. by apply spec_ret. }
  intros [[] [err|]]; cbn [fst snd]; [apply spec_ret; by intros σ [? [? _]] |].
  apply keeps_first; [done |]. keep.
Qed.

Lemma keeps_transition hostID verb want : keeps (transition s hostID verb want).
Proof.
  intros Pr HP. unfold transition. eapply spec_bind; [by apply ownedMachine_spec |].
  intros [err|item]; [by apply spec_ret |].
  eapply (spec_because _ _ _ (owns s item = true) _ (K (λ tr, Pr tr ∧ seenHost item tr))); [by intros σ [? ?] |]. intros Ho.
  set (wait := w ← waitState s (pm_ID item) want; mret _).
  assert (Hwait : hspec (K (λ tr, Pr tr ∧ seenHost item tr)) wait (λ _, K Pr)).
  { apply keeps_first; [done |]. unfold wait. keep. }
  destruct (_ && _); [|exact Hwait]. eapply spec_bind.
  { apply K_retried_keep; [apply _ | done |]. unfold doNothing.
    apply (K_doJSON_keep _ allowed); [apply _ |]. intros tr [_ Hs]. by apply allowed_move. }
  intros [[] [err|]]; cbn [fst snd]; [apply spec_ret; by intros σ [? [? _]] | exact Hwait].
Qed.

(** ** Any operation *)

(** What the pool asks of its source. *)
Inductive operation :=
  | OpList | OpCreate (image : string) | OpDelete (hostID : string)
  | OpStop (hostID : string) | OpStart (hostID : string).

Definition runOperation (o : operation) : prog Σ () :=
  match o with
  | OpList => List s;; mret ()
  | OpCreate image => Create s image;; mret ()
  | OpDelete hostID => Delete s hostID;; mret ()
  | OpStop hostID => Stop s hostID;; mret ()
  | OpStart hostID => Start s hostID;; mret ()
  end.

Lemma keeps_runOperation o : keeps (runOperation o).
Proof.
  destruct o; unfold runOperation, Stop, Start; keep;
    [apply keeps_Create | apply keeps_Delete | apply keeps_transition..].
Qed.
End touch.

Lemma NewHostSource_policy `{!ParseIP, !HostKeys} cfg s :
  NewHostSource cfg = inr s → 1 <= Attempts (policy (api s)).
Proof.
  unfold NewHostSource. intros Hs. repeat case_match; simplify_eq; cbn [api policy];
    by destruct (withDefaults_sane (hs_Retry cfg)) as (? & _).
Qed.

(** C22: The source of a Fly pool touches only what is the pool's.  Whatever the
    API answers, and with any number of its operations in progress, every Machine
    it deletes, stops or starts is one that the API showed it carrying the pool's
    three labels and no worker's; every volume it deletes was shown with the pool's
    prefix and attached to nothing; and what it creates carries those labels and
    that prefix. *)
Theorem fly_hosts_touch_own {W} `{!CloudEnv flyBody W, !HostWorld W, !ParseIP} {HK : HostKeys} {J : HostJSON}
    cfg s o (σ σ' : cloudSys flyBody time W) x :
  NewHostSource cfg = inr s →
  interleaved (steps (justified (allowed s))) (runOperation s o) σ x σ' →
  justified (allowed s) (exchanges σ) → justified (allowed s) (exchanges σ').
Proof.
  intros Hs Hrun Hj. apply NewHostSource_policy in Hs.
  by apply (keeps_run (justified (allowed s)) (runOperation s o) σ x σ'); [apply keeps_runOperation | |].
Qed.

(** * An API to try it on *)

Module FlyHostsDemo.

#[global] Instance literalIPs : ParseIP := Some.
#[global] Instance keys : HostKeys :=
  mkHostKeys (λ name, inr ("private " +:+ name, "public " +:+ name)%string) (λ text, text) (λ _, "{}"%string).

Definition cfg : HostSourceConfig :=
  mkHostSourceConfig "token" "" "pool-app" "cdg" "performance" 2 4096 50 "c1" "fast" f64_zero
    "registry/image" 2 f64_zero 0 [] 0 "" true "ssh-ed25519 AAAA" (mkPolicy 0 0 0 DefaultRate 0) 0 0.

Definition source : HostSource :=
  match NewHostSource cfg with
  | inr s => s
  | inl _ => mkHostSource cfg (mkAdapter "" "" "" "" "" "" 0 0 0 "" (Retry.withDefaults (hs_Retry cfg))) f64_zero "" "" ""
  end.

Definition host : poolMachine :=
  mkPoolMachine "m1" "ry-fast-00" "started" "cdg" "fdaa::1" (UnixTime 0) (UnixTime 0) "registry/image"
    (list_to_map [(poolHostKey, "true"); (controllerIDKey, "c1"); (poolNameKey, "fast")])%string
    [mkMount "vol1" dataPath].
Definition volume : flyVolume := mkVolume "vol1" (volumePrefix source +:+ "00") "created" None (UnixTime 0).

#[global] Instance answers : HostJSON :=
  mkHostJSON (λ _, (host, None)) (λ _, ([host], None)) (λ _, (volume, None)) (λ _, ([volume], None)).

(** The world: whether the Machine is deleted. *)
Definition serve (r : request flyBody) (deleted : bool) : (error + response) * bool :=
  let ok := inr (mkResponse 200 "" None) in
  if String.eqb (rq_Method r) "DELETE" then (ok, true)
  else if deleted && String.eqb (rq_URL r) (machineURL (api source) "m1")
  then (inr (mkResponse 404 "machine not found" None), deleted)
  else (ok, deleted).

#[global] Instance network : CloudEnv flyBody bool :=
  mkCloudEnv _ _ (λ _, None) serve (λ w, (None, w)) (λ _ w, (None, w)) (λ w, (f64_zero, w)).
#[global] Instance clock : HostWorld bool := mkHostWorld _ (λ w, (UnixTime 3600, w)) (λ w, (inr "abcd"%string, w)).

Definition start : cloudSys flyBody time bool := mkCloudSys false [] zeroTime.

(** Deleting a host: look, delete, look again, then its volume. *)
Example delete_requests :
  map (λ x, rq_Method x.1) (exchanges (execP (Delete source "fly-m1") start))
  = ["DELETE"; "GET"; "GET"; "DELETE"; "GET"]%string ∧ evalP (Delete source "fly-m1") start = None.
Proof. vm_compute. done. Qed.

End FlyHostsDemo.

Lemma fly_hosts_touch_own_witness :
  let s := FlyHostsDemo.source in
  justified (allowed s) (exchanges (execP (runOperation s (OpDelete "fly-m1")) FlyHostsDemo.start)).
Proof.
  refine (fly_hosts_touch_own FlyHostsDemo.cfg FlyHostsDemo.source (OpDelete "fly-m1") FlyHostsDemo.start _ _ _
            (interleaved_alone (steps (justified (allowed FlyHostsDemo.source))) _ _) _); [reflexivity | exact I].
Defined.
