(* ===== verification/Hetzner.v ===== *)
(** The Hetzner Cloud adapter (src/providers/hetzner/adapter.go): one-job workers,
    each a server that is powered on only behind its firewall.

    The list of servers comes in pages, as many as the API says; [pages] bounds
    how many are read, and any bound that suffices gives the same
    ([eachServer_complete] of [HetznerTheorems]).  A wait for an action polls until
    its context is over: a timer never fires early, so that
    [actionTimeout/actionPollInterval] polls and one more outlast it. *)

From S2P Require Import Prelude Program Provider Float64 GoStrings GoText Retry CloudHTTP HostAgent.

#[local] Open Scope string_scope.
#[local] Open Scope Z_scope.

(** * Configuration *)

Definition managedByKey : string := "runneryard-managed-by".
Definition controllerIDKey : string := "runneryard-controller".
Definition leaseIDKey : string := "runneryard-lease-id".
Definition runnerNameKey : string := "runneryard-runner-name".
Definition runnerIDKey : string := "runneryard-runner-id".
Definition runnerScaleSetIDKey : string := "runneryard-runner-scale-set-id".
Definition poolHostKey : string := "runneryard-pool-host".
Definition defaultActionTimeout : duration := 3 * Minute.

Record Config := mkConfig {
  cf_APIToken : string; cf_APIBaseURL : string; cf_Location : string; cf_ServerType : string;
  cf_ServerImage : string; cf_RunnerImage : string; cf_ControllerID : string; cf_FirewallID : Z;
  cf_NetworkID : Z; cf_ActionPollInterval : duration; cf_ActionTimeout : duration; cf_Retry : Policy
}.

Record Adapter := mkAdapter {
  baseURL : string; location : string; serverType : string; serverImage : string;
  runnerImage : string; controllerID : string; firewallID : Z; networkID : Z;
  actionPollInterval : duration; actionTimeout : duration; policy : Policy
}.

Definition New (cfg : Config) : string + Adapter :=
  if String.eqb (cf_APIToken cfg) "" || String.eqb (cf_Location cfg) "" || String.eqb (cf_ServerType cfg) ""
     || String.eqb (cf_ServerImage cfg) "" || String.eqb (cf_RunnerImage cfg) "" || String.eqb (cf_ControllerID cfg) ""
  then inl "hetzner token, location, server type, server image, runner image, and controller ID are required"
  else if cf_FirewallID cfg <? 1 then inl "hetzner worker firewall ID is required"
  else if negb (safeLabelValue (cf_ControllerID cfg))
  then inl "hetzner controller ID must be a valid label value of at most 63 characters"
  else if cf_NetworkID cfg <? 0 then inl "hetzner network ID cannot be negative"
  else
    let base := if String.eqb (cf_APIBaseURL cfg) "" then "https://api.hetzner.cloud/v1" else cf_APIBaseURL cfg in
    inr (mkAdapter (TrimRightSlash base) (cf_Location cfg) (cf_ServerType cfg) (cf_ServerImage cfg)
           (cf_RunnerImage cfg) (cf_ControllerID cfg) (cf_FirewallID cfg) (cf_NetworkID cfg)
           (if cf_ActionPollInterval cfg <=? 0 then 500 * Millisecond else cf_ActionPollInterval cfg)
           (if cf_ActionTimeout cfg <=? 0 then defaultActionTimeout else cf_ActionTimeout cfg)
           (Retry.withDefaults (cf_Retry cfg))).

(** * Servers and actions *)

Record serverFirewall := mkFirewall { fw_ID : Z; fw_Status : string }.

Record server := mkServer {
  sv_ID : Z; sv_Name : string; sv_Status : string; sv_CreatedAt : time;
  sv_Labels : gmap string string; sv_IPv4 : string; sv_Firewalls : list serverFirewall
}.
Definition noServer : server := mkServer 0 "" "" zeroTime ∅ "" [].

Record action := mkAction { ac_ID : Z; ac_Status : string; ac_Error : option (string * string) }.
Definition noAction : action := mkAction 0 "" None.

Record createServerRequest := mkCreateServer {
  cs_Name : string; cs_ServerType : string; cs_Image : string; cs_Location : string;
  UserData : string; StartAfterCreate : bool; cs_Labels : gmap string string;
  cs_Firewalls : list Z; Networks : list Z; EnableIPv4 : bool; EnableIPv6 : bool
}.

Record createServerResponse := mkCreated { cr_Server : server; cr_Action : action; NextActions : list action }.
Definition noCreated : createServerResponse := mkCreated noServer noAction [].

Record serverListResponse := mkServerList { Servers : list server; NextPage : option Z }.

(** [item.Labels[key]] *)
Definition label (m : gmap string string) (key : string) : string := default "" (m !! key).

Definition firewallApplied (item : server) (firewallID : Z) : bool :=
  existsb (λ f, (fw_ID f =? firewallID) && String.eqb (fw_Status f) "applied") (sv_Firewalls item).

Definition toWorker (item : server) : Worker :=
  let l := label (sv_Labels item) in
  mkWorker (Itoa (sv_ID item)) (l leaseIDKey) (l runnerNameKey) (ParseInt (l runnerIDKey)).1
    (ParseInt (l runnerScaleSetIDKey)).1 (sv_Status item) (sv_CreatedAt item).

Definition withLeaseProof (w : Worker) (lease : Lease) : Worker :=
  mkWorker (ID w)
    (if String.eqb (LeaseID w) "" then lease_ID lease else LeaseID w)
    (if String.eqb (RunnerName w) "" then lease_RunnerName lease else RunnerName w)
    (if RunnerID w =? 0 then lease_RunnerID lease else RunnerID w)
    (if RunnerScaleSetID w =? 0 then lease_RunnerScaleSetID lease else RunnerScaleSetID w)
    (State w) (CreatedAt w).

(** * The first boot of a worker *)

(** A script with its double quotes written as tildes, of which it has none. *)
Definition script (text : string) : string := replaceByte "~" (ascii_of_nat 34) text.

Definition bootstrap : string := script
"set -Eeuo pipefail
image=$1
runner_name=$2
lease_file=/etc/runneryard/lease.env
container=runneryard-worker
cleanup() {
  shred -u ~$lease_file~ 2>/dev/null || rm -f ~$lease_file~
  docker rm --force ~$container~ >/dev/null 2>&1 || true
  shutdown -h now >/dev/null 2>&1 || true
}
trap cleanup EXIT
docker pull ~$image~
docker create \
  --name ~$container~ \
  --hostname ~$runner_name~ \
  --privileged \
  --env-file ~$lease_file~ \
  --entrypoint /usr/bin/dumb-init \
  ~$image~ -- /usr/local/bin/runner-entrypoint >/dev/null
shred -u ~$lease_file~ 2>/dev/null || rm -f ~$lease_file~
set +e
docker start --attach ~$container~
runner_status=$?
set -e
exit ~$runner_status~".

Definition newline : string := bytes [10]%nat.

(** The environment file of the runner. *)
Definition leaseFile (lease : Lease) : string :=
  "ACTIONS_RUNNER_INPUT_JITCONFIG=" +:+ JITConfig lease +:+ newline
  +:+ "RUNNERYARD_DEADLINE=" +:+ FormatRFC3339 (Deadline lease) +:+ newline
  +:+ "RUNNERYARD_IDLE_TIMEOUT=" +:+ Itoa (Z.quot (IdleTimeout lease) Second) +:+ newline.

Definition renderCloudInit (lease : Lease) (runnerImage : string) : string :=
  let cloudConfig := JObject [
    ("write_files", JArray [JObject [
       ("path", JString "/etc/runneryard/lease.env"); ("owner", JString "root:root");
       ("permissions", JString "0600"); ("encoding", JString "b64");
       ("content", JString (Base64 (leaseFile lease)))]]);
    ("runcmd", JArray [JArray (map JString
       ["bash"; "-lc"; bootstrap; "runneryard-bootstrap"; runnerImage; lease_RunnerName lease])])] in
  "#cloud-config" +:+ newline +:+ Marshal cloudConfig +:+ newline.

(** * Operations *)

Definition statusError (provider : string) (status : Z) (message : string) : error :=
  default (ErrorString "") (ClassifyStatus provider status message).

Definition responseError (resp : response) : error :=
  match rs_ReadErr resp with
  | Some readErr => JoinError [statusError "hetzner" (StatusCode resp) ""; readErr]
  | None => statusError "hetzner" (StatusCode resp) (TrimSpace (errorText resp))
  end.

Class HetznerJSON := mkHetznerJSON {
  zj_created : response → createServerResponse * option error;
  zj_server : response → server * option error;
  zj_action : response → action * option error;
  zj_servers : response → serverListResponse * option error
}.

Section adapter.
Context {L W : Type} `{!CloudEnv createServerRequest W} {J : HetznerJSON} (pages : nat) (a : Adapter).
Abbreviation P := (prog (cloudSys createServerRequest L W)).

Definition serversURL : string := baseURL a +:+ "/servers".
Definition serverURL (id : string) : string := serversURL +:+ "/" +:+ id.
Definition postServer (payload : createServerRequest) : request createServerRequest :=
  mkRequest "POST" serversURL [] (Some payload).
Definition getServer (id : Z) : request createServerRequest := mkRequest "GET" (serverURL (Itoa id)) [] None.
Definition powerOn (id : Z) : request createServerRequest :=
  mkRequest "POST" (serverURL (Itoa id) +:+ "/actions/poweron") [] None.
Definition getAction (id : Z) : request createServerRequest :=
  mkRequest "GET" (baseURL a +:+ "/actions/" +:+ Itoa id) [] None.
Definition deleteServer (id : string) : request createServerRequest :=
  mkRequest "DELETE" (serverURL (PathEscape id)) [] None.
Definition listPage (selector : string) (page : Z) : request createServerRequest :=
  mkRequest "GET" serversURL [("label_selector", selector); ("page", Itoa page); ("per_page", "50")] None.

(** ** Lists *)

(** The loop of [eachServer]: the servers of the pages from [page] on. *)
Fixpoint eachServerFrom (fuel : nat) (selector : string) (page : Z) : P (error + list server) :=
  match fuel with
  | O => mret (inl (ErrorString "too many pages"))
  | S fuel =>
    match ce_NewRequest serversURL with
    | Some err => mret (inl (WrapError "build Hetzner inventory URL" err))
    | None =>
      r ← retried (policy a) (mkServerList [] None)
            (doJSON responseError (listPage selector page) (mkServerList [] None) (Some zj_servers));
      match r.2 with
      | Some err => mret (inl (WrapError "list Hetzner servers" err))
      | None =>
        match NextPage r.1 with
        | None => mret (inr (Servers r.1))
        | Some page =>
          rest ← eachServerFrom fuel selector page;
          mret (match rest with inl err => inl err | inr rest => inr (app (Servers r.1) rest) end)
        end
      end
    end
  end.

Definition eachServer (selector : string) : P (error + list server) := eachServerFrom pages selector 1.

Definition owned (item : server) : bool :=
  let l := label (sv_Labels item) in
  String.eqb (l managedByKey) "true" && String.eqb (l controllerIDKey) (controllerID a)
  && String.eqb (l poolHostKey) "".

Definition listServers (selector : string) : P (error + list Worker) :=
  r ← eachServer selector;
  mret (match r with
        | inl err => inl err
        | inr servers => inr (map toWorker (List.filter owned servers))
        end).

Definition Inventory : P (error + list Worker) :=
  listServers (managedByKey +:+ "=true," +:+ controllerIDKey +:+ "=" +:+ controllerID a).

Definition findByLease (leaseID : string) : P (error + option Worker) :=
  if negb (safeLabelValue leaseID) then mret (inl (ErrorString "lease id is not a valid label value"))
  else
  r ← listServers (managedByKey +:+ "=true," +:+ controllerIDKey +:+ "=" +:+ controllerID a +:+ ","
                   +:+ leaseIDKey +:+ "=" +:+ leaseID);
  mret (match r with
        | inl err => inl err
        | inr workers => inr (List.find (λ w, String.eqb (LeaseID w) leaseID) workers)
        end).

(** ** Actions *)

(** How many timers fire before the context of a wait is over. *)
Definition polls : nat := S (Z.to_nat (actionTimeout a / actionPollInterval a)).

Fixpoint waitActionFrom (fuel : nat) (current : action) : P (option error) :=
  match fuel with
  | O => mret (Some (Sentinel DeadlineExceeded))
  | S fuel =>
    if String.eqb (ac_Status current) "success" then mret None
    else if String.eqb (ac_Status current) "error" then mret (Some (ErrorString "hetzner action failed"))
    else if negb (String.eqb (ac_Status current) "running") && negb (String.eqb (ac_Status current) "")
    then mret (Some (ErrorString "hetzner action has unknown status"))
    else
    on_err (sleepContext (actionPollInterval a)) (λ err, mret (Some err))
      (r ← retried (policy a) noAction
             (doJSON responseError (getAction (ac_ID current)) noAction (Some zj_action));
       match r.2 with
       | Some err => mret (Some (WrapError "poll Hetzner action" err))
       | None => waitActionFrom fuel r.1
       end)
  end.

Definition waitAction (current : action) : P (option error) := waitActionFrom polls current.

Fixpoint waitActions (actions : list action) : P (option error) :=
  match actions with
  | [] => mret None
  | current :: actions =>
    if ac_ID current <? 1 then mret (Some (ErrorString "hetzner response did not include an action id"))
    else on_err (waitAction current) (λ err, mret (Some err)) (waitActions actions)
  end.

(** ** Launch *)

Definition launchRequest (lease : Lease) : createServerRequest :=
  mkCreateServer (lease_RunnerName lease) (serverType a) (serverImage a) (location a)
    (renderCloudInit lease (runnerImage a)) false
    (list_to_map
       [(managedByKey, "true"); (controllerIDKey, controllerID a); (leaseIDKey, lease_ID lease);
        (runnerNameKey, lease_RunnerName lease); (runnerIDKey, Itoa (lease_RunnerID lease));
        (runnerScaleSetIDKey, Itoa (lease_RunnerScaleSetID lease))])
    [firewallID a] (if 0 <? networkID a then [networkID a] else []) true true.

(** The loop of [createServer] from attempt [attempt] on. *)
Fixpoint createServerFrom (fuel : nat) (lease : Lease) (payload : createServerRequest) (attempt : Z)
    (lastErr : option error) : P (error + createServerResponse) :=
  match fuel with
  | O => mret (inl (default (ErrorString "") lastErr))
  | S fuel =>
    on_err Wait (λ err, mret (inl err))
      (r ← doJSON responseError (postServer payload) noCreated (Some zj_created);
       let created := r.1 in
       match r.2 with
       | None =>
         mret (if sv_ID (cr_Server created) =? 0
               then inl (ErrorString "create Hetzner worker: response did not include a server id")
               else inr created)
       | Some err =>
         if negb (sv_ID (cr_Server created) =? 0)
         then mret (inl (PartialLaunchError (withLeaseProof (toWorker (cr_Server created)) lease) err))
         else
         let lastErr := WrapError "create Hetzner worker" err in
         if negb (IsTransient err) then mret (inl lastErr)
         else
         found ← findByLease (lease_ID lease);
         match found with
         | inl lookupErr =>
           mret (inl (JoinError [lastErr; WrapError "confirm Hetzner worker absence before retry" lookupErr]))
         | inr (Some existing) => mret (inl (PartialLaunchError (withLeaseProof existing lease) lastErr))
         | inr None =>
           if attempt =? Attempts (policy a) then mret (inl lastErr)
           else
           x ← random;
           on_err (sleepContext (Backoff (policy a) x attempt)) (λ err, mret (inl (JoinError [lastErr; err])))
             (createServerFrom fuel lease payload (attempt + 1) (Some lastErr))
         end
       end)
  end.

Definition createServer (lease : Lease) (payload : createServerRequest) : P (error + createServerResponse) :=
  createServerFrom (Z.to_nat (Attempts (policy a))) lease payload 1 None.

(** [Launch] once the server is created. *)
Definition qualifyWorker (lease : Lease) (created : createServerResponse) : P (error + Worker) :=
  let worker := withLeaseProof (toWorker (cr_Server created)) lease in
  let id := sv_ID (cr_Server created) in
  let partial (err : error) : P (error + Worker) := mret (inl (PartialLaunchError worker err)) in
  on_err (waitActions (cr_Action created :: NextActions created))
    (λ err, partial (WrapError "qualify Hetzner worker" err))
    (q ← doJSON responseError (getServer id) noServer (Some zj_server);
     match q.2 with
     | Some err => partial (WrapError "verify Hetzner worker firewall" err)
     | None =>
       if negb (firewallApplied q.1 (firewallID a)) then partial (ErrorString "required firewall is not applied")
       else
       p ← doJSON responseError (powerOn id) noAction (Some zj_action);
       match p.2 with
       | Some err => partial (WrapError "power on qualified Hetzner worker" err)
       | None =>
         on_err (waitActions [p.1]) (λ err, partial (WrapError "power on qualified Hetzner worker" err))
           (r ← doJSON responseError (getServer id) noServer (Some zj_server);
            match r.2 with
            | Some err => partial (WrapError "confirm powered-on Hetzner worker" err)
            | None =>
              if negb (String.eqb (sv_Status r.1) "running")
              then partial (ErrorString "powered-on Hetzner worker is not running")
              else mret (inr (withLeaseProof (toWorker r.1) lease))
            end)
       end
     end).

Definition Launch (lease : Lease) : P (error + Worker) :=
  created ← createServer lease (launchRequest lease);
  match created with
  | inl err => mret (inl err)
  | inr created => qualifyWorker lease created
  end.

(** ** Destroy *)

(** One attempt to delete: the action that deletes, if there is one to wait for. *)
Definition deleteOnce (workerID : string) : P (action * option error) :=
  match ce_NewRequest (serverURL (PathEscape workerID)) with
  | Some err => mret (noAction, Some (WrapError "build delete request" err))
  | None =>
    answer ← send (deleteServer workerID);
    mret (match answer with
          | inl err => (noAction, ClassifyRequestError (Some err))
          | inr resp =>
            if (StatusCode resp =? 404) || (StatusCode resp =? 204) then (noAction, None)
            else if negb (success (StatusCode resp)) then (noAction, Some (responseError resp))
            else let '(deleted, err) := zj_action resp in
                 (deleted, option_map (WrapError "decode Hetzner delete action") err)
          end)
  end.

Definition Destroy (workerID : string) : P (option error) :=
  if String.eqb workerID "" then mret None
  else if negb (ParseInt workerID).2 then mret (Some (ErrorString "invalid Hetzner worker id"))
  else
  r ← retried (policy a) noAction (deleteOnce workerID);
  match r.2 with
  | Some err => mret (Some (WrapError "delete Hetzner worker" err))
  | None =>
    if ac_ID r.1 =? 0 then mret None
    else
    waited ← waitActions [r.1];
    mret (option_map (WrapError "delete Hetzner worker") waited)
  end.
End adapter.
