(* ===== verification/HetznerHosts.v ===== *)
(** Pool hosts on Hetzner Cloud servers (src/providers/hetzner/hostsource.go) and
    their prices (src/providers/hetzner/prices.go).

    The derivation of host keys and the random suffix of a name are parameters, and
    so is [strconv.FormatFloat] by way of [GoText]. *)

From S2P Require Import Prelude Program Provider Float64 GoStrings GoText Retry CloudHTTP PoolState.
From S2P Require Import HostAgent Hetzner.

#[local] Open Scope string_scope.
#[local] Open Scope Z_scope.

(** * Prices *)

Definition hourlyEUR : list (string * f64) :=
  [("cx33", of_ratio 136 10000); ("cx53", of_ratio 473 10000); ("cpx22", of_ratio 312 10000);
   ("cpx32", of_ratio 569 10000); ("cpx42", of_ratio 1114 10000); ("ccx33", of_ratio 2219 10000)].

Definition HourlyPriceEUR (serverType : string) : option f64 :=
  snd <$> List.find (λ p, String.eqb p.1 serverType) hourlyEUR.

(** * Configuration *)

Definition poolNameKey : string := "runneryard-pool".
Definition hostIDPrefix : string := "hetzner-".
Definition hostNamePrefix : string := "ry-".
Definition sshPort : string := "22".

Record HostSourceConfig := mkHostSourceConfig {
  hs_APIToken : string; hs_APIBaseURL : string; hs_Location : string; hs_ServerType : string;
  hs_ServerImage : string; hs_ControllerID : string; hs_Pool : string; hs_FirewallID : Z;
  hs_NetworkID : Z; hs_HourlyPrice : f64; hs_RunnerImage : string; hs_Slots : Z; hs_SlotCPUs : f64;
  hs_SlotMemoryMB : Z; hs_Caches : list string; hs_MinFreeDiskGB : Z; hs_HasHostKey : bool;
  hs_AuthorizedKey : string; hs_ActionPollInterval : duration; hs_ActionTimeout : duration;
  hs_Retry : Policy
}.

Record HostSource := mkHostSource { src_cfg : HostSourceConfig; api : Adapter; src_price : f64 }.

(** Neither empty nor with a space, a tab, a line break or a quote. *)
Definition plainPath (path : string) : bool :=
  negb (String.eqb path "")
  && string_forallb (λ c, negb (containsByte c (bytes [32; 9; 13; 10; 39; 34]%nat))) path.

Definition listedPrice (cfg : HostSourceConfig) : string + f64 :=
  let price := hs_HourlyPrice cfg in
  if mantissa price <? 0 then inl "hourly price cannot be negative"
  else if mantissa price =? 0 then
    match HourlyPriceEUR (hs_ServerType cfg) with
    | Some listed => inr listed
    | None => inl "no listed price for server type; set hourly_price"
    end
  else inr price.

Definition NewHostSource (cfg : HostSourceConfig) : string + HostSource :=
  if negb (ValidName (hs_Pool cfg)) then inl "hetzner pool name must be lowercase letters, digits, and hyphens"
  else if negb (hs_HasHostKey cfg) || String.eqb (TrimSpace (hs_AuthorizedKey cfg)) ""
  then inl "hetzner pool requires the controller SSH key"
  else if hs_Slots cfg <? 1 then inl "hetzner pool requires at least one slot per host"
  else if negb (f64_le f64_zero (hs_SlotCPUs cfg)) || (hs_SlotMemoryMB cfg <? 0) || (hs_MinFreeDiskGB cfg <? 0)
  then inl "hetzner pool slot limits cannot be negative"
  else if negb (forallb plainPath (hs_Caches cfg)) then inl "hetzner pool cache path is not a plain path"
  else match listedPrice cfg with
  | inl err => inl err
  | inr price =>
    match New (mkConfig (hs_APIToken cfg) (hs_APIBaseURL cfg) (hs_Location cfg) (hs_ServerType cfg)
                 (hs_ServerImage cfg) (hs_RunnerImage cfg) (hs_ControllerID cfg) (hs_FirewallID cfg)
                 (hs_NetworkID cfg) (hs_ActionPollInterval cfg) (hs_ActionTimeout cfg) (hs_Retry cfg)) with
    | inl err => inl err
    | inr api => inr (mkHostSource cfg api price)
    end
  end.

(** * The first boot of a host *)

Record hostBootstrap := mkBootstrap {
  hb_privateKey : string; hb_publicKey : string; hb_image : string; hb_slots : Z;
  hb_authorizedKey : string; hb_slotCPUs : f64; hb_slotMemoryMB : Z; hb_minFreeDiskGB : Z;
  hb_caches : list string
}.

Definition hostBootstrapScript : string := script
"set -Eeuo pipefail
image=$1
shift
for attempt in 1 2 3 4 5; do
  docker pull ~$image~ && break
  [ ~$attempt~ = 5 ] && exit 1
  sleep 10
done
container=$(docker create ~$image~)
trap 'docker rm --force ~$container~ >/dev/null 2>&1 || true' EXIT
docker cp ~$container:/usr/local/bin/runneryard~ /usr/local/bin/runneryard.new
chmod 0755 /usr/local/bin/runneryard.new
mv /usr/local/bin/runneryard.new /usr/local/bin/runneryard
/usr/local/bin/runneryard host install --image ~$image~ ~$@~".

Definition installArgs (b : hostBootstrap) : list string :=
  app ["bash"; "-c"; hostBootstrapScript; "runneryard-host-bootstrap"; hb_image b;
       "--slots"; Itoa (hb_slots b); "--authorized-key"; hb_authorizedKey b;
       "--min-free-disk-gb"; Itoa (hb_minFreeDiskGB b); "--harden-sshd"; "--block-metadata"]
  (app (if f64_le (hb_slotCPUs b) f64_zero then [] else ["--slot-cpus"; FormatFloat (hb_slotCPUs b)])
  (app (if 0 <? hb_slotMemoryMB b then ["--slot-memory-mb"; Itoa (hb_slotMemoryMB b)] else [])
       (concat (map (λ path, ["--cache"; path]) (hb_caches b))))).

Definition renderHostCloudInit (b : hostBootstrap) : string + string :=
  if String.eqb (hb_privateKey b) "" || String.eqb (hb_publicKey b) "" || String.eqb (hb_image b) ""
     || String.eqb (hb_authorizedKey b) ""
  then inl "host key, runner image, and controller key are required"
  else
  let cloudConfig := JObject [
    ("ssh_pwauth", JBool false); ("disable_root", JBool true); ("ssh_deletekeys", JBool true);
    ("ssh_genkeytypes", JArray []);
    ("ssh_keys", JObject [("ed25519_private", JString (hb_privateKey b));
                          ("ed25519_public", JString (hb_publicKey b))]);
    ("runcmd", JArray [JArray (map JString (installArgs b))])] in
  let userData := "#cloud-config" +:+ newline +:+ Marshal cloudConfig +:+ newline in
  if 32768 <? Z.of_nat (String.length userData) then inl "pool host user data is above Hetzner's 32 KiB"
  else inr userData.

(** * Operations *)

Class HetznerHosts (W : Type) := mkHetznerHosts {
  (** [cfg.HostKey]: the private key and the public one of a name. *)
  hk_HostKey : string → error + (string * string);
  (** Four random bytes. *)
  hk_Read : W → (error + string) * W
}.

Section source.
Context {L W : Type} `{!CloudEnv createServerRequest W} {J : HetznerJSON} {HK : HetznerHosts W}
        (pages : nat) (s : HostSource).
Abbreviation P := (prog (cloudSys createServerRequest L W)).
Let cfg := src_cfg s.
Let a := api s.

Definition Facts : PoolState.Facts := mkFacts BillingPerStartedHour (src_price s) "EUR" true.

Definition selector : string :=
  poolHostKey +:+ "=true," +:+ controllerIDKey +:+ "=" +:+ hs_ControllerID cfg +:+ "," +:+ poolNameKey
  +:+ "=" +:+ hs_Pool cfg.

Definition owns (item : server) : bool :=
  let l := label (sv_Labels item) in
  String.eqb (l poolHostKey) "true" && String.eqb (l controllerIDKey) (hs_ControllerID cfg)
  && String.eqb (l poolNameKey) (hs_Pool cfg) && String.eqb (l managedByKey) "".

Definition toHost (item : server) : error + Host :=
  match hk_HostKey (sv_Name item) with
  | inl err => inl (WrapError "derive host key" err)
  | inr (_, public) =>
    inr (mkHost (hostIDPrefix +:+ Itoa (sv_ID item))
           (if String.eqb (sv_IPv4 item) "" then "" else JoinHostPort (sv_IPv4 item) sshPort)
           public (sv_CreatedAt item) (sv_Status item) zeroTime "")
  end.

(** The loop of [List]: the hosts before, the last one first. *)
Fixpoint hostsFrom (servers : list server) (hosts : list Host) : error + list Host :=
  match servers with
  | [] => inr (rev hosts)
  | item :: servers =>
    if negb (owns item) then hostsFrom servers hosts
    else match toHost item with
         | inl err => inl err
         | inr host => hostsFrom servers (host :: hosts)
         end
  end.

Definition List : P (error + list Host) :=
  r ← eachServer pages a selector;
  mret (match r with inl err => inl err | inr servers => hostsFrom servers [] end).

Definition newName (suffix : string) : string := hostNamePrefix +:+ hs_Pool cfg +:+ "-" +:+ HexEncode suffix.

Definition hostRequest (name userData : string) : createServerRequest :=
  mkCreateServer name (hs_ServerType cfg) (hs_ServerImage cfg) (hs_Location cfg) userData false
    (list_to_map [(poolHostKey, "true"); (controllerIDKey, hs_ControllerID cfg); (poolNameKey, hs_Pool cfg)])
    [hs_FirewallID cfg] (if 0 <? hs_NetworkID cfg then [hs_NetworkID cfg] else []) true true.

Definition qualify (created : createServerResponse) : P (error + server) :=
  let id := sv_ID (cr_Server created) in
  on_err (waitActions a (cr_Action created :: NextActions created)) (λ err, mret (inl err))
    (q ← doJSON responseError (getServer a id) noServer (Some zj_server);
     match q.2 with
     | Some err => mret (inl (WrapError "verify firewall" err))
     | None =>
       if negb (firewallApplied q.1 (hs_FirewallID cfg)) then mret (inl (ErrorString "required firewall is not applied"))
       else
       p ← doJSON responseError (powerOn a id) noAction (Some zj_action);
       match p.2 with
       | Some err => mret (inl (WrapError "power on" err))
       | None =>
         on_err (waitActions a [p.1]) (λ err, mret (inl (WrapError "power on" err)))
           (r ← doJSON responseError (getServer a id) noServer (Some zj_server);
            mret (match r.2 with
                  | Some err => inl (WrapError "confirm power on" err)
                  | None => if negb (owns r.1) then inl (ErrorString "created server does not carry the pool labels")
                            else inr r.1
                  end))
       end
     end).

Definition discard (serverID : Z) : P (option error) :=
  r ← Destroy a (Itoa serverID);
  mret (option_map (WrapError "delete failed pool host") r).

Definition failed (err : error) (serverID : Z) : P (error + Host) :=
  dropped ← discard serverID;
  mret (inl (JoinError (err :: option_list dropped))).

(** [Create] once the request is made. *)
Definition createHost (payload : createServerRequest) : P (error + Host) :=
  on_err Wait (λ err, mret (inl err))
    (r ← doJSON responseError (postServer a payload) noCreated (Some zj_created);
     let id := sv_ID (cr_Server r.1) in
     match r.2 with
     | Some err =>
       let err := WrapError "create Hetzner pool host" err in
       if negb (id =? 0) then failed err id else mret (inl err)
     | None =>
       if id =? 0 then mret (inl (ErrorString "create Hetzner pool host: response did not include a server id"))
       else
       q ← qualify r.1;
       match q with
       | inl err => failed (WrapError "prepare Hetzner pool host" err) id
       | inr running => mret (toHost running)
       end
     end).

Definition Create (image : string) : P (error + Host) :=
  suffix ← cloudWorld hk_Read;
  match suffix with
  | inl err => mret (inl (WrapError "name pool host" err))
  | inr suffix =>
    let name := newName suffix in
    match hk_HostKey name with
    | inl err => mret (inl (WrapError "derive host key" err))
    | inr (privateKey, publicKey) =>
      match renderHostCloudInit
              (mkBootstrap privateKey publicKey image (hs_Slots cfg) (TrimSpace (hs_AuthorizedKey cfg))
                 (hs_SlotCPUs cfg) (hs_SlotMemoryMB cfg) (hs_MinFreeDiskGB cfg) (hs_Caches cfg)) with
      | inl err => mret (inl (ErrorString err))
      | inr userData => createHost (hostRequest name userData)
      end
    end
  end.

Definition notFound (err : error) : bool :=
  match errors_as as_status err with Some (_, status) => status =? 404 | None => false end.

(** A server by the text of its ID. *)
Definition getServerText (raw : string) : request createServerRequest := mkRequest "GET" (serverURL a raw) [] None.

Definition Delete (hostID : string) : P (option error) :=
  match CutPrefix hostIDPrefix hostID with
  | None => mret (Some (ErrorString "invalid Hetzner pool host id"))
  | Some raw =>
    let '(serverID, ok) := ParseInt raw in
    if negb ok || (serverID <? 1) then mret (Some (ErrorString "invalid Hetzner pool host id"))
    else
    r ← retried (policy a) noServer (doJSON responseError (getServerText raw) noServer (Some zj_server));
    match r.2 with
    | Some err => mret (if notFound err then None else Some (WrapError "look up Hetzner pool host" err))
    | None =>
      if negb (owns r.1) then mret (Some (ErrorString "refusing to delete Hetzner server: not a host of the pool"))
      else Destroy a raw
    end
  end.
End source.
