(* ===== verification/HetznerTheorems.v ===== *)
(** What the Hetzner adapter and its source of pool hosts guarantee: a server runs
    only behind its firewall, a launch accounts for what it created, and a list is
    whole. *)

From S2P Require Import Prelude Program Provider Float64 GoStrings GoText Retry CloudHTTP CloudFacts.
From S2P Require Import PoolState HostAgent Hetzner HetznerHosts.

#[local] Open Scope Z_scope.

Abbreviation exchange := (request createServerRequest * (error + response))%type.

(** The API showed the server of that ID; it answered a create with that. *)
Definition shown {J : HetznerJSON} (r : request createServerRequest) (item : server) (tr : list exchange) : Prop :=
  ∃ answer, (r, answer) ∈ tr ∧ received responseError noServer (Some zj_server) answer = (item, None).
Definition made {J : HetznerJSON} (a : Adapter) (created : createServerResponse) (tr : list exchange) : Prop :=
  ∃ payload answer, (postServer a payload, answer) ∈ tr
    ∧ (received responseError noCreated (Some zj_created) answer).1 = created.

#[export] Instance grows_shown {J : HetznerJSON} r item : Grows (shown r item).
Proof. intros l tr (answer & ? & ?). exists answer. split; [set_solver | done]. Qed.
#[export] Instance grows_made {J : HetznerJSON} a created : Grows (made a created).
Proof. intros l tr (payload & answer & ? & ?). exists payload, answer. split; [set_solver | done]. Qed.

(** * Programs that only read *)

Section reading.
Context {J : HetznerJSON} (a : Adapter) (I : list exchange → Prop) {HR : Reads I}.
Context {L W : Type} `{!CloudEnv createServerRequest W} (Hatt : 1 <= Attempts (policy a)).
Abbreviation Σ := (cloudSys createServerRequest L W).

Lemma keeps_eachServer pages selector : keeps I (eachServer pages a selector : prog Σ _).
Proof.
  unfold eachServer. generalize 1. induction pages as [|n IH]; intros page; cbn [eachServerFrom]; keep.
Qed.

(** Once a bound on the pages suffices, a larger one reads the same list. *)
Lemma eachServer_complete selector page (σ σ' : Σ) l n m :
  (n <= m)%nat →
  runP (eachServerFrom a n selector page) σ = (inr l, σ') →
  runP (eachServerFrom a m selector page) σ = (inr l, σ').
Proof.
  revert page σ σ' l m. induction n as [|n IH]; intros page σ σ' l m Hm; [done |]. destruct m as [|m]; [lia |].
  cbn [eachServerFrom]. destruct (ce_NewRequest _); [done |]. rewrite !runP_bind.
  set (q := retried _ _ _). destruct (evalP q σ) as [r [err|]]; cbn [fst snd]; [done |].
  destruct (NextPage r) as [next|]; [|done]. rewrite !runP_bind. specialize (IH next (execP q σ)).
  unfold evalP, execP in *. destruct (runP (eachServerFrom a n _ _) _) as [[err|rest] σ2]; [done |].
  by rewrite (IH σ2 rest m); [| lia |].
Qed.

Lemma keeps_waitAction current : keeps I (waitAction a current : prog Σ _).
Proof.
  unfold waitAction. revert current. induction (polls a) as [|n IH]; intros current; cbn [waitActionFrom]; keep.
Qed.
#[local] Hint Resolve keeps_eachServer keeps_waitAction : touch.

Lemma keeps_waitActions actions : keeps I (waitActions a actions : prog Σ _).
Proof. induction actions as [|current actions IH]; cbn [waitActions]; keep. Qed.
#[local] Hint Resolve keeps_waitActions : touch.

Lemma keeps_listServers pages selector : keeps I (listServers pages a selector : prog Σ _).
Proof. unfold listServers. keep. Qed.
#[local] Hint Resolve keeps_listServers : touch.

Lemma keeps_findByLease pages leaseID : keeps I (findByLease pages a leaseID : prog Σ _).
Proof. unfold findByLease. keep. Qed.
#[local] Hint Resolve keeps_findByLease : touch.
End reading.

#[local] Hint Extern 2 (keeps _ (eachServer _ _ _)) => (apply keeps_eachServer; first [assumption | apply _]) : touch.
#[local] Hint Extern 2 (keeps _ (waitActions _ _)) => (apply keeps_waitActions; first [assumption | apply _]) : touch.
#[local] Hint Extern 2 (keeps _ (findByLease _ _ _)) => (apply keeps_findByLease; first [assumption | apply _]) : touch.

(** * Behind the firewall *)

Section firewalled.
Context {J : HetznerJSON} (a : Adapter) (firewall : Z).

(** What may be deleted is the caller's. *)
Context (deletable : string → list exchange → Prop) `{!∀ id, Grows (deletable id)}.

Inductive allowed : request createServerRequest → list exchange → Prop :=
  | allowed_read r tr : rq_Method r = "GET"%string → allowed r tr
  | allowed_create payload tr :
      StartAfterCreate payload = false → cs_Firewalls payload = [firewall] → allowed (postServer a payload) tr
  | allowed_power id item tr :
      shown (getServer a id) item tr → firewallApplied item firewall = true → allowed (powerOn a id) tr
  | allowed_delete id tr : deletable id tr → allowed (deleteServer a id) tr.

#[export] Instance reads_firewalled : ReadsAllowed allowed.
Proof. intros r tr. apply allowed_read. Qed.

Context {L W : Type} `{!CloudEnv createServerRequest W} (Hatt : 1 <= Attempts (policy a)).
Abbreviation Σ := (cloudSys createServerRequest L W).
Abbreviation hspec := (spec (steps (justified allowed)) anyChange (λ _ : Σ, True)).
Abbreviation K := (K (justified allowed)).
Abbreviation keeps := (keeps (justified allowed)).

(** A create that starts nothing, behind the firewall. *)
Lemma keeps_post payload :
  StartAfterCreate payload = false → cs_Firewalls payload = [firewall] →
  keeps (doJSON responseError (postServer a payload) noCreated (Some zj_created) : prog Σ _).
Proof. intros H1 H2 Pr HP. apply (K_doJSON_keep _ allowed); [done |]. intros tr _. by apply allowed_create. Qed.

(** Asking for the server, and powering it on when the answer allows. *)
Lemma keeps_powered {A} id (fail : error → prog Σ A) (unsafe : prog Σ A) (k : action * option error → prog Σ A) :
  (∀ e, keeps (fail e)) → keeps unsafe → (∀ p, keeps (k p)) →
  keeps (q ← doJSON responseError (getServer a id) noServer (Some zj_server);
         match q.2 with
         | Some err => fail err
         | None =>
           if negb (firewallApplied q.1 firewall) then unsafe
           else p ← doJSON responseError (powerOn a id) noAction (Some zj_action); k p
         end).
Proof.
  intros Hf Hu Hk Pr HP. eapply spec_bind.
  { apply (K_doJSON _ allowed _ _ _ _ Pr). intros tr _. by apply allowed_read. }
  intros [item [err|]]; cbn [fst snd].
  { eapply spec_conseq; [by apply Hf | by intros σ [? _] | done]. }
  destruct (firewallApplied item firewall) eqn:Hfw; cbn [negb].
  2:{ eapply spec_conseq; [by apply Hu | by intros σ [? _] | done]. }
  eapply (spec_conseq _ _ _ _ (K (λ tr, Pr tr ∧ shown (getServer a id) item tr)) _ _ (λ _, K Pr)); [| |done].
  2:{ intros σ [[Hj HPr] Hs]. split; [done |]. split; [done |]. destruct (Hs eq_refl) as (answer & ? & ?).
      by exists answer. }
  eapply spec_bind.
  { apply (K_doJSON_keep _ allowed _ _ _ _ (λ tr, Pr tr ∧ shown (getServer a id) item tr)).
    intros tr [_ Hs]. by eapply allowed_power. }
  intros p. by apply keeps_first.
Qed.

(** ** Workers *)

Lemma keeps_createServer pages lease payload :
  StartAfterCreate payload = false → cs_Firewalls payload = [firewall] →
  keeps (createServer pages a lease payload : prog Σ _).
Proof.
  intros H1 H2. pose proof (keeps_post payload H1 H2) as Hpost. unfold createServer.
  generalize 1, (@None error). induction (Z.to_nat _) as [|n IH]; intros attempt lastErr; cbn [createServerFrom]; keep.
Qed.

Lemma keeps_Launch pages lease : firewallID a = firewall → keeps (Launch pages a lease : prog Σ _).
Proof.
  intros Hfw. unfold Launch. apply keeps_bind.
  { apply keeps_createServer; [done |]. simpl. by rewrite Hfw. }
  intros [err|created]; [keep |]. unfold qualifyWorker. rewrite Hfw. apply keeps_on_err; [keep | keep |].
  apply keeps_powered; keep.
Qed.

(** A deletion the caller may ask for. *)
Lemma K_Destroy id Pr `{!Grows Pr} :
  (∀ tr, Pr tr → deletable id tr) → hspec (K Pr) (Destroy a id : prog Σ _) (λ _, K Pr).
Proof.
  intros Hd. unfold Destroy. destruct (String.eqb id ""); [by apply spec_ret |].
  destruct (negb (ParseInt id).2); [by apply spec_ret |]. eapply spec_bind.
  { apply K_retried_keep; [done | done |]. unfold deleteOnce.
    destruct (ce_NewRequest _); [by apply spec_ret |]. eapply spec_bind.
    - apply (K_send _ allowed _ Pr). intros tr HPr. by apply allowed_delete, Hd.
    - intros answer. apply spec_ret. by intros σ [? [? _]]. }
  intros [deleted [err|]]; cbn [fst snd]; [by apply spec_ret |].
  assert (Hrest : keeps (if ac_ID deleted =? 0 then mret None
    else waited ← waitActions a [deleted]; mret (option_map (WrapError "delete Hetzner worker") waited) : prog Σ _))
    by keep.
  by apply Hrest.
Qed.
End firewalled.

(** ** Any operation on workers *)

Section workers.
Context {L W : Type} `{!CloudEnv createServerRequest W} {J : HetznerJSON} (pages : nat) (a : Adapter).
Abbreviation Σ := (cloudSys createServerRequest L W).

Inductive operation := OpLaunch (lease : Lease) | OpInventory | OpDestroy (workerID : string).

Definition runOperation (o : operation) : prog Σ () :=
  match o with
  | OpLaunch lease => Launch pages a lease;; mret ()
  | OpInventory => Inventory pages a;; mret ()
  | OpDestroy workerID => Destroy a workerID;; mret ()
  end.

(** The core may destroy any worker. *)
Definition workersAllowed : request createServerRequest → list exchange → Prop :=
  allowed a (firewallID a) (λ _ _, True).

Lemma keeps_workerOperation o : 1 <= Attempts (policy a) → keeps (justified workersAllowed) (runOperation o).
Proof.
  intros Hatt. destruct o; unfold runOperation; (apply keeps_bind; [|intros; apply keeps_ret]).
  - by apply keeps_Launch.
  - by apply keeps_listServers; [apply _ |].
  - intros Pr HP. by apply K_Destroy.
Qed.
End workers.

Lemma hetzner_policy cfg a : New cfg = inr a → 1 <= Attempts (policy a).
Proof.
  unfold New. intros Ha. repeat case_match; simplify_eq; cbn [policy];
    by destruct (withDefaults_sane (cf_Retry cfg)) as (? & _).
Qed.

(** C21: No Hetzner worker runs outside its firewall.  Whatever the API answers and
    with any number of the adapter's operations in progress, every server is
    created switched off and with the configured firewall, and a server is powered
    on only after the API showed that firewall applied to it. *)
Theorem hetzner_behind_firewall {L W} `{!CloudEnv createServerRequest W} {J : HetznerJSON} pages cfg a o
    (σ σ' : cloudSys createServerRequest L W) x :
  New cfg = inr a →
  interleaved (steps (justified (workersAllowed a))) (runOperation pages a o) σ x σ' →
  justified (workersAllowed a) (exchanges σ) → justified (workersAllowed a) (exchanges σ').
Proof. intros Ha. apply keeps_run, keeps_workerOperation. by eapply hetzner_policy. Qed.

(** ** Any operation on hosts *)

Section hosts.
Context {L W : Type} `{!CloudEnv createServerRequest W} {J : HetznerJSON} {HK : HetznerHosts W}
        (pages : nat) (s : HostSource).
Abbreviation Σ := (cloudSys createServerRequest L W).

(** A host source deletes the servers it was shown to own, and those its own
    creates were answered with. *)
Definition ownHost (raw : string) (tr : list exchange) : Prop :=
  (∃ item, shown (getServerText s raw) item tr ∧ owns s item = true)
  ∨ ∃ created, made (api s) created tr ∧ sv_ID (cr_Server created) ≠ 0 ∧ raw = Itoa (sv_ID (cr_Server created)).

#[local] Instance grows_ownHost raw : Grows (ownHost raw).
Proof.
  intros l tr [(item & Hs & Ho)|(created & Hm & Hc)].
  - left. exists item. split; [by apply grows | done].
  - right. exists created. split; [by apply grows | done].
Qed.

Definition hostsAllowed : request createServerRequest → list exchange → Prop :=
  allowed (api s) (hs_FirewallID (src_cfg s)) ownHost.
Abbreviation K := (K (justified hostsAllowed)).
Context (Hatt : 1 <= Attempts (policy (api s))).

Lemma keeps_qualify created : keeps (justified hostsAllowed) (qualify s created : prog Σ _).
Proof.
  unfold qualify. apply keeps_on_err; [keep | keep |].
  apply (keeps_powered (api s) (hs_FirewallID (src_cfg s)) ownHost); keep.
Qed.

(** The deletion of a server that its own create was answered with. *)
Lemma K_failed err created Pr `{!Grows Pr} :
  sv_ID (cr_Server created) ≠ 0 →
  spec (steps (justified hostsAllowed)) anyChange (λ _ : Σ, True) (K (λ tr, Pr tr ∧ made (api s) created tr))
    (failed s err (sv_ID (cr_Server created))) (λ _, K Pr).
Proof.
  intros Hid. set (Qr := λ tr, Pr tr ∧ made (api s) created tr). unfold failed, discard.
  eapply (spec_bind _ _ _ _ _ _ (λ _, K Qr)); [|intros dropped; apply spec_ret; by intros σ [? [? _]]].
  eapply (spec_bind _ _ _ _ _ _ (λ _, K Qr)); [|intros r; by apply spec_ret].
  apply (K_Destroy (api s) _ ownHost Hatt _ Qr). intros tr [_ Hm]. right. exists created. done.
Qed.

Lemma keeps_createHost payload :
  StartAfterCreate payload = false → cs_Firewalls payload = [hs_FirewallID (src_cfg s)] →
  keeps (justified hostsAllowed) (createHost s payload : prog Σ _).
Proof.
  intros H1 H2. unfold createHost. apply keeps_on_err; [keep | keep |]. intros Pr HP.
  eapply (spec_bind _ _ _ _ _ _ (λ r σ, K Pr σ ∧ (sv_ID (cr_Server r.1) ≠ 0 → made (api s) r.1 (exchanges σ)))).
  { apply spec_doJSON; [by apply stable_K | by intros σ err HK' _; split |].
    intros w tr l [Hj HPr]. split; [split; [split; [by apply allowed_create | done] | by apply (grows [_])] |].
    intros _. exists payload, (ce_Do (postServer (api s) payload) w).1. split; [left | done]. }
  intros [created r]; cbn [fst snd].
  assert (Hdrop : ∀ err, sv_ID (cr_Server created) ≠ 0 →
    spec (steps (justified hostsAllowed)) anyChange (λ _ : Σ, True)
      (λ σ, K Pr σ ∧ (sv_ID (cr_Server created) ≠ 0 → made (api s) created (exchanges σ)))
      (failed s err (sv_ID (cr_Server created))) (λ _, K Pr)).
  { intros err Hne. eapply spec_conseq; [by apply (K_failed err created Pr) | | done].
    intros σ [[Hj HPr] Hm]. split; [done |]. split; [done | by apply Hm]. }
  destruct r as [err|].
  - destruct (Z.eqb_spec (sv_ID (cr_Server created)) 0) as [|Hne]; cbn [negb]; [apply spec_ret; by intros σ [? _] | by apply Hdrop].
  - destruct (Z.eqb_spec (sv_ID (cr_Server created)) 0) as [|Hne]; [apply spec_ret; by intros σ [? _] |].
    set (Qr := λ tr, Pr tr ∧ made (api s) created tr). eapply (spec_bind _ _ _ _ _ _ (λ _, K Qr)).
    { intros σ [[Hj HPr] Hm]. apply (keeps_qualify created Qr _ σ). split; [done |]. split; [done | by apply Hm]. }
    intros [err|running].
    + by apply K_failed.
    + apply spec_ret. by intros σ [? [? _]].
Qed.

Lemma keeps_hetznerCreate image : keeps (justified hostsAllowed) (Create s image : prog Σ _).
Proof. unfold Create. keep. by apply keeps_createHost. Qed.

Lemma keeps_hetznerDelete hostID : keeps (justified hostsAllowed) (Delete s hostID : prog Σ _).
Proof.
  unfold Delete. destruct (CutPrefix _ _) as [raw|]; [|keep]. destruct (ParseInt raw) as [n ok].
  destruct (_ || _); [keep |]. intros Pr HP. eapply spec_bind; [by apply (K_get _ _ _ _ _ _ Pr) |].
  intros [item [err|]]; cbn [fst snd]; [apply spec_ret; by intros σ [? _] |].
  destruct (owns s item) eqn:Ho; cbn [negb]; [|apply spec_ret; by intros σ [? _]].
  eapply spec_conseq.
  - apply (K_Destroy (api s) _ ownHost Hatt raw (λ tr, Pr tr ∧ shown (getServerText s raw) item tr)).
    intros tr [_ Hs]. left. by exists item.
  - intros σ [[Hj HPr] Hs]. split; [done |]. split; [done |].
    destruct (Hs eq_refl) as (answer & ? & ?). by exists answer.
  - by intros r σ [? [? _]].
Qed.

Inductive hostOperation := OpList | OpCreate (image : string) | OpDelete (hostID : string).

Definition runHostOperation (o : hostOperation) : prog Σ () :=
  match o with
  | OpList => List pages s;; mret ()
  | OpCreate image => Create s image;; mret ()
  | OpDelete hostID => Delete s hostID;; mret ()
  end.

Lemma keeps_runHostOperation o : keeps (justified hostsAllowed) (runHostOperation o).
Proof.
  destruct o; unfold runHostOperation; (apply keeps_bind; [|intros; apply keeps_ret]).
  - unfold List.
    keep.
  - apply keeps_hetznerCreate.
  - apply keeps_hetznerDelete.
Qed.
End hosts.

Lemma hetzner_source_policy cfg s : NewHostSource cfg = inr s → 1 <= Attempts (policy (api s)).
Proof.
  unfold NewHostSource. intros Hs. destruct (New _) as [err|a] eqn:Ha; repeat case_match; simplify_eq.
  by eapply hetzner_policy.
Qed.

(** The source of a Hetzner pool touches only what is the pool's.  Whatever the
    API answers and with any number of its operations in progress, it deletes only
    servers the API showed it with the pool's three labels and no worker's, and
    servers its own creates were answered with; and its hosts, too, are created
    switched off and powered on only behind the pool's firewall. *)
Theorem hetzner_hosts_touch_own {L W} `{!CloudEnv createServerRequest W} {J : HetznerJSON} {HK : HetznerHosts W}
    pages cfg s o (σ σ' : cloudSys createServerRequest L W) x :
  NewHostSource cfg = inr s →
  interleaved (steps (justified (hostsAllowed s))) (runHostOperation pages s o) σ x σ' →
  justified (hostsAllowed s) (exchanges σ) → justified (hostsAllowed s) (exchanges σ').
Proof. intros Hs. apply keeps_run, keeps_runHostOperation. by eapply hetzner_source_policy. Qed.

(** * Accounting for what was created *)

Section accounts.
Context {J : HetznerJSON} (a : Adapter) (lease : Lease).

(** The creates of the lease, and the server an answer names, if only in part. *)
Definition createsFor (r : request createServerRequest) : bool :=
  String.eqb (rq_Method r) "POST"
  && match rq_Body r with
     | Some payload => String.eqb (label (cs_Labels payload) leaseIDKey) (lease_ID lease)
     | None => false
     end.
Definition createsOf (tr : list exchange) : list exchange := filter (λ x, createsFor x.1) tr.
Definition serverOf (x : exchange) : Z :=
  sv_ID (cr_Server (received responseError noCreated (Some zj_created) x.2).1).
Definition unnamed (x : exchange) : Prop := serverOf x = 0.

(** The creates so far. *)
Definition soFar (cur : list exchange) (tr : list exchange) : Prop := createsOf tr = cur.

#[export] Instance admits_soFar cur : Admits (soFar cur) (λ r _, createsFor r = false).
Proof. intros r answer tr Hr Hs. unfold soFar, createsOf. rewrite filter_cons. simpl. by rewrite Hr. Qed.

#[export] Instance reads_soFar cur : Reads (soFar cur).
Proof. intros r answer tr Hr. apply admits_soFar. unfold createsFor. by rewrite Hr. Qed.

Context {L W : Type} `{!CloudEnv createServerRequest W} (Hatt : 1 <= Attempts (policy a)).
Abbreviation Σ := (cloudSys createServerRequest L W).

(** Others may do anything but create for this lease. *)
Definition others (σ σ' : Σ) : Prop :=
  createsOf (exchanges σ') = createsOf (exchanges σ) ∧ ∃ l, exchanges σ' = (l ++ exchanges σ)%list.

#[export] Instance others_preorder : PreOrder others.
Proof.
  split; [by intros σ; split; [|exists []] |]. intros s1 s2 s3 [H1 [l1 E1]] [H2 [l2 E2]]. split; [congruence |].
  exists (l2 ++ l1)%list. by rewrite E2, E1, app_assoc.
Qed.

Lemma others_steps cur σ σ' : others σ σ' → steps (soFar cur) σ σ'.
Proof. intros [H1 H2]. split; [|done]. unfold soFar. by rewrite H1. Qed.

Abbreviation aspec := (spec others anyChange (λ _ : Σ, True)).
Abbreviation at_ cur := (K (soFar cur)).
Abbreviation fine := (λ _ : list exchange, True).

Lemma quiet {A} cur Pr (p : prog Σ A) Q :
  spec (steps (soFar cur)) anyChange (λ _ : Σ, True) (at_ cur Pr) p Q → aspec (at_ cur Pr) p Q.
Proof. apply spec_weaken; [apply others_steps | done]. Qed.

Lemma quiet_keeps {A} cur Pr (p : prog Σ A) `{!Grows Pr} :
  keeps (soFar cur) p → aspec (at_ cur Pr) p (λ _, at_ cur Pr).
Proof. intros Hp. by apply quiet, Hp. Qed.

Lemma stable_at cur Pr `{!Grows Pr} : stableR others (at_ cur Pr).
Proof. intros σ σ' HR. by apply stable_K; [|apply others_steps]. Qed.

Lemma launch_creates : createsFor (postServer a (launchRequest a lease)) = true.
Proof.
  unfold createsFor. cbn [rq_Method rq_Body postServer cs_Labels launchRequest]. unfold label.
  simplify_map_eq. by rewrite String.eqb_refl.
Qed.

Lemma post_spec cur :
  aspec (at_ cur fine)
    (doJSON responseError (postServer a (launchRequest a lease)) noCreated (Some zj_created))
    (λ r σ, ∃ l, ((l = [] ∧ r.1 = noCreated ∧ is_Some r.2)
                  ∨ ∃ x, l = [x] ∧ serverOf x = sv_ID (cr_Server r.1)) ∧ at_ (l ++ cur) fine σ).
Proof.
  apply spec_doJSON; [by apply stable_at | by intros σ err Hs _; exists []; split; [left |] |].
  intros w tr l [Hs _]. set (r := postServer a (launchRequest a lease)).
  exists [(r, (ce_Do r w).1)]. split; [right; eexists; by split |]. split; [|done].
  unfold soFar, createsOf in *. cbn [exchanges app] in *. rewrite filter_cons_True, Hs; [done |].
  cbn [fst]. unfold r. rewrite launch_creates. exact Logic.I.
Qed.

(** What an error says of the creates: no answer named a server, or the last one
    did, and the error names it. *)
Definition errorNames (err : error) (l : list exchange) : Prop :=
  Forall unnamed l
  ∨ ∃ x l' w, l = x :: l' ∧ Forall unnamed l' ∧ errors_as as_partial err = Some w ∧ ID w = Itoa (serverOf x).

Context (base : list exchange).

Definition createdOf (r : error + createServerResponse) (σ : Σ) : Prop :=
  match r with
  | inl err => ∃ l, at_ (l ++ base) fine σ ∧ errorNames err l
  | inr created => ∃ x l, at_ (x :: l ++ base) fine σ ∧ Forall unnamed l
                    ∧ serverOf x = sv_ID (cr_Server created) ∧ sv_ID (cr_Server created) ≠ 0
  end.

Lemma createServer_spec pages fuel attempt lastErr l :
  Forall unnamed l →
  aspec (at_ (l ++ base) fine) (createServerFrom pages a fuel lease (launchRequest a lease) attempt lastErr) createdOf.
Proof.
  revert attempt lastErr l. induction fuel as [|fuel IH]; intros attempt lastErr l Hl; cbn [createServerFrom].
  { apply spec_ret. intros σ Hs. exists l. split; [done | by left]. }
  assert (Hfail : ∀ l err, Forall unnamed l → aspec (at_ (l ++ base) fine) (mret (inl err)) createdOf).
  { intros l' err Hl'. apply spec_ret. intros σ Hs. exists l'. split; [done | by left]. }
  eapply (spec_bind _ _ _ _ _ _ (λ _, at_ (l ++ base) fine)); [apply quiet_keeps; [apply _ | keep] |].
  intros [err|]; [by apply Hfail |]. eapply spec_bind; [apply post_spec |].
  intros [created r]; cbn [fst snd]. apply spec_exists. intros l1.
  eapply (spec_because _ _ _ _ _ (at_ ((l1 ++ l) ++ base) fine)).
  { intros σ [Hl1 Hs]. split; [exact Hl1 |]. by rewrite <- app_assoc. }
  intros Hl1. cbn [fst snd] in Hl1.
  destruct (Z.eqb_spec (sv_ID (cr_Server created)) 0) as [Hz|Hz].
  - assert (Hl' : Forall unnamed (l1 ++ l)).
    { destruct Hl1 as [(-> & _ & _)|(x & -> & Hx)]; [done |]. constructor; [unfold unnamed; congruence | done]. }
    destruct r as [err|]; [|by apply Hfail]. cbn [negb]. destruct (negb (IsTransient err)); [by apply Hfail |].
    eapply (spec_bind _ _ _ _ _ _ (λ _, at_ ((l1 ++ l) ++ base) fine)); [apply quiet_keeps; [apply _ | keep] |].
    intros [lookup|[w|]]; [by apply Hfail.. |]. destruct (attempt =? Attempts (policy a)); [by apply Hfail |].
    eapply (spec_bind _ _ _ _ _ _ (λ _, at_ ((l1 ++ l) ++ base) fine)); [apply quiet_keeps; [apply _ | keep] |]. intros x.
    eapply (spec_bind _ _ _ _ _ _ (λ _, at_ ((l1 ++ l) ++ base) fine)); [apply quiet_keeps; [apply _ | keep] |].
    intros [e|]; [by apply Hfail | by apply IH].
  - destruct Hl1 as [(_ & -> & _)|(x & -> & Hx)]; [done |]. destruct r as [err|]; cbn [negb]; apply spec_ret; intros σ Hs.
    + exists (x :: l). split; [done |]. right. eexists x, l, _. split_and!; [done | done | done |]. simpl. by rewrite Hx.
    + exists x, l. by split_and!.
Qed.

(** ** The whole launch *)

(** A worker that a launch reports was created for it last, was shown behind its
    firewall, and then running. *)
Definition workerNamed (w : Worker) (l tr : list exchange) : Prop :=
  ∃ x l' ready item, l = x :: l' ∧ Forall unnamed l' ∧ serverOf x ≠ 0
    ∧ shown (getServer a (serverOf x)) ready tr ∧ firewallApplied ready (firewallID a) = true
    ∧ shown (getServer a (serverOf x)) item tr ∧ sv_Status item = "running"%string
    ∧ w = withLeaseProof (toWorker item) lease.

Definition accounted (r : error + Worker) (σ : Σ) : Prop :=
  ∃ l, createsOf (exchanges σ) = (l ++ base)%list
    ∧ match r with inl err => errorNames err l | inr w => workerNamed w l (exchanges σ) end.

Lemma stable_accounted r : stableR others (accounted r).
Proof.
  intros σ σ' [H1 [l Hl]] (l0 & Hc & Hr). exists l0. split; [congruence |]. destruct r as [err|w]; [done |].
  destruct Hr as (x & l' & ready & item & ? & ? & ? & ? & ? & ? & ? & ?). exists x, l', ready, item.
  rewrite Hl. split_and!; try done; by apply grows.
Qed.

Lemma qualify_spec created x l :
  Forall unnamed l → serverOf x = sv_ID (cr_Server created) → sv_ID (cr_Server created) ≠ 0 →
  aspec (at_ (x :: l ++ base) fine) (qualifyWorker a lease created) accounted.
Proof.
  intros Hl Hx Hne. unfold qualifyWorker. set (cur := x :: l ++ base).
  assert (Hpart : ∀ Pr err, aspec (at_ cur Pr)
    (mret (inl (PartialLaunchError (withLeaseProof (toWorker (cr_Server created)) lease) err))) accounted).
  { intros Pr err. apply spec_ret. intros σ [Hs _]. exists (x :: l). split; [exact Hs |]. right.
    eexists x, l, _. split_and!; [done | done | done |]. simpl. by rewrite Hx. }
  eapply (spec_bind _ _ _ _ _ _ (λ _, at_ cur fine)); [apply quiet_keeps; [apply _ | keep] |].
  intros [err|]; [apply Hpart |].
  eapply spec_bind; [by apply quiet, (K_get1 _ _ _ _ _ fine) |]. intros [ready [err|]]; cbn [fst snd].
  { eapply spec_conseq; [apply (Hpart fine) | by intros σ [? _] | done]. }
  set (P1 := shown (getServer a (sv_ID (cr_Server created))) ready).
  eapply (spec_conseq _ _ _ _ (at_ cur P1)); [|intros σ [[Hs _] Hr]; split; [done |];
    destruct (Hr eq_refl) as (answer & ? & ?); by exists answer | done].
  destruct (firewallApplied ready (firewallID a)) eqn:Hfw; [|apply Hpart]. cbn [negb].
  eapply (spec_bind _ _ _ _ _ _ (λ _, at_ cur P1)).
  { apply quiet, (K_doJSON_keep _ (λ r _, createsFor r = false) _ _ _ _ P1). reflexivity. }
  intros [p [err|]]; cbn [fst snd]; [apply Hpart |].
  eapply (spec_bind _ _ _ _ _ _ (λ _, at_ cur P1)); [apply quiet_keeps; [apply _ | keep] |].
  intros [err|]; [apply Hpart |].
  eapply spec_bind; [by apply quiet, (K_get1 _ _ _ _ _ P1) |]. intros [item [err|]]; cbn [fst snd].
  { eapply spec_conseq; [apply (Hpart P1) | by intros σ [? _] | done]. }
  destruct (String.eqb_spec (sv_Status item) "running") as [Hrun|Hrun]; cbn [negb].
  2:{ eapply spec_conseq; [apply (Hpart P1) | by intros σ [? _] | done]. }
  apply spec_ret. intros σ [[Hs HP1] Hr]. exists (x :: l). split; [exact Hs |].
  destruct (Hr eq_refl) as (answer & ? & ?). exists x, l, ready, item. rewrite !Hx.
  split_and!; try done. by exists answer.
Qed.

Lemma launch_spec pages : aspec (at_ base fine) (Launch pages a lease) accounted.
Proof.
  unfold Launch. eapply spec_bind; [by apply (createServer_spec pages _ _ _ []), Forall_nil |].
  intros [err|created].
  - apply spec_ret. intros σ (l & [Hs _] & He). by exists l.
  - cbn [createdOf]. apply spec_exists. intros x. apply spec_exists. intros l.
    eapply (spec_because _ _ _ (Forall unnamed l ∧ serverOf x = sv_ID (cr_Server created)
      ∧ sv_ID (cr_Server created) ≠ 0) _ (at_ (x :: l ++ base) fine)); [by intros σ (? & ? & ? & ?) |].
    intros (? & ? & ?). by apply qualify_spec.
Qed.
End accounts.

(** A Hetzner launch accounts for what it created.  Whatever the API answers
    and whatever runs meanwhile, at most the last create of the lease was answered
    with a server, even in an answer that could not be read to its end; if it was,
    an error names that server as a partial launch, and a success is that server,
    shown behind its firewall and then running. *)
Theorem hetzner_launch_accounts {L W} `{!CloudEnv createServerRequest W} {J : HetznerJSON} pages cfg a lease
    (σ σ' : cloudSys createServerRequest L W) r :
  New cfg = inr a →
  interleaved (others lease) (Launch pages a lease) σ r σ' →
  accounted a lease (createsOf lease (exchanges σ)) r σ'.
Proof.
  intros Ha Hrun. apply hetzner_policy in Ha.
  eapply (interleaved_spec (others lease) anyChange); [by apply launch_spec | | | exact Hrun].
  - apply stable_accounted.
  - by split.
Qed.

(** * An API to try it on *)

Module HetznerDemo.

Definition cfg : Config :=
  mkConfig "token" "" "fsn1" "cx33" "ubuntu" "registry/image" "c1" 5 0 0 0 (mkPolicy 0 0 0 DefaultRate 0).
Definition adapter : Adapter :=
  match New cfg with inr a => a | inl _ => mkAdapter "" "" "" "" "" "" 0 0 0 0 (Retry.withDefaults (cf_Retry cfg)) end.
Definition lease : Lease := mkLease "lease-1" "runner-1" 7 3 "jit" (UnixTime 0) (60 * Second).

Definition hostCfg : HostSourceConfig :=
  mkHostSourceConfig "token" "" "fsn1" "cx33" "ubuntu" "c1" "fast" 5 0 f64_zero "registry/image" 2 f64_zero 0 [] 0
    true "ssh-ed25519 AAAA" 0 0 (mkPolicy 0 0 0 DefaultRate 0).
Definition source : HostSource :=
  match NewHostSource hostCfg with inr s => s | inl _ => mkHostSource hostCfg adapter f64_zero end.

Definition one (status : string) (labels : gmap string string) : server :=
  mkServer 42 "runner-1" status (UnixTime 0) labels "192.0.2.1" [mkFirewall 5 "applied"].

(** The answers of the API are its server, running or not. *)
Definition named (r : response) : server :=
  one (if String.eqb (rs_Body r) "off" then "off" else "running")
    (if String.eqb (rs_Body r) "host"
     then list_to_map [(poolHostKey, "true"); (controllerIDKey, "c1"); (poolNameKey, "fast")]
     else cs_Labels (launchRequest adapter lease)).
#[global] Instance answers : HetznerJSON :=
  mkHetznerJSON (λ r, (mkCreated (named r) (mkAction 1 "success" None) [], None)) (λ r, (named r, None))
    (λ r, (mkAction 2 "success" None, None)) (λ r, (mkServerList [named r] None, None)).

Definition serve (r : request createServerRequest) (body : string) : (error + response) * string :=
  let body := match rq_Body r with None => if String.eqb (rq_Method r) "POST" then "running"%string else body | Some _ => body end in
  (inr (mkResponse 200 body None), body).

#[global] Instance network : CloudEnv createServerRequest string :=
  mkCloudEnv _ _ (λ _, None) serve (λ w, (None, w)) (λ _ w, (None, w)) (λ w, (f64_zero, w)).
#[global] Instance keys : HetznerHosts string :=
  mkHetznerHosts _ (λ name, inr ("private " +:+ name, "public " +:+ name)%string) (λ w, (inr "abcd"%string, w)).

Definition start : cloudSys createServerRequest () string := mkCloudSys "off"%string [] ().
Definition hosting : cloudSys createServerRequest () string := mkCloudSys "host"%string [] ().

(** Create, look at the firewall, power on, look again. *)
Example launch_requests :
  map (λ x, rq_Method x.1) (exchanges (execP (Launch 3 adapter lease) start)) = ["GET"; "POST"; "GET"; "POST"]%string
  ∧ match evalP (Launch 3 adapter lease) start with inr w => State w = "running"%string | inl _ => False end.
Proof. vm_compute. done. Qed.

End HetznerDemo.

Lemma hetzner_behind_firewall_witness :
  let a := HetznerDemo.adapter in
  justified (workersAllowed a) (exchanges (execP (runOperation 3 a (OpLaunch HetznerDemo.lease)) HetznerDemo.start)).
Proof.
  refine (hetzner_behind_firewall 3 HetznerDemo.cfg HetznerDemo.adapter (OpLaunch HetznerDemo.lease)
            HetznerDemo.start _ _ _ (interleaved_alone (steps (justified (workersAllowed HetznerDemo.adapter))) _ _) _);
    [reflexivity | exact Logic.I].
Defined.

Lemma hetzner_hosts_touch_own_witness :
  let s := HetznerDemo.source in
  justified (hostsAllowed s) (exchanges (execP (runHostOperation 3 s (OpDelete "hetzner-42")) HetznerDemo.hosting)).
Proof.
  refine (hetzner_hosts_touch_own 3 HetznerDemo.hostCfg HetznerDemo.source (OpDelete "hetzner-42")
            HetznerDemo.hosting _ _ _ (interleaved_alone (steps (justified (hostsAllowed HetznerDemo.source))) _ _) _);
    [reflexivity | exact Logic.I].
Defined.

Lemma hetzner_launch_accounts_witness :
  let a := HetznerDemo.adapter in let lease := HetznerDemo.lease in
  accounted a lease [] (evalP (Launch 3 a lease) HetznerDemo.start) (execP (Launch 3 a lease) HetznerDemo.start).
Proof.
  refine (hetzner_launch_accounts 3 HetznerDemo.cfg HetznerDemo.adapter HetznerDemo.lease HetznerDemo.start _ _ _
            (interleaved_alone (others HetznerDemo.lease) _ _)).
  reflexivity.
Defined.
