(* ===== verification/StaticHosts.v ===== *)
(** Static hosts and the controller's key toward its hosts (src/pool/static.go and
    src/pool/hostkey.go).

    The SSH library, HMAC-SHA256 and ed25519 are the class [SSHKeys]; [net.ParseIP]
    is the class of [Fly]. *)

From S2P Require Import Prelude Float64 GoStrings GoText GoPatterns Provider PoolState Fly.

#[local] Open Scope string_scope.
#[local] Open Scope Z_scope.

(** A raw private key: ed25519, by its seed, or of another kind. *)
Inductive rawKey := Ed25519 (seed : string) | OtherKey.

Class SSHKeys := mkSSHKeys {
  (** [ssh.ParseAuthorizedKey], and the key written again as one line. *)
  ssh_AuthorizedKey : string → option string;
  ssh_ParseRawPrivateKey : string → option rawKey;
  (** The public line of the key of a seed, or the error of the signer. *)
  ssh_PublicLine : string → error + string;
  hmac_SHA256 : string → string → string;
  (** [ssh.MarshalPrivateKey] with a comment, in PEM. *)
  ssh_MarshalPrivateKey : string → string → option string
}.

(** * Static hosts *)

Record StaticHost := mkStaticHost { sh_Name : string; sh_Address : string; sh_HostKey : string }.
Record StaticSource := mkStaticSource { ss_facts : Facts; ss_hosts : list Host }.

(** The text up to the last separator, and after it. *)
Fixpoint cutLast (sep : ascii) (s : string) : option (string * string) :=
  match s with
  | "" => None
  | String c rest =>
    match cutLast sep rest with
    | Some (before, after) => Some (String c before, after)
    | None => if Ascii.eqb c sep then Some ("", rest) else None
    end
  end.

(** [net.SplitHostPort]; [None] for its errors. *)
Definition SplitHostPort (s : string) : option (string * string) :=
  match cutLast ":" s with
  | None => None
  | Some (before, port) =>
    match s with
    | String "[" rest =>
      match Cut "]" rest with
      | None => None
      | Some (host, tail) =>
        match tail with
        | String ":" port =>
          if containsByte ":" port || containsByte "[" rest || containsByte "]" port then None else Some (host, port)
        | _ => None
        end
      end
    | _ => if containsByte ":" before || containsByte "[" s || containsByte "]" s then None else Some (before, port)
    end
  end.

Example SplitHostPort_samples :
  map SplitHostPort ["h:22"; "[::1]:22"; "::1"; "h"; "[::1]"; "[h]x:1"; "h:"; "[a]:b:c"]
  = [Some ("h", "22"); Some ("::1", "22"); None; None; None; None; Some ("h", ""); None].
Proof. reflexivity. Qed.

Definition nameLabel : regexp :=
  RCat (RClass alnum) (optional (RCat (upTo 61 (RClass (λ c, alnum c || Ascii.eqb c "-"))) (RClass alnum))).
Definition dnsName : regexp := RCat nameLabel (RStar (RCat (lit ".") nameLabel)).

Section static.
Context `{!ParseIP, !SSHKeys}.

Definition staticAddress (address : string) : option string :=
  let '(host, port) := default (address, "22") (SplitHostPort address) in
  let '(number, ok) := ParseInt port in
  if negb ok || (number <? 1) || (65535 <? number) then None
  else if negb (bool_decide (is_Some (parseIP host)))
          && ((253 <? String.length host)%nat || negb (MatchString dnsName host)) then None
  else Some (JoinHostPort host port).

(** The loop of [NewStaticSource]. *)
Fixpoint listHosts (seen : list string) (hosts : list StaticHost) : string + list Host :=
  match hosts with
  | [] => inr []
  | host :: hosts =>
    if negb (ValidName (sh_Name host)) then inl "static host name must be lowercase letters, digits, and hyphens"
    else if bool_decide (sh_Name host ∈ seen) then inl "static host appears twice"
    else match staticAddress (sh_Address host) with
    | None => inl "static host has an invalid address; use an IP or a DNS name, with an optional :port"
    | Some address =>
      match ssh_AuthorizedKey (TrimSpace (sh_HostKey host)) with
      | None => inl "static host needs its SSH host public key"
      | Some key =>
        match listHosts (sh_Name host :: seen) hosts with
        | inl err => inl err
        | inr listed => inr (mkHost (sh_Name host) address (TrimSpace key) zeroTime "running" zeroTime "" :: listed)
        end
      end
    end
  end.

Definition NewStaticSource (billing : string) (hourlyPrice : f64) (currency : string) (hosts : list StaticHost)
    : string + StaticSource :=
  let billing := if String.eqb billing "" then BillingOwned else billing in
  if negb (String.eqb billing BillingOwned || String.eqb billing BillingPerSecond || String.eqb billing BillingPerStartedHour)
  then inl "unknown billing"
  else match hosts with
  | [] => inl "a static pool needs at least one host"
  | _ =>
    match listHosts [] hosts with
    | inl err => inl err
    | inr listed => inr (mkStaticSource (mkFacts billing hourlyPrice currency false) listed)
    end
  end.
End static.

Definition staticList (s : StaticSource) : list Host := ss_hosts s.
Definition staticCreate (name : string) : error + Host := inl (ErrorString "a static pool cannot create hosts").
Definition staticDelete (id : string) : option error := Some (ErrorString "a static pool never deletes hosts").

(** * The controller's key *)

Section hostkey.
Context `{!SSHKeys}.

(** [ControllerKey]: the seed and the public line. *)
Record ControllerKey := mkControllerKey { ck_seed : string; ck_public : string }.

Definition ParseControllerKey (contents : string) : error + ControllerKey :=
  match ssh_ParseRawPrivateKey contents with
  | None => inl (ErrorString "parse pool SSH key")
  | Some OtherKey => inl (ErrorString "the pool SSH key must be an ed25519 key (ssh-keygen -t ed25519)")
  | Some (Ed25519 seed) =>
    match ssh_PublicLine seed with
    | inl err => inl (WrapError "load pool SSH key" err)
    | inr line => inr (mkControllerKey seed line)
    end
  end.

Definition AuthorizedKey (k : ControllerKey) : string := TrimSpace (ck_public k).

(** [HostKey]: the private key and the public line of a host, both from its name. *)
Definition HostKey (k : ControllerKey) (name : string) : error + string * string :=
  let seed := hmac_SHA256 (ck_seed k) ("runneryard host key v1|" +:+ name) in
  match ssh_MarshalPrivateKey seed ("runneryard host " +:+ name) with
  | None => inl (ErrorString "encode host key")
  | Some private =>
    match ssh_PublicLine seed with
    | inl err => inl (WrapError "encode host public key" err)
    | inr line => inr (private, TrimSpace line)
    end
  end.
End hostkey.
