(* ===== verification/Status.v ===== *)
(** The published status of the fleet, as data (src/controller/status.go), and the
    alerts about it (src/controller/alert.go, conditions.go).

    Messages go to a channel of bounded depth that one goroutine empties; a full
    channel loses its oldest message.  Delivery over HTTP is left out: [delivered]
    is what the goroutine took.

    Then the reporter that keeps and writes the status. *)

From S2P Require Import Prelude Program Float64 Provider GoStrings GoText UsageBudget RetirementQueue.
From S2P Require Import WorkerState Scaler.

#[local] Open Scope string_scope.
#[local] Open Scope Z_scope.

(** * The status *)

Record ControllerStatus := mkControllerStatus {
  cs_ID : string; cs_Provider : string; cs_Version : string; cs_CommitSHA : string
}.
Record ScaleSetStatus := mkScaleSetStatus {
  ss_Name : string; ss_AssignedJobs : Z; ss_DesiredWorkers : Z; ss_Workers : Z
}.
Record GitHubStatus := mkGitHubStatus {
  ConfigURL : string; gh_ScaleSet : string; AssignedJobs : Z; DesiredWorkers : Z;
  LastActivityAt : time; LastEvent : string; ScaleSets : list ScaleSetStatus
}.
Record WorkerStatus := mkWorkerStatus {
  Actual : Z; Starting : Z; Busy : Z; Idle : Z; Unknown : Z; OrphanCandidates : Z;
  PendingRetirements : Z; OverdueRetirements : Z; Maximum : Z; Saturated : bool
}.
Record CapacityStatus := mkCapacityStatus {
  Configured : Z; Effective : Z; cp_Rejections : Z; cp_Rejection : string; cp_RetryAt : time
}.
Record LaunchStatus := mkLaunchStatus { la_Rejections : Z; la_Rejection : string; la_RetryAt : time }.
Record LatencyStats := mkLatencyStats {
  Samples : Z; Failures : Z; LastMS : Z; AverageMS : f64; MaximumMS : Z
}.
Record LatencyStatus := mkLatencyStatus { ProviderCreate : LatencyStats; Assignment : LatencyStats }.

(** [Compute] is the JSON of the compute's own state. *)
Record FleetStatus := mkFleetStatus {
  SchemaVersion : Z; UpdatedAt : time; fs_StartedAt : time; Health : string; Reason : string;
  fs_Controller : ControllerStatus; fs_GitHub : GitHubStatus; fs_Workers : WorkerStatus;
  fs_Capacity : CapacityStatus; fs_Launch : LaunchStatus; fs_Latency : LatencyStatus;
  fs_Budget : BudgetStatus; fs_Compute : string
}.

(** * Durations as text *)

(** [d.Round(m)] of a duration that is not negative. *)
Definition Round (d m : duration) : duration :=
  let r := Z.rem d m in
  if r + r <? m then d - r else Z.min max_int64 (d + (m - r)).

(** [d.String()] of whole seconds. *)
Definition secondsString (d : duration) : string :=
  let s := Z.quot d Second in
  (if 3600 <=? s then Itoa (s / 3600) +:+ "h" else "")
  +:+ (if 60 <=? s then Itoa (s / 60 mod 60) +:+ "m" else "")
  +:+ Itoa (s mod 60) +:+ "s".

(** [roughly] *)
Definition roughly (d : duration) : string :=
  if d <? Minute then secondsString (Round (Z.max d 0) Second)
  else if d <? Hour then Itoa (Z.quot (Round d Minute) Minute) +:+ "m"
  else let d := Round d Minute in
       Itoa (Z.quot d Hour) +:+ "h" +:+ padNumber 2 (Z.quot (Z.rem d Hour) Minute) +:+ "m".

Example roughly_samples :
  map roughly [45 * Second; 59 * Second + 700 * Millisecond; 10 * Minute; 2 * Hour + 5 * Minute; -1]
  = ["45s"; "1m0s"; "10m"; "2h05m"; "0s"].
Proof. vm_compute. done. Qed.

(** * Alerts *)

Definition alertQueueDepth : nat := 32.
Definition alertRepeatInterval : duration := Hour.

Record alerter := mkAlerter {
  al_controller : string; al_scaleSet : string; lastKey : string; lastSent : time;
  al_queue : list string; delivered : list string
}.

(** The select of [enqueue]: a send that does not wait. *)
Definition trySend (text : string) (a : alerter) : bool * alerter :=
  if (length (al_queue a) <? alertQueueDepth)%nat
  then (true, mkAlerter (al_controller a) (al_scaleSet a) (lastKey a) (lastSent a) (app (al_queue a) [text]) (delivered a))
  else (false, a).

Definition dropOldest (a : alerter) : alerter :=
  mkAlerter (al_controller a) (al_scaleSet a) (lastKey a) (lastSent a) (tl (al_queue a)) (delivered a).

(** The goroutine of [run] takes a message. *)
Definition takeMessage (a : alerter) : alerter :=
  match al_queue a with
  | [] => a
  | text :: queue => mkAlerter (al_controller a) (al_scaleSet a) (lastKey a) (lastSent a) queue (text :: delivered a)
  end.

(** [enqueue], with nobody else on the channel between its selects. *)
Definition enqueue (text : string) (a : alerter) : alerter :=
  let '(sent, a) := trySend text a in
  if sent then a else (trySend text (dropOldest a)).2.

(** [message] *)
Definition alertMessage (status : FleetStatus) (reminder : bool) (a : alerter) : string :=
  let retry at_ := if IsZero at_ then "" else "; the next bounded probe is after " +:+ FormatRFC3339 at_ in
  let cap := fs_Capacity status in let lau := fs_Launch status in
  "RunnerYard " +:+ al_controller a +:+ " (" +:+ al_scaleSet a +:+ "): " +:+ Health status
  +:+ (if String.eqb (Reason status) "" then "" else " " +:+ Reason status)
  +:+ (if reminder then " (still)" else "")
  +:+ (if String.eqb (Reason status) "usage_budget_exhausted" then
         ". New jobs stay queued until the rolling window releases usage; raise RUNNER_USAGE_BUDGET to admit them."
       else if String.eqb (Reason status) "provider_capacity_exhausted" then
         ". Provider capacity is " +:+ Itoa (Effective cap) +:+ " of " +:+ Itoa (Configured cap)
         +:+ " configured workers (" +:+ cp_Rejection cap +:+ "); lower MAX_RUNNERS or raise the provider quota"
         +:+ retry (cp_RetryAt cap) +:+ "."
       else if String.eqb (Reason status) "provider_launch_rejected" then
         ". The provider rejected worker launches (" +:+ la_Rejection lau
         +:+ "); check the worker image, shape, region, and token permissions" +:+ retry (la_RetryAt lau) +:+ "."
       else if String.eqb (Reason status) "github_session_restarting" then
         ". The GitHub scale-set session ended on a transport failure; the controller reopens it with bounded backoff and existing workers keep running."
       else if HasPrefix (Reason status) "provider_" then
         ". The provider is unavailable; the controller keeps retrying on every message."
       else if String.eqb (Reason status) "orphan_candidates" then
         ". Provider inventory holds workers the controller does not recognize; inspect them before deleting anything."
       else if String.eqb (Reason status) "runner_retirements_pending" then
         ". A worker's GitHub registration has stayed pending beyond the retirement grace; reconciliation keeps retrying it."
       else if String.eqb (Health status) "ready" then ". Recovered."
       else "")
  +:+ " Workers " +:+ Itoa (Actual (fs_Workers status)) +:+ "/" +:+ Itoa (Maximum (fs_Workers status))
  +:+ (if 0 <? HorizonSeconds (fs_Budget status)
       then ", budget horizon " +:+ secondsString (Round (wrap64 (HorizonSeconds (fs_Budget status) * Second)) Hour)
       else "")
  +:+ ".".

Definition alertKey (status : FleetStatus) : string := Health status +:+ ":" +:+ Reason status.

Definition noted (key : string) (now : time) (a : alerter) : alerter :=
  mkAlerter (al_controller a) (al_scaleSet a) key now (al_queue a) (delivered a).

(** The decision of [observe]: the message to send, if any. *)
Definition decide_ (status : FleetStatus) (now : time) (a : alerter) : option string * alerter :=
  let key := alertKey status in
  if String.eqb (Health status) "starting" then (None, a)
  else
  let transition := negb (String.eqb key (lastKey a)) in
  let reminder := negb transition && String.eqb (Health status) "degraded"
                  && (alertRepeatInterval <=? Sub now (lastSent a)) in
  if negb transition && negb reminder then (None, a)
  else if transition && String.eqb (Health status) "ready" && String.eqb (lastKey a) "" then (None, noted key now a)
  else (Some (alertMessage status reminder a), noted key now a).

Definition observe (status : FleetStatus) (now : time) (a : alerter) : alerter :=
  match decide_ status now a with (Some text, a) => enqueue text a | (None, a) => a end.

(** * Conditions of the compute *)

Definition conditionLinesPerAlert : nat := 10.

(** [provider.Condition] *)
Record Condition := mkCondition { Key : string; Summary : string; Action : string; Since : time }.
Record watchedCondition := mkWatched { wc_condition : Condition; notified : time }.

Definition conditionLine (c : Condition) (note : string) : string :=
  Summary c +:+ note +:+ "." +:+ (if String.eqb (Action c) "" then "" else " " +:+ Action c).

Definition newline : string := bytes [10]%nat.

(** The loop of [conditionMessage]: the lines from the [i]-th of [total]. *)
Fixpoint conditionLines (total i : nat) (lines : list string) : string :=
  match lines with
  | [] => ""
  | line :: lines =>
    if (i =? conditionLinesPerAlert)%nat
    then newline +:+ "- and " +:+ Itoa (Z.of_nat (total - i)) +:+ " more; see runneryard status."
    else newline +:+ "- " +:+ line +:+ conditionLines total (S i) lines
  end.

Definition conditionMessage (lines : list string) (a : alerter) : string :=
  "RunnerYard " +:+ al_controller a +:+ " (" +:+ al_scaleSet a +:+ "): "
  +:+ match lines with
      | [line] => line
      | _ => Itoa (Z.of_nat (length lines)) +:+ " compute conditions changed:" +:+ conditionLines (length lines) 0 lines
      end.

(** The loop over a sample, with the keys already seen and the lines, last first. *)
Fixpoint watchFrom (now : time) (conditions : list Condition) (present : gset string)
    (active : gmap string watchedCondition) (lines : list string)
    : gset string * gmap string watchedCondition * list string :=
  match conditions with
  | [] => (present, active, lines)
  | c :: conditions =>
    if String.eqb (Key c) "" || bool_decide (Key c ∈ present) then watchFrom now conditions present active lines
    else
    let present := {[Key c]} ∪ present in
    match active !! Key c with
    | None => watchFrom now conditions present (<[Key c := mkWatched c now]> active) (conditionLine c "" :: lines)
    | Some w =>
      if alertRepeatInterval <=? Sub now (notified w)
      then watchFrom now conditions present (<[Key c := mkWatched c now]> active)
             (conditionLine c (" (still, for " +:+ roughly (Sub now (Since c)) +:+ ")") :: lines)
      else watchFrom now conditions present (<[Key c := mkWatched c (notified w)]> active) lines
    end
  end.

(** [conditionWatch.observe]: the conditions still active, and the lines to send. *)
Definition watch (conditions : list Condition) (now : time) (active : gmap string watchedCondition)
    : gmap string watchedCondition * list string :=
  let '(present, active, lines) := watchFrom now conditions ∅ active [] in
  let gone := merge_sort str_le (keep (λ key, negb (bool_decide (key ∈ present))) (map_to_list active).*1) in
  let cleared key :=
    match active !! key with
    | Some w => "cleared after " +:+ roughly (Sub now (Since (wc_condition w))) +:+ ": " +:+ Summary (wc_condition w) +:+ "."
    | None => ""
    end in
  (filter (λ x, x.1 ∈ present) active, app (rev lines) (map cleared gone)).

(** [conditionWatch.observe] with its message, if there is an alerter. *)
Definition watchAndAlert (conditions : list Condition) (now : time) (active : gmap string watchedCondition)
    (a : option alerter) : gmap string watchedCondition * option alerter :=
  let '(active, lines) := watch conditions now active in
  (active, match lines with
           | [] => a
           | _ => (λ a, enqueue (conditionMessage lines a) a) <$> a
           end).

(** * The reporter *)

#[local] Open Scope string_scope.
#[local] Open Scope Z_scope.

Definition statusSchemaVersion : Z := 2.
Definition maximumStatusSize : Z := 1048576.
Definition max_uint64 : Z := 2 ^ 64 - 1.

(** * Changes *)

Definition eta_FleetStatus (s : FleetStatus) : FleetStatus :=
  mkFleetStatus (SchemaVersion s) (UpdatedAt s) (fs_StartedAt s) (Health s) (Reason s) (fs_Controller s)
    (fs_GitHub s) (fs_Workers s) (fs_Capacity s) (fs_Launch s) (fs_Latency s) (fs_Budget s) (fs_Compute s).
Definition set_UpdatedAt (v : time) (s : FleetStatus) : FleetStatus := ltac:(replace_field eta_FleetStatus UpdatedAt v s).
Definition set_GitHub (v : GitHubStatus) (s : FleetStatus) : FleetStatus := ltac:(replace_field eta_FleetStatus fs_GitHub v s).
Definition set_Workers (v : WorkerStatus) (s : FleetStatus) : FleetStatus := ltac:(replace_field eta_FleetStatus fs_Workers v s).
Definition set_Capacity (v : CapacityStatus) (s : FleetStatus) : FleetStatus := ltac:(replace_field eta_FleetStatus fs_Capacity v s).
Definition set_Launch (v : LaunchStatus) (s : FleetStatus) : FleetStatus := ltac:(replace_field eta_FleetStatus fs_Launch v s).
Definition set_Latency (v : LatencyStatus) (s : FleetStatus) : FleetStatus := ltac:(replace_field eta_FleetStatus fs_Latency v s).
Definition set_Budget (v : BudgetStatus) (s : FleetStatus) : FleetStatus := ltac:(replace_field eta_FleetStatus fs_Budget v s).
Definition set_Compute (v : string) (s : FleetStatus) : FleetStatus := ltac:(replace_field eta_FleetStatus fs_Compute v s).
Definition set_Health (health reason : string) (s : FleetStatus) : FleetStatus :=
  mkFleetStatus (SchemaVersion s) (UpdatedAt s) (fs_StartedAt s) health reason (fs_Controller s)
    (fs_GitHub s) (fs_Workers s) (fs_Capacity s) (fs_Launch s) (fs_Latency s) (fs_Budget s) (fs_Compute s).

Definition active_ (now : time) (event : string) (g : GitHubStatus) : GitHubStatus :=
  mkGitHubStatus (ConfigURL g) (gh_ScaleSet g) (AssignedJobs g) (DesiredWorkers g) now event (ScaleSets g).

Definition githubActivity (event : string) (now : time) (s : FleetStatus) : FleetStatus :=
  set_GitHub (active_ now event (fs_GitHub s)) s.

(** The loop of [desired] over the scale sets: the entries, and the sums. *)
Fixpoint desiredSets (scaleSet : string) (assigned desired : Z) (sets : list ScaleSetStatus) (jobs workers : Z)
    : list ScaleSetStatus * Z * Z :=
  match sets with
  | [] => ([], jobs, workers)
  | entry :: sets =>
    let entry := if String.eqb (ss_Name entry) scaleSet
                 then mkScaleSetStatus (ss_Name entry) (Z.max 0 assigned) (Z.max 0 desired) (ss_Workers entry)
                 else entry in
    let '(rest, jobs, workers) := desiredSets scaleSet assigned desired sets
      (wrap64 (jobs + ss_AssignedJobs entry)) (wrap64 (workers + ss_DesiredWorkers entry)) in
    (entry :: rest, jobs, workers)
  end.

Definition desired (scaleSet : string) (assigned desired : Z) (now : time) (s : FleetStatus) : FleetStatus :=
  let g := fs_GitHub s in
  let '(sets, jobs, workers) :=
    match ScaleSets g with
    | [] => ([], Z.max 0 assigned, Z.max 0 desired)
    | sets => desiredSets scaleSet assigned desired sets 0 0
    end in
  set_GitHub (mkGitHubStatus (ConfigURL g) (gh_ScaleSet g) jobs workers now "desired_count" sets) s.

Definition scaleSetWorkers (scaleSet : string) (count : Z) (s : FleetStatus) : FleetStatus :=
  let g := fs_GitHub s in
  let counted entry :=
    if String.eqb (ss_Name entry) scaleSet
    then mkScaleSetStatus (ss_Name entry) (ss_AssignedJobs entry) (ss_DesiredWorkers entry) (Z.max 0 count)
    else entry in
  set_GitHub (mkGitHubStatus (ConfigURL g) (gh_ScaleSet g) (AssignedJobs g) (DesiredWorkers g) (LastActivityAt g)
                (LastEvent g) (map counted (ScaleSets g))) s.

Definition workers (actual busy idle unknown : Z) (s : FleetStatus) : FleetStatus :=
  let w := fs_Workers s in
  set_Workers (mkWorkerStatus (Z.max 0 actual) (Starting w) (Z.max 0 busy) (Z.max 0 idle) (Z.max 0 unknown)
                 (OrphanCandidates w) (PendingRetirements w) (OverdueRetirements w) (Maximum w) (Saturated w)) s.

Definition starting (delta : Z) (s : FleetStatus) : FleetStatus :=
  let w := fs_Workers s in
  set_Workers (mkWorkerStatus (Actual w) (Z.max 0 (wrap64 (Starting w + delta))) (Busy w) (Idle w) (Unknown w)
                 (OrphanCandidates w) (PendingRetirements w) (OverdueRetirements w) (Maximum w) (Saturated w)) s.

Definition orphans (count : Z) (s : FleetStatus) : FleetStatus :=
  let w := fs_Workers s in
  set_Workers (mkWorkerStatus (Actual w) (Starting w) (Busy w) (Idle w) (Unknown w) (Z.max 0 count)
                 (PendingRetirements w) (OverdueRetirements w) (Maximum w) (Saturated w)) s.

Definition retirements (count overdue : Z) (s : FleetStatus) : FleetStatus :=
  let w := fs_Workers s in
  set_Workers (mkWorkerStatus (Actual w) (Starting w) (Busy w) (Idle w) (Unknown w) (OrphanCandidates w)
                 (Z.max 0 count) (Z.min (Z.max 0 overdue) (Z.max 0 count)) (Maximum w) (Saturated w)) s.

(** [elapsed.Milliseconds()] *)
Definition Milliseconds (d : duration) : Z := Z.quot d Millisecond.

Definition addLatency (stats : LatencyStats) (elapsed : duration) (failed : bool) : LatencyStats :=
  let milliseconds := Z.max 0 (Milliseconds elapsed) in
  let counted := Samples stats <? max_uint64 in
  let samples := if counted then Samples stats + 1 else Samples stats in
  let average := if counted
                 then f64_add (AverageMS stats)
                        (f64_div (f64_sub (f64_of_int milliseconds) (AverageMS stats)) (f64_of_int samples))
                 else AverageMS stats in
  mkLatencyStats samples (if failed && (Failures stats <? max_uint64) then Failures stats + 1 else Failures stats)
    milliseconds average (Z.max (MaximumMS stats) milliseconds).

Definition latency (providerCreate : bool) (elapsed : duration) (failed : bool) (s : FleetStatus) : FleetStatus :=
  let l := fs_Latency s in
  set_Latency (if providerCreate
               then mkLatencyStatus (addLatency (ProviderCreate l) elapsed failed) (Assignment l)
               else mkLatencyStatus (ProviderCreate l) (addLatency (Assignment l) elapsed failed)) s.

Definition more (rejections : Z) : Z := if rejections <? max_uint64 then rejections + 1 else rejections.

Definition capacityRejected (effective : Z) (reason : string) (retryAt : time) (s : FleetStatus) : FleetStatus :=
  let c := fs_Capacity s in
  set_Capacity (mkCapacityStatus (Configured c) (Z.min (Z.max 0 effective) (Configured c)) (more (cp_Rejections c))
                  reason retryAt) s.
Definition capacityRecovered (s : FleetStatus) : FleetStatus :=
  let c := fs_Capacity s in
  set_Capacity (mkCapacityStatus (Configured c) (Configured c) (cp_Rejections c) "" zeroTime) s.
Definition launchRejected (reason : string) (retryAt : time) (s : FleetStatus) : FleetStatus :=
  set_Launch (mkLaunchStatus (more (la_Rejections (fs_Launch s))) reason retryAt) s.
Definition launchRecovered (s : FleetStatus) : FleetStatus :=
  set_Launch (mkLaunchStatus (la_Rejections (fs_Launch s)) "" zeroTime) s.

(** What a call of the reporter does to the status; [now] is the clock it reads. *)
Definition change (r : report) (now : time) (s : FleetStatus) : FleetStatus :=
  match r with
  | r_desired name assigned target => desired name assigned target now s
  | r_degraded _ | r_recovered => s
  | r_orphans n => orphans n s
  | r_workers actual busy idle unknown => workers actual busy idle unknown s
  | r_scaleSetWorkers name n => scaleSetWorkers name n s
  | r_retirements pending overdue => retirements pending overdue s
  | r_budget b => set_Budget b s
  | r_starting delta => starting delta s
  | r_latency launch d failed => latency launch d failed s
  | r_githubActivity kind => githubActivity kind now s
  | r_capacityRejected effective reason retryAt => capacityRejected effective reason retryAt s
  | r_capacityRecovered => capacityRecovered s
  | r_launchRejected reason retryAt => launchRejected reason retryAt s
  | r_launchRecovered => launchRecovered s
  end.

(** ... and to [reporter.failure]. *)
Definition changeFailure (r : report) (failure : string) : string :=
  match r with r_degraded reason => reason | r_recovered => "" | _ => failure end.

(** * Health *)

Definition derive (failure : string) (s : FleetStatus) : FleetStatus :=
  let w := fs_Workers s in
  let effective := if Configured (fs_Capacity s) =? 0 then Maximum w else Effective (fs_Capacity s) in
  let s := set_Workers (mkWorkerStatus (Actual w) (Starting w) (Busy w) (Idle w) (Unknown w) (OrphanCandidates w)
             (PendingRetirements w) (OverdueRetirements w) (Maximum w)
             (effective <=? wrap64 (Actual w + Starting w))) s in
  if negb (String.eqb failure "") then set_Health "degraded" failure s
  else if negb (String.eqb (cp_Rejection (fs_Capacity s)) "") then set_Health "degraded" "provider_capacity_exhausted" s
  else if negb (String.eqb (la_Rejection (fs_Launch s)) "") then set_Health "degraded" "provider_launch_rejected" s
  else if 0 <? OverdueRetirements w then set_Health "degraded" "runner_retirements_pending" s
  else if 0 <? OrphanCandidates w then set_Health "degraded" "orphan_candidates" s
  else if negb (String.eqb (RefusalReason (fs_Budget s)) "") then set_Health "degraded" (RefusalReason (fs_Budget s)) s
  else if IsZero (LastActivityAt (fs_GitHub s)) then set_Health "starting" "" s
  else set_Health "ready" "" s.

(** * Validity *)

Definition checkLatency (l : LatencyStats) : bool :=
  (Samples l <? Failures l) || (LastMS l <? 0) || (MaximumMS l <? 0) || (mantissa (AverageMS l) <? 0).

(** [validate] *)
Definition validate (s : FleetStatus) : option error :=
  let w := fs_Workers s in let c := fs_Capacity s in let l := fs_Launch s in let b := fs_Budget s in
  let incomplete rejections rejection at_ := negb (String.eqb rejection "") && ((rejections =? 0) || IsZero at_) in
  let sets := ScaleSets (fs_GitHub s) in
  if negb (SchemaVersion s =? statusSchemaVersion) || IsZero (UpdatedAt s) || IsZero (fs_StartedAt s)
  then Some (ErrorString "fleet status has an unsupported schema or missing timestamps")
  else if negb (existsb (String.eqb (Health s)) ["starting"; "ready"; "degraded"])
  then Some (ErrorString "fleet status contains an invalid health value")
  else if existsb (λ x, String.eqb (ss_Name x) "") sets
  then Some (ErrorString "fleet status lists a scale set without a name")
  else if existsb (λ v, v <? 0)
            (app [Actual w; Starting w; Busy w; Idle w; Unknown w; OrphanCandidates w; PendingRetirements w; Maximum w]
                 (concat (map (λ x, [ss_AssignedJobs x; ss_DesiredWorkers x; ss_Workers x]) sets)))
  then Some (ErrorString "fleet status contains a negative worker count")
  else if (Configured c <? 0) || (Effective c <? 0) || ((0 <? Configured c) && (Configured c <? Effective c))
  then Some (ErrorString "fleet status contains invalid capacity metrics")
  else if incomplete (cp_Rejections c) (cp_Rejection c) (cp_RetryAt c)
  then Some (ErrorString "fleet status contains an incomplete provider capacity rejection")
  else if incomplete (la_Rejections l) (la_Rejection l) (la_RetryAt l)
  then Some (ErrorString "fleet status contains an incomplete provider launch rejection")
  else if negb (wrap64 (wrap64 (Busy w + Idle w) + Unknown w) =? Actual w)
  then Some (ErrorString "fleet status worker counts are inconsistent")
  else if existsb checkLatency [ProviderCreate (fs_Latency s); Assignment (fs_Latency s)]
  then Some (ErrorString "fleet status contains invalid latency metrics")
  else if existsb (λ v, v <? 0) [LimitSeconds b; UsedSeconds b; ReservedSeconds b; RemainingSeconds b;
                                 WindowSeconds b; BurnSecondsPerDay b; HorizonSeconds b]
  then Some (ErrorString "fleet status contains a negative budget value")
  else None.

(** * The file *)

(** What the path of the status names: nothing, no regular file, or a file and
    whether only its owner may read it. *)
Inductive statusFile :=
  | NoFile | Irregular | StatusFile (private : bool) (content : option FleetStatus).

(** Which system calls of a write succeed. *)
Record statusIO := mkStatusIO {
  so_mkdir : bool; so_lstat : bool; so_marshal : bool; so_temp : bool; so_chmod : bool; so_write : bool;
  so_sync : bool; so_close : bool; so_rename : bool; so_chmodFile : bool; so_openDir : bool; so_syncDir : bool
}.

(** [writeStatusFile]; the rename is the commit point. *)
Definition writeStatusFile (io : statusIO) (path : string) (status : FleetStatus) (file : statusFile)
    : option error * statusFile :=
  if String.eqb path "" then (Some (ErrorString "fleet status file is required"), file)
  else if negb (so_mkdir io) then (Some (ErrorString "create fleet status directory"), file)
  else if negb (so_lstat io) then (Some (ErrorString "inspect fleet status file"), file)
  else match file with
  | Irregular => (Some (ErrorString "refusing to replace a non-regular or symlinked fleet status file"), file)
  | _ =>
    if negb (so_marshal io) then (Some (ErrorString "encode fleet status"), file)
    else if negb (so_temp io) then (Some (ErrorString "create temporary fleet status"), file)
    else if negb (so_chmod io) then (Some (ErrorString "secure temporary fleet status"), file)
    else if negb (so_write io) then (Some (ErrorString "write fleet status"), file)
    else if negb (so_sync io) then (Some (ErrorString "sync fleet status"), file)
    else if negb (so_close io) then (Some (ErrorString "close fleet status"), file)
    else if negb (so_rename io) then (Some (ErrorString "commit fleet status"), file)
    else
      let file := StatusFile true (Some status) in
      if negb (so_chmodFile io) then (Some (ErrorString "secure fleet status"), file)
      else if negb (so_openDir io) then (Some (ErrorString "open fleet status directory"), file)
      else if negb (so_syncDir io) then (Some (ErrorString "sync fleet status directory"), file)
      else (None, file)
  end.

(** Which system calls of a read succeed, the size of the file and what follows the
    status in it. *)
Record loadIO := mkLoadIO {
  lo_abs : bool; lo_openRoot : bool; lo_lstat : bool; lo_size : Z; lo_open : bool; lo_same : bool; lo_trailing : bool
}.

(** [LoadStatus] *)
Definition LoadStatus (io : loadIO) (windows : bool) (file : statusFile) : error + FleetStatus :=
  if negb (lo_abs io) then inl (ErrorString "resolve fleet status path")
  else if negb (lo_openRoot io) then inl (ErrorString "open fleet status directory")
  else if negb (lo_lstat io) then inl (ErrorString "inspect fleet status")
  else match file with
  | NoFile => inl (ErrorString "inspect fleet status")
  | Irregular => inl (ErrorString "fleet status must be a regular file, not a symlink")
  | StatusFile private content =>
    if negb windows && negb private then inl (ErrorString "fleet status is readable by group or others")
    else if (lo_size io <? 1) || (maximumStatusSize <? lo_size io)
    then inl (ErrorString "fleet status size is outside the safe range")
    else if negb (lo_open io) then inl (ErrorString "open fleet status")
    else if negb (lo_same io) then inl (ErrorString "fleet status changed while it was being inspected")
    else match content with
    | None => inl (ErrorString "decode fleet status")
    | Some status =>
      if lo_trailing io then inl (ErrorString "fleet status contains trailing data")
      else match validate status with Some err => inl err | None => inr status end
    end
  end.

(** * The reporter *)

Record reporter := mkReporter {
  rp_status : FleetStatus; failure : string; dirty : bool; revision : Z; started : bool
}.

(** What changes the status: a call of the controller's, or a sample of the compute. *)
Inductive reporterCall := Reported (r : report) | Sampled (compute : string).

Definition changeCall (c : reporterCall) (now : time) (s : FleetStatus) : FleetStatus :=
  match c with Reported r => change r now s | Sampled compute => set_Compute compute s end.

(** The critical section of [update]; [now] is the clock of the change, [at_] that of
    the update. *)
Definition updateStatus (c : reporterCall) (now at_ : time) (p : reporter) : reporter :=
  let failure := match c with Reported r => changeFailure r (failure p) | Sampled _ => failure p end in
  let status := derive failure (set_UpdatedAt at_ (changeCall c now (rp_status p))) in
  mkReporter status failure true (if revision p <? max_uint64 then revision p + 1 else revision p) (started p).

Class StatusEnv (W : Type) := mkStatusEnv {
  st_now : W → time * W;
  st_io : W → statusIO * W;
  (** The compute's conditions, if it has any, and its state, if it can be encoded. *)
  st_sample : W → (option (list Condition) * option string) * W
}.

Record statusSys (W : Type) := mkStatusSys {
  rep : reporter; alerts : option alerter; watched : gmap string watchedCondition; file : statusFile; sworld : W
}.
Arguments mkStatusSys {W}.
Arguments rep {W}.
Arguments alerts {W}.
Arguments watched {W}.
Arguments file {W}.
Arguments sworld {W}.

Section reporter.
Context {W : Type} {E : StatusEnv W} (path : string).
Abbreviation Σ := (statusSys W).
Abbreviation P := (prog Σ).

(** The reports that read the clock themselves. *)
Definition readsClock (c : reporterCall) : bool :=
  match c with Reported (r_desired _ _ _) | Reported (r_githubActivity _) => true | _ => false end.

(** The status after a call, and whether it is still written by the caller. *)
Definition critical (c : reporterCall) : P (FleetStatus * bool) := act (λ s,
  let '(now, w) := if readsClock c then st_now (sworld s) else (zeroTime, sworld s) in
  let '(at_, w) := st_now w in
  let p := updateStatus c now at_ (rep s) in
  ((rp_status p, negb (started p)), mkStatusSys p (alerts s) (watched s) (file s) w)).

Definition observeStatus (status : FleetStatus) : P () := act (λ s,
  match alerts s with
  | None => ((), s)
  | Some a =>
    let '(now, w) := st_now (sworld s) in
    ((), mkStatusSys (rep s) (Some (observe status now a)) (watched s) (file s) w)
  end).

(** A copy of the status keeps the array of its scale sets: what is encoded after the
    lock is released has their entries as they are by then. *)
Definition sharedSets (status : FleetStatus) (p : reporter) : FleetStatus :=
  let g := fs_GitHub status in
  set_GitHub (mkGitHubStatus (ConfigURL g) (gh_ScaleSet g) (AssignedJobs g) (DesiredWorkers g) (LastActivityAt g)
                (LastEvent g) (ScaleSets (fs_GitHub (rp_status p)))) status.

Definition flush : P () :=
  snapshot ← get (λ s, if dirty (rep s) then Some (rp_status (rep s), revision (rep s)) else None);
  match snapshot with
  | None => mret ()
  | Some (status, taken) =>
    err ← act (λ s, let '(io, w) := st_io (sworld s) in
                    let '(err, f) := writeStatusFile io path (sharedSets status (rep s)) (file s) in
                    (err, mkStatusSys (rep s) (alerts s) (watched s) f w));
    match err with
    | Some _ => mret ()
    | None => update (λ s,
        if revision (rep s) =? taken
        then mkStatusSys (mkReporter (rp_status (rep s)) (failure (rep s)) false (revision (rep s)) (started (rep s)))
               (alerts s) (watched s) (file s) (sworld s)
        else s)
    end
  end.

(** [update] *)
Definition updateReporter (c : reporterCall) : P () :=
  r ← critical c;
  observeStatus r.1;;
  if (r.2 : bool) then flush else mret ().

Definition sampleCompute : P () :=
  sample ← act (λ s, let '(sample, w) := st_sample (sworld s) in
                     (sample, mkStatusSys (rep s) (alerts s) (watched s) (file s) w));
  (match sample.1 with
   | None => mret ()
   | Some conditions => act (λ s,
       let '(now, w) := st_now (sworld s) in
       let '(watched, alerts) := watchAndAlert conditions now (watched s) (alerts s) in
       ((), mkStatusSys (rep s) alerts watched (file s) w))
   end);;
  match sample.2 with None => mret () | Some compute => updateReporter (Sampled compute) end.

(** The tickers of [loop]; the heartbeat reports the budget's snapshot. *)
Inductive tick := FlushTick | HeartbeatTick (budget : BudgetStatus) | ComputeTick.

Definition loopTurn (t : tick) : P () :=
  match t with
  | FlushTick => flush
  | HeartbeatTick budget => updateReporter (Reported (r_budget budget))
  | ComputeTick => sampleCompute
  end.

(** [start] and [close], but for the goroutines they start and wait for. *)
Definition startReporter : P () := update (λ s,
  mkStatusSys (mkReporter (rp_status (rep s)) (failure (rep s)) (dirty (rep s)) (revision (rep s)) true)
    (alerts s) (watched s) (file s) (sworld s)).
Definition closeReporter : P () := flush.
End reporter.

(** ** Construction *)

Record reporterConfig := mkReporterConfig {
  rc_StatusFile : string; rc_ControllerID : string; rc_Provider : string; rc_Version : string; rc_CommitSHA : string;
  rc_GitHubURL : string; rc_ScaleSetName : string; rc_EphemeralScaleSetName : string; rc_MaxWorkers : Z;
  rc_AlertWebhookURL : string
}.

Definition noLatency : LatencyStats := mkLatencyStats 0 0 0 f64_zero 0.

Definition initialStatus (cfg : reporterConfig) (budget : BudgetStatus) (now : time) : FleetStatus :=
  mkFleetStatus statusSchemaVersion now now "starting" ""
    (mkControllerStatus (rc_ControllerID cfg) (rc_Provider cfg) (rc_Version cfg) (rc_CommitSHA cfg))
    (mkGitHubStatus (rc_GitHubURL cfg) (rc_ScaleSetName cfg) 0 0 zeroTime ""
       (if String.eqb (rc_EphemeralScaleSetName cfg) "" then []
        else [mkScaleSetStatus (rc_ScaleSetName cfg) 0 0 0; mkScaleSetStatus (rc_EphemeralScaleSetName cfg) 0 0 0]))
    (mkWorkerStatus 0 0 0 0 0 0 0 0 (rc_MaxWorkers cfg) false)
    (mkCapacityStatus (rc_MaxWorkers cfg) (rc_MaxWorkers cfg) 0 "" zeroTime)
    (mkLaunchStatus 0 "" zeroTime) (mkLatencyStatus noLatency noLatency) budget "".

(** [newAlerter]; [webhook] says whether the URL has a scheme of HTTP and a host. *)
Definition newAlerter (webhook : string → bool) (cfg : reporterConfig) : string + option alerter :=
  let target := TrimSpace (rc_AlertWebhookURL cfg) in
  if String.eqb target "" then inr None
  else if negb (webhook target) then inl "alert webhook must be an http(s) URL"
  else inr (Some (mkAlerter (rc_ControllerID cfg) (rc_ScaleSetName cfg) "" zeroTime [] [])).

(** [newStatusReporter]: the state after the first write. *)
Definition newStatusReporter {W} {E : StatusEnv W} (webhook : string → bool) (cfg : reporterConfig)
    (budget : BudgetStatus) (file : statusFile) (w : W) : error + statusSys W :=
  let '(now, w) := st_now w in
  let status := initialStatus cfg budget now in
  match newAlerter webhook cfg with
  | inl err => inl (ErrorString err)
  | inr alerts =>
    let '(io, w) := st_io w in
    let '(err, file) := writeStatusFile io (rc_StatusFile cfg) status file in
    match err with
    | Some err => inl (WrapError "initialize fleet status" err)
    | None => inr (mkStatusSys (mkReporter status "" false 0 false) alerts ∅ file w)
    end
  end.
