(* ===== verification/StatusTheorems.v ===== *)
(** What the status reporter guarantees: every status it writes is one that is
    accepted when it is read, none is lost for long, and an alert goes out when the
    health changes and at most hourly while it lasts. *)

From S2P Require Import Prelude Program Float64 Provider GoStrings GoText UsageBudget RetirementQueue.
From S2P Require Import WorkerState Scaler Status.

#[local] Open Scope Z_scope.

(** * Valid statuses *)

Definition budgetSane (b : BudgetStatus) : Prop :=
  0 <= LimitSeconds b ∧ 0 <= UsedSeconds b ∧ 0 <= ReservedSeconds b ∧ 0 <= RemainingSeconds b
  ∧ 0 <= WindowSeconds b ∧ 0 <= BurnSecondsPerDay b ∧ 0 <= HorizonSeconds b.

Definition setSane (x : ScaleSetStatus) : Prop :=
  ss_Name x ≠ ""%string ∧ 0 <= ss_AssignedJobs x ∧ 0 <= ss_DesiredWorkers x ∧ 0 <= ss_Workers x.

Definition workersSane (w : WorkerStatus) : Prop :=
  0 <= Starting w ∧ 0 <= Busy w ∧ 0 <= Idle w ∧ 0 <= Unknown w ∧ 0 <= OrphanCandidates w
  ∧ 0 <= PendingRetirements w ∧ 0 <= Maximum w ∧ Actual w = Busy w + Idle w + Unknown w ∧ Actual w <= max_int64.

Definition rejectionSane (rejections : Z) (rejection : string) (at_ : time) : Prop :=
  0 <= rejections ∧ (rejection ≠ ""%string → 0 < rejections ∧ at_ ≠ zeroTime).

Definition latencySane (l : LatencyStats) : Prop :=
  0 <= Failures l <= Samples l ∧ 0 <= LastMS l ∧ 0 <= MaximumMS l ∧ proper (AverageMS l).

(** What every status of a reporter is, but for its health and its clock. *)
Record contentSane (s : FleetStatus) : Prop := {
  cs_schema : SchemaVersion s = statusSchemaVersion;
  cs_started : fs_StartedAt s ≠ zeroTime;
  cs_sets : Forall setSane (ScaleSets (fs_GitHub s));
  cs_workers : workersSane (fs_Workers s);
  cs_capacity : 0 <= Effective (fs_Capacity s) <= Configured (fs_Capacity s);
  cs_rejected : rejectionSane (cp_Rejections (fs_Capacity s)) (cp_Rejection (fs_Capacity s)) (cp_RetryAt (fs_Capacity s));
  cs_launch : rejectionSane (la_Rejections (fs_Launch s)) (la_Rejection (fs_Launch s)) (la_RetryAt (fs_Launch s));
  cs_create : latencySane (ProviderCreate (fs_Latency s));
  cs_assign : latencySane (Assignment (fs_Latency s));
  cs_budget : budgetSane (fs_Budget s)
}.

(** What the controller reports: counts that add up, a time with every rejection,
    and the ledger's own snapshot. *)
Definition reportSane (r : report) : Prop :=
  match r with
  | r_workers actual busy idle unknown =>
      0 <= busy ∧ 0 <= idle ∧ 0 <= unknown ∧ actual = busy + idle + unknown ∧ actual <= max_int64
  | r_capacityRejected _ reason retryAt | r_launchRejected reason retryAt => reason ≠ ""%string → retryAt ≠ zeroTime
  | r_budget b => budgetSane b
  | _ => True
  end.

Definition callSane (c : reporterCall) : Prop :=
  match c with Reported r => reportSane r | Sampled _ => True end.

Lemma desiredSets_sane name assigned desired_ sets jobs workers_ :
  Forall setSane sets → Forall setSane (desiredSets name assigned desired_ sets jobs workers_).1.1.
Proof.
  intros H. revert jobs workers_. induction H as [|x sets Hx _ IH]; intros jobs workers_; cbn [desiredSets].
  { exact (List.Forall_nil _). }
  destruct (desiredSets _ _ _ sets _ _) as [[rest j] w] eqn:E. cbn [fst]. apply Forall_cons. split.
  - destruct (String.eqb _ _); [|done]. destruct Hx as (? & ? & ? & ?). split_and!; simpl; [done | lia..].
  - match type of E with desiredSets _ _ _ _ ?j ?w = _ => specialize (IH j w) end. by rewrite E in IH.
Qed.

Lemma more_pos n : 0 <= n → 0 < more n.
Proof. unfold more, max_uint64. intros. destruct (Z.ltb_spec n (2 ^ 64 - 1)); lia. Qed.

Lemma addLatency_sane l d failed : latencySane l → latencySane (addLatency l d failed).
Proof.
  intros ([Hf1 Hf2] & Hl & Hm & Ha). unfold addLatency, latencySane. cbn [Failures Samples LastMS MaximumMS AverageMS].
  assert (max_uint64 = 2 ^ 64 - 1) by done.
  split_and!; try lia.
  - destruct (failed && _); lia.
  - destruct (Z.ltb_spec (Samples l) max_uint64), failed; simpl; try lia;
      destruct (Z.ltb_spec (Failures l) max_uint64); lia.
  - destruct (Z.ltb_spec (Samples l) max_uint64); [|done]. apply meanStep_proper; [done | lia | lia].
Qed.

Lemma change_sane r now s : contentSane s → reportSane r → contentSane (change r now s).
Proof.
  intros [H1 H2 H3 H4 H5 H6 H7 H8 H9 H10] Hr. destruct r; simpl in Hr |- *; try by constructor.
  - unfold desired. destruct (ScaleSets (fs_GitHub s)) as [|x sets] eqn:E.
    + constructor; simpl; try done.
    + pose proof (desiredSets_sane name assigned target _ 0 0 H3) as Hs.
      destruct (desiredSets _ _ _ _ _ _) as [[rest j] w]. by constructor.
  - constructor; simpl; try done. destruct H4 as (? & ? & ? & ? & ? & ? & ? & ? & ?). split_and!; simpl; try done; lia.
  - constructor; simpl; try done. destruct H4 as (? & ? & ? & ? & ? & ? & ? & ? & ?).
    destruct Hr as (? & ? & ? & -> & ?). split_and!; simpl; try done; lia.
  - constructor; simpl; try done. apply Forall_fmap. eapply Forall_impl; [exact H3 |]. intros x (? & ? & ? & ?).
    simpl. destruct (String.eqb _ _); split_and!; simpl; try done; lia.
  - constructor; simpl; try done. destruct H4 as (? & ? & ? & ? & ? & ? & ? & ? & ?). split_and!; simpl; try done; lia.
  - constructor; simpl; try done. destruct H4 as (? & ? & ? & ? & ? & ? & ? & ? & ?). split_and!; simpl; try done; lia.
  - unfold latency. destruct launch; constructor; simpl; try done; by apply addLatency_sane.
  - constructor; simpl; try done; [lia |]. destruct H6 as [H6 _]. pose proof (more_pos _ H6).
    split; [lia | auto].
  - constructor; simpl; try done; [lia |]. destruct H6. by split.
  - constructor; simpl; try done. destruct H7 as [H7 _]. pose proof (more_pos _ H7). split; [lia | auto].
  - constructor; simpl; try done. destruct H7. by split.
Qed.

(** ** Health *)

Definition healthOK (s : FleetStatus) : Prop :=
  Health s = "starting"%string ∨ Health s = "ready"%string ∨ Health s = "degraded"%string.

(** A status that is published. *)
Definition publishable (s : FleetStatus) : Prop := contentSane s ∧ healthOK s ∧ UpdatedAt s ≠ zeroTime.

Lemma set_Health_sane health reason s : contentSane s → contentSane (set_Health health reason s).
Proof. by intros []. Qed.

Lemma derive_sane failure_ s : contentSane s → contentSane (derive failure_ s).
Proof.
  intros [H1 H2 H3 H4 H5 H6 H7 H8 H9 H10]. unfold derive.
  assert (Hs : ∀ b, contentSane (set_Workers (mkWorkerStatus (Actual (fs_Workers s)) (Starting (fs_Workers s))
    (Busy (fs_Workers s)) (Idle (fs_Workers s)) (Unknown (fs_Workers s)) (OrphanCandidates (fs_Workers s))
    (PendingRetirements (fs_Workers s)) (OverdueRetirements (fs_Workers s)) (Maximum (fs_Workers s)) b) s))
    by (intros b; by constructor).
  repeat (case_match; try by apply set_Health_sane).
Qed.

Lemma derive_health failure_ s : healthOK (derive failure_ s) ∧ UpdatedAt (derive failure_ s) = UpdatedAt s.
Proof. unfold derive, healthOK. repeat case_match; simpl; auto. Qed.

Lemma updateStatus_publishable c now at_ p :
  contentSane (rp_status p) → callSane c → at_ ≠ zeroTime → publishable (rp_status (updateStatus c now at_ p)).
Proof.
  intros Hs Hc Hat. unfold updateStatus. cbn [rp_status].
  set (f := match c with Reported r => changeFailure r (failure p) | Sampled _ => failure p end).
  set (s := set_UpdatedAt at_ (changeCall c now (rp_status p))).
  assert (Hs' : contentSane s).
  { unfold s. destruct c as [r|compute]; simpl; [|by destruct Hs].
    by destruct (change_sane r now (rp_status p) Hs Hc). }
  destruct (derive_health f s) as [H1 H2]. split_and!; [by apply derive_sane | done | by rewrite H2].
Qed.

Lemma existsb_forall {A} (f : A → bool) l : Forall (λ x, f x = false) l → existsb f l = false.
Proof. induction 1 as [|x l Hx _ IH]; simpl; [done |]. by rewrite Hx, IH. Qed.

Lemma latencySane_check l : latencySane l → checkLatency l = false.
Proof. intros ([? ?] & ? & ? & [? ?]). unfold checkLatency. rewrite !orb_false_iff. lia. Qed.

Lemma rejectionSane_check n reason at_ :
  rejectionSane n reason at_ → negb (String.eqb reason "") && ((n =? 0) || IsZero at_) = false.
Proof.
  intros [H1 H2]. destruct (String.eqb_spec reason "") as [|Hne]; [done |]. destruct (H2 Hne).
  simpl. rewrite orb_false_iff. unfold IsZero, zeroTime in *. lia.
Qed.

(** What is published is accepted. *)
Lemma publishable_valid s : publishable s → validate s = None.
Proof.
  intros ([H1 H2 H3 H4 H5 H6 H7 H8 H9 H10] & Hh & Hu). unfold validate.
  destruct H4 as (W1 & W2 & W3 & W4 & W5 & W6 & W7 & W8 & W9).
  assert (Hsum : wrap64 (wrap64 (Busy (fs_Workers s) + Idle (fs_Workers s)) + Unknown (fs_Workers s)) = Actual (fs_Workers s)).
  { rewrite (wrap64_id (Busy _ + _)), wrap64_id by (unfold in_int64, min_int64; lia). lia. }
  rewrite H1, Hsum, !Z.eqb_refl, (rejectionSane_check _ _ _ H6), (rejectionSane_check _ _ _ H7).
  assert (IsZero (UpdatedAt s) = false) as -> by (by apply Z.eqb_neq).
  assert (IsZero (fs_StartedAt s) = false) as -> by (by apply Z.eqb_neq).
  assert (existsb (String.eqb (Health s)) ["starting"; "ready"; "degraded"]%string = true) as ->
    by (by destruct Hh as [->|[->| ->]]).
  rewrite (existsb_forall _ (ScaleSets _)); [|].
  2:{ eapply Forall_impl; [exact H3 |]. intros x [? _]. by apply String.eqb_neq. }
  rewrite (existsb_forall _ (app _ _)); [|].
  2:{ apply Forall_app. split; [repeat (apply Forall_cons; split; [apply Z.ltb_ge; lia |]); exact (List.Forall_nil _) |].
      apply Forall_concat, Forall_fmap. eapply Forall_impl; [exact H3 |]. intros x (_ & ? & ? & ?). simpl.
      repeat (apply Forall_cons; split; [apply Z.ltb_ge; lia |]). exact (List.Forall_nil _). }
  rewrite (existsb_forall checkLatency); [|].
  2:{ repeat (apply Forall_cons; split; [by apply latencySane_check |]). exact (List.Forall_nil _). }
  rewrite (existsb_forall _ [LimitSeconds _; _; _; _; _; _; _]); [|].
  2:{ destruct H10 as (? & ? & ? & ? & ? & ? & ?).
      repeat (apply Forall_cons; split; [apply Z.ltb_ge; lia |]). exact (List.Forall_nil _). }
  cbn [negb orb]. replace ((Configured _ <? 0) || _ || _) with false by lia. done.
Qed.

Lemma initial_publishable cfg b now :
  rc_ScaleSetName cfg ≠ ""%string → 0 <= rc_MaxWorkers cfg → budgetSane b → now ≠ zeroTime →
  publishable (initialStatus cfg b now).
Proof.
  intros Hn Hm Hb Ht.
  assert (Hl : latencySane noLatency) by (unfold latencySane, proper; simpl; lia).
  split; [|split; [by left | done]]. constructor; simpl; try done; try lia.
  - destruct (String.eqb_spec (rc_EphemeralScaleSetName cfg) "") as [|Hne]; [exact (List.Forall_nil _) |].
    repeat (apply Forall_cons; split; [by split_and! |]). exact (List.Forall_nil _).
Qed.

(** * The reporter, everything at once *)

Section published.
Context {W : Type} {E : StatusEnv W} (Hclock : ∀ w, (st_now w).1 ≠ zeroTime) (path : string).
Abbreviation Σ := (statusSys W).

(** What the controller's goroutines do with the reporter. *)
Inductive operation :=
  | OpCall (c : reporterCall) | OpTick (t : tick) | OpStart | OpClose.

Definition runOperation (o : operation) : prog Σ () :=
  match o with
  | OpCall c => updateReporter path c
  | OpTick t => loopTurn path t
  | OpStart => startReporter
  | OpClose => closeReporter path
  end.

Definition operationSane (o : operation) : Prop :=
  match o with
  | OpCall c => callSane c
  | OpTick (HeartbeatTick b) => budgetSane b
  | _ => True
  end.

(** Any number of them, action by action, while the alerter takes its messages. *)
Inductive reporterStep : Σ * list (prog Σ ()) → Σ * list (prog Σ ()) → Prop :=
  | reporter_begins σ ts o : operationSane o → reporterStep (σ, ts) (σ, ts ++ [runOperation o])
  | reporter_acts σ ts i t t' σ' :
      ts !! i = Some t → stepP t σ = (t', σ') → reporterStep (σ, ts) (σ', <[i := t']> ts)
  | reporter_delivers σ ts :
      reporterStep (σ, ts) (mkStatusSys (rep σ) (takeMessage <$> alerts σ) (watched σ) (file σ) (sworld σ), ts).

(** The status in memory and the one on disk are ones a reader accepts. *)
Definition published (σ : Σ) : Prop :=
  publishable (rp_status (rep σ)) ∧ ∃ s, file σ = StatusFile true (Some s) ∧ publishable s.

Definition anyStep (σ σ' : Σ) : Prop := True.
#[local] Instance anyStep_preorder : PreOrder anyStep.
Proof. by split. Qed.

Abbreviation keeping := (spec anyStep anyStep published (λ _, True)).

Lemma keeping_act {A} (op : Σ → A * Σ) (φ : A → Prop) :
  (∀ σ, published σ → published (op σ).2 ∧ φ (op σ).1) → keeping (act op) (λ x _, φ x).
Proof.
  intros H. apply spec_act; [done |]. intros σ x σ' HI _ Hop. specialize (H σ HI). rewrite Hop in H. by destruct H.
Qed.

Lemma keeping_pure {A C} (p : prog Σ A) (f : A → prog Σ C) (φ : A → Prop) Q :
  keeping p (λ x _, φ x) → (∀ x, φ x → keeping (f x) Q) → keeping (p ≫= f) Q.
Proof.
  intros Hp Hf. eapply spec_bind; [exact Hp |]. intros x.
  eapply (spec_because _ _ _ (φ x) _ (λ _, True)); [by intros σ ? | auto].
Qed.

Abbreviation fine := (λ _ : (), True).

Lemma writeStatusFile_file io s f :
  (writeStatusFile io path s f).2 = f ∨ (writeStatusFile io path s f).2 = StatusFile true (Some s).
Proof. unfold writeStatusFile. repeat (case_match; simpl; auto). Qed.

Lemma sharedSets_publishable s p : publishable s → publishable (rp_status p) → publishable (sharedSets s p).
Proof. intros ([] & Hh & Hu) ([] & _ & _). split_and!; [by constructor | done | done]. Qed.

Lemma keeping_flush : keeping (flush path) (λ _ _, True).
Proof.
  unfold flush. eapply (keeping_pure _ _ (λ o, ∀ s n, o = Some (s, n) → publishable s)).
  { apply keeping_act. intros σ [Hs Hf]. split; [by split |]. simpl. destruct (dirty (rep σ)); [|done].
    by intros s n [= <- <-]. }
  intros [[s n]|] Hs; [|by apply spec_ret]. specialize (Hs s n eq_refl).
  eapply (keeping_pure _ _ (λ _, True)).
  { apply (keeping_act _ (λ _, True)). intros σ [Hp Hf]. split; [|done]. destruct (st_io (sworld σ)) as [io w].
    pose proof (sharedSets_publishable s (rep σ) Hs Hp) as Hs'.
    destruct (writeStatusFile_file io (sharedSets s (rep σ)) (file σ)) as [Hw|Hw];
      destruct (writeStatusFile io path (sharedSets s (rep σ)) (file σ)) as [err f]; simpl in *; subst f; split; eauto. }
  intros [err|] _; [by apply spec_ret |]. apply (keeping_act _ fine). intros σ [Hp Hf]. split; [|done].
  simpl. destruct (_ =? _); by split.
Qed.

Lemma keeping_update c : callSane c → keeping (updateReporter path c) (λ _ _, True).
Proof.
  intros Hc. unfold updateReporter. eapply (keeping_pure _ _ (λ _, True)).
  { apply (keeping_act _ (λ _, True)). intros σ [[Hp _] Hf]. split; [|done].
    destruct (if readsClock c then _ else _) as [now w]. pose proof (Hclock w) as Hw.
    destruct (st_now w) as [at_ w']. split; [by apply updateStatus_publishable | done]. }
  intros [s sync] _. eapply (keeping_pure _ _ fine).
  { apply (keeping_act _ fine). intros σ [Hp Hf]. split; [|done]. destruct (alerts σ); [|by split].
    destruct (st_now (sworld σ)). by split. }
  intros [] _. destruct sync; [apply keeping_flush | by apply spec_ret].
Qed.

Lemma keeping_operation o : operationSane o → keeping (runOperation o) (λ _ _, True).
Proof.
  destruct o as [c|[|b|]| |]; simpl; intros Ho; try apply keeping_flush; try by apply keeping_update.
  - unfold sampleCompute. eapply (keeping_pure _ _ (λ _, True)).
    { apply (keeping_act _ (λ _, True)). intros σ Hp. by destruct (st_sample (sworld σ)). }
    intros [conditions compute] _. eapply (keeping_pure _ _ fine).
    { destruct conditions as [cs|]; [|by apply spec_ret]. apply (keeping_act _ fine). intros σ Hp. split; [|done].
      destruct (st_now (sworld σ)) as [now w]. by destruct (watchAndAlert _ _ _ _). }
    intros [] _. destruct compute; [by apply keeping_update | by apply spec_ret].
  - apply (keeping_act _ fine). intros σ Hp. by split.
Qed.

Definition threadsOK (y : Σ * list (prog Σ ())) : Prop :=
  published y.1 ∧ Forall (λ t, wp anyStep anyStep published t (λ _ _, True) y.1) y.2.

Lemma threads_anywhere (ts : list (prog Σ ())) σ σ' :
  Forall (λ t, wp anyStep anyStep published t (λ _ _, True) σ) ts →
  Forall (λ t, wp anyStep anyStep published t (λ _ _, True) σ') ts.
Proof. intros H. eapply Forall_impl; [exact H |]. intros t. by apply wp_rely. Qed.

Lemma reporterStep_OK y y' : reporterStep y y' → threadsOK y → threadsOK y'.
Proof.
  intros Hstep [HI Hts]. destruct Hstep as [σ ts o Ho|σ ts i t t' σ' Hi Ht|σ ts]; simpl in *.
  - split; [done |]. apply Forall_app. split; [done |]. apply Forall_singleton. by apply keeping_operation.
  - pose proof (proj1 (Forall_lookup _ _) Hts _ _ Hi) as Hw.
    destruct (wp_step _ _ _ _ _ _ _ _ Hw HI Ht) as (_ & HI' & Hw'). split; [done |].
    apply Forall_insert; [by eapply threads_anywhere | done].
  - split; [by destruct HI | by eapply threads_anywhere].
Qed.

Lemma newStatusReporter_published webhook cfg b f w σ :
  rc_ScaleSetName cfg ≠ ""%string → 0 <= rc_MaxWorkers cfg → budgetSane b →
  newStatusReporter webhook cfg b f w = inr σ → published σ.
Proof.
  intros Hn Hm Hb. unfold newStatusReporter. pose proof (Hclock w) as Hw. destruct (st_now w) as [now w1].
  destruct (newAlerter webhook cfg); [done |]. destruct (st_io w1) as [io w2].
  pose proof (initial_publishable cfg b now Hn Hm Hb Hw) as Hp.
  assert (Hfile : ∀ f', writeStatusFile io (rc_StatusFile cfg) (initialStatus cfg b now) f = (None, f') →
                  f' = StatusFile true (Some (initialStatus cfg b now))).
  { intros f'. unfold writeStatusFile. repeat case_match; intros; simplify_eq; done. }
  destruct (writeStatusFile _ _ _ _) as [[err|] f']; intros [= <-]. split; [done |].
  eexists. split; [by apply Hfile | done].
Qed.

(** A reading whose system calls succeed, of a file that is not too large. *)
Definition readable (io : loadIO) : Prop :=
  lo_abs io = true ∧ lo_openRoot io = true ∧ lo_lstat io = true ∧ 1 <= lo_size io <= maximumStatusSize
  ∧ lo_open io = true ∧ lo_same io = true ∧ lo_trailing io = false.

Lemma published_loads σ io windows :
  published σ → readable io → ∃ s, LoadStatus io windows (file σ) = inr s ∧ validate s = None.
Proof.
  intros (_ & s & Hf & Hs) (H1 & H2 & H3 & H4 & H5 & H6 & H7). exists s. apply publishable_valid in Hs.
  split; [|done]. unfold LoadStatus. rewrite H1, H2, H3, H5, H6, H7, Hf, Hs. simpl. rewrite andb_false_r.
  replace ((lo_size io <? 1) || (maximumStatusSize <? lo_size io)) with false by lia. done.
Qed.

End published.

(** * Writing while updates go on *)

Section writing.
Context {W : Type} {E : StatusEnv W} (path : string).
Abbreviation Σ := (statusSys W).

(** What calls do once the reporter has started: they update, and leave the file to
    the goroutine. *)
Definition updatesOnly (σ σ' : Σ) : Prop :=
  file σ' = file σ ∧ started (rep σ') = started (rep σ)
  ∧ (rep σ' = rep σ ∨ dirty (rep σ') = true ∧ (revision (rep σ) < revision (rep σ') ∨ max_uint64 <= revision (rep σ)))
  ∧ revision (rep σ) <= revision (rep σ').

#[export] Instance updatesOnly_preorder : PreOrder updatesOnly.
Proof.
  split; [by intros σ; split_and!; auto |].
  intros s1 s2 s3 (F1 & S1 & R1 & V1) (F2 & S2 & R2 & V2). split_and!; [congruence | congruence | | lia].
  destruct R1 as [R1|[D1 R1]], R2 as [R2|[D2 R2]]; rewrite ?R1, ?R2 in *; auto; right; (split; [done |]); lia.
Qed.

(** A status that is not dirty is on disk. *)
Definition onDisk (σ : Σ) : Prop := dirty (rep σ) = false → file σ = StatusFile true (Some (rp_status (rep σ))).

Lemma onDisk_updates σ σ' : updatesOnly σ σ' → onDisk σ → onDisk σ'.
Proof.
  intros (Hf & _ & [Hr|[Hd _]] & _) H; unfold onDisk; [|by rewrite Hd]. rewrite Hf, Hr. exact H.
Qed.

(** The calls are such: an update raises the revision and marks it dirty. *)
Lemma updateReporter_updates c (σ σ' : Σ) x :
  interleaved updatesOnly (updateReporter path c) σ x σ' → started (rep σ) = true → updatesOnly σ σ'.
Proof.
  intros Hrun Hst.
  eapply (interleaved_spec updatesOnly (λ _ _, True) (λ s, updatesOnly σ s ∧ started (rep s) = true)
    (updateReporter path c) (λ _ s, updatesOnly σ s) σ x σ'); [| | by split | exact Hrun].
  2:{ intros _ s1 s2 HR H. by etrans. }
  unfold updateReporter. eapply (spec_bind _ _ _ _ _ _ (λ r s, updatesOnly σ s ∧ r.2 = false)).
  - apply spec_act.
    { intros s1 s2 HR [H1 H2]. split; [by etrans |]. destruct HR as (_ & -> & _). done. }
    intros s r s' _ [H1 H2]. simpl. destruct (if readsClock c then _ else _) as [now w]. destruct (st_now w) as [at_ w'].
    intros [= <- <-]. split; [done |]. split; [done |]. rewrite H2. split; [|done]. etrans; [exact H1 |].
    split_and!; simpl; try done.
    + right. split; [done |]. destruct (Z.ltb_spec (revision (rep s)) max_uint64); lia.
    + destruct (Z.ltb_spec (revision (rep s)) max_uint64); lia.
  - intros [snapshot sync]. cbn [fst snd]. eapply (spec_because _ _ _ (sync = false) _ (updatesOnly σ)); [by intros s [? ?] |].
    intros ->. eapply (spec_bind _ _ _ _ _ _ (λ _, updatesOnly σ)); [|intros []; by apply spec_ret].
    apply spec_act; [intros s1 s2 HR H; by etrans |]. intros s y s' _ H1. simpl. destruct (alerts s).
    + destruct (st_now (sworld s)). intros [= <- <-]. split_and!; [done | done |]. etrans; [exact H1 |]. by split_and!; auto.
    + by intros [= <- <-].
Qed.

(** The snapshot that a write has in hand. *)
Definition inHand (s : FleetStatus) (taken : Z) (σ : Σ) : Prop :=
  dirty (rep σ) = true ∧ taken <= revision (rep σ)
  ∧ (revision (rep σ) = taken → taken < max_uint64 → rp_status (rep σ) = s).

Lemma stable_inHand s n : stableR updatesOnly (inHand s n).
Proof.
  intros σ σ' (_ & _ & HR & HV) (Hd & Hle & Hs). destruct HR as [Hr|[Hd' HR]]; [unfold inHand; by rewrite Hr |].
  split_and!; [done | lia |]. intros Hn Hlt. lia.
Qed.

(** ... and the file once it is written: the snapshot, unless there was an update. *)
Definition written (s : FleetStatus) (taken : Z) (σ : Σ) : Prop :=
  inHand s taken σ ∧ ∃ s', file σ = StatusFile true (Some s') ∧ (revision (rep σ) = taken → taken < max_uint64 → s' = s).

Lemma stable_written s n : stableR updatesOnly (written s n).
Proof.
  intros σ σ' HR [HH (s' & Hf & Hs)]. split; [by eapply stable_inHand |]. exists s'.
  destruct HR as (-> & _ & _ & HV), HH as (_ & Hle & _). split; [done |]. intros ?. apply Hs. lia.
Qed.

Lemma sharedSets_same s p : rp_status p = s → sharedSets s p = s.
Proof. intros <-. by destruct p as [[? ? ? ? ? ? [] ? ? ? ? ? ?] ? ? ? ?]. Qed.

Lemma stable_onDisk : stableR updatesOnly onDisk.
Proof. intros σ σ'. apply onDisk_updates. Qed.

(** The system calls of a write that all succeed. *)
Definition allCalls : statusIO := mkStatusIO true true true true true true true true true true true true.

Lemma writeStatusFile_done io s f f' :
  writeStatusFile io path s f = (None, f') → f' = StatusFile true (Some s).
Proof. unfold writeStatusFile. repeat case_match; intros; simplify_eq; done. Qed.

Lemma flush_spec :
  spec updatesOnly (λ _ _, True) (λ _ : Σ, True) onDisk (flush path) (λ _ σ, onDisk σ ∨ max_uint64 <= revision (rep σ)).
Proof.
  unfold flush. eapply (spec_bind _ _ _ _ _ _ (λ o σ, match o with Some (s, n) => inHand s n σ | None => onDisk σ end)).
  { apply spec_act; [apply stable_onDisk |]. intros σ o σ' _ HD [= <- <-]. split_and!; [done | done |].
    destruct (dirty (rep σ)) eqn:Hd; [|done]. split_and!; [done | lia | done]. }
  intros [[s n]|]; [|by apply spec_ret; left].
  eapply (spec_bind _ _ _ _ _ _ (λ err σ, match err with None => written s n σ | Some _ => onDisk σ end)).
  { apply spec_act; [apply stable_inHand |]. intros σ err σ' _ HH. cbv beta. destruct (st_io (sworld σ)) as [io w].
    destruct (writeStatusFile io path (sharedSets s (rep σ)) (file σ)) as [[e|] f] eqn:Hw; intros [= <- <-];
      split_and!; try done.
    - intros Hd. destruct HH as [Hd' _]. simpl in Hd. congruence.
    - split; [exact HH |]. apply writeStatusFile_done in Hw as ->. eexists. split; [done |].
      destruct HH as (_ & _ & Hs). intros Hn Hlt. by apply sharedSets_same, Hs. }
  intros [err|]; [by apply spec_ret; left |]. apply spec_act; [apply stable_written |].
  intros σ y σ' _ [(Hd & Hle & Hs) (s' & Hf & Hs')] [= <- <-]. split_and!; [done | done |].
  destruct (Z.eqb_spec (revision (rep σ)) n) as [Hn|Hn]; [|left; intros Hd'; congruence].
  destruct (Z.lt_ge_cases n max_uint64) as [Hlt|Hge]; [left | right; simpl; lia].
  intros _. simpl. by rewrite Hf, Hs, Hs'.
Qed.

(** No update is lost.  However many updates go on while the status is written,
    and whichever system call of the write fails, a status counts as written only
    when the file holds it, whole: an update during the write, or its failure, leaves
    the status to be written again.  A write that succeeds alone leaves nothing to
    write. *)
Theorem status_not_lost σ σ' x :
  interleaved updatesOnly (flush path) σ x σ' → onDisk σ → revision (rep σ') < max_uint64 →
  onDisk σ'
  ∧ (path ≠ ""%string → (∀ w, (st_io w).1 = allCalls) → file σ ≠ Irregular → dirty (rep (execP (flush path) σ)) = false).
Proof.
  intros Hrun HD Hlt. split.
  - assert (Hpost : onDisk σ' ∨ max_uint64 <= revision (rep σ')); [|destruct Hpost; [done | lia]].
    eapply (interleaved_spec updatesOnly (λ _ _, True) onDisk _ (λ _ σ, onDisk σ ∨ max_uint64 <= revision (rep σ)));
      [apply flush_spec | | done | exact Hrun].
    intros _ s1 s2 HR [H|H]; [left; by eapply stable_onDisk | right; destruct HR as (_ & _ & _ & ?); lia].
  - intros Hp Hio Hf. unfold execP, flush. cbn. destruct (dirty (rep σ)) eqn:Hd; cbn; [|done].
    specialize (Hio (sworld σ)). destruct (st_io (sworld σ)) as [io w]. simpl in Hio. subst io.
    unfold writeStatusFile. destruct (String.eqb_spec path ""); [done |].
    by destruct (file σ); [| done |]; cbn; rewrite Z.eqb_refl.
Qed.
End writing.

(** * Alerts *)

(** The channel holds what fits, and the newest message. *)
Lemma enqueue_newest text a :
  (length (al_queue a) <= alertQueueDepth)%nat →
  (length (al_queue (enqueue text a)) <= alertQueueDepth)%nat ∧ last (al_queue (enqueue text a)) = Some text.
Proof.
  intros Hq. unfold enqueue, trySend, dropOldest.
  destruct (Nat.ltb_spec (length (al_queue a)) alertQueueDepth) as [Hl|Hl]; cbn [fst snd al_queue].
  { rewrite length_app, last_snoc. simpl. split; [lia | done]. }
  assert (Htl : (length (tl (al_queue a)) < alertQueueDepth)%nat).
  { destruct (al_queue a); simpl in *; unfold alertQueueDepth in *; lia. }
  apply Nat.ltb_lt in Htl as ->. cbn [fst snd al_queue]. rewrite length_app, last_snoc.
  destruct (al_queue a); simpl in *; unfold alertQueueDepth in *; split; try done; lia.
Qed.

(** What is sent over a run of observations: the health and when. *)
Fixpoint sent (obs : list (FleetStatus * time)) (a : alerter) : list (string * time) :=
  match obs with
  | [] => []
  | (status, now) :: obs =>
    match decide_ status now a with
    | (Some _, a) => (alertKey status, now) :: sent obs a
    | (None, a) => sent obs a
    end
  end.

(** From one health to the next: a change, or the same an hour later. *)
Fixpoint spaced (key : string) (at_ : time) (l : list (string * time)) : Prop :=
  match l with
  | [] => True
  | (key', at') :: l => (key' ≠ key ∨ alertRepeatInterval <= Sub at' at_) ∧ spaced key' at' l
  end.

Lemma alertKey_nonempty s : alertKey s ≠ ""%string.
Proof. unfold alertKey. by destruct (Health s). Qed.

Lemma sent_head obs a x : head (sent obs a) = Some x → x.1 ≠ ""%string.
Proof.
  revert a. induction obs as [|[s now] obs IH]; intros a; simpl; [done |].
  destruct (decide_ s now a) as [[text|] a']; [|apply IH]. intros [= <-]. apply alertKey_nonempty.
Qed.

(** Alerts do not nag: each is about another health than the last one observed, or
    a reminder of the same at least an hour after. *)
Lemma alerts_spaced obs a : spaced (lastKey a) (lastSent a) (sent obs a).
Proof.
  revert a. induction obs as [|[s now] obs IH]; intros a; cbn [sent]; [done |]. unfold decide_.
  destruct (String.eqb (Health s) "starting"); [apply IH |].
  destruct (String.eqb_spec (alertKey s) (lastKey a)) as [Hk|Hk]; cbn [negb andb].
  - destruct (String.eqb (Health s) "degraded"); simpl; [|apply IH].
    destruct (Z.leb_spec alertRepeatInterval (Sub now (lastSent a))); simpl; [|apply IH].
    split; [by right | apply (IH (noted (alertKey s) now a))].
  - destruct (String.eqb (Health s) "ready" && String.eqb (lastKey a) "") eqn:Hr.
    + apply andb_prop in Hr as [_ Hr]. apply String.eqb_eq in Hr. cbn [negb orb andb].
      pose proof (IH (noted (alertKey s) now a)) as H. pose proof (sent_head obs (noted (alertKey s) now a)) as Hh.
      rewrite Hr. destruct (sent obs _) as [|[k t] l]; [done |]. simpl in H |- *. split; [|by destruct H].
      left. by apply (Hh (k, t)).
    + simpl. split; [by left | apply (IH (noted (alertKey s) now a))].
Qed.

(** The derived health, case by case. *)
Lemma derive_ready failure_ s :
  Health (derive failure_ s) = "ready"%string ↔
  failure_ = ""%string ∧ cp_Rejection (fs_Capacity s) = ""%string ∧ la_Rejection (fs_Launch s) = ""%string
  ∧ OverdueRetirements (fs_Workers s) <= 0 ∧ OrphanCandidates (fs_Workers s) <= 0
  ∧ RefusalReason (fs_Budget s) = ""%string ∧ LastActivityAt (fs_GitHub s) ≠ zeroTime.
Proof.
  unfold derive. cbn [fs_Capacity fs_Launch fs_Budget fs_GitHub set_Workers].
  destruct (String.eqb_spec failure_ ""); simpl; [|by split; [|intros []]].
  destruct (String.eqb_spec (cp_Rejection (fs_Capacity s)) ""); simpl; [|by split; [|intros (? & ? & ?)]].
  destruct (String.eqb_spec (la_Rejection (fs_Launch s)) ""); simpl; [|by split; [|intros (? & ? & ? & ?)]].
  destruct (Z.ltb_spec 0 (OverdueRetirements (fs_Workers s))); simpl; [split; [done | intros (? & ? & ? & ? & ?); lia] |].
  destruct (Z.ltb_spec 0 (OrphanCandidates (fs_Workers s))); simpl; [split; [done | intros (? & ? & ? & ? & ? & ?); lia] |].
  destruct (String.eqb_spec (RefusalReason (fs_Budget s)) ""); simpl; [|by split; [|intros (? & ? & ? & ? & ? & ? & ?)]].
  destruct (Z.eqb_spec (LastActivityAt (fs_GitHub s)) 0) as [Hz|Hz]; unfold IsZero.
  - rewrite (proj2 (Z.eqb_eq _ _) Hz). simpl. split; [done |]. by intros (_ & _ & _ & _ & _ & _ & H').
  - rewrite (proj2 (Z.eqb_neq _ _) Hz). simpl. by split.
Qed.

(** The scaler's counts add up, as [reportSane] asks. *)
Lemma summary_sane st actual busy idle unknown :
  summary st = (actual, busy, idle, unknown) → actual <= max_int64 → reportSane (r_workers actual busy idle unknown).
Proof.
  unfold summary. intros [= <- <- <- <-] Hmax. unfold countWorkers, countIf in *. simpl.
  assert (Hsize : size (WorkerState.workers st) = length ((map_to_list (WorkerState.workers st)).*2)) by (by rewrite length_fmap, length_map_to_list).
  rewrite Hsize in *. split_and!; try lia. clear. generalize ((map_to_list (WorkerState.workers st)).*2). intros l.
  induction l as [|r l IH]; simpl; [done |]. destruct (wr_Observed r), (wr_Busy r); simpl; lia.
Qed.

(** * A reporter to try it on *)

Module StatusDemo.

#[global] Instance clockwork : StatusEnv Z :=
  mkStatusEnv _ (λ w, (Second * (1 + Z.abs w), w + 1)) (λ w, (allCalls, w)) (λ w, ((None, Some "{}"%string), w)).

Definition cfg : reporterConfig := mkReporterConfig "status.json" "c1" "fly" "v1" "abc" "https://github.com/o/r" "ci" "" 3 "".
Definition budget : BudgetStatus := mkBudgetStatus 100 0 0 100 3600 0 0 "" zeroTime.

Definition start : statusSys Z :=
  match newStatusReporter (λ _, true) cfg budget NoFile 0 with
  | inr σ => σ
  | inl _ => mkStatusSys (mkReporter (initialStatus cfg budget 1) "" false 0 false) None ∅ NoFile 0
  end.

Definition calls : list reporterCall :=
  map Reported [r_workers 2 1 1 0; r_latency true (1500 * Millisecond) false; r_latency true (250 * Millisecond) true;
                r_capacityRejected 2 "fly_quota" (UnixTime 0); r_githubActivity "job_started"].

Lemma clock_runs w : (st_now w).1 ≠ zeroTime.
Proof. change ((st_now w).1) with (1000000000 * (1 + Z.abs w)). unfold zeroTime. lia. Qed.

(** A thread goes on to its end while the others stand. *)
Lemma last_thread_runs (t : prog (statusSys Z) ()) σ ts :
  rtc (reporterStep "status.json") (σ, ts ++ [t]) (execP t σ, ts ++ [Ret ()]).
Proof.
  unfold execP. revert σ. induction t as [[]|X op k IH]; intros σ; simpl; [done |].
  destruct (op σ) as [x σ'] eqn:Eop. eapply rtc_l; [|apply (IH x σ')].
  replace (ts ++ [k x]) with (<[length ts := k x]> (ts ++ [Act op k])) by (by rewrite insert_app_r_alt, Nat.sub_diag by lia).
  eapply reporter_acts; [by rewrite lookup_app_r, Nat.sub_diag by lia |]. simpl. by rewrite Eop.
Qed.

Definition runAll (cs : list reporterCall) (σ : statusSys Z) : statusSys Z :=
  fold_left (λ σ c, execP (updateReporter "status.json" c) σ) cs σ.

Lemma runAll_steps cs σ ts :
  Forall callSane cs → ∃ ts', rtc (reporterStep "status.json") (σ, ts) (runAll cs σ, ts').
Proof.
  intros H. revert σ ts. induction H as [|c cs Hc _ IH]; intros σ ts; [by exists ts |]. simpl.
  destruct (IH (execP (updateReporter "status.json" c) σ) (ts ++ [Ret ()])) as [ts' Hts']. exists ts'.
  eapply rtc_l; [by apply (reporter_begins _ _ _ (OpCall c)) |]. etrans; [apply last_thread_runs | exact Hts'].
Qed.

Definition after : statusSys Z := runAll calls start.

Example status_after :
  Health (rp_status (rep after)) = "degraded"%string ∧ Reason (rp_status (rep after)) = "provider_capacity_exhausted"%string
  ∧ dirty (rep after) = false.
Proof. vm_compute. done. Qed.

Definition reading : loadIO := mkLoadIO true true true 1024 true true false.

End StatusDemo.


Lemma status_not_lost_witness :
  onDisk (execP (flush "status.json") StatusDemo.after).
Proof.
  refine (proj1 (status_not_lost "status.json" StatusDemo.after _ _ (interleaved_alone updatesOnly _ _) _ _));
    [intros _; vm_compute; reflexivity | vm_compute; reflexivity].
Defined.
