(* ===== verification/Registry.v ===== *)
(** Which digest an image tag names (src/registry/registry.go): parsing of image
    references, and reading of a manifest's digest from a registry.

    The network with the registries behind it, the parser of URLs, the decoder of a
    token answer and SHA-256 are the class [RegistryEnv].  A URL is kept in its
    parts; every request goes to a log.  The client follows no redirect: one is an
    answer like any other. *)

From S2P Require Import Prelude Program Provider GoStrings GoText GoPatterns.

#[local] Open Scope string_scope.
#[local] Open Scope Z_scope.

Definition maxManifestBytes : Z := 4194304.
Definition maxTokenBytes : Z := 65536.
Definition dockerHub : string := "docker.io".
Definition dockerHubAPI : string := "registry-1.docker.io".
Definition manifestAccept : string :=
  "application/vnd.oci.image.index.v1+json, "
  +:+ "application/vnd.docker.distribution.manifest.list.v2+json, "
  +:+ "application/vnd.oci.image.manifest.v1+json, "
  +:+ "application/vnd.docker.distribution.manifest.v2+json".

(** * Patterns *)

Definition digestPattern : regexp := RCat (lit "sha256:") (times 64 (RClass hex_byte)).
Definition tagPattern : regexp :=
  RCat (RClass (λ c, alnum c || oneOf "_" c)) (upTo 127 (RClass (λ c, alnum c || oneOf "_.-" c))).

Definition pathSegment : regexp := plus (RClass lowerAlnum).
Definition pathSeparator : regexp := RAlt (RClass (oneOf "._")) (RAlt (lit "__") (plus (lit "-"))).
Definition pathWord : regexp := RCat pathSegment (RStar (RCat pathSeparator pathSegment)).
Definition pathPattern : regexp := RCat pathWord (RStar (RCat (lit "/") pathWord)).

Definition hostLabel : regexp :=
  RCat (RClass alnum) (optional (RCat (RStar (RClass (λ c, alnum c || oneOf "-" c))) (RClass alnum))).
Definition hostPattern : regexp :=
  RCat (RCat hostLabel (RStar (RCat (lit ".") hostLabel))) (optional (RCat (lit ":") (repeat_ 1 4 (RClass digit_byte)))).

(** * References *)

Record Reference := mkReference {
  ref_Registry : string; ref_Repository : string; ref_Tag : string; ref_Digest : string; ref_name : string
}.

(** [strings.LastIndex] of a byte: -1 if there is none. *)
Fixpoint LastIndex (c : ascii) (s : string) : Z :=
  match s with
  | "" => -1
  | String d s =>
    let i := LastIndex c s in
    if 0 <=? i then i + 1 else if Ascii.eqb d c then 0 else -1
  end.

(** [s[:i]] and [s[i+1:]] *)
Definition upToIndex (i : Z) (s : string) : string := String.substring 0 (Z.to_nat i) s.
Fixpoint dropBytes (n : nat) (s : string) : string :=
  match n, s with O, _ => s | S n, String _ s => dropBytes n s | S _, "" => "" end.
Definition afterIndex (i : Z) (s : string) : string := dropBytes (Z.to_nat (i + 1)) s.

(** The registry host and the path of a name. *)
Definition splitHost (name : string) : error + (string * string) :=
  match Cut "/"%char name with
  | Some (first, rest) =>
    if containsByte "."%char first || containsByte ":"%char first || String.eqb first "localhost" then
      if negb (MatchString hostPattern first) then inl (ErrorString "invalid registry host")
      else inr (ToLower first, rest)
    else inr (dockerHub, name)
  | None => inr (dockerHub, name)
  end.

Definition Parse (image : string) : error + Reference :=
  let '(name, digest, pinned) :=
    match Cut "@"%char image with Some (name, digest) => (name, digest, true) | None => (image, "", false) end in
  if pinned && negb (MatchString digestPattern digest)
  then inl (ErrorString "digest must be sha256 and 64 lowercase hex characters")
  else
  let colon := LastIndex ":"%char name in
  let tagged := LastIndex "/"%char name <? colon in
  let '(name, tag) := if tagged then (upToIndex colon name, afterIndex colon name) else (name, "") in
  if tagged && negb (MatchString tagPattern tag) then inl (ErrorString "invalid tag")
  else
  match splitHost name with
  | inl err => inl err
  | inr (host, path) =>
    let host := if String.eqb host "index.docker.io" then dockerHub else host in
    if negb (MatchString pathPattern path) then inl (ErrorString "invalid repository")
    else
    let path := if String.eqb host dockerHub && negb (containsByte "/"%char path) then "library/" +:+ path else path in
    let tag := if negb pinned && String.eqb tag "" then "latest" else tag in
    inr (mkReference host path tag digest name)
  end.

Definition Pinned (r : Reference) : bool := negb (String.eqb (ref_Digest r) "").
Definition Pin (r : Reference) (digest : string) : string := ref_name r +:+ "@" +:+ digest.

(** * Challenges *)

(** [strings.ToLower], with the two letters outside ASCII whose lower case is in it. *)
Fixpoint ToLowerRunes (s : string) : string :=
  match s with
  | String "226"%char (String "132"%char (String "170"%char s)) => String "k" (ToLowerRunes s)
  | String "196"%char (String "176"%char s) => String "i" (ToLowerRunes s)
  | String c s => String (lowerAscii c) (ToLowerRunes s)
  | "" => ""
  end.

(** [strings.TrimLeft(s, ",")] *)
Fixpoint trimCommas (s : string) : string :=
  match s with String "," s => trimCommas s | _ => s end.

(** One turn of the loop of [parseChallenge]: a parameter and the rest. *)
Definition challengeParam (rest : string) : option (string * string * string) :=
  match Cut "="%char rest with
  | None => None
  | Some (key, value) =>
    let key := ToLowerRunes (TrimSpace key) in
    let value := TrimSpace value in
    match value with
    | String c quoted =>
      if Ascii.eqb c "034"%char then
        match Cut "034"%char quoted with
        | None => None
        | Some (value, rest) => Some (key, value, rest)
        end
      else
        let '(value, rest) := default (value, "") (Cut ","%char value) in Some (key, TrimSpace value, rest)
    | "" => Some (key, "", "")
    end
  end.

(** What the loop makes of the rest after a parameter. *)
Definition nextParam (rest : string) : string := TrimSpace (trimCommas (TrimSpace rest)).

Fixpoint challengeParams (fuel : nat) (rest : string) (params : gmap string string) : gmap string string :=
  match fuel with
  | O => params
  | S fuel =>
    if String.eqb rest "" then params
    else match challengeParam rest with
    | None => params
    | Some (key, value, rest) => challengeParams fuel (nextParam rest) (<[key := value]> params)
    end
  end.

Definition parseChallenge (header : string) : string * gmap string string :=
  let '(scheme, rest) := default (TrimSpace header, "") (Cut " "%char (TrimSpace header)) in
  let rest := TrimSpace rest in
  (ToLowerRunes scheme, challengeParams (String.length rest) rest ∅).

(** * Requests *)

(** A [url.URL], its query as the map that [Query] gives. *)
Record URL := mkURL { u_Scheme : string; u_Host : string; u_Path : string; u_Query : gmap string (list string) }.

Record registryRequest := mkRegistryRequest {
  rr_Method : string; rr_URL : URL; rr_Accept : string; rr_Authorization : string
}.

(** An answer: its status, the two headers that are read, and the body. *)
Record registryAnswer := mkRegistryAnswer {
  ra_Status : Z; ra_WWWAuthenticate : string; ra_ContentDigest : string; ra_Body : string; ra_ReadErr : option error
}.

Class RegistryEnv (W : Type) := mkRegistryEnv {
  re_NewRequest : URL → option error;
  re_Do : registryRequest → W → (error + registryAnswer) * W;
  re_ParseURL : string → option URL;
  (** The token and the access token of an answer, if its JSON can be decoded. *)
  re_DecodeToken : registryAnswer → option (string * string);
  re_Sum256 : string → string
}.

Record registrySys (W : Type) := mkRegistrySys { rworld : W; rlog : list registryRequest }.
Arguments mkRegistrySys {W}.
Arguments rworld {W}.
Arguments rlog {W}.

(** [Client]; [Credentials] gives the user name and password for a registry. *)
Record Client := mkClient { Credentials : option (string → option (string * string)) }.

(** [strings.EqualFold] with an ASCII string: two letters outside ASCII fold into it. *)
Fixpoint EqualFold (s t : string) : bool :=
  match t with
  | "" => String.eqb s ""
  | String d t =>
    match s with
    | "" => false
    | String c rest =>
      if Ascii.eqb (lowerAscii c) (lowerAscii d) then EqualFold rest t
      else match s with
      | String "226"%char (String "132"%char (String "170"%char rest)) =>
        Ascii.eqb (lowerAscii d) "k"%char && EqualFold rest t
      | String "197"%char (String "191"%char rest) => Ascii.eqb (lowerAscii d) "s"%char && EqualFold rest t
      | _ => false
      end
    end
  end.

Definition basic (username password : string) : string := "Basic " +:+ Base64 (username +:+ ":" +:+ password).

Section client.
Context {W : Type} {E : RegistryEnv W}.
Abbreviation P := (prog (registrySys W)).

(** [http.NewRequestWithContext] and [client.Do], whose error is wrapped. *)
Definition request_ (failed : string) (r : registryRequest) : P (error + registryAnswer) :=
  match re_NewRequest (rr_URL r) with
  | Some err => mret (inl err)
  | None => act (λ s,
      let '(answer, w) := re_Do r (rworld s) in
      (match answer with inl err => inl (WrapError failed err) | inr r => inr r end, mkRegistrySys w (r :: rlog s)))
  end.

Definition manifest (method : string) (endpoint : URL) (authorization : string) : P (error + registryAnswer) :=
  request_ "read manifest" (mkRegistryRequest method endpoint manifestAccept authorization).

Definition hashManifest (endpoint : URL) (authorization : string) : P (error + string) :=
  answer ← manifest "GET" endpoint authorization;
  match answer with
  | inl err => mret (inl err)
  | inr r => mret (
      if negb (ra_Status r =? 200) then inl (ErrorString "registry answered an unexpected status")
      else if maxManifestBytes <? Z.of_nat (String.length (ra_Body r)) then inl (ErrorString "registry returned a larger manifest")
      else match ra_ReadErr r with
      | Some err => inl (WrapError "read manifest" err)
      | None => inr ("sha256:" +:+ HexEncode (re_Sum256 (ra_Body r)))
      end)
  end.

Definition noToken : error := ErrorString "the token service returned no token".

Definition token (params : gmap string string) (apiHost repository username password : string) (credentials : bool)
    : P (error + string) :=
  match re_ParseURL (default "" (params !! "realm")) with
  | None => mret (inl (ErrorString "the token realm is not an https URL"))
  | Some realm =>
    if negb (String.eqb (u_Scheme realm) "https") || String.eqb (u_Host realm) ""
    then mret (inl (ErrorString "the token realm is not an https URL"))
    else
    let service := default "" (params !! "service") in
    let query := if String.eqb service "" then u_Query realm else <["service" := [service]]> (u_Query realm) in
    let query := <["scope" := ["repository:" +:+ repository +:+ ":pull"]]> query in
    let url := mkURL (u_Scheme realm) (u_Host realm) (u_Path realm) query in
    answer ← request_ "get a pull token" (mkRegistryRequest "GET" url ""
      (if credentials && EqualFold (u_Host realm) apiHost then basic username password else ""));
    match answer with
    | inl err => mret (inl err)
    | inr r => mret (
        if negb (ra_Status r =? 200) then inl (ErrorString "the token service answered an unexpected status")
        else match re_DecodeToken r with
        | None => inl noToken
        | Some (tok, access) =>
          let tok := if String.eqb tok "" then access else tok in
          if String.eqb tok "" || negb (string_forallb (λ c, negb (oneOf (bytes [32; 13; 10]%nat) c)) tok) then inl noToken
          else inr tok
        end)
    end
  end.

(** The digest of an answer to a request for the manifest. *)
Definition manifestDigest (endpoint : URL) (authorization : string) (r : registryAnswer) : P (error + string) :=
  if ra_Status r =? 200 then
    if negb (String.eqb (ra_ContentDigest r) "") then
      if negb (MatchString digestPattern (ra_ContentDigest r))
      then mret (inl (ErrorString "registry returned an unexpected digest"))
      else mret (inr (ra_ContentDigest r))
    else hashManifest endpoint authorization
  else if ra_Status r =? 404 then mret (inl (ErrorString "registry has no such tag"))
  else if (ra_Status r =? 401) || (ra_Status r =? 403) then mret (inl (ErrorString "registry refused to read"))
  else mret (inl (ErrorString "registry answered an unexpected status")).

Definition apiHostOf (ref : Reference) : string :=
  if String.eqb (ref_Registry ref) dockerHub then dockerHubAPI else ref_Registry ref.

Definition endpointOf (ref : Reference) : URL :=
  mkURL "https" (apiHostOf ref) ("/v2/" +:+ ref_Repository ref +:+ "/manifests/" +:+ PathEscape (ref_Tag ref)) ∅.

Definition Digest (c : Client) (ref : Reference) : P (error + string) :=
  if String.eqb (ref_Tag ref) "" || String.eqb (ref_Repository ref) "" || String.eqb (ref_Registry ref) ""
  then mret (inl (ErrorString "registry: the reference names no tag"))
  else
  let endpoint := endpointOf ref in
  let given := match Credentials c with Some f => f (ref_Registry ref) | None => None end in
  let '(username, password) := default ("", "") given in
  let credentials := bool_decide (is_Some given) in
  let authorization := if credentials then basic username password else "" in
  answer ← manifest "HEAD" endpoint authorization;
  match answer with
  | inl err => mret (inl err)
  | inr r =>
    if ra_Status r =? 401 then
      let '(scheme, params) := parseChallenge (ra_WWWAuthenticate r) in
      if negb (String.eqb scheme "bearer")
      then mret (inl (if credentials then ErrorString "registry refused the credentials"
                      else ErrorString "registry requires credentials"))
      else
      tok ← token params (apiHostOf ref) (ref_Repository ref) username password credentials;
      match tok with
      | inl err => mret (inl (WrapError "registry" err))
      | inr tok =>
        let authorization := "Bearer " +:+ tok in
        answer ← manifest "HEAD" endpoint authorization;
        match answer with
        | inl err => mret (inl err)
        | inr r => manifestDigest endpoint authorization r
        end
      end
    else manifestDigest endpoint authorization r
  end.

(** * Following a tag *)

Record Tag := mkTag { tag_ref : Reference; tag_client : Client }.

Definition NewTag (image : string) (c : option Client) : error + Tag :=
  match Parse image with
  | inl err => inl err
  | inr ref =>
    if Pinned ref then inl (ErrorString "image is pinned to a digest; there is no tag to follow")
    else inr (mkTag ref (default (mkClient None) c))
  end.

Definition Resolve (t : Tag) : P (error + string) :=
  digest ← Digest (tag_client t) (tag_ref t);
  match digest with
  | inl err => mret (inl err)
  | inr digest => mret (inr (Pin (tag_ref t) digest))
  end.
End client.

Definition Related (t : Tag) (image : string) : bool :=
  match Parse image with
  | inl _ => false
  | inr ref => String.eqb (ref_Registry ref) (ref_Registry (tag_ref t))
               && String.eqb (ref_Repository ref) (ref_Repository (tag_ref t))
  end.

(** * The cases of the sources' own tests *)

Definition testDigest : string := "sha256:0123456789abcdef0123456789abcdef0123456789abcdef0123456789abcdef".

Example Parse_samples :
  map (λ image, match Parse image with
                | inr r => Some (ref_Registry r, ref_Repository r, ref_Tag r, ref_Digest r, ref_name r) | inl _ => None end)
    ["registry.fly.io/app:current"; "ghcr.io/acme/runner"; "ubuntu:24.04"; "index.docker.io/library/ubuntu";
     "localhost:5000/runner:dev"; "Registry.Example/acme/runner:x"; "ghcr.io/acme/runner:1@" +:+ testDigest]
  = [Some ("registry.fly.io", "app", "current", "", "registry.fly.io/app");
     Some ("ghcr.io", "acme/runner", "latest", "", "ghcr.io/acme/runner");
     Some ("docker.io", "library/ubuntu", "24.04", "", "ubuntu");
     Some ("docker.io", "library/ubuntu", "latest", "", "index.docker.io/library/ubuntu");
     Some ("localhost:5000", "runner", "dev", "", "localhost:5000/runner");
     Some ("registry.example", "acme/runner", "x", "", "Registry.Example/acme/runner");
     Some ("ghcr.io", "acme/runner", "1", testDigest, "ghcr.io/acme/runner")].
Proof. vm_compute. reflexivity. Qed.

Example Parse_refuses :
  forallb (λ image, match Parse image with inl _ => true | inr _ => false end)
    [""; "ghcr.io/"; "ghcr.io/acme/runner@sha256:abc"; "ghcr.io/Acme/runner:1"; "ghcr.io/acme/runner:-x";
     "ghcr.io/acme/runner:a b"; "bad_host.example/runner:1"; "registry.example:123456/runner:1"; "ghcr.io/acme//runner:1"]
  = true.
Proof. vm_compute. reflexivity. Qed.

Example parseChallenge_sample :
  let q := bytes [34]%nat in
  let '(scheme, params) := parseChallenge ("Bearer Realm=" +:+ q +:+ "https://r/token" +:+ q +:+ ", service=registry, x") in
  scheme = "bearer" ∧ params !! "realm" = Some "https://r/token" ∧ params !! "service" = Some "registry".
Proof. vm_compute. done. Qed.
