(* ===== verification/RegistryTheorems.v ===== *)
(** What following a tag guarantees: the image it resolves to is a digest of the tag,
    and the credentials of a registry are sent to that registry only. *)

From S2P Require Import Prelude Program Provider GoStrings GoText GoPatterns Registry.

#[local] Open Scope string_scope.
#[local] Open Scope Z_scope.
#[local] Arguments String.append !_ _ / : simpl nomatch.

(** * Searching *)

Lemma containsByte_app c a b : containsByte c (a +:+ b) = containsByte c a || containsByte c b.
Proof. induction a as [|d a IH]; simpl; [done |]. by rewrite IH, orb_assoc. Qed.

Lemma Cut_some c s a b : Cut c s = Some (a, b) → s = a +:+ String c b ∧ containsByte c a = false.
Proof.
  revert a b. induction s as [|d s IH]; intros a b; simpl; [done |].
  destruct (Ascii.eqb_spec d c) as [->|Hd]; [by intros [= <- <-] |].
  destruct (Cut c s) as [[a' b']|]; [|done]. intros [= <- <-]. destruct (IH a' b' eq_refl) as [-> H]. simpl.
  rewrite H. split; [done |]. by apply Ascii.eqb_neq in Hd as ->.
Qed.

Lemma Cut_none c s : Cut c s = None → containsByte c s = false.
Proof.
  induction s as [|d s IH]; simpl; [done |]. destruct (Ascii.eqb d c); [done |].
  destruct (Cut c s) as [[? ?]|]; [done | auto].
Qed.

Lemma LastIndex_bounds c s : -1 <= LastIndex c s < Z.of_nat (String.length s).
Proof.
  induction s as [|d s IH]; cbn [LastIndex String.length]; [lia |].
  destruct (Z.leb_spec 0 (LastIndex c s)), (Ascii.eqb d c); lia.
Qed.

Lemma LastIndex_none c s : containsByte c s = false → LastIndex c s = -1.
Proof. induction s as [|d s IH]; simpl; [done |]. rewrite orb_false_iff. intros [-> H]. by rewrite IH. Qed.

Lemma LastIndex_app c a b :
  LastIndex c (a +:+ b)
  = if 0 <=? LastIndex c b then Z.of_nat (String.length a) + LastIndex c b else LastIndex c a.
Proof.
  induction a as [|d a IH]; cbn [String.append LastIndex String.length].
  { destruct (Z.leb_spec 0 (LastIndex c b)); [lia |]. pose proof (LastIndex_bounds c b). lia. }
  rewrite IH. destruct (Z.leb_spec 0 (LastIndex c b)); [|done].
  destruct (Z.leb_spec 0 (Z.of_nat (String.length a) + LastIndex c b)); lia.
Qed.

(** Slicing around the last index. *)
Lemma slices c s :
  0 <= LastIndex c s → s = upToIndex (LastIndex c s) s +:+ String c (afterIndex (LastIndex c s) s).
Proof.
  unfold upToIndex, afterIndex. induction s as [|d s IH]; cbn [LastIndex]; [lia |].
  destruct (Z.leb_spec 0 (LastIndex c s)) as [Hi|Hi].
  - intros _. specialize (IH Hi).
    replace (Z.to_nat (LastIndex c s + 1)) with (S (Z.to_nat (LastIndex c s))) in * by lia.
    replace (Z.to_nat (LastIndex c s + 1 + 1)) with (S (S (Z.to_nat (LastIndex c s)))) by lia.
    cbn [String.substring String.append]. f_equal. exact IH.
  - destruct (Ascii.eqb_spec d c) as [->|]; [|lia]. done.
Qed.

(** * Parsing a pinned name *)

Definition pathByte (c : ascii) : bool := lowerAlnum c || oneOf "._-/" c.

Lemma within_lit p s : string_forallb p s = true → within p (lit s).
Proof.
  induction s as [|c s IH]; simpl; [done |]. intros [Hc Hs]%andb_prop. split; [|auto].
  intros d Hd. by apply Ascii.eqb_eq in Hd as <-.
Qed.

Lemma path_bytes path : MatchString pathPattern path = true → string_forallb pathByte path = true.
Proof.
  intros H%MatchString_iff. eapply Matches_within, H. unfold pathByte. simpl. split_and!; try exact I; intros c; simpl;
    rewrite ?orb_true_iff; try tauto; intros <-%Ascii.eqb_eq; simpl; tauto.
Qed.

Lemma path_no_byte c path : pathByte c = false → MatchString pathPattern path = true → containsByte c path = false.
Proof. intros Hc H%path_bytes. by eapply containsByte_forallb. Qed.

(** A name that parses has no colon after its last slash. *)
Lemma splitHost_untagged name host path :
  splitHost name = inr (host, path) → MatchString pathPattern path = true →
  (LastIndex "/" name <? LastIndex ":" name) = false.
Proof.
  intros Hs Hp. apply Z.ltb_ge. pose proof (LastIndex_bounds "/" name) as Hb.
  assert (Hcolon : containsByte ":" path = false) by (by apply path_no_byte).
  unfold splitHost in Hs. destruct (Cut "/" name) as [[first rest]|] eqn:Hcut.
  - apply Cut_some in Hcut as [-> Hfirst]. destruct (_ || _ || _).
    + destruct (MatchString hostPattern first); simplify_eq/=. rewrite LastIndex_app. cbn [LastIndex].
      rewrite (LastIndex_none ":" path) by done. simpl. pose proof (LastIndex_bounds ":" first).
      rewrite LastIndex_app. cbn [LastIndex]. rewrite Ascii.eqb_refl. pose proof (LastIndex_bounds "/" path).
      destruct (Z.leb_spec 0 (LastIndex "/" path)); simpl; [|lia].
      destruct (Z.leb_spec 0 (LastIndex "/" path + 1)); lia.
    + simplify_eq/=. rewrite (LastIndex_none ":") by done. lia.
  - simplify_eq/=. rewrite (LastIndex_none ":") by done. lia.
Qed.

(** What a parsed reference says about the image it was parsed from. *)
Lemma Parse_inv image ref :
  Parse image = inr ref → Pinned ref = false →
  ∃ host path,
    containsByte "@" image = false ∧ containsByte "@" (ref_name ref) = false
    ∧ splitHost (ref_name ref) = inr (host, path) ∧ MatchString pathPattern path = true
    ∧ ref_Registry ref = (if String.eqb host "index.docker.io" then dockerHub else host)
    ∧ ref_Repository ref = (if String.eqb (ref_Registry ref) dockerHub && negb (containsByte "/" path)
                            then "library/" +:+ path else path)
    ∧ ref_Tag ref ≠ "".
Proof.
  unfold Parse. destruct (Cut "@" image) as [[name digest]|] eqn:Hcut.
  - destruct (MatchString digestPattern digest) eqn:Hd; simpl; [|done]. intros H Hpin. exfalso.
    assert (ref_Digest ref = digest) as Hdig by (repeat case_match; simplify_eq; done).
    unfold Pinned in Hpin. rewrite Hdig in Hpin. apply negb_false_iff, String.eqb_eq in Hpin. by subst digest.
  - apply Cut_none in Hcut. cbn [andb negb]. intros H _.
    destruct (LastIndex "/" image <? LastIndex ":" image) eqn:Ht; cbn [andb] in H.
    + destruct (MatchString tagPattern _) eqn:Htag; [|done]. cbn [negb] in H.
      apply Z.ltb_lt in Ht. pose proof (LastIndex_bounds "/" image).
      assert (Hname : containsByte "@" (upToIndex (LastIndex ":" image) image) = false).
      { rewrite (slices ":" image), containsByte_app in Hcut by lia. by apply orb_false_iff in Hcut as [-> _]. }
      assert (afterIndex (LastIndex ":" image) image ≠ "") as Hne by (intros E; by rewrite E in Htag).
      destruct (splitHost _) as [|[host path]] eqn:Hs; [done |]. destruct (MatchString pathPattern path) eqn:Hp; [|done].
      cbn [negb] in H. injection H as <-. exists host, path.
      cbn [ref_name ref_Registry ref_Repository ref_Tag]. split_and!; try done.
      by rewrite (proj2 (String.eqb_neq _ _) Hne).
    + destruct (splitHost image) as [|[host path]] eqn:Hs; [done |]. destruct (MatchString pathPattern path) eqn:Hp; [|done].
      cbn [negb String.eqb andb] in H. injection H as <-. exists host, path. by split_and!.
Qed.

Lemma Parse_pinned image ref digest :
  Parse image = inr ref → Pinned ref = false → MatchString digestPattern digest = true →
  Parse (Pin ref digest) = inr (mkReference (ref_Registry ref) (ref_Repository ref) "" digest (ref_name ref)).
Proof.
  intros HP Hpin Hd. destruct (Parse_inv _ _ HP Hpin) as (host & path & _ & Hat & Hs & Hp & Hr & Hrepo & _).
  unfold Parse, Pin. change ("@" +:+ digest) with (String "@" digest). rewrite Cut_app by done.
  rewrite Hd. cbn [andb negb]. rewrite (splitHost_untagged _ _ _ Hs Hp). cbn [andb negb]. rewrite Hs, Hp. cbn [negb].
  by rewrite <- Hr, <- Hrepo.
Qed.

(** * Digests *)

Lemma hexByte_digits c :
  String.length (hexByte lowerHex c) = 2%nat ∧ string_forallb hex_byte (hexByte lowerHex c) = true.
Proof. destruct c as [[] [] [] [] [] [] [] []]; by vm_compute. Qed.

Lemma HexEncode_digits s :
  String.length (HexEncode s) = (2 * String.length s)%nat ∧ string_forallb hex_byte (HexEncode s) = true.
Proof.
  induction s as [|c s [IH1 IH2]]; [done |]. cbn [HexEncode String.length].
  destruct (hexByte_digits c) as [H1 H2]. rewrite length_append, forallb_app, H1, H2, IH1, IH2.
  split; [lia | done].
Qed.

Lemma digest_of_sum sum :
  String.length sum = 32%nat → MatchString digestPattern ("sha256:" +:+ HexEncode sum) = true.
Proof.
  intros Hl. apply MatchString_iff, MCat; [by apply Matches_lit |]. apply Matches_times.
  destruct (HexEncode_digits sum) as [-> ->]. by rewrite Hl.
Qed.

Lemma EqualFold_refl s : EqualFold s s = true.
Proof. induction s as [|c s IH]; [done |]. cbn [EqualFold]. by rewrite Ascii.eqb_refl. Qed.

(** * Requests *)

Section requests.
Context {W : Type} {E : RegistryEnv W}.
Variables (c : Client) (ref : Reference).

(** What a request of [Digest] may carry: the credentials given for the registry, or
    a token, and those to the registry's own host only. *)
Definition authorized (r : registryRequest) : Prop :=
  u_Scheme (rr_URL r) = "https"
  ∧ (rr_Authorization r = ""
     ∨ EqualFold (u_Host (rr_URL r)) (apiHostOf ref) = true
       ∧ ((∃ f username password, Credentials c = Some f ∧ f (ref_Registry ref) = Some (username, password)
                                  ∧ rr_Authorization r = basic username password)
          ∨ rr_URL r = endpointOf ref ∧ ∃ tok, rr_Authorization r = "Bearer " +:+ tok)).

(** At most [n] requests so far, each authorized, since the log was [l]. *)
Definition sentSince (l : list registryRequest) (n : nat) (s : registrySys W) : Prop :=
  ∃ new, rlog s = (new ++ l)%list ∧ (length new <= n)%nat ∧ Forall authorized new.

Lemma sentSince_mono l n m s : (n <= m)%nat → sentSince l n s → sentSince l m s.
Proof. intros H (new & H1 & H2 & H3). exists new. split_and!; [done | lia | done]. Qed.

(** The authorization header that [Digest] sends to the manifest. *)
Definition endpointAuth (authorization : string) : Prop :=
  authorized (mkRegistryRequest "HEAD" (endpointOf ref) manifestAccept authorization).

Lemma hoare_request failed l n r :
  authorized r → hoare (sentSince l n) (request_ failed r) (λ _, sentSince l (S n)).
Proof.
  intros Hr. unfold request_. destruct (re_NewRequest (rr_URL r)).
  { apply hoare_ret. intros s. apply sentSince_mono. lia. }
  apply hoare_act. intros s x s' (new & Hl & Hn & Hf). destruct (re_Do r (rworld s)) as [answer w]. intros [= <- <-].
  exists (r :: new). simpl. rewrite Hl. split_and!; [done | lia | by constructor].
Qed.

Lemma hoare_manifest l n method authorization :
  endpointAuth authorization →
  hoare (sentSince l n) (manifest method (endpointOf ref) authorization) (λ _, sentSince l (S n)).
Proof. intros H. by apply hoare_request. Qed.

Lemma hoare_token l n params username password credentials :
  (credentials = true → ∃ f, Credentials c = Some f ∧ f (ref_Registry ref) = Some (username, password)) →
  hoare (sentSince l n) (token params (apiHostOf ref) (ref_Repository ref) username password credentials)
    (λ _, sentSince l (S n)).
Proof.
  intros Hc. unfold token. destruct (re_ParseURL _) as [realm|]; [|apply hoare_ret; intros s; apply sentSince_mono; lia].
  destruct (String.eqb_spec (u_Scheme realm) "https") as [Hs|]; simpl;
    [|apply hoare_ret; intros s; apply sentSince_mono; lia].
  destruct (String.eqb (u_Host realm) ""); [apply hoare_ret; intros s; apply sentSince_mono; lia |].
  eapply hoare_bind; [apply hoare_request | intros [err|r]; by apply hoare_ret].
  split; [done |]. simpl. destruct credentials; simpl; [|by left].
  destruct (EqualFold (u_Host realm) (apiHostOf ref)) eqn:He; [|by left].
  right. split; [done |]. left. destruct Hc as (f & H1 & H2); [done |]. by exists f, username, password.
Qed.

(** What a digest that is returned looks like, if SHA-256 gives 32 bytes. *)
Definition wellFormed (answer : error + string) : Prop :=
  match answer with
  | inr digest => (∀ body, String.length (re_Sum256 body) = 32%nat) → MatchString digestPattern digest = true
  | inl _ => True
  end.

Abbreviation answers l n := (λ answer s, wellFormed answer ∧ sentSince l n s) (only parsing).

Lemma hoare_manifestDigest l n authorization r :
  endpointAuth authorization →
  hoare (sentSince l n) (manifestDigest (endpointOf ref) authorization r) (answers l (S n)).
Proof.
  intros Ha. assert (Hno : ∀ msg, hoare (sentSince l n) (mret (inl msg)) (answers l (S n))).
  { intros msg. apply hoare_ret. intros s Hs. split; [done |]. eapply sentSince_mono; [|exact Hs]. lia. }
  unfold manifestDigest. destruct (ra_Status r =? 200); [|repeat case_match; apply Hno].
  destruct (String.eqb (ra_ContentDigest r) ""); simpl.
  - unfold hashManifest. eapply hoare_bind; [by apply hoare_manifest |]. intros [err|b]; apply hoare_ret; intros s Hs; [done |].
    split; [|done]. repeat case_match; simpl; try done. intros Hsum. apply digest_of_sum, Hsum.
  - destruct (MatchString digestPattern (ra_ContentDigest r)) eqn:Hd; simpl; [|apply Hno].
    apply hoare_ret. intros s Hs. split; [by intros _ |]. eapply sentSince_mono; [|exact Hs]. lia.
Qed.

Lemma endpoint_bearer tok : endpointAuth ("Bearer " +:+ tok).
Proof. split; [done |]. right. split; [apply EqualFold_refl |]. right. split; [done |]. by exists tok. Qed.

Lemma hoare_Digest l : hoare (λ s, rlog s = l) (Digest c ref) (answers l 4).
Proof.
  unfold Digest. assert (Hstart : ∀ s : registrySys W, rlog s = l → sentSince l 0 s).
  { intros s <-. by exists []. }
  destruct (_ || _ || _).
  { apply hoare_ret. intros s Hs. split; [done |]. eapply sentSince_mono; [|by apply Hstart]. lia. }
  destruct (default ("", "") _) as [username password] eqn:Hup.
  set (given := match Credentials c with Some f => f (ref_Registry ref) | None => None end) in *.
  assert (Hgiven : bool_decide (is_Some given) = true →
                   ∃ f, Credentials c = Some f ∧ f (ref_Registry ref) = Some (username, password)).
  { intros [x Hx]%bool_decide_eq_true. rewrite Hx in Hup. simpl in Hup. subst x. unfold given in Hx.
    destruct (Credentials c) as [f|]; [|done]. by exists f. }
  set (credentials := bool_decide (is_Some given)) in *.
  assert (Hauth : endpointAuth (if credentials then basic username password else "")).
  { destruct credentials; [|by split; [|left]]. split; [done |]. right. split; [apply EqualFold_refl |]. left.
    destruct (Hgiven eq_refl) as (f & H1 & H2). by exists f, username, password. }
  eapply hoare_bind. { eapply hoare_conseq; [by apply hoare_manifest | exact Hstart | done]. }
  intros [err|r].
  { apply hoare_ret. intros s Hs. split; [done |]. eapply sentSince_mono; [|exact Hs]. lia. }
  destruct (ra_Status r =? 401).
  - destruct (parseChallenge (ra_WWWAuthenticate r)) as [scheme params]. destruct (negb _).
    { apply hoare_ret. intros s Hs. split; [by destruct credentials |]. eapply sentSince_mono; [|exact Hs]. lia. }
    eapply hoare_bind; [by apply hoare_token |]. intros [err|tok].
    { apply hoare_ret. intros s Hs. split; [done |]. eapply sentSince_mono; [|exact Hs]. lia. }
    eapply hoare_bind; [apply hoare_manifest, endpoint_bearer |]. intros [err|r'].
    { apply hoare_ret. intros s Hs. split; [done |]. eapply sentSince_mono; [|exact Hs]. lia. }
    apply hoare_manifestDigest, endpoint_bearer.
  - eapply hoare_conseq; [by apply hoare_manifestDigest | done |]. intros a s [H1 H2]. split; [done |].
    eapply sentSince_mono; [|exact H2]. lia.
Qed.
End requests.

(** * Results *)

Section results.
Context {W : Type} {E : RegistryEnv W}.

(** C16: Credentials stay at home.  Whatever the registry, its token service and the
    network answer, reading a digest sends at most four requests, all over HTTPS; one
    carries a user name and password only if they were given for the registry of the
    reference, and only to that registry's own host, to which the tokens go too. *)
Theorem credentials_stay_home c ref (s : registrySys W) :
  ∃ new, rlog (execP (Digest c ref) s) = (new ++ rlog s)%list ∧ (length new <= 4)%nat ∧ Forall (authorized c ref) new.
Proof. by destruct (hoare_Digest c ref (rlog s) s eq_refl) as [_ H]. Qed.

(** A tag resolves to a digest of itself.  If following an image's tag gives an
    image, that image is pinned to a well-formed digest, reads back as the same
    repository of the same registry with that digest and no tag, is no longer the
    image that was followed, and is one that the follower takes for its own: the pool
    accepts it. *)
Theorem resolve_pins_tag image c tag (s : registrySys W) pinned :
  (∀ body, String.length (re_Sum256 body) = 32%nat) →
  NewTag image c = inr tag → evalP (Resolve tag) s = inr pinned →
  ∃ digest ref, pinned = Pin (tag_ref tag) digest ∧ MatchString digestPattern digest = true
    ∧ Parse pinned = inr ref ∧ Pinned ref = true ∧ ref_Digest ref = digest ∧ ref_Tag ref = ""
    ∧ Related tag pinned = true ∧ pinned ≠ image.
Proof.
  intros Hsum Hnew. unfold Resolve. rewrite evalP_bind.
  destruct (hoare_Digest (tag_client tag) (tag_ref tag) (rlog s) s eq_refl) as [Hd _].
  destruct (evalP (Digest _ _) s) as [err|digest]; [done |]. intros [= <-]. specialize (Hd Hsum).
  unfold NewTag in Hnew. destruct (Parse image) as [|ref] eqn:HP; [done |].
  destruct (Pinned ref) eqn:Hpin; [done |]. injection Hnew as <-. simpl in *.
  pose proof (Parse_pinned image ref digest HP Hpin Hd) as HPin.
  destruct (Parse_inv _ _ HP Hpin) as (_ & _ & Hat & _).
  exists digest. eexists. split_and!; [done | done | exact HPin | | done | done | |].
  - unfold Pinned. simpl. apply negb_true_iff, String.eqb_neq. intros ->. done.
  - unfold Related. rewrite HPin. simpl. by rewrite !String.eqb_refl.
  - intros <-. unfold Pin in Hat. rewrite containsByte_app in Hat. simpl in Hat. by rewrite orb_true_r in Hat.
Qed.
End results.

(** * A registry to try it on *)

Module RegistryDemo.

Definition repositoryToken : string := "pull-token".

Definition reply (status : Z) (challenge digest : string) : registryAnswer :=
  mkRegistryAnswer status challenge digest "" None.

Definition challenge : string :=
  let q := bytes [34]%nat in "Bearer realm=" +:+ q +:+ "https://REGISTRY.example/token" +:+ q +:+ ",service=" +:+ q +:+ "r" +:+ q.

(** It asks for a token, which its own host gives for the password. *)
#[global] Instance registry : RegistryEnv () :=
  mkRegistryEnv _ (λ _, None)
    (λ r w,
      (inr (if String.eqb (u_Path (rr_URL r)) "/token"
            then reply (if String.eqb (rr_Authorization r) (basic "x" "secret") then 200 else 403) "" ""
            else if String.eqb (rr_Authorization r) ("Bearer " +:+ repositoryToken) then reply 200 "" testDigest
            else reply 401 challenge ""), w))
    (λ s, if HasPrefix s "https://REGISTRY.example/token" then Some (mkURL "https" "REGISTRY.example" "/token" ∅) else None)
    (λ _, Some (repositoryToken, ""))
    (λ body, String.concat "" (repeat "s" 32)).

Definition client : Client :=
  mkClient (Some (λ host, if String.eqb host "registry.example" then Some ("x", "secret") else None)).

Definition followed : Tag :=
  match NewTag "registry.example/app:current" (Some client) with
  | inr tag => tag
  | inl _ => mkTag (mkReference "" "" "" "" "") client
  end.

Example follows :
  evalP (Resolve followed) (mkRegistrySys tt []) = inr ("registry.example/app@" +:+ testDigest)
  ∧ length (rlog (execP (Resolve followed) (mkRegistrySys tt []))) = 3%nat.
Proof. vm_compute. done. Qed.

End RegistryDemo.

Lemma resolve_pins_tag_witness :
  Related RegistryDemo.followed ("registry.example/app@" +:+ testDigest) = true.
Proof.
  destruct (resolve_pins_tag "registry.example/app:current" (Some RegistryDemo.client) RegistryDemo.followed
              (mkRegistrySys tt []) ("registry.example/app@" +:+ testDigest)) as (d & r & H).
  - intros body. reflexivity.
  - vm_compute. reflexivity.
  - vm_compute. reflexivity.
  - exact (proj1 (proj2 (proj2 (proj2 (proj2 (proj2 (proj2 H))))))).
Defined.
