(* ===== verification/Supervisor.v ===== *)
(** The supervision of the listener sessions (src/controller/controller.go,
    scale_sets.go, wake.go and paced_client.go).

    One goroutine per scale set keeps a session with GitHub open around the one
    scaler.  A call of the scaler is one action: with two scale sets the handlers
    take turns on [handlerMu], with one there is one goroutine, and nothing else
    runs while the workers are recovered.  What the listener library does between
    the calls of a handler, GitHub's sessions, the clock and the timers are the class
    [SessionEnv], any functions of a world of their own: the scaler asks its world
    and the supervision asks this one, each as it likes.  The supervision's calls
    of the status reporter are kept apart from the scaler's. *)

From S2P Require Import Prelude Program GoStrings Provider UsageBudget RetirementQueue WorkerState Scaler.
From S2P Require Import ScalerRuns Float64.

#[local] Open Scope Z_scope.

Definition sessionCloseTimeout : duration := 3 * Second.
Definition sessionRestartInitialBackoff : duration := 5 * Second.
Definition sessionRestartMaximumBackoff : duration := 2 * Minute.
Definition sessionStableAfter : duration := 2 * Minute.

(** [nextSessionBackoff] *)
Definition nextSessionBackoff (current initial maximum : duration) : duration :=
  if current <=? 0 then initial else Z.min (wrap64 (current * 2)) maximum.

(** * The session's environment *)

(** The handlers of a [listener.Scaler]. *)
Inductive handlerCall :=
  | CallDesired (assignedJobs : Z)
  | CallStarted (runner : string)
  | CallCompleted (runner : string) (finished : time).

Class SessionEnv (V : Type) := mkSessionEnv {
  (** [sessionOpener]: a session of the scale set of that index. *)
  se_Open : nat → V → option error * V;
  se_Close : nat → V → option error * V;
  se_now : V → time * V;
  (** In a race of a timer with the end of its context: whether the timer won. *)
  se_Timer : duration → V → bool * V;
  (** [listener.New] *)
  se_NewListener : nat → V → option error * V;
  (** [listener.Run]: how many handler calls it would make, the next one, what it
      makes of a handler's error, and what it returns by itself. *)
  se_Calls : nat → V → nat * V;
  se_Call : nat → V → handlerCall * V;
  se_Failed : error → error;
  se_Return : nat → V → option error * V
}.

(** The documented behaviour of the listener library: a handler's error is in the
    chain of what is returned. *)
Class SessionLaws {V} (SE : SessionEnv V) : Prop := {
  failed_handler e : isHandlerFailure (se_Failed e) = isHandlerFailure e;
  failed_canceled e : errors_is Canceled (se_Failed e) = errors_is Canceled e
}.

(** ** Beside the sessions *)

(** [wakingSession.GetMessage]: what a poll returns, given whether there are wake-up
    channels, whether one of them came before the answer of GitHub, that answer, and
    whether the context is done. *)
Definition GetMessage {M} (wakes woken : bool) (poll : option M * option error) (ctxDone : bool)
    : option M * option error :=
  if negb wakes || negb woken then poll
  else match poll.2 with
       | Some _ => if ctxDone then poll else (None, None)
       | None => poll
       end.

(** One turn of [fanOutWake]: the source's token, and the targets' of one each. *)
Definition fanOutWake (source : bool) (targets : list bool) : bool * list bool :=
  if source then (false, map (λ _, true) targets) else (false, targets).

(** A call of [pacedScaleSetClient], or of the client inside when nothing is paced. *)
Definition paced {Σ A} (rate : f64) (wait : prog Σ (option error)) (fail : error → A) (call : prog Σ A)
    : prog Σ A :=
  if f64_le rate f64_zero then call else on_err wait (λ err, mret (fail err)) call.

(** No message of GitHub's is dropped: cutting a poll short loses only its error. *)
Lemma GetMessage_keeps {M} wakes woken (message : option M) ctxDone :
  GetMessage wakes woken (message, None) ctxDone = (message, None).
Proof. by destruct wakes, woken. Qed.

(** No wake-up is lost, and a target holds one at most. *)
Lemma fanOutWake_wakes targets : Forall (λ t, t = true) (fanOutWake true targets).2.
Proof. simpl. induction targets; constructor; done. Qed.

(** * State *)

(** What happened, per scale set. *)
Inductive supEvent :=
  | Opened (i : nat)
  | OpenFailed (i : nat) (err : error)
  | Recovering (i : nat) (err : option error)
  | Handling (i : nat) (m : message) (err : option error)
  | Closed (i : nat)
  | Waiting (i : nat) (delay : duration)
  | Probing.

Record supervision (W V : Type) := mkSupervision {
  su_scaler : scaler W;
  su_world : V;
  (** the channel [recovered] is closed *)
  su_recovered : bool;
  (** the context of the sessions is done *)
  su_cancelled : bool;
  su_trace : list supEvent;
  su_reports : list report
}.
Arguments mkSupervision {W V}.
Arguments su_scaler {W V}.
Arguments su_world {W V}.
Arguments su_recovered {W V}.
Arguments su_cancelled {W V}.
Arguments su_trace {W V}.
Arguments su_reports {W V}.

(** Where the loop of [superviseSession] goes. *)
Inductive verdict := Ended (err : option error) | Again (backoff : duration) (recoverWorkers : bool).

Section supervisor.
Context {W V : Type} {E : Env W} {SE : SessionEnv V} (cfg : scalerConfig) (initialBackoff maximumBackoff : duration).
Abbreviation Σ := (supervision W V).
Abbreviation P := (prog Σ).

Definition supAsk {A} (f : V → A * V) : P A :=
  act (λ s, let '(x, v) := f (su_world s) in
            (x, mkSupervision (su_scaler s) v (su_recovered s) (su_cancelled s) (su_trace s) (su_reports s))).

Definition record (ev : supEvent) (s : Σ) : Σ :=
  mkSupervision (su_scaler s) (su_world s) (su_recovered s) (su_cancelled s) (ev :: su_trace s) (su_reports s).

Definition supReport (r : report) : P () := update (λ s,
  mkSupervision (su_scaler s) (su_world s) (su_recovered s) (su_cancelled s) (su_trace s) (r :: su_reports s)).

(** The routes of the scale sets, main first. *)
Definition routes : list scaleSetRoute := mainRoute cfg :: option_list (ephemeral cfg).
Definition routeOf (i : nat) : scaleSetRoute := default (mainRoute cfg) (routes !! i).

(** ** One session *)

Definition openSession (i : nat) : P (option error) := act (λ s,
  let '(r, v) := se_Open i (su_world s) in
  (r, mkSupervision (su_scaler s) v (su_recovered s) (su_cancelled s)
        (match r with None => Opened i | Some err => OpenFailed i err end :: su_trace s) (su_reports s))).

Definition closeSession (i : nat) : P () := act (λ s,
  let '(_, v) := se_Close i (su_world s) in
  ((), mkSupervision (su_scaler s) v (su_recovered s) (su_cancelled s) (Closed i :: su_trace s) (su_reports s))).

Definition recoverScaler (i : nat) : P (option error) := act (λ s,
  let '(r, sc) := runP (recover cfg) (su_scaler s) in
  (r, mkSupervision sc (su_world s) (su_recovered s) (su_cancelled s) (Recovering i r :: su_trace s) (su_reports s))).

(** [recovered()] *)
Definition setRecovered : P () := update (λ s,
  mkSupervision (su_scaler s) (su_world s) true (su_cancelled s) (su_trace s) (su_reports s)).

(** The message of a handler call on the scale set of a route. *)
Definition messageOf (route : scaleSetRoute) (c : handlerCall) : message :=
  match c with
  | CallDesired jobs => Desired route jobs
  | CallStarted runner => JobStarted runner
  | CallCompleted runner finished => JobCompleted runner finished
  end.

(** The methods of [scaleSetHandler], and of [scaler] itself. *)
Definition handler (route : scaleSetRoute) (c : handlerCall) : prog (scaler W) (option error) :=
  match c with
  | CallDesired jobs => r ← HandleDesiredRunnerCount cfg route jobs; mret r.2
  | CallStarted runner => HandleJobStarted cfg runner
  | CallCompleted runner finished => HandleJobCompleted cfg runner finished
  end.

Definition callHandler (i : nat) (c : handlerCall) : P (option error) := act (λ s,
  let '(r, sc) := runP (handler (routeOf i) c) (su_scaler s) in
  (r, mkSupervision sc (su_world s) (su_recovered s) (su_cancelled s)
        (Handling i (messageOf (routeOf i) c) r :: su_trace s) (su_reports s))).

(** [listener.Run]: handler calls, until one fails or the library returns. *)
Fixpoint listenFrom (calls : nat) (i : nat) : P (option error) :=
  match calls with
  | O => supAsk (se_Return i)
  | S calls =>
    c ← supAsk (se_Call i);
    r ← callHandler i c;
    match r with Some err => mret (Some (se_Failed err)) | None => listenFrom calls i end
  end.

Definition runScaleSetSession (i : nat) (recoverWorkers : bool) : P (option error) :=
  on_err
    (if recoverWorkers then
       r ← recoverScaler i;
       match r with
       | Some err => mret (failClosed (Some (WrapError "recover workers" err)))
       | None => setRecovered;; mret None
       end
     else mret None)
    (λ err, mret (Some err))
    (supReport r_recovered;;
     l ← supAsk (se_NewListener i);
     match l with
     | Some err =>
       supReport (r_degraded "github_listener_failed");;
       mret (failClosed (Some (WrapError "create scale set listener" err)))
     | None =>
       calls ← supAsk (se_Calls i);
       r ← listenFrom calls i;
       match r with
       | Some err =>
         if errors_is Canceled err then mret None
         else supReport (r_degraded "github_listener_failed");;
              mret (Some (WrapError "run scale set listener" err))
       | None => mret None
       end
     end).

(** [waitContext], and whether the context ended it. *)
Definition waitContext (i : nat) (delay : duration) : P bool := act (λ s,
  let '(fired, v) := se_Timer delay (su_world s) in
  (su_cancelled s && negb fired,
   mkSupervision (su_scaler s) v (su_recovered s) (su_cancelled s) (Waiting i delay :: su_trace s) (su_reports s))).

(** One turn of the loop of [superviseSession]. *)
Definition sessionTurn (i : nat) (backoff : duration) (recoverWorkers : bool) : P verdict :=
  opened ← openSession i;
  turn ← (match opened with
    | Some openErr =>
      supReport (r_degraded "github_session_failed");;
      mret (Some (WrapError "create message session" openErr), backoff, recoverWorkers)
    | None =>
      started ← supAsk se_now;
      supReport (r_githubActivity "session_created");;
      err ← runScaleSetSession i recoverWorkers;
      closeSession i;;
      ended ← supAsk se_now;
      mret (err, if sessionStableAfter <=? Sub ended started then 0 else backoff, false)
    end);
  let '(err, backoff, recoverWorkers) := turn in
  cancelled ← get su_cancelled;
  if (cancelled : bool) then mret (Ended None)
  else if match err with Some err => isHandlerFailure err | None => false end then mret (Ended err)
  else
    let backoff := nextSessionBackoff backoff initialBackoff maximumBackoff in
    supReport (r_degraded "github_session_restarting");;
    over ← waitContext i backoff;
    mret (if (over : bool) then Ended None else Again backoff recoverWorkers).

(** * Everything at once *)

(** A goroutine of [superviseSession]: it waits for recovery, is in a turn of its
    loop, or its result was received. *)
Inductive goroutine := Awaiting | Turning (p : P verdict) | Received.

(** The goroutines, and the failure that [superviseScaleSets] will return. *)
Record fleet := mkFleet { fl_state : Σ; fl_sessions : list goroutine; fl_failure : option error }.

Definition cancelFleet (s : Σ) : Σ :=
  mkSupervision (su_scaler s) (su_world s) (su_recovered s) true (su_trace s) (su_reports s).

Definition probeFires (s : Σ) : Σ :=
  record Probing (mkSupervision (with_gate fireProbe (su_scaler s)) (su_world s) (su_recovered s)
                    (su_cancelled s) (su_trace s) (su_reports s)).

(** Receiving a result: the first failure is kept and cancels the others. *)
Definition receive (r : option error) (f : fleet) : Σ * option error :=
  match r, fl_failure f with
  | Some err, None => (cancelFleet (fl_state f), Some err)
  | _, failure => (fl_state f, failure)
  end.

Inductive fleetStep : fleet → fleet → Prop :=
  | fleet_recovered s gs i failure :
      gs !! i = Some Awaiting → su_recovered s = true →
      fleetStep (mkFleet s gs failure) (mkFleet s (<[i := Turning (sessionTurn i 0 false)]> gs) failure)
  | fleet_not_awaited s gs i failure :
      gs !! i = Some Awaiting → su_cancelled s = true →
      fleetStep (mkFleet s gs failure) (mkFleet s (<[i := Turning (mret (Ended None))]> gs) failure)
  | fleet_act s gs i failure p p' s' :
      gs !! i = Some (Turning p) → stepP p s = (p', s') →
      fleetStep (mkFleet s gs failure) (mkFleet s' (<[i := Turning p']> gs) failure)
  | fleet_again s gs i failure backoff recoverWorkers :
      gs !! i = Some (Turning (mret (Again backoff recoverWorkers))) →
      fleetStep (mkFleet s gs failure)
        (mkFleet s (<[i := Turning (sessionTurn i backoff recoverWorkers)]> gs) failure)
  | fleet_received s gs i failure r s' failure' :
      gs !! i = Some (Turning (mret (Ended r))) →
      receive r (mkFleet s gs failure) = (s', failure') →
      fleetStep (mkFleet s gs failure) (mkFleet s' (<[i := Received]> gs) failure')
  | fleet_cancelled s gs failure :
      fleetStep (mkFleet s gs failure) (mkFleet (cancelFleet s) gs failure)
  | fleet_probe s gs failure :
      fleetStep (mkFleet s gs failure) (mkFleet (probeFires s) gs failure).

(** [superviseSessions] and [superviseScaleSets] at their start. *)
Definition supervised (sc : scaler W) (v : V) : fleet :=
  mkFleet (mkSupervision sc v false false [] [])
    (imap (λ i _, if (i =? 0)%nat then Turning (sessionTurn i 0 true) else Awaiting) routes) None.

Definition fleetRuns (sc : scaler W) (v : V) : fleet → Prop := rtc fleetStep (supervised sc v).
End supervisor.
