(* ===== verification/SupervisorTheorems.v ===== *)
(** What the supervision of sessions guarantees: sessions one after the other, no
    handler before recovery, and a fleet that ends as a whole. *)

From S2P Require Import Prelude Program GoStrings Provider UsageBudget RetirementQueue WorkerState Scaler.
From S2P Require Import ScalerSpecs ScalerOps ScalerRuns Supervisor.

#[local] Open Scope Z_scope.

(** * The rules of a history *)

Definition onSet (i : nat) (ev : supEvent) : bool :=
  match ev with
  | Opened j | OpenFailed j _ | Recovering j _ | Handling j _ _ | Closed j | Waiting j _ => (j =? i)%nat
  | Probing => false
  end.

(** The history of one scale set, the last event first. *)
Definition ofSet (i : nat) (tr : list supEvent) : list supEvent := keep (onSet i) tr.

(** An event that must be a scale set's last but for the session's end. *)
Definition stops (ev : supEvent) : bool :=
  match ev with
  | Recovering _ (Some _) => true
  | Handling _ _ (Some err) => negb (errors_is Canceled err)
  | _ => false
  end.
Definition unstopped (h : list supEvent) : Prop := Forall (λ ev, stops ev = false) h.

(** Where a scale set's history [h] stands. *)
Definition mayOpen (h : list supEvent) : Prop :=
  match h with [] | Waiting _ _ :: _ => True | _ => False end.
Definition listening (h : list supEvent) : Prop :=
  match h with Opened _ :: _ | Recovering _ None :: _ | Handling _ _ None :: _ => True | _ => False end.
Definition inSession (h : list supEvent) : Prop :=
  match h with Opened _ :: _ | Recovering _ _ :: _ | Handling _ _ _ :: _ => True | _ => False end.
Definition over (h : list supEvent) : Prop :=
  match h with OpenFailed _ _ :: _ | Closed _ :: _ => True | _ => False end.

Definition recoveredIn (tr : list supEvent) : Prop := Recovering 0 None ∈ tr.

(** The message is one that a listener of the route hands on. *)
Definition messageOn (route : scaleSetRoute) (m : message) : Prop := ∃ c, m = messageOf route c.

(** When an event may follow a history. *)
Definition ruled (cfg : scalerConfig) (initial maximum : duration) (ev : supEvent) (tr : list supEvent) : Prop :=
  match ev with
  | Opened i | OpenFailed i _ =>
      mayOpen (ofSet i tr) ∧ unstopped (ofSet i tr) ∧ (i ≠ 0%nat → recoveredIn tr)
  | Recovering i _ => i = 0%nat ∧ listening (ofSet i tr) ∧ ∀ r, Recovering 0 r ∉ tr
  | Handling i m _ => listening (ofSet i tr) ∧ recoveredIn tr ∧ messageOn (routeOf cfg i) m
  | Closed i => inSession (ofSet i tr)
  | Waiting i delay => over (ofSet i tr) ∧ unstopped (ofSet i tr) ∧ initial <= delay <= maximum
  | Probing => True
  end.

Fixpoint followsRules (cfg : scalerConfig) (initial maximum : duration) (tr : list supEvent) : Prop :=
  match tr with
  | [] => True
  | ev :: tr => ruled cfg initial maximum ev tr ∧ followsRules cfg initial maximum tr
  end.

(** The messages the scaler was given, the first one first. *)
Definition messageOfEvent (ev : supEvent) : option message :=
  match ev with
  | Recovering _ _ => Some Recover
  | Handling _ m _ => Some m
  | Probing => Some ProbeFires
  | _ => None
  end.
Definition messages (tr : list supEvent) : list message := rev (omap messageOfEvent tr).

Lemma messages_cons ev tr : messages (ev :: tr) = messages tr ++ option_list (messageOfEvent ev).
Proof. unfold messages. simpl. by destruct (messageOfEvent ev); simpl; rewrite ?app_nil_r. Qed.

Lemma elem_of_messages m tr : m ∈ messages tr ↔ ∃ ev, ev ∈ tr ∧ messageOfEvent ev = Some m.
Proof. unfold messages. by rewrite list_elem_of_In, <- in_rev, <- list_elem_of_In, list_elem_of_omap. Qed.

Lemma handleAll_app {W} {E : Env W} cfg ms ms' (s : scaler W) :
  handleAll cfg (ms ++ ms') s = handleAll cfg ms' (handleAll cfg ms s).
Proof. apply fold_left_app. Qed.

Lemma ofSet_cons i ev tr : onSet i ev = true → ofSet i (ev :: tr) = ev :: ofSet i tr.
Proof. unfold ofSet, keep. simpl. by intros ->. Qed.

Lemma ofSet_others i l tr : Forall (λ ev, onSet i ev = false) l → ofSet i (l ++ tr) = ofSet i tr.
Proof. unfold ofSet, keep. induction 1 as [|ev l Hev _ IH]; simpl; [done |]. by rewrite Hev. Qed.

Lemma elem_of_ofSet i ev tr : ev ∈ ofSet i tr ↔ ev ∈ tr ∧ onSet i ev = true.
Proof. apply elem_of_keep. Qed.

(** ** Errors *)

Lemma failClosed_handler r err : failClosed r = Some err → isHandlerFailure err = true.
Proof.
  destruct r as [e|]; simpl; [|done]. destruct (isHandlerFailure e) eqn:He; intros [= <-]; [done |].
  apply bool_decide_true. simpl. eauto.
Qed.

Lemma failClosed_some e : is_Some (failClosed (Some e)).
Proof. simpl. destruct (isHandlerFailure e); eauto. Qed.

Lemma handler_failure_wrap msg e : isHandlerFailure (WrapError msg e) = isHandlerFailure e.
Proof. reflexivity. Qed.

Lemma handler_failClosed {W} {E : Env W} cfg route c (s : scaler W) :
  ∀ err, evalP (handler cfg route c) s = Some err → isHandlerFailure err = true.
Proof.
  intros err. destruct c; cbn [handler];
    unfold HandleDesiredRunnerCount, HandleJobStarted, HandleJobCompleted; rewrite !evalP_bind; apply failClosed_handler.
Qed.

Lemma handler_exec {W} {E : Env W} cfg route c (s : scaler W) :
  execP (handler cfg route c) s = handle cfg (messageOf route c) s.
Proof. destruct c; cbn [handler messageOf handle]; [by rewrite execP_bind | done | done]. Qed.

(** * One goroutine among others *)

Section supervise.
Context {W V : Type} {E : Env W} {SE : SessionEnv V} (cfg : scalerConfig) (initial maximum : duration).
Context (Hbackoff : 0 < initial <= maximum) (Hwide : 2 * maximum <= max_int64).
Abbreviation Σ := (supervision W V).
Abbreviation rules := (followsRules cfg initial maximum).

(** A part of the history that another goroutine adds. *)
Definition moves (mine : supEvent → bool) (σ σ' : Σ) : Prop :=
  (∃ l, su_trace σ' = (l ++ su_trace σ)%list ∧ Forall (λ ev, mine ev = true) l)
  ∧ (su_recovered σ = true → su_recovered σ' = true) ∧ (su_cancelled σ = true → su_cancelled σ' = true).

#[local] Instance moves_preorder mine : PreOrder (moves mine).
Proof.
  split; [by intros σ; split_and!; [exists [] |..] |].
  intros s1 s2 s3 ([l1 [E1 F1]] & R1 & C1) ([l2 [E2 F2]] & R2 & C2). split_and!; [|auto..].
  exists (l2 ++ l1)%list. split; [by rewrite E2, E1, app_assoc | by apply Forall_app].
Qed.

Definition elsewhere (i : nat) : relation Σ := moves (λ ev, negb (onSet i ev)).
Definition here (i : nat) : relation Σ := moves (onSet i).

Lemma here_elsewhere i j σ σ' : i ≠ j → here j σ σ' → elsewhere i σ σ'.
Proof.
  intros Hij ([l [El Fl]] & ? & ?). split_and!; [|done..]. exists l. split; [done |].
  eapply Forall_impl; [exact Fl |]. intros [] Hev; simpl in *; try done; apply Nat.eqb_eq in Hev as ->;
    by apply negb_true_iff, Nat.eqb_neq.
Qed.

Context (sc0 : scaler W).

(** The history follows the rules, and the scaler's is that of its messages. *)
Definition supOK (σ : Σ) : Prop :=
  rules (su_trace σ) ∧ (su_recovered σ = true → recoveredIn (su_trace σ))
  ∧ su_scaler σ = handleAll cfg (messages (su_trace σ)) sc0.

(** An assertion on the history of the [i]-th scale set, which no other goroutine
    writes; only the first sets the workers right. *)
Definition At (i : nat) (H : list supEvent → Prop) (σ : Σ) : Prop :=
  H (ofSet i (su_trace σ)) ∧ (i ≠ 0%nat → recoveredIn (su_trace σ)).

Lemma stable_At i H : stableR (elsewhere i) (At i H).
Proof.
  intros σ σ' ([l [El Fl]] & _) [HH Hr]. unfold At. rewrite El. split.
  - rewrite ofSet_others; [done |]. eapply Forall_impl; [exact Fl |]. intros ev. apply negb_true_iff.
  - intros Hi. apply elem_of_app. right. by apply Hr.
Qed.

Abbreviation sspec i := (spec (elsewhere i) (here i) supOK).

(** Calls that are no events. *)
Lemma quiet_step i (σ σ' : Σ) H :
  supOK σ → At i H σ → su_trace σ' = su_trace σ → su_recovered σ' = su_recovered σ →
  su_cancelled σ' = su_cancelled σ → su_scaler σ' = su_scaler σ → here i σ σ' ∧ supOK σ' ∧ At i H σ'.
Proof.
  intros HI HA Et Er Ec Es. unfold here, moves, supOK, At. rewrite Et, Er, Ec, Es.
  split; [by split; [exists [] | split] | by split].
Qed.

Lemma spec_supAsk {A} i (f : V → A * V) H : sspec i (At i H) (supAsk f) (λ _, At i H).
Proof.
  apply spec_act; [apply stable_At |]. intros σ x σ' HI HA. simpl. destruct (f (su_world σ)) as [y v].
  intros [= <- <-]. by apply quiet_step.
Qed.

Lemma spec_supReport i r H : sspec i (At i H) (supReport r) (λ _, At i H).
Proof.
  apply spec_act; [apply stable_At |]. intros σ x σ' HI HA [= <- <-]. by apply quiet_step.
Qed.

(** An event that the rules allow. *)
Lemma event_step i ev (σ σ' : Σ) H (H' : list supEvent → Prop) :
  supOK σ → At i H σ → onSet i ev = true → su_trace σ' = ev :: su_trace σ →
  su_recovered σ' = su_recovered σ → su_cancelled σ' = su_cancelled σ →
  su_scaler σ' = handleAll cfg (option_list (messageOfEvent ev)) (su_scaler σ) →
  ruled cfg initial maximum ev (su_trace σ) → (∀ h, H h → H' (ev :: h)) →
  here i σ σ' ∧ supOK σ' ∧ At i H' σ'.
Proof.
  intros (H1 & H2 & H3) [HH Hr] Hon Et Er Ec Es Hrule HH'. unfold here, moves, supOK, At.
  rewrite Et, Er, Ec, Es, H3, messages_cons, handleAll_app, ofSet_cons by done. split_and!; try done.
  - exists [ev]. by repeat constructor.
  - intros ?. right. by apply H2.
  - by apply HH'.
  - intros Hi. right. by apply Hr.
Qed.

(** ** Where a scale set stands *)

(** Its workers are still to be recovered, or are. *)
Definition recovery (i : nat) (recoverWorkers : bool) (h : list supEvent) : Prop :=
  if recoverWorkers then i = 0%nat ∧ ∀ r, Recovering 0 r ∉ h else i = 0%nat → Recovering 0 None ∈ h.

Definition standing (i : nat) (recoverWorkers : bool) (where_ : list supEvent → Prop) (h : list supEvent) : Prop :=
  where_ h ∧ unstopped h ∧ recovery i recoverWorkers h.

(** In a session that is about to end with that error. *)
Definition ending (i : nat) (where_ : list supEvent → Prop) (err : option error) (h : list supEvent) : Prop :=
  where_ h ∧ (match err with Some e => isHandlerFailure e = false | None => True end →
              unstopped h ∧ recovery i false h).

Lemma recovery_cons i b ev h :
  (∀ r, ev ≠ Recovering 0 r) → recovery i b h → recovery i b (ev :: h).
Proof.
  intros Hev. destruct b; simpl.
  - intros [? H]. split; [done |]. intros r [Hr|Hr]%elem_of_cons; [by destruct (Hev r) | by apply (H r)].
  - intros H Hi. right. by apply H.
Qed.

Lemma at_recovered i (σ : Σ) h : At i (standing i false h) σ → recoveredIn (su_trace σ).
Proof.
  intros [(_ & _ & Hr) Hi]. destruct (decide (i = 0%nat)) as [->|Hne]; [|by apply Hi].
  by apply (elem_of_ofSet 0), Hr.
Qed.

(** An action that is one event: its effect on the scaler, the rule, and where it
    leaves the scale set. *)
Ltac event :=
  eapply event_step; [eassumption | eassumption | | reflexivity | done | done | ..];
  [simpl; by rewrite ?Nat.eqb_refl | ..].

Lemma spec_openSession i b :
  sspec i (At i (standing i b mayOpen)) (openSession i)
    (λ r, At i (standing i b (match r with None => listening | Some _ => over end))).
Proof.
  apply spec_act; [apply stable_At |]. intros σ x σ' HI HA. simpl.
  destruct (se_Open i (su_world σ)) as [[e|] v]; intros [= <- <-]; event; try done;
    try (by destruct HA as [(? & ? & ?) ?]);
    (intros h (H1 & H2 & H3); split_and!; [done | by constructor | by apply recovery_cons]).
Qed.

Lemma spec_closeSession i err :
  sspec i (At i (ending i inSession err)) (closeSession i) (λ _, At i (ending i over err)).
Proof.
  apply spec_act; [apply stable_At |]. intros σ x σ' HI HA. simpl.
  destruct (se_Close i (su_world σ)) as [e v]. intros [= <- <-].
  event; [done | apply HA |]. intros h (H1 & H2). split; [done |]. intros He.
  destruct (H2 He). split; [by constructor | by apply recovery_cons].
Qed.

Lemma spec_waitContext i b delay :
  initial <= delay <= maximum →
  sspec i (At i (standing i b over)) (waitContext i delay)
    (λ ended σ, At i (standing i b mayOpen) σ ∧ (ended = true → su_cancelled σ = true)).
Proof.
  intros Hd. apply spec_act; [apply stable_At |]. intros σ x σ' HI HA. simpl.
  destruct (se_Timer delay (su_world σ)) as [fired v]. intros [= <- <-].
  match goal with |- _ ∧ supOK ?σ' ∧ _ =>
    destruct (event_step i (Waiting i delay) σ σ' (standing i b over) (standing i b mayOpen)) as (? & ? & ?) end; try done.
  - simpl. by rewrite Nat.eqb_refl.
  - by destruct HA as [(? & ? & ?) ?].
  - intros h (H1 & H2 & H3). split_and!; [done | by constructor | by apply recovery_cons].
  - split_and!; try done. by intros [? _]%andb_prop.
Qed.

(** ** One session *)

Lemma spec_recoverScaler :
  sspec 0 (At 0 (standing 0 true listening)) (recoverScaler cfg 0)
    (λ r, match r with
          | None => At 0 (standing 0 false listening)
          | Some _ => At 0 inSession
          end).
Proof.
  apply spec_act; [apply stable_At |]. intros σ x σ' HI HA. cbv beta.
  destruct (runP (recover cfg) (su_scaler σ)) as [r sc] eqn:Er. intros [= <- <-].
  assert (Hsc : sc = execP (recover cfg) (su_scaler σ)) by (unfold execP; by rewrite Er).
  pose proof HA as [(H1 & H2 & _ & H3) _].
  assert (Hrule : ruled cfg initial maximum (Recovering 0 r) (su_trace σ)).
  { split_and!; [done | done |]. intros r' Hr'. by apply (H3 r'), elem_of_ofSet. }
  destruct r as [e|]; event; try done.
  intros h (? & ? & _). split_and!; [done | by constructor |]. intros _. left.
Qed.

Lemma spec_setRecovered :
  sspec 0 (At 0 (standing 0 false listening)) setRecovered (λ _, At 0 (standing 0 false listening)).
Proof.
  apply spec_act; [apply stable_At |]. intros σ x σ' (H1 & H2 & H3) HA [= <- <-].
  split; [by split; [exists [] | split] | split; [|done]]. split_and!; try done. intros _. by eapply at_recovered.
Qed.

(** What a handler leaves. *)
Lemma spec_callHandler i c :
  sspec i (At i (standing i false listening)) (callHandler cfg i c)
    (λ r, match r with
          | None => At i (standing i false listening)
          | Some e => λ σ, isHandlerFailure e = true
                           ∧ At i (λ h, inSession h ∧ (errors_is Canceled e = true → unstopped h ∧ recovery i false h)) σ
          end).
Proof.
  apply spec_act; [apply stable_At |]. intros σ x σ' HI HA. cbv beta.
  destruct (runP (handler cfg (routeOf cfg i) c) (su_scaler σ)) as [r sc] eqn:Er. intros [= <- <-].
  assert (Hsc : sc = handle cfg (messageOf (routeOf cfg i) c) (su_scaler σ)).
  { rewrite <- handler_exec. unfold execP. by rewrite Er. }
  assert (Hf : ∀ e, r = Some e → isHandlerFailure e = true).
  { intros e He. apply (handler_failClosed cfg (routeOf cfg i) c (su_scaler σ)). unfold evalP. by rewrite Er. }
  assert (Hrule : ruled cfg initial maximum (Handling i (messageOf (routeOf cfg i) c) r) (su_trace σ)).
  { split_and!; [apply HA | by eapply at_recovered | by exists c]. }
  set (σ' := mkSupervision sc (su_world σ) (su_recovered σ) (su_cancelled σ)
               (Handling i (messageOf (routeOf cfg i) c) r :: su_trace σ) (su_reports σ)).
  assert (Hstep : here i σ σ' ∧ supOK σ' ∧ At i (λ h, ∃ h',
    h = Handling i (messageOf (routeOf cfg i) c) r :: h' ∧ standing i false listening h') σ').
  { event; try done. intros h Hh. by exists h. }
  destruct Hstep as (Hhere & HI' & [(h' & Hh & H1 & H2 & H3) Hr]). split_and!; [done.. |].
  destruct r as [e|].
  - split; [by apply Hf |]. split; [|done]. rewrite Hh. split; [done |]. intros Hc.
    split; [constructor; [simpl; by rewrite Hc | done] | by apply recovery_cons].
  - split; [|done]. rewrite Hh. split_and!; [done | by constructor | by apply recovery_cons].
Qed.

(** What the listener returns. *)
Definition listened (i : nat) (r : option error) : Σ → Prop :=
  At i (λ h, inSession h ∧ match r with
                           | Some e => isHandlerFailure e = false ∨ errors_is Canceled e = true → unstopped h ∧ recovery i false h
                           | None => unstopped h ∧ recovery i false h
                           end).

Context `{!SessionLaws SE}.

Lemma listening_session h : listening h → inSession h.
Proof. by destruct h as [|[| |? []|? ? []| | |] h]. Qed.

Lemma spec_listen i n :
  sspec i (At i (standing i false listening)) (listenFrom cfg n i) (listened i).
Proof.
  induction n as [|n IH]; cbn [listenFrom].
  { eapply spec_conseq; [apply spec_supAsk | done |]. intros r σ [(H1 & H2 & H3) Hr]. split; [|done].
    split; [by apply listening_session | by destruct r]. }
  eapply spec_bind; [apply spec_supAsk |]. intros c. eapply spec_bind; [apply spec_callHandler |].
  intros [e|]; [|exact IH]. apply spec_ret. intros σ (He & [[H1 H2] Hr]). split; [|done]. split; [done |].
  rewrite failed_handler, failed_canceled. intros [?|?]; [congruence | by apply H2].
Qed.

Lemma spec_turnSession i b :
  sspec i (At i (standing i b listening)) (runScaleSetSession cfg i b) (λ err, At i (ending i inSession err)).
Proof.
  unfold runScaleSetSession.
  eapply (spec_on_err _ _ _ _ _ _ _ (λ r, match r with
    | None => At i (standing i false listening)
    | Some e => λ σ, isHandlerFailure e = true ∧ At i inSession σ end)).
  - destruct b; [|by apply spec_ret]. intros σ HA. assert (i = 0%nat) as ->; [by apply HA |]. revert σ HA.
    eapply spec_bind; [apply spec_recoverScaler |]. intros [e|].
    + destruct (failClosed_some (WrapError "recover workers" e)) as [e' He']. rewrite He'.
      apply spec_ret. intros σ HA. split; [|done]. by apply failClosed_handler in He'.
    + eapply spec_bind; [apply spec_setRecovered |]. intros []. by apply spec_ret.
  - intros e. apply spec_ret. intros σ (He & [H1 H2]). split; [|done]. split; [done | congruence].
  - eapply spec_bind; [apply spec_supReport |]. intros []. eapply spec_bind; [apply spec_supAsk |]. intros [e|].
    + eapply spec_bind; [apply spec_supReport |]. intros [].
      destruct (failClosed_some (WrapError "create scale set listener" e)) as [e' He']. rewrite He'.
      apply failClosed_handler in He'. apply spec_ret. intros σ [(H1 & _) Hr]. split; [|done].
      split; [by apply listening_session | congruence].
    + eapply spec_bind; [apply spec_supAsk |]. intros calls. eapply spec_bind; [apply spec_listen |].
      intros [e|]; [destruct (errors_is Canceled e) eqn:Hc |].
      * apply spec_ret. intros σ [[H1 H2] Hr]. split; [|done]. split; [done |]. intros _. by apply H2; right.
      * eapply spec_bind; [apply spec_supReport |]. intros []. apply spec_ret. intros σ [[H1 H2] Hr].
        split; [|done]. split; [done |]. rewrite handler_failure_wrap. intros He. by apply H2; left.
      * apply spec_ret. intros σ [[H1 H2] Hr]. split; [|done]. by split.
Qed.

(** ** One turn *)

Definition outOfSession (h : list supEvent) : Prop := mayOpen h ∨ over h.

Definition backoffOK (backoff : duration) : Prop := backoff = 0 ∨ initial <= backoff <= maximum.

Definition turned (i : nat) (v : verdict) (σ : Σ) : Prop :=
  match v with
  | Ended r => outOfSession (ofSet i (su_trace σ))
      ∧ match r with Some e => isHandlerFailure e = true | None => su_cancelled σ = true end
  | Again backoff b => At i (standing i b mayOpen) σ ∧ backoffOK backoff
  end.

Lemma elsewhere_ofSet i (σ σ' : Σ) : elsewhere i σ σ' → ofSet i (su_trace σ') = ofSet i (su_trace σ).
Proof.
  intros ([l [El Fl]] & _). rewrite El. apply ofSet_others. eapply Forall_impl; [exact Fl |].
  intros ev. apply negb_true_iff.
Qed.

Lemma stable_turned i v : stableR (elsewhere i) (turned i v).
Proof.
  intros σ σ' HR. pose proof HR as (_ & _ & Hc). destruct v as [[e|]|backoff b]; intros [HA Hv];
    (split; [by rewrite ?(elsewhere_ofSet i σ σ') || by eapply stable_At | auto]).
Qed.

Lemma nextSessionBackoff_OK backoff :
  backoffOK backoff → initial <= nextSessionBackoff backoff initial maximum <= maximum.
Proof.
  intros Hb. unfold nextSessionBackoff. destruct (Z.leb_spec backoff 0); [lia |]. destruct Hb as [->|Hb]; [lia |].
  rewrite wrap64_id; [lia |]. unfold in_int64, min_int64 in *. lia.
Qed.

(** Which way a session was taken: how it ended, the wait before, and what is next. *)
Definition taken (i : nat) (t : option error * duration * bool) (σ : Σ) : Prop :=
  backoffOK t.1.2
  ∧ At i (λ h, over h ∧ (match t.1.1 with Some e => isHandlerFailure e = false | None => True end →
                         unstopped h ∧ recovery i t.2 h)) σ.

Lemma spec_cancelled i (t : option error * duration * bool) :
  sspec i (taken i t) (get su_cancelled) (λ c σ, taken i t σ ∧ (c = true → su_cancelled σ = true)).
Proof.
  apply spec_act; [by intros σ σ' HR [? ?]; split; [|eapply stable_At] |].
  intros σ x σ' HI HA [= <- <-]. by split; [reflexivity |].
Qed.

Lemma spec_turn i backoff b :
  backoffOK backoff →
  sspec i (At i (standing i b mayOpen)) (sessionTurn cfg initial maximum i backoff b) (turned i).
Proof.
  intros Hb. unfold sessionTurn. eapply spec_bind; [apply spec_openSession |]. intros opened.
  eapply (spec_bind _ _ _ _ _ _ (taken i)).
  { destruct opened as [openErr|].
    - eapply spec_bind; [apply spec_supReport |]. intros []. apply spec_ret. intros σ [(H1 & H2 & H3) Hr].
      by split; [|split].
    - eapply spec_bind; [apply spec_supAsk |]. intros started.
      eapply spec_bind; [apply spec_supReport |]. intros [].
      eapply spec_bind; [apply spec_turnSession |]. intros err.
      eapply spec_bind; [apply spec_closeSession |]. intros [].
      eapply spec_bind; [apply spec_supAsk |]. intros ended. apply spec_ret. intros σ HA. split; [|exact HA].
      cbn [fst snd]. destruct (_ <=? _); [by left | done]. }
  intros [[err backoff'] b']. eapply spec_bind; [apply spec_cancelled |]. intros [|].
  { apply spec_ret. intros σ [[_ [[HH _] _]] Hc]. split; [by right | by apply Hc]. }
  destruct (match err with Some err => isHandlerFailure err | None => false end) eqn:Hf.
  { apply spec_ret. intros σ [[_ [[HH _] _]] _]. split; [by right |]. by destruct err. }
  eapply (spec_bind _ _ _ _ _ _ (λ _ σ, backoffOK backoff' ∧ At i (standing i b' over) σ)).
  { intros σ [[Hb' [[HH Hgo] Hr]] _]. cbn [fst snd] in *.
    assert (HA : At i (standing i b' over) σ).
    { split; [|done]. destruct Hgo; [by destruct err |]. by split. }
    eapply wp_conseq; [|apply (spec_supReport i _ _ σ HA)]. by intros [] σ' HA'. }
  intros []. eapply (spec_because _ _ _ (backoffOK backoff') _ (At i (standing i b' over))); [done |]. intros Hb'.
  apply nextSessionBackoff_OK in Hb'. eapply spec_bind; [by apply spec_waitContext |]. intros [|]; apply spec_ret.
  - intros σ [[[HH _] _] Hc]. split; [by left | by apply Hc].
  - intros σ [HA _]. split; [done | by right].
Qed.

(** ** The fleet *)

Definition goroutineOK (i : nat) (g : goroutine) (σ : Σ) : Prop :=
  match g with
  | Awaiting => i ≠ 0%nat ∧ ofSet i (su_trace σ) = []
  | Turning p => wp (elsewhere i) (here i) supOK p (turned i) σ
  | Received => outOfSession (ofSet i (su_trace σ)) ∧ su_cancelled σ = true
  end.

Definition fleetOK (f : fleet) : Prop :=
  supOK (fl_state f) ∧ (∀ i g, fl_sessions f !! i = Some g → goroutineOK i g (fl_state f))
  ∧ ∀ err, fl_failure f = Some err → isHandlerFailure err = true ∧ su_cancelled (fl_state f) = true.

Lemma goroutine_elsewhere i g σ σ' : elsewhere i σ σ' → goroutineOK i g σ → goroutineOK i g σ'.
Proof.
  intros HR. pose proof HR as (_ & _ & Hc). destruct g as [|p|]; simpl.
  - intros [? H]. by rewrite (elsewhere_ofSet i σ σ' HR).
  - apply wp_rely; [apply _ | apply stable_turned | done].
  - intros [H Hd]. rewrite (elsewhere_ofSet i σ σ' HR). auto.
Qed.

(** One goroutine goes on. *)
Lemma fleet_goroutine σ gs failure i g σ' g' failure' :
  fleetOK (mkFleet σ gs failure) → gs !! i = Some g → supOK σ' → here i σ σ' → goroutineOK i g' σ' →
  (∀ err, failure' = Some err → failure = Some err ∨ isHandlerFailure err = true ∧ su_cancelled σ' = true) →
  fleetOK (mkFleet σ' (<[i := g']> gs) failure').
Proof.
  intros (_ & Hgs & Hf) Hi HI Hh Hg Hf'. split_and!; [done | |]; cbn [fl_state fl_sessions fl_failure] in *.
  - intros j gj. destruct (decide (j = i)) as [->|Hne].
    + rewrite list_lookup_insert_eq by (by eapply lookup_lt_Some). by intros [= <-].
    + rewrite list_lookup_insert_ne by done. intros Hj. eapply goroutine_elsewhere; [|by apply Hgs].
      by eapply here_elsewhere.
  - intros err He. destruct (Hf' err He) as [H|H]; [|done]. destruct (Hf err H). split; [done |]. by apply Hh.
Qed.

(** A step that is nobody's. *)
Lemma fleet_outside σ gs failure σ' :
  fleetOK (mkFleet σ gs failure) → supOK σ' → (∀ i, elsewhere i σ σ') → fleetOK (mkFleet σ' gs failure).
Proof.
  intros (_ & Hgs & Hf) HI HR. split_and!; [done | |]; cbn [fl_state fl_sessions fl_failure] in *.
  - intros i g Hi. eapply goroutine_elsewhere; [apply HR | by apply Hgs].
  - intros err He. destruct (Hf err He). split; [done |]. by apply (HR 0%nat).
Qed.

Lemma fleetStep_OK f f' : fleetStep cfg initial maximum f f' → fleetOK f → fleetOK f'.
Proof.
  intros Hstep HF. pose proof HF as (HI & Hgs & Hf).
  destruct Hstep as [σ gs i failure Hi Hr|σ gs i failure Hi Hc|σ gs i failure p p' σ' Hi Hp
    |σ gs i failure backoff b Hi|σ gs i failure r σ' failure' Hi Hr|σ gs failure|σ gs failure];
    cbn [fl_state fl_sessions fl_failure] in *; try (pose proof (Hgs _ _ Hi) as Hg).
  - destruct Hg as [Hne Hh]. eapply fleet_goroutine; eauto; [reflexivity |]. apply spec_turn; [by left |].
    split; [|intros _; by apply HI]. rewrite Hh. split_and!; [done | by apply Forall_nil | intros ?; contradiction].
  - destruct Hg as [Hne Hh]. eapply fleet_goroutine; eauto; [reflexivity |]. simpl. rewrite Hh. split; [by left | done].
  - destruct (wp_step _ _ _ _ _ _ _ _ Hg HI Hp) as (HG & HI' & Hp').
    eapply fleet_goroutine; eauto.
  - destruct Hg as [HA Hb]. eapply fleet_goroutine; eauto; [reflexivity |]. by apply spec_turn.
  - destruct Hg as [HA Hb]. unfold receive in Hr. destruct r as [err|]; [destruct failure as [e0|] eqn:Ef |];
      cbn [fl_failure fl_state] in Hr; injection Hr as <- <-.
    + destruct (Hf e0 eq_refl). eapply fleet_goroutine; eauto; [reflexivity | done].
    + eapply fleet_goroutine; eauto; [| done |].
      * by split; [exists [] | split].
      * intros ? [= <-]. by right.
    + eapply fleet_goroutine; eauto; [reflexivity | done].
  - eapply fleet_outside; [done | done |]. intros i. by split; [exists [] | split].
  - destruct HI as (H1 & H2 & H3). eapply fleet_outside; [done | |].
    + split_and!; [by split | |]; simpl.
      * intros ?. right. by apply H2.
      * by rewrite messages_cons, handleAll_app, <- H3.
    + intros i. split; [|done]. exists [Probing]. split; [done |]. by constructor.
Qed.

Lemma fleetRuns_OK v f : fleetRuns cfg initial maximum sc0 v f → fleetOK f.
Proof.
  unfold fleetRuns. intros Hr. assert (Hinit : fleetOK (supervised cfg initial maximum sc0 v)).
  { split_and!; [by split_and! | | done]. intros i g Hi. unfold supervised in Hi. cbn [fl_sessions] in Hi.
    apply list_lookup_imap_Some in Hi as (r & _ & ->). destruct (Nat.eqb_spec i 0) as [->|Hne].
    - apply spec_turn; [by left |]. split; [|done]. split_and!; [done | by apply Forall_nil |].
      split; [done |]. intros r'. apply not_elem_of_nil.
    - by split. }
  induction Hr as [|f1 f2 f3 Hs _ IH]; [done |]. by apply IH, (fleetStep_OK f1).
Qed.
End supervise.

(** ** Histories of messages *)

Section messages.
Context (cfg : scalerConfig) (initial maximum : duration).

(** Before a recovery nothing is handled. *)
Lemma unrecovered tr :
  followsRules cfg initial maximum tr → (∀ r, Recovering 0 r ∉ tr) →
  ∀ m, m ∈ messages tr → m = ProbeFires.
Proof.
  intros Hrules Hno m (ev & Hin & Hm)%elem_of_messages.
  induction tr as [|ev' tr IH]; cbn [followsRules] in Hrules; [by apply elem_of_nil in Hin |].
  destruct Hrules as [Hev Hrules].
  assert (Hno' : ∀ r, Recovering 0 r ∉ tr) by (intros r Hr; apply (Hno r); by right).
  apply elem_of_cons in Hin as [->|Hin]; [|by apply IH].
  destruct ev' as [j|j e|j r|j m' r|j|j d|]; simplify_eq/=; [| |done].
  - destruct Hev as (-> & _). destruct (Hno r). left.
  - destruct Hev as (_ & Hr & _). by destruct (Hno' None).
Qed.

Definition notProbe (m : message) : bool := match m with ProbeFires => false | _ => true end.

(** The messages but for the timer's: nothing, or a recovery and then others. *)
Definition recoversFirst (ms : list message) : Prop :=
  keep notProbe ms = [] ∨ ∃ rest, keep notProbe ms = Recover :: rest ∧ Recover ∉ rest.

(** A message of one of the scale sets served. *)
Definition servedMessage (m : message) : Prop :=
  m = Recover ∨ m = ProbeFires ∨ ∃ i, messageOn (routeOf cfg i) m.

Lemma messages_served tr : followsRules cfg initial maximum tr → Forall servedMessage (messages tr).
Proof.
  induction tr as [|ev tr IH]; cbn [followsRules]; [intros _; by apply Forall_nil |].
  intros [Hev Hrules]. rewrite messages_cons. apply Forall_app. split; [by apply IH |].
  destruct ev as [j|j e|j r|j m r|j|j d|]; cbn [messageOfEvent option_list];
    try exact (List.Forall_nil _); apply Forall_singleton; [by left | | by right; left].
  destruct Hev as (_ & _ & Hm). right. right. by exists j.
Qed.

Lemma messages_recover tr : followsRules cfg initial maximum tr → recoversFirst (messages tr).
Proof.
  induction tr as [|ev tr IH]; cbn [followsRules]; [by left |]. intros [Hev Hrules].
  specialize (IH Hrules). unfold recoversFirst in *. rewrite messages_cons, keep_app.
  destruct ev as [j|j e|j r|j m r|j|j d|]; cbn [messageOfEvent option_list]; rewrite ?app_nil_r; auto.
  - right. exists []. split; [|apply not_elem_of_nil]. destruct Hev as (_ & _ & Hno).
    rewrite (List.filter_ext_in _ (λ _, false)), filter_false; [done |].
    intros m Hm. by rewrite (unrecovered tr Hrules Hno m) by (by apply list_elem_of_In).
  - destruct Hev as (_ & Hr & c & ->). destruct IH as [Hnil|(rest & -> & Hrest)].
    + assert (Hin : Recover ∈ keep notProbe (messages tr)); [|by rewrite Hnil in Hin; apply elem_of_nil in Hin].
      apply elem_of_keep. split; [|done]. apply elem_of_messages. by eexists.
    + right. exists (rest ++ [messageOf (routeOf cfg j) c]). split; [by destruct c |].
      rewrite elem_of_app, list_elem_of_singleton. intros [?|Hc]; [done | by destruct c].
Qed.
End messages.

(** * Results *)

Section results.
Context {W V : Type} {E : Env W} {SE : SessionEnv V} `{!SessionLaws SE} (cfg : scalerConfig).

(** The fleet as [Run] supervises it. *)
Definition controllerRuns : scaler W → V → fleet → Prop :=
  fleetRuns cfg sessionRestartInitialBackoff sessionRestartMaximumBackoff.

Lemma controllerRuns_OK sc v f :
  controllerRuns sc v f → fleetOK cfg sessionRestartInitialBackoff sessionRestartMaximumBackoff sc f.
Proof. by apply fleetRuns_OK. Qed.

(** C26: Sessions by the rules.  However the goroutines of the scale sets, the probe
    timer and cancellation interleave, and whatever GitHub answers: a scale set has
    one session at a time; no handler runs, and no second scale set opens a session,
    before the workers are recovered, which is tried once; a handler runs only in an
    open session whose handlers succeeded so far; and a session is reopened only
    after a wait of 5 seconds to 2 minutes, and never after recovery or a handler
    failed, unless the failure is a cancellation. *)
Theorem sessions_follow_rules sc v f :
  controllerRuns sc v f →
  followsRules cfg sessionRestartInitialBackoff sessionRestartMaximumBackoff (su_trace (fl_state f)).
Proof. intros Hr. by destruct (controllerRuns_OK sc v f Hr) as [(? & _) _]. Qed.


(** The fleet ends as a whole.  What the supervision reports is an error of the
    scaler's own, and then every session was told to end; a goroutine ends only when
    its sessions are cancelled, from outside or by that failure, and with its own
    session closed. *)
Theorem fleet_ends_together sc v f :
  controllerRuns sc v f →
  (∀ err, fl_failure f = Some err → isHandlerFailure err = true ∧ su_cancelled (fl_state f) = true)
  ∧ ∀ i, fl_sessions f !! i = Some Received →
      outOfSession (ofSet i (su_trace (fl_state f))) ∧ su_cancelled (fl_state f) = true.
Proof.
  intros Hr. destruct (controllerRuns_OK sc v f Hr) as (_ & Hgs & Hf). split; [exact Hf |].
  intros i. apply (Hgs i Received).
Qed.
End results.

(** * A fleet to try it on *)

Module SupervisorDemo.

(** Two scale sets. *)
Definition cfg : scalerConfig :=
  mkScalerConfig "ci" 12 0 3 2 Hour (5 * Minute) (10 * Minute) (Some (mkScaleSetRoute "big" 13 0 EphemeralCompute)).

(** GitHub fails the first opening; every listener makes two calls and returns with
    a transport error; timers fire. *)
#[global] Instance sessions : SessionEnv nat :=
  mkSessionEnv _ (λ _ n, (if (n =? 0)%nat then Some (NetError "refused") else None, S n)) (λ _ n, (None, S n))
    (λ n, (Second * Z.of_nat n, S n)) (λ _ n, (true, S n)) (λ _ n, (None, S n)) (λ _ n, (2%nat, S n))
    (λ _ n, (CallDesired 1, S n)) (WrapError "handle message") (λ _ n, (Some (NetError "reset"), S n)).

#[global] Instance sessionLaws : SessionLaws sessions.
Proof. by split. Qed.

Definition scaler0 : scaler demoWorld := startUp demoLedger (mkRetirementQueue ∅ None) (Some false) demoWorld0.
Definition start : fleet :=
  supervised cfg sessionRestartInitialBackoff sessionRestartMaximumBackoff scaler0 0%nat.

(** The next step of the [i]-th goroutine, if it has one. *)
Definition takeTurn (i : nat) (f : fleet) : fleet :=
  let '(mkFleet s gs failure) := f in
  match gs !! i with
  | Some Awaiting =>
    if su_recovered s
    then mkFleet s (<[i := Turning (sessionTurn cfg sessionRestartInitialBackoff sessionRestartMaximumBackoff i 0 false)]> gs) failure
    else f
  | Some (Turning p) =>
    match p with
    | Ret (Ended r) => let '(s', failure') := receive r f in mkFleet s' (<[i := Received]> gs) failure'
    | Ret (Again backoff b) =>
      mkFleet s (<[i := Turning (sessionTurn cfg sessionRestartInitialBackoff sessionRestartMaximumBackoff i backoff b)]> gs) failure
    | Act _ _ => let '(p', s') := stepP p s in mkFleet s' (<[i := Turning p']> gs) failure
    end
  | _ => f
  end.

Definition runs (schedule : list nat) (f : fleet) : fleet := fold_left (λ f i, takeTurn i f) schedule f.

Lemma runs_fleet schedule f :
  rtc (fleetStep cfg sessionRestartInitialBackoff sessionRestartMaximumBackoff) f (runs schedule f).
Proof.
  revert f. induction schedule as [|i schedule IH]; intros f; [done |]. etrans; [|apply IH]. clear IH.
  destruct f as [s gs failure]. unfold takeTurn. destruct (gs !! i) as [[|p|]|] eqn:Hi; [|destruct p as [[r|backoff b]|X op k]|done..].
  - destruct (su_recovered s) eqn:Hr; [|done]. apply rtc_once. by constructor.
  - destruct (receive _ _) eqn:Hr. apply rtc_once. by econstructor.
  - apply rtc_once. by constructor.
  - destruct (stepP _ s) eqn:Hs. apply rtc_once. by econstructor.
Qed.

(** Recovery by the first goroutine, and then both in turns. *)
Definition schedule : list nat := repeat 0%nat 18 ++ concat (repeat [0; 1; 1]%nat 20).
Definition after : fleet := runs schedule start.

Definition shape (ev : supEvent) : string :=
  match ev with
  | Opened _ => "opened" | OpenFailed _ _ => "failed" | Recovering _ _ => "recovering" | Handling _ _ _ => "handling"
  | Closed _ => "closed" | Waiting _ _ => "waiting" | Probing => "probing"
  end.

Example histories :
  map shape (rev (ofSet 0 (su_trace (fl_state after))))
  = ["failed"; "waiting"; "opened"; "recovering"; "handling"; "handling"; "closed"; "waiting"; "opened";
     "handling"; "handling"]%string
  ∧ map shape (rev (ofSet 1 (su_trace (fl_state after))))
    = ["opened"; "handling"; "handling"; "closed"; "waiting"; "opened"; "handling"; "handling"; "closed"; "waiting";
       "opened"]%string.
Proof. vm_compute. done. Qed.

End SupervisorDemo.

Lemma sessions_follow_rules_witness :
  followsRules SupervisorDemo.cfg sessionRestartInitialBackoff sessionRestartMaximumBackoff
    (su_trace (fl_state SupervisorDemo.after)).
Proof.
  apply (sessions_follow_rules SupervisorDemo.cfg SupervisorDemo.scaler0 0%nat SupervisorDemo.after), SupervisorDemo.runs_fleet.
Defined.


Lemma fleet_ends_together_witness :
  match fl_failure SupervisorDemo.after with Some err => isHandlerFailure err = true | None => True end.
Proof.
  destruct (fleet_ends_together SupervisorDemo.cfg SupervisorDemo.scaler0 0%nat SupervisorDemo.after
              (SupervisorDemo.runs_fleet _ _)) as [H _].
  destruct (fl_failure SupervisorDemo.after) as [err|]; [by apply H | exact I].
Defined.
