(* ===== verification/Controller.v ===== *)
(** The construction and the start of a controller (src/controller/controller.go): the
    checks of [New], and [Run] up to the supervision of its sessions, where the
    ledger, the status reporter, the journal and the scale sets come together in one
    scaler.

    GitHub's registration of scale sets, the clock, and what the state files hold at
    the start are the class [ControllerEnv].  The maintenance of the compute, which
    runs beside the sessions, the host name and log lines are left out. *)

From S2P Require Import Prelude Program Float64 GoStrings GoText Provider UsageBudget RetirementQueue.
From S2P Require Import WorkerState Scaler ScalerRuns Supervisor Status.

#[local] Open Scope string_scope.
#[local] Open Scope Z_scope.

(** The constant of that name in the package scaleset. *)
Class DefaultRunnerGroup := defaultRunnerGroup : string.

(** [controller.Config]; the last field says whether there is an ephemeral compute. *)
Record Config := mkConfig {
  GitHubURL : string; ScaleSetName : string; RunnerGroup : string; ControllerID : string;
  MinWorkers : Z; MaxWorkers : Z; MaxLifetime : duration; UsageBudget : duration; BudgetWindow : duration;
  BudgetFile : string; RetirementFile : string; StatusFile : string;
  Provider : string; Version : string; CommitSHA : string;
  GitHubAPIRate : f64; GitHubAPIBurst : Z; LaunchConcurrency : Z;
  IdleTimeout : duration; DanglingTimeout : duration; AlertWebhookURL : string;
  EphemeralScaleSetName : string; HasEphemeralCompute : bool
}.

Definition defaultLaunchConcurrency : Z := 8.

Section new.
Context `{!DefaultRunnerGroup}.

(** The configuration with the defaults of [New] filled in. *)
Definition filled (cfg : Config) : Config :=
  let beside name path := if String.eqb path "" then JoinPath (Dir (BudgetFile cfg)) name else path in
  mkConfig (GitHubURL cfg) (ScaleSetName cfg)
    (if String.eqb (RunnerGroup cfg) "" then defaultRunnerGroup else RunnerGroup cfg) (ControllerID cfg)
    (MinWorkers cfg) (MaxWorkers cfg) (MaxLifetime cfg) (UsageBudget cfg) (BudgetWindow cfg)
    (BudgetFile cfg) (beside "retirements.json" (RetirementFile cfg)) (beside "status.json" (StatusFile cfg))
    (if String.eqb (Provider cfg) "" then "unknown" else Provider cfg) (Version cfg) (CommitSHA cfg)
    (GitHubAPIRate cfg) (GitHubAPIBurst cfg)
    (if LaunchConcurrency cfg <? 1 then defaultLaunchConcurrency else LaunchConcurrency cfg)
    (IdleTimeout cfg) (DanglingTimeout cfg) (AlertWebhookURL cfg) (EphemeralScaleSetName cfg)
    (negb (String.eqb (EphemeralScaleSetName cfg) "") && HasEphemeralCompute cfg).

(** [New]; [github] and [compute] say that the adapters are there. *)
Definition New (cfg : Config) (github compute : bool) : error + Config :=
  if negb github || negb compute then inl (ErrorString "GitHub and compute adapters are required")
  else if String.eqb (ScaleSetName cfg) "" || String.eqb (ControllerID cfg) "" || (MaxWorkers cfg <? 1)
          || (MinWorkers cfg <? 0) || (MaxWorkers cfg <? MinWorkers cfg)
  then inl (ErrorString "invalid controller identity or worker bounds")
  else if String.eqb (EphemeralScaleSetName cfg) (ScaleSetName cfg)
  then inl (ErrorString "the ephemeral scale set needs a name of its own")
  else if (MaxLifetime cfg <? Minute) || (24 * Hour <? MaxLifetime cfg)
  then inl (ErrorString "maximum worker lifetime must be between 1m and 24h")
  else if (UsageBudget cfg <? MaxLifetime cfg) || (BudgetWindow cfg <? Hour) || String.eqb (BudgetFile cfg) ""
  then inl (ErrorString "usage budget must cover at least one worker lifetime and use a durable state file")
  else
  let cfg := filled cfg in
  if String.eqb (StatusFile cfg) (BudgetFile cfg)
  then inl (ErrorString "fleet status and runner usage budget must use different files")
  else if String.eqb (RetirementFile cfg) (BudgetFile cfg) || String.eqb (RetirementFile cfg) (StatusFile cfg)
  then inl (ErrorString "runner retirement queue must use a dedicated file")
  else if (IdleTimeout cfg <? 0) || (MaxLifetime cfg <? IdleTimeout cfg) || (DanglingTimeout cfg <? 0)
          || (MaxLifetime cfg <? DanglingTimeout cfg)
  then inl (ErrorString "idle and dangling timeouts must be between 0 and the maximum worker lifetime")
  else inr cfg.
End new.

(** * Starting *)

(** [scaleset.RunnerScaleSet], as asked for and as answered. *)
Record scaleSetSettings := mkSettings {
  ss_Name : string; ss_RunnerGroupID : Z; ss_Labels : list string; ss_DisableUpdate : bool
}.
Record scaleSetRef := mkScaleSetRef { sr_ID : Z; sr_Name : string }.

(** What [Run] changes at GitHub. *)
Inductive setCall :=
  | CreatedSet (settings : scaleSetSettings)
  | UpdatedSet (id : Z) (settings : scaleSetSettings).

Class ControllerEnv (W : Type) := mkControllerEnv {
  ce_now : W → time * W;
  (** What the state files hold, and the outcomes of the system calls on them. *)
  ce_ledger : W → (ledgerRead * persistIO) * W;
  ce_journal : W → (journalPath * journalIO) * W;
  ce_statusFile : W → statusFile;
  ce_windows : bool;
  (** Whether a URL has a scheme of HTTP and a host. *)
  ce_webhook : string → bool;
  (** [scaleset.Client] *)
  ce_GetRunnerGroupByName : string → W → (error + Z) * W;
  ce_GetRunnerScaleSet : Z → string → W → (error + option scaleSetRef) * W;
  ce_CreateRunnerScaleSet : scaleSetSettings → W → (error + scaleSetRef) * W;
  ce_UpdateRunnerScaleSet : Z → scaleSetSettings → W → (error + scaleSetRef) * W
}.

Record runSys (W : Type) := mkRunSys {
  rn_world : W; rn_reports : list Scaler.report; rn_calls : list setCall; rn_status : option (statusSys W)
}.
Arguments mkRunSys {W}.
Arguments rn_world {W}.
Arguments rn_reports {W}.
Arguments rn_calls {W}.
Arguments rn_status {W}.

Section run.
Context {W : Type} `{!DefaultRunnerGroup, !ControllerEnv W, !StatusEnv W}.
Abbreviation Σ := (runSys W).
Abbreviation P := (prog Σ).

Definition runAsk {A} (f : W → A * W) : P A :=
  act (λ s, let '(x, w) := f (rn_world s) in (x, mkRunSys w (rn_reports s) (rn_calls s) (rn_status s))).

Definition runReport (r : Scaler.report) : P () :=
  update (λ s, mkRunSys (rn_world s) (r :: rn_reports s) (rn_calls s) (rn_status s)).

(** A call of GitHub that changes it. *)
Definition runCall {A} (c : setCall) (f : W → A * W) : P A :=
  act (λ s, let '(x, w) := f (rn_world s) in (x, mkRunSys w (rn_reports s) (c :: rn_calls s) (rn_status s))).

Definition desiredSet (group : Z) (name : string) : scaleSetSettings := mkSettings name group [name] true.

Definition registerFailed (msg : string) (err : error) : P (error + scaleSetRef) :=
  _ ← runReport (r_degraded "github_scale_set_failed"); mret (inl (WrapError msg err)).

Definition registerScaleSet (group : Z) (name : string) : P (error + scaleSetRef) :=
  found ← runAsk (ce_GetRunnerScaleSet group name);
  match found with
  | inl err => registerFailed "find runner scale set" err
  | inr None =>
    created ← runCall (CreatedSet (desiredSet group name)) (ce_CreateRunnerScaleSet (desiredSet group name));
    match created with
    | inl err => registerFailed "create runner scale set" err
    | inr scaleSet => mret (inr scaleSet)
    end
  | inr (Some scaleSet) =>
    updated ← runCall (UpdatedSet (sr_ID scaleSet) (desiredSet group name))
                (ce_UpdateRunnerScaleSet (sr_ID scaleSet) (desiredSet group name));
    match updated with
    | inl err => registerFailed "update runner scale set" err
    | inr scaleSet => mret (inr scaleSet)
    end
  end.

Context (cfg : Config).

Definition reporterOf : reporterConfig :=
  mkReporterConfig (StatusFile cfg) (ControllerID cfg) (Provider cfg) (Version cfg) (CommitSHA cfg)
    (GitHubURL cfg) (ScaleSetName cfg) (EphemeralScaleSetName cfg) (MaxWorkers cfg) (AlertWebhookURL cfg).

Definition openBudget : P (error + usageBudget) :=
  read ← runAsk ce_ledger;
  now ← runAsk ce_now;
  mret (newUsageBudget read.2 (UsageBudget cfg) (BudgetWindow cfg) (BudgetFile cfg) (MaxLifetime cfg) read.1 now).

Definition openReporter (b : usageBudget) : P (option error) :=
  now ← runAsk ce_now;
  act (λ s,
    match newStatusReporter ce_webhook reporterOf (snapshot now b) (ce_statusFile (rn_world s)) (rn_world s) with
    | inl err => (Some err, s)
    | inr sys => (None, mkRunSys (sworld sys) (rn_reports s) (rn_calls s) (Some sys))
    end).

Definition openJournal : P (error + retirementQueue) :=
  read ← runAsk ce_journal;
  mret (newRetirementQueue read.2 ce_windows (RetirementFile cfg) read.1).

Definition resolveGroup : P (error + Z) :=
  if String.eqb (RunnerGroup cfg) defaultRunnerGroup then mret (inr 1)
  else
  group ← runAsk (ce_GetRunnerGroupByName (RunnerGroup cfg));
  match group with
  | inl err => _ ← runReport (r_degraded "github_runner_group_failed"); mret (inl (WrapError "resolve runner group" err))
  | inr id => mret (inr id)
  end.

(** Both scale sets, the second one if it is configured. *)
Definition registerSets (group : Z) : P (error + scaleSetRef * option scaleSetRef) :=
  main ← registerScaleSet group (ScaleSetName cfg);
  match main with
  | inl err => mret (inl err)
  | inr main =>
    if String.eqb (EphemeralScaleSetName cfg) "" then mret (inr (main, None))
    else
    second ← registerScaleSet group (EphemeralScaleSetName cfg);
    match second with
    | inl err => mret (inl err)
    | inr second =>
      if sr_ID second =? sr_ID main then
        _ ← runReport (r_degraded "github_scale_set_failed");
        mret (inl (ErrorString "GitHub returned one scale set for both"))
      else mret (inr (main, Some second))
    end
  end.

Definition ephemeralRoute (second : scaleSetRef) : scaleSetRoute :=
  mkScaleSetRoute (EphemeralScaleSetName cfg) (sr_ID second) 0
    (if HasEphemeralCompute cfg then EphemeralCompute else FleetCompute).

Definition scalerOf (sets : scaleSetRef * option scaleSetRef) : scalerConfig :=
  mkScalerConfig (ScaleSetName cfg) (sr_ID sets.1) (MinWorkers cfg) (MaxWorkers cfg) (LaunchConcurrency cfg)
    (MaxLifetime cfg) (IdleTimeout cfg) (DanglingTimeout cfg) (ephemeralRoute <$> sets.2).

(** [Run] up to the supervision: what the scaler is made of. *)
Definition Run : P (error + scalerConfig * usageBudget * retirementQueue) :=
  budget ← openBudget;
  match budget with
  | inl err => mret (inl err)
  | inr b =>
    failed ← openReporter b;
    match failed : option error with
    | Some err => mret (inl err)
    | None =>
      journal ← openJournal;
      match journal with
      | inl err => _ ← runReport (r_degraded "runner_retirement_state_failed"); mret (inl err)
      | inr q =>
        now ← runAsk ce_now;
        _ ← runReport (r_retirements (countRetirements q) (overdueRetirements now retirementGrace q));
        group ← resolveGroup;
        match group with
        | inl err => mret (inl err)
        | inr group =>
          sets ← registerSets group;
          match sets with
          | inl err => mret (inl err)
          | inr sets => mret (inr (scalerOf sets, b, q))
          end
        end
      end
    end
  end.
End run.

(** What [Run] supervises, in the scaler's own world [w] and the sessions' [v]. *)
Definition runFleet {W V} {E : Env W} {SE : SessionEnv V} (started : scalerConfig * usageBudget * retirementQueue)
    (w : W) (v : V) : fleet → Prop :=
  let '(cfg, b, q) := started in
  fleetRuns cfg sessionRestartInitialBackoff sessionRestartMaximumBackoff (startUp b q (Some false) w) v.
