(* ===== verification/ControllerTheorems.v ===== *)
(** What a controller has established when it starts to supervise its sessions: the
    state files loaded meet the invariants that everything after relies on. *)

From S2P Require Import Prelude Program Float64 GoStrings Provider UsageBudget BudgetFacts RetirementQueue.
From S2P Require Import WorkerState Scaler ScalerSpecs ScalerOps ScalerRuns Supervisor SupervisorTheorems.
From S2P Require Import Status StatusTheorems Controller.

#[local] Open Scope string_scope.
#[local] Open Scope Z_scope.

(** * The state files *)

Lemma newUsageBudget_OK io lim win name res read now b :
  newUsageBudget io lim win name res read now = inr b →
  (∀ l, read = ReadLedger l → entriesOK (durationSeconds res) now (ul_Entries l)) →
  0 <= durationSeconds lim <= max_int64 → 1 <= durationSeconds res <= durationSeconds longestReservation →
  budgetOK now b ∧ limit b = lim ∧ reservation b = res.
Proof.
  unfold newUsageBudget. intros Hnew Hread Hlim Hres.
  destruct (_ || _) eqn:Ew; [done |]. assert (Hwin : 0 < win) by (breflect; lia). clear Ew.
  destruct read as [| | |l]; try done. specialize (Hread l eq_refl). destruct (Z.eqb_spec (ul_Version l) 1) as [Hv|]; [|done].
  cbn [negb] in Hnew. set (b0 := mkUsageBudget _ _ _ _ _) in *.
  destruct (UsageBudget.validate b0); [done |].
  assert (Hb0 : budgetOK now b0).
  { split_and!; [by split | done |]. exists (ul_Entries l). split; [|done]. simpl. destruct l. simpl in *. by subst. }
  assert (Hpr := prune_budgetOK now now b0 Hb0). destruct (prune now b0) as [changed b1]. simpl in Hpr.
  destruct Hpr as [Hb1 (H1 & H2 & H3)]. destruct changed; [|by injection Hnew as <-].
  destruct (persist io b1) as [[err|] b2] eqn:Ep; [done |]. injection Hnew as <-.
  destruct Hb1 as (Hc & He & Hf). destruct (persist_OK now io b1 None b2 Hc He Hf Ep) as [Hb2 (H4 & H5 & H6)].
  split_and!; [done | by rewrite H4, H1 | by rewrite H6, H3].
Qed.

Lemma loadEntries_OK es m m' :
  loadEntries es m = inr m' → journalOK m →
  journalOK m' ∧ Forall (λ e, validateRetirementEntry e = None) es
  ∧ NoDup (map re_RunnerName es) ∧ ∀ e, e ∈ es → m !! re_RunnerName e = None.
Proof.
  revert m. induction es as [|e es IH]; intros m; simpl.
  - intros [= <-] Hm. split_and!; [done | exact (List.Forall_nil _) | apply NoDup_nil_2 |]. by intros e ?%not_elem_of_nil.
  - destruct (validateRetirementEntry e) eqn:Ev; [done |]. destruct (m !! re_RunnerName e) eqn:Em; [done |].
    intros Hl Hm. destruct (IH _ Hl) as (Hj & HF & HN & Hno); [by apply map_Forall_insert_2 |].
    split_and!; [done | by apply Forall_cons | |].
    + apply NoDup_cons. split; [|done]. intros (x & Hx & Hin)%list_elem_of_fmap.
      specialize (Hno x Hin). rewrite <- Hx, lookup_insert_eq in Hno. done.
    + intros x [->|Hx]%elem_of_cons; [done |]. specialize (Hno x Hx).
      by apply lookup_insert_None in Hno as [? _].
Qed.

Lemma persistLocked_OK io q q' : persistLocked io q = (None, q') → journalOK (rq_entries q) → queueOK q'.
Proof.
  intros H Hq. unfold persistLocked in H. case_bool. split; [done |]. intros l [= <-].
  split_and!; [done | by apply allRetirements_valid | by apply allRetirements_names].
Qed.

Lemma newRetirementQueue_OK io windows path p q :
  newRetirementQueue io windows path p = inr q →
  (∀ s l, p = Entry s → js_decoded s = Some l → rl_Version l ≠ 1) → queueOK q.
Proof.
  unfold newRetirementQueue. intros Hnew Hp. destruct (String.eqb path ""); [done |].
  destruct (loadRetirementLedger windows p) as [err|l] eqn:El.
  - destruct (errors_is ErrNotExist err); [|done]. destruct (persistLocked io _) as [[e|] q'] eqn:Eq; [done |].
    injection Hnew as <-. eapply persistLocked_OK; [exact Eq |]. apply map_Forall_empty.
  - assert (Hv : rl_Version l ≠ 1).
    { destruct p as [| | | | |s]; simpl in El; try done. repeat case_match; simplify_eq; by eapply Hp. }
    destruct (Z.eqb_spec (rl_Version l) 1) as [|_]; [done |]. cbn [andb] in Hnew.
    destruct (Z.eqb_spec (rl_Version l) 2) as [Hv2|]; [|done]. cbn [negb] in Hnew.
    destruct (loadEntries _ ∅) as [|m] eqn:Em; [done |]. injection Hnew as <-.
    destruct (loadEntries_OK _ _ _ Em) as (Hj & HF & HN & _); [apply map_Forall_empty |].
    split; [done |]. by intros l' [= <-].
Qed.

(** * The start *)

Lemma evalP_act {Σ A} (op : Σ → A * Σ) s : evalP (act op) s = (op s).1.
Proof. unfold evalP. simpl. by destruct (op s). Qed.
Lemma execP_act {Σ A} (op : Σ → A * Σ) s : execP (act op) s = (op s).2.
Proof. unfold execP. simpl. by destruct (op s). Qed.

Section start.
Context {W : Type} `{!DefaultRunnerGroup, !ControllerEnv W, !StatusEnv W} (cfg : Config).
Abbreviation Σ := (runSys W).

(** The ledger is one that a controller with these settings left behind, whose clock
    had not gone beyond this one; the journal is not of the format before. *)
Definition ownLedger : Prop := ∀ w l io w' now,
  (ce_ledger w) = ((ReadLedger l, io), w') → (ce_now w').1 = now →
  entriesOK (durationSeconds (MaxLifetime cfg)) now (ul_Entries l).
Definition ownJournal : Prop := ∀ w s io w' l,
  ce_journal w = ((Entry s, io), w') → js_decoded s = Some l → rl_Version l ≠ 1.

Lemma openBudget_OK s b :
  ownLedger → 0 <= durationSeconds (UsageBudget cfg) <= max_int64 →
  1 <= durationSeconds (MaxLifetime cfg) <= durationSeconds longestReservation →
  evalP (openBudget cfg) s = inr b →
  ∃ now, budgetOK now b ∧ limit b = UsageBudget cfg ∧ reservation b = MaxLifetime cfg.
Proof.
  intros Hown Hlim Hres. unfold openBudget, runAsk. rewrite !evalP_bind, !evalP_act, !execP_act, evalP_ret. simpl.
  destruct (ce_ledger (rn_world s)) as [[read io] w] eqn:El. simpl.
  destruct (ce_now w) as [now w'] eqn:En. simpl. intros Hnew. exists now.
  eapply newUsageBudget_OK; [exact Hnew | | done | done].
  intros l ->. apply (Hown _ _ _ _ _ El). by rewrite En.
Qed.

Lemma openJournal_OK s q : ownJournal → evalP (openJournal cfg) s = inr q → queueOK q.
Proof.
  intros Hown. unfold openJournal, runAsk. rewrite evalP_bind, evalP_act, execP_act, evalP_ret. simpl.
  destruct (ce_journal (rn_world s)) as [[p io] w] eqn:Ej. simpl. intros Hnew.
  eapply newRetirementQueue_OK; [exact Hnew |]. intros st l ->. by apply (Hown _ _ _ _ _ Ej).
Qed.

(** The scale sets that [Run] serves. *)
Definition servedSets (sets : scaleSetRef * option scaleSetRef) : Prop :=
  match sets.2 with Some second => sr_ID second ≠ sr_ID sets.1 | None => True end.

Lemma registerSets_OK group s sets : evalP (registerSets cfg group) s = inr sets → servedSets sets.
Proof.
  unfold registerSets. rewrite evalP_bind. destruct (evalP (registerScaleSet _ _) s) as [|main]; [done |].
  destruct (String.eqb _ ""); [by intros [= <-] |]. rewrite evalP_bind.
  destruct (evalP (registerScaleSet _ _) _) as [|second]; [done |].
  destruct (Z.eqb_spec (sr_ID second) (sr_ID main)); [by rewrite evalP_bind | by intros [= <-]].
Qed.

Lemma Run_OK s sc b q :
  ownLedger → ownJournal → 0 <= durationSeconds (UsageBudget cfg) <= max_int64 →
  1 <= durationSeconds (MaxLifetime cfg) <= durationSeconds longestReservation →
  evalP (Run cfg) s = inr (sc, b, q) →
  (∃ now, budgetOK now b ∧ limit b = UsageBudget cfg ∧ reservation b = MaxLifetime cfg) ∧ queueOK q
  ∧ ∃ sets, servedSets sets ∧ sc = scalerOf cfg sets.
Proof.
  intros Hledger Hjournal Hlim Hres. unfold Run. rewrite evalP_bind.
  destruct (evalP (openBudget cfg) s) as [|b'] eqn:Eb; [done |]. rewrite evalP_bind.
  destruct (evalP (openReporter cfg b') _); [done |]. rewrite evalP_bind.
  destruct (evalP (openJournal cfg) _) as [|q'] eqn:Eq; [by rewrite evalP_bind |]. rewrite !evalP_bind.
  destruct (evalP (resolveGroup cfg) _) as [|group]; [done |]. rewrite evalP_bind.
  destruct (evalP (registerSets cfg group) _) as [|sets] eqn:Es; [done |]. rewrite evalP_ret. intros [= <- <- <-].
  split_and!; [by eapply openBudget_OK | by eapply openJournal_OK |].
  exists sets. split; [by eapply registerSets_OK | done].
Qed.
End start.

(** * What [New] accepts *)

Record acceptedConfig (cfg : Config) : Prop := mkAccepted {
  acc_workers : 0 <= MinWorkers cfg <= MaxWorkers cfg ∧ 1 <= MaxWorkers cfg;
  acc_lifetime : Minute <= MaxLifetime cfg <= 24 * Hour;
  acc_budget : MaxLifetime cfg <= UsageBudget cfg;
  acc_launches : 1 <= LaunchConcurrency cfg;
  acc_timeouts : 0 <= IdleTimeout cfg <= MaxLifetime cfg ∧ 0 <= DanglingTimeout cfg <= MaxLifetime cfg;
  acc_names : ScaleSetName cfg ≠ "" ∧ EphemeralScaleSetName cfg ≠ ScaleSetName cfg;
  acc_files : NoDup [BudgetFile cfg; StatusFile cfg; RetirementFile cfg]
}.

(** The next check of a constructor passed. *)
Ltac passed E :=
  lazymatch goal with |- (if ?c then inl _ else _) = _ → _ => destruct c eqn:E; [done |] end.

Lemma New_accepted `{!DefaultRunnerGroup} cfg0 github compute cfg :
  New cfg0 github compute = inr cfg → acceptedConfig cfg ∧ UsageBudget cfg = UsageBudget cfg0.
Proof.
  unfold New. passed E0. passed E1. passed E2. passed E3. passed E4. cbv zeta. passed E5. passed E6. passed E7.
  intros [= <-]. split; [|done].
  apply String.eqb_neq in E2, E5. apply orb_false_iff in E6 as [Hb%String.eqb_neq Ht%String.eqb_neq].
  assert (Hname : ScaleSetName cfg0 ≠ "") by (intros Heq; by rewrite Heq in E1).
  unfold filled in E7. cbn [MaxLifetime IdleTimeout DanglingTimeout] in E7. clear E0.
  split; unfold filled; cbn; try (breflect; lia).
  - destruct (Z.ltb_spec (LaunchConcurrency cfg0) 1); unfold defaultLaunchConcurrency; lia.
  - done.
  - change (NoDup [BudgetFile (filled cfg0); StatusFile (filled cfg0); RetirementFile (filled cfg0)]).
    change (BudgetFile cfg0) with (BudgetFile (filled cfg0)) in *.
    repeat (apply NoDup_cons; split; [rewrite ?not_elem_of_cons; split_and?; try apply not_elem_of_nil; congruence |]).
    apply NoDup_nil_2.
Qed.

Lemma durationSeconds_lifetime d :
  Minute <= d <= 24 * Hour → 1 <= durationSeconds d <= durationSeconds longestReservation.
Proof.
  intros Hd. rewrite longest_seconds. unfold durationSeconds. unfold Minute, Hour, Second in Hd.
  rewrite Seconds_ceil by (unfold Second; lia). unfold Second.
  pose proof (Z.div_mod (- d) 1000000000 ltac:(lia)). pose proof (Z.mod_pos_bound (- d) 1000000000 ltac:(lia)). lia.
Qed.

Lemma durationSeconds_int64 d : 0 <= d <= max_int64 → 0 <= durationSeconds d <= max_int64.
Proof.
  intros Hd. unfold durationSeconds, max_int64 in *.
  assert (Hd' : 0 <= d < 2 ^ 52 * Second) by (change (2 ^ 52 * Second) with 4503599627370496000000000; lia).
  pose proof (Seconds_ceil_le d Hd') as H.
  assert (d / Second < 9223372037) by (apply Z.div_lt_upper_bound; unfold Second; lia). lia.
Qed.

(** * What supervision starts from *)


(** * A controller to start *)

Module ControllerDemo.

#[global] Instance groups : DefaultRunnerGroup := "default".

(** An empty ledger, no journal yet; GitHub knows one of the two scale sets. *)
#[global] Instance world : ControllerEnv Z := {|
  ce_now w := (UnixTime 1700000000 + Second * w, w + 1);
  ce_ledger w := ((ReadLedger (mkUsageLedger 1 []), ioOK), w);
  ce_journal w := ((EntryMissing, joOK), w);
  ce_statusFile _ := NoFile;
  ce_windows := false;
  ce_webhook _ := true;
  ce_GetRunnerGroupByName _ w := (inr 5, w);
  ce_GetRunnerScaleSet _ name w := (inr (if String.eqb name "ci" then Some (mkScaleSetRef 12 name) else None), w);
  ce_CreateRunnerScaleSet settings w := (inr (mkScaleSetRef 13 (ss_Name settings)), w);
  ce_UpdateRunnerScaleSet id settings w := (inr (mkScaleSetRef id (ss_Name settings)), w)
|}.

Definition asked : Config :=
  mkConfig "https://github.com/o/r" "ci" "" "c1" 0 3 (2 * Hour) (10 * Hour) (24 * Hour) "/data/budget.json" "" ""
    "" "v1" "abc" (f64_of_int 10) 20 0 Minute (5 * Minute) "" "big" true.
Definition cfg : Config := filled asked.
Definition system : runSys Z := mkRunSys 0 [] [] None.

Definition budget : usageBudget :=
  mkUsageBudget (10 * Hour) (24 * Hour) (2 * Hour) [] (mkLedgerFile (Complete (mkUsageLedger 1 [])) Absent).
Definition journal : retirementQueue := mkRetirementQueue ∅ (Some (mkRetirementLedger 2 [] [])).
Definition scalerCfg : scalerConfig :=
  mkScalerConfig "ci" 12 0 3 8 (2 * Hour) Minute (5 * Minute) (Some (mkScaleSetRoute "big" 13 0 EphemeralCompute)).

Example registered :
  rn_calls (execP (Run cfg) system) = [CreatedSet (mkSettings "big" 1 ["big"] true); UpdatedSet 12 (mkSettings "ci" 1 ["ci"] true)].
Proof. vm_compute. done. Qed.

Lemma ownLedger_empty : ownLedger cfg.
Proof. intros w l io w' now [= <- <- <-] _. split; [exact (List.Forall_nil _) | apply NoDup_nil_2]. Qed.

Lemma ownJournal_missing : ownJournal.
Proof. by intros w s io w' l [=]. Qed.
End ControllerDemo.

