(* ===== verification/Settings.v ===== *)
(** The operator's settings (src/cmd/runneryard/config.go and pools.go): what the
    environment says, read into the configuration of the program, and the validation of
    the pools file, which fills in defaults.

    The environment, the files an operator names and the GitHub App library are the
    class [SettingsEnv].  A rate of NaN, which the checks let pass, paces nothing, as a
    rate of zero does: [finite] writes it so.  [Validate] of a host and the constructors
    of host sources are those of their own files. *)

From S2P Require Import Prelude Float64 GoStrings GoText GoNumbers GoPatterns Provider Retry PoolState.
From S2P Require Import HostAgent Placement CloudHTTP Registry Fly FlyHosts Hetzner HetznerHosts.
From S2P Require Import StaticHosts Controller.

#[local] Open Scope string_scope.
#[local] Open Scope Z_scope.

Definition poolSSHKeyFileEnv : string := "RUNNER_POOL_SSH_KEY_FILE".
Definition poolsFileEnv : string := "RUNNER_POOLS_FILE".
Definition poolFlyTokenEnv : string := "RUNNER_POOL_FLY_API_TOKEN".
Definition computeProviderNone : string := "none".
Definition defaultGitHubAPIRate : f64 := f64_of_int 10.

(** * The pools file *)

Record poolConfig := mkPoolConfig {
  pc_Name : string; pc_Source : string; pc_RunnerImage : string; pc_Slots : Z; pc_MinHosts : Z; pc_MaxHosts : Z;
  pc_HourlyPrice : f64; pc_SlotCPUs : f64; pc_SlotMemoryMB : Z; pc_MinFreeDiskGB : option Z; pc_Caches : list string;
  pc_Speculative : option bool;
  pc_ServerType : string; pc_Location : string; pc_ServerImage : string; pc_FirewallID : Z; pc_NetworkID : Z;
  pc_Billing : string; pc_Currency : string; pc_Hosts : list StaticHost;
  pc_FlyApp : string; pc_Region : string; pc_CPUKind : string; pc_CPUs : Z; pc_MemoryMB : Z; pc_VolumeGB : Z;
  pc_IdleStopAfter : duration; pc_KeepStopped : option Z; pc_DeleteStoppedAfter : duration
}.

Record poolsFile := mkPoolsFile {
  pf_Trust : string; pf_SSHKeyFile : string; pf_Placement : list string; pf_Pools : list poolConfig
}.

(** * The configuration *)

(** [scaleset.GitHubAppAuth] *)
Record GitHubAppAuth := mkGitHubAppAuth { ClientID : string; InstallationID : Z; PrivateKey : string }.

Record appConfig := mkAppConfig {
  ac_GitHubURL : string; ac_ScaleSetName : string; ac_RunnerGroup : string; ac_GitHubApp : GitHubAppAuth;
  ac_GitHubToken : string; ac_ComputeProvider : string; ac_ControllerID : string; ac_ControllerFlyApp : string;
  ac_FlyAPIToken : string; ac_FlyAPIBaseURL : string; ac_FlyWorkerApp : string; ac_FlyRegion : string;
  ac_PoolFlyAPIToken : string; ac_HetznerAPIToken : string; ac_HetznerAPIBaseURL : string; ac_HetznerLocation : string;
  ac_HetznerServerType : string; ac_HetznerServerImage : string; ac_HetznerFirewallID : Z; ac_HetznerNetworkID : Z;
  ac_RunnerImage : string; ac_MinWorkers : Z; ac_MaxWorkers : Z; ac_RunnerCPUs : Z; ac_RunnerMemoryMB : Z;
  ac_RunnerRootFSGB : Z; ac_RunnerDockerDNS : string; ac_RunnerCPUKind : string; ac_RunnerMaxLifetime : duration;
  ac_RunnerUsageBudget : duration; ac_RunnerBudgetWindow : duration; ac_RunnerBudgetFile : string;
  ac_RunnerStatusFile : string; ac_ProviderRetries : Z; ac_ProviderRateLimit : float; ac_GitHubAPIRateLimit : float;
  ac_LaunchConcurrency : Z; ac_RunnerIdleTimeout : duration; ac_DanglingTimeout : duration; ac_AlertWebhookURL : string;
  ac_PoolsFile : string; ac_Pools : option poolsFile; ac_EphemeralScaleSetName : string
}.

(** What [readPrivateKeyFile] finds at a path: the stages of reading it. *)
Record keyFile := mkKeyFile {
  kf_abs : bool; kf_openRoot : bool; kf_lstat : bool; kf_symlink : bool; kf_regular : bool; kf_groupOrOther : bool;
  kf_size : Z; kf_open : bool; kf_same : bool; kf_contents : option string
}.

(** [url.URL] *)
Record parsedURL := mkParsedURL {
  pu_Scheme : string; pu_Hostname : string; pu_Port : string; pu_HasUser : bool; pu_RawQuery : string;
  pu_Fragment : string; pu_RawPath : string; pu_Path : string
}.

Class SettingsEnv := mkSettingsEnv {
  se_Getenv : string → string;
  se_KeyFile : string → keyFile;
  se_Windows : bool;
  (** [os.ReadFile]; for the pools file, up to its limit and one byte more. *)
  se_ReadFile : string → error + string;
  (** The YAML decoder, unknown keys refused. *)
  se_PoolsYAML : string → option poolsFile;
  se_ParseURL : string → option parsedURL;
  (** [GitHubAppAuth.Validate] *)
  se_AppValid : GitHubAppAuth → option error;
  se_Version : string;
  se_CommitSHA : string
}.

Section settings.
Context `{!SettingsEnv, !DefaultRunnerGroup}.

(** ** Reading variables *)

Definition envOr (name fallback : string) : string :=
  let value := TrimSpace (se_Getenv name) in
  if String.eqb value "" then TrimSpace fallback else value.

Definition trimmed (name : string) : string := TrimSpace (se_Getenv name).

(** [envInt], [envInt64], [envFloat] and [envDuration]: a number in text, or the default. *)
Definition envNumber {A} (parse : string → option A) (name : string) (fallback : A) (msg : string) : error + A :=
  let value := trimmed name in
  if String.eqb value "" then inr fallback
  else match parse value with Some x => inr x | None => inl (ErrorString (name +:+ msg)) end.

Definition parseInteger (s : string) : option Z := let '(z, ok) := ParseInt s in if ok : bool then Some z else None.

Definition envInt (name : string) (fallback : Z) : error + Z := envNumber parseInteger name fallback " must be an integer".
Definition envInt64 (name : string) (fallback : Z) : error + Z := envNumber parseInteger name fallback " must be an integer".
Definition envFloat (name : string) (fallback : float) : error + float :=
  envNumber ParseFloat name fallback " must be a number".
Definition envDuration (name : string) (fallback : duration) : error + duration :=
  envNumber ParseDuration name fallback " must be a duration".

Definition maximumKeyFile : Z := 65536.

Definition readPrivateKeyFile (f : keyFile) : error + string :=
  if negb (kf_abs f) then inl (ErrorString "resolve private key path")
  else if negb (kf_openRoot f) then inl (ErrorString "open private key directory")
  else if negb (kf_lstat f) then inl (ErrorString "inspect private key file")
  else if kf_symlink f || negb (kf_regular f) then
    inl (ErrorString "private key path must be a regular file, not a symlink")
  else if negb se_Windows && kf_groupOrOther f then
    inl (ErrorString "private key file is readable by group or others; run chmod 600 first")
  else if (kf_size f <? 1) || (maximumKeyFile <? kf_size f) then
    inl (ErrorString "private key file size is outside the safe range")
  else if negb (kf_open f) then inl (ErrorString "open private key file")
  else if negb (kf_same f) then inl (ErrorString "private key file changed while it was being inspected")
  else match kf_contents f with
  | None => inl (ErrorString "read private key file")
  | Some contents => inr (String.substring 0 (Z.to_nat maximumKeyFile) contents)
  end.

Definition loadAppAuth : error + GitHubAppAuth :=
  match envInt64 "GITHUB_APP_INSTALLATION_ID" 0 with
  | inl err => inl err
  | inr installationID =>
    let key := se_Getenv "GITHUB_APP_PRIVATE_KEY" in
    let path := trimmed "GITHUB_APP_PRIVATE_KEY_FILE" in
    let auth key := mkGitHubAppAuth (trimmed "GITHUB_APP_CLIENT_ID") installationID key in
    if String.eqb key "" && negb (String.eqb path "") then
      match readPrivateKeyFile (se_KeyFile path) with
      | inl err => inl (WrapError "read GITHUB_APP_PRIVATE_KEY_FILE" err)
      | inr contents => inr (auth contents)
      end
    else inr (auth key)
  end.

Definition defaultCPUKind : string :=
  let kind := trimmed "RUNNER_CPU_KIND" in
  if negb (String.eqb kind "") then kind
  else if negb (String.eqb (trimmed "RUNNER_CPUS") "") then "shared" else "performance".

Definition maximumPoolsFile : Z := 262144.

(** [loadPoolsFile] *)
Definition loadPoolsFile (path : string) : error + poolsFile :=
  match se_ReadFile path with
  | inl err => inl (WrapError ("read " +:+ poolsFileEnv) err)
  | inr contents =>
    if maximumPoolsFile <? Z.of_nat (String.length contents) then inl (ErrorString (poolsFileEnv +:+ " is larger than 262144 bytes"))
    else match se_PoolsYAML contents with
    | None => inl (ErrorString ("parse " +:+ poolsFileEnv))
    | Some parsed =>
      let keyFile := trimmed poolSSHKeyFileEnv in
      inr (mkPoolsFile (pf_Trust parsed) (if String.eqb keyFile "" then pf_SSHKeyFile parsed else keyFile)
             (pf_Placement parsed) (pf_Pools parsed))
    end
  end.

(** [x ← r; k] on results. *)
Definition andThen {A B} (r : error + A) (k : A → error + B) : error + B :=
  match r with inl err => inl err | inr x => k x end.

(** [loadConfig] up to its validation, each variable in the code's order. *)
Definition readConfig : error + appConfig :=
  andThen (envInt "MIN_RUNNERS" 0) (λ minWorkers,
  andThen (envInt "MAX_RUNNERS" 8) (λ maxWorkers,
  andThen (envInt "RUNNER_CPUS" 2) (λ cpus,
  andThen (envInt "RUNNER_MEMORY_MB" 8192) (λ memory,
  andThen (envInt "RUNNER_ROOTFS_GB" 30) (λ rootFS,
  andThen (envInt64 "RUNNER_HETZNER_FIREWALL_ID" 0) (λ firewall,
  andThen (envInt64 "RUNNER_HETZNER_NETWORK_ID" 0) (λ network,
  andThen (envDuration "RUNNER_MAX_LIFETIME" (2 * Hour)) (λ lifetime,
  andThen (envDuration "RUNNER_USAGE_BUDGET" (10000 * Minute)) (λ budget,
  andThen (envDuration "RUNNER_BUDGET_WINDOW" (30 * 24 * Hour)) (λ window,
  andThen (envInt "PROVIDER_RETRY_ATTEMPTS" DefaultAttempts) (λ retries,
  andThen (envFloat "PROVIDER_RATE_LIMIT" (Finite DefaultRate)) (λ providerRate,
  andThen (envFloat "GITHUB_API_RATE_LIMIT" (Finite defaultGitHubAPIRate)) (λ apiRate,
  andThen (envInt "RUNNER_LAUNCH_CONCURRENCY" 8) (λ launches,
  andThen (envDuration "RUNNER_IDLE_TIMEOUT" (10 * Minute)) (λ idle,
  andThen (envDuration "RUNNER_DANGLING_TIMEOUT" (25 * Minute)) (λ dangling,
  let budgetFile := trimmed "RUNNER_BUDGET_FILE" in
  let statusFile := trimmed "RUNNER_STATUS_FILE" in
  let statusFile := if String.eqb statusFile "" && negb (String.eqb budgetFile "")
                    then JoinPath (Dir budgetFile) "status.json" else statusFile in
  let poolsPath := trimmed poolsFileEnv in
  andThen loadAppAuth (λ auth,
  andThen (if String.eqb poolsPath "" then inr None
           else andThen (loadPoolsFile poolsPath) (λ f, inr (Some f))) (λ pools,
  inr (mkAppConfig (trimmed "GITHUB_CONFIG_URL") (envOr "SCALE_SET_NAME" "runneryard-linux-x64")
    (envOr "RUNNER_GROUP" defaultRunnerGroup) auth (trimmed "GITHUB_TOKEN") (envOr "COMPUTE_PROVIDER" "fly")
    (envOr "CONTROLLER_ID" (envOr "SCALE_SET_NAME" "runneryard-linux-x64")) (trimmed "FLY_APP_NAME")
    (trimmed "FLY_API_TOKEN") (envOr "FLY_API_BASE_URL" "https://api.machines.dev") (trimmed "RUNNER_FLY_APP")
    (envOr "RUNNER_FLY_REGION" (se_Getenv "FLY_REGION")) (trimmed poolFlyTokenEnv) (trimmed "HCLOUD_TOKEN")
    (envOr "HCLOUD_API_BASE_URL" "https://api.hetzner.cloud/v1") (envOr "RUNNER_HETZNER_LOCATION" "fsn1")
    (envOr "RUNNER_HETZNER_SERVER_TYPE" "cpx32") (envOr "RUNNER_HETZNER_IMAGE" "docker-ce") firewall network
    (envOr "RUNNER_IMAGE" (se_Getenv "FLY_IMAGE_REF")) minWorkers maxWorkers cpus memory rootFS
    (trimmed "RUNNER_DOCKER_DNS") defaultCPUKind lifetime budget window budgetFile statusFile retries providerRate
    apiRate launches idle dangling (trimmed "ALERT_WEBHOOK_URL") poolsPath pools
    (trimmed "EPHEMERAL_SCALE_SET_NAME")))))))))))))))))))).
End settings.

(** * What the packages get *)

(** A rate as the limiters take it.  With NaN they compute no wait, as with zero (the
    conversions of NaN to an integer, which Go leaves to the platform, taken negative). *)
Definition finite (x : float) : f64 := match x with Finite x => x | _ => f64_zero end.

Definition twice (x : f64) : Z := f64_trunc (f64_mul x (f64_of_int 2)).

Definition retryPolicy (c : appConfig) : Policy :=
  mkPolicy (ac_ProviderRetries c) 0 0 (finite (ac_ProviderRateLimit c)) (twice (finite (ac_ProviderRateLimit c))).

(** [controllerConfig]; [direct] says whether there is a compute for the second scale
    set, which the caller adds. *)
Definition controllerConfig `{!SettingsEnv} (c : appConfig) (direct : bool) : Controller.Config :=
  Controller.mkConfig (ac_GitHubURL c) (ac_ScaleSetName c) (ac_RunnerGroup c) (ac_ControllerID c) (ac_MinWorkers c)
    (ac_MaxWorkers c) (ac_RunnerMaxLifetime c) (ac_RunnerUsageBudget c) (ac_RunnerBudgetWindow c)
    (ac_RunnerBudgetFile c) "" (ac_RunnerStatusFile c) (ac_ComputeProvider c) se_Version se_CommitSHA
    (finite (ac_GitHubAPIRateLimit c)) (twice (finite (ac_GitHubAPIRateLimit c))) (ac_LaunchConcurrency c)
    (ac_RunnerIdleTimeout c) (ac_DanglingTimeout c) (ac_AlertWebhookURL c) (ac_EphemeralScaleSetName c) direct.

(** [poolFlyToken] *)
Definition poolFlyToken (c : appConfig) : string :=
  if String.eqb (ac_PoolFlyAPIToken c) "" then ac_FlyAPIToken c else ac_PoolFlyAPIToken c.

(** * The pools file *)

#[local] Open Scope string_scope.
#[local] Open Scope Z_scope.

Definition ephemeralTier : string := "ephemeral".
Definition maximumPoolSlots : Z := 64.
Definition maximumPoolHosts : Z := 100.
Definition defaultPoolDiskGB : Z := 20.
Definition poolTrustPrivate : string := "private".
Definition poolSourceHetzner : string := "hetzner".
Definition poolSourceStatic : string := "static".
Definition poolSourceFly : string := "fly".
Definition defaultFlyVolumeGB : Z := 50.
Definition defaultFlyIdleStop : duration := 5 * Minute.
Definition defaultKeepStopped : Z := 1.
Definition defaultDeleteAfter : duration := 6 * Hour.
Definition defaultHetznerImage : string := "docker-ce".
Definition flyRegistry : string := "registry.fly.io".
Definition flyHostReservedMB : Z := 1024.

(** [hostagent.DefaultCaches] *)
Definition DefaultCaches : list string := ["/home/runner/.cache"; "/home/runner/.npm"; "/home/runner/go"].

(** * One pool *)

Definition flyFields (p : poolConfig) : bool :=
  negb (String.eqb (pc_FlyApp p) "" && String.eqb (pc_Region p) "" && String.eqb (pc_CPUKind p) ""
        && (pc_CPUs p =? 0) && (pc_MemoryMB p =? 0) && (pc_VolumeGB p =? 0) && (pc_IdleStopAfter p =? 0)
        && bool_decide (pc_KeepStopped p = None) && (pc_DeleteStoppedAfter p =? 0)).

Definition staticFields (p : poolConfig) : bool :=
  negb (String.eqb (pc_Billing p) "" && String.eqb (pc_Currency p) "" && bool_decide (length (pc_Hosts p) = 0%nat)).

(** The defaults every pool gets. *)
Definition withImage (image : string) (p : poolConfig) : poolConfig :=
  mkPoolConfig (pc_Name p) (pc_Source p) (if String.eqb (pc_RunnerImage p) "" then image else pc_RunnerImage p)
    (pc_Slots p) (pc_MinHosts p) (pc_MaxHosts p) (pc_HourlyPrice p) (pc_SlotCPUs p) (pc_SlotMemoryMB p)
    (Some (default defaultPoolDiskGB (pc_MinFreeDiskGB p)))
    (match pc_Caches p with [] => DefaultCaches | _ => pc_Caches p end) (pc_Speculative p)
    (pc_ServerType p) (pc_Location p) (pc_ServerImage p) (pc_FirewallID p) (pc_NetworkID p)
    (pc_Billing p) (pc_Currency p) (pc_Hosts p) (pc_FlyApp p) (pc_Region p) (pc_CPUKind p) (pc_CPUs p)
    (pc_MemoryMB p) (pc_VolumeGB p) (pc_IdleStopAfter p) (pc_KeepStopped p) (pc_DeleteStoppedAfter p).

(** [*p.MinFreeDiskGB], set by [withImage]. *)
Definition minFreeDiskGB (p : poolConfig) : Z := default 0 (pc_MinFreeDiskGB p).

Definition withHetznerDefaults (cfg : appConfig) (p : poolConfig) : poolConfig :=
  mkPoolConfig (pc_Name p) (pc_Source p) (pc_RunnerImage p)
    (pc_Slots p) (pc_MinHosts p) (pc_MaxHosts p) (pc_HourlyPrice p) (pc_SlotCPUs p) (pc_SlotMemoryMB p)
    (pc_MinFreeDiskGB p) (pc_Caches p) (pc_Speculative p)
    (pc_ServerType p) (if String.eqb (pc_Location p) "" then ac_HetznerLocation cfg else pc_Location p)
    (if String.eqb (pc_ServerImage p) "" then defaultHetznerImage else pc_ServerImage p)
    (pc_FirewallID p) (pc_NetworkID p)
    (pc_Billing p) (pc_Currency p) (pc_Hosts p) (pc_FlyApp p) (pc_Region p) (pc_CPUKind p) (pc_CPUs p)
    (pc_MemoryMB p) (pc_VolumeGB p) (pc_IdleStopAfter p) (pc_KeepStopped p) (pc_DeleteStoppedAfter p).

Definition hostBounds (p : poolConfig) : bool :=
  negb ((pc_MinHosts p <? 0) || (pc_MaxHosts p <? 1) || (pc_MaxHosts p <? pc_MinHosts p)
        || (maximumPoolHosts <? pc_MaxHosts p)).
Definition slotBounds (p : poolConfig) : bool := (1 <=? pc_Slots p) && (pc_Slots p <=? maximumPoolSlots).

(** [validateHetzner] *)
Definition validateHetzner (cfg : appConfig) (p : poolConfig) : string + poolConfig :=
  if String.eqb (ac_HetznerAPIToken cfg) "" then inl "hetzner pool requires HCLOUD_TOKEN"
  else
  let p := withHetznerDefaults cfg p in
  if pc_NetworkID p <? 0 then inl "hetzner pool network_id must be a network ID or omitted"
  else if String.eqb (pc_ServerType p) "" || String.eqb (pc_Location p) "" || (pc_FirewallID p <? 1)
  then inl "hetzner pool requires server_type, location, and firewall_id"
  else if pc_FirewallID p =? ac_HetznerFirewallID cfg then inl "hetzner pool must use its own firewall"
  else if negb (slotBounds p) then inl "hetzner pool slots must be between 1 and 64"
  else if negb (hostBounds p) then inl "hetzner pool hosts out of bounds"
  else if staticFields p then inl "billing, currency, and hosts only apply to static pools"
  else if flyFields p then inl "the stop settings only apply to Fly pools"
  else inr p.

(** The defaults of a Fly pool, but for the memory of a slot. *)
Definition withFlyDefaults (cfg : appConfig) (p : poolConfig) : poolConfig :=
  mkPoolConfig (pc_Name p) (pc_Source p) (pc_RunnerImage p)
    (pc_Slots p) (pc_MinHosts p) (pc_MaxHosts p) (pc_HourlyPrice p) (pc_SlotCPUs p) (pc_SlotMemoryMB p)
    (pc_MinFreeDiskGB p) (pc_Caches p) (pc_Speculative p)
    (pc_ServerType p) (pc_Location p) (pc_ServerImage p) (pc_FirewallID p) (pc_NetworkID p)
    (pc_Billing p) (pc_Currency p) (pc_Hosts p) (pc_FlyApp p)
    (if String.eqb (pc_Region p) "" then ac_FlyRegion cfg else pc_Region p)
    (if String.eqb (pc_CPUKind p) "" then "performance" else pc_CPUKind p) (pc_CPUs p)
    (pc_MemoryMB p) (if pc_VolumeGB p =? 0 then defaultFlyVolumeGB else pc_VolumeGB p)
    (if pc_IdleStopAfter p =? 0 then defaultFlyIdleStop else pc_IdleStopAfter p)
    (Some (default (Z.min defaultKeepStopped (pc_MaxHosts p)) (pc_KeepStopped p)))
    (if pc_DeleteStoppedAfter p =? 0 then defaultDeleteAfter else pc_DeleteStoppedAfter p).

Definition withSlotMemory (memory : Z) (p : poolConfig) : poolConfig :=
  mkPoolConfig (pc_Name p) (pc_Source p) (pc_RunnerImage p)
    (pc_Slots p) (pc_MinHosts p) (pc_MaxHosts p) (pc_HourlyPrice p) (pc_SlotCPUs p) memory
    (pc_MinFreeDiskGB p) (pc_Caches p) (pc_Speculative p)
    (pc_ServerType p) (pc_Location p) (pc_ServerImage p) (pc_FirewallID p) (pc_NetworkID p)
    (pc_Billing p) (pc_Currency p) (pc_Hosts p) (pc_FlyApp p) (pc_Region p) (pc_CPUKind p) (pc_CPUs p)
    (pc_MemoryMB p) (pc_VolumeGB p) (pc_IdleStopAfter p) (pc_KeepStopped p) (pc_DeleteStoppedAfter p).

(** The memory of a slot: the one set, or an equal share of what the host keeps free. *)
Definition slotMemory (p : poolConfig) : Z :=
  if pc_SlotMemoryMB p =? 0 then Z.quot (Z.max 0 (wrap64 (pc_MemoryMB p - flyHostReservedMB))) (pc_Slots p)
  else pc_SlotMemoryMB p.

Definition slotsFit (p : poolConfig) : bool :=
  negb ((pc_SlotMemoryMB p <? MinimumSlotMemoryMB)
        || (pc_MemoryMB p <? wrap64 (wrap64 (pc_Slots p * pc_SlotMemoryMB p) + flyHostReservedMB))).

(** [*p.KeepStopped], set by [withFlyDefaults]. *)
Definition keepStopped (p : poolConfig) : Z := default 0 (pc_KeepStopped p).

Definition flyRegistryCredentials (token host : string) : option (string * string) :=
  if negb (String.eqb host flyRegistry) || String.eqb token "" then None else Some ("x", token).

(** [follower]: what follows the tag of a Fly pool's image, if it has one. *)
Definition follower (cfg : appConfig) (p : poolConfig) : error + option Tag :=
  if negb (String.eqb (pc_Source p) poolSourceFly) then inr None
  else match Parse (pc_RunnerImage p) with
  | inl err => inl (WrapError "fly pool runner_image" err)
  | inr ref =>
    if Pinned ref then inr None
    else match NewTag (pc_RunnerImage p) (Some (Registry.mkClient (Some (flyRegistryCredentials (poolFlyToken cfg))))) with
    | inl err => inl (WrapError "fly pool runner_image" err)
    | inr tag => inr (Some tag)
    end
  end.

(** [flySourceConfig], with the controller's key. *)
Definition flySourceConfig (cfg : appConfig) (p : poolConfig) (authorizedKey : string) : FlyHosts.HostSourceConfig :=
  FlyHosts.mkHostSourceConfig (poolFlyToken cfg) (ac_FlyAPIBaseURL cfg) (pc_FlyApp p) (pc_Region p)
    (pc_CPUKind p) (pc_CPUs p) (pc_MemoryMB p) (pc_VolumeGB p) (ac_ControllerID cfg) (pc_Name p)
    (pc_HourlyPrice p) (pc_RunnerImage p) (pc_Slots p) (pc_SlotCPUs p) (pc_SlotMemoryMB p) (pc_Caches p)
    (minFreeDiskGB p) (ac_RunnerDockerDNS cfg) true authorizedKey (retryPolicy cfg) 0 0.

Definition hetznerSourceConfig (cfg : appConfig) (p : poolConfig) (authorizedKey : string)
    : HetznerHosts.HostSourceConfig :=
  HetznerHosts.mkHostSourceConfig (ac_HetznerAPIToken cfg) (ac_HetznerAPIBaseURL cfg) (pc_Location p)
    (pc_ServerType p) (pc_ServerImage p) (ac_ControllerID cfg) (pc_Name p) (pc_FirewallID p) (pc_NetworkID p)
    (pc_HourlyPrice p) (pc_RunnerImage p) (pc_Slots p) (pc_SlotCPUs p) (pc_SlotMemoryMB p) (pc_Caches p)
    (minFreeDiskGB p) true authorizedKey 0 0 (retryPolicy cfg).

Section build.
Context `{!SettingsEnv, !DefaultRunnerGroup, !ParseIP, !SSHKeys, !HostKeys}.

(** [validateFly] *)
Definition validateFly (cfg : appConfig) (p : poolConfig) : string + poolConfig :=
  if String.eqb (poolFlyToken cfg) "" then inl "fly pool requires RUNNER_POOL_FLY_API_TOKEN or FLY_API_TOKEN"
  else if String.eqb (pc_FlyApp p) "" then inl "fly pool requires fly_app"
  else if String.eqb (pc_FlyApp p) (ac_FlyWorkerApp cfg) || String.eqb (pc_FlyApp p) (ac_ControllerFlyApp cfg)
  then inl "fly pool must use its own fly_app, not the worker or controller app"
  else
  let p := withFlyDefaults cfg p in
  if String.eqb (pc_Region p) "" || (pc_CPUs p <? 1) || (pc_MemoryMB p <? 1)
  then inl "fly pool requires region (or RUNNER_FLY_REGION), cpus, and memory_mb"
  else if negb (slotBounds p) then inl "fly pool slots must be between 1 and 64"
  else
  let p := withSlotMemory (slotMemory p) p in
  if negb (slotsFit p) then inl "fly pool slots and the host do not fit in memory_mb"
  else if negb (hostBounds p) then inl "fly pool hosts out of bounds"
  else if (pc_IdleStopAfter p <? Minute) || (pc_DeleteStoppedAfter p <? Minute)
  then inl "idle_stop_after and delete_stopped_after must be at least one minute"
  else if (keepStopped p <? 0) || (pc_MaxHosts p <? keepStopped p)
  then inl "keep_stopped must be between 0 and max_hosts"
  else if negb (String.eqb (pc_ServerType p) "" && String.eqb (pc_Location p) "" && String.eqb (pc_ServerImage p) ""
                && (pc_FirewallID p =? 0) && (pc_NetworkID p =? 0))
  then inl "server_type, location, server_image, firewall_id, and network_id only apply to Hetzner pools"
  else if staticFields p then inl "billing, currency, and hosts only apply to static pools"
  else match follower cfg p with
  | inl _ => inl "fly pool runner_image"
  | inr _ =>
    match FlyHosts.NewHostSource (flySourceConfig cfg p "read at startup") with
    | inl err => inl err
    | inr _ => inr p
    end
  end.

Definition validateStatic (p : poolConfig) : string + poolConfig :=
  if flyFields p then inl "the stop settings only apply to Fly pools"
  else match pc_Hosts p with
  | [] => inl "static pool lists no hosts"
  | _ =>
    if negb (pc_MinHosts p =? 0) || negb (pc_MaxHosts p =? 0)
    then inl "static pool cannot create hosts; remove min_hosts and max_hosts"
    else if negb (pc_Slots p =? 0) then inl "each host states its slots in its own host install"
    else match NewStaticSource (pc_Billing p) (pc_HourlyPrice p) (pc_Currency p) (pc_Hosts p) with
    | inl err => inl err
    | inr _ => inr p
    end
  end.

(** One turn of the loop over the pools. *)
Definition validatePool (cfg : appConfig) (names : list string) (p : poolConfig) : string + poolConfig :=
  if negb (ValidName (pc_Name p)) || String.eqb (pc_Name p) ephemeralTier
  then inl "pool name must be lowercase letters, digits, and hyphens, and not ephemeral"
  else if bool_decide (pc_Name p ∈ names) then inl "pool is declared twice"
  else
  let p := withImage (ac_RunnerImage cfg) p in
  if String.eqb (pc_RunnerImage p) "" then inl "pool requires runner_image or RUNNER_IMAGE"
  else match HostAgent.Validate (mkHostConfig (Z.max (pc_Slots p) 1) (pc_RunnerImage p) (pc_SlotCPUs p)
                         (pc_SlotMemoryMB p) (pc_Caches p) (minFreeDiskGB p) "") with
  | Some err => inl err
  | None =>
    if String.eqb (pc_Source p) poolSourceHetzner then validateHetzner cfg p
    else if String.eqb (pc_Source p) poolSourceFly then validateFly cfg p
    else if String.eqb (pc_Source p) poolSourceStatic then validateStatic p
    else inl "pool source must be fly, hetzner, or static"
  end.

Fixpoint validatePools (cfg : appConfig) (names : list string) (pools : list poolConfig) : string + list poolConfig :=
  match pools with
  | [] => inr []
  | p :: pools =>
    match validatePool cfg names p with
    | inl err => inl err
    | inr p =>
      match validatePools cfg (pc_Name p :: names) pools with inl err => inl err | inr ps => inr (p :: ps) end
    end
  end.

(** The loop over the placement. *)
Fixpoint validatePlacement (ephemeral : bool) (names seen placement : list string) : option string :=
  match placement with
  | [] => None
  | name :: placement =>
    if bool_decide (name ∈ seen) then Some "placement lists a tier twice"
    else if String.eqb name ephemeralTier then
      if negb ephemeral then Some "placement lists ephemeral but COMPUTE_PROVIDER is none"
      else validatePlacement ephemeral names (name :: seen) placement
    else if bool_decide (name ∈ names) then validatePlacement ephemeral names (name :: seen) placement
    else Some "placement lists a name that is not a declared pool"
  end.

(** [poolsFile.validate]: the file with its defaults. *)
Definition validatePoolsFile (cfg : appConfig) (f : poolsFile) : string + poolsFile :=
  if negb (String.eqb (pf_Trust f) poolTrustPrivate) then inl "the pools file must declare trust: private"
  else if bool_decide (length (pf_Pools f) = 0%nat) then inl "the pools file declares no pools"
  else if String.eqb (TrimSpace (pf_SSHKeyFile f)) "" then inl "the pools file requires ssh_key_file"
  else match validatePools cfg [] (pf_Pools f) with
  | inl err => inl err
  | inr pools =>
    let ephemeral := negb (String.eqb (ac_ComputeProvider cfg) computeProviderNone) in
    let placement := match pf_Placement f with
      | [] => app (map pc_Name pools) (if ephemeral then [ephemeralTier] else [])
      | given => given
      end in
    match validatePlacement ephemeral (map pc_Name pools) [] placement with
    | Some err => inl err
    | None => inr (mkPoolsFile (pf_Trust f) (pf_SSHKeyFile f) placement pools)
    end
  end.
End build.
