(* ===== verification/GitHubApp.v ===== *)
(** The GitHub App of a fleet (src/githubapp/githubapp.go and trust.go): the client that
    identifies, installs and verifies an App, the loopback page of its setup, and the
    check that a fleet serves private code only.

    The network, RSA keys and signatures, random names, the clock, the operator's
    browser and the credential sink are the class [AppWorld]; what is decoded of GitHub's
    answers is the class [AppJSON].  The text shown to the operator is left out. *)

From S2P Require Import Prelude Program Provider GoStrings GoText GoPatterns.

#[local] Open Scope string_scope.
#[local] Open Scope Z_scope.

Definition defaultAPIURL : string := "https://api.github.com".

(** * Names *)

(** Between [lo] and [lo + more] bytes of a class, as the patterns write it. *)
Definition safeOwner : regexp := RCat (RClass alnum) (upTo 38 (RClass (λ c, alnum c || Ascii.eqb c "-"))).
Definition safeRepo : regexp := repeat_ 1 99 (RClass (λ c, alnum c || oneOf "._-" c)).
Definition safeID : regexp := repeat_ 1 127 (RClass (λ c, alnum c || oneOf "_.-" c)).
Definition lowerDigit (c : ascii) : bool := lower_byte c || digit_byte c.
Definition safeSlug : regexp := RCat (RClass lowerDigit) (upTo 99 (RClass (λ c, lowerDigit c || Ascii.eqb c "-"))).
Definition safePermission : regexp :=
  RCat (RClass lower_byte) (repeat_ 1 62 (RClass (λ c, lower_byte c || Ascii.eqb c "_"))).

(** [permissionLevels] of a level, zero for one that is not there. *)
Definition permissionLevel (level : string) : Z :=
  if String.eqb level "read" then 1 else if String.eqb level "write" then 2 else if String.eqb level "admin" then 3 else 0.

Definition grants (have want : string) : bool :=
  (permissionLevel want <=? permissionLevel have) && (0 <? permissionLevel want).

(** * Targets, credentials and profiles *)

Definition OwnerUser : string := "user".
Definition OwnerOrganization : string := "organization".

Record Target := mkTarget { tg_ConfigURL : string; tg_Owner : string; tg_Repository : string; tg_OwnerKind : string }.

Definition validateTarget (t : Target) : option error :=
  if String.eqb (tg_ConfigURL t) "" || String.eqb (tg_Owner t) ""
  then Some (ErrorString "GitHub target URL and owner are required")
  else if negb (MatchString safeOwner (tg_Owner t))
          || negb (String.eqb (tg_Repository t) "") && negb (MatchString safeRepo (tg_Repository t))
  then Some (ErrorString "GitHub target contains an invalid owner or repository name")
  else
  let expectedURL := "https://github.com/" +:+ tg_Owner t
                     +:+ (if String.eqb (tg_Repository t) "" then "" else "/" +:+ tg_Repository t) in
  if negb (String.eqb (tg_ConfigURL t) expectedURL)
  then Some (ErrorString "GitHub target URL must be canonical and match its owner and repository")
  else if negb (String.eqb (tg_OwnerKind t) OwnerUser) && negb (String.eqb (tg_OwnerKind t) OwnerOrganization)
  then Some (ErrorString "GitHub owner kind must be user or organization")
  else if String.eqb (tg_Repository t) "" && negb (String.eqb (tg_OwnerKind t) OwnerOrganization)
  then Some (ErrorString "organization runner scale sets require an organization owner")
  else None.

Record Credentials := mkCredentials {
  cr_AppID : Z; cr_ClientID : string; cr_InstallationID : Z; cr_PrivateKey : string; cr_Slug : string; cr_HTMLURL : string
}.

Definition withInstallation (id : Z) (c : Credentials) : Credentials :=
  mkCredentials (cr_AppID c) (cr_ClientID c) id (cr_PrivateKey c) (cr_Slug c) (cr_HTMLURL c).

Record Profile := mkProfile {
  pr_Name : string; pr_Qualifiers : list string; pr_Description : string; pr_Permissions : gmap string string
}.

Definition requiredPermission (t : Target) : string :=
  if negb (String.eqb (tg_Repository t) "") then "administration" else "organization_self_hosted_runners".

Definition RunnerProfile (t : Target) : Profile :=
  mkProfile "RunnerYard" (tg_Owner t :: (if String.eqb (tg_Repository t) "" then [] else [tg_Repository t]))
    "Dedicated credentials for one self-hosted RunnerYard fleet." {[requiredPermission t := "write"]}.

Definition maxAppNameLength : nat := 34.
Definition nameSuffixBytes : nat := 4.
Definition minQualifierLength : nat := 4.

Definition validateProfile (p : Profile) : option error :=
  if String.eqb (pr_Name p) "" || bool_decide (pr_Permissions p = ∅)
  then Some (ErrorString "GitHub App profile needs a name and permissions")
  else if (maxAppNameLength <? String.length (pr_Name p) + 1 + 2 * nameSuffixBytes)%nat
  then Some (ErrorString "GitHub App profile name leaves no room for the random suffix")
  else if negb (forallb (λ '(name, level), MatchString safePermission name && negb (permissionLevel level =? 0))
                  (map_to_list (pr_Permissions p)))
  then Some (ErrorString "GitHub App profile has an invalid permission")
  else None.

(** ** The name of a new App *)

(** [strings.TrimRight(s, cutset)] *)
Fixpoint TrimRight (cutset s : string) : string :=
  match s with
  | "" => ""
  | String c s =>
    let rest := TrimRight cutset s in
    if String.eqb rest "" && containsByte c cutset then "" else String c rest
  end.

(** The loop over the qualifiers, with the room the name may take. *)
Fixpoint addQualifiers (budget : nat) (name : string) (qualifiers : list string) : string :=
  match qualifiers with
  | [] => name
  | q :: qs =>
    let room := (budget - String.length name - 1)%nat in
    if (Z.of_nat budget - Z.of_nat (String.length name) - 1 <? Z.of_nat (String.length q)) then
      let q := TrimRight "-._" (String.substring 0 room q) in
      if (minQualifierLength <=? String.length q)%nat then name +:+ " " +:+ q else name
    else addQualifiers budget (name +:+ " " +:+ q) qs
  end.

Definition appName (p : Profile) (suffix : string) : error + string :=
  let budget := Z.of_nat maxAppNameLength - 1 - Z.of_nat (String.length suffix) in
  if budget <? Z.of_nat (String.length (pr_Name p))
  then inl (ErrorString "GitHub App name leaves no room for the random suffix")
  else inr (addQualifiers (Z.to_nat budget) (pr_Name p) (pr_Qualifiers p) +:+ " " +:+ suffix).

(** The manifest of a private App without webhooks, before its encoding. *)
Record Manifest := mkManifest {
  mf_Name : string; mf_URL : string; mf_Description : string; mf_RedirectURL : string; mf_Public : bool;
  mf_OAuthOnInstall : bool; mf_HookURL : string; mf_HookActive : bool; mf_Permissions : gmap string string;
  mf_Events : list string
}.

Definition manifestJSON (p : Profile) (redirectURL homepageURL suffix : string) : error + Manifest :=
  match appName p suffix with
  | inl err => inl err
  | inr name => inr (mkManifest name homepageURL (pr_Description p) redirectURL false false
                       (homepageURL +:+ "/github/no-webhook") false (pr_Permissions p) [])
  end.

(** * The loopback page *)

Record loopback := mkLoopback { lb_state : string; lb_sent : option string }.

Record loopbackRequest := mkLoopbackRequest { lr_Method : string; lr_Path : string; lr_State : string; lr_Code : string }.

(** [ServeHTTP]: the status of the answer. *)
Definition serveLoopback (h : loopback) (r : loopbackRequest) : Z * loopback :=
  if negb (String.eqb (lr_Method r) "GET") then (405, h)
  else if String.eqb (lr_Path r) "/start" then (200, h)
  else if String.eqb (lr_Path r) "/callback" then
    if negb (String.eqb (lr_State r) (lb_state h)) then (400, h)
    else
    let code := TrimSpace (lr_Code r) in
    if (String.length code <? 20)%nat || (256 <? String.length code)%nat
       || containsByte (ascii_of_nat 13) code || containsByte (ascii_of_nat 10) code then (400, h)
    else (200, match lb_sent h with Some _ => h | None => mkLoopback (lb_state h) (Some code) end)
  else (404, h).

Definition serveAll (h : loopback) (rs : list loopbackRequest) : loopback :=
  fold_left (λ h r, (serveLoopback h r).2) rs h.

(** * The client *)

Record appRequest := mkAppRequest { rq_Method : string; rq_URL : string; rq_Authorization : string }.
(** An answer; its body up to the limit is for the decoder. *)
Record appAnswer := mkAppAnswer { an_StatusCode : Z; an_Body : string; an_ReadErr : option error }.

(** [url.URL], as far as it is read. *)
Record pageURL := mkPageURL {
  pg_Scheme : string; pg_Host : string; pg_HasUser : bool; pg_RawQuery : string; pg_Fragment : string;
  pg_EscapedPath : string
}.

Record installationRecord := mkInstallation {
  in_ID : Z; in_AppID : Z; in_Login : string; in_Permissions : gmap string string; in_Selection : string
}.

(** The page on which an owner reviews a manifest. *)
Record registration := mkRegistration { rg_Site : string; rg_Path : string; rg_State : string }.

(** What an operator's browser is sent to. *)
Inductive page := RegisterPage (startURL : string) (form : registration) (m : Manifest) | InstallPage (url : string).

Class AppWorld (W : Type) := mkAppWorld {
  aw_NewRequest : string → bool;
  aw_Do : appRequest → W → (error + appAnswer) * W;
  (** [jwt.ParseRSAPrivateKeyFromPEM] finds a key; the token that a key signs for an
      issuer between two instants. *)
  aw_ParseRSA : string → bool;
  aw_Sign : string → string → time → time → option string;
  aw_Now : W → time * W;
  aw_ParseURL : string → option pageURL;
  (** The orbits of Unicode's simple case folding: a representative of each. *)
  aw_Fold : N → N;
  aw_RandomHex : nat → W → option string * W;
  (** The listener's address, or the error of the listen. *)
  aw_Listen : W → (error + string) * W;
  aw_Open : page → W → option error * W;
  (** The requests to the loopback page while the setup waits, and why it stops waiting
      other than for a code: the page's server or the context ended first. *)
  aw_Callbacks : W → (list loopbackRequest * option error) * W;
  (** How many ticks the context leaves to a waiting loop. *)
  aw_Ticks : W → nat * W;
  (** [SecretSink.Store] *)
  aw_Store : Credentials → W → option error * W
}.

Class AppJSON := mkAppJSON {
  aj_Account : appAnswer → option string;
  aj_Conversion : appAnswer → option Credentials;
  aj_App : appAnswer → option Credentials;
  aj_Installation : appAnswer → option installationRecord;
  aj_Token : appAnswer → option string;
  aj_Repository : appAnswer → option (bool * string);
  (** The groups of a page: a name, and whether it allows public repositories. *)
  aj_Groups : appAnswer → option (list (string * option bool))
}.

Record appSys (W : Type) := mkAppSys {
  ap_world : W; ap_log : list (appRequest * (error + appAnswer)); ap_pages : list page; ap_stored : list Credentials
}.
Arguments mkAppSys {W}.
Arguments ap_world {W}.
Arguments ap_log {W}.
Arguments ap_pages {W}.
Arguments ap_stored {W}.

Section client.
Context {W : Type} `{!AppWorld W, !AppJSON} (baseURL : string).
Abbreviation P := (prog (appSys W)).

Definition appAsk {A} (f : W → A * W) : P A :=
  act (λ s, let '(x, w) := f (ap_world s) in (x, mkAppSys w (ap_log s) (ap_pages s) (ap_stored s))).

Definition appSend (r : appRequest) : P (error + appAnswer) :=
  act (λ s, let '(x, w) := aw_Do r (ap_world s) in (x, mkAppSys w ((r, x) :: ap_log s) (ap_pages s) (ap_stored s))).

Definition openPage (p : page) : P (option error) :=
  act (λ s, let '(x, w) := aw_Open p (ap_world s) in (x, mkAppSys w (ap_log s) (p :: ap_pages s) (ap_stored s))).

Definition storeCredentials (c : Credentials) : P (option error) :=
  act (λ s, let '(x, w) := aw_Store c (ap_world s) in (x, mkAppSys w (ap_log s) (ap_pages s) (c :: ap_stored s))).

(** [defaults] *)
Definition apiBase : string := TrimRightSlash (if String.eqb baseURL "" then defaultAPIURL else baseURL).

(** [githubStatusError] *)
Definition appStatus (code : Z) : error := StatusError "github" code "".
Definition appNotFound (e : error) : bool :=
  match errors_as as_status e with Some (_, code) => code =? 404 | None => false end.

(** [doJSON] of a request without a body, which are all. *)
Definition doJSON {A} (method path token : string) (expected : Z) (decode : appAnswer → option A) : P (error + A) :=
  let url := apiBase +:+ path in
  if negb (aw_NewRequest url) then mret (inl (ErrorString "create GitHub request"))
  else
  answer ← appSend (mkAppRequest method url (if String.eqb token "" then "" else "Bearer " +:+ token));
  mret match answer with
  | inl err => inl err
  | inr a =>
    if negb (an_StatusCode a =? expected) then inl (appStatus (an_StatusCode a))
    else match decode a with None => inl (ErrorString "decode GitHub response") | Some x => inr x end
  end.

Definition validateCredentials (c : Credentials) : option error :=
  if String.eqb (cr_ClientID c) "" || (cr_InstallationID c <? 1) || String.eqb (cr_PrivateKey c) ""
  then Some (ErrorString "incomplete GitHub App credentials")
  else if negb (MatchString safeID (cr_ClientID c))
  then Some (ErrorString "GitHub App client ID contains invalid characters")
  else if negb (aw_ParseRSA (cr_PrivateKey c))
  then Some (ErrorString "GitHub App private key is not a valid RSA PEM key")
  else None.

Definition ResolveOwnerKind (owner : string) : P (error + string) :=
  account ← doJSON "GET" ("/users/" +:+ PathEscape owner) "" 200 aj_Account;
  mret match account with
  | inl err => inl (WrapError "resolve GitHub owner" err)
  | inr kind =>
    if String.eqb kind "User" then inr OwnerUser
    else if String.eqb kind "Organization" then inr OwnerOrganization
    else inl (ErrorString "GitHub owner has unsupported account type")
  end.

(** [ConvertManifest] *)
Definition ConvertManifest (code : string) : P (error + Credentials) :=
  let url := apiBase +:+ "/app-manifests/" +:+ PathEscape code +:+ "/conversions" in
  if negb (aw_NewRequest url) then mret (inl (ErrorString "create GitHub manifest exchange request"))
  else
  answer ← appSend (mkAppRequest "POST" url "");
  mret match answer with
  | inl err => inl (WrapError "exchange GitHub App manifest code" err)
  | inr a =>
    if negb (an_StatusCode a =? 201) then inl (ErrorString "exchange GitHub App manifest code: GitHub returned a status")
    else match aj_Conversion a with
    | None => inl (ErrorString "decode GitHub App manifest response")
    | Some c =>
      if (cr_AppID c <? 1) || String.eqb (cr_ClientID c) "" || String.eqb (cr_PrivateKey c) "" || String.eqb (cr_HTMLURL c) ""
      then inl (ErrorString "GitHub App manifest response was incomplete")
      else if negb (aw_ParseRSA (cr_PrivateKey c)) then inl (ErrorString "GitHub App manifest returned an invalid private key")
      else inr (withInstallation 0 c)
    end
  end.

(** [appJWT] *)
Definition appJWT (c : Credentials) : P (error + string) :=
  if negb (aw_ParseRSA (cr_PrivateKey c)) then mret (inl (ErrorString "parse GitHub App private key"))
  else
  now ← appAsk aw_Now;
  mret match aw_Sign (cr_PrivateKey c) (cr_ClientID c) (now - 30 * Second) (now + 9 * Minute) with
  | None => inl (ErrorString "sign GitHub App verification token")
  | Some token => inr token
  end.

Definition targetInstallation (token : string) (t : Target) : P (error + installationRecord) :=
  doJSON "GET" (if String.eqb (tg_Repository t) "" then "/orgs/" +:+ PathEscape (tg_Owner t) +:+ "/installation"
                else "/repos/" +:+ PathEscape (tg_Owner t) +:+ "/" +:+ PathEscape (tg_Repository t) +:+ "/installation")
    token 200 aj_Installation.

(** [Identify] *)
Definition Identify (c : Credentials) : P (error + Credentials) :=
  token ← appJWT c;
  match token with
  | inl err => mret (inl err)
  | inr token =>
    app ← doJSON "GET" "/app" token 200 aj_App;
    mret match app with
    | inl err => inl (WrapError "verify GitHub App identity" err)
    | inr app =>
      if (cr_AppID app <? 1) || negb (String.eqb (cr_ClientID app) (cr_ClientID c)
                                      || String.eqb (Itoa (cr_AppID app)) (cr_ClientID c))
      then inl (ErrorString "GitHub App identity does not match the supplied client ID")
      else if (0 <? cr_AppID c) && negb (cr_AppID c =? cr_AppID app)
      then inl (ErrorString "GitHub App identity does not match the created app")
      else inr (mkCredentials (cr_AppID app) (cr_ClientID c) (cr_InstallationID c) (cr_PrivateKey c)
                  (if String.eqb (cr_Slug c) "" then cr_Slug app else cr_Slug c)
                  (if String.eqb (cr_HTMLURL c) "" then cr_HTMLURL app else cr_HTMLURL c))
    end
  end.

(** [covers]: the first permission, by name, that an installation lacks. *)
Definition covers (i : installationRecord) (p : Profile) : option error :=
  let names := merge_sort str_le (map_to_list (pr_Permissions p)).*1 in
  match List.find (λ n, negb (grants (default "" (in_Permissions i !! n)) (default "" (pr_Permissions p !! n)))) names with
  | Some _ => Some (ErrorString "GitHub App installation lacks a required permission")
  | None => None
  end.

(** [verify] *)
Definition verify (c : Credentials) (t : Target) (p : Profile) : P (error + installationRecord) :=
  match validateCredentials c with
  | Some err => mret (inl err)
  | None =>
    app ← Identify c;
    match app with
    | inl err => mret (inl err)
    | inr app =>
      token ← appJWT c;
      match token with
      | inl err => mret (inl err)
      | inr token =>
        found ← targetInstallation token t;
        mret match found with
        | inl err => inl (WrapError "verify GitHub App installation" err)
        | inr i =>
          if negb (in_ID i =? cr_InstallationID c) || negb (in_AppID i =? cr_AppID app)
          then inl (ErrorString "GitHub App installation does not match the created app or selected target")
          else if negb (equalFold aw_Fold (in_Login i) (tg_Owner t))
          then inl (ErrorString "GitHub App installation belongs to a different account")
          else match covers i p with Some err => inl err | None => inr i end
        end
      end
    end
  end.

(** The loop of [WaitForInstallationFor], with the ticks left before the context ends. *)
Fixpoint waitInstallation (ticks : nat) (c : Credentials) (t : Target) (p : Profile) : P (error + Z) :=
  token ← appJWT c;
  match token with
  | inl err => mret (inl err)
  | inr token =>
    found ← targetInstallation token t;
    match found with
    | inr i => mret (match covers i p with Some err => inl err | None => inr (in_ID i) end)
    | inl err =>
      if negb (appNotFound err) then mret (inl (WrapError "discover GitHub App installation" err))
      else match ticks with
      | O => mret (inl (WrapError "GitHub App installation was not visible before setup ended" (Sentinel DeadlineExceeded)))
      | S ticks => waitInstallation ticks c t p
      end
    end
  end.

Definition WaitForInstallationFor (c : Credentials) (t : Target) (p : Profile) : P (error + Z) :=
  ticks ← appAsk aw_Ticks; waitInstallation ticks c t p.

(** * Setting an App up *)

(** [installationURL] *)
Definition installationURL (c : Credentials) : error + string :=
  match aw_ParseURL (cr_HTMLURL c) with
  | None => inl (ErrorString "GitHub App response contained an unsafe installation URL")
  | Some u =>
    if negb (String.eqb (pg_Scheme u) "https") || negb (String.eqb (pg_Host u) "github.com") || pg_HasUser u
       || negb (String.eqb (pg_RawQuery u) "") || negb (String.eqb (pg_Fragment u) "")
    then inl (ErrorString "GitHub App response contained an unsafe installation URL")
    else if negb (MatchString safeSlug (cr_Slug c))
            || negb (String.eqb (pg_EscapedPath u) ("/apps/" +:+ PathEscape (cr_Slug c)))
    then inl (ErrorString "GitHub App response contained a mismatched installation URL")
    else inr (TrimRightSlash (cr_HTMLURL c) +:+ "/installations/new")
  end.

(** [registrationURL] *)
Definition registrationURL (site : string) (t : Target) (state : string) : error + registration :=
  match aw_ParseURL site with
  | None => inl (ErrorString "invalid GitHub site base URL")
  | Some u =>
    if negb (String.eqb (pg_Scheme u) "https") || String.eqb (pg_Host u) ""
    then inl (ErrorString "invalid GitHub site base URL")
    else inr (mkRegistration site
                (if String.eqb (tg_OwnerKind t) OwnerOrganization
                 then "/organizations/" +:+ PathEscape (tg_Owner t) +:+ "/settings/apps/new" else "/settings/apps/new")
                state)
  end.

(** [Options], with the defaults filled in; the sink and the browser are the world's. *)
Record Options := mkOptions {
  op_Target : Target; op_Profile : option Profile; op_HasSink : bool; op_HasBrowser : bool; op_NoBrowser : bool;
  op_Timeout : duration; op_SiteBaseURL : string; op_HomepageURL : string
}.

Definition filledOptions (o : Options) : Options :=
  mkOptions (op_Target o) (op_Profile o) (op_HasSink o) (op_HasBrowser o) (op_NoBrowser o)
    (if op_Timeout o <=? 0 then 10 * Minute else op_Timeout o)
    (if String.eqb (op_SiteBaseURL o) "" then "https://github.com" else op_SiteBaseURL o)
    (if String.eqb (op_HomepageURL o) "" then "https://runneryard.com" else op_HomepageURL o).

(** [prepare] *)
Definition prepare (o : Options) : error + Options * Profile :=
  match validateTarget (op_Target o) with
  | Some err => inl err
  | None =>
    let p := default (RunnerProfile (op_Target o)) (op_Profile o) in
    match validateProfile p with
    | Some err => inl err
    | None =>
      if negb (op_HasSink o) then inl (ErrorString "credential sink is required")
      else if negb (op_HasBrowser o) && negb (op_NoBrowser o)
      then inl (ErrorString "browser opener is required unless --no-browser is used")
      else let o := filledOptions o in
           if Hour <? op_Timeout o then inl (ErrorString "GitHub App setup timeout cannot exceed one hour")
           else inr (o, p)
    end
  end.

(** [exposeAndOpen]: without a browser the page is only shown. *)
Definition exposeAndOpen (noBrowser : bool) (p : page) : P (option error) :=
  if noBrowser then mret None else openPage p.

(** [Result] *)
Record Result := mkResult {
  rs_AppURL : string; rs_Slug : string; rs_InstallationID : Z; rs_AllRepositories : bool
}.

(** [installAndStore] after the installation page. *)
Definition storeInstalled (o : Options) (p : Profile) (c : Credentials) : P (error + Result) :=
  installed ← WaitForInstallationFor c (op_Target o) p;
  match installed with
  | inl err => mret (inl err)
  | inr id =>
    let c := withInstallation id c in
    verified ← verify c (op_Target o) p;
    match verified with
    | inl err => mret (inl err)
    | inr i =>
      failed ← storeCredentials c;
      mret match failed : option error with
      | Some err => inl (WrapError "store verified GitHub App credentials" err)
      | None => inr (mkResult (cr_HTMLURL c) (cr_Slug c) (cr_InstallationID c) (String.eqb (in_Selection i) "all"))
      end
    end
  end.

Definition installAndStore (o : Options) (p : Profile) (c : Credentials) (open : bool) : P (error + Result) :=
  if open then
    match installationURL c with
    | inl err => mret (inl err)
    | inr url =>
      failed ← exposeAndOpen (op_NoBrowser o) (InstallPage url);
      match failed : option error with
      | Some err => mret (inl (WrapError "open installation page" err))
      | None => storeInstalled o p c
      end
    end
  else storeInstalled o p c.

(** [Reuse] *)
Definition Reuse (o : Options) (c : Credentials) : P (error + Result) :=
  match prepare o with
  | inl err => mret (inl err)
  | inr (o, p) =>
    identified ← Identify c;
    match identified with
    | inl err => mret (inl err)
    | inr c =>
      token ← appJWT c;
      match token with
      | inl err => mret (inl err)
      | inr token =>
        found ← targetInstallation token (op_Target o);
        match found with
        | inr _ => installAndStore o p c false
        | inl err =>
          if appNotFound err then installAndStore o p c true
          else mret (inl (WrapError "look up the installation" err))
        end
      end
    end
  end.

(** [waitValue] on the page's codes. *)
Definition waitCode (state : string) : P (error + string) :=
  waited ← appAsk aw_Callbacks;
  mret match waited.2, lb_sent (serveAll (mkLoopback state None) waited.1) with
  | None, Some code => inr code
  | Some err, _ => inl (WrapError "GitHub App creation" err)
  | None, None => inl (WrapError "GitHub App creation timed out or was canceled" (Sentinel DeadlineExceeded))
  end.

(** [Bootstrap] from the page on: the code, the conversion, the installation. *)
Definition createdApp (o : Options) (p : Profile) (state : string) : P (error + Result) :=
  code ← waitCode state;
  match code with
  | inl err => mret (inl err)
  | inr code =>
    converted ← ConvertManifest code;
    match converted with
    | inl err => mret (inl err)
    | inr c => installAndStore o p c true
    end
  end.

(** [Bootstrap] *)
Definition Bootstrap (o : Options) : P (error + Result) :=
  match prepare o with
  | inl err => mret (inl err)
  | inr (o, p) =>
    listener ← appAsk aw_Listen;
    match listener with
    | inl err => mret (inl (WrapError "start secure loopback callback" err))
    | inr address =>
      state ← appAsk (aw_RandomHex 32);
      match state with
      | None => mret (inl (ErrorString "generate setup state"))
      | Some state =>
        suffix ← appAsk (aw_RandomHex nameSuffixBytes);
        match suffix with
        | None => mret (inl (ErrorString "generate app name"))
        | Some suffix =>
          let base := "http://" +:+ address in
          match manifestJSON p (base +:+ "/callback") (op_HomepageURL o) suffix with
          | inl err => mret (inl err)
          | inr m =>
            match registrationURL (op_SiteBaseURL o) (op_Target o) state with
            | inl err => mret (inl err)
            | inr form =>
              failed ← exposeAndOpen (op_NoBrowser o) (RegisterPage (base +:+ "/start") form m);
              match failed : option error with
              | Some err => mret (inl (WrapError "open browser" err))
              | None => createdApp o p state
              end
            end
          end
        end
      end
    end
  end.

(** * Trust *)

(** [InstallationToken] *)
Definition InstallationToken (c : Credentials) : P (error + string) :=
  match validateCredentials c with
  | Some err => mret (inl err)
  | None =>
    token ← appJWT c;
    match token with
    | inl err => mret (inl err)
    | inr token =>
      issued ← doJSON "POST" ("/app/installations/" +:+ Itoa (cr_InstallationID c) +:+ "/access_tokens") token 201 aj_Token;
      mret match issued with
      | inl err => inl (WrapError "create GitHub App installation token" err)
      | inr issued =>
        if String.eqb issued "" then inl (ErrorString "GitHub returned an empty installation token") else inr issued
      end
    end
  end.

Definition publicTarget (msg : string) : option error := Some (WrapError msg (Sentinel ErrPublicTarget)).

(** The loop over the pages of an organization's runner groups. *)
Fixpoint checkGroups (pages : nat) (page : Z) (token owner group : string) : P (option error) :=
  match pages with
  | O => mret (Some (ErrorString "runner group was not found"))
  | S pages =>
    groups ← doJSON "GET" ("/orgs/" +:+ PathEscape owner +:+ "/actions/runner-groups?per_page=100&page=" +:+ Itoa page)
               token 200 aj_Groups;
    match groups with
    | inl err => mret (Some (WrapError "read runner groups" err))
    | inr groups =>
      match List.find (λ g, equalFold aw_Fold g.1 group) groups with
      | Some (_, Some false) => mret None
      | Some _ => mret (publicTarget "runner group allows public repositories")
      | None =>
        if (length groups <? 100)%nat then mret (Some (ErrorString "runner group was not found"))
        else checkGroups pages (page + 1) token owner group
      end
    end
  end.

(** [CheckPrivateTarget] *)
Definition CheckPrivateTarget (token : string) (t : Target) (group : string) : P (option error) :=
  if String.eqb token "" then mret (Some (ErrorString "checking that the GitHub target is private requires a token"))
  else if String.eqb (tg_Owner t) "" || negb (MatchString safeOwner (tg_Owner t))
          || negb (String.eqb (tg_Repository t) "") && negb (MatchString safeRepo (tg_Repository t))
  then mret (Some (ErrorString "GitHub target contains an invalid owner or repository name"))
  else if negb (String.eqb (tg_Repository t) "") then
    repository ← doJSON "GET" ("/repos/" +:+ PathEscape (tg_Owner t) +:+ "/" +:+ PathEscape (tg_Repository t)) token 200
                   aj_Repository;
    mret match repository with
    | inl err => Some (WrapError "read visibility" err)
    | inr (private, visibility) =>
      if negb private || negb (String.eqb visibility "private") && negb (String.eqb visibility "internal")
      then publicTarget "pool hosts only serve private repositories" else None
    end
  else checkGroups 10 1 token (tg_Owner t) (if String.eqb group "" then "Default" else group).
End client.
