(* ===== verification/GitHubAppTheorems.v ===== *)
(** What the setup of an App and the trust check establish: the sink gets credentials
    only after GitHub has shown that they belong to the App, installed on the target with
    the permissions it needs; and a target counts as private only when GitHub says so. *)

From S2P Require Import Prelude Program Provider GoStrings GoText GoPatterns GitHubApp.

#[local] Open Scope string_scope.
#[local] Open Scope Z_scope.

Section proofs.
Context {W : Type} `{!AppWorld W, !AppJSON} (baseURL : string).
Abbreviation P := (prog (appSys W)).
Abbreviation log := (list (appRequest * (error + appAnswer))).

(** * The log *)

(** GitHub answered a request with a document. *)
Definition answered {A} (l : log) (r : appRequest) (expected : Z) (decode : appAnswer → option A) (x : A) : Prop :=
  ∃ a, (r, inr a) ∈ l ∧ an_StatusCode a = expected ∧ decode a = Some x.

Definition apiRequest (method path token : string) : appRequest :=
  mkAppRequest method (apiBase baseURL +:+ path) (if String.eqb token "" then "" else "Bearer " +:+ token).

(** The tokens that requests may carry. *)
Context (allowed : string → Prop).

Definition carries (r : appRequest) : Prop :=
  rq_Authorization r = "" ∨ ∃ token, rq_Authorization r = "Bearer " +:+ token ∧ allowed token.

(** Nothing is stored, and the requests made carry allowed tokens. *)
Definition quietly (s s' : appSys W) : Prop :=
  ap_stored s' = ap_stored s ∧ ∃ new, ap_log s' = (new ++ ap_log s)%list ∧ Forall (λ x, carries x.1) new.

#[global] Instance quietly_preorder : PreOrder quietly.
Proof.
  split.
  - intros s. split; [done |]. exists []. split; [done | exact (List.Forall_nil _)].
  - intros a b c [H1 (n1 & L1 & F1)] [H2 (n2 & L2 & F2)]. split; [by rewrite H2 |].
    exists (n2 ++ n1)%list. split; [by rewrite L2, L1, app_assoc | by apply Forall_app].
Qed.

(** What a program on its own ends in. *)
Abbreviation run p Q s := (wp eq quietly (λ _, True) p Q s).

Lemma answered_later {A} s s' r e (d : appAnswer → option A) x :
  quietly s s' → answered (ap_log s) r e d x → answered (ap_log s') r e d x.
Proof. intros [_ (new & -> & _)] (a & Ha & He & Hd). exists a. split_and!; [apply elem_of_app; by right | done..]. Qed.

Lemma app_ret {A} (a : A) Q s : Q a s → run (mret a) Q s.
Proof. done. Qed.

Lemma app_bind {A B} (p : P A) (k : A → P B) Q s : run p (λ a s', quietly s s' → run (k a) Q s') s → run (p ≫= k) Q s.
Proof.
  intros Hrun. apply wp_bind.
  assert (Hq : ∀ s0, quietly s0 s → run p (λ a s', quietly s0 s' → run (k a) Q s') s → run p (λ a s', run (k a) Q s') s).
  { clear Hrun. revert s. induction p as [a|X op kp IH]; simpl; intros s s0 Hs0 Hr; [by apply Hr |].
    intros s1 <- _ x s2 E. destruct (Hr s eq_refl Logic.I x s2 E) as (HG & _ & Hk). split_and!; [done | done |].
    apply (IH x s2 s0); [by etrans | done]. }
  by apply (Hq s).
Qed.

Lemma run_ask {A} (f : W → A * W) (Q : A → appSys W → Prop) s :
  (∀ x s' w, quietly s s' → f w = (x, ap_world s') → Q x s') → run (appAsk f) Q s.
Proof.
  intros HQ s1 <- _ x s2 E. destruct (f (ap_world s)) as [y w] eqn:Ef. injection E as <- <-.
  assert (Hq : quietly s (mkAppSys w (ap_log s) (ap_pages s) (ap_stored s))).
  { split; [done |]. exists []. split; [done | exact (List.Forall_nil _)]. }
  split_and!; [done | done |]. by apply (HQ y _ (ap_world s)).
Qed.

Lemma run_openPage p (Q : option error → appSys W → Prop) s :
  (∀ x s', quietly s s' → Q x s') → run (openPage p) Q s.
Proof.
  intros HQ s1 <- _ x s2 E. destruct (aw_Open p (ap_world s)) as [y w] eqn:Ef. injection E as <- <-.
  assert (Hq : quietly s (mkAppSys w (ap_log s) (p :: ap_pages s) (ap_stored s))).
  { split; [done |]. exists []. split; [done | exact (List.Forall_nil _)]. }
  split_and!; [done | done |]. by apply HQ.
Qed.

Lemma run_send r (Q : error + appAnswer → appSys W → Prop) s :
  carries r → (∀ x s', quietly s s' → (r, x) ∈ ap_log s' → Q x s') → run (appSend r) Q s.
Proof.
  intros Hr HQ s1 <- _ x s2 E. destruct (aw_Do r (ap_world s)) as [y w] eqn:Ef. injection E as <- <-.
  assert (Hq : quietly s (mkAppSys w ((r, y) :: ap_log s) (ap_pages s) (ap_stored s))).
  { split; [done |]. exists [(r, y)]. split; [done |]. by apply Forall_cons; split; [|exact (List.Forall_nil _)]. }
  split_and!; [done | done |]. apply HQ; [done |]. apply list_elem_of_here.
Qed.

(** * Requests *)

Lemma run_doJSON {A} method path token expected (decode : appAnswer → option A) (Q : error + A → appSys W → Prop) s :
  token = "" ∨ allowed token →
  (∀ r s', quietly s s' → match r with
                          | inr x => answered (ap_log s') (apiRequest method path token) expected decode x
                          | inl _ => True
                          end → Q r s') →
  run (doJSON baseURL method path token expected decode) Q s.
Proof.
  intros Htok HQ. unfold doJSON. destruct (negb _); [apply app_ret, HQ; [reflexivity | done] |].
  apply app_bind, run_send.
  { unfold carries. cbn. destruct Htok as [->|Htok]; [by left |]. destruct (String.eqb token ""); [by left |].
    right. by exists token. }
  intros x s' Hq Hin _. apply app_ret, HQ; [done |]. destruct x as [err|a]; [done |].
  destruct (Z.eqb_spec (an_StatusCode a) expected) as [Hs|]; cbn [negb]; [|done].
  destruct (decode a) eqn:Ed; [|done]. by exists a.
Qed.

(** ** Signed tokens *)

Context (signed : ∀ key issuer t u token, aw_Sign key issuer t u = Some token → allowed token).

Lemma run_appJWT c (Q : error + string → appSys W → Prop) s :
  (∀ r s', quietly s s' → match r with inr token => allowed token | inl _ => True end → Q r s') →
  run (appJWT c) Q s.
Proof.
  intros HQ. unfold appJWT. destruct (negb _); [apply app_ret, HQ; [reflexivity | done] |].
  apply app_bind, run_ask. intros now s' w Hq _ _. apply app_ret, HQ; [done |].
  destruct (aw_Sign _ _ _ _) eqn:Es; [by eapply signed | done].
Qed.

(** ** Who an App is *)

(** GitHub's answer about the App that the key signs for. *)
Definition identity (l : log) (c : Credentials) (id : Z) : Prop :=
  ∃ token app, answered l (apiRequest "GET" "/app" token) 200 aj_App app ∧ cr_AppID app = id ∧ 1 <= id
               ∧ (cr_ClientID app = cr_ClientID c ∨ Itoa id = cr_ClientID c) ∧ (0 < cr_AppID c → cr_AppID c = id).

Lemma identity_later s s' c id : quietly s s' → identity (ap_log s) c id → identity (ap_log s') c id.
Proof. intros Hq (token & app & Ha & He). exists token, app. split; [by eapply answered_later | done]. Qed.

Lemma run_Identify c (Q : error + Credentials → appSys W → Prop) s :
  (∀ r s', quietly s s' →
     match r with
     | inr c' => identity (ap_log s') c (cr_AppID c') ∧ cr_PrivateKey c' = cr_PrivateKey c ∧ cr_ClientID c' = cr_ClientID c
     | inl _ => True
     end → Q r s') →
  run (Identify baseURL c) Q s.
Proof.
  intros HQ. unfold Identify. apply app_bind, run_appJWT. intros token s1 Hq1 Htok _.
  destruct token as [err|token]; [by apply app_ret, HQ |].
  apply app_bind, run_doJSON; [by right |]. intros app s2 Hq2 Happ _. apply app_ret, HQ; [by etrans |].
  destruct app as [err|app]; [done |]. destruct (_ || _) eqn:E1; [done |]. destruct (_ && _) eqn:E2; [done |].
  apply orb_false_iff in E1 as [Eid Ecl]. split_and!; [|done | done]. exists token, app. cbn.
  apply negb_false_iff, orb_true_iff in Ecl. split_and!; [done | done | lia | |].
  - destruct Ecl as [E%String.eqb_eq|E%String.eqb_eq]; [by left | by right].
  - intros Hpos. apply andb_false_iff in E2 as [E2|E2]; [lia |]. apply negb_false_iff, Z.eqb_eq in E2. done.
Qed.

(** ** Where it is installed *)

Definition installationPath (t : Target) : string :=
  if String.eqb (tg_Repository t) "" then "/orgs/" +:+ PathEscape (tg_Owner t) +:+ "/installation"
  else "/repos/" +:+ PathEscape (tg_Owner t) +:+ "/" +:+ PathEscape (tg_Repository t) +:+ "/installation".

Definition permits (i : installationRecord) (p : Profile) : Prop :=
  ∀ name want, pr_Permissions p !! name = Some want → grants (default "" (in_Permissions i !! name)) want = true.

Lemma covers_permits i p : covers i p = None → permits i p.
Proof.
  unfold covers. set (names := merge_sort _ _). destruct (List.find _ names) eqn:Ef; [done |]. intros _ name want Hw.
  assert (Hin : name ∈ names).
  { unfold names. rewrite merge_sort_Permutation. apply list_elem_of_fmap. exists (name, want).
    split; [done | by apply elem_of_map_to_list]. }
  apply list_elem_of_In in Hin. pose proof (List.find_none _ _ Ef name Hin) as Hg. cbn in Hg.
  rewrite Hw in Hg. by apply negb_false_iff in Hg.
Qed.

(** The credentials are valid, the App that signs with their key is theirs, and GitHub
    shows that App's installation on the target, with the permissions it needs. *)
Record verifiedOn (l : log) (c : Credentials) (t : Target) (p : Profile) (i : installationRecord) : Prop := mkVerified {
  vf_valid : validateCredentials c = None;
  vf_app : identity l c (in_AppID i);
  vf_installed : ∃ token, answered l (apiRequest "GET" (installationPath t) token) 200 aj_Installation i;
  vf_id : in_ID i = cr_InstallationID c;
  vf_owner : equalFold aw_Fold (in_Login i) (tg_Owner t) = true;
  vf_permits : permits i p
}.

Lemma verifiedOn_later s s' c t p i : quietly s s' → verifiedOn (ap_log s) c t p i → verifiedOn (ap_log s') c t p i.
Proof.
  intros Hq [V1 V2 [token V3] V4 V5 V6]. split; [done | by eapply identity_later | exists token; by eapply answered_later | done..].
Qed.

Lemma run_verify c t p (Q : error + installationRecord → appSys W → Prop) s :
  (∀ r s', quietly s s' → match r with inr i => verifiedOn (ap_log s') c t p i | inl _ => True end → Q r s') →
  run (verify baseURL c t p) Q s.
Proof.
  intros HQ. unfold verify. destruct (validateCredentials c) eqn:Ev; [by apply app_ret, HQ |].
  apply app_bind, run_Identify. intros app s1 Hq1 Happ _. destruct app as [err|app]; [by apply app_ret, HQ |].
  apply app_bind, run_appJWT. intros token s2 Hq2 Htok _.
  destruct token as [err|token]; [apply app_ret, HQ; [by etrans | done] |].
  apply app_bind. unfold targetInstallation. fold (installationPath t). apply run_doJSON; [by right |].
  intros i s3 Hq3 Hi _. apply app_ret, HQ; [etrans; [exact Hq1 | by etrans] |].
  destruct i as [err|i]; [done |]. destruct (_ || _) eqn:E1; [done |].
  destruct (equalFold _ _ _) eqn:E2; cbn [negb]; [|done]. destruct (covers i p) eqn:Ec; [done |].
  apply orb_false_iff in E1 as [Eid%negb_false_iff%Z.eqb_eq Eapp%negb_false_iff%Z.eqb_eq].
  destruct Happ as (Hident & _ & _). rewrite <- Eapp in Hident.
  split; [done | | by exists token | done | done | by apply covers_permits].
  eapply identity_later; [exact Hq3 |]. by eapply identity_later.
Qed.

Lemma run_waitInstallation ticks c t p (Q : error + Z → appSys W → Prop) s :
  (∀ r s', quietly s s' → Q r s') → run (waitInstallation baseURL ticks c t p) Q s.
Proof.
  revert Q s. induction ticks as [|ticks IH]; intros Q s HQ; simpl.
  all: apply app_bind, run_appJWT; intros token s1 Hq1 Htok _; destruct token as [err|token]; [by apply app_ret, HQ |].
  all: apply app_bind; unfold targetInstallation; apply run_doJSON; [by right |]; intros i s2 Hq2 Hi _.
  all: assert (Hq : quietly s s2) by (by etrans).
  all: destruct i as [err|i]; [|by apply app_ret, HQ]; destruct (negb _); [by apply app_ret, HQ |].
  - by apply app_ret, HQ.
  - apply IH. intros r s3 Hq3. apply HQ. by etrans.
Qed.

Lemma run_WaitForInstallationFor c t p (Q : error + Z → appSys W → Prop) s :
  (∀ r s', quietly s s' → Q r s') → run (WaitForInstallationFor baseURL c t p) Q s.
Proof.
  intros HQ. unfold WaitForInstallationFor. apply app_bind, run_ask. intros ticks s1 w Hq _ _.
  apply run_waitInstallation. intros r s2 Hq2. apply HQ. by etrans.
Qed.

(** * Storing *)

(** What a program ends in, at last. *)
Definition ends {A} (p : P A) (Q : A → appSys W → Prop) (s : appSys W) : Prop := Q (evalP p s) (execP p s).

Lemma ends_run {A} (p : P A) (Q : A → appSys W → Prop) s : run p Q s → ends p Q s.
Proof. intros Hp. by destruct (wp_run _ _ _ p Q s Hp Logic.I) as (_ & _ & HQ). Qed.

Lemma ends_bind {A B} (p : P A) (k : A → P B) Q s :
  run p (λ a s', ends (k a) Q s') s → ends (p ≫= k) Q s.
Proof. intros Hp%ends_run. unfold ends in *. by rewrite evalP_bind, execP_bind. Qed.

(** Credentials stored: those of an App, with the installation that was verified. *)
Definition stored (t : Target) (p : Profile) (c : Credentials) (s s' : appSys W) : Prop :=
  ∃ id i s1, quietly s s1 ∧ verifiedOn (ap_log s1) (withInstallation id c) t p i
             ∧ ap_log s' = ap_log s1 ∧ ap_stored s' = withInstallation id c :: ap_stored s1.

Lemma stored_before t p c s0 s s' : quietly s0 s → stored t p c s s' → stored t p c s0 s'.
Proof. intros Hq (id & i & s1 & Hq1 & Hs). exists id, i, s1. split; [by etrans | done]. Qed.

Lemma storeInstalled_ends o p c (Q : error + Result → appSys W → Prop) s :
  (∀ err s', quietly s s' → Q (inl err) s') → (∀ r s', stored (op_Target o) p c s s' → Q r s') →
  ends (storeInstalled baseURL o p c) Q s.
Proof.
  intros Hno Hyes. unfold storeInstalled. apply ends_bind, run_WaitForInstallationFor. intros id s1 Hq1.
  destruct id as [err|id]; [by apply Hno |].
  apply ends_bind, run_verify. intros i s2 Hq2 Hi. assert (Hq : quietly s s2) by (by etrans).
  destruct i as [err|i]; [by apply Hno |]. cbv zeta. unfold ends, storeCredentials.
  rewrite evalP_bind, execP_bind. unfold evalP, execP. cbn.
  destruct (aw_Store (withInstallation id c) (ap_world s2)) as [failed w]. cbn. apply Hyes.
  exists id, i, s2. by split_and!.
Qed.

Lemma installAndStore_ends o p c open (Q : error + Result → appSys W → Prop) s :
  (∀ err s', quietly s s' → Q (inl err) s') → (∀ r s', stored (op_Target o) p c s s' → Q r s') →
  ends (installAndStore baseURL o p c open) Q s.
Proof.
  intros Hno Hyes. unfold installAndStore. destruct open; [|by apply storeInstalled_ends].
  destruct (installationURL c) as [err|url]; [by apply Hno |].
  apply ends_bind. unfold exposeAndOpen.
  assert (Hnext : ∀ r s1, quietly s s1 → ends match r : option error with
                                              | Some err => mret (inl (WrapError "open installation page" err))
                                              | None => storeInstalled baseURL o p c
                                              end Q s1).
  { intros [err|] s1 Hq1; [by apply Hno |]. apply storeInstalled_ends.
    - intros err s2 Hq2. apply Hno. by etrans.
    - intros r s2 Hs. apply Hyes. by eapply stored_before. }
  destruct (op_NoBrowser o); [apply app_ret, (Hnext None); reflexivity | by apply run_openPage].
Qed.

(** * The page *)

(** A callback of the setup with this state brought this code. *)
Definition broughtBy (rs : list loopbackRequest) (state code : string) : Prop :=
  ∃ r, r ∈ rs ∧ lr_Method r = "GET" ∧ lr_Path r = "/callback" ∧ lr_State r = state ∧ TrimSpace (lr_Code r) = code
       ∧ (20 <= String.length code <= 256)%nat.

Lemma serveAll_code rs h code :
  lb_sent (serveAll h rs) = Some code → lb_sent h = Some code ∨ lb_sent h = None ∧ broughtBy rs (lb_state h) code.
Proof.
  revert h. induction rs as [|r rs IH]; intros h; [by left |]. cbn [serveAll fold_left].
  assert (Hstep : lb_state (serveLoopback h r).2 = lb_state h
                  ∧ (lb_sent (serveLoopback h r).2 = lb_sent h
                     ∨ lb_sent h = None ∧ ∃ c, lb_sent (serveLoopback h r).2 = Some c ∧ broughtBy [r] (lb_state h) c)).
  { unfold serveLoopback. destruct (String.eqb_spec (lr_Method r) "GET") as [Hm|]; cbn [negb]; [|by split; [|left]].
    destruct (String.eqb (lr_Path r) "/start"); [by split; [|left] |].
    destruct (String.eqb_spec (lr_Path r) "/callback") as [Hp|]; [|by split; [|left]].
    destruct (String.eqb_spec (lr_State r) (lb_state h)) as [Hst|]; cbn [negb]; [|by split; [|left]].
    destruct (_ || _) eqn:E; [by split; [|left] |]. destruct (lb_sent h) eqn:Eh; cbn; [by split; [|left] |].
    split; [done |]. right. split; [done |]. eexists. split; [done |]. exists r.
    apply orb_false_iff in E as [[[E1 E2]%orb_false_iff _]%orb_false_iff _].
    split_and!; [apply list_elem_of_here | done.. | |]; [by apply Nat.ltb_ge | by apply Nat.ltb_ge]. }
  destruct Hstep as [Hst Hsent]. intros Hcode. apply IH in Hcode. rewrite Hst in Hcode.
  assert (Hmore : ∀ c, broughtBy rs (lb_state h) c → broughtBy (r :: rs) (lb_state h) c).
  { intros c (q & Hq & Hr). exists q. split; [by apply list_elem_of_further | done]. }
  destruct Hsent as [Heq|(Hnone & c & Hc & Hb)].
  - rewrite Heq in Hcode. destruct Hcode as [|[Hn Hb]]; [by left | right]. split; [done | by apply Hmore].
  - right. split; [done |]. destruct Hcode as [Hcode|[Hn _]]; [|congruence].
    rewrite Hc in Hcode. injection Hcode as <-. destruct Hb as (q & Hq & Hr). exists q.
    apply list_elem_of_singleton in Hq as ->. split; [apply list_elem_of_here | done].
Qed.

Lemma run_waitCode state (Q : error + string → appSys W → Prop) s :
  (∀ r s', quietly s s' →
     match r with inr code => ∃ w, broughtBy (aw_Callbacks w).1.1 state code | inl _ => True end → Q r s') →
  run (waitCode state) Q s.
Proof.
  intros HQ. unfold waitCode. apply app_bind, run_ask. intros [rs failed] s1 w Hq Hw _. apply app_ret, HQ; [done |]. cbn.
  destruct failed as [err|]; [done |]. destruct (lb_sent _) as [code|] eqn:Ec; [|done].
  exists w. rewrite Hw. by apply serveAll_code in Ec as [|[_ Hb]].
Qed.

Lemma run_ConvertManifest code (Q : error + Credentials → appSys W → Prop) s :
  (∀ r s', quietly s s' →
     match r with
     | inr c => ∃ c0, answered (ap_log s') (mkAppRequest "POST" (apiBase baseURL +:+ "/app-manifests/" +:+ PathEscape code +:+ "/conversions") "")
                        201 aj_Conversion c0 ∧ c = withInstallation 0 c0
     | inl _ => True
     end → Q r s') →
  run (ConvertManifest baseURL code) Q s.
Proof.
  intros HQ. unfold ConvertManifest. destruct (negb _); [apply app_ret, HQ; [reflexivity | done] |].
  apply app_bind, run_send; [by left |]. intros x s' Hq Hin _. apply app_ret, HQ; [done |].
  destruct x as [err|a]; [done |]. destruct (Z.eqb_spec (an_StatusCode a) 201); cbn [negb]; [|done].
  destruct (aj_Conversion a) as [c0|] eqn:Ec; [|done]. destruct (_ || _); [done |]. destruct (negb _); [done |].
  exists c0. split; [by exists a | done].
Qed.

(** The App that GitHub made for the code of this setup. *)
Definition madeBySetup (l : log) (c : Credentials) : Prop :=
  ∃ w v state code c0,
    (aw_RandomHex 32 w).1 = Some state ∧ broughtBy (aw_Callbacks v).1.1 state code
    ∧ answered l (mkAppRequest "POST" (apiBase baseURL +:+ "/app-manifests/" +:+ PathEscape code +:+ "/conversions") "")
        201 aj_Conversion c0
    ∧ cr_PrivateKey c = cr_PrivateKey c0 ∧ cr_ClientID c = cr_ClientID c0.

Lemma createdApp_ends o p state (Q : error + Result → appSys W → Prop) s :
  (∃ w, (aw_RandomHex 32 w).1 = Some state) →
  (∀ err s', quietly s s' → Q (inl err) s') →
  (∀ r s' c, stored (op_Target o) p c s s' → madeBySetup (ap_log s') c → Q r s') →
  ends (createdApp baseURL o p state) Q s.
Proof.
  intros [w Hw] Hno Hyes. unfold createdApp. apply ends_bind, run_waitCode. intros code s1 Hq1 Hcode.
  destruct code as [err|code]; [by apply Hno |]. destruct Hcode as [v Hv].
  apply ends_bind, run_ConvertManifest. intros c s2 Hq2 Hc. assert (Hq : quietly s s2) by (by etrans).
  destruct c as [err|c]; [by apply Hno |]. destruct Hc as (c0 & Hc0 & ->).
  apply installAndStore_ends.
  - intros err s3 Hq3. apply Hno. by etrans.
  - intros r s3 Hs. apply (Hyes r s3 (withInstallation 0 c0)); [by eapply stored_before |].
    destruct Hs as (id & i & s4 & Hq4 & _ & Hlog & _). exists w, v, state, code, c0.
    split_and!; [done | done | rewrite Hlog; by eapply answered_later | done | done].
Qed.

(** * Private targets *)

Definition runnerGroups (owner : string) (page : Z) (token : string) : appRequest :=
  apiRequest "GET" ("/orgs/" +:+ PathEscape owner +:+ "/actions/runner-groups?per_page=100&page=" +:+ Itoa page) token.

(** GitHub said that a target runs private code only: that the repository is private, or
    that the runner group refuses public repositories. *)
Definition saidPrivate (l : log) (token : string) (t : Target) (group : string) : Prop :=
  if String.eqb (tg_Repository t) "" then
    ∃ page groups name, answered l (runnerGroups (tg_Owner t) page token) 200 aj_Groups groups
                        ∧ (name, Some false) ∈ groups
                        ∧ equalFold aw_Fold name (if String.eqb group "" then "Default" else group) = true
  else
    ∃ visibility, answered l (apiRequest "GET" ("/repos/" +:+ PathEscape (tg_Owner t) +:+ "/" +:+ PathEscape (tg_Repository t)) token)
                    200 aj_Repository (true, visibility)
                  ∧ (visibility = "private" ∨ visibility = "internal").

Lemma run_checkGroups pages page token t group (Q : option error → appSys W → Prop) s :
  allowed token → tg_Repository t = "" →
  (∀ r s', quietly s s' → (r = None → saidPrivate (ap_log s') token t group) → Q r s') →
  run (checkGroups baseURL pages page token (tg_Owner t) (if String.eqb group "" then "Default" else group)) Q s.
Proof.
  intros Htok Hrep. revert page s. induction pages as [|pages IH]; intros page s HQ; simpl.
  { apply app_ret, HQ; [reflexivity | done]. }
  apply app_bind, run_doJSON; [by right |]. intros groups s1 Hq1 Hg _.
  destruct groups as [err|groups]; [by apply app_ret, HQ |].
  destruct (List.find _ groups) as [[name [[]|]]|] eqn:Ef; [by apply app_ret, HQ | | by apply app_ret, HQ |].
  - apply app_ret, HQ; [done |]. intros _. unfold saidPrivate. rewrite Hrep. cbn.
    apply List.find_some in Ef as [Hin Hf]. cbn in Hf. exists page, groups, name.
    split_and!; [done | by apply list_elem_of_In | done].
  - destruct (_ <? _)%nat; [by apply app_ret, HQ |]. apply IH. intros r s2 Hq2. apply HQ. by etrans.
Qed.

Lemma run_CheckPrivateTarget token t group (Q : option error → appSys W → Prop) s :
  allowed token →
  (∀ r s', quietly s s' → (r = None → saidPrivate (ap_log s') token t group) → Q r s') →
  run (CheckPrivateTarget baseURL token t group) Q s.
Proof.
  intros Htok HQ. unfold CheckPrivateTarget.
  destruct (String.eqb token ""); [apply app_ret, HQ; [reflexivity | done] |].
  destruct (_ || _ || _); [apply app_ret, HQ; [reflexivity | done] |].
  destruct (String.eqb_spec (tg_Repository t) "") as [Hr|Hr]; cbn [negb]; [by apply run_checkGroups |].
  apply app_bind, run_doJSON; [by right |]. intros answer s1 Hq1 Ha _. apply app_ret, HQ; [done |].
  destruct answer as [err|[private visibility]]; [done |].
  destruct (negb private || _) eqn:E; [done |]. intros _.
  apply orb_false_iff in E as [Hp%negb_false_iff Hv]. subst private.
  unfold saidPrivate. apply String.eqb_neq in Hr. rewrite Hr. exists visibility. split; [done |].
  apply andb_false_iff in Hv as [Hv|Hv]; apply negb_false_iff, String.eqb_eq in Hv; [by left | by right].
Qed.

Lemma run_InstallationToken c (Q : error + string → appSys W → Prop) s :
  (∀ r s', quietly s s' → Q r s') → run (InstallationToken baseURL c) Q s.
Proof.
  intros HQ. unfold InstallationToken. destruct (validateCredentials c); [by apply app_ret, HQ |].
  apply app_bind, run_appJWT. intros token s1 Hq1 Htok _. destruct token as [err|token]; [by apply app_ret, HQ |].
  apply app_bind, run_doJSON; [by right |]. intros issued s2 Hq2 _ _. apply app_ret, HQ. by etrans.
Qed.
End proofs.

Section claims.
Context {W : Type} `{!AppWorld W, !AppJSON} (baseURL : string).

(** A token that some App's key has signed. *)
Definition signedToken (token : string) : Prop := ∃ key issuer t u, aw_Sign key issuer t u = Some token.

Lemma signedToken_intro key issuer t u token : aw_Sign key issuer t u = Some token → signedToken token.
Proof. intros Hs. by exists key, issuer, t, u. Qed.

(** What a setup of a new App comes to: an error with nothing stored, or the credentials
    of an App made by this setup and verified on the target. *)
Definition setupOutcome (o : Options) (s : appSys W) (r : error + Result) (s' : appSys W) : Prop :=
  quietly signedToken s s' ∧ (∃ err, r = inl err)
  ∨ ∃ p c, default (RunnerProfile (op_Target o)) (op_Profile o) = p
           ∧ stored baseURL signedToken (op_Target o) p c s s' ∧ madeBySetup baseURL (ap_log s') c.

Lemma prepare_profile o o' p :
  prepare o = inr (o', p) → op_Target o' = op_Target o ∧ default (RunnerProfile (op_Target o)) (op_Profile o) = p.
Proof.
  unfold prepare. destruct (validateTarget _); [done |]. destruct (validateProfile _); [done |].
  destruct (negb _); [done |]. destruct (_ && _); [done |]. cbv zeta. destruct (Hour <? _); [done |]. by intros [= <- <-].
Qed.

(** C17: The setup of a new App hands credentials to the sink at most once, and only for an
    App that GitHub made for the code of a callback with this setup's secret state, after
    GitHub has shown that the App signing with the key is that one and that it is
    installed, under the ID stored, on the target's owner with every permission asked
    for.  Otherwise nothing is stored, and no request carries more than a signed token. *)
Theorem setup_stores_verified o (s : appSys W) :
  setupOutcome o s (evalP (Bootstrap baseURL o) s) (execP (Bootstrap baseURL o) s).
Proof.
  change (ends (Bootstrap baseURL o) (setupOutcome o s) s).
  assert (Hno : ∀ err s', quietly signedToken s s' → ends (mret (inl err) : prog (appSys W) (error + Result)) (setupOutcome o s) s').
  { intros err s' Hq. left. split; [done | by exists err]. }
  unfold Bootstrap. destruct (prepare o) as [err|[o' p]] eqn:Ep; [apply Hno; reflexivity |].
  destruct (prepare_profile _ _ _ Ep) as [Htarget Hprofile].
  apply ends_bind with (allowed := signedToken), run_ask. intros address s1 w1 Hq1 _. destruct address as [err|address]; [by apply Hno |].
  apply ends_bind with (allowed := signedToken), run_ask. intros state s2 w2 Hq2 Hstate.
  assert (Hq : quietly signedToken s s2) by (by etrans). destruct state as [state|]; [|by apply Hno].
  apply ends_bind with (allowed := signedToken), run_ask. intros suffix s3 w3 Hq3 _.
  assert (Hs3 : quietly signedToken s s3) by (by etrans). destruct suffix as [suffix|]; [|by apply Hno]. cbv zeta.
  destruct (manifestJSON _ _ _ _) as [err|m]; [by apply Hno |].
  destruct (registrationURL _ _ _) as [err|form]; [by apply Hno |].
  apply ends_bind with (allowed := signedToken).
  assert (Hnext : ∀ r s4, quietly signedToken s s4 → ends match r : option error with
                    | Some err => mret (inl (WrapError "open browser" err))
                    | None => createdApp baseURL o' p state
                    end (setupOutcome o s) s4).
  { intros [err|] s4 Hq4; [by apply Hno |].
    apply (createdApp_ends baseURL signedToken signedToken_intro).
    - exists w2. by rewrite Hstate.
    - intros err s5 Hq5. left. split; [by etrans | by eexists].
    - intros r s5 c Hst Hmade. right. exists p, c. rewrite <- Htarget. split_and!; [by rewrite Htarget | by eapply stored_before | done]. }
  unfold exposeAndOpen. destruct (op_NoBrowser o'); [by apply app_ret, (Hnext None) |].
  apply run_openPage. intros r s4 Hq4. apply Hnext. by etrans.
Qed.
End claims.

(** * A setup that goes through *)

(** A GitHub that knows one App, on one repository and one organization. *)
Module AppDemo.

Definition code : string := "0123456789abcdef0123".
Definition theApp : Credentials := mkCredentials 7 "Iv1.abc" 0 "key" "runneryard-x" "https://github.com/apps/runneryard-x".

Definition answerTo (r : appRequest) : error + appAnswer :=
  let body := TrimPrefix (rq_URL r) "https://api.github.com" in
  inr (mkAppAnswer (if String.eqb (rq_Method r) "POST" then 201 else 200) body None).

#[global] Instance world : AppWorld nat := {|
  aw_NewRequest _ := true;
  aw_Do r w := (answerTo r, S w);
  aw_ParseRSA key := String.eqb key "key";
  aw_Sign key issuer _ _ := Some (key +:+ "/" +:+ issuer);
  aw_Now w := (Z.of_nat w, S w);
  aw_ParseURL url := Some (mkPageURL "https" "github.com" false "" "" (TrimPrefix url "https://github.com"));
  aw_Fold c := if ((65 <=? c) && (c <=? 90))%N then (c + 32)%N else c;
  aw_RandomHex _ w := (Some "feed", S w);
  aw_Listen w := (inr "127.0.0.1:4000", w);
  aw_Open _ w := (None, w);
  aw_Callbacks w :=
    (([mkLoopbackRequest "GET" "/callback" "guess" "9999999999999999999999"; mkLoopbackRequest "GET" "/callback" "feed" code],
      None), w);
  aw_Ticks w := (2%nat, w);
  aw_Store _ w := (None, w)
|}.

#[global] Instance json : AppJSON := {|
  aj_Account _ := Some "User";
  aj_Conversion a := if String.eqb (an_Body a) ("/app-manifests/" +:+ code +:+ "/conversions") then Some theApp else None;
  aj_App _ := Some theApp;
  aj_Installation _ := Some (mkInstallation 11 7 "o" (<["administration" := "write"]> (<["metadata" := "read"]> ∅)) "selected");
  aj_Token _ := Some "ghs";
  aj_Repository _ := Some (true, "private");
  aj_Groups _ := Some [("Default", Some true); ("pools", Some false)]
|}.

Definition target : Target := mkTarget "https://github.com/o/r" "o" "r" OwnerUser.
Definition options : Options := mkOptions target None true true false 0 "" "https://example.com".
Definition start : appSys nat := mkAppSys 0%nat [] [] [].

(** The callback with the wrong state is turned away, and the App is stored with the
    installation found. *)
Example goes_through :
  ap_stored (execP (Bootstrap "" options) start) = [withInstallation 11 theApp].
Proof. vm_compute. done. Qed.

Example group_refused :
  evalP (CheckPrivateTarget "" "t" (mkTarget "" "o" "" "") "") start
  = Some (WrapError "runner group allows public repositories" (Sentinel ErrPublicTarget)).
Proof. vm_compute. done. Qed.
End AppDemo.
