(* ===== verification/AppSinks.v ===== *)
(** Where verified App credentials go (src/githubapp/sinks.go): two files of the project
    directory, Fly's secret store, or the Actions secrets of a repository.

    The directory is a map from paths to files, changed by system calls that may each
    fail without effect; which fail, how much of a failed write is written, the random
    part of temporary names and where the project is are the class [FileWorld]. *)

From S2P Require Import Prelude Program Provider GoStrings GoText GoPatterns GitHubApp.

#[local] Open Scope string_scope.
#[local] Open Scope Z_scope.

(** * A directory *)

Inductive fileKind := Regular | Directory | Symlink | OtherKind.
#[global] Instance fileKind_eq_dec : EqDecision fileKind.
Proof. solve_decision. Defined.

Record file := mkFile { f_Kind : fileKind; f_Mode : Z; f_Data : string }.

Inductive systemCall :=
  | SLstat | SMkdir | SChmod | SReadFile | SOpenAppend | SWrite | SCreateTemp | SSync | SClose | SRemove | SRename.

Class FileWorld (W : Type) := mkFileWorld {
  fw_fails : systemCall → W → bool * W;
  (** How many bytes a failed write has written. *)
  fw_partial : W → nat * W;
  fw_random : W → string * W;
  (** The project directory, resolved, if it is one. *)
  fw_project : string → W → (error + string) * W
}.

Record fileSys (W : Type) := mkFileSys { fs_world : W; fs_files : gmap string file }.
Arguments mkFileSys {W}.
Arguments fs_world {W}.
Arguments fs_files {W}.

Definition failed (msg : string) : option error := Some (ErrorString msg).

Section files.
Context {W V : Type} `{!FileWorld W, !AppWorld V}.
Abbreviation P := (prog (fileSys W)).

Definition fileAsk {A} (f : W → A * W) : P A :=
  act (λ s, let '(x, w) := f (fs_world s) in (x, mkFileSys w (fs_files s))).

(** A system call: its failure is [err]; otherwise what it does and returns. *)
Definition syscall {A} (c : systemCall) (err : A) (f : gmap string file → A * gmap string file) : P A :=
  act (λ s, let '(bad, w) := fw_fails c (fs_world s) in
            if bad : bool then (err, mkFileSys w (fs_files s))
            else let '(x, m) := f (fs_files s) in (x, mkFileSys w m)).

(** A file; [inl None] when there is none. *)
Definition lstat (path : string) : P (option error + file) :=
  syscall SLstat (inl (failed "lstat"))
    (λ m, (match m !! path with Some f => inr f | None => inl None end, m)).

Definition mkdir (path : string) (mode : Z) : P (option error) :=
  syscall SMkdir (failed "mkdir")
    (λ m, match m !! path with
          | Some _ => (failed "file exists", m)
          | None => (None, <[path := mkFile Directory mode ""]> m)
          end).

Definition chmod (path : string) (mode : Z) : P (option error) :=
  syscall SChmod (failed "chmod")
    (λ m, match m !! path with
          | Some f => (None, <[path := mkFile (f_Kind f) mode (f_Data f)]> m)
          | None => (failed "no such file", m)
          end).

Definition osRemove (path : string) : P (option error) :=
  syscall SRemove (failed "remove")
    (λ m, match m !! path with Some _ => (None, delete path m) | None => (failed "no such file", m) end).

Definition rename (from to : string) : P (option error) :=
  syscall SRename (failed "rename")
    (λ m, match m !! from with Some f => (None, <[to := f]> (delete from m)) | None => (failed "no such file", m) end).

(** [os.CreateTemp]: a new file of a random name. *)
Definition createTemp (directory prefix : string) : P (option string) :=
  random ← fileAsk fw_random;
  let path := directory +:+ "/" +:+ prefix +:+ random in
  syscall SCreateTemp None
    (λ m, match m !! path with Some _ => (None, m) | None => (Some path, <[path := mkFile Regular 384 ""]> m) end).

(** A write to an open file: all of it, or a part and an error. *)
Definition write (path contents : string) : P bool :=
  part ← fileAsk fw_partial;
  act (λ s, let '(bad, w) := fw_fails SWrite (fs_world s) in
            let written := if bad : bool then String.substring 0 part contents else contents in
            (negb bad, mkFileSys w match fs_files s !! path with
                                   | Some f => <[path := mkFile (f_Kind f) (f_Mode f) (f_Data f +:+ written)]> (fs_files s)
                                   | None => fs_files s
                                   end)).

Definition descriptor (c : systemCall) : P bool := syscall c false (λ m, (true, m)).

(** * Credential files *)

(** [writeSecretFile]; the deferred removal finds the temporary file gone after its
    rename. *)
Definition writeSecretFile (directory target contents : string) : P (option error) :=
  temporary ← createTemp directory ".runneryard-secret-";
  match temporary with
  | None => mret (failed "create temporary credential file")
  | Some temporary =>
    err ← (secured ← chmod temporary 384;
           match secured : option error with
           | Some _ => _ ← descriptor SClose; mret (failed "secure temporary credential file")
           | None =>
             written ← write temporary contents;
             if negb written then _ ← descriptor SClose; mret (failed "write credential file")
             else
             synced ← descriptor SSync;
             if negb synced then _ ← descriptor SClose; mret (failed "sync credential file")
             else
             closed ← descriptor SClose;
             if negb closed then mret (failed "close credential file")
             else
             renamed ← rename temporary target;
             match renamed : option error with
             | Some _ => mret (failed "install credential file")
             | None =>
               moded ← chmod target 384;
               mret (match moded : option error with Some _ => failed "secure credential file" | None => None end)
             end
           end);
    _ ← osRemove temporary;
    mret err
  end.

(** [backupCredentialFile]: the path of the backup, empty when there was nothing. *)
Definition backupCredentialFile (directory target : string) : P (error + string) :=
  found ← lstat target;
  match found with
  | inl None => mret (inr "")
  | inl (Some err) => mret (inl err)
  | inr _ =>
    placeholder ← createTemp directory ".runneryard-backup-";
    match placeholder with
    | None => mret (inl (ErrorString "reserve credential backup path"))
    | Some backup =>
      closed ← descriptor SClose;
      if negb closed then mret (inl (ErrorString "close credential backup placeholder"))
      else
      removed ← osRemove backup;
      match removed : option error with
      | Some _ => mret (inl (ErrorString "prepare credential backup path"))
      | None =>
        renamed ← rename target backup;
        mret (match renamed : option error with
              | Some _ => inl (ErrorString "back up existing credential file")
              | None => inr backup
              end)
      end
    end
  end.

(** [restoreCredentialFile] *)
Definition restoreCredentialFile (target backup : string) : P () :=
  _ ← osRemove target;
  if String.eqb backup "" then mret tt else _ ← rename backup target; mret tt.

(** The lines of [ensureGitignore] to add. *)
Definition newline : string := bytes [10]%nat.
Definition trimmedLines (contents : string) : list string := map TrimSpace (splitOn (ascii_of_nat 10) contents).
Definition endsInNewline (s : string) : bool :=
  match String.get (String.length s - 1) s with Some c => Ascii.eqb c (ascii_of_nat 10) | None => false end.
Definition missingEntries (contents : string) (entries : list string) : list string :=
  keep (λ e, negb (bool_decide (e ∈ trimmedLines contents))) entries.
(** The code adds a newline to a text that does not end in one, even when it adds no entry. *)
Definition additions (contents : string) (entries : list string) : string :=
  (if negb (String.eqb contents "") && negb (endsInNewline contents) then newline else "")
  +:+ String.concat "" (map (λ e, e +:+ newline) (missingEntries contents entries)).

(** [os.ReadFile]: empty text for a file that is not there. *)
Definition readIgnore (path : string) : P (error + string) :=
  syscall SReadFile (inl (ErrorString "read .runneryard/.gitignore"))
    (λ m, (match m !! path with
           | Some f => if bool_decide (f_Kind f = Directory) then inl (ErrorString "read .runneryard/.gitignore")
                       else inr (f_Data f)
           | None => inr ""
           end, m)).

Definition openAppend (path : string) : P bool :=
  syscall SOpenAppend false
    (λ m, (true, match m !! path with Some _ => m | None => <[path := mkFile Regular 420 ""]> m end)).

(** [ensureGitignore] *)
Definition ensureGitignore (path : string) (entries : list string) : P (option error) :=
  contents ← readIgnore path;
  match contents with
  | inl err => mret (Some err)
  | inr contents =>
    found ← lstat path;
    if match found with inr f => bool_decide (f_Kind f = Symlink) | inl _ => false end
    then mret (failed "refusing to edit symlinked .runneryard/.gitignore")
    else
    let more := additions contents entries in
    if String.eqb more "" then mret None
    else
    opened ← openAppend path;
    if negb opened then mret (failed "open .runneryard/.gitignore")
    else
    written ← write path more;
    _ ← descriptor SClose;
    mret (if written : bool then None else failed "update .runneryard/.gitignore")
  end.

Definition keyName : string := "github-app.pem".
Definition envName : string := "github-app.env".
Definition envContents (c : Credentials) : string :=
  "GITHUB_APP_CLIENT_ID=" +:+ cr_ClientID c +:+ newline
  +:+ "GITHUB_APP_INSTALLATION_ID=" +:+ Itoa (cr_InstallationID c) +:+ newline
  +:+ "GITHUB_APP_PRIVATE_KEY_FILE=/run/secrets/github-app.pem" +:+ newline.

(** The directory of the credentials is there, and closed to others. *)
Definition secretDirectory (directory : string) : P (option error) :=
  found ← lstat directory;
  made ← match found with
         | inr f => mret (if bool_decide (f_Kind f = Directory) then None
                          else failed "refusing to store credentials through a non-directory or symlinked path")
         | inl (Some err) => mret (Some err)
         | inl None => mkdir directory 448
         end;
  match made : option error with
  | Some err => mret (Some err)
  | None => chmod directory 448
  end.

(** Nothing but a regular file is replaced, and that only by force. *)
Fixpoint replaceable (force : bool) (targets : list string) : P (option error) :=
  match targets with
  | [] => mret None
  | target :: targets =>
    found ← lstat target;
    match found with
    | inl (Some err) => mret (Some err)
    | inl None => replaceable force targets
    | inr f =>
      if negb (bool_decide (f_Kind f = Regular)) then mret (failed "refusing to replace non-regular credential path")
      else if negb force then mret (failed "credential path already exists; pass --force only for an intentional rotation")
      else replaceable force targets
    end
  end.

(** The two files, put in place of their backups or put back. *)
Definition swapFiles (directory : string) (c : Credentials) : P (option error) :=
  let keyPath := directory +:+ "/" +:+ keyName in
  let envPath := directory +:+ "/" +:+ envName in
  keyBackup ← backupCredentialFile directory keyPath;
  match keyBackup with
  | inl err => mret (Some err)
  | inr keyBackup =>
    envBackup ← backupCredentialFile directory envPath;
    match envBackup with
    | inl err => _ ← restoreCredentialFile keyPath keyBackup; mret (Some err)
    | inr envBackup =>
      let rollback err :=
        _ ← restoreCredentialFile keyPath keyBackup;
        _ ← restoreCredentialFile envPath envBackup;
        mret (Some err) in
      wroteKey ← writeSecretFile directory keyPath (cr_PrivateKey c);
      match wroteKey with
      | Some err => rollback err
      | None =>
        wroteEnv ← writeSecretFile directory envPath (envContents c);
        match wroteEnv with
        | Some err => rollback err
        | None => _ ← osRemove keyBackup; _ ← osRemove envBackup; mret None
        end
      end
    end
  end.

(** [FileSink.Store] *)
Definition fileStore (force : bool) (project : string) (c : Credentials) : P (option error) :=
  on_err (mret (validateCredentials (W := V) c)) (λ err, mret (Some err))
  (root ← fileAsk (fw_project (if String.eqb project "" then "." else project));
  match root with
  | inl err => mret (Some err)
  | inr root =>
    let directory := root +:+ "/.runneryard" in
    on_err (secretDirectory directory) (λ err, mret (Some err))
    (on_err (replaceable force [directory +:+ "/" +:+ keyName; directory +:+ "/" +:+ envName]) (λ err, mret (Some err))
    (on_err (ensureGitignore (directory +:+ "/.gitignore") [envName; keyName]) (λ err, mret (Some err))
    (swapFiles directory c)))
  end).
End files.

(** * Commands *)

Record command := mkCommand { cm_Program : string; cm_Args : list string; cm_Stdin : string }.

Record commandSys (W : Type) := mkCommandSys { cm_world : W; cm_log : list command }.
Arguments mkCommandSys {W}.
Arguments cm_world {W}.
Arguments cm_log {W}.

Section commands.
Context {W V : Type} `{!AppWorld V} (run : command → W → option error * W).
Abbreviation P := (prog (commandSys W)).

Definition runSink (c : command) : P (option error) :=
  act (λ s, let '(x, w) := run c (cm_world s) in (x, mkCommandSys w (c :: cm_log s))).

Definition safeFlyApp : regexp := RCat (RClass lowerDigit) (upTo 62 (RClass (λ c, lowerDigit c || Ascii.eqb c "-"))).

(** [strings.TrimSuffix(s, "\n")] *)
Definition trimNewline (s : string) : string :=
  if endsInNewline s then String.substring 0 (String.length s - 1) s else s.

Definition tripleQuote : string := bytes [34; 34; 34]%nat.

(** [FlySink.Store] *)
Definition flyStore (app : string) (c : Credentials) : P (option error) :=
  on_err (mret (validateCredentials (W := V) c)) (λ err, mret (Some err))
  (if negb (MatchString safeFlyApp app)
  then mret (failed "fly controller app must contain only lowercase letters, numbers, and hyphens")
  else
  err ← runSink (mkCommand "fly" ["secrets"; "import"; "--stage"; "--app"; app]
          ("GITHUB_APP_CLIENT_ID=" +:+ cr_ClientID c +:+ newline
           +:+ "GITHUB_APP_INSTALLATION_ID=" +:+ Itoa (cr_InstallationID c) +:+ newline
           +:+ "GITHUB_APP_PRIVATE_KEY=" +:+ tripleQuote +:+ trimNewline (cr_PrivateKey c) +:+ tripleQuote +:+ newline));
  mret (WrapError "fly secrets import failed" <$> (err : option error))).

(** [RepositorySink] *)
Record RepositorySink := mkRepositorySink {
  rp_Owner : string; rp_Repository : string; rp_ClientIDVariable : string; rp_PrivateKeySecret : string
}.

Definition slug (r : RepositorySink) : string := rp_Owner r +:+ "/" +:+ rp_Repository r.

Definition safeActionsName : regexp := RCat (RClass upper_byte) (upTo 99 (RClass (λ c, upper_byte c || digit_byte c || Ascii.eqb c "_"))).

Definition validateSink (r : RepositorySink) : option error :=
  if negb (MatchString safeOwner (rp_Owner r)) || negb (MatchString safeRepo (rp_Repository r))
  then failed "repository sink needs a valid owner and repository"
  else if negb (MatchString safeActionsName (rp_ClientIDVariable r)) || negb (MatchString safeActionsName (rp_PrivateKeySecret r))
  then failed "repository sink needs valid variable and secret names"
  else None.

(** [Ready] *)
Definition sinkReady (r : RepositorySink) : P (option error) :=
  match validateSink r with
  | Some err => mret (Some err)
  | None =>
    err ← runSink (mkCommand "gh" ["api"; "--silent"; "repos/" +:+ slug r +:+ "/actions/secrets/public-key"] "");
    mret (WrapError "gh cannot manage the Actions secrets" <$> (err : option error))
  end.

(** [RepositorySink.Store] *)
Definition repositoryStore (r : RepositorySink) (c : Credentials) : P (option error) :=
  on_err (mret (validateCredentials (W := V) c)) (λ err, mret (Some err))
  (on_err (mret (validateSink r)) (λ err, mret (Some err))
   (secret ← runSink (mkCommand "gh" ["secret"; "set"; rp_PrivateKeySecret r; "--app"; "actions"; "--repo"; slug r] (cr_PrivateKey c));
    match secret : option error with
    | Some err => mret (Some (WrapError "gh secret set failed" err))
    | None =>
      variable ← runSink (mkCommand "gh" ["variable"; "set"; rp_ClientIDVariable r; "--repo"; slug r; "--body"; cr_ClientID c] "");
      mret (WrapError "gh variable set failed" <$> (variable : option error))
    end)).
End commands.
