(* ===== verification/AppSinksTheorems.v ===== *)
(** Storing credentials loses none: the two files of a project are replaced together, or
    the ones before are put back, whichever system calls fail; and the ignore file names
    them before they are there. *)

From S2P Require Import Prelude Program Provider GoStrings GoText GoPatterns GitHubApp GitHubAppTheorems AppSinks.

#[local] Open Scope string_scope.
#[local] Open Scope Z_scope.
#[local] Arguments String.append !_ _ / : simpl nomatch.

(** * Paths *)

Lemma append_inj (a b c : string) : a +:+ b = a +:+ c → b = c.
Proof. induction a as [|x a IH]; [done |]. intros [= H]. by apply IH. Qed.

(** The names that temporary files get in a directory. *)
Definition temporaryPath (directory path : string) : Prop :=
  ∃ random, path = directory +:+ "/" +:+ ".runneryard-secret-" +:+ random
            ∨ path = directory +:+ "/" +:+ ".runneryard-backup-" +:+ random.

Lemma not_temporary directory name :
  (∀ rest, name ≠ ".runneryard-" +:+ rest) → ¬ temporaryPath directory (directory +:+ "/" +:+ name).
Proof.
  intros Hname [random [H|H]]; apply append_inj, append_inj in H; subst name.
  - by apply (Hname ("secret-" +:+ random)).
  - by apply (Hname ("backup-" +:+ random)).
Qed.

Lemma temporary_nonempty directory path : temporaryPath directory path → path ≠ "".
Proof. intros [random [-> | ->]]; by destruct directory. Qed.

(** * What a program does to the files *)

Section files.
Context {W : Type} `{!FileWorld W}.
Abbreviation P := (prog (fileSys W)).

(** From the files [m], in some world, it returns [x] and leaves [m']. *)
Definition does {A} (p : P A) (m : gmap string file) (x : A) (m' : gmap string file) : Prop :=
  ∃ w w', runP p (mkFileSys w m) = (x, mkFileSys w' m').

Definition mayFail (c : systemCall) : Prop := ∃ w, (fw_fails c w).1 = true.

Lemma does_ret {A} (a : A) m x m' : does (mret a) m x m' → x = a ∧ m' = m.
Proof. intros (w & w' & H). by injection H. Qed.

Lemma does_bind {A B} (p : P A) (k : A → P B) m x m' :
  does (p ≫= k) m x m' → ∃ y m1, does p m y m1 ∧ does (k y) m1 x m'.
Proof.
  intros (w & w' & H). rewrite runP_bind in H. unfold evalP, execP in H.
  destruct (runP p (mkFileSys w m)) as [y [w1 m1]] eqn:E. exists y, m1. split; [by exists w, w1 | by exists w1, w'].
Qed.

Lemma does_ask {A} (f : W → A * W) m x m' : does (fileAsk f) m x m' → m' = m.
Proof.
  intros (w & w' & H). unfold fileAsk, act in H. simpl in H. destruct (f w) as [y w1]. by injection H.
Qed.

Lemma does_syscall {A} c (err : A) f m x m' :
  does (syscall c err f) m x m' → x = err ∧ m' = m ∧ mayFail c ∨ (x, m') = f m.
Proof.
  intros (w & w' & H). unfold syscall, act in H. simpl in H. destruct (fw_fails c w) as [[] w1] eqn:E.
  - injection H as <- <- <-. left. split_and!; try done. exists w. by rewrite E.
  - right. destruct (f m) as [y m1]. by injection H as <- <- <-.
Qed.

Lemma does_on_err {E A} (p : P (option E)) (h : E → P A) k m x m' :
  does (on_err p h k) m x m' → ∃ r m1, does p m r m1 ∧ match r with Some e => does (h e) m1 x m' | None => does k m1 x m' end.
Proof. intros ([e|] & m1 & Hp & Hk)%does_bind; by eexists _, m1. Qed.

Lemma does_descriptor c m x m' : does (descriptor c) m x m' → m' = m.
Proof. intros [(_ & -> & _)|H]%does_syscall; [done |]. by injection H. Qed.

Lemma does_lstat path m x m' :
  does (lstat path) m x m' → m' = m ∧ match x with inr f => m !! path = Some f | inl None => m !! path = None | _ => True end.
Proof.
  intros [(-> & -> & _)|H]%does_syscall; [done |]. injection H as -> ->. split; [done |]. by destruct (m !! path).
Qed.

Lemma does_remove path m x m' :
  does (osRemove path) m x m' →
  (x = None → m' = delete path m) ∧ (m' = m ∨ m' = delete path m) ∧ (¬ mayFail SRemove → m' = delete path m).
Proof.
  intros [(-> & -> & Hf)|H]%does_syscall; [by split_and!; try (by left); intros ? |].
  destruct (m !! path) eqn:E; injection H as -> ->; [by split_and!; try right |].
  split_and!; [done | by left |]. intros _. by rewrite delete_id.
Qed.

Lemma does_rename from to m x m' :
  does (rename from to) m x m' →
  (x = None → ∃ f, m !! from = Some f ∧ m' = <[to := f]> (delete from m))
  ∧ (x ≠ None → m' = m)
  ∧ (¬ mayFail SRename → is_Some (m !! from) → x = None).
Proof.
  intros [(-> & -> & Hf)|H]%does_syscall; [by split_and! |].
  destruct (m !! from) as [f|] eqn:E; injection H as -> ->; split_and!; try done; try (by eexists); by intros _ [].
Qed.

(** A new file has a name that no file had. *)
Lemma does_createTemp directory prefix m x m' :
  does (createTemp directory prefix) m x m' →
  match x with
  | None => m' = m
  | Some path => m !! path = None ∧ m' = <[path := mkFile Regular 384 ""]> m
                 ∧ ∃ random, path = directory +:+ "/" +:+ prefix +:+ random
  end.
Proof.
  intros (random & m1 & ->%does_ask & H)%does_bind. apply does_syscall in H as [(-> & -> & _)|H]; [done |].
  destruct (m !! _) eqn:E; injection H as -> ->; [done |]. split_and!; [done | done | by exists random].
Qed.

Lemma does_chmod path mode f m x m' :
  m !! path = Some f → does (chmod path mode) m x m' →
  (x = None → m' = <[path := mkFile (f_Kind f) mode (f_Data f)]> m) ∧ (m' = m ∨ m' = <[path := mkFile (f_Kind f) mode (f_Data f)]> m).
Proof.
  intros Hf [(-> & -> & _)|H]%does_syscall; [by split; [|left] |]. rewrite Hf in H. injection H as -> ->. by split; [|right].
Qed.

Lemma does_write path contents f m x m' :
  m !! path = Some f → does (write path contents) m x m' →
  ∃ data, m' = <[path := mkFile (f_Kind f) (f_Mode f) (f_Data f +:+ data)]> m ∧ (x = true → data = contents).
Proof.
  intros Hf (part & m1 & ->%does_ask & w & w' & H)%does_bind. unfold act in H. simpl in H.
  destruct (fw_fails SWrite w) as [bad w1]. rewrite Hf in H. injection H as <- <- <-.
  eexists. split; [done |]. by destruct bad.
Qed.

(** * One credential file *)

Context (directory : string).

(** Nothing but [path] changes, apart from files that are left in [directory] under new
    temporary names. *)
Definition onlyAt (path : string) (m m' : gmap string file) : Prop :=
  ∀ q, q ≠ path → (∀ f, m !! q = Some f → m' !! q = Some f) ∧ (¬ temporaryPath directory q → m' !! q = m !! q).

Lemma onlyAt_same path m : onlyAt path m m.
Proof. by intros q _. Qed.

Lemma onlyAt_insert path f m : onlyAt path m (<[path := f]> m).
Proof. intros q Hq. by rewrite lookup_insert_ne. Qed.

Lemma onlyAt_temporary path tmp f m : temporaryPath directory tmp → m !! tmp = None → onlyAt path m (<[tmp := f]> m).
Proof.
  intros Ht Hm q _. split.
  - intros g Hg. rewrite lookup_insert_ne; [done | congruence].
  - intros Hq. rewrite lookup_insert_ne; [done | by intros ->].
Qed.

Definition secretFile (contents : string) : file := mkFile Regular 384 contents.

(** The steps between the creation of the temporary file and its removal. *)
Lemma installs tmp target contents m x m' :
  m !! tmp = None → tmp ≠ target →
  does (secured ← chmod tmp 384;
        match secured : option error with
        | Some _ => _ ← descriptor SClose; mret (failed "secure temporary credential file")
        | None =>
          written ← write tmp contents;
          if negb written then _ ← descriptor SClose; mret (failed "write credential file")
          else
          synced ← descriptor SSync;
          if negb synced then _ ← descriptor SClose; mret (failed "sync credential file")
          else
          closed ← descriptor SClose;
          if negb closed then mret (failed "close credential file")
          else
          renamed ← rename tmp target;
          match renamed : option error with
          | Some _ => mret (failed "install credential file")
          | None =>
            moded ← chmod target 384;
            mret (match moded : option error with Some _ => failed "secure credential file" | None => None end)
          end
        end) (<[tmp := secretFile ""]> m) x m' →
  m' = <[target := secretFile contents]> m ∨ x ≠ None ∧ ∃ f, m' = <[tmp := f]> m.
Proof.
  intros Hm Hne (secured & m1 & H1 & H)%does_bind.
  apply (does_chmod _ _ (secretFile "")) in H1 as [_ H1]; [|by rewrite lookup_insert_eq].
  assert (m1 = <[tmp := secretFile ""]> m) as -> by (destruct H1 as [->| ->]; [done | by rewrite insert_insert_eq]). clear H1.
  destruct secured as [e|].
  { apply does_bind in H as (? & ? & ->%does_descriptor & [-> ->]%does_ret). right. split; [done | by eexists]. }
  apply does_bind in H as (written & m2 & H2 & H).
  apply (does_write _ _ (secretFile "")) in H2 as (data & -> & Hdata); [|by rewrite lookup_insert_eq].
  rewrite insert_insert_eq in H. cbn [f_Kind f_Mode f_Data secretFile] in H.
  destruct written; cbn [negb] in H.
  2: { apply does_bind in H as (? & ? & ->%does_descriptor & [-> ->]%does_ret). right. split; [done | by eexists]. }
  rewrite (Hdata eq_refl) in H. clear Hdata. cbn [String.append] in H. fold (secretFile contents) in H.
  apply does_bind in H as (synced & ? & ->%does_descriptor & H). destruct synced; cbn [negb] in H.
  2: { apply does_bind in H as (? & ? & ->%does_descriptor & [-> ->]%does_ret). right. split; [done | by eexists]. }
  apply does_bind in H as (closed & ? & ->%does_descriptor & H). destruct closed; cbn [negb] in H.
  2: { apply does_ret in H as [-> ->]. right. split; [done | by eexists]. }
  apply does_bind in H as (renamed & m3 & (Hok & Hbad & _)%does_rename & H). destruct renamed as [e|].
  { apply does_ret in H as [-> ->]. right. split; [done |]. rewrite Hbad by done. by eexists. }
  destruct (Hok eq_refl) as (f & Hf & ->). rewrite lookup_insert_eq in Hf. injection Hf as <-.
  rewrite delete_insert_id in H by done.
  apply does_bind in H as (moded & m4 & H4 & [-> ->]%does_ret).
  apply (does_chmod _ _ (secretFile contents)) in H4 as [_ H4]; [|by rewrite lookup_insert_eq].
  left. destruct H4 as [->| ->]; [done | by rewrite insert_insert_eq].
Qed.

Lemma writeSecretFile_does target contents m x m' :
  ¬ temporaryPath directory target →
  does (writeSecretFile directory target contents) m x m' →
  onlyAt target m m' ∧ (x = None → m' !! target = Some (secretFile contents)).
Proof.
  intros Ht (tmp & m1 & H1%does_createTemp & H)%does_bind. destruct tmp as [tmp|].
  2: { apply does_ret in H as [-> ->]. subst m1. split; [apply onlyAt_same | done]. }
  destruct H1 as (Hfresh & -> & random & Hpath).
  assert (Htmp : temporaryPath directory tmp) by (exists random; by left).
  assert (Hne : tmp ≠ target) by (by intros ->).
  apply does_bind in H as (err & m2 & H2 & H). apply does_bind in H as (r & m3 & (_ & Hr & _)%does_remove & [-> ->]%does_ret).
  apply installs in H2 as [->|[Herr [f ->]]]; [| |done|done].
  - assert (m3 = <[target := secretFile contents]> m) as ->.
    { destruct Hr as [->| ->]; [done |]. rewrite delete_id; [done |]. by rewrite lookup_insert_ne. }
    split; [apply onlyAt_insert | by rewrite lookup_insert_eq].
  - split; [|done]. destruct Hr as [->| ->]; [by apply onlyAt_temporary |].
    rewrite delete_insert_id by done. apply onlyAt_same.
Qed.

(** A backup of a file: the file moved to a new temporary name. *)
Lemma backupCredentialFile_does target m x m' :
  ¬ temporaryPath directory target →
  does (backupCredentialFile directory target) m x m' →
  onlyAt target m m'
  ∧ match x with
    | inl _ => m' !! target = m !! target
    | inr backup =>
        m' !! target = None
        ∧ (backup = "" ∧ m !! target = None
           ∨ temporaryPath directory backup ∧ m !! backup = None ∧ is_Some (m !! target) ∧ m' !! backup = m !! target)
    end.
Proof.
  intros Ht (found & m1 & [-> Hfound]%does_lstat & H)%does_bind. destruct found as [[err|]|f].
  1: apply does_ret in H as [-> ->]; split; [apply onlyAt_same | done].
  1: apply does_ret in H as [-> ->]; split; [apply onlyAt_same | split; [done | by left]].
  apply does_bind in H as (tmp & m2 & H2%does_createTemp & H). destruct tmp as [tmp|].
  2: { apply does_ret in H as [-> ->]. subst m2. split; [apply onlyAt_same | done]. }
  destruct H2 as (Hfresh & -> & random & Hpath).
  assert (Htmp : temporaryPath directory tmp) by (exists random; by right).
  assert (Hne : tmp ≠ target) by (by intros ->).
  assert (Hleft : ∀ g, onlyAt target m (<[tmp := g]> m) ∧ <[tmp := g]> m !! target = m !! target).
  { intros g. split; [by apply onlyAt_temporary | by rewrite lookup_insert_ne]. }
  apply does_bind in H as (closed & ? & ->%does_descriptor & H). destruct closed; cbn [negb] in H.
  2: { apply does_ret in H as [-> ->]. apply Hleft. }
  apply does_bind in H as (removed & m3 & (Hrok & Hr & _)%does_remove & H). destruct removed as [err|].
  { apply does_ret in H as [-> ->]. destruct Hr as [->| ->]; [apply Hleft |].
    rewrite delete_insert_id by done. split; [apply onlyAt_same | done]. }
  rewrite (Hrok eq_refl), delete_insert_id in H by done. clear Hrok Hr m3.
  apply does_bind in H as (renamed & m4 & (Hok & Hbad & _)%does_rename & [-> ->]%does_ret).
  destruct renamed as [err|]; [rewrite Hbad by done; split; [apply onlyAt_same | done] |].
  destruct (Hok eq_refl) as (g & Hg & ->). split_and!.
  - intros q Hq. split.
    + intros h Hh. rewrite lookup_insert_ne by congruence. by rewrite lookup_delete_ne.
    + intros Hnt. rewrite lookup_insert_ne by (by intros ->). by rewrite lookup_delete_ne.
  - rewrite lookup_insert_ne by done. apply lookup_delete_eq.
  - right. rewrite lookup_insert_eq, Hg. split_and!; [done | done | by eexists | done].
Qed.

(** Putting a file back: it is where it was, or still in its backup. *)
Lemma restoreCredentialFile_does target backup m x m' :
  does (restoreCredentialFile target backup) m x m' →
  (∀ q, q ≠ target → q ≠ backup → m' !! q = m !! q)
  ∧ (backup ≠ "" → backup ≠ target → is_Some (m !! backup) →
     (m' !! target = m !! backup ∨ m' !! backup = m !! backup)
     ∧ (¬ mayFail SRename → m' !! target = m !! backup))
  ∧ (backup = "" → ¬ mayFail SRemove → m' !! target = None).
Proof.
  intros (removed & m1 & (_ & Hr & Hsure)%does_remove & H)%does_bind.
  destruct (String.eqb_spec backup "") as [->|Hne].
  - apply does_ret in H as [_ ->]. split_and!; [| done |].
    + intros q Hq _. destruct Hr as [->| ->]; [done | by rewrite lookup_delete_ne].
    + intros _ Hrel. rewrite (Hsure Hrel). apply lookup_delete_eq.
  - apply does_bind in H as (renamed & m2 & (Hok & Hbad & Hrel)%does_rename & [_ ->]%does_ret).
    assert (Hm1 : ∀ q, q ≠ target → m1 !! q = m !! q).
    { intros q Hq. destruct Hr as [->| ->]; [done | by rewrite lookup_delete_ne]. }
    split_and!; [| | done].
    + intros q Hq Hb. destruct renamed as [err|]; [by rewrite Hbad, Hm1 |].
      destruct (Hok eq_refl) as (f & _ & ->). by rewrite lookup_insert_ne, lookup_delete_ne, Hm1.
    + intros _ Hb Hsome. split.
      * destruct renamed as [err|]; [right; by rewrite Hbad, Hm1 |].
        destruct (Hok eq_refl) as (f & Hf & ->). left. by rewrite lookup_insert_eq, <- Hf, Hm1.
      * intros Hn. rewrite Hm1 in Hrel by done. destruct (Hok (Hrel Hn Hsome)) as (f & Hf & ->).
        by rewrite lookup_insert_eq, <- Hf, Hm1.
Qed.

(** * Both files *)

(** No call that puts a backup back fails. *)
Definition reliable : Prop := ¬ mayFail SRename ∧ ¬ mayFail SRemove.

(** [backup] holds what [m] has at [path], or is empty when it has nothing. *)
Definition backed (path backup : string) (m now : gmap string file) : Prop :=
  backup = "" ∧ m !! path = None
  ∨ temporaryPath directory backup ∧ is_Some (m !! path) ∧ now !! backup = m !! path.

(** What [m] has at [path] is there again, or still in its backup. *)
Definition restored (path backup : string) (m m' : gmap string file) : Prop :=
  (∀ f, m !! path = Some f → m' !! path = Some f ∨ m' !! backup = Some f) ∧ (reliable → m' !! path = m !! path).

Lemma restored_agree path backup m m1 m2 :
  m2 !! path = m1 !! path → m2 !! backup = m1 !! backup → restored path backup m m1 → restored path backup m m2.
Proof. intros H1 H2 [Ha Hb]. split; [intros f Hf; rewrite H1, H2; auto | intros Hr; rewrite H1; auto]. Qed.

Lemma backed_agree path backup m m1 m2 : m2 !! backup = m1 !! backup → backed path backup m m1 → backed path backup m m2.
Proof. intros Heq [H|(Ht & Hs & Hb)]; [by left | right]. split_and!; [done | done | by rewrite Heq]. Qed.

Lemma restore_backed path backup m m3 x m4 :
  ¬ temporaryPath directory path → backed path backup m m3 → does (restoreCredentialFile path backup) m3 x m4 →
  restored path backup m m4 ∧ (∀ q, q ≠ path → q ≠ backup → m4 !! q = m3 !! q).
Proof.
  intros Ht Hb (Hsame & Hback & Hnone)%restoreCredentialFile_does. split; [|done].
  destruct Hb as [[-> Hm]|(Htb & Hs & Hb)].
  - split; [by rewrite Hm |]. intros [_ Hr]. by rewrite Hnone, Hm.
  - destruct Hback as [Hor Hrel]; [by eapply temporary_nonempty | by intros -> | by rewrite Hb |].
    split.
    + intros f Hf. rewrite Hb, Hf in Hor. done.
    + intros [Hr _]. by rewrite (Hrel Hr), Hb.
Qed.

Definition keyPath : string := directory +:+ "/" +:+ keyName.
Definition envPath : string := directory +:+ "/" +:+ envName.

Lemma keyPath_plain : ¬ temporaryPath directory keyPath.
Proof. apply not_temporary. intros rest [=]. Qed.
Lemma envPath_plain : ¬ temporaryPath directory envPath.
Proof. apply not_temporary. intros rest [=]. Qed.
Lemma paths_differ : keyPath ≠ envPath.
Proof. intros H. by apply append_inj, append_inj in H. Qed.
Lemma paths_nonempty : keyPath ≠ "" ∧ envPath ≠ "".
Proof. unfold keyPath, envPath. by destruct directory. Qed.

(** The two files after a failure, each restored, and nothing else changed. *)
Definition rolledBack (m m' : gmap string file) : Prop :=
  (∃ kb, restored keyPath kb m m') ∧ (∃ eb, restored envPath eb m m')
  ∧ ∀ q, q ≠ keyPath → q ≠ envPath → ¬ temporaryPath directory q → q ≠ "" → m' !! q = m !! q.

(** What is known between the backups and the end. *)
Record swapping (kb eb : string) (m now : gmap string file) : Prop := mkSwapping {
  sw_key : backed keyPath kb m now;
  sw_env : backed envPath eb m now;
  sw_apart : kb = eb → kb = "";
  sw_rest : ∀ q, q ≠ keyPath → q ≠ envPath → ¬ temporaryPath directory q → now !! q = m !! q
}.

Lemma backed_path path backup m now q :
  backed path backup m now → ¬ temporaryPath directory q → q ≠ "" → backup ≠ q.
Proof. intros [[-> _]|[Ht _]] Hq Hne; [done | by intros ->]. Qed.

(** Writing at one of the two paths keeps the backups. *)
Lemma swapping_onlyAt kb eb m now now' path :
  swapping kb eb m now → path = keyPath ∨ path = envPath → onlyAt path now now' → swapping kb eb m now'.
Proof.
  intros [Hk He Ha Hr] Hpath Hat.
  assert (Hplain : ¬ temporaryPath directory path) by (destruct Hpath as [->| ->]; [apply keyPath_plain | apply envPath_plain]).
  assert (Hkeep : ∀ p b, backed p b m now → backed p b m now').
  { intros p b [H|(Ht & Hs & Hb)]; [by left | right]. split_and!; [done | done |]. destruct Hs as [f Hf].
    rewrite Hf in Hb |- *. apply (Hat b); [by intros -> | done]. }
  split; [by apply Hkeep | by apply Hkeep | done |].
  intros q Hq1 Hq2 Hq3. rewrite <- Hr by done. apply (Hat q); [by destruct Hpath as [->| ->] | done].
Qed.

Lemma rollback_does kb eb m now (err : option error) x m' :
  swapping kb eb m now →
  does (_ ← restoreCredentialFile keyPath kb; _ ← restoreCredentialFile envPath eb; mret err) now x m' →
  x = err ∧ rolledBack m m'.
Proof.
  intros [Hk He Ha Hr] (? & m1 & H1 & (? & m2 & H2 & [-> ->]%does_ret)%does_bind)%does_bind. split; [done |].
  pose proof keyPath_plain as Kp. pose proof envPath_plain as Ep. pose proof paths_differ as Hd.
  destruct paths_nonempty as [Hkne Hene].
  destruct (restore_backed _ _ _ _ _ _ Kp Hk H1) as [R1 S1].
  assert (He1 : backed envPath eb m m1).
  { destruct He as [He|(Ht & Hs & Hb)]; [by left | right]. split_and!; [done | done |].
    rewrite S1; [done | by intros -> |]. intros ->. eapply temporary_nonempty; [exact Ht | by apply Ha]. }
  destruct (restore_backed _ _ _ _ _ _ Ep He1 H2) as [R2 S2].
  assert (Hkb : kb ≠ envPath) by (by eapply backed_path). assert (Heb : eb ≠ keyPath) by (by eapply backed_path).
  split_and!.
  - destruct (String.eqb_spec kb eb) as [Heq|Hne].
    + specialize (Ha Heq). subst eb kb. destruct Hk as [[_ Hm]|[Ht _]]; [|by eapply temporary_nonempty in Ht].
      exists "". split; [by rewrite Hm |]. intros Hrel. rewrite S2 by done. by apply R1.
    + exists kb. eapply restored_agree; [apply S2 | apply S2 | exact R1]; done.
  - by exists eb.
  - intros q Hq1 Hq2 Hq3 Hq4. rewrite S2, S1, Hr; try done.
    + intros ->. by eapply backed_path in Hk.
    + intros ->. by eapply backed_path in He.
Qed.

Lemma swapFiles_does c m x m' :
  does (swapFiles directory c) m x m' →
  match x with
  | None => m' !! keyPath = Some (secretFile (cr_PrivateKey c)) ∧ m' !! envPath = Some (secretFile (envContents c))
            ∧ ∀ q, q ≠ keyPath → q ≠ envPath → ¬ temporaryPath directory q → q ≠ "" → m' !! q = m !! q
  | Some _ => rolledBack m m'
  end.
Proof.
  pose proof keyPath_plain as Kp. pose proof envPath_plain as Ep. pose proof paths_differ as Hd.
  destruct paths_nonempty as [Hkne Hene].
  unfold swapFiles. fold keyPath envPath.
  intros (kb & m1 & [O1 B1]%backupCredentialFile_does & H)%does_bind; [|done].
  destruct kb as [err|kb].
  { apply does_ret in H as [-> ->]. split_and!.
    - exists "". split; [intros f Hf; left; by rewrite B1 | by intros _].
    - exists "". assert (Hsame : m1 !! envPath = m !! envPath) by (by apply (O1 envPath)).
      split; [intros f Hf; left; by rewrite Hsame | by intros _].
    - intros q Hq _ Hq3 _. by apply (O1 q). }
  destruct B1 as [Bk1 Bk2].
  assert (Hkey : backed keyPath kb m m1).
  { destruct Bk2 as [[-> Hm]|(Ht & _ & Hs & Hb)]; [by left | by right]. }
  assert (Hkb : kb = "" ∨ is_Some (m1 !! kb)) by (destruct Hkey as [[-> _]|(_ & Hs & Hb)]; [by left | right; by rewrite Hb]).
  apply does_bind in H as (eb & m2 & [O2 B2]%backupCredentialFile_does & H); [|done].
  assert (Hkb2 : m2 !! kb = m1 !! kb ∨ kb = "").
  { destruct Hkb as [->|[f Hf]]; [by right | left]. rewrite Hf. apply (O2 kb); [|done].
    destruct Hkey as [[-> _]|[Ht _]]; [done | by intros ->]. }
  assert (Hkey2 : backed keyPath kb m m2).
  { destruct Hkb2 as [Heq| ->]; [by eapply backed_agree |]. destruct Hkey as [H0|[Ht _]]; [by left | by eapply temporary_nonempty in Ht]. }
  destruct eb as [err|eb].
  { apply does_bind in H as (? & m3 & H3 & [-> ->]%does_ret).
    destruct (restore_backed _ _ _ _ _ _ Kp Hkey2 H3) as [R S].
    assert (Hkbe : kb ≠ envPath) by (by eapply backed_path). split_and!; [by exists kb | |].
    - exists "". assert (Hsame : m3 !! envPath = m !! envPath).
      { rewrite S, B2 by done. by apply (O1 envPath). }
      split; [intros f Hf; left; by rewrite Hsame | by intros _].
    - intros q Hq1 Hq2 Hq3 Hq4. rewrite S; [| done | by intros ->; eapply backed_path in Hkey2].
      rewrite (proj2 (O2 q Hq2) Hq3). by apply (O1 q). }
  destruct B2 as [Be1 Be2].
  assert (Hm1e : m1 !! envPath = m !! envPath) by (by apply (O1 envPath)).
  assert (Hsw : swapping kb eb m m2).
  { split; [done | | |].
    - destruct Be2 as [[-> Hm]|(Ht & _ & Hs & Hb)]; rewrite Hm1e in *; [by left | by right].
    - intros ->. destruct Be2 as [[-> _]|(_ & Hfresh & _)]; [done |]. destruct Hkb as [Hk0|[f Hf]]; congruence.
    - intros q Hq1 Hq2 Hq3. rewrite (proj2 (O2 q Hq2) Hq3). by apply (O1 q). }
  clear O1 O2 Bk1 Bk2 Be1 Be2 Hkey Hkb Hkb2 Hkey2 Hm1e m1.
  apply does_bind in H as (wk & m3 & [O3 W3]%writeSecretFile_does & H); [|done].
  apply (swapping_onlyAt _ _ _ _ m3 keyPath) in Hsw; [|by left|done].
  destruct wk as [err|].
  { destruct (rollback_does _ _ _ _ _ _ _ Hsw H) as [-> Hrb]. done. }
  apply does_bind in H as (we & m4 & [O4 W4]%writeSecretFile_does & H); [|done].
  apply (swapping_onlyAt _ _ _ _ m4 envPath) in Hsw; [|by right|done].
  destruct we as [err|].
  { destruct (rollback_does _ _ _ _ _ _ _ Hsw H) as [-> Hrb]. done. }
  apply does_bind in H as (? & m5 & (_ & R5 & _)%does_remove & (? & m6 & (_ & R6 & _)%does_remove & [-> ->]%does_ret)%does_bind).
  destruct Hsw as [Hk He Ha Hr].
  assert (Hsame : ∀ q, kb ≠ q → eb ≠ q → m6 !! q = m4 !! q).
  { intros q Hq1 Hq2. transitivity (m5 !! q).
    - destruct R6 as [->| ->]; [done | by rewrite lookup_delete_ne].
    - destruct R5 as [->| ->]; [done | by rewrite lookup_delete_ne]. }
  assert (Hplain : ∀ q, ¬ temporaryPath directory q → q ≠ "" → m6 !! q = m4 !! q).
  { intros q Hq Hne. apply Hsame; by eapply backed_path. }
  split_and!.
  - rewrite Hplain by done. destruct (O4 keyPath) as [Hkeep _]; [done |]. by apply Hkeep, W3.
  - rewrite Hplain by done. by apply W4.
  - intros q Hq1 Hq2 Hq3 Hq4. rewrite Hplain by done. by apply Hr.
Qed.

(** * The ignore file *)

Lemma splitOn_both sep (a b : string) : splitOn sep (a +:+ String sep b) = (splitOn sep a ++ splitOn sep b)%list.
Proof.
  induction a as [|c a IH]; cbn [String.append splitOn].
  - by rewrite Ascii.eqb_refl.
  - destruct (Ascii.eqb c sep); [by rewrite IH |]. rewrite IH.
    destruct (splitOn sep a) as [|part parts] eqn:E; [|done]. destruct a as [|d a]; [done |].
    cbn [splitOn] in E. destruct (Ascii.eqb d sep); [done |]. by destruct (splitOn sep a).
Qed.

(** A line of its own, as a pattern of an ignore file. *)
Definition plainEntry (e : string) : Prop := containsByte (ascii_of_nat 10) e = false ∧ TrimSpace e = e ∧ e ≠ "".

Lemma endsInNewline_split s : endsInNewline s = true → ∃ a, s = a +:+ newline.
Proof.
  unfold endsInNewline. destruct (String.get (String.length s - 1) s) as [c|] eqn:E; [|done].
  intros Hc%Ascii.eqb_eq. subst c. revert E. induction s as [|c s IH]; [done |].
  destruct s as [|d s].
  - intros [= ->]. by exists "".
  - intros E. destruct IH as [a Ha]; [|exists (String c a); by rewrite Ha].
    cbn [String.length] in *. replace (S (S (String.length s)) - 1)%nat with (S (S (String.length s) - 1)) in E by lia. done.
Qed.

Lemma concat_lines (es : list string) e :
  e ∈ es → containsByte (ascii_of_nat 10) e = false →
  e ∈ splitOn (ascii_of_nat 10) (String.concat "" (map (λ e, e +:+ newline) es)).
Proof.
  assert (Hcons : ∀ x l, String.concat "" (map (λ e, e +:+ newline) (x :: l))
                         = x +:+ String (ascii_of_nat 10) (String.concat "" (map (λ e, e +:+ newline) l))).
  { intros x l. destruct l; cbn [map String.concat]; [done |]. cbn [String.append]. by rewrite append_assoc. }
  induction es as [|x es IH]; [by intros ?%not_elem_of_nil |]. rewrite Hcons, splitOn_both.
  intros [->|Hin]%elem_of_cons Hp; apply elem_of_app; [left | right; auto].
  rewrite splitOn_none by done. apply list_elem_of_here.
Qed.

Lemma additions_listed contents entries e :
  e ∈ entries → plainEntry e → e ∈ trimmedLines (contents +:+ additions contents entries).
Proof.
  intros Hin (Hline & Htrim & Hne). unfold additions, trimmedLines.
  set (more := String.concat "" _).
  assert (Hmore : e ∉ trimmedLines contents → e ∈ splitOn (ascii_of_nat 10) more).
  { intros Hnew. apply concat_lines; [|done]. apply elem_of_keep. split; [done |].
    by rewrite bool_decide_eq_false_2. }
  assert (Hpick : ∀ l, e ∈ l → e ∈ map TrimSpace l).
  { intros l Hl. rewrite <- Htrim. by apply list_elem_of_fmap_2. }
  assert (Hdec : e ∈ trimmedLines contents ∨ e ∉ trimmedLines contents) by (destruct (decide (e ∈ trimmedLines contents)); auto).
  destruct (String.eqb_spec contents "") as [->|Hc]; cbn [negb andb].
  { cbn [String.append]. apply Hpick. destruct Hdec as [Hold|Hnew]; [|by apply Hmore].
    by apply list_elem_of_singleton in Hold. }
  destruct (endsInNewline contents) eqn:Eend; cbn [negb].
  - destruct (endsInNewline_split _ Eend) as [a ->]. cbn [String.append]. rewrite append_assoc.
    change (newline +:+ more) with (String (ascii_of_nat 10) more). rewrite splitOn_both, map_app. apply elem_of_app.
    destruct Hdec as [Hold|Hnew]; [|right; by apply Hpick, Hmore].
    unfold trimmedLines in Hold. change newline with (String (ascii_of_nat 10) "") in Hold.
    rewrite splitOn_both, map_app in Hold. apply elem_of_app in Hold as [Hold|Hold]; [by left |].
    by apply list_elem_of_singleton in Hold.
  - rewrite <- append_assoc, append_assoc. change (newline +:+ more) with (String (ascii_of_nat 10) more).
    rewrite splitOn_both, map_app. apply elem_of_app.
    destruct Hdec as [Hold|Hnew]; [by left | right; by apply Hpick, Hmore].
Qed.

Definition listed (path entry : string) (m : gmap string file) : Prop :=
  ∃ f, m !! path = Some f ∧ entry ∈ trimmedLines (f_Data f).

Lemma ensureGitignore_does path entries m x m' :
  does (ensureGitignore path entries) m x m' →
  (∀ q, q ≠ path → m' !! q = m !! q) ∧ (x = None → ∀ e, e ∈ entries → plainEntry e → listed path e m').
Proof.
  intros (contents & m1 & H1 & H)%does_bind.
  assert (m1 = m ∧ match contents with inl _ => True | inr t => t = match m !! path with Some f => f_Data f | None => "" end end)
    as [-> Hcontents].
  { apply does_syscall in H1 as [(-> & -> & _)|H1]; [done |].
    destruct (m !! path) as [f|]; [|by injection H1 as -> ->]. by destruct (bool_decide _); injection H1 as -> ->. }
  clear H1. destruct contents as [err|contents]; [by apply does_ret in H as [-> ->] |].
  apply does_bind in H as (found & m1 & [-> _]%does_lstat & H).
  destruct (match found with inr f => _ | inl _ => _ end); [by apply does_ret in H as [-> ->] |]. cbv zeta in H.
  assert (Hlisted : ∀ e, e ∈ entries → plainEntry e → e ∈ trimmedLines (contents +:+ additions contents entries))
    by (intros e He Hp; by apply additions_listed).
  destruct (String.eqb_spec (additions contents entries) "") as [Hnone|Hsome].
  { apply does_ret in H as [-> ->]. split; [done |]. intros _ e He Hp. specialize (Hlisted e He Hp).
    rewrite Hnone, append_nil in Hlisted. destruct (m !! path) as [f|] eqn:Ef; subst contents.
    - by exists f.
    - apply list_elem_of_singleton in Hlisted. by destruct Hp as (_ & _ & []). }
  apply does_bind in H as (opened & m2 & H2 & H). destruct opened; cbn [negb] in H.
  2: { apply does_ret in H as [-> ->]. apply does_syscall in H2 as [(_ & -> & _)|[=]]. done. }
  assert (Hm2 : (∀ q, q ≠ path → m2 !! q = m !! q) ∧ ∃ f, m2 !! path = Some f ∧ f_Data f = contents).
  { apply does_syscall in H2 as [([=] & _)|H2]. destruct (m !! path) as [f|] eqn:Ef; injection H2 as ->.
    - split; [done |]. by exists f.
    - split; [intros q Hq; by rewrite lookup_insert_ne |]. exists (mkFile Regular 420 ""). by rewrite lookup_insert_eq. }
  destruct Hm2 as [Hother (f & Hf & Hdata)].
  apply does_bind in H as (written & m3 & H3 & (? & ? & ->%does_descriptor & [-> ->]%does_ret)%does_bind).
  apply (does_write _ _ f) in H3 as (data & -> & Hall); [|done]. split.
  - intros q Hq. by rewrite lookup_insert_ne by done; apply Hother.
  - destruct written; [|done]. rewrite (Hall eq_refl), Hdata. intros _ e He Hp.
    eexists. rewrite lookup_insert_eq. split; [done | by apply Hlisted].
Qed.
End files.

(** * The whole store *)

Section store.
Context {W V : Type} `{!FileWorld W, !AppWorld V}.

Definition ignorePath (directory : string) : string := directory +:+ "/.gitignore".

Lemma secretDirectory_does directory m x m' :
  does (secretDirectory directory) m x m' →
  (∀ q, q ≠ directory → m' !! q = m !! q)
  ∧ (x = None → ∃ f, m' !! directory = Some f ∧ f_Kind f = Directory ∧ f_Mode f = 448).
Proof.
  intros (found & m1 & [-> Hfound]%does_lstat & (made & m2 & Hmade & H)%does_bind)%does_bind.
  assert (Hm2 : (∀ q, q ≠ directory → m2 !! q = m !! q)
                ∧ (made = None → ∃ f, m2 !! directory = Some f ∧ f_Kind f = Directory)).
  { destruct found as [[err|]|f].
    - by apply does_ret in Hmade as [-> ->].
    - apply does_syscall in Hmade as [(-> & -> & _)|Hm]; [done |]. rewrite Hfound in Hm. injection Hm as -> ->.
      split; [intros q Hq; by rewrite lookup_insert_ne |]. intros _. eexists. by rewrite lookup_insert_eq.
    - apply does_ret in Hmade as [-> ->]. split; [done |]. destruct (bool_decide_reflect (f_Kind f = Directory)); [|done].
      intros _. by exists f. }
  destruct Hm2 as [Hother Hdir]. destruct made as [err|]; [by apply does_ret in H as [-> ->] |].
  destruct (Hdir eq_refl) as (f & Hf & Hk). destruct (does_chmod _ _ f _ _ _ Hf H) as [Hok Hor]. split.
  - intros q Hq. destruct Hor as [->| ->]; [by apply Hother |]. rewrite lookup_insert_ne by done. by apply Hother.
  - intros Hx. rewrite (Hok Hx). eexists. by rewrite lookup_insert_eq.
Qed.

Lemma replaceable_does force targets m x m' : does (replaceable force targets) m x m' → m' = m.
Proof.
  revert m. induction targets as [|t ts IH]; intros m; [by intros [_ ->]%does_ret |].
  intros (found & m1 & [-> _]%does_lstat & H)%does_bind. destruct found as [[err|]|f].
  - by apply does_ret in H as [_ ->].
  - by apply IH.
  - destruct (negb _); [by apply does_ret in H as [_ ->] |]. destruct force; [by apply IH | by apply does_ret in H as [_ ->]].
Qed.

(** The credentials in place: for their owner only, in a directory that is closed to
    others and in which git ignores them. *)
Record credentialsStored (directory : string) (c : Credentials) (m' : gmap string file) : Prop := mkStored {
  st_key : m' !! keyPath directory = Some (secretFile (cr_PrivateKey c));
  st_env : m' !! envPath directory = Some (secretFile (envContents c));
  st_closed : ∃ f, m' !! directory = Some f ∧ f_Kind f = Directory ∧ f_Mode f = 448;
  st_ignored : listed (ignorePath directory) keyName m' ∧ listed (ignorePath directory) envName m'
}.

(** The credentials before are there again, or at least in a backup. *)
Definition credentialsKept (directory : string) (m m' : gmap string file) : Prop :=
  (∃ backup, restored (keyPath directory) backup m m') ∧ (∃ backup, restored (envPath directory) backup m m').

(** What a store may touch. *)
Definition storeTouches (directory path : string) : Prop :=
  path ∈ [directory; keyPath directory; envPath directory; ignorePath directory; ""] ∨ temporaryPath directory path.

Lemma credentialsKept_refl directory m m' :
  m' !! keyPath directory = m !! keyPath directory → m' !! envPath directory = m !! envPath directory →
  credentialsKept directory m m'.
Proof.
  intros Hk He. split; exists ""; (split; [intros f Hf; left |]); by rewrite ?Hk, ?He.
Qed.

Lemma longer_path directory name : name ≠ "" → directory ≠ directory +:+ name.
Proof.
  intros Hn H. apply (f_equal String.length) in H. rewrite length_append in H. destruct name; [done | cbn in H; lia].
Qed.

Lemma paths_of directory :
  keyPath directory ≠ directory ∧ envPath directory ≠ directory ∧ ignorePath directory ≠ directory
  ∧ ignorePath directory ≠ keyPath directory ∧ ignorePath directory ≠ envPath directory
  ∧ ¬ temporaryPath directory (ignorePath directory) ∧ ¬ temporaryPath directory directory.
Proof.
  assert (Hl : ∀ name, name ≠ "" → directory +:+ name ≠ directory) by (intros name Hn Heq; by apply (longer_path directory name)).
  split_and!; try (by apply Hl).
  - intros H. unfold ignorePath, keyPath in H. by apply append_inj in H.
  - intros H. unfold ignorePath, envPath in H. by apply append_inj in H.
  - change (ignorePath directory) with (directory +:+ "/" +:+ ".gitignore"). apply not_temporary. intros rest [=].
  - intros [random [H|H]]; by apply longer_path in H.
Qed.

Lemma names_plain : plainEntry keyName ∧ plainEntry envName.
Proof. split; (split; [reflexivity | split; [vm_compute; reflexivity | done]]). Qed.

Lemma fileStore_does force project c m x m' :
  does (fileStore force project c) m x m' →
  m' = m ∧ x ≠ None
  ∨ ∃ directory,
      (x = None → credentialsStored directory c m')
      ∧ (x ≠ None → credentialsKept directory m m')
      ∧ ∀ q, ¬ storeTouches directory q → m' !! q = m !! q.
Proof.
  intros (invalid & m1 & [-> ->]%does_ret & H)%does_on_err.
  destruct (validateCredentials c) as [err|] eqn:Ec; [apply does_ret in H as [-> ->]; by left |].
  apply does_bind in H as (root & m1 & ->%does_ask & H). destruct root as [err|root].
  { apply does_ret in H as [-> ->]. by left. }
  right. clear Ec. cbv zeta in H. set (d := root +:+ "/.runneryard") in H. exists d.
  destruct (paths_of d) as (Hk & He & Hi & Hik & Hie & Hit & Hdt). destruct (paths_nonempty d) as [Hkne Hene].
  assert (Hout : ∀ q, ¬ storeTouches d q →
            q ≠ d ∧ q ≠ keyPath d ∧ q ≠ envPath d ∧ q ≠ ignorePath d ∧ q ≠ "" ∧ ¬ temporaryPath d q).
  { intros q Hq. split_and!; intros Heq; apply Hq; [left; subst; set_solver.. | by right]. }
  apply does_on_err in H as (r1 & m1 & [Hd1 Hdir]%secretDirectory_does & H). destruct r1 as [err|].
  { apply does_ret in H as [-> ->]. split_and!; [done | intros _; apply credentialsKept_refl; by apply Hd1 |].
    intros q (Hq & _)%Hout. by apply Hd1. }
  apply does_on_err in H as (r2 & m2 & ->%replaceable_does & H). destruct r2 as [err|].
  { apply does_ret in H as [-> ->]. split_and!; [done | intros _; apply credentialsKept_refl; by apply Hd1 |].
    intros q (Hq & _)%Hout. by apply Hd1. }
  apply does_on_err in H as (r3 & m3 & [Hg1 Hlist]%ensureGitignore_does & H).
  assert (Hm3 : ∀ q, q ≠ d → q ≠ ignorePath d → m3 !! q = m !! q).
  { intros q Hq Hq2. rewrite Hg1 by done. by apply Hd1. }
  destruct r3 as [err|].
  { apply does_ret in H as [-> ->]. split_and!; [done | |].
    - intros _. by apply credentialsKept_refl; apply Hm3.
    - intros q (Hq & _ & _ & Hq2 & _)%Hout. by apply Hm3. }
  apply swapFiles_does in H. destruct x as [err|].
  - destruct H as ([kb Rk] & [eb Re] & Hsame). split_and!; [done | |].
    + intros _. assert (Ek : m3 !! keyPath d = m !! keyPath d) by (by apply Hm3).
      assert (Ee : m3 !! envPath d = m !! envPath d) by (by apply Hm3).
      split; [exists kb | exists eb]; unfold restored in *; [by rewrite <- Ek | by rewrite <- Ee].
    + intros q (Hq & Hq1 & Hq2 & Hq3 & Hq4 & Hq5)%Hout. rewrite Hsame by done. by apply Hm3.
  - destruct H as (Hkey & Henv & Hsame). split_and!; [| done |].
    + intros _.
      assert (Hdne : d ≠ "") by (unfold d; by destruct root).
      split; [done | done | |].
      * destruct (Hdir eq_refl) as (f & Hf & Hkind). exists f.
        rewrite Hsame, Hg1 by done. done.
      * assert (Hall : ∀ e, e ∈ [envName; keyName] → plainEntry e → listed (ignorePath d) e m').
        { intros e Hin Hp. destruct (Hlist eq_refl e Hin Hp) as (f & Hf & Hl). exists f.
          rewrite Hsame; [done | done | done | done |]. unfold ignorePath. by destruct d. }
        destruct names_plain as [Hpk Hpe].
        split; apply Hall; [apply list_elem_of_further, list_elem_of_here | done | apply list_elem_of_here | done].
    + intros q (Hq & Hq1 & Hq2 & Hq3 & Hq4 & Hq5)%Hout. rewrite Hsame by done. by apply Hm3.
Qed.

End store.

(** * A directory to store in *)

Module StoreDemo.

(** The world counts the system calls down to the one that fails, and the names up. *)
#[global] Instance countdown : FileWorld (nat * nat) := {|
  fw_fails _ w := (Nat.eqb w.1 1, (Nat.pred w.1, w.2));
  fw_partial w := (3%nat, w);
  fw_random w := (Itoa (Z.of_nat w.2), (w.1, S w.2));
  fw_project _ w := (inr "/p", w)
|}.

Definition old : gmap string file :=
  {["/p/.runneryard" := mkFile Directory 493 ""; "/p/.runneryard/github-app.pem" := mkFile Regular 384 "old key";
    "/p/.runneryard/github-app.env" := mkFile Regular 384 "old settings"; "/p/.runneryard/.gitignore" := mkFile Regular 420 "*.log"]}.
Definition fresh : Credentials := mkCredentials 7 "Iv1.abc" 42 "key" "app" "https://github.com/apps/app".

Definition at_ (path : string) (calls : nat) : option string :=
  f_Data <$> fs_files (execP (fileStore true "" fresh) (mkFileSys (calls, 0%nat) old)) !! ("/p/.runneryard/" +:+ path).

Example stored : (at_ "github-app.pem" 0, at_ ".gitignore" 0)
  = (Some "key", Some ("*.log" +:+ newline +:+ "github-app.env" +:+ newline +:+ "github-app.pem" +:+ newline)).
Proof. vm_compute. done. Qed.

(** Whichever of the first forty calls fails, the old key or the new one is there. *)
Example rolled_back :
  forallb (λ calls, match evalP (fileStore true "" fresh) (mkFileSys (calls, 0%nat) old) with
                    | Some _ => bool_decide (at_ "github-app.pem" calls = Some "old key" ∧ at_ "github-app.env" calls = Some "old settings")
                    | None => bool_decide (at_ "github-app.pem" calls = Some "key")
                    end) (seq 0 40) = true.
Proof. vm_compute. done. Qed.

Example refused : evalP (fileStore false "" fresh) (mkFileSys (0%nat, 0%nat) old) ≠ None.
Proof. vm_compute. done. Qed.
End StoreDemo.
