(* ===== verification/Fleet.v ===== *)
(** From the settings to a fleet (src/cmd/runneryard/config.go, pool_trust.go, the rest of pools.go and
    [serve] of main.go): the validation of the whole configuration, and the computes
    and the controller built from it. *)

From S2P Require Import Prelude Program Float64 GoStrings GoText GoNumbers GoPatterns Provider Retry PoolState.
From S2P Require Import GitHubApp HostAgent Placement CloudHTTP Registry Fly FlyHosts Hetzner HetznerHosts.
From S2P Require Import StaticHosts Controller Settings.

#[local] Open Scope string_scope.
#[local] Open Scope Z_scope.

(** * The whole configuration *)

(** [^[A-Za-z0-9](?:[A-Za-z0-9-]{0,38})$] and [^[A-Za-z0-9._-]{1,100}$] *)
Definition safeGitHubOwner : regexp := RCat (RClass alnum) (upTo 38 (RClass (λ c, alnum c || Ascii.eqb c "-"))).
Definition safeGitHubRepo : regexp := repeat_ 1 99 (RClass (λ c, alnum c || oneOf "._-" c)).

Fixpoint trimSlashes (s : string) : string :=
  match s with String "/" rest => trimSlashes rest | _ => TrimRightSlash s end.

Section fleet.
Context `{!SettingsEnv, !DefaultRunnerGroup, !ParseIP, !SSHKeys, !HostKeys}.

(** [normalizeGitHubConfigURL] of init.go: the canonical URL and the owner. *)
Definition normalizeGitHubConfigURL (raw : string) : string + string * string :=
  if String.eqb raw "" || negb (String.eqb (TrimSpace raw) raw)
  then inl "must be an https://github.com repository or organization URL without surrounding whitespace"
  else match se_ParseURL raw with
  | None => inl "must be an https://github.com repository or organization URL"
  | Some u =>
    if negb (String.eqb (pu_Scheme u) "https") || negb (String.eqb (ToLower (pu_Hostname u)) "github.com")
       || negb (String.eqb (pu_Port u) "")
    then inl "must be an https://github.com repository or organization URL"
    else if pu_HasUser u || negb (String.eqb (pu_RawQuery u) "") || negb (String.eqb (pu_Fragment u) "")
            || negb (String.eqb (pu_RawPath u) "")
    then inl "must not contain credentials, query parameters, fragments, or encoded path characters"
    else match splitOn "/" (trimSlashes (pu_Path u)) with
    | [owner] =>
      if MatchString safeGitHubOwner owner then inr ("https://github.com/" +:+ owner, owner)
      else inl "must contain one GitHub owner and at most one repository name"
    | [owner; repo] =>
      if negb (MatchString safeGitHubOwner owner)
      then inl "must contain one GitHub owner and at most one repository name"
      else if negb (MatchString safeGitHubRepo repo) then inl "contains an invalid GitHub repository name"
      else inr ("https://github.com/" +:+ owner +:+ "/" +:+ repo, owner)
    | _ => inl "must contain one GitHub owner and at most one repository name"
    end
  end.

Definition appValid (c : appConfig) : bool := bool_decide (se_AppValid (ac_GitHubApp c) = None).

(** The checks of [validate] before the pools, by provider. *)
Definition validateCompute (c : appConfig) : option string :=
  if String.eqb (ac_ComputeProvider c) "fly" then
    if String.eqb (ac_FlyAPIToken c) "" || String.eqb (ac_FlyWorkerApp c) "" || String.eqb (ac_FlyRegion c) ""
       || String.eqb (ac_RunnerImage c) ""
    then Some "fly adapter requires FLY_API_TOKEN, RUNNER_FLY_APP, RUNNER_FLY_REGION, and RUNNER_IMAGE"
    else if negb (String.eqb (ac_ControllerFlyApp c) "") && String.eqb (ac_ControllerFlyApp c) (ac_FlyWorkerApp c)
    then Some "controller and worker Fly apps must be different so app secrets cannot reach jobs"
    else None
  else if String.eqb (ac_ComputeProvider c) "hetzner" then
    if String.eqb (ac_HetznerAPIToken c) "" || String.eqb (ac_HetznerLocation c) ""
       || String.eqb (ac_HetznerServerType c) "" || String.eqb (ac_HetznerServerImage c) ""
       || (ac_HetznerFirewallID c <? 1) || String.eqb (ac_RunnerImage c) ""
    then Some "hetzner adapter requires HCLOUD_TOKEN and the RUNNER_HETZNER settings"
    else if ac_HetznerNetworkID c <? 0 then Some "RUNNER_HETZNER_NETWORK_ID cannot be negative"
    else None
  else if String.eqb (ac_ComputeProvider c) computeProviderNone then
    if bool_decide (ac_Pools c = None) then Some "COMPUTE_PROVIDER=none requires RUNNER_POOLS_FILE" else None
  else Some "unsupported COMPUTE_PROVIDER".

Definition validateIdentity (c : appConfig) : option string :=
  match normalizeGitHubConfigURL (ac_GitHubURL c) with
  | inl err => Some err
  | inr _ =>
    if String.eqb (ac_ScaleSetName c) "" || String.eqb (ac_ControllerID c) ""
    then Some "scale set name and controller ID are required"
    else if negb (String.eqb (ac_EphemeralScaleSetName c) "") && String.eqb (ac_EphemeralScaleSetName c) (ac_ScaleSetName c)
    then Some "EPHEMERAL_SCALE_SET_NAME must differ from SCALE_SET_NAME"
    else if negb (String.eqb (ac_EphemeralScaleSetName c) "") && String.eqb (ac_ComputeProvider c) computeProviderNone
    then Some "EPHEMERAL_SCALE_SET_NAME needs an ephemeral tier; COMPUTE_PROVIDER=none has none"
    else if String.eqb (ac_GitHubToken c) "" && negb (appValid c)
    then Some "provide GITHUB_TOKEN or complete GitHub App credentials"
    else if negb (String.eqb (ac_GitHubToken c) "") && appValid c
    then Some "provide either GITHUB_TOKEN or GitHub App credentials, not both"
    else None
  end.

(** The checks after the pools. *)
Definition validateLimits (c : appConfig) : option string :=
  if (ac_MinWorkers c <? 0) || (ac_MaxWorkers c <? 1) || (ac_MaxWorkers c <? ac_MinWorkers c)
  then Some "worker bounds must satisfy 0 <= MIN_RUNNERS <= MAX_RUNNERS and MAX_RUNNERS >= 1"
  else if (ac_RunnerMaxLifetime c <? Minute) || (24 * Hour <? ac_RunnerMaxLifetime c)
  then Some "RUNNER_MAX_LIFETIME must be between 1m and 24h"
  else if ac_RunnerUsageBudget c <? ac_RunnerMaxLifetime c
  then Some "RUNNER_USAGE_BUDGET must cover at least one RUNNER_MAX_LIFETIME"
  else if ac_RunnerBudgetWindow c <? Hour then Some "RUNNER_BUDGET_WINDOW must be at least 1h"
  else if String.eqb (ac_RunnerBudgetFile c) "" then Some "RUNNER_BUDGET_FILE must point to durable controller storage"
  else if String.eqb (ac_RunnerStatusFile c) "" || String.eqb (ac_RunnerStatusFile c) (ac_RunnerBudgetFile c)
  then Some "RUNNER_STATUS_FILE must be set and differ from RUNNER_BUDGET_FILE"
  else if (ac_ProviderRetries c <? 1) || (20 <? ac_ProviderRetries c)
  then Some "PROVIDER_RETRY_ATTEMPTS must be between 1 and 20"
  else if float_le (ac_ProviderRateLimit c) (float_of_int 0) || float_lt (float_of_int 100) (ac_ProviderRateLimit c)
  then Some "PROVIDER_RATE_LIMIT must be between 0 and 100 requests per second"
  else if float_lt (ac_GitHubAPIRateLimit c) (float_of_int 0) || float_lt (float_of_int 100) (ac_GitHubAPIRateLimit c)
  then Some "GITHUB_API_RATE_LIMIT must be between 0 and 100 requests per second"
  else if (ac_LaunchConcurrency c <? 1) || (64 <? ac_LaunchConcurrency c)
  then Some "RUNNER_LAUNCH_CONCURRENCY must be between 1 and 64"
  else if (ac_RunnerIdleTimeout c <? 0) || (0 <? ac_RunnerIdleTimeout c) && (ac_RunnerIdleTimeout c <? Minute)
          || (ac_RunnerMaxLifetime c <? ac_RunnerIdleTimeout c)
  then Some "RUNNER_IDLE_TIMEOUT must be 0 or between 1m and RUNNER_MAX_LIFETIME"
  else if (ac_DanglingTimeout c <? 0) || (0 <? ac_DanglingTimeout c) && (ac_DanglingTimeout c <? ac_RunnerIdleTimeout c)
          || (ac_RunnerMaxLifetime c <? ac_DanglingTimeout c)
  then Some "RUNNER_DANGLING_TIMEOUT must be 0 or between RUNNER_IDLE_TIMEOUT and RUNNER_MAX_LIFETIME"
  else if negb (String.eqb (ac_AlertWebhookURL c) "") && negb (HasPrefix (ac_AlertWebhookURL c) "https://")
  then Some "ALERT_WEBHOOK_URL must be an https URL"
  else None.

Definition withPoolsFile (c : appConfig) (f : option poolsFile) : appConfig :=
  mkAppConfig (ac_GitHubURL c) (ac_ScaleSetName c) (ac_RunnerGroup c) (ac_GitHubApp c)
    (ac_GitHubToken c) (ac_ComputeProvider c) (ac_ControllerID c) (ac_ControllerFlyApp c)
    (ac_FlyAPIToken c) (ac_FlyAPIBaseURL c) (ac_FlyWorkerApp c) (ac_FlyRegion c)
    (ac_PoolFlyAPIToken c) (ac_HetznerAPIToken c) (ac_HetznerAPIBaseURL c) (ac_HetznerLocation c)
    (ac_HetznerServerType c) (ac_HetznerServerImage c) (ac_HetznerFirewallID c) (ac_HetznerNetworkID c)
    (ac_RunnerImage c) (ac_MinWorkers c) (ac_MaxWorkers c) (ac_RunnerCPUs c) (ac_RunnerMemoryMB c)
    (ac_RunnerRootFSGB c) (ac_RunnerDockerDNS c) (ac_RunnerCPUKind c) (ac_RunnerMaxLifetime c)
    (ac_RunnerUsageBudget c) (ac_RunnerBudgetWindow c) (ac_RunnerBudgetFile c)
    (ac_RunnerStatusFile c) (ac_ProviderRetries c) (ac_ProviderRateLimit c) (ac_GitHubAPIRateLimit c)
    (ac_LaunchConcurrency c) (ac_RunnerIdleTimeout c) (ac_DanglingTimeout c) (ac_AlertWebhookURL c)
    (ac_PoolsFile c) f (ac_EphemeralScaleSetName c).

(** [appConfig.validate]: the configuration, with the defaults of its pools. *)
Definition validate (c : appConfig) : string + appConfig :=
  match validateIdentity c with
  | Some err => inl err
  | None =>
    match validateCompute c with
    | Some err => inl err
    | None =>
      let pools := match ac_Pools c with
        | None => inr None
        | Some f => match validatePoolsFile c f with inl err => inl err | inr f => inr (Some f) end
        end in
      match pools with
      | inl err => inl err
      | inr pools => match validateLimits c with Some err => inl err | None => inr (withPoolsFile c pools) end
      end
    end
  end.

Definition loadConfig : error + appConfig :=
  andThen readConfig (λ c, match validate c with inl err => inl (ErrorString err) | inr c => inr c end).

(** * What is built *)

(** [poolSource]: what the pool needs to know of its source. *)
Definition poolSource (c : appConfig) (p : poolConfig) (key : ControllerKey) : string + PoolState.Facts * bool :=
  if String.eqb (pc_Source p) poolSourceFly then
    match FlyHosts.NewHostSource (flySourceConfig c p (AuthorizedKey key)) with
    | inl err => inl err
    | inr source => inr (FlyHosts.Facts source, true)
    end
  else if String.eqb (pc_Source p) poolSourceHetzner then
    match HetznerHosts.NewHostSource (hetznerSourceConfig c p (AuthorizedKey key)) with
    | inl err => inl err
    | inr source => inr (HetznerHosts.Facts source, false)
    end
  else if String.eqb (pc_Source p) poolSourceStatic then
    match NewStaticSource (pc_Billing p) (pc_HourlyPrice p) (pc_Currency p) (pc_Hosts p) with
    | inl err => inl err
    | inr source => inr (ss_facts source, false)
    end
  else inl "unknown pool source".

Definition flyOnly (p : poolConfig) (z : Z) : Z := if String.eqb (pc_Source p) poolSourceFly then z else 0.

(** [pool.Config] of a pool; the durations that stay zero get their defaults there. *)
Definition poolSettings (c : appConfig) (p : poolConfig) (facts : PoolState.Facts) (stops : bool) (follow : option Tag)
    : PoolState.Config :=
  PoolState.mkConfig (pc_Name p) (ac_ControllerID c) (pc_RunnerImage p) (pc_MinHosts p) (pc_MaxHosts p) facts stops
    (Registry.Related <$> follow) 0 (ac_RunnerMaxLifetime c) 0 0 0 0 0 0 0 0
    (flyOnly p (pc_IdleStopAfter p)) (flyOnly p (keepStopped p)) (flyOnly p (pc_DeleteStoppedAfter p))
    (default true (pc_Speculative p)).

Definition newPoolOf (c : appConfig) (key : ControllerKey) (now : time) (p : poolConfig)
    : string + PoolState.Config * Pool :=
  match poolSource c p key with
  | inl err => inl err
  | inr (facts, stops) =>
    match follower c p with
    | inl _ => inl "fly pool runner_image"
    | inr follow =>
      match PoolState.New (poolSettings c p facts stops follow) now with
      | inl _ => inl "create pool"
      | inr created => inr created
      end
    end
  end.

Context {Σ : Type}.
(** An adapter, or a pool, as a compute. *)
Context (flyWorkers : Fly.Adapter → compute Σ) (hetznerWorkers : Hetzner.Adapter → compute Σ)
        (poolWorkers : PoolState.Config → Pool → compute Σ).

(** [ephemeralCompute]; [None] is the provider none. *)
Definition ephemeralCompute (c : appConfig) : string + option (compute Σ) :=
  if String.eqb (ac_ComputeProvider c) computeProviderNone then inr None
  else if String.eqb (ac_ComputeProvider c) "fly" then
    match Fly.New (Fly.mkConfig (ac_FlyAPIToken c) (ac_FlyAPIBaseURL c) (ac_FlyWorkerApp c) (ac_FlyRegion c)
                     (ac_RunnerImage c) (ac_ControllerID c) (ac_RunnerCPUKind c) (ac_RunnerCPUs c)
                     (ac_RunnerMemoryMB c) (ac_RunnerRootFSGB c) (ac_RunnerDockerDNS c) (retryPolicy c)) with
    | inl err => inl err
    | inr a => inr (Some (flyWorkers a))
    end
  else if String.eqb (ac_ComputeProvider c) "hetzner" then
    match Hetzner.New (Hetzner.mkConfig (ac_HetznerAPIToken c) (ac_HetznerAPIBaseURL c) (ac_HetznerLocation c)
                         (ac_HetznerServerType c) (ac_HetznerServerImage c) (ac_RunnerImage c) (ac_ControllerID c)
                         (ac_HetznerFirewallID c) (ac_HetznerNetworkID c) 0 0 (retryPolicy c)) with
    | inl err => inl err
    | inr a => inr (Some (hetznerWorkers a))
    end
  else inl "unsupported COMPUTE_PROVIDER".

(** The loop of [withPools]: every pool by its name. *)
Fixpoint createPools (c : appConfig) (key : ControllerKey) (now : time) (pools : list poolConfig)
    (computes : gmap string (compute Σ)) : string + gmap string (compute Σ) :=
  match pools with
  | [] => inr computes
  | p :: pools =>
    match newPoolOf c key now p with
    | inl err => inl err
    | inr (cfg, created) => createPools c key now pools (<[pc_Name p := poolWorkers cfg created]> computes)
    end
  end.

(** The compute of a name; Go's map gives nil for a name it does not hold, which
    [NewPlacement] refuses. *)
Definition tierOf (computes : gmap string (compute Σ)) (drain : bool) (name : string) : option (Tier Σ) :=
  (λ cm, mkTier name cm drain) <$> computes !! name.

Definition sortedNames (computes : gmap string (compute Σ)) : list string :=
  merge_sort str_le (map_to_list computes).*1.

(** The tiers: the placement in its order, then what it leaves out, draining. *)
Definition tiersOf (placement : list string) (computes : gmap string (compute Σ)) : option (list (Tier Σ)) :=
  listed ← mapM (tierOf computes false) placement;
  drained ← mapM (tierOf computes true) (List.filter (λ name, negb (bool_decide (name ∈ placement))) (sortedNames computes));
  Some (app listed drained).

Definition withPools (c : appConfig) (f : poolsFile) (ephemeral : option (compute Σ)) (now : time)
    : string + Placement Σ :=
  match se_ReadFile (pf_SSHKeyFile f) with
  | inl _ => inl "read pool SSH key"
  | inr contents =>
    match ParseControllerKey contents with
    | inl _ => inl "parse pool SSH key"
    | inr key =>
      match createPools c key now (pf_Pools f)
              (match ephemeral with Some cm => {[ephemeralTier := cm]} | None => ∅ end) with
      | inl err => inl err
      | inr computes =>
        match tiersOf (pf_Placement f) computes with
        | None => inl "invalid placement tier"
        | Some tiers => match NewPlacement tiers with inl _ => inl "placement" | inr p => inr p end
        end
      end
    end
  end.

(** [computes]: what the fleet launches through, and what the second scale set does. *)
Definition computes (c : appConfig) (now : time) : string + compute Σ * option (compute Σ) :=
  match ephemeralCompute c with
  | inl err => inl err
  | inr ephemeral =>
    match ac_Pools c with
    | None =>
      match ephemeral with
      | None => inl "GitHub and compute adapters are required"
      | Some cm => inr (cm, None)
      end
    | Some f =>
      match withPools c f ephemeral now with
      | inl err => inl err
      | inr placement =>
        if String.eqb (ac_EphemeralScaleSetName c) "" then inr (placementCompute placement, None)
        else match ephemeral with
        | None => inl "invalid placement tier"
        | Some cm =>
          match NewPlacement [mkTier ephemeralTier cm false] with
          | inl _ => inl "placement"
          | inr direct => inr (placementCompute placement, Some (placementCompute direct))
          end
        end
      end
    end
  end.

(** [serve] up to the run of the controller: its configuration and its computes. *)
Definition buildFleet (now : time) : string + Controller.Config * compute Σ * option (compute Σ) :=
  match loadConfig with
  | inl _ => inl "configuration"
  | inr c =>
    match computes c now with
    | inl err => inl err
    | inr (cm, direct) =>
      match Controller.New (controllerConfig c (bool_decide (is_Some direct))) true true with
      | inl _ => inl "create controller"
      | inr cfg => inr (cfg, cm, direct)
      end
    end
  end.
End fleet.

(** * Trust *)

Section trust.
Context {W : Type} `{!SettingsEnv, !AppWorld W, !AppJSON} (baseURL : string).
Abbreviation P := (prog (appSys W)).

(** The target of a canonical URL. *)
Definition poolTarget (canonical owner : string) : Target :=
  mkTarget canonical owner
    (match Cut "/" (TrimPrefix canonical "https://github.com/") with Some (_, repository) => repository | None => "" end) "".

Definition appCredentials (c : appConfig) : GitHubApp.Credentials :=
  mkCredentials 0 (ClientID (ac_GitHubApp c)) (InstallationID (ac_GitHubApp c)) (PrivateKey (ac_GitHubApp c)) "" "".

(** [checkPoolTrust] of pool_trust.go *)
Definition checkPoolTrust (c : appConfig) : P (option error) :=
  match normalizeGitHubConfigURL (ac_GitHubURL c) with
  | inl err => mret (Some (WrapError "GITHUB_CONFIG_URL" (ErrorString err)))
  | inr (canonical, owner) =>
    token ← (if String.eqb (ac_GitHubToken c) "" then InstallationToken baseURL (appCredentials c)
             else mret (inr (ac_GitHubToken c)));
    match token with
    | inl err => mret (Some err)
    | inr token =>
      err ← CheckPrivateTarget baseURL token (poolTarget canonical owner) (ac_RunnerGroup c);
      mret (match err : option error with Some err => Some (WrapError "pool hosts refused" err) | None => None end)
    end
  end.

(** [watchPoolTrust] over the ticks before the context ends: what stops the controller. *)
Fixpoint watchPoolTrust (ticks : nat) (c : appConfig) : P (option error) :=
  match ticks with
  | O => mret None
  | S ticks =>
    err ← checkPoolTrust c;
    match err : option error with
    | Some err => if errors_is ErrPublicTarget err then mret (Some err) else watchPoolTrust ticks c
    | None => watchPoolTrust ticks c
    end
  end.

(** [serve] between the construction of the fleet and its run. *)
Definition admitPools (c : appConfig) : P (option error) :=
  match ac_Pools c with None => mret None | Some _ => checkPoolTrust c end.
End trust.
