(* ===== verification/FleetTheorems.v ===== *)
(** What the validation of the settings is worth: settings that it accepts start a
    controller, pools that it accepts get their tiers, the slots of a Fly host fit its
    memory, and no pool host serves a target that GitHub has not called private. *)

From S2P Require Import Prelude Float64 GoStrings GoText GoNumbers GoPatterns Provider Retry PoolState.
From S2P Require Import HostAgent Placement PlacementTheorems CloudHTTP Registry Fly FlyHosts Hetzner.
From S2P Require Import HetznerHosts StaticHosts Controller ControllerTheorems Settings Program GitHubApp.
From S2P Require Import GitHubAppTheorems Fleet.

#[local] Open Scope string_scope.
#[local] Open Scope Z_scope.

(** The next check of a validation passed. *)
Ltac checked E :=
  lazymatch goal with |- (if ?c then Some _ else _) = None → _ => destruct c eqn:E; [done |] end.

Section settings.
Context `{!SettingsEnv, !DefaultRunnerGroup, !ParseIP, !SSHKeys, !HostKeys}.

Lemma validate_parts c c' :
  validate c = inr c' →
  ∃ pools, c' = withPoolsFile c pools ∧ validateIdentity c = None ∧ validateCompute c = None ∧ validateLimits c = None
    ∧ match ac_Pools c with
      | None => pools = None
      | Some f => ∃ f', validatePoolsFile c f = inr f' ∧ pools = Some f'
      end.
Proof.
  unfold validate. destruct (validateIdentity c); [done |]. destruct (validateCompute c); [done |].
  destruct (ac_Pools c) as [f|].
  - destruct (validatePoolsFile c f) as [|f'] eqn:Ef; [done |]. destruct (validateLimits c); [done |].
    intros [= <-]. exists (Some f'). split_and!; try done. by exists f'.
  - destruct (validateLimits c); [done |]. intros [= <-]. by exists None.
Qed.

Record acceptedLimits (c : appConfig) : Prop := mkAcceptedLimits {
  al_workers : 0 <= ac_MinWorkers c <= ac_MaxWorkers c ∧ 1 <= ac_MaxWorkers c;
  al_lifetime : Minute <= ac_RunnerMaxLifetime c <= 24 * Hour;
  al_budget : ac_RunnerMaxLifetime c <= ac_RunnerUsageBudget c ∧ Hour <= ac_RunnerBudgetWindow c;
  al_files : ac_RunnerBudgetFile c ≠ "" ∧ ac_RunnerStatusFile c ≠ "" ∧ ac_RunnerStatusFile c ≠ ac_RunnerBudgetFile c;
  al_retries : 1 <= ac_ProviderRetries c <= 20;
  al_launches : 1 <= ac_LaunchConcurrency c <= 64;
  al_idle : 0 <= ac_RunnerIdleTimeout c <= ac_RunnerMaxLifetime c;
  al_dangling : 0 <= ac_DanglingTimeout c <= ac_RunnerMaxLifetime c
}.

Lemma validateLimits_accepted c : validateLimits c = None → acceptedLimits c.
Proof.
  unfold validateLimits. checked E1. checked E2. checked E3. checked E4. checked E5. checked E6. checked E7.
  checked E8. checked E9. checked E10. checked E11. checked E12. intros _. clear E8 E9.
  apply String.eqb_neq in E5. apply orb_false_iff in E6 as [E6%String.eqb_neq E6'%String.eqb_neq].
  split; [.. | by split_and! | | | |]; breflect; lia.
Qed.

Lemma validateIdentity_accepted c :
  validateIdentity c = None →
  ac_ScaleSetName c ≠ "" ∧ ac_ControllerID c ≠ "" ∧ ac_EphemeralScaleSetName c ≠ ac_ScaleSetName c.
Proof.
  unfold validateIdentity. destruct (normalizeGitHubConfigURL _); [done |]. checked E1. checked E2. intros _.
  apply orb_false_iff in E1 as [E1%String.eqb_neq E1'%String.eqb_neq]. split_and!; [done.. |].
  apply andb_false_iff in E2 as [E2|E2%String.eqb_neq]; [|done].
  apply negb_false_iff, String.eqb_eq in E2. by rewrite E2.
Qed.

(** Where a controller with these settings keeps its journal. *)
Definition journalFile (c : appConfig) : string := JoinPath (Dir (ac_RunnerBudgetFile c)) "retirements.json".


(** * One accepted pool *)

(** What the slots of an accepted Fly pool are checked against. *)
Record acceptedFly (c : appConfig) (p : poolConfig) : Prop := mkAcceptedFly {
  af_slots : slotBounds p = true;
  af_fit : slotsFit p = true;
  af_hosts : hostBounds p = true;
  af_keep : 0 <= keepStopped p <= pc_MaxHosts p;
  af_follower : ∃ follow, follower c p = inr follow;
  af_source : ∃ source, FlyHosts.NewHostSource (flySourceConfig c p "read at startup") = inr source
}.

Record acceptedStatic (p : poolConfig) : Prop := mkAcceptedStatic {
  as_hosts : pc_MinHosts p = 0 ∧ pc_MaxHosts p = 0;
  as_source : ∃ source, NewStaticSource (pc_Billing p) (pc_HourlyPrice p) (pc_Currency p) (pc_Hosts p) = inr source
}.

Record acceptedPool (c : appConfig) (p : poolConfig) : Prop := mkAcceptedPool {
  ap_name : ValidName (pc_Name p) = true;
  ap_reserved : pc_Name p ≠ ephemeralTier;
  ap_image : pc_RunnerImage p ≠ "";
  ap_source : pc_Source p = poolSourceFly ∧ acceptedFly c p
              ∨ pc_Source p = poolSourceHetzner ∧ hostBounds p = true
              ∨ pc_Source p = poolSourceStatic ∧ acceptedStatic p
}.

(** The fields that the validation of a pool leaves as they were. *)
Definition sameIdentity (p p' : poolConfig) : Prop :=
  pc_Name p' = pc_Name p ∧ pc_Source p' = pc_Source p ∧ pc_RunnerImage p' = pc_RunnerImage p.

Lemma validateHetzner_accepted c p p' :
  validateHetzner c p = inr p' → sameIdentity p p' ∧ hostBounds p' = true.
Proof.
  unfold validateHetzner. passed E1. cbv zeta. passed E2. passed E3. passed E4. passed E5. passed E6. passed E7.
  passed E8. intros [= <-]. split; [done |]. by apply negb_false_iff in E6.
Qed.

Lemma validateFly_accepted c p p' : validateFly c p = inr p' → sameIdentity p p' ∧ acceptedFly c p'.
Proof.
  unfold validateFly. passed E1. passed E2. passed E3. cbv zeta.
  set (q := withFlyDefaults c p). passed E4. passed E5. set (r := withSlotMemory (slotMemory q) q).
  passed E6. passed E7. passed E8. passed E9. passed E10. passed E11.
  destruct (follower c r) as [|follow] eqn:Ef; [done |].
  destruct (FlyHosts.NewHostSource _) as [|source] eqn:Es; [done |]. intros [= <-].
  split; [done |]. apply negb_false_iff in E5, E6, E7.
  split; [done.. | blia | by exists follow | by exists source].
Qed.

Lemma validateStatic_accepted p p' : validateStatic p = inr p' → p' = p ∧ acceptedStatic p'.
Proof.
  unfold validateStatic. passed E1. destruct (pc_Hosts p) as [|h hs] eqn:Eh; [done |]. passed E2. passed E3.
  rewrite <- Eh. destruct (NewStaticSource _ _ _ _) as [|source] eqn:Es; [done |]. intros [= <-].
  split; [done |]. split; [blia | by exists source].
Qed.

Lemma validatePool_accepted c names p p' :
  validatePool c names p = inr p' → pc_Name p' = pc_Name p ∧ pc_Name p ∉ names ∧ acceptedPool c p'.
Proof.
  unfold validatePool. passed E1. passed E2. cbv zeta. set (q := withImage _ p). passed E3.
  destruct (Validate _); [done |].
  apply orb_false_iff in E1 as [Hv%negb_false_iff Hr%String.eqb_neq]. apply bool_decide_eq_false in E2.
  apply String.eqb_neq in E3. intros Hsource.
  assert (∃ r, sameIdentity q r ∧ p' = r
               ∧ (pc_Source r = poolSourceFly ∧ acceptedFly c r
                  ∨ pc_Source r = poolSourceHetzner ∧ hostBounds r = true
                  ∨ pc_Source r = poolSourceStatic ∧ acceptedStatic r)) as (r & (Hn & _ & Hi) & -> & Hr').
  { destruct (String.eqb_spec (pc_Source q) poolSourceHetzner) as [Hs|_].
    { destruct (validateHetzner_accepted _ _ _ Hsource) as [Hid Hb]. exists p'. split_and!; try done.
      right. left. split; [|done]. by rewrite (proj1 (proj2 Hid)). }
    destruct (String.eqb_spec (pc_Source q) poolSourceFly) as [Hs|_].
    { destruct (validateFly_accepted _ _ _ Hsource) as [Hid Hb]. exists p'. split_and!; try done.
      left. split; [|done]. by rewrite (proj1 (proj2 Hid)). }
    destruct (String.eqb_spec (pc_Source q) poolSourceStatic) as [Hs|_]; [|done].
    destruct (validateStatic_accepted _ _ Hsource) as [-> Hb]. exists q. split_and!; try done. by right; right. }
  split_and!; [done.. |]. by split; rewrite ?Hn, ?Hi.
Qed.

Lemma validatePools_accepted c names pools pools' :
  validatePools c names pools = inr pools' →
  Forall (acceptedPool c) pools' ∧ NoDup (map pc_Name pools') ∧ (∀ name, name ∈ map pc_Name pools' → name ∉ names)
  ∧ length pools' = length pools.
Proof.
  revert names pools'. induction pools as [|p pools IH]; intros names pools'; simpl.
  { intros [= <-]. split_and!; [exact (List.Forall_nil _) | apply NoDup_nil_2 | by intros ? ?%not_elem_of_nil | done]. }
  destruct (validatePool c names p) as [|p'] eqn:Ep; [done |].
  destruct (validatePools _ _ pools) as [|ps] eqn:Eps; [done |]. intros [= <-].
  apply validatePool_accepted in Ep as (Hname & Hnew & Hp). apply IH in Eps as (HF & HN & Hout & Hlen).
  rewrite <- Hname in Hnew. split_and!; simpl; [by apply Forall_cons | | | by rewrite Hlen].
  - apply NoDup_cons. split; [|done]. intros Hin%Hout. apply Hin, list_elem_of_here.
  - intros name [->|Hin%Hout]%elem_of_cons; [done |]. intros Hin'. by apply Hin, list_elem_of_further.
Qed.

(** Each pool of the file comes from one that was written. *)
Lemma validatePools_from c names pools pools' :
  validatePools c names pools = inr pools' →
  ∀ p', p' ∈ pools' → ∃ p seen, p ∈ pools ∧ validatePool c seen p = inr p'.
Proof.
  revert names pools'. induction pools as [|p pools IH]; intros names pools'; simpl.
  { intros [= <-] p' []%not_elem_of_nil. }
  destruct (validatePool c names p) as [|q] eqn:Ep; [done |].
  destruct (validatePools _ _ pools) as [|ps] eqn:Eps; [done |]. intros [= <-] p' [->|Hin]%elem_of_cons.
  - exists p, names. split; [apply list_elem_of_here | done].
  - destruct (IH _ _ Eps p' Hin) as (r & seen & Hr & Hv). exists r, seen. split; [by apply list_elem_of_further | done].
Qed.

Lemma validatePlacement_accepted eph names seen placement :
  validatePlacement eph names seen placement = None →
  NoDup placement ∧ (∀ n, n ∈ placement → n ∉ seen ∧ (n = ephemeralTier ∧ eph = true ∨ n ∈ names)).
Proof.
  revert seen. induction placement as [|n placement IH]; intros seen; simpl.
  { intros _. split; [apply NoDup_nil_2 |]. by intros n ?%not_elem_of_nil. }
  checked E1. apply bool_decide_eq_false in E1. intros Hrest.
  assert ((n = ephemeralTier ∧ eph = true ∨ n ∈ names) ∧ validatePlacement eph names (n :: seen) placement = None)
    as [Hn Hp].
  { destruct (String.eqb_spec n ephemeralTier).
    - destruct eph; [by split; [left |] | done].
    - destruct (bool_decide_reflect (n ∈ names)); [by split; [right |] | done]. }
  destruct (IH _ Hp) as [HN Hall]. split.
  - apply NoDup_cons. split; [|done]. intros Hin. by apply (proj1 (Hall n Hin)), list_elem_of_here.
  - intros m [->|Hin]%elem_of_cons; [done |]. destruct (Hall m Hin) as [Hs Hm]. split; [|done].
    intros Hm'. by apply Hs, list_elem_of_further.
Qed.

(** Whether the program has an ephemeral tier. *)
Definition hasEphemeral (c : appConfig) : bool := negb (String.eqb (ac_ComputeProvider c) computeProviderNone).

Record acceptedFile (c : appConfig) (f : poolsFile) : Prop := mkAcceptedFile {
  pa_trust : pf_Trust f = poolTrustPrivate;
  pa_pools : Forall (acceptedPool c) (pf_Pools f);
  pa_names : NoDup (map pc_Name (pf_Pools f));
  pa_placement : pf_Placement f ≠ [];
  pa_tiers : NoDup (pf_Placement f);
  pa_known : ∀ n, n ∈ pf_Placement f → n = ephemeralTier ∧ hasEphemeral c = true ∨ n ∈ map pc_Name (pf_Pools f)
}.

Lemma validatePoolsFile_accepted c f f' :
  validatePoolsFile c f = inr f' →
  acceptedFile c f' ∧ validatePools c [] (pf_Pools f) = inr (pf_Pools f').
Proof.
  unfold validatePoolsFile. passed E1. passed E2. passed E3.
  destruct (validatePools c [] (pf_Pools f)) as [|pools] eqn:Ep; [done |]. cbv zeta. fold (hasEphemeral c).
  set (placement := match pf_Placement f with [] => _ | _ => _ end).
  destruct (validatePlacement _ _ [] placement) eqn:Et; [done |]. intros [= <-]. split; [|done].
  destruct (validatePools_accepted _ _ _ _ Ep) as (HF & HN & _ & Hlen).
  destruct (validatePlacement_accepted _ _ _ _ Et) as [Hp Hknown].
  split; cbn; try done.
  - by apply negb_false_iff, String.eqb_eq in E1.
  - unfold placement. apply bool_decide_eq_false in E2. destruct (pf_Placement f); [|done].
    destruct pools; [|done]. simpl in Hlen. lia.
  - intros n Hn. apply (Hknown n Hn).
Qed.

(** * The memory of a Fly host *)

Lemma slotsFit_fits p :
  slotBounds p = true → slotsFit p = true → pc_SlotMemoryMB p <= 2 ^ 56 →
  MinimumSlotMemoryMB <= pc_SlotMemoryMB p
  ∧ pc_Slots p * pc_SlotMemoryMB p + flyHostReservedMB <= pc_MemoryMB p.
Proof.
  unfold slotBounds, slotsFit. intros Hs Hf%negb_true_iff Hm. breflect. unfold maximumPoolSlots, MinimumSlotMemoryMB, flyHostReservedMB in *.
  destruct Hs as [Hs1 Hs2], Hf as [Hmin Hfit].
  assert (0 <= pc_Slots p * pc_SlotMemoryMB p <= 2 ^ 62) by nia.
  rewrite (wrap64_id (_ * _)) in Hfit by (unfold in_int64, min_int64, max_int64; lia).
  rewrite wrap64_id in Hfit by (unfold in_int64, min_int64, max_int64; lia). lia.
Qed.

(** An equal share of the memory fits whatever the memory is. *)
Lemma slotMemory_share p :
  pc_SlotMemoryMB p = 0 → in_int64 (pc_MemoryMB p) → 1 <= pc_MemoryMB p → 1 <= pc_Slots p →
  slotMemory p <= pc_MemoryMB p ∧ (0 < slotMemory p → pc_Slots p * slotMemory p + flyHostReservedMB <= pc_MemoryMB p).
Proof.
  intros Hz Hm Hone Hs. unfold slotMemory. rewrite Hz. cbn [Z.eqb]. unfold in_int64, min_int64, max_int64, flyHostReservedMB in *.
  rewrite wrap64_id by (unfold in_int64, min_int64, max_int64; lia).
  set (room := Z.max 0 (pc_MemoryMB p - 1024)). assert (0 <= room <= pc_MemoryMB p) by lia.
  rewrite Z.quot_div_nonneg by lia.
  pose proof (Z.mul_div_le room (pc_Slots p) ltac:(lia)). pose proof (Z.div_pos room (pc_Slots p) ltac:(lia) ltac:(lia)).
  split; [nia |]. intros Hpos. enough (0 < room) by lia. nia.
Qed.

Lemma validateFly_memory c p p' :
  validateFly c p = inr p' →
  pc_MemoryMB p' = pc_MemoryMB p ∧ pc_Slots p' = pc_Slots p ∧ pc_SlotMemoryMB p' = slotMemory p ∧ 1 <= pc_MemoryMB p.
Proof.
  unfold validateFly. passed E1. passed E2. passed E3. cbv zeta.
  set (q := withFlyDefaults c p). passed E4. passed E5. set (r := withSlotMemory (slotMemory q) q).
  passed E6. passed E7. passed E8. passed E9. passed E10. passed E11.
  destruct (follower c r); [done |]. destruct (FlyHosts.NewHostSource _); [done |]. intros [= <-].
  apply orb_false_iff in E4 as [_ E4%Z.ltb_ge]. by split_and!.
Qed.

(** The slots of an accepted Fly pool fit the memory of its hosts, with what the host
    keeps for itself, whether the operator set the memory of a slot or left it to an
    equal share; and each slot has the least memory that a runner needs.  (A slot is
    written with at most [2 ^ 56] MB: beyond, the product wraps around, see
    [fly_slots_overflow].) *)
Theorem fly_slots_fit c f f' :
  validatePoolsFile c f = inr f' →
  Forall (λ p, in_int64 (pc_MemoryMB p) ∧ pc_SlotMemoryMB p <= 2 ^ 56) (pf_Pools f) →
  Forall (λ p, pc_Source p = poolSourceFly →
               1 <= pc_Slots p <= maximumPoolSlots ∧ MinimumSlotMemoryMB <= pc_SlotMemoryMB p
               ∧ pc_Slots p * pc_SlotMemoryMB p + flyHostReservedMB <= pc_MemoryMB p) (pf_Pools f').
Proof.
  intros (_ & Hpools)%validatePoolsFile_accepted Hwritten. apply Forall_forall. intros p' Hp' Hsource.
  destruct (validatePools_from _ _ _ _ Hpools p' Hp') as (p0 & seen & Hp0 & Hv).
  rewrite Forall_forall in Hwritten. destruct (Hwritten p0 Hp0) as [Hmem Hslot].
  assert (Hfly : validateFly c (withImage (ac_RunnerImage c) p0) = inr p').
  { destruct (validatePool_accepted _ _ _ _ Hv) as (_ & _ & [_ _ _ Hs]).
    revert Hv. unfold validatePool. passed E1. passed E2. cbv zeta. set (q := withImage _ p0). passed E3.
    destruct (Validate _); [done |].
    destruct (String.eqb_spec (pc_Source q) poolSourceHetzner) as [Eq|_].
    { intros [(_ & Heq & _) _]%validateHetzner_accepted. rewrite Heq, Eq in Hsource. done. }
    destruct (String.eqb_spec (pc_Source q) poolSourceFly); [done |].
    destruct (String.eqb_spec (pc_Source q) poolSourceStatic) as [Eq|_]; [|done].
    intros [-> _]%validateStatic_accepted. rewrite Eq in Hsource. done. }
  destruct (validateFly_accepted _ _ _ Hfly) as [_ [Hslots Hfit _ _ _ _]].
  destruct (validateFly_memory _ _ _ Hfly) as (Em & Es & Esm & Hm1).
  cbn in Em, Es, Hm1. assert (Hs : 1 <= pc_Slots p' <= maximumPoolSlots) by (unfold slotBounds in Hslots; blia).
  assert (pc_SlotMemoryMB p' <= 2 ^ 56 ∨ pc_SlotMemoryMB p0 = 0) as [Hle|Hz].
  { destruct (Z.eq_dec (pc_SlotMemoryMB p0) 0) as [Hz|Hz]; [by right |]. left. rewrite Esm. unfold slotMemory. cbn.
    destruct (Z.eqb_spec (pc_SlotMemoryMB p0) 0); [done | lia]. }
  - split; [exact Hs |]. by apply slotsFit_fits.
  - assert (Hmin : MinimumSlotMemoryMB <= pc_SlotMemoryMB p') by (unfold slotsFit in Hfit; apply negb_true_iff in Hfit; blia).
    split; [exact Hs |]. split; [done |]. rewrite Es, Em, Esm. rewrite Esm in Hmin. rewrite Es in Hs.
    apply (slotMemory_share (withImage (ac_RunnerImage c) p0)); [done | done | exact Hm1 | apply Hs |].
    unfold MinimumSlotMemoryMB in Hmin. lia.
Qed.

(** * Building the pools *)

(** The key that the hosts admit is read at the start; any key will do. *)
Lemma NewHostSource_key c p k k' source :
  FlyHosts.NewHostSource (flySourceConfig c p k) = inr source → TrimSpace k' ≠ "" →
  ∃ source', FlyHosts.NewHostSource (flySourceConfig c p k') = inr source'.
Proof.
  intros Hsrc Hk. apply String.eqb_neq in Hk. revert Hsrc. unfold FlyHosts.NewHostSource.
  passed E1. passed E2. passed E3. passed E4. passed E5. passed E6. unfold flySourceConfig in *.
  cbn [FlyHosts.hs_Pool FlyHosts.hs_APIToken FlyHosts.hs_App FlyHosts.hs_Region FlyHosts.hs_ControllerID FlyHosts.hs_HasHostKey FlyHosts.hs_AuthorizedKey FlyHosts.hs_CPUKind FlyHosts.hs_CPUs
       FlyHosts.hs_MemoryMB FlyHosts.hs_VolumeGB FlyHosts.hs_DockerDNS negb orb] in *.
  rewrite E1, E2, E4, E5, E6, Hk. unfold FlyHosts.hostConfig, FlyHosts.listedPrice.
  cbn [FlyHosts.hs_Slots FlyHosts.hs_SlotCPUs FlyHosts.hs_SlotMemoryMB FlyHosts.hs_Caches FlyHosts.hs_MinFreeDiskGB FlyHosts.hs_HourlyPrice FlyHosts.hs_CPUKind FlyHosts.hs_CPUs FlyHosts.hs_MemoryMB FlyHosts.hs_Region].
  destruct (Validate _); [done |]. destruct (normalizeDockerDNS _); [done |].
  repeat (case_match; try done); intros _; by eexists.
Qed.

(** What building a Hetzner pool needs of its source. *)
Definition hetznerBuilt (c : appConfig) (key : ControllerKey) (p : poolConfig) : Prop :=
  pc_Source p = poolSourceHetzner →
  ∃ source, HetznerHosts.NewHostSource (hetznerSourceConfig c p (AuthorizedKey key)) = inr source.

Lemma hostBounds_true p :
  hostBounds p = true → 0 <= pc_MinHosts p <= pc_MaxHosts p ∧ 1 <= pc_MaxHosts p <= maximumPoolHosts.
Proof. unfold hostBounds. intros Hb%negb_true_iff. blia. Qed.

(** [pool.New] takes what the settings ask for. *)
Lemma pool_New_accepted c p facts stops follow now :
  acceptedPool c p → ac_ControllerID c ≠ "" → Minute <= ac_RunnerMaxLifetime c →
  (Billing facts = BillingPerSecond ∧ CanCreate facts = true ∧ stops = true ∧ pc_Source p = poolSourceFly
   ∧ hostBounds p = true ∧ 0 <= keepStopped p <= pc_MaxHosts p)
  ∨ follow = None ∧ pc_Source p ≠ poolSourceFly
    ∧ (Billing facts = BillingPerStartedHour ∧ CanCreate facts = true ∧ hostBounds p = true
       ∨ (Billing facts = BillingOwned ∨ Billing facts = BillingPerSecond ∨ Billing facts = BillingPerStartedHour)
         ∧ CanCreate facts = false ∧ pc_MinHosts p = 0 ∧ pc_MaxHosts p = 0) →
  ∃ created, PoolState.New (poolSettings c p facts stops follow) now = inr created.
Proof.
  intros [Hv _ Hi _] Hctl Hlife Hsource. apply String.eqb_neq in Hi, Hctl.
  unfold PoolState.New, poolSettings. cbn. rewrite Hv, Hi, Hctl. cbn.
  replace (ac_RunnerMaxLifetime c <? Minute) with false by lia. unfold stopper. cbn.
  destruct Hsource as [(-> & -> & -> & Hf & Hb%hostBounds_true & Hk)|(-> & Hf & Hsource)].
  - unfold flyOnly. rewrite Hf, String.eqb_refl. cbn.
    replace ((pc_MinHosts p <? 0) || (pc_MaxHosts p <? 1) || (pc_MaxHosts p <? pc_MinHosts p)) with false by blia.
    rewrite andb_false_r. cbn.
    replace ((keepStopped p <? 0) || (pc_MaxHosts p <? keepStopped p)) with false by blia. by eexists.
  - unfold flyOnly. apply String.eqb_neq in Hf. rewrite Hf. cbn.
    destruct Hsource as [(-> & -> & Hb%hostBounds_true)|(Hbill & -> & -> & ->)]; cbn.
    + replace ((pc_MinHosts p <? 0) || (pc_MaxHosts p <? 1) || (pc_MaxHosts p <? pc_MinHosts p)) with false by blia.
      replace (pc_MaxHosts p <? 0) with false by lia. rewrite andb_false_r. cbn. by eexists.
    + destruct Hbill as [->|[->| ->]]; cbn; rewrite ?andb_false_r; cbn; by eexists.
Qed.

Lemma newPoolOf_accepted c key now p :
  acceptedPool c p → ac_ControllerID c ≠ "" → Minute <= ac_RunnerMaxLifetime c →
  TrimSpace (AuthorizedKey key) ≠ "" → hetznerBuilt c key p →
  ∃ cfg created, newPoolOf c key now p = inr (cfg, created).
Proof.
  intros Hp Hctl Hlife Hkey Hh. assert (Hsource := ap_source _ _ Hp). unfold newPoolOf, poolSource.
  destruct Hsource as [[Hs [_ _ Hb Hk (follow & Hfollow) (source & Hsource)]]|[[Hs Hb]|[Hs [Hb (source & Hsource)]]]].
  - destruct (NewHostSource_key _ _ _ _ _ Hsource Hkey) as [source' ->]. rewrite Hs, Hfollow. cbn.
    destruct (pool_New_accepted c p (FlyHosts.Facts source') true follow now Hp Hctl Hlife) as [[cfg created] ->];
      [left; destruct Hk; by split_and! | by eexists _, _].
  - destruct (Hh Hs) as [source ->]. unfold follower. rewrite Hs. cbn.
    destruct (pool_New_accepted c p (HetznerHosts.Facts source) false None now Hp Hctl Hlife) as [[cfg created] ->];
      [right; split_and!; [done | by rewrite Hs | by left] | by eexists _, _].
  - rewrite Hsource. unfold follower. rewrite Hs. cbn.
    assert (Hfacts : (Billing (ss_facts source) = BillingOwned ∨ Billing (ss_facts source) = BillingPerSecond
                      ∨ Billing (ss_facts source) = BillingPerStartedHour) ∧ CanCreate (ss_facts source) = false).
    { revert Hsource. unfold NewStaticSource. set (b := if String.eqb _ _ then _ else _). passed E.
      destruct (pc_Hosts p); [done |]. destruct (listHosts _ _); [done |]. intros [= <-]. cbn. split; [|done].
      apply negb_false_iff in E. apply orb_true_iff in E as [E|E%String.eqb_eq]; [|by right; right].
      apply orb_true_iff in E as [E%String.eqb_eq|E%String.eqb_eq]; [by left | by right; left]. }
    destruct (pool_New_accepted c p (ss_facts source) false None now Hp Hctl Hlife) as [[cfg created] ->];
      [right; split_and!; [done | by rewrite Hs | right; destruct Hfacts, Hb; by split_and!] | by eexists _, _].
Qed.

(** * The tiers *)

Context {Σ : Type} (poolWorkers : PoolState.Config → Pool → compute Σ).

(** The tier of a pool is the pool that its settings make. *)
Definition built (c : appConfig) (key : ControllerKey) (now : time) (p : poolConfig) (cm : compute Σ) : Prop :=
  ∃ cfg created, newPoolOf c key now p = inr (cfg, created) ∧ cm = poolWorkers cfg created.

Lemma createPools_built c key now pools (m : gmap string (compute Σ)) :
  Forall (λ p, ∃ cfg created, newPoolOf c key now p = inr (cfg, created)) pools → NoDup (map pc_Name pools) →
  ∃ m', createPools poolWorkers c key now pools m = inr m'
    ∧ (∀ p, p ∈ pools → ∃ cm, m' !! pc_Name p = Some cm ∧ built c key now p cm)
    ∧ (∀ n, n ∉ map pc_Name pools → m' !! n = m !! n).
Proof.
  revert m. induction pools as [|p pools IH]; intros m Hall Hnd; simpl.
  { exists m. split_and!; [done | by intros p ?%not_elem_of_nil | done]. }
  apply Forall_cons in Hall as [(cfg & created & Hp) Hall]. apply NoDup_cons in Hnd as [Hnew Hnd]. rewrite Hp.
  destruct (IH (<[pc_Name p := poolWorkers cfg created]> m) Hall Hnd) as (m' & Hm & Hin & Hout).
  exists m'. split_and!; [done | |].
  - intros q [->|Hq]%elem_of_cons; [|by apply Hin]. exists (poolWorkers cfg created).
    split; [by rewrite Hout, lookup_insert_eq | by exists cfg, created].
  - intros n [Hne Hn]%not_elem_of_cons. by rewrite Hout, lookup_insert_ne.
Qed.

(** A tier for each of some names, each of the compute of its name. *)
Definition tiersFor (m : gmap string (compute Σ)) (drain : bool) (names : list string) (ts : list (Tier Σ)) : Prop :=
  map tier_Name ts = names ∧ Forall (λ t, m !! tier_Name t = Some (tier_Compute t) ∧ tier_Drain t = drain) ts.

Lemma mapM_tierOf (m : gmap string (compute Σ)) drain names :
  (∀ n, n ∈ names → is_Some (m !! n)) → ∃ ts, mapM (tierOf m drain) names = Some ts ∧ tiersFor m drain names ts.
Proof.
  induction names as [|n names IH]; intros Hall.
  { exists []. split; [done |]. split; [done | exact (List.Forall_nil _)]. }
  destruct (Hall n (list_elem_of_here _ _)) as [cm Hcm].
  destruct IH as (ts & Hts & Hn & HF); [intros q Hq; by apply Hall, list_elem_of_further |].
  exists (mkTier n cm drain :: ts). split.
  { change (mapM (tierOf m drain) (n :: names))
      with (t ← tierOf m drain n; k ← mapM (tierOf m drain) names; Some (t :: k)).
    rewrite Hts. unfold tierOf. by rewrite Hcm. }
  split; [cbn; by rewrite Hn | by apply Forall_cons].
Qed.

Lemma elem_of_sortedNames (m : gmap string (compute Σ)) n : n ∈ sortedNames m ↔ is_Some (m !! n).
Proof.
  unfold sortedNames. rewrite merge_sort_Permutation, list_elem_of_fmap. split.
  - intros ([k cm] & -> & Hin%elem_of_map_to_list). by exists cm.
  - intros [cm Hcm]. exists (n, cm). split; [done | by apply elem_of_map_to_list].
Qed.

Lemma NoDup_sortedNames (m : gmap string (compute Σ)) : NoDup (sortedNames m).
Proof. unfold sortedNames. rewrite merge_sort_Permutation. apply NoDup_fst_map_to_list. Qed.

Lemma checkTiers_None (seen : list string) (ts : list (Tier Σ)) :
  NoDup (map tier_Name ts) → Forall (λ t, ValidName (tier_Name t) = true) ts →
  (∀ t, t ∈ ts → tier_Name t ∉ seen) → checkTiers seen ts = None.
Proof.
  revert seen. induction ts as [|t ts IH]; intros seen; [done |]. simpl.
  intros [Hnew Hnd]%NoDup_cons [Hv HF]%Forall_cons Hseen. rewrite Hv. simpl.
  rewrite bool_decide_eq_false_2 by (apply Hseen, list_elem_of_here). apply IH; [done.. |].
  intros q Hq [Heq|Hin]%elem_of_cons; [|by apply (Hseen q); [apply list_elem_of_further |]].
  apply Hnew. rewrite <- Heq. by apply list_elem_of_fmap_2.
Qed.

(** The tiers of a placement whose names all have a compute. *)
Lemma tiersOf_placed placement (m : gmap string (compute Σ)) :
  NoDup placement → placement ≠ [] → (∀ n, n ∈ placement → is_Some (m !! n)) →
  (∀ n, is_Some (m !! n) → ValidName n = true) →
  ∃ ts drained, tiersOf placement m = Some ts ∧ map tier_Name ts = app placement drained
    ∧ NoDup (map tier_Name ts)
    ∧ (∀ n, n ∈ map tier_Name ts ↔ is_Some (m !! n))
    ∧ Forall (λ t, m !! tier_Name t = Some (tier_Compute t)
                   ∧ tier_Drain t = negb (bool_decide (tier_Name t ∈ placement))) ts
    ∧ NewPlacement ts = inr (mkPlacement ts (spareTiers false ts)).
Proof.
  intros Hnd Hne Hsome Hvalid. unfold tiersOf.
  destruct (mapM_tierOf m false placement Hsome) as (listed & Hl & Hln & Hlf). rewrite Hl. cbn.
  set (rest := List.filter _ (sortedNames m)).
  assert (Hrest : ∀ n, n ∈ rest ↔ is_Some (m !! n) ∧ n ∉ placement).
  { intros n. unfold rest. rewrite list_elem_of_In, List.filter_In, <- list_elem_of_In, elem_of_sortedNames, negb_true_iff,
      bool_decide_eq_false. done. }
  destruct (mapM_tierOf m true rest) as (drained & Hd & Hdn & Hdf); [by intros n [? _]%Hrest |]. rewrite Hd. cbn.
  assert (Hall : ∀ n, n ∈ map tier_Name (app listed drained) ↔ is_Some (m !! n)).
  { intros n. rewrite map_app, Hln, Hdn, elem_of_app, Hrest. split; [intros [Hn|[Hn _]]; [by apply Hsome | done] |].
    intros Hn. destruct (decide (n ∈ placement)); [by left | by right]. }
  assert (HN : NoDup (map tier_Name (app listed drained))).
  { rewrite map_app, Hln, Hdn. apply NoDup_app. split_and!; [done | by intros n Hn [_ ?]%Hrest |].
    unfold rest. rewrite NoDup_ListNoDup. apply List.NoDup_filter, NoDup_ListNoDup, NoDup_sortedNames. }
  exists (app listed drained), rest. split_and!; [done | by rewrite map_app, Hln, Hdn | done | done | |].
  - apply Forall_app. split.
    + rewrite Forall_forall in Hlf |- *. intros t Ht. destruct (Hlf t Ht) as [? ->]. split; [done |].
      rewrite bool_decide_eq_true_2; [done |]. rewrite <- Hln. by apply list_elem_of_fmap_2.
    + rewrite Forall_forall in Hdf |- *. intros t Ht. destruct (Hdf t Ht) as [? ->]. split; [done |].
      rewrite bool_decide_eq_false_2; [done |]. apply (Hrest (tier_Name t)). rewrite <- Hdn. by apply list_elem_of_fmap_2.
  - destruct listed as [|t ts].
    { by rewrite <- Hln in Hne. }
    unfold NewPlacement. cbn [app]. rewrite (checkTiers_None [] (t :: app ts drained)); [| done | | by intros q _ ?%not_elem_of_nil].
    + apply Forall_cons in Hlf as [[_ Ht] _]. unfold launching. cbn. by rewrite Ht.
    + rewrite Forall_forall. intros q Hq. apply Hvalid, Hall, (list_elem_of_fmap_2 tier_Name), Hq.
Qed.

Lemma acceptedPool_settings c pools p : acceptedPool c p → acceptedPool (withPoolsFile c pools) p.
Proof.
  intros [Hn Hr Hi Hs]. split; [done.. |]. destruct Hs as [[Hs Hf]|Hs]; [left | by right]. split; [done |].
  destruct Hf as [Hf1 Hf2 Hf3 Hf4 Hf5 Hf6]. by split.
Qed.

Context (flyWorkers : Fly.Adapter → compute Σ) (hetznerWorkers : Hetzner.Adapter → compute Σ).

Lemma ephemeralCompute_some c eph :
  ephemeralCompute flyWorkers hetznerWorkers c = inr eph → (is_Some eph ↔ hasEphemeral c = true).
Proof.
  unfold ephemeralCompute, hasEphemeral. destruct (String.eqb (ac_ComputeProvider c) computeProviderNone).
  { intros [= <-]. split; [by intros [? [=]] | done]. }
  destruct (String.eqb _ "fly").
  { destruct (Fly.New _); [done |]. intros [= <-]. split; [done | by eexists]. }
  destruct (String.eqb _ "hetzner"); [|done]. destruct (Hetzner.New _); [done |]. intros [= <-]. split; [done | by eexists].
Qed.

(** The tiers of a fleet: the placement's in its order, then what it leaves out,
    draining; every pool and the ephemeral compute once, and nothing else. *)
Record fleetTiers (c : appConfig) (key : ControllerKey) (now : time) (f : poolsFile) (eph : option (compute Σ))
    (ts : list (Tier Σ)) : Prop := mkFleetTiers {
  ft_order : ∃ drained, map tier_Name ts = app (pf_Placement f) drained;
  ft_once : NoDup (map tier_Name ts);
  ft_drain : ∀ t, t ∈ ts → tier_Drain t = negb (bool_decide (tier_Name t ∈ pf_Placement f));
  ft_pools : ∀ p, p ∈ pf_Pools f → ∃ t, t ∈ ts ∧ tier_Name t = pc_Name p ∧ built c key now p (tier_Compute t);
  ft_ephemeral : ∀ cm, eph = Some cm → ∃ t, t ∈ ts ∧ tier_Name t = ephemeralTier ∧ tier_Compute t = cm;
  ft_only : ∀ t, t ∈ ts → tier_Name t ∈ map pc_Name (pf_Pools f) ∨ tier_Name t = ephemeralTier ∧ eph = Some (tier_Compute t)
}.

Lemma tiers_by_name (m : gmap string (compute Σ)) (ts : list (Tier Σ)) n cm (P : Tier Σ → Prop) :
  Forall (λ t, m !! tier_Name t = Some (tier_Compute t) ∧ P t) ts →
  (∀ n, n ∈ map tier_Name ts ↔ is_Some (m !! n)) → m !! n = Some cm →
  ∃ t, t ∈ ts ∧ tier_Name t = n ∧ tier_Compute t = cm.
Proof.
  intros HF Hall Hm. assert (Hn : n ∈ map tier_Name ts) by (apply Hall; by exists cm).
  apply list_elem_of_fmap in Hn as (t & -> & Ht). rewrite Forall_forall in HF. destruct (HF t Ht) as [Hc _].
  exists t. split_and!; [done | done |]. rewrite Hm in Hc. by injection Hc.
Qed.

Lemma withPools_builds c f key now contents eph :
  acceptedFile c f → ac_ControllerID c ≠ "" → Minute <= ac_RunnerMaxLifetime c →
  (is_Some eph ↔ hasEphemeral c = true) →
  se_ReadFile (pf_SSHKeyFile f) = inr contents → ParseControllerKey contents = inr key →
  TrimSpace (AuthorizedKey key) ≠ "" → Forall (hetznerBuilt c key) (pf_Pools f) →
  ∃ placement, withPools poolWorkers c f eph now = inr placement ∧ fleetTiers c key now f eph (pl_tiers placement).
Proof.
  intros [_ Hpools Hnd Hne Htiers Hknown] Hctl Hlife Heph Hread Hkey Hauth Hh.
  unfold withPools. rewrite Hread, Hkey. set (m0 := match eph with Some cm => _ | None => _ end).
  assert (Hm0 : ∀ n, m0 !! n = if String.eqb n ephemeralTier then eph else None).
  { intros n. unfold m0. destruct eph as [cm|]; [|by destruct (String.eqb n _)].
    destruct (String.eqb_spec n ephemeralTier) as [->|]; [by rewrite lookup_singleton_eq | by rewrite lookup_singleton_ne]. }
  destruct (createPools_built c key now (pf_Pools f) m0) as (m & Hm & Hin & Hout); [| done |].
  { rewrite Forall_forall in Hpools, Hh |- *. intros p Hp. apply newPoolOf_accepted; auto. }
  rewrite Hm. rewrite Forall_forall in Hpools.
  assert (Hreserved : ephemeralTier ∉ map pc_Name (pf_Pools f)).
  { intros (p & Heq & Hp)%list_elem_of_fmap. by destruct (Hpools p Hp) as [_ []]. }
  assert (Hdom : ∀ n, is_Some (m !! n) ↔ n ∈ map pc_Name (pf_Pools f) ∨ n = ephemeralTier ∧ is_Some eph).
  { intros n. destruct (decide (n ∈ map pc_Name (pf_Pools f))) as [Hn|Hn].
    - split; [by left |]. intros _. apply list_elem_of_fmap in Hn as (p & -> & Hp).
      destruct (Hin p Hp) as (cm & Hcm & _). by exists cm.
    - rewrite Hout, Hm0 by done. destruct (String.eqb_spec n ephemeralTier).
      + split; [by right | by intros [?|[_ ?]]].
      + split; [by intros [? [=]] | by intros [?|[? _]]]. }
  destruct (tiersOf_placed (pf_Placement f) m) as (ts & drained & Ht & Horder & Honce & Hnames & Hall & Hplace);
    [done | done | | |].
  { intros n [[-> Hs]|Hn]%Hknown; apply Hdom; [right | by left]. split; [done |]. by apply Heph. }
  { intros n [Hn|[-> _]]%Hdom; [|done]. apply list_elem_of_fmap in Hn as (p & -> & Hp). apply (ap_name _ _ (Hpools p Hp)). }
  rewrite Ht, Hplace. eexists. split; [done |]. cbn [pl_tiers].
  split; [by exists drained | done | | | |].
  - rewrite Forall_forall in Hall. intros t Ht'. apply (Hall t Ht').
  - intros p Hp. destruct (Hin p Hp) as (cm & Hcm & Hb).
    destruct (tiers_by_name m ts _ cm _ Hall Hnames Hcm) as (t & Ht' & Hn & <-). by exists t.
  - intros cm ->. apply (tiers_by_name m ts _ cm _ Hall Hnames). by rewrite Hout, Hm0.
  - intros t Ht'. rewrite Forall_forall in Hall. destruct (Hall t Ht') as [Hc _].
    destruct (decide (tier_Name t ∈ map pc_Name (pf_Pools f))) as [|Hn]; [by left |]. right.
    rewrite Hout, Hm0 in Hc by done. by destruct (String.eqb_spec (tier_Name t) ephemeralTier).
Qed.

End settings.

(** * Trust *)

Section trust.
Context {W : Type} `{!SettingsEnv, !AppWorld W, !AppJSON} (baseURL : string).

(** What GitHub said when a check of the settings passed. *)
Definition servesPrivate (l : list (appRequest * (error + appAnswer))) (c : appConfig) : Prop :=
  ∃ canonical owner token, normalizeGitHubConfigURL (ac_GitHubURL c) = inr (canonical, owner)
    ∧ saidPrivate baseURL l token (poolTarget canonical owner) (ac_RunnerGroup c).

Lemma checkPoolTrust_ends c (Q : option error → appSys W → Prop) s :
  (∀ r s', quietly (λ _, True) s s' → (r = None → servesPrivate (ap_log s') c) → Q r s') →
  ends (checkPoolTrust baseURL c) Q s.
Proof.
  intros HQ. unfold checkPoolTrust.
  destruct (normalizeGitHubConfigURL (ac_GitHubURL c)) as [err|[canonical owner]] eqn:En.
  { by apply HQ. }
  apply ends_bind with (allowed := λ _, True).
  assert (Hnext : ∀ token s1, quietly (λ _, True) s s1 →
    ends match token : error + string with
         | inl err => mret (Some err)
         | inr token =>
           err ← CheckPrivateTarget baseURL token (poolTarget canonical owner) (ac_RunnerGroup c);
           mret (match err : option error with Some err => Some (WrapError "pool hosts refused" err) | None => None end)
         end Q s1).
  { intros [err|token] s1 Hq1; [by apply HQ |].
    apply ends_bind with (allowed := λ _, True), run_CheckPrivateTarget; [done |].
    intros r s2 Hq2 Hr. apply HQ; [by etrans |]. intros Hnone. exists canonical, owner, token. split; [done |].
    apply Hr. by destruct r. }
  destruct (String.eqb _ ""); [|apply app_ret, (Hnext (inr _)); reflexivity].
  apply run_InstallationToken; [done |]. intros token s1 Hq1. by apply Hnext.
Qed.

(** The checks of a number of ticks, whatever they find. *)
Fixpoint checkEvery (ticks : nat) (c : appConfig) : prog (appSys W) (list (option error)) :=
  match ticks with
  | O => mret []
  | S ticks => err ← checkPoolTrust baseURL c; rest ← checkEvery ticks c; mret (err :: rest)
  end.

(** The first definite answer among them. *)
Definition firstPublic (checks : list (option error)) : option error :=
  match List.find (λ r, match r with Some err => errors_is ErrPublicTarget err | None => false end) checks with
  | Some r => r
  | None => None
  end.

(** C19: Pool hosts run jobs only for a target that GitHub has called private: a fleet with
    pools is admitted only after GitHub's own answer that the repository is private or
    internal, or that the runner group refuses public repositories; and what stops the
    controller later is the first hourly check with a definite answer to the contrary, a
    check that merely failed never does. *)
Theorem pools_private_only c (s : appSys W) :
  ac_Pools c ≠ None → ap_log s = [] →
  (evalP (admitPools baseURL c) s = None → servesPrivate (ap_log (execP (admitPools baseURL c) s)) c)
  ∧ ∀ ticks s', evalP (watchPoolTrust baseURL ticks c) s' = firstPublic (evalP (checkEvery ticks c) s').
Proof.
  intros Hpools _. split.
  - unfold admitPools. destruct (ac_Pools c); [|done].
    apply (checkPoolTrust_ends c (λ r s', r = None → servesPrivate (ap_log s') c) s). intros r s' _ Hr. exact Hr.
  - intros ticks. induction ticks as [|ticks IH]; intros s'; [done |]. cbn [watchPoolTrust checkEvery].
    rewrite !evalP_bind. unfold firstPublic. cbn.
    destruct (evalP (checkPoolTrust baseURL c) s') as [err|]; [destruct (errors_is ErrPublicTarget err) |].
    all: rewrite ?IH; done.
Qed.
End trust.

(** * A fleet to build *)

Module FleetDemo.

#[global] Instance literalIPs : ParseIP := Some.
#[global] Instance keys : HostKeys :=
  mkHostKeys (λ name, inr ("private " +:+ name, "public " +:+ name)) (λ text, text) (λ _, "{}").
#[global] Instance sshKeys : SSHKeys :=
  mkSSHKeys Some (λ contents, Some (Ed25519 contents)) (λ seed, inr ("ssh-ed25519 " +:+ seed))
    (λ key text, key +:+ text) (λ seed comment, Some (seed +:+ comment)).

Definition warm (slots slotMemory : Z) : poolConfig :=
  mkPoolConfig "warm" "fly" "" slots 0 3 f64_zero f64_zero slotMemory None [] None
    "" "" "" 0 0 "" "" [] "pool-app" "" "" 2 4096 0 0 None 0.
Definition metal : poolConfig :=
  mkPoolConfig "metal" "static" "" 0 0 0 f64_zero f64_zero 0 None [] None
    "" "" "" 0 0 "" "" [mkStaticHost "m1" "192.0.2.1" "ssh-ed25519 AAAA"] "" "" "" 0 0 0 0 None 0.
Definition cold : poolConfig :=
  mkPoolConfig "cold" "hetzner" "" 2 0 4 f64_zero f64_zero 0 None [] None
    "cx33" "" "" 7 0 "" "" [] "" "" "" 0 0 0 0 None 0.

(** The three pools, the Hetzner one and the ephemeral provider left out of the order;
    or a Fly pool alone, with slots of a given size. *)
Definition written (contents : string) : poolsFile :=
  if String.eqb contents "fits" then mkPoolsFile "private" "/keys/pool" [] [warm 2 0]
  else if String.eqb contents "overflows" then mkPoolsFile "private" "/keys/pool" [] [warm 64 (2 ^ 58)]
  else mkPoolsFile "private" "/keys/pool" ["metal"; "warm"] [warm 2 0; metal; cold].

Definition variables : list (string * string) :=
  [("GITHUB_CONFIG_URL", "https://github.com/o/r"); ("SCALE_SET_NAME", "ci"); ("GITHUB_TOKEN", "t");
   ("FLY_API_TOKEN", "fly"); ("RUNNER_FLY_APP", "workers"); ("RUNNER_FLY_REGION", "cdg"); ("HCLOUD_TOKEN", "hc");
   ("RUNNER_IMAGE", "registry.example/image:v1"); ("RUNNER_BUDGET_FILE", "/data/budget.json");
   ("RUNNER_POOLS_FILE", "/etc/pools.yaml")].

Definition settingsWith (more : list (string * string)) : SettingsEnv := {|
  se_Getenv name := default "" (list_to_map (M := gmap string string) (app more variables) !! name);
  se_KeyFile _ := mkKeyFile false false false false false false 0 false false None;
  se_Windows := false;
  se_ReadFile path := inr path;
  se_PoolsYAML contents := Some (written contents);
  se_ParseURL raw := Some (mkParsedURL "https" "github.com" "" false "" "" "" "/o/r");
  se_AppValid _ := Some (ErrorString "client ID is required");
  se_Version := "v1";
  se_CommitSHA := "abc"
|}.
#[global] Instance environment : SettingsEnv := settingsWith [].

Definition emptyConfig : appConfig :=
  mkAppConfig "" "" "" (mkGitHubAppAuth "" 0 "") "" "" "" "" "" "" "" "" "" "" "" "" "" "" 0 0 "" 0 0 0 0 0 "" "" 0 0 0
    "" "" 0 NaN NaN 0 0 0 "" "" None "".

Definition read : appConfig := match readConfig with inr c => c | inl _ => emptyConfig end.
Definition accepted (c : appConfig) : appConfig := match validate c with inr c => c | inl _ => emptyConfig end.

Definition noCompute : compute () :=
  mkCompute (λ _, mret (inl (ErrorString "down"))) (mret (inr [])) (λ _, mret None) None.
Definition key : ControllerKey := mkControllerKey "/keys/pool" "ssh-ed25519 /keys/pool".

Example configured : loadConfig = inr (accepted read).
Proof. vm_compute. done. Qed.

(** The tiers that come out, and which of them drain. *)
Example tiers :
  match withPools (λ _ _, noCompute) (accepted read) (default (written "") (ac_Pools (accepted read))) (Some noCompute) 0 with
  | inr placement => map (λ t, (tier_Name t, tier_Drain t)) (pl_tiers placement)
  | inl _ => []
  end = [("metal", false); ("warm", false); ("cold", true); ("ephemeral", true)].
Proof. vm_compute. done. Qed.
End FleetDemo.

Import FleetDemo.


(** A budget file of the journal's name is accepted, and then refused. *)
Lemma budget_named_as_journal :
  match @loadConfig (settingsWith [("RUNNER_BUDGET_FILE", "/data/retirements.json")]) _ _ _ _ with
  | inr c => Controller.New (controllerConfig c false) true true
             = inl (ErrorString "runner retirement queue must use a dedicated file")
  | inl _ => False
  end.
Proof. vm_compute. done. Qed.

(** No comparison with NaN holds, so no bound refuses it. *)
Lemma rate_NaN_accepted :
  match @loadConfig (settingsWith [("PROVIDER_RATE_LIMIT", "NaN")]) _ _ _ _ with
  | inr c => ac_ProviderRateLimit c = NaN
  | inl _ => False
  end.
Proof. vm_compute. done. Qed.

Definition fitting : poolsFile :=
  match validatePoolsFile read (written "fits") with inr f => f | inl _ => written "fits" end.

Lemma fly_slots_fit_witness :
  validatePoolsFile read (written "fits") = inr fitting
  ∧ Forall (λ p, pc_Source p = poolSourceFly →
               1 <= pc_Slots p <= maximumPoolSlots ∧ MinimumSlotMemoryMB <= pc_SlotMemoryMB p
               ∧ pc_Slots p * pc_SlotMemoryMB p + flyHostReservedMB <= pc_MemoryMB p) (pf_Pools fitting).
Proof.
  assert (E : validatePoolsFile read (written "fits") = inr fitting) by (vm_compute; done).
  split; [exact E |]. pose proof (fly_slots_fit read (written "fits") fitting E) as H. refine (H _). clear H.
  change (pf_Pools (written "fits")) with [warm 2 0]. apply Forall_cons. split; [split; [split; by vm_compute | by vm_compute] | exact (List.Forall_nil _)].
Defined.

(** Slots of [2 ^ 58] MB: sixty-four of them wrap around to nothing. *)
Lemma fly_slots_overflow :
  match validatePoolsFile read (written "overflows") with
  | inr f => Forall (λ p, pc_MemoryMB p < pc_Slots p * pc_SlotMemoryMB p) (pf_Pools f)
  | inl _ => False
  end.
Proof.
  assert (E : ∃ f p, validatePoolsFile read (written "overflows") = inr f ∧ pf_Pools f = [p]
                     ∧ pc_MemoryMB p = 4096 ∧ pc_Slots p = 64 ∧ pc_SlotMemoryMB p = 2 ^ 58).
  { eexists _, _. split; [vm_compute; reflexivity |]. by vm_compute. }
  destruct E as (f & p & -> & -> & Hm & Hs & Hslot). apply Forall_cons. split; [|exact (List.Forall_nil _)].
  rewrite Hm, Hs, Hslot. done.
Qed.


(** A fleet admitted for a private repository; and one for an organization whose default
    group takes public repositories, which is refused. *)
Lemma pools_private_only_witness :
  evalP (admitPools "" (accepted read)) AppDemo.start = None
  ∧ servesPrivate "" (ap_log (execP (admitPools "" (accepted read)) AppDemo.start)) (accepted read)
  ∧ ∀ ticks s', evalP (watchPoolTrust "" ticks (accepted read)) s' = firstPublic (evalP (checkEvery "" ticks (accepted read)) s').
Proof.
  assert (E : evalP (admitPools "" (accepted read)) AppDemo.start = None) by (vm_compute; reflexivity).
  assert (Hp : ac_Pools (accepted read) ≠ None) by (vm_compute; discriminate).
  pose proof (pools_private_only "" (accepted read) AppDemo.start Hp eq_refl) as [H1 H2].
  split; [exact E |]. split; [exact (H1 E) | exact H2].
Defined.

Definition organization : SettingsEnv :=
  mkSettingsEnv (@se_Getenv environment) (@se_KeyFile environment) false (@se_ReadFile environment) (@se_PoolsYAML environment)
    (λ raw, Some (mkParsedURL "https" "github.com" "" false "" "" "" "/o")) (@se_AppValid environment) "v1" "abc".

Example organization_stops :
  is_Some (evalP (@admitPools _ organization _ _ "" (accepted read)) AppDemo.start)
  ∧ errors_is ErrPublicTarget (default (ErrorString "") (evalP (@watchPoolTrust _ organization _ _ "" 3 (accepted read)) AppDemo.start)) = true.
Proof. vm_compute. split; [by eexists | done]. Qed.
