(* ===== verification/Route.v ===== *)
(** Switching a repository between the fleet and hosted runners
    (src/cmd/runneryard/route.go): reading, setting and removing the variable that
    workflows route by, with the operator's own [gh].

    The [gh] commands are the class [RouteWorld]: any function.  Every command goes to a
    log with its answer.  What the flag package parses is the record [routeOptions]. *)

From S2P Require Import Prelude Program Float64 GoStrings GoText GoNumbers GoPatterns Provider Retry PoolState.
From S2P Require Import GitHubApp HostAgent Placement CloudHTTP Registry Fly FlyHosts Hetzner HetznerHosts.
From S2P Require Import StaticHosts Controller Settings Fleet.

#[local] Open Scope string_scope.
#[local] Open Scope Z_scope.

Definition hostedLinuxRunner : string := "ubuntu-latest".

(** [^[A-Za-z0-9][A-Za-z0-9._-]{0,62}$] *)
Definition safeName : regexp := RCat (RClass alnum) (upTo 62 (RClass (λ c, alnum c || oneOf "._-" c))).

Record routeOptions := mkRouteOptions {
  ro_githubURL : string; ro_variable : string; ro_label : string; ro_dryRun : bool; ro_confirmCanary : bool
}.
Record routeState := mkRouteState { rs_Repository : string; rs_Variable : string; rs_Mode : string; rs_Runner : string; rs_Exists : bool }.
Record routeReceipt := mkReceipt {
  rr_Action : string; rr_Changed : bool; rr_DryRun : bool; rr_Repository : string; rr_Variable : string; rr_Runner : string
}.

(** A run of [gh]: its arguments and standard input. *)
Record ghCommand := mkGh { gh_Args : list string; gh_Stdin : string }.
Record ghAnswer := mkGhAnswer { ga_Output : string; ga_Failed : bool }.

Class RouteWorld (W : Type) := rw_Run : ghCommand → W → ghAnswer * W.

Record routeSys (W : Type) := mkRouteSys { rt_world : W; rt_log : list (ghCommand * ghAnswer) }.
Arguments mkRouteSys {W}.
Arguments rt_world {W}.
Arguments rt_log {W}.

(** [validRouteVariable]; a character beyond ASCII has no byte that is accepted. *)
Definition routeFirst (c : ascii) : bool := Ascii.eqb c "_" || upper_byte c.
Definition validRouteVariable (value : string) : bool :=
  match value with
  | "" => false
  | String c rest => (String.length value <=? 100)%nat && routeFirst c && string_forallb (λ c, routeFirst c || digit_byte c) rest
  end.

Section route.
Context {W : Type} `{!SettingsEnv, !RouteWorld W}.
Abbreviation P := (prog (routeSys W)).

Definition gh (c : ghCommand) : P ghAnswer :=
  act (λ s, let '(x, w) := rw_Run c (rt_world s) in (x, mkRouteSys w ((c, x) :: rt_log s))).

(** [routeRepository] *)
Definition routeRepository (raw : string) : string + string :=
  if String.eqb raw "" then inl "--github is required for routing changes; pass the exact repository URL"
  else match normalizeGitHubConfigURL raw with
  | inl err => inl err
  | inr (normalized, _) =>
    match splitOn "/" (TrimPrefix normalized "https://github.com/") with
    | [owner; repository] => inr (owner +:+ "/" +:+ repository)
    | _ => inl "--github must identify one repository, not an organization"
    end
  end.

Definition getVariable (repository variable : string) : ghCommand :=
  mkGh ["variable"; "get"; variable; "--repo"; repository; "--json"; "value"; "--jq"; ".value"] "".
Definition viewRepository (repository : string) : ghCommand :=
  mkGh ["repo"; "view"; repository; "--json"; "name"; "--jq"; ".name"] "".
Definition deleteVariable (repository variable : string) : ghCommand :=
  mkGh ["variable"; "delete"; variable; "--repo"; repository] "".
Definition setVariable (repository variable label : string) : ghCommand :=
  mkGh ["variable"; "set"; variable; "--repo"; repository] label.

Definition notFoundText (variable : string) : string := "variable " +:+ variable +:+ " was not found".

(** [inspectRoute] *)
Definition inspectRoute (repository variable : string) : P (string + routeState) :=
  response ← gh (getVariable repository variable);
  if negb (ga_Failed response) then
    let value := TrimSpace (ga_Output response) in
    mret (if String.eqb value "" then inl "GitHub returned an empty routing variable"
          else inr (mkRouteState repository variable "custom" value true))
  else if negb (Contains (ga_Output response) (notFoundText variable))
  then mret (inl "cannot read the routing variable; check gh auth status and repository Variables permission")
  else
  view ← gh (viewRepository repository);
  mret (if ga_Failed view then inl "repository is unavailable to the current gh identity"
        else inr (mkRouteState repository variable "hosted" hostedLinuxRunner false)).

Definition withChanged (r : routeReceipt) : routeReceipt :=
  mkReceipt (rr_Action r) true (rr_DryRun r) (rr_Repository r) (rr_Variable r) (rr_Runner r).

(** [disableRoute] *)
Definition disableRoute (current : routeState) (o : routeOptions) : P (string + routeReceipt) :=
  let receipt := mkReceipt "disable" false (ro_dryRun o) (rs_Repository current) (rs_Variable current) hostedLinuxRunner in
  if negb (rs_Exists current) then mret (inr receipt)
  else if ro_dryRun o then mret (inr (withChanged receipt))
  else
  response ← gh (deleteVariable (rs_Repository current) (rs_Variable current));
  if ga_Failed response && negb (Contains (ga_Output response) (notFoundText (rs_Variable current)))
  then mret (inl "failed to remove the routing variable; hosted-runner failover was not confirmed")
  else
  verified ← inspectRoute (rs_Repository current) (rs_Variable current);
  mret match verified with
  | inr state =>
    if rs_Exists state then inl "routing variable deletion could not be verified" else inr (withChanged receipt)
  | inl _ => inl "routing variable deletion could not be verified"
  end.

(** [enableRoute] *)
Definition enableRoute (current : routeState) (o : routeOptions) : P (string + routeReceipt) :=
  let receipt := mkReceipt "enable" false (ro_dryRun o) (rs_Repository current) (rs_Variable current) (ro_label o) in
  if rs_Exists current && String.eqb (rs_Runner current) (ro_label o) then mret (inr receipt)
  else if ro_dryRun o then mret (inr (withChanged receipt))
  else
  response ← gh (setVariable (rs_Repository current) (rs_Variable current) (ro_label o));
  if ga_Failed response then mret (inl "failed to set the routing variable; RunnerYard routing was not confirmed")
  else
  verified ← inspectRoute (rs_Repository current) (rs_Variable current);
  mret match verified with
  | inr state =>
    if negb (rs_Exists state) || negb (String.eqb (rs_Runner state) (ro_label o))
    then inl "routing variable update could not be verified" else inr (withChanged receipt)
  | inl _ => inl "routing variable update could not be verified"
  end.

Inductive routeCommand := RouteStatus | RouteEnable | RouteDisable.
Inductive routeOutput := StateOutput (s : routeState) | ReceiptOutput (r : routeReceipt).

Definition routeVerb (name : string) : option routeCommand :=
  if String.eqb name "status" then Some RouteStatus
  else if String.eqb name "enable" then Some RouteEnable
  else if String.eqb name "disable" then Some RouteDisable
  else None.

(** The checks of [runRouteWith] before the variable is read. *)
Definition admitRoute (command : routeCommand) (o : routeOptions) : string + string :=
  match routeRepository (ro_githubURL o) with
  | inl err => inl err
  | inr repository =>
    if negb (validRouteVariable (ro_variable o)) then inl "--variable must contain only uppercase letters, numbers, or underscores"
    else match command with
    | RouteEnable =>
      if negb (MatchString safeName (ro_label o)) || String.eqb (ro_label o) hostedLinuxRunner
      then inl "--label must be a non-hosted runner label"
      else if negb (ro_dryRun o) && negb (ro_confirmCanary o)
      then inl "refusing to enable the fleet without --confirm-canary after doctor and the canary pass"
      else inr repository
    | _ => inr repository
    end
  end.

(** [runRouteWith] of one of the commands. *)
Definition runRoute (name : string) (o : routeOptions) : P (string + routeOutput) :=
  match routeVerb name with
  | None => mret (inl "unknown route command")
  | Some command =>
    match admitRoute command o with
    | inl err => mret (inl err)
    | inr repository =>
      state ← inspectRoute repository (ro_variable o);
      match state with
      | inl err => mret (inl err)
      | inr state =>
        match command with
        | RouteStatus => mret (inr (StateOutput state))
        | RouteDisable => r ← disableRoute state o; mret (match r with inl err => inl err | inr r => inr (ReceiptOutput r) end)
        | RouteEnable => r ← enableRoute state o; mret (match r with inl err => inl err | inr r => inr (ReceiptOutput r) end)
        end
      end
    end
  end.
End route.

(** * What a switch guarantees *)

Definition reads (repository variable : string) (c : ghCommand) : Prop :=
  c = getVariable repository variable ∨ c = viewRepository repository.

Definition writes (command : routeCommand) (o : routeOptions) (repository : string) (c : ghCommand) : Prop :=
  match command with
  | RouteStatus => False
  | RouteEnable => c = setVariable repository (ro_variable o) (ro_label o)
  | RouteDisable => c = deleteVariable repository (ro_variable o)
  end.

(** What a write needs of the operator. *)
Definition mayWrite (command : routeCommand) (o : routeOptions) : Prop :=
  ro_dryRun o = false
  ∧ (command = RouteEnable → ro_confirmCanary o = true ∧ MatchString safeName (ro_label o) = true ∧ ro_label o ≠ hostedLinuxRunner).

(** What the latest answers say of the variable: its value, or that it is not there. *)
Definition inspected (repository variable : string) (value : option string) (l : list (ghCommand * ghAnswer)) : Prop :=
  match value with
  | Some value =>
    ∃ x, l = [(getVariable repository variable, x)] ∧ ga_Failed x = false ∧ TrimSpace (ga_Output x) = value
  | None =>
    ∃ x y, l = [(viewRepository repository, y); (getVariable repository variable, x)]
           ∧ ga_Failed x = true ∧ Contains (ga_Output x) (notFoundText variable) = true ∧ ga_Failed y = false
  end.

Section proofs.
Context {W : Type} `{!SettingsEnv, !RouteWorld W}.
Abbreviation log := (list (ghCommand * ghAnswer)).

(** The log of a run: reads, before and after one write at most. *)
Definition orderedLog (command : routeCommand) (o : routeOptions) (repository : string) (l : log) : Prop :=
  ∃ after before, Forall (λ x, reads repository (ro_variable o) x.1) (after ++ before)
    ∧ (l = (after ++ before)%list
       ∨ ∃ c x, l = (after ++ (c, x) :: before)%list ∧ writes command o repository c ∧ mayWrite command o).

Definition valueOf (s : routeState) : option string := if rs_Exists s then Some (rs_Runner s) else None.

Lemma inspect_ends repository variable (s s' : routeSys W) r :
  runP (inspectRoute repository variable) s = (r, s') →
  ∃ new, rt_log s' = (new ++ rt_log s)%list ∧ Forall (λ x, reads repository variable x.1) new
    ∧ match r with
      | inr st => rs_Repository st = repository ∧ rs_Variable st = variable ∧ inspected repository variable (valueOf st) new
      | inl _ => True
      end.
Proof.
  unfold inspectRoute, gh. cbn. destruct (rw_Run _ (rt_world s)) as [x w] eqn:Ex. cbn.
  assert (Hget : Forall (λ q : ghCommand * ghAnswer, reads repository variable q.1) [(getVariable repository variable, x)]).
  { apply Forall_cons. split; [by left | exact (List.Forall_nil _)]. }
  destruct (ga_Failed x) eqn:Ef; cbn [negb].
  - destruct (Contains _ _) eqn:Ec; cbn [negb].
    + cbn. destruct (rw_Run (viewRepository repository) w) as [y w2] eqn:Ey. cbn. intros [= <- <-].
      exists [(viewRepository repository, y); (getVariable repository variable, x)]. split; [done |]. split.
      { apply Forall_cons. split; [by right | done]. }
      destruct (ga_Failed y) eqn:Efy; [done |]. split_and!; [done.. |]. by exists x, y.
    + intros [= <- <-]. exists [(getVariable repository variable, x)]. by split_and!.
  - intros [= <- <-]. exists [(getVariable repository variable, x)]. split; [done |]. split; [done |].
    destruct (String.eqb_spec (TrimSpace (ga_Output x)) ""); [done |]. split_and!; [done.. |]. by exists x.
Qed.

(** The outcome of a switch: a receipt, except of a dry run that only says what it would
    do, names what was read of GitHub last. *)
Definition switched (command : routeCommand) (o : routeOptions) (repository : string) (r : string + routeReceipt) (l : log) : Prop :=
  match r with
  | inl _ => True
  | inr receipt =>
    rr_DryRun receipt = ro_dryRun o ∧ rr_Repository receipt = repository
    ∧ (rr_DryRun receipt = true ∧ rr_Changed receipt = true
       ∨ ∃ last before, l = (last ++ before)%list
           ∧ inspected repository (ro_variable o) (match command with RouteEnable => Some (ro_label o) | _ => None end) last
           ∧ (rr_Changed receipt = true → ∃ c x rest, before = ((c, x) :: rest)%list ∧ writes command o repository c))
  end.

Lemma inspected_reads repository variable value l :
  inspected repository variable value l → Forall (λ x, reads repository variable x.1) l.
Proof.
  destruct value; [intros (x & -> & _) | intros (x & y & -> & _)].
  - apply Forall_cons. split; [by left | exact (List.Forall_nil _)].
  - apply Forall_cons. split; [by right |]. apply Forall_cons. split; [by left | exact (List.Forall_nil _)].
Qed.

Lemma orderedLog_reads command o repository l :
  Forall (λ x, reads repository (ro_variable o) x.1) l → orderedLog command o repository l.
Proof. intros Hl. exists [], l. split; [done | by left]. Qed.

Lemma orderedLog_write command o repository c x after before :
  writes command o repository c → mayWrite command o → Forall (λ x, reads repository (ro_variable o) x.1) after →
  Forall (λ x, reads repository (ro_variable o) x.1) before → orderedLog command o repository (after ++ (c, x) :: before).
Proof.
  intros Hw Hm Ha Hb. exists after, before. split; [by apply Forall_app |]. right. exists c, x. by split_and!.
Qed.

(** After the write: the route is read again, and a receipt given if it is as wanted. *)
Definition wanted (command : routeCommand) (o : routeOptions) (st : routeState) : bool :=
  match command with RouteEnable => rs_Exists st && String.eqb (rs_Runner st) (ro_label o) | _ => negb (rs_Exists st) end.

Lemma verify_ends command o receipt err repository c x before (s : routeSys W) :
  rr_DryRun receipt = ro_dryRun o → rr_Repository receipt = repository →
  writes command o repository c → mayWrite command o → Forall (λ x, reads repository (ro_variable o) x.1) before →
  rt_log s = ((c, x) :: before)%list →
  let p := inspectRoute repository (ro_variable o) ≫= (λ verified, mret match verified with
             | inr st => if wanted command o st then inr (withChanged receipt) else inl err
             | inl _ => inl err
             end) in
  orderedLog command o repository (rt_log (execP p s)) ∧ switched command o repository (evalP p s) (rt_log (execP p s)).
Proof.
  intros Hdry Hrep Hw Hm Hb Hlog. cbv zeta. rewrite evalP_bind, execP_bind.
  destruct (runP (inspectRoute repository (ro_variable o)) s) as [verified s'] eqn:Ev.
  assert (E1 : evalP (inspectRoute repository (ro_variable o)) s = verified) by (unfold evalP; by rewrite Ev).
  assert (E2 : execP (inspectRoute repository (ro_variable o)) s = s') by (unfold execP; by rewrite Ev).
  rewrite E1, E2. destruct (inspect_ends _ _ _ _ _ Ev) as (new & Hl & Hnew & Hst).
  change (orderedLog command o repository (rt_log s')
          ∧ switched command o repository
              match verified with inr st => if wanted command o st then inr (withChanged receipt) else inl err | inl _ => inl err end
              (rt_log s')).
  rewrite Hl, Hlog.
  split; [by apply orderedLog_write |]. destruct verified as [e|st]; [done |].
  destruct (wanted command o st) eqn:Ewant; [|done]. destruct Hst as (_ & _ & Hins).
  cbn. split_and!; [done | done |]. right. exists new, ((c, x) :: before)%list. split; [done |]. split.
  - unfold valueOf, wanted in *. destruct command; destruct (rs_Exists st); try done.
    apply String.eqb_eq in Ewant. by rewrite <- Ewant.
  - intros _. by exists c, x, before.
Qed.

(** The receipt before anything is written. *)
Lemma unchanged_switched command o repository receipt l :
  inspected repository (ro_variable o) (match command with RouteEnable => Some (ro_label o) | _ => None end) l →
  rr_DryRun receipt = ro_dryRun o → rr_Repository receipt = repository → rr_Changed receipt = false →
  switched command o repository (inr receipt) l.
Proof.
  intros Hi Hd Hr Hc. split_and!; [done | done |]. right. exists l, []. rewrite app_nil_r. split_and!; [done | done |].
  by rewrite Hc.
Qed.

Lemma runP_gh c (s : routeSys W) : ∃ x, evalP (gh c) s = x ∧ rt_log (execP (gh c) s) = ((c, x) :: rt_log s)%list.
Proof. unfold gh, evalP, execP. cbn. destruct (rw_Run c (rt_world s)) as [x w]. by exists x. Qed.

Lemma disable_ends current o (s : routeSys W) :
  rs_Variable current = ro_variable o →
  inspected (rs_Repository current) (ro_variable o) (valueOf current) (rt_log s) →
  orderedLog RouteDisable o (rs_Repository current) (rt_log (execP (disableRoute current o) s))
  ∧ switched RouteDisable o (rs_Repository current) (evalP (disableRoute current o) s) (rt_log (execP (disableRoute current o) s)).
Proof.
  intros Hvar Hins. assert (Hreads := inspected_reads _ _ _ _ Hins). unfold disableRoute, valueOf in *. rewrite Hvar. cbv zeta.
  destruct (rs_Exists current) eqn:Ee; cbn [negb].
  2: { split; [by apply orderedLog_reads | by apply unchanged_switched]. }
  destruct (ro_dryRun o) eqn:Ed; [split; [by apply orderedLog_reads | cbn; rewrite Ed; split_and!; [done | done | by left]] |].
  assert (Hm : mayWrite RouteDisable o) by (by split).
  rewrite evalP_bind, execP_bind. destruct (runP_gh (deleteVariable (rs_Repository current) (ro_variable o)) s) as (x & -> & Hl).
  set (s1 := execP _ s) in *. destruct (_ && _).
  - cbn. rewrite Hl. split; [by apply (orderedLog_write _ _ _ _ _ []) | done].
  - set (receipt := mkReceipt _ _ _ _ _ _).
    pose proof (verify_ends RouteDisable o receipt "routing variable deletion could not be verified" (rs_Repository current)
                  _ x (rt_log s) s1 (eq_sym Ed) eq_refl eq_refl Hm Hreads Hl) as Hv. cbv zeta in Hv.
    rewrite evalP_bind, execP_bind in *. destruct (evalP (inspectRoute _ _) s1) as [e|st]; [exact Hv |].
    unfold wanted in Hv. by destruct (rs_Exists st).
Qed.

Lemma enable_ends current o (s : routeSys W) :
  rs_Variable current = ro_variable o →
  (ro_dryRun o = false → ro_confirmCanary o = true) → MatchString safeName (ro_label o) = true → ro_label o ≠ hostedLinuxRunner →
  inspected (rs_Repository current) (ro_variable o) (valueOf current) (rt_log s) →
  orderedLog RouteEnable o (rs_Repository current) (rt_log (execP (enableRoute current o) s))
  ∧ switched RouteEnable o (rs_Repository current) (evalP (enableRoute current o) s) (rt_log (execP (enableRoute current o) s)).
Proof.
  intros Hvar Hcanary Hlabel Hhosted Hins. assert (Hreads := inspected_reads _ _ _ _ Hins).
  unfold enableRoute, valueOf in *. rewrite Hvar. cbv zeta.
  destruct (rs_Exists current && String.eqb (rs_Runner current) (ro_label o)) eqn:Ee.
  { apply andb_true_iff in Ee as [Ee Er%String.eqb_eq]. rewrite Ee, Er in Hins.
    split; [by apply orderedLog_reads | by apply unchanged_switched]. }
  destruct (ro_dryRun o) eqn:Ed; [split; [by apply orderedLog_reads | cbn; rewrite Ed; split_and!; [done | done | by left]] |].
  assert (Hm : mayWrite RouteEnable o) by (split; [done |]; intros _; by split_and!; [apply Hcanary | |]).
  rewrite evalP_bind, execP_bind.
  destruct (runP_gh (setVariable (rs_Repository current) (ro_variable o) (ro_label o)) s) as (x & -> & Hl).
  set (s1 := execP _ s) in *. destruct (ga_Failed x).
  - cbn. rewrite Hl. split; [by apply (orderedLog_write _ _ _ _ _ []) | done].
  - set (receipt := mkReceipt _ _ _ _ _ _).
    pose proof (verify_ends RouteEnable o receipt "routing variable update could not be verified" (rs_Repository current)
                  _ x (rt_log s) s1 (eq_sym Ed) eq_refl eq_refl Hm Hreads Hl) as Hv. cbv zeta in Hv.
    rewrite evalP_bind, execP_bind in *. destruct (evalP (inspectRoute _ _) s1) as [e|st]; [exact Hv |].
    unfold wanted in Hv. by destruct (rs_Exists st), (String.eqb (rs_Runner st) (ro_label o)).
Qed.
End proofs.
